(* ===== verification/_CoqProject ===== *)
-Q . S2P
Prelude.v
CheckedInt.v
SafeBase.v
SafeScalars.v
SafeUint.v
SafeInt.v
SafeMap.v
SafeVector.v
SafeString.v
SafeArray.v
SafeTuple.v
SafeMultiSet.v
SafeBytes.v
ERC20.v
ERC721.v
DexLibrary.v
DexPair.v
DexFactory.v
DexRouter.v
ExecutionContext.v
Bytes.v
Conv.v
Blake2.v
Ripemd160.v
Hex.v
Json.v
Abi.v
DynamicContract.v
BlockObservers.v
Tx.v
Precompiles.v
Merkle.v
Messages.v
AnyVar.v
ContractHost.v
Gas.v
Fuel.v
RdPoS.v
FinalizedBlock.v
P2PEncoding.v
Sessions.v
DB.v
Storage.v
EventsDB.v
BaseContract.v
Ownable.v
TokenStore.v
NftStore.v
OrderBook.v
BookStore.v
ContractManager.v
CustomContracts.v
Snapshot.v
State.v
Queries.v
CallTracer.v
Restart.v
Consensus.v
Sync.v
Peers.v
Rpc.v
