(* ===== verification/Prelude.v ===== *)
(** * Verification of the AppLayer Blockchain Development Kit (BDK, C++)

    The BDK is a blockchain node whose smart contracts are EVM byte code or C++
    classes compiled into the node.  This library models the part of the node
    that decides what the chain state is: the safe variables C++ contracts keep
    their state in, the journal that makes an execution reversible, the message
    dispatcher with its C++, EVM and precompiled executors, the host that makes
    a transaction atomic, the rdPoS rules, the block and transaction
    processing of the global state, the storage, the peer-to-peer layer and
    drivers through which nodes exchange blocks, and the JSON-RPC interface
    through which clients use a node.

    ** How the parts interact

    [State::tryProcessNextBlock] validates a block ([rdPoS::validateBlock], one
    [validateTransactionInternal] per transaction), then runs
    [processTransaction] on each transaction: a [ContractHost] is built over an
    [ExecutionContext] on the state's maps, [execute] passes the transaction's
    message to [MessageDispatcher::onMessage], and the host's destructor commits
    or reverts the safe variables that were registered with it and the context.
    The dispatcher opens a checkpoint on the journal, moves the funds and hands
    the message to an executor; executors call back into the dispatcher for
    nested calls and creations.  A C++ contract is created by the contract
    manager, runs the function its table has for the selector of a call, and is
    written to the database and read back with the whole state by the dump
    manager; blocks are kept by the storage.  Blocks and transactions reach the
    state through the handlers of [ManagerNormal], the synchronisation at start
    and the validator's own loop; transactions and questions of clients through
    [jsonrpc::call].

    ** Files and sources (all sources under src/src/)

    - [Prelude]: exceptions, the state-and-exception monad [M], invariants of
      monadic code ([preserves]), machine-width integers, big-endian bytes,
      sums over finite maps, the hint database [bdk].
    - [CheckedInt]: the numbers of [UintType] (contract/variables/safeuint.h):
      built-in widths wrap, the others are Boost's checked numbers, given by the
      class [BoostInt] with the laws its documentation states; [boost_ref] is an
      instance.
    - [SafeBase]: contract/variables/safebase.h, contract/contractstack.h and
      the variable part of [~ContractHost].  The class [SafeVar] is the
      interface a variable type offers to the host; [finish_revert] and
      [finish_commit] are proved against it.
    - [SafeScalars] (safebool.h, safeaddress.h), [SafeUint] (safeuint.h),
      [SafeInt] (safeint.h), [SafeMap] (safeunorderedmap.h), [SafeVector]
      (safevector.h), [SafeString] (safestring.h), [SafeArray] (safearray.h),
      [SafeTuple] (safetuple.h), [SafeMultiSet] (safemultiset.h), [SafeBytes]
      (safebytes.h): one file per variable type, instances of [SafeVar];
      [AnyVar] is the sum of the ones the host can register.  The limits of
      std::string are the class [StringLimits], the comparison of a multiset
      is any [StrictWeak] order.
    - [ExecutionContext]: contract/executioncontext.cpp and .h,
      utils/transactional.h, the account record of utils/utils.h.  [World] is
      the shared chain state, [Undo] one journal entry, [Ctx] the context.
    - [Bytes]: the byte encodings of utils/utils.h and utils/utils.cpp.
    - [Conv]: utils/uintconv.cpp, intconv.cpp, evmcconv.cpp, strconv.cpp;
      Boost's import and export of bits is the class [BoostBits].  [Hex]:
      utils/hex.h and hex.cpp.
    - [Abi]: contract/abi.h and abi.cpp, over the universe [abi_type] of the C++
      types the templates accept; the narrowing casts are the class [AbiCasts].
    - [Messages]: contract/messagedispatcher.h, cppcontractexecutor.h,
      evmcontractexecutor.cpp, precompiledcontractexecutor.cpp, gas.h, costs.h,
      common.cpp.  The EVM interpreter and the bodies of C++ contracts are
      parameters (class [Externals]) that answer with interaction trees
      ([VmProg], [CppProg]): what they do next depends on every reply.
    - [CallTracer]: contract/calltracer.h and trace/call.h, calltype.h,
      callstatus.h, around any message handler.
    - [DynamicContract]: contract/dynamiccontract.h, the tables of functions and
      the dispatch of encoded calls; [BlockObservers]: contract/blockobservers.h
      and .cpp, where the priority queue is the class [Heap].
    - [DB]: utils/db.h and db.cpp over the class [RocksDB] of what the engine
      documents, with [sorted_store] an instance; [Storage]: core/storage.cpp; [EventsDB]:
      utils/eventsdb.cpp, over the class [SqlOrder] of SQLite's ordering.
    - [BaseContract]: contract/contract.h, with the class [Walk] (the order in
      which an unordered map is walked) and the class [StoredContract] of what a
      contract promises about its database form; [Ownable], [TokenStore],
      [NftStore] give its instances for templates/ownable.cpp,
      standards/erc20.cpp, mintableerc20.cpp, nativewrapper.cpp and
      standards/erc721.cpp.
    - [ContractManager]: contract/contractfactory.h and contractmanager.cpp, over
      the class [ContractTypes] of the registered types with the laws
      [TypesLaws]; [CustomContracts]: contract/customcontracts.h, their instance.
    - [Snapshot]: core/dump.cpp, and the dump and loading of core/state.cpp and
      core/rdpos.cpp.  [Restart]: the rest of the constructor of core/state.cpp,
      which replays the blocks stored above the snapshot.
    - [Blake2], [Ripemd160]: contract/precompiles/blake2f.cpp and ripemd160.hpp,
      each with the function its specification defines; [Precompiles]: modexp.cpp,
      ecrecover.cpp, sha256.cpp and ripemd160.cpp.
    - [P2PEncoding]: net/p2p/encoding.h and .cpp, the layout of peer-to-peer
      messages.  [Sessions]: net/p2p/session.cpp and managerbase.cpp, the
      connections of a node and its pending requests; the order of node ids is
      the class [NodeOrder].  [Peers]: net/p2p/managernormal.cpp,
      nodeconns.cpp and broadcaster.cpp, what a node does with messages.
    - [Json]: net/http/jsonrpc/parser.h and .cpp, variadicparser.h, blocktag.h and
      .cpp, error.h, over JSON values; regular expressions are matched by
      derivatives, and the text of JSON is the class [JsonText].  [Rpc]: net/http/jsonrpc/methods.h and .cpp, call.cpp and
      net/http/httpparser.cpp on the node of [Peers]; a method is a [Handler].
    - [Consensus]: the validator's loop of core/consensus.cpp; what other threads
      do meanwhile is part of a [Turn].  [Sync]: core/blockchain.cpp (Syncer),
      the puller of consensus.cpp and the serving of blocks; what the network
      does is a sequence of [Round]s.
    - [ContractHost]: contract/contracthost.h and .cpp, and a concrete instance
      [demo] of the parameters for the witnesses.
    - [Gas]: the gas accounting across all executors.
    - [RdPoS]: core/rdpos.cpp, utils/randomgen.h.
    - [State]: core/state.cpp.  [Queries]: its operations for clients (ethCall,
      estimateGas, the queries about contracts).
    - [Tx]: utils/tx.h and tx.cpp, with [verifySig] and [makeSig] of
      utils/ecdsa.cpp; the elliptic-curve functions are the class [Secp256k1].
    - [Merkle]: utils/merkle.cpp.  [FinalizedBlock]: utils/finalizedblock.cpp.
    - [ERC20]: contract/templates/standards/erc20.cpp, mintableerc20.cpp and the
      token part of nativewrapper.cpp, over the safe variables.  [ERC721]:
      standards/erc721.cpp, with receivers that call back.
    - [DexLibrary], [DexPair], [DexFactory], [DexRouter]: the exchange of
      contract/templates/dexv2 (with variables/reentrancyguard.h).  A pair works
      on any tokens that offer [TokenWorld]; [TokenLaws] is what it relies on
      from honest ones, and the tokens of [ERC20] are an instance.  The factory
      and the router see pairs through [PairWorld] and [RouterWorld].
    - [OrderBook]: contract/templates/orderbook/orderbook.h and orderbook.cpp
      over tokens that offer [TokenWorld] and [SpenderWorld] (laws
      [SpenderLaws]); [PriceTime] is the order of a side.  [BookStore]: its dump
      and its constructor from the database.
    - [Fuel]: the nesting of messages is bounded by their gas.

    ** What the theorems show

    - Variables: arithmetic is exact or throws without effect
      ([uint_arith_exact], [int_arith_exact]); any sequence of operations is
      undone by [revert] ([uint_ops_revert], [map_ops_revert],
      [vec_ops_revert], [string_ops_revert], [arr_ops_revert],
      [mset_ops_revert]); the map refines a finite map ([map_refines_spec]), the
      multiset a bag ([multiset_refines_bag]); string searches are exact
      ([string_search_correct]).
    - Journal: a checkpoint or the whole context can be reverted whatever
      happened since ([checkpoint_revert_restores],
      [context_revert_restores]); transfers keep the sum of balances.
    - Messages: a throwing message restores the state
      ([onMessage_throw_restores]), a failed C++ call cannot be hidden
      ([cpp_failure_sticks]), gas never grows ([gas_never_increases]); a trace is
      the tree of the calls made ([call_trace_is_tree]).
    - Host and state: a transaction is atomic ([execute_atomic]), a simulation
      changes nothing, a failed transaction costs its fee and nonce only, a
      payment moves exactly its value, the mempool and block rules are exact.
      The revert of variables is proved of the types that obey [VarOps]; of
      [SafeTuple], the hinted insertions of a map and the swap of a multiset it
      is false (see the defects).
    - rdPoS: block validation is total and accepts exactly the blocks that obey
      the rules; the mempool and round invariants.
    - Bytes: transactions, validator transactions, accounts and whole blocks are
      read back from what the node writes ([TxBlock_roundtrip],
      [TxValidator_roundtrip], [Account_roundtrip], [block_roundtrip]); reading a
      block does not depend on the number of threads.
    - Numbers and text: the conversions of every width are inverse to each other
      ([uint_conversions_roundtrip]), hexadecimal text is read back
      ([hex_roundtrip]) and RPC quantities are canonical
      ([rpc_quantity_canonical]).
    - ABI: arguments of any nesting are decoded as they were encoded
      ([abi_roundtrip]), and the decoder returns what the data lay out and reads
      outside them in two cases only ([abi_decode_exact]).
    - Tokens: supply and balances agree after any calls
      ([erc20_supply_invariant], [nft_supply_invariant]); [transferFrom] is exact
      ([transferFrom_correct], [nft_transferFrom_correct]); the owner of an
      ownable contract changes by calls of the owner only
      ([ownership_moves_by_owner]).
    - Contracts: a call runs the function it selects ([call_runs_function]), a
      static call changes nothing ([static_calls_pure]), observers are notified
      once each ([observers_notified]), the manager creates what it is asked for
      ([manager_calls_correct]).
    - Storage: queries are exact ([db_queries_correct]); the storage is the list
      of its blocks ([storage_keeps_chain]); tokens, collections and the whole
      chain are read back from the database ([token_survives_restart],
      [nft_survives_restart], [restart_restores]), and a node that replays its
      blocks reaches the state of one that never stopped ([replay_rejoins]);
      events are found again ([events_found]).
    - Cryptography: the unrolled code computes the specified functions
      ([blake2f_correct], [ripemd160_correct]).
    - Peers: messages are decoded to what was encoded
      ([p2p_messages_roundtrip]); the registry of sessions has valid entries in
      every interleaving and is one to one without ([sessions_consistent]), two nodes agree on their connection
      ([simultaneous_connect_agrees]), answers find their requests
      ([request_answered]), a broadcast is acted on once ([gossip_once]) and the
      table of peers is exact ([peers_known]).
    - Clients: what the interface writes it reads ([rpc_values_roundtrip]); a
      request with an id is answered unless its answer is not UTF-8
      ([rpc_always_answers]); a transaction that
      is sent is kept, passed on and found ([sent_transaction_found]); the chain
      is answered as it is stored ([rpc_chain_queries]); the gas estimate is
      enough and costs nothing ([estimate_covers_gas]).
    - Drivers: a validator's own block is valid ([own_block_valid]); a node
      catches up with honest peers ([sync_catches_up]).
    - Exchange: a swap never shrinks the product of the reserves
      ([swap_keeps_k]), shares lose value to the protocol's fee only
      ([shares_keep_value]), prices are exact ([dex_prices]) and trades at the
      quoted price go through ([quoted_swap_returns]); the router keeps its
      users' limits ([router_limits]) and the factory its registry
      ([createPair_correct]).
    - Order book: it holds the tokens its asks offer and keeps price-time
      priority over any calls ([asks_backed]), asks can always be taken back
      ([ask_refundable]), and its loops end ([order_loops_end]).
    - Defects found: theorems about [evm_create_mints_value],
      [accepted_block_can_fail_midway], [copy_code_of_evm_contract_is_empty],
      [transient_store_ignored], [map_insert_hint_revert_deletes],
      [int_mul_negative_throws], [TxBlock_55_bytes_refused], [getProof_correct]
      (second case), [TxBlock_rlpSize_misses_header], [dust_blocks_swaps],
      [getReserves_not_sorted], [reload_loses_pairs], [tuple_revert_last_only],
      [int256_bytes] (third case), [forRPC_strips_zeros],
      [abi_offset_unchecked], [fixed_bytes_stuck], [mint_takes_existing],
      [nft_survives_restart] (operator approvals), [nonpayable_value_accepted],
      [overflowing_step_never_ends], [one_past_accepted],
      [short_info_read_outside], [last_by_prefix_hidden],
      [absent_block_read_outside], [second_create_fails],
      [small_code_refuses_restart], [replay_rejoins] (events stored twice),
      [modexp_left_aligned], [limit_bid_inverted],
      [market_bid_spins], [reload_forgets_orders], [lost_race_ends_loop],
      [sync_never_ends], [replacement_race], [rpc_always_answers] (a request
      without an id, an answer that is not UTF-8), [manager_calls_correct] (the
      observers of a refused contract), [void_call_swallows_siblings],
      [creation_traces_last_call], [fee_history_oldest], [unknown_block_query_undefined],
      [uint256_numbers_refused] and the examples of [Abi] and
      [OrderBook]
      state what the code does where it does not do what it means to.

    States are compared up to accounts that are all zero: reading an unknown
    account inserts a default one that no journal entry removes ([world_equiv],
    the setoid of [World]).  A revert restores no C++ contract over which an EVM
    contract was deployed, because [notifyNewContract] replaces its entry without
    a journal record: the history variable [overwritten_] of [Ctx] collects the
    addresses where this can happen, and states are compared outside of it
    ([world_upto]).

    ** Bounds and fuel

    [onMessage] is recursive through the executors; its fuel bounds the nesting
    of messages.  Running out of fuel is [undefined_behaviour], which no handler
    of the model catches.  A nested message has less gas than the message that
    makes it, so a fuel above the gas is enough: more fuel changes nothing
    ([onMessage_fuel_enough]).  The safety theorems hold for every fuel and the
    ones that a call returns ([processTransaction_payment]) for every positive
    fuel.  The other loops have the length of their data as fuel
    ([layers_end] for the Merkle tree, [count_frames] for blocks,
    [order_loops_end] for the order book: two more than the resting orders; its
    market bid can spin until its gas is used up and takes the fuel as an
    argument; [collect_blocks] has two rounds more than the latest height).  The
    loops of threads take their rounds as an argument: [sync_catches_up] needs one
    per missing block and one more, [sync_never_ends] holds for any number.
    Integers are [Z] with the width of the C++ type stated by [in_range] and
    wrap-around written out.

    ** Not modelled

    Sockets, timers and threads of the network and of HTTP, the text of JSON and
    ABCI (input and output); three RPC methods (the two that show traces and
    appl_dumpState, a parameter of [Rpc]); the discovery of nodes; the CometBFT driver and doValidatorBlock and
    doValidatorTx of the validator, which nothing calls; Keccak, SHA-256
    and the elliptic curve (parameters, since their code is in libraries); the
    EVM interpreter; the JSON description of contract functions (templates over
    C++ types); locks and threads (each modelled method runs under the state's
    mutex); the JSON form of a call trace and its storing; the contracts that are
    examples or games. *)

From stdpp Require Export base tactics option list list_numbers numbers gmap fin_maps strings.
From Stdlib Require Export ZArith Lia Sorting.Sorted.

Open Scope Z_scope.

(** ** C++ exceptions

    Every [throw] of the modelled code is a value of [exn].  [boost_error]
    is what a checked Boost multiprecision number raises; [undefined_behaviour]
    marks a point where the C++ program has no defined result (it is never a
    catchable exception of the program, and theorems that exclude it say so). *)
Inductive exn :=
| DynamicException (msg : string)
| overflow_error (msg : string)
| underflow_error (msg : string)
| domain_error (msg : string)
| out_of_range
| length_error (msg : string)
| runtime_error (msg : string)
| invalid_argument (msg : string)
| boost_error
| OutOfGas
| VMExecutionError (data : list Z)
| undefined_behaviour.

#[export] Instance exn_eq_dec : EqDecision exn.
Proof. solve_decision. Defined.

(** The result of a computation that returns or throws. *)
Inductive outcome (A : Type) :=
| Ret (a : A)
| Throw (e : exn).
Arguments Ret {A} a.
Arguments Throw {A} e.

#[export] Instance outcome_eq_dec {A} `{EqDecision A} : EqDecision (outcome A).
Proof. solve_decision. Defined.

#[export] Instance outcome_ret : MRet outcome := @Ret.
#[export] Instance outcome_bind : MBind outcome := λ A B f m,
  match m with Ret a => f a | Throw e => Throw e end.

Lemma outcome_bind_Ret {A C} (m : outcome A) (k : A → outcome C) c :
  m ≫= k = Ret c → ∃ a, m = Ret a ∧ k a = Ret c.
Proof. destruct m; [by eauto|done]. Qed.

(** [returns m]: the computation ends without an exception. *)
Definition returns {A} (m : outcome A) : bool :=
  match m with Ret _ => true | Throw _ => false end.

(** Imperative code on a mutable state [S]: a C++ exception does not undo the
    writes made before it, so the state comes back in both cases. *)
Definition M (S A : Type) : Type := S → outcome A * S.

#[export] Instance M_ret {S} : MRet (M S) := λ A a s, (Ret a, s).
#[export] Instance M_bind {S} : MBind (M S) := λ A B f m s,
  match m s with
  | (Ret a, s') => f a s'
  | (Throw e, s') => (Throw e, s')
  end.

Definition throw {S A} (e : exn) : M S A := λ s, (Throw e, s).
Definition gets {S A} (f : S → A) : M S A := λ s, (Ret (f s), s).
Definition modify {S} (f : S → S) : M S unit := λ s, (Ret (), f s).
Definition lift {S A} (o : outcome A) : M S A := λ s, (o, s).

(** Run code on a component of the state, seen through a getter and a setter. *)
Definition zoom {S T A} (get : S → T) (set : T → S → S) (m : M T A) : M S A :=
  λ s, let '(r, t) := m (get s) in (r, set t s).

(** [if (b) throw e;] *)
Definition throw_if {S} (b : bool) (e : exn) : M S unit :=
  if b then throw e else mret ().

(** A loop over a list of items, in order. *)
Fixpoint for_each {S A} (f : A → M S unit) (l : list A) : M S unit :=
  match l with
  | [] => mret ()
  | x :: l => f x ;; for_each f l
  end.

(** ** Inverting a run of imperative code *)

Lemma bind_Ret {S A B} (m : M S A) (k : A → M S B) s b s' :
  (m ≫= k) s = (Ret b, s') ↔ ∃ a s1, m s = (Ret a, s1) ∧ k a s1 = (Ret b, s').
Proof.
  unfold mbind, M_bind. destruct (m s) as [[a|e] s1]; naive_solver.
Qed.

Lemma bind_Throw {S A B} (m : M S A) (k : A → M S B) s e s' :
  (m ≫= k) s = (Throw e, s') ↔
  m s = (Throw e, s') ∨ ∃ a s1, m s = (Ret a, s1) ∧ k a s1 = (Throw e, s').
Proof.
  unfold mbind, M_bind. destruct (m s) as [[a|e'] s1]; naive_solver.
Qed.

Lemma bind_outcome_Ret {A B} (m : outcome A) (k : A → outcome B) b :
  m ≫= k = Ret b ↔ ∃ a, m = Ret a ∧ k a = Ret b.
Proof. destruct m; cbn; naive_solver. Qed.

Lemma bind_run {S A B} (m : M S A) (k : A → M S B) s a s1 :
  m s = (Ret a, s1) → (m ≫= k) s = k a s1.
Proof. intros H. unfold mbind, M_bind. by rewrite H. Qed.

Lemma bind_run_throw {S A B} (m : M S A) (k : A → M S B) s e s1 :
  m s = (Throw e, s1) → (m ≫= k) s = (Throw e, s1).
Proof. intros H. unfold mbind, M_bind. by rewrite H. Qed.

Lemma bind_cong {S A B} (m : M S A) (k k' : A → M S B) s :
  (∀ a s', m s = (Ret a, s') → k a s' = k' a s') → (m ≫= k) s = (m ≫= k') s.
Proof. intros H. unfold mbind, M_bind. destruct (m s) as [[a|e] s']; [by apply H|done]. Qed.

Lemma mret_run {S A} (a b : A) (s s' : S) :
  mret (M := M S) a s = (Ret b, s') ↔ a = b ∧ s = s'.
Proof. unfold mret, M_ret. naive_solver. Qed.

Lemma lift_run {S A} (o : outcome A) (s s' : S) r :
  lift o s = (r, s') ↔ o = r ∧ s = s'.
Proof. unfold lift. naive_solver. Qed.

Lemma gets_run {S A} (f : S → A) (s s' : S) r :
  gets f s = (r, s') ↔ Ret (f s) = r ∧ s = s'.
Proof. unfold gets. naive_solver. Qed.

Lemma modify_run {S} (f : S → S) (s s' : S) r :
  modify f s = (r, s') ↔ Ret () = r ∧ f s = s'.
Proof. unfold modify. naive_solver. Qed.

Lemma throw_if_Ret {S} b e (s s' : S) u :
  throw_if b e s = (Ret u, s') ↔ b = false ∧ s = s'.
Proof. destruct b, u; cbv; naive_solver. Qed.

Lemma zoom_run {S T A} (get : S → T) set (m : M T A) s r s' :
  zoom get set m s = (r, s') ↔ ∃ t, m (get s) = (r, t) ∧ set t s = s'.
Proof. unfold zoom. destruct (m (get s)); naive_solver. Qed.

(** Break every successful run in the context into its steps. *)
Ltac inv_run :=
  repeat match goal with
  | H : (_ ≫= _) _ = (Ret _, _) |- _ =>
      apply bind_Ret in H; destruct H as (? & ? & ? & H)
  | H : (_ ≫= _) = Ret _ |- _ =>
      apply bind_outcome_Ret in H; destruct H as (? & ? & H)
  | H : mret _ _ = (Ret _, _) |- _ => apply mret_run in H; destruct H as [? ?]
  | H : Ret _ = Ret _ |- _ => injection H as H
  | H : lift _ _ = (_, _) |- _ => apply lift_run in H; destruct H as [? ?]
  | H : gets _ _ = (_, _) |- _ => apply gets_run in H; destruct H as [? ?]
  | H : modify _ _ = (_, _) |- _ => apply modify_run in H; destruct H as [? ?]
  | H : throw_if _ _ _ = (Ret _, _) |- _ => apply throw_if_Ret in H; destruct H as [? ?]
  | H : zoom _ _ _ _ = (_, _) |- _ => apply zoom_run in H; destruct H as (? & ? & ?)
  | H : throw _ _ = (Ret _, _) |- _ => discriminate H
  | H : (Ret _, _) = (Ret _, _) |- _ => injection H as ? ?
  | H : (Throw _, _) = (Ret _, _) |- _ => discriminate H
  | H : Throw _ = Ret _ |- _ => discriminate H
  end; subst.

(** ** Properties of imperative code that also hold when it throws *)

(** [preserves R m]: whatever the outcome, the state before and the state after
    [m] are related by [R]. *)
Definition preserves {S A} (R : S → S → Prop) (m : M S A) : Prop :=
  ∀ s, R s (m s).2.

Section preserves.
Context {S : Type} (R : S → S → Prop) `{!PreOrder R}.

Lemma preserves_ret {A} (a : A) : preserves R (mret a).
Proof. intros s. cbn. reflexivity. Qed.
Lemma preserves_throw {A} e : preserves R (throw (A := A) e).
Proof. intros s. cbn. reflexivity. Qed.
Lemma preserves_lift {A} (o : outcome A) : preserves R (lift o).
Proof. intros s. cbn. reflexivity. Qed.
Lemma preserves_gets {A} (f : S → A) : preserves R (gets f).
Proof. intros s. cbn. reflexivity. Qed.
Lemma preserves_throw_if b e : preserves R (throw_if b e).
Proof. destruct b; [apply preserves_throw | apply preserves_ret]. Qed.
Lemma preserves_modify f : (∀ s, R s (f s)) → preserves R (modify f).
Proof. intros H s. apply H. Qed.
Lemma preserves_bind {A B} (m : M S A) (k : A → M S B) :
  preserves R m → (∀ a, preserves R (k a)) → preserves R (m ≫= k).
Proof.
  intros Hm Hk s. specialize (Hm s). unfold mbind, M_bind.
  destruct (m s) as [[a|e] s1]; cbn in *; [|done].
  etrans; [exact Hm | apply Hk].
Qed.
Lemma preserves_for_each {A} (f : A → M S unit) l :
  (∀ a, preserves R (f a)) → preserves R (for_each f l).
Proof.
  intros Hf. induction l as [|x l IH]; cbn; [apply preserves_ret|].
  by apply preserves_bind.
Qed.
End preserves.

Create HintDb bdk.
#[export] Hint Resolve preserves_ret preserves_throw preserves_lift preserves_gets
  preserves_throw_if preserves_for_each : bdk.
#[export] Hint Extern 0 (PreOrder _) => apply _ : bdk.
#[export] Hint Extern 2 (preserves _ (_ ≫= _)) =>
  apply preserves_bind; [try apply _ | | intros ?] : bdk.

(** ** Machine integers *)

(** [in_range w z]: [z] is a value of an unsigned [w]-bit type. *)
Definition in_range (w z : Z) : Prop := 0 ≤ z < 2 ^ w.

#[export] Instance in_range_dec w z : Decision (in_range w z).
Proof. unfold in_range. apply _. Defined.

(** Conversion to a built-in unsigned type wraps around. *)
Definition wrap (w z : Z) : Z := z mod 2 ^ w.

Lemma wrap_in_range w z : 0 ≤ w → in_range w (wrap w z).
Proof. intros. unfold in_range, wrap. apply Z.mod_pos_bound. lia. Qed.

Lemma wrap_id w z : in_range w z → wrap w z = z.
Proof. unfold in_range, wrap. intros. by apply Z.mod_small. Qed.

(** Bytes, most significant first. *)
Fixpoint be_bytes (n : nat) (z : Z) : list Z :=
  match n with
  | O => []
  | S n => be_bytes n (z / 256) ++ [z mod 256]
  end.
Definition be_value (l : list Z) : Z := foldl (λ acc b, acc * 256 + b) 0 l.

Lemma be_bytes_length n z : length (be_bytes n z) = n.
Proof. revert z. induction n; intros z; cbn; [done|]. rewrite length_app, IHn. cbn. lia. Qed.

Lemma be_value_bytes n z : in_range (8 * Z.of_nat n) z → be_value (be_bytes n z) = z.
Proof.
  unfold in_range. revert z. induction n as [|n IH]; intros z Hz; cbn [be_bytes].
  - cbn in *. lia.
  - unfold be_value in *. rewrite foldl_app. cbn. rewrite IH.
    + pose proof (Z.div_mod z 256). lia.
    + replace (8 * Z.of_nat (S n)) with (8 * Z.of_nat n + 8) in Hz by lia.
      rewrite Z.pow_add_r in Hz by lia. split; [apply Z.div_pos; lia|].
      apply Z.div_lt_upper_bound; lia.
Qed.

(** An [Address] is its 20 bytes and a [Hash] its 32 bytes, read as a big-endian
    number: equality and [<] are the ones of the byte arrays. *)
Abbreviation Address := Z (only parsing).
Abbreviation Hash := Z (only parsing).

(** ** Sums over finite maps *)

Section msum.
Context {K : Type} `{Countable K}.

Definition msum (m : gmap K Z) : Z := map_fold (λ _ v acc, v + acc) 0 m.

Lemma msum_empty : msum ∅ = 0.
Proof. apply map_fold_empty. Qed.

Lemma msum_insert_None m k v : m !! k = None → msum (<[k := v]> m) = v + msum m.
Proof. intros. unfold msum. rewrite map_fold_insert_L; [done| |done]. intros; lia. Qed.

Lemma msum_delete m k v : m !! k = Some v → msum m = v + msum (delete k m).
Proof.
  intros Hk. rewrite <- (insert_delete_id m k v Hk) at 1.
  apply msum_insert_None, lookup_delete_eq.
Qed.

Lemma msum_insert m k v :
  msum (<[k := v]> m) = msum m - default 0 (m !! k) + v.
Proof.
  destruct (m !! k) as [u|] eqn:Hk; cbn.
  - rewrite <- insert_delete_eq, msum_insert_None by apply lookup_delete_eq.
    rewrite (msum_delete m k u Hk). lia.
  - rewrite msum_insert_None by done. lia.
Qed.

(** Only the entries that are not zero count. *)
Lemma msum_filter m : msum m = msum (filter (λ kv, kv.2 ≠ 0) m).
Proof.
  induction m as [|k v m Hk IH] using map_ind; [by rewrite map_filter_empty|].
  rewrite msum_insert_None by done. destruct (decide (v = 0)) as [->|Hv].
  - rewrite map_filter_insert_False by (cbn; tauto).
    rewrite delete_id by done. lia.
  - rewrite map_filter_insert_True by done. rewrite msum_insert_None; [lia|].
    apply map_lookup_filter_None. by left.
Qed.

Lemma msum_ext m m' : (∀ k, default 0 (m !! k) = default 0 (m' !! k)) → msum m = msum m'.
Proof.
  intros Hm. rewrite (msum_filter m), (msum_filter m'). f_equal. apply map_eq. intros k.
  rewrite !map_lookup_filter. specialize (Hm k).
  destruct (m !! k) as [x|], (m' !! k) as [y|]; cbn in *; subst; repeat case_guard; done.
Qed.
End msum.

(** ** Sorted lists *)

(** An earlier index holds a smaller element. *)
Lemma StronglySorted_lookup_lt {A} (R : A → A → Prop) l : StronglySorted R l →
  ∀ (a b : nat) u v, l !! a = Some u → l !! b = Some v → (a < b)%nat → R u v.
Proof.
  induction 1 as [|z l _ IH Hz]; intros a b u v Ha Hb Hab; [done|].
  destruct b as [|b]; [lia|]. destruct a as [|a]; cbn in *; simplify_eq.
  - rewrite Forall_forall in Hz. apply Hz. by eapply list_elem_of_lookup_2.
  - apply (IH a b); [done|done|lia].
Qed.

Lemma seq_sorted m n : StronglySorted lt (seq m n).
Proof.
  revert m. induction n as [|n IH]; intros m; cbn; constructor; [done|].
  apply Forall_forall. intros i Hi. apply elem_of_seq in Hi. lia.
Qed.

Lemma filter_all {A} (P : A → Prop) `{!∀ a, Decision (P a)} (l : list A) : Forall P l → filter P l = l.
Proof. induction 1 as [|x l Hx Hl IH]; [done|]. by rewrite filter_cons, decide_True, IH. Qed.
Lemma filter_none {A} (P : A → Prop) `{!∀ a, Decision (P a)} (l : list A) : Forall (λ e, ¬ P e) l → filter P l = [].
Proof. induction 1 as [|x l Hx Hl IH]; [done|]. by rewrite filter_cons, decide_False. Qed.

Lemma filter_sorted {A} (R : A → A → Prop) (P : A → Prop) `{!∀ a, Decision (P a)} l :
  StronglySorted R l → StronglySorted R (filter P l).
Proof.
  induction 1 as [|z l _ IH Hz]; [constructor|]. rewrite filter_cons. case_decide; [|done].
  constructor; [done|]. apply Forall_forall. intros i Hi. apply list_elem_of_filter in Hi as [_ Hi].
  rewrite Forall_forall in Hz. auto.
Qed.
