(* ===== verification/CheckedInt.v ===== *)
(** * Checked multiprecision integers

    The program's [uintN_t]/[intN_t] types other than the 8, 16, 32 and 64-bit
    ones are [boost::multiprecision] numbers declared with
    [cpp_int_check_type::checked].  Boost is not part of the repository: what
    the development relies on is the class [BoostInt] below, whose laws are the
    documented behaviour of checked fixed-width numbers (an operation computes
    the exact integer and throws when it does not fit).  [boost_ref] shows the
    laws can hold.  The file also models the dispatch [UintType<Size>] makes
    between Boost numbers and the built-in types (src/contract/variables/safeuint.h). *)

From S2P Require Import Prelude.

(** The Boost operations the program uses. *)
Class BoostInt := {
  (** store an exact result in an unsigned checked number of [w] bits *)
  mk_unsigned : Z → Z → outcome Z;
  (** store an exact result in a signed-magnitude checked number of [w] bits *)
  mk_signed : Z → Z → outcome Z;
  (** [boost::multiprecision::sqrt] on an unsigned number *)
  bsqrt : Z → Z;
  (** [<<] on an unsigned number of [w] bits *)
  bshl : Z → Z → Z → outcome Z;
  (** store the result of [|] or [^] between a [w]-bit number and a built-in [int] *)
  mk_bits : Z → Z → outcome Z;
  (** [%=] by a built-in [int] *)
  bmod_int : Z → Z → Z → outcome Z;
  (** conversion of a checked number to [uint64_t] *)
  to_uint64 : Z → outcome Z;
  (** conversion of a checked number to [uint8_t] *)
  to_uint8 : Z → outcome Z;
  to_uint64_fits : ∀ z, in_range 64 z → to_uint64 z = Ret z;
  to_uint8_fits : ∀ z, in_range 8 z → to_uint8 z = Ret z;
  mk_unsigned_fits : ∀ w z, in_range w z → mk_unsigned w z = Ret z;
  mk_unsigned_throws : ∀ w z, ¬ in_range w z → mk_unsigned w z = Throw boost_error;
  mk_signed_fits : ∀ w z, - 2 ^ w < z < 2 ^ w → mk_signed w z = Ret z;
  mk_signed_throws : ∀ w z, ¬ (- 2 ^ w < z < 2 ^ w) → mk_signed w z = Throw boost_error;
  bsqrt_spec : ∀ n, 0 ≤ n → bsqrt n * bsqrt n ≤ n < (bsqrt n + 1) * (bsqrt n + 1);
  mk_bits_fits : ∀ w z, in_range w z → mk_bits w z = Ret z;
  mk_bits_range : ∀ w z v, mk_bits w z = Ret v → in_range w v;
  bshl_fits : ∀ w a n, in_range w (Z.shiftl a n) → bshl w a n = Ret (Z.shiftl a n);
  bshl_range : ∀ w a n v, bshl w a n = Ret v → in_range w v;
  bmod_int_pos : ∀ w a n, 0 ≤ a → 0 < n → bmod_int w a n = Ret (a mod n);
  bmod_int_range : ∀ w a n v, in_range w a → bmod_int w a n = Ret v → in_range w v;
  bsqrt_nonneg : ∀ n, 0 ≤ n → 0 ≤ bsqrt n;
}.

(** A concrete implementation that meets the laws. *)
#[refine] Definition boost_ref : BoostInt := {|
  mk_unsigned w z := if decide (in_range w z) then Ret z else Throw boost_error;
  mk_signed w z := if decide (- 2 ^ w < z < 2 ^ w) then Ret z else Throw boost_error;
  bsqrt := Z.sqrt;
  bshl w a n := if decide (in_range w (Z.shiftl a n)) then Ret (Z.shiftl a n) else Throw boost_error;
  mk_bits w z := if decide (in_range w z) then Ret z else Throw boost_error;
  bmod_int w a n := if decide (0 < n) then Ret (a mod n) else Throw boost_error;
  to_uint64 z := if decide (in_range 64 z) then Ret z else Throw boost_error;
  to_uint8 z := if decide (in_range 8 z) then Ret z else Throw boost_error
|}.
Proof.
  - intros. by rewrite decide_True.
  - intros. by rewrite decide_True.
  - intros. by rewrite decide_True.
  - intros. by rewrite decide_False.
  - intros. by rewrite decide_True.
  - intros. by rewrite decide_False.
  - intros n Hn. pose proof (Z.sqrt_spec n Hn) as Hs. cbv zeta in Hs. unfold Z.succ in Hs. exact Hs.
  - intros. by rewrite decide_True.
  - intros w z v. case_decide; naive_solver.
  - intros. by rewrite decide_True.
  - intros w a n v. case_decide; naive_solver.
  - intros. by rewrite decide_True.
  - intros w a n v [? ?]. case_decide; [|done]. intros [= <-]. split.
    + apply Z.mod_pos_bound. lia.
    + pose proof (Z.mod_le a n). lia.
  - intros n Hn. apply Z.sqrt_nonneg.
Defined.

(** The widths for which [UintType] picks a built-in type. *)
Definition builtin_width (w : Z) : bool :=
  (w =? 8) || (w =? 16) || (w =? 32) || (w =? 64).

Section checked.
Context {BI : BoostInt}.

(** Checked arithmetic of [uintN_t] Boost numbers. *)
Definition uadd (w a b : Z) : outcome Z := mk_unsigned w (a + b).
Definition usub (w a b : Z) : outcome Z := mk_unsigned w (a - b).
Definition umul (w a b : Z) : outcome Z := mk_unsigned w (a * b).
Definition udiv (w a b : Z) : outcome Z :=
  if b =? 0 then Throw boost_error else mk_unsigned w (a / b).

(** [static_cast<uint_t>(z)]: a built-in type wraps, a Boost number throws. *)
Definition cast_uint (w z : Z) : outcome Z :=
  if builtin_width w then Ret (wrap w z) else mk_unsigned w z.

Lemma mk_unsigned_Ret w z v :
  mk_unsigned w z = Ret v ↔ v = z ∧ in_range w z.
Proof.
  destruct (decide (in_range w z)) as [Hz|Hz].
  - rewrite mk_unsigned_fits by done. naive_solver.
  - rewrite mk_unsigned_throws by done. naive_solver.
Qed.

Lemma mk_unsigned_Throw w z e :
  mk_unsigned w z = Throw e ↔ e = boost_error ∧ ¬ in_range w z.
Proof.
  destruct (decide (in_range w z)) as [Hz|Hz].
  - rewrite mk_unsigned_fits by done. naive_solver.
  - rewrite mk_unsigned_throws by done. naive_solver.
Qed.

Lemma uadd_Ret w a b v : uadd w a b = Ret v ↔ v = a + b ∧ in_range w (a + b).
Proof. apply mk_unsigned_Ret. Qed.
Lemma usub_Ret w a b v : usub w a b = Ret v ↔ v = a - b ∧ in_range w (a - b).
Proof. apply mk_unsigned_Ret. Qed.
Lemma umul_Ret w a b v : umul w a b = Ret v ↔ v = a * b ∧ in_range w (a * b).
Proof. apply mk_unsigned_Ret. Qed.
Lemma udiv_Ret w a b v :
  udiv w a b = Ret v ↔ v = a / b ∧ b ≠ 0 ∧ in_range w (a / b).
Proof.
  unfold udiv. destruct (Z.eqb_spec b 0); [naive_solver|].
  rewrite mk_unsigned_Ret. naive_solver.
Qed.

Lemma cast_uint_id w z : in_range w z → cast_uint w z = Ret z.
Proof.
  intros Hz. unfold cast_uint. destruct (builtin_width w).
  - by rewrite wrap_id.
  - by rewrite mk_unsigned_fits.
Qed.

Lemma cast_uint_in_range w z v : 0 ≤ w → cast_uint w z = Ret v → in_range w v.
Proof.
  unfold cast_uint. destruct (builtin_width w); intros Hw E.
  - injection E as <-. by apply wrap_in_range.
  - apply mk_unsigned_Ret in E. naive_solver.
Qed.

(** The Boost square root is the floor square root. *)
Lemma bsqrt_Zsqrt n : 0 ≤ n → bsqrt n = Z.sqrt n.
Proof.
  intros Hn. symmetry. apply Z.sqrt_unique.
  pose proof (bsqrt_spec n Hn). unfold Z.succ. done.
Qed.
End checked.

(** Turn every successful checked operation in the context into its equation and
    its range condition. *)
Ltac inv_checked :=
  repeat match goal with
  | H : uadd _ _ _ = Ret _ |- _ => apply uadd_Ret in H; destruct H as [-> ?]
  | H : usub _ _ _ = Ret _ |- _ => apply usub_Ret in H; destruct H as [-> ?]
  | H : umul _ _ _ = Ret _ |- _ => apply umul_Ret in H; destruct H as [-> ?]
  | H : udiv _ _ _ = Ret _ |- _ => apply udiv_Ret in H; destruct H as (-> & ? & ?)
  | H : mk_unsigned _ _ = Ret _ |- _ => apply mk_unsigned_Ret in H; destruct H as [-> ?]
  end; unfold in_range in *.

#[export] Hint Resolve cast_uint_id mk_unsigned_fits : bdk.
