(* ===== verification/SafeBase.v ===== *)
(** * Safe variables: the base class, the interface and the used-variable stack

    Models src/contract/variables/safebase.h ([SafeBase]), the stack of used
    variables src/contract/contractstack.h ([ContractStack]) and the commit or
    revert that [ContractHost::~ContractHost] (src/contract/contracthost.cpp)
    applies to it.  [SafeVar] is the interface every safe variable type offers
    to the host: the host's theorems are proved against it, and the files
    SafeUint, SafeMap, SafeVector and SafeScalars provide the instances. *)

From S2P Require Import Prelude.

(** The fields of class [SafeBase]: whether [owner_] is not null, [registered_]
    and [shouldRegister_]. *)
Record SafeBase := mkSafeBase {
  owner_ : bool;
  registered_ : bool;
  shouldRegister_ : bool;
}.

#[export] Instance SafeBase_eq_dec : EqDecision SafeBase.
Proof. solve_decision. Defined.

(** [SafeBase::markAsUsed]; the call of [registerVariableUse] is made exactly
    when the flag goes up, see [on_var] below. *)
Definition markAsUsed (b : SafeBase) : SafeBase :=
  if owner_ b && negb (registered_ b) && shouldRegister_ b
  then mkSafeBase (owner_ b) true (shouldRegister_ b)
  else b.

(** [SafeBase::enableRegister] *)
Definition enableRegister (b : SafeBase) : SafeBase :=
  mkSafeBase (owner_ b) (registered_ b) true.

(** What [commit] and [revert] do to the base: [registered_ = false]. *)
Definition unregister (b : SafeBase) : SafeBase :=
  mkSafeBase (owner_ b) false (shouldRegister_ b).

(** A variable that belongs to a contract and has registration enabled. *)
Definition tracked (b : SafeBase) : bool := owner_ b && shouldRegister_ b.

Arguments markAsUsed : simpl never.
Arguments tracked : simpl never.

(** Between two commits the base only goes from unregistered to registered. *)
Definition base_le (b b' : SafeBase) : Prop :=
  owner_ b' = owner_ b ∧ shouldRegister_ b' = shouldRegister_ b ∧
  (registered_ b = true → registered_ b' = true).

#[export] Instance base_le_preorder : PreOrder base_le.
Proof.
  split; [intros b; done|].
  intros b1 b2 b3 (?&?&?) (?&?&?). repeat split; [congruence|congruence|auto].
Qed.

Lemma markAsUsed_le b : base_le b (markAsUsed b).
Proof. destruct b as [[] [] []]; done. Qed.

Lemma markAsUsed_tracked b : tracked b = true → registered_ (markAsUsed b) = true.
Proof. destruct b as [[] [] []]; done. Qed.

Lemma base_le_tracked b b' : base_le b b' → tracked b' = tracked b.
Proof. intros (?&?&?). unfold tracked. congruence. Qed.

(** ** The interface of a safe variable

    [sv_rel o v] relates a concrete variable to its abstract meaning: a cell
    whose last committed value is [o] and whose current value is [sv_get v]. *)
Class SafeVar (V T : Type) := {
  sv_base : V → SafeBase;
  sv_get : V → T;
  sv_commit : M V unit;
  sv_revert : M V unit;
  sv_rel : T → V → Prop;
  sv_revert_ok : ∀ o v, sv_rel o v → ∃ v',
    sv_revert v = (Ret (), v') ∧ sv_get v' = o ∧ sv_rel o v' ∧
    sv_base v' = unregister (sv_base v);
  sv_commit_ok : ∀ o v, sv_rel o v → ∃ v',
    sv_commit v = (Ret (), v') ∧ sv_get v' = sv_get v ∧ sv_rel (sv_get v) v' ∧
    sv_base v' = unregister (sv_base v);
  sv_unregistered : ∀ o v, sv_rel o v → tracked (sv_base v) = true →
    registered_ (sv_base v) = false → sv_get v = o;
}.

Section safevar.
Context {V T : Type} {SV : SafeVar V T}.

(** [sv_le v v']: going from [v] to [v'] kept the committed value. *)
Definition sv_le (v v' : V) : Prop :=
  (∀ o, sv_rel o v → sv_rel o v') ∧ base_le (sv_base v) (sv_base v').

#[export] Instance sv_le_preorder : PreOrder sv_le.
Proof.
  split.
  - intros v. split; [auto | reflexivity].
  - intros v1 v2 v3 [H1 B1] [H2 B2]. split; [auto | by etrans].
Qed.

(** An operation of a safe variable keeps the committed value, whether it
    returns or throws. *)
Definition safe_op {A} (m : M V A) : Prop := preserves sv_le m.
End safevar.

(** ** The stack of used variables *)

Section host.
Context {V T : Type} {SV : SafeVar V T}.

(** The variables alive during a call, by identity, and
    [ContractStack::usedVars_]. *)
Record HostVars := mkHostVars {
  vars : gmap nat V;
  usedVars_ : list nat;
}.

(** [ContractStack::registerVariableUse] *)
Definition registerVariableUse (x : nat) (h : HostVars) : HostVars :=
  mkHostVars (vars h) (usedVars_ h ++ [x]).

(** An operation [m] of the variable [x].  [markAsUsed] pushes the variable on
    the stack when it sets [registered_]; a reference to a variable that does
    not exist has no defined behaviour. *)
Definition on_var {A} (x : nat) (m : M V A) : M HostVars A := λ h,
  match vars h !! x with
  | None => (Throw undefined_behaviour, h)
  | Some v =>
      let '(r, v') := m v in
      let h' := mkHostVars (<[x := v']> (vars h)) (usedVars_ h) in
      if negb (registered_ (sv_base v)) && registered_ (sv_base v')
      then (r, registerVariableUse x h')
      else (r, h')
  end.

(** The loop over [stack_.getUsedVars()] in [ContractHost::~ContractHost]. *)
Definition finish_vars (mustRevert : bool) : M HostVars unit := λ h,
  for_each (λ x, on_var x (if mustRevert then sv_revert else sv_commit))
    (usedVars_ h) h.

(** [host_inv o h]: the variables have committed values [o], and the stack
    lists exactly the registered ones, once each. *)
Definition host_inv (o : gmap nat T) (h : HostVars) : Prop :=
  dom o = dom (vars h) ∧ NoDup (usedVars_ h) ∧
  (∀ x, x ∈ usedVars_ h → x ∈ dom (vars h)) ∧
  ∀ x v ox, vars h !! x = Some v → o !! x = Some ox →
    sv_rel ox v ∧ tracked (sv_base v) = true ∧
    (registered_ (sv_base v) = true ↔ x ∈ usedVars_ h).

(** The state in which a transaction starts: everything committed. *)
Definition host_clean (h : HostVars) : Prop :=
  usedVars_ h = [] ∧
  ∀ x v, vars h !! x = Some v →
    sv_rel (sv_get v) v ∧ tracked (sv_base v) = true ∧ registered_ (sv_base v) = false.

Definition host_le (h h' : HostVars) : Prop :=
  ∀ o, host_inv o h → host_inv o h'.

#[export] Instance host_le_preorder : PreOrder host_le.
Proof. split; [intros h o; auto | intros h1 h2 h3 H1 H2 o; auto]. Qed.

(** The current values of the variables. *)
Definition values (h : HostVars) : gmap nat T := sv_get <$> vars h.

Lemma host_clean_inv h : host_clean h → host_inv (values h) h.
Proof.
  intros [Hu Hc]. unfold host_inv, values. rewrite Hu.
  split_and!; [apply dom_fmap_L | constructor | set_solver |].
  intros x v ox Hx Ho. rewrite lookup_fmap, Hx in Ho. injection Ho as <-.
  destruct (Hc x v Hx) as (?&?&Hr). split_and!; [done..|]. rewrite Hr. set_solver.
Qed.

(** An operation that keeps committed values keeps the host's invariant. *)
Lemma on_var_preserves {A} x (m : M V A) :
  safe_op m → preserves host_le (on_var x m).
Proof.
  intros Hm h o (Hd & Hn & Hdom & Hv). unfold on_var.
  destruct (vars h !! x) as [v|] eqn:Ex; [|done].
  specialize (Hm v). destruct (m v) as [r v'] eqn:Em. cbn in Hm. destruct Hm as [Hrel Hb].
  assert (∃ ox, o !! x = Some ox) as [ox Eo].
  { apply elem_of_dom. rewrite Hd. by apply elem_of_dom. }
  destruct (Hv x v ox Ex Eo) as (Hr & Ht & Hreg).
  assert (Hdom' : dom (<[x:=v']> (vars h)) = dom (vars h)).
  { apply dom_insert_lookup_L. eauto. }
  assert (Hx : x ∈ dom (vars h)) by (apply elem_of_dom; eauto).
  destruct Hb as (Hb1 & Hb2 & Hb3).
  assert (Ht' : tracked (sv_base v') = true) by (unfold tracked in *; congruence).
  destruct (registered_ (sv_base v)) eqn:R; cbn.
  - unfold host_inv; cbn. rewrite Hdom'. split_and!; [done..|].
    intros y w oy Hy Ho. destruct (decide (x = y)) as [->|Hne]; simplify_map_eq; [|by eapply Hv].
    split_and!; [auto|done|]. rewrite Hb3 by done. tauto.
  - assert (Hnx : x ∉ usedVars_ h) by (intros Hin; apply Hreg in Hin; done).
    destruct (registered_ (sv_base v')) eqn:R'; unfold host_inv; cbn; rewrite Hdom'.
    + split_and!; [done| |set_solver|].
      { apply NoDup_app. split_and!; [done|set_solver|apply NoDup_singleton]. }
      intros y w oy Hy Ho. destruct (decide (x = y)) as [->|Hne]; simplify_map_eq.
      * split_and!; [auto|done|]. rewrite R'. set_solver.
      * destruct (Hv y w oy Hy Ho) as (?&?&?). split_and!; [done..|]. set_solver.
    + split_and!; [done..|].
      intros y w oy Hy Ho. destruct (decide (x = y)) as [->|Hne]; simplify_map_eq; [|by eapply Hv].
      split_and!; [auto|done|]. rewrite R'. tauto.
Qed.

(** The loop of the destructor, for any per-variable step [f] that returns and
    leaves the variable unregistered. *)
Lemma finish_loop (f : M V unit) (P : nat → V → Prop) (Q : nat → V → V → Prop) l h :
  NoDup l →
  (∀ x, x ∈ l → ∃ v, vars h !! x = Some v ∧ P x v) →
  (∀ x v, P x v → ∃ v', f v = (Ret (), v') ∧ Q x v v' ∧ registered_ (sv_base v') = false) →
  ∃ h', for_each (λ x, on_var x f) l h = (Ret (), h') ∧ usedVars_ h' = usedVars_ h ∧
    ∀ x, (x ∈ l → ∃ v v', vars h !! x = Some v ∧ vars h' !! x = Some v' ∧ Q x v v') ∧
         (x ∉ l → vars h' !! x = vars h !! x).
Proof.
  intros Hnd. revert h. induction Hnd as [|x l Hx Hnd IH]; intros h Hl Hf.
  { exists h. split_and!; [done|done|]. set_solver. }
  destruct (Hl x) as (v & Ev & Pv); [set_solver|].
  destruct (Hf x v Pv) as (v' & Fv & Qv & Rv).
  destruct (IH (mkHostVars (<[x:=v']> (vars h)) (usedVars_ h))) as (h' & Hrun & Hu & Hall).
  { intros y Hy. cbn. rewrite lookup_insert_ne by set_solver. apply Hl. set_solver. }
  { exact Hf. }
  exists h'. split_and!; [|done|].
  - cbn [for_each]. erewrite bind_run; [exact Hrun|].
    unfold on_var. rewrite Ev, Fv, Rv. by rewrite andb_false_r.
  - intros y. destruct (Hall y) as [Hin Hout]. split.
    + intros Hy. destruct (decide (x = y)) as [->|Hne].
      * exists v, v'. split_and!; [done| |done].
        rewrite (Hout Hx). cbn. by rewrite lookup_insert_eq.
      * destruct Hin as (w & w' & Hw & Hw' & HQ); [set_solver|].
        cbn in Hw. rewrite lookup_insert_ne in Hw by done. eauto.
    + intros Hy. rewrite Hout by set_solver. cbn. rewrite lookup_insert_ne by set_solver. done.
Qed.

(** A variable that was not used has its committed value. *)
Lemma untouched_clean o h x v :
  host_inv o h → x ∉ usedVars_ h → vars h !! x = Some v →
  sv_rel (sv_get v) v ∧ tracked (sv_base v) = true ∧ registered_ (sv_base v) = false.
Proof.
  intros (Hd & _ & _ & Hv) Hx Ev.
  assert (is_Some (o !! x)) as [ox Eo].
  { apply elem_of_dom. rewrite Hd. apply elem_of_dom. eauto. }
  destruct (Hv x v ox Ev Eo) as (Hr & Ht & Hreg).
  assert (Hf : registered_ (sv_base v) = false) by (apply not_true_is_false; tauto).
  rewrite (sv_unregistered ox v Hr Ht Hf). done.
Qed.

(** What the destructor leaves behind when it reverts. *)
Lemma finish_revert o h :
  host_inv o h → ∃ h', finish_vars true h = (Ret (), h') ∧ values h' = o ∧
    host_clean (mkHostVars (vars h') []).
Proof.
  intros Hinv. pose proof Hinv as (Hd & Hn & Hdom & Hv). unfold finish_vars.
  destruct (finish_loop sv_revert
    (λ x v, ∃ ox, o !! x = Some ox ∧ sv_rel ox v ∧ tracked (sv_base v) = true)
    (λ x v v', ∃ ox, o !! x = Some ox ∧ sv_get v' = ox ∧ sv_rel ox v' ∧
      tracked (sv_base v') = true ∧ registered_ (sv_base v') = false) (usedVars_ h) h)
    as (h' & Hrun & Hu & Hall); [done| | |].
  { intros x Hx. apply Hdom in Hx as Hx'. pose proof Hx' as Ho. rewrite <- Hd in Ho.
    apply elem_of_dom in Hx' as [v Ev]. apply elem_of_dom in Ho as [ox Eo].
    destruct (Hv x v ox Ev Eo) as (?&?&_). exists v. split; [done|]. by exists ox. }
  { intros x v (ox & Eo & Hr & Ht). destruct (sv_revert_ok ox v Hr) as (v' & ? & ? & ? & Hb).
    exists v'. rewrite Hb. split_and!; [done| |done]. exists ox. done. }
  exists h'. split; [done|]. split.
  - apply map_eq. intros x. unfold values. rewrite lookup_fmap.
    destruct (Hall x) as [Hin Hout]. destruct (decide (x ∈ usedVars_ h)) as [Hx|Hx].
    + destruct (Hin Hx) as (v & v' & Ev & Ev' & ox & Eo & Hg & _). rewrite Ev', Eo. cbn. congruence.
    + rewrite (Hout Hx). destruct (vars h !! x) as [v|] eqn:Ev; cbn.
      * assert (is_Some (o !! x)) as [ox Eo].
        { apply elem_of_dom. rewrite Hd. apply elem_of_dom. eauto. }
        rewrite Eo. f_equal. destruct (Hv x v ox Ev Eo) as (Hr & Ht & Hreg).
        apply (sv_unregistered ox v Hr Ht). apply not_true_is_false. tauto.
      * symmetry. apply not_elem_of_dom. rewrite Hd. by apply not_elem_of_dom.
  - split; [done|]. cbn. intros x v' Ev'. destruct (Hall x) as [Hin Hout].
    destruct (decide (x ∈ usedVars_ h)) as [Hx|Hx].
    + destruct (Hin Hx) as (v & w & Ev & Ew & ox & Eo & Hg & Hr & Ht & Hreg).
      rewrite Ev' in Ew. injection Ew as ->. by rewrite Hg.
    + rewrite (Hout Hx) in Ev'. by apply (untouched_clean o h x).
Qed.

(** What the destructor leaves behind when it commits. *)
Lemma finish_commit o h :
  host_inv o h → ∃ h', finish_vars false h = (Ret (), h') ∧ values h' = values h ∧
    host_clean (mkHostVars (vars h') []).
Proof.
  intros Hinv. pose proof Hinv as (Hd & Hn & Hdom & Hv). unfold finish_vars.
  destruct (finish_loop sv_commit
    (λ x v, (∃ ox, sv_rel ox v) ∧ tracked (sv_base v) = true)
    (λ x v v', sv_get v' = sv_get v ∧ sv_rel (sv_get v) v' ∧ tracked (sv_base v') = true ∧
               registered_ (sv_base v') = false)
    (usedVars_ h) h)
    as (h' & Hrun & Hu & Hall); [done| | |].
  { intros x Hx. apply Hdom in Hx as Hx'. pose proof Hx' as Ho. rewrite <- Hd in Ho.
    apply elem_of_dom in Hx' as [v Ev]. apply elem_of_dom in Ho as [ox Eo].
    destruct (Hv x v ox Ev Eo) as (?&?&?). exists v. split; [done|]. eauto. }
  { intros x v [[ox Hr] Ht]. destruct (sv_commit_ok ox v Hr) as (v' & ? & ? & ? & Hb).
    exists v'. rewrite Hb. split_and!; try done. }
  exists h'. split_and!; [done| |].
  - apply map_eq. intros x. unfold values. rewrite !lookup_fmap.
    destruct (Hall x) as [Hin Hout]. destruct (decide (x ∈ usedVars_ h)) as [Hx|Hx].
    + destruct (Hin Hx) as (v & v' & Ev & Ev' & Hg & _). rewrite Ev, Ev'. cbn. congruence.
    + by rewrite (Hout Hx).
  - split; [done|]. cbn. intros x v' Ev'. destruct (Hall x) as [Hin Hout].
    destruct (decide (x ∈ usedVars_ h)) as [Hx|Hx].
    + destruct (Hin Hx) as (v & w & Ev & Ew & Hg & Hr & Ht & Hreg).
      rewrite Ev' in Ew. injection Ew as ->. rewrite Hg. done.
    + rewrite (Hout Hx) in Ev'. by apply (untouched_clean o h x).
Qed.
End host.
Arguments HostVars : clear implicits.

#[export] Hint Resolve on_var_preserves : bdk.
