(* ===== verification/SafeScalars.v ===== *)
(** * Safe variables that keep one value and one copy

    [SafeUint_t], [SafeInt_t], [SafeBool] and [SafeAddress] have the same two
    fields, [value_] (current) and [copy_] (last committed), and the same
    [commit] and [revert]; [Scalar] models them once.  This file also models
    src/contract/variables/safebool.h and src/contract/variables/safeaddress.h. *)

From S2P Require Import Prelude SafeBase.

Record Scalar (T : Type) := mkScalar {
  sc_base : SafeBase;
  value_ : T;
  copy_ : T;
}.
Arguments mkScalar {T}.
Arguments sc_base {T}.
Arguments value_ {T}.
Arguments copy_ {T}.

Section scalar.
Context {T : Type}.

(** The constructors: [SafeX(value)] has no owner, [SafeX(owner, value)] has. *)
Definition scalar_local (v : T) : Scalar T := mkScalar (mkSafeBase false false false) v v.
Definition scalar_owned (v : T) : Scalar T := mkScalar (mkSafeBase true false false) v v.

Definition mark (x : Scalar T) : Scalar T :=
  mkScalar (markAsUsed (sc_base x)) (value_ x) (copy_ x).
Definition set_value (v : T) (x : Scalar T) : Scalar T := mkScalar (sc_base x) v (copy_ x).

(** [markAsUsed(); this->value_ = e;] where evaluating [e] may throw. *)
Definition mark_assign (e : outcome T) : M (Scalar T) unit :=
  modify mark ;; v ← lift e ; modify (set_value v).

Definition scalar_commit : M (Scalar T) unit :=
  modify (λ x, mkScalar (unregister (sc_base x)) (value_ x) (value_ x)).
Definition scalar_revert : M (Scalar T) unit :=
  modify (λ x, mkScalar (unregister (sc_base x)) (copy_ x) (copy_ x)).

Definition scalar_rel (o : T) (x : Scalar T) : Prop :=
  copy_ x = o ∧
  (tracked (sc_base x) = true → registered_ (sc_base x) = false → value_ x = copy_ x).

#[export] Program Instance scalar_var : SafeVar (Scalar T) T := {|
  sv_base := sc_base;
  sv_get := value_;
  sv_commit := scalar_commit;
  sv_revert := scalar_revert;
  sv_rel := scalar_rel;
|}.
Next Obligation. intros o x [<- Hx]. eexists. split_and!; done. Qed.
Next Obligation. intros o x [<- Hx]. eexists. split_and!; done. Qed.
Next Obligation. intros o x [<- Hx] Ht Hr. auto. Qed.

Lemma mark_assign_run e x :
  mark_assign e x =
    match e with
    | Ret v => (Ret (), mkScalar (markAsUsed (sc_base x)) v (copy_ x))
    | Throw ex => (Throw ex, mkScalar (markAsUsed (sc_base x)) (value_ x) (copy_ x))
    end.
Proof. by destruct e. Qed.

Lemma mark_assign_safe e : safe_op (mark_assign e).
Proof.
  intros x. rewrite mark_assign_run. split.
  - intros o [<- Hx]. destruct e as [v|e]; cbn; (split; [done|]); cbn; intros Ht Hr;
      rewrite (base_le_tracked _ _ (markAsUsed_le _)) in Ht;
      by rewrite markAsUsed_tracked in Hr.
  - destruct e; cbn; apply markAsUsed_le.
Qed.
End scalar.

#[export] Hint Resolve mark_assign_safe : bdk.
(** Solve [safe_op] of code built from guards and [mark_assign]. *)
Ltac solve_safe_op :=
  unfold safe_op;
  repeat first
    [ apply mark_assign_safe
    | apply preserves_gets; apply _ | apply preserves_lift; apply _
    | apply preserves_ret; apply _ | apply preserves_throw; apply _
    | apply preserves_throw_if; apply _
    | apply preserves_bind; [apply _ | | intros ?]
    | case_match ].

(** ** [SafeBool] *)
Section safebool.
Definition SafeBool := Scalar bool.

(** [operator=(bool)] and [operator=(const SafeBool&)] *)
Definition bool_assign (b : bool) : M SafeBool unit := mark_assign (Ret b).
Definition bool_assign_safe (other : SafeBool) : M SafeBool unit :=
  mark_assign (Ret (value_ other)).

(** The copy constructor copies [copy_] too. *)
Definition bool_copy (other : SafeBool) : SafeBool :=
  mkScalar (mkSafeBase false false false) (value_ other) (copy_ other).

Definition bool_eq (x : SafeBool) (b : bool) : bool := bool_decide (value_ x = b).
Definition bool_eq_safe (x y : SafeBool) : bool := bool_decide (value_ x = value_ y).
End safebool.

(** ** [SafeAddress] *)
Section safeaddress.
Definition SafeAddress := Scalar Address.

Definition address_assign (a : Address) : M SafeAddress unit := mark_assign (Ret a).
Definition address_assign_safe (other : SafeAddress) : M SafeAddress unit :=
  mark_assign (Ret (value_ other)).
Definition address_copy (other : SafeAddress) : SafeAddress := scalar_local (value_ other).
Definition address_eq (x : SafeAddress) (a : Address) : bool := value_ x =? a.
Definition address_eq_safe (x y : SafeAddress) : bool := value_ x =? value_ y.
End safeaddress.
