(* ===== verification/SafeUint.v ===== *)
(** * [SafeUint_t<Size>]

    Models src/contract/variables/safeuint.h.  [w] is the template argument
    [Size]; [uint_t] is a built-in type for 8, 16, 32 and 64 and a checked Boost
    number otherwise ([cast_uint] stores an exact result in it).  Each operator
    has one definition per overload: [SafeUint_t], [uint_t] (suffix [_uint]) and
    [int] (suffix [_int]). *)

From S2P Require Import Prelude CheckedInt SafeBase SafeScalars.

Definition SafeUint_t := Scalar Z.

(** [std::numeric_limits<uint_t>::max()] *)
Definition umax (w : Z) : Z := 2 ^ w - 1.

(** The sizes [static_assert] admits. *)
Definition uint_size (w : Z) : Prop := 8 ≤ w ≤ 256 ∧ w mod 8 = 0.

(** The values of the C++ type [int]. *)
Definition is_int (z : Z) : Prop := - 2 ^ 31 ≤ z < 2 ^ 31.

Section safeuint.
Context {BI : BoostInt} (w : Z).

Definition uint_ret (o : outcome Z) : outcome SafeUint_t :=
  v ← o ; mret (scalar_local v).

(** The checks made before an operation: [Some e] throws [e]. *)
Definition chk_add (a b : Z) (msg : string) : option exn :=
  if a >? umax w - b then Some (overflow_error msg) else None.
Definition chk_sub (a b : Z) (msg : string) : option exn :=
  if a <? b then Some (underflow_error msg) else None.
Definition chk_mul (a b : Z) (zero over : string) : option exn :=
  if (b =? 0) || (a =? 0) then Some (domain_error zero)
  else if a >? umax w / b then Some (overflow_error over) else None.
Definition chk_mul_int (a n : Z) (zero under over : string) : option exn :=
  if (n =? 0) || (a =? 0) then Some (domain_error zero)
  else if n <? 0 then Some (underflow_error under)
  else if a >? umax w / n then Some (overflow_error over) else None.
Definition chk_div (a b : Z) (msg : string) : option exn :=
  if (a =? 0) || (b =? 0) then Some (domain_error msg) else None.
Definition chk_div_int (n : Z) (zero neg : string) : option exn :=
  if n =? 0 then Some (domain_error zero)
  else if n <? 0 then Some (domain_error neg) else None.
Definition chk_neg (n : Z) (msg : string) : option exn :=
  if n <? 0 then Some (domain_error msg) else None.

Definition after {A} (chk : option exn) (e : outcome A) : outcome A :=
  match chk with Some ex => Throw ex | None => e end.

(** ** Arithmetic operators *)

Definition guard_add (a b : Z) (msg : string) : outcome Z :=
  after (chk_add a b msg) (cast_uint w (a + b)).

Definition uint_add (x y : SafeUint_t) : outcome SafeUint_t :=
  uint_ret (guard_add (value_ x) (value_ y) "Overflow in addition operation.").
Definition uint_add_uint (x : SafeUint_t) (b : Z) : outcome SafeUint_t :=
  uint_ret (guard_add (value_ x) b "Overflow in addition operation.").

(** The [int] overloads go through [int256_t] and check the exact result. *)
Definition int256_tmp (a d : Z) (under over : string) : outcome Z :=
  tmp ← mk_signed 256 a ;
  tmp ← mk_signed 256 (tmp + d) ;
  if tmp <? 0 then Throw (underflow_error under)
  else max ← mk_signed 256 (umax w) ;
       if tmp >? max then Throw (overflow_error over) else Ret tmp.
Definition via_int256 (a d : Z) (under over : string) : outcome Z :=
  tmp ← int256_tmp a d under over ; cast_uint w tmp.

Definition uint_add_int (x : SafeUint_t) (n : Z) : outcome SafeUint_t :=
  uint_ret (via_int256 (value_ x) n
    "Underflow in addition operation." "Overflow in addition operation.").

Definition guard_sub (a b : Z) (msg : string) : outcome Z :=
  after (chk_sub a b msg) (cast_uint w (a - b)).

Definition uint_sub (x y : SafeUint_t) : outcome SafeUint_t :=
  uint_ret (guard_sub (value_ x) (value_ y) "Underflow in subtraction operation.").
Definition uint_sub_uint (x : SafeUint_t) (b : Z) : outcome SafeUint_t :=
  uint_ret (guard_sub (value_ x) b "Underflow in subtraction operation.").
Definition uint_sub_int (x : SafeUint_t) (n : Z) : outcome SafeUint_t :=
  uint_ret (via_int256 (value_ x) (- n)
    "Underflow in addition operation." "Overflow in addition operation.").

Definition guard_mul (a b : Z) (zero over : string) : outcome Z :=
  after (chk_mul a b zero over) (cast_uint w (a * b)).
Definition guard_mul_int (a n : Z) (zero under over : string) : outcome Z :=
  after (chk_mul_int a n zero under over) (cast_uint w (a * n)).

Definition uint_mul (x y : SafeUint_t) : outcome SafeUint_t :=
  uint_ret (guard_mul (value_ x) (value_ y)
    "Multiplication by zero" "Overflow in multiplication operation.").
Definition uint_mul_uint (x : SafeUint_t) (b : Z) : outcome SafeUint_t :=
  uint_ret (guard_mul (value_ x) b
    "Multiplication by zero" "Overflow in multiplication operation.").
Definition uint_mul_int (x : SafeUint_t) (n : Z) : outcome SafeUint_t :=
  uint_ret (guard_mul_int (value_ x) n "Multiplication by zero"
    "Underflow in multiplication operation." "Overflow in multiplication operation.").

Definition guard_div (a b : Z) (msg : string) : outcome Z :=
  after (chk_div a b msg) (cast_uint w (a / b)).
Definition guard_div_int (a n : Z) (zero neg : string) : outcome Z :=
  after (chk_div_int n zero neg) (cast_uint w (a / n)).

Definition uint_div (x y : SafeUint_t) : outcome SafeUint_t :=
  uint_ret (guard_div (value_ x) (value_ y) "Division by zero").
Definition uint_div_uint (x : SafeUint_t) (b : Z) : outcome SafeUint_t :=
  uint_ret (guard_div (value_ x) b "Division by zero").
Definition uint_div_int (x : SafeUint_t) (n : Z) : outcome SafeUint_t :=
  uint_ret (guard_div_int (value_ x) n "Division by zero" "Division by a negative number").

Definition guard_mod (a b : Z) (msg : string) : outcome Z :=
  after (chk_div a b msg) (cast_uint w (a mod b)).

Definition uint_mod (x y : SafeUint_t) : outcome SafeUint_t :=
  uint_ret (guard_mod (value_ x) (value_ y) "Modulus by zero").
Definition uint_mod_uint (x : SafeUint_t) (b : Z) : outcome SafeUint_t :=
  uint_ret (guard_mod (value_ x) b "Modulus by zero").
(** The divisor is cast first; a built-in cast may wrap it to zero. *)
Definition uint_mod_int (x : SafeUint_t) (n : Z) : outcome SafeUint_t :=
  uint_ret (
    after (chk_div (value_ x) n "Modulus by zero")
      (b ← cast_uint w n ;
       if b =? 0 then Throw undefined_behaviour else cast_uint w (value_ x mod b))).

(** ** Bitwise operators *)

Definition guard_bits_int (op : Z → Z → Z) (a n : Z) (msg : string) : outcome Z :=
  after (chk_neg n msg) (b ← cast_uint w n ; cast_uint w (op a b)).

Definition uint_and (x y : SafeUint_t) : outcome SafeUint_t :=
  uint_ret (cast_uint w (Z.land (value_ x) (value_ y))).
Definition uint_and_uint (x : SafeUint_t) (b : Z) : outcome SafeUint_t :=
  uint_ret (cast_uint w (Z.land (value_ x) b)).
Definition uint_and_int (x : SafeUint_t) (n : Z) : outcome SafeUint_t :=
  uint_ret (guard_bits_int Z.land (value_ x) n "Bitwise AND with a negative number").

Definition uint_or (x y : SafeUint_t) : outcome SafeUint_t :=
  uint_ret (cast_uint w (Z.lor (value_ x) (value_ y))).
Definition uint_or_uint (x : SafeUint_t) (b : Z) : outcome SafeUint_t :=
  uint_ret (cast_uint w (Z.lor (value_ x) b)).
Definition uint_or_int (x : SafeUint_t) (n : Z) : outcome SafeUint_t :=
  uint_ret (guard_bits_int Z.lor (value_ x) n "Bitwise OR with a negative number").

Definition uint_xor (x y : SafeUint_t) : outcome SafeUint_t :=
  uint_ret (cast_uint w (Z.lxor (value_ x) (value_ y))).
Definition uint_xor_uint (x : SafeUint_t) (b : Z) : outcome SafeUint_t :=
  uint_ret (cast_uint w (Z.lxor (value_ x) b)).
Definition uint_xor_int (x : SafeUint_t) (n : Z) : outcome SafeUint_t :=
  uint_ret (guard_bits_int Z.lxor (value_ x) n "Bitwise XOR with a negative number").

(** A built-in operand of fewer than 32 bits is promoted to [int]; shifting by
    the width of the promoted type or more is undefined. *)
Definition promoted_width : Z := if w <? 32 then 32 else w.
Definition shl_value (a n : Z) : outcome Z :=
  if builtin_width w then
    if promoted_width <=? n then Throw undefined_behaviour else Ret (wrap w (Z.shiftl a n))
  else bshl w a n.
Definition shr_value (a n : Z) : outcome Z :=
  if builtin_width w && (promoted_width <=? n) then Throw undefined_behaviour
  else cast_uint w (Z.shiftr a n).

Definition uint_shl (x : SafeUint_t) (n : Z) : outcome SafeUint_t := uint_ret (shl_value (value_ x) n).
Definition uint_shr (x : SafeUint_t) (n : Z) : outcome SafeUint_t := uint_ret (shr_value (value_ x) n).

(** ** Logical and comparison operators *)

Definition truthy (a : Z) : bool := negb (a =? 0).
Definition uint_not (x : SafeUint_t) : bool := negb (truthy (value_ x)).
Definition uint_land (x y : SafeUint_t) : bool := truthy (value_ x) && truthy (value_ y).
Definition uint_land_uint (x : SafeUint_t) (b : Z) : bool := truthy (value_ x) && truthy b.
Definition uint_lor (x y : SafeUint_t) : bool := truthy (value_ x) || truthy (value_ y).
Definition uint_lor_uint (x : SafeUint_t) (b : Z) : bool := truthy (value_ x) || truthy b.

(** A comparison with an [int]: the answer for negatives, else compare with the cast. *)
Definition cmp_int (neg : bool) (cmp : Z → Z → bool) (a n : Z) : outcome bool :=
  if n <? 0 then Ret neg else b ← cast_uint w n ; Ret (cmp a b).
Definition Zneqb (a b : Z) : bool := negb (a =? b).

Definition uint_eq (x y : SafeUint_t) : bool := value_ x =? value_ y.
Definition uint_eq_uint (x : SafeUint_t) (b : Z) : bool := value_ x =? b.
Definition uint_eq_int (x : SafeUint_t) (n : Z) : outcome bool := cmp_int false Z.eqb (value_ x) n.
Definition uint_ne (x y : SafeUint_t) : bool := Zneqb (value_ x) (value_ y).
Definition uint_ne_uint (x : SafeUint_t) (b : Z) : bool := Zneqb (value_ x) b.
Definition uint_ne_int (x : SafeUint_t) (n : Z) : outcome bool := cmp_int true Zneqb (value_ x) n.
Definition uint_lt (x y : SafeUint_t) : bool := value_ x <? value_ y.
Definition uint_lt_uint (x : SafeUint_t) (b : Z) : bool := value_ x <? b.
Definition uint_lt_int (x : SafeUint_t) (n : Z) : outcome bool := cmp_int false Z.ltb (value_ x) n.
Definition uint_le (x y : SafeUint_t) : bool := value_ x <=? value_ y.
Definition uint_le_uint (x : SafeUint_t) (b : Z) : bool := value_ x <=? b.
Definition uint_le_int (x : SafeUint_t) (n : Z) : outcome bool := cmp_int false Z.leb (value_ x) n.
Definition uint_gt (x y : SafeUint_t) : bool := value_ x >? value_ y.
Definition uint_gt_uint (x : SafeUint_t) (b : Z) : bool := value_ x >? b.
Definition uint_gt_int (x : SafeUint_t) (n : Z) : outcome bool := cmp_int true Z.gtb (value_ x) n.
Definition uint_ge (x y : SafeUint_t) : bool := value_ x >=? value_ y.
Definition uint_ge_uint (x : SafeUint_t) (b : Z) : bool := value_ x >=? b.
Definition uint_ge_int (x : SafeUint_t) (n : Z) : outcome bool := cmp_int true Z.geb (value_ x) n.

(** ** Assignment operators: check, [markAsUsed()], then write [value_] *)

Definition checked_assign (chk : Z → option exn) (e : Z → outcome Z) : M SafeUint_t unit :=
  a ← gets value_ ;
  match chk a with Some ex => throw ex | None => mark_assign (e a) end.
Definition no_check (a : Z) : option exn := None.

Definition uint_assign (y : SafeUint_t) : M SafeUint_t unit := mark_assign (Ret (value_ y)).
Definition uint_assign_uint (b : Z) : M SafeUint_t unit := mark_assign (Ret b).
Definition uint_assign_int (n : Z) : M SafeUint_t unit :=
  checked_assign (λ _, chk_neg n "Cannot assign negative value to SafeUint_t") (λ _, cast_uint w n).

Definition uint_add_assign_uint (b : Z) : M SafeUint_t unit :=
  checked_assign (λ a, chk_add a b "Overflow in addition assignment operation.")
    (λ a, cast_uint w (a + b)).
Definition uint_add_assign (y : SafeUint_t) : M SafeUint_t unit := uint_add_assign_uint (value_ y).
Definition uint_add_assign_int (n : Z) : M SafeUint_t unit :=
  a ← gets value_ ;
  tmp ← lift (int256_tmp a n "Underflow in addition assignment operation."
                             "Overflow in addition assignment operation.") ;
  mark_assign (cast_uint w tmp).

Definition uint_sub_assign_uint (b : Z) : M SafeUint_t unit :=
  checked_assign (λ a, chk_sub a b "Underflow in subtraction assignment operation.")
    (λ a, cast_uint w (a - b)).
Definition uint_sub_assign (y : SafeUint_t) : M SafeUint_t unit := uint_sub_assign_uint (value_ y).
Definition uint_sub_assign_int (n : Z) : M SafeUint_t unit :=
  a ← gets value_ ;
  tmp ← lift (int256_tmp a (- n) "Underflow in addition assignment operation."
                                 "Overflow in addition assignment operation.") ;
  mark_assign (cast_uint w tmp).

Definition uint_mul_assign_uint (b : Z) : M SafeUint_t unit :=
  checked_assign (λ a, chk_mul a b "Multiplication assignment by zero"
                         "Overflow in multiplication assignment operation.")
    (λ a, cast_uint w (a * b)).
Definition uint_mul_assign (y : SafeUint_t) : M SafeUint_t unit := uint_mul_assign_uint (value_ y).
Definition uint_mul_assign_int (n : Z) : M SafeUint_t unit :=
  checked_assign (λ a, chk_mul_int a n "Multiplication assignment by zero"
                         "Underflow in multiplication assignment operation."
                         "Overflow in multiplication assignment operation.")
    (λ a, cast_uint w (a * n)).

Definition uint_div_assign_uint (b : Z) : M SafeUint_t unit :=
  checked_assign (λ a, chk_div a b "Division assignment by zero") (λ a, cast_uint w (a / b)).
Definition uint_div_assign (y : SafeUint_t) : M SafeUint_t unit := uint_div_assign_uint (value_ y).
Definition uint_div_assign_int (n : Z) : M SafeUint_t unit :=
  checked_assign (λ _, chk_div_int n "Division assignment by zero"
                         "Division assignment by a negative number")
    (λ a, cast_uint w (a / n)).

Definition uint_mod_assign_uint (b : Z) : M SafeUint_t unit :=
  checked_assign (λ a, chk_div a b "Modulus assignment by zero") (λ a, cast_uint w (a mod b)).
Definition uint_mod_assign (y : SafeUint_t) : M SafeUint_t unit := uint_mod_assign_uint (value_ y).
(** [value_ %= other] with an [int]: [int] arithmetic below 32 bits, the
    unsigned conversion of [other] at 32 and 64, Boost's operator otherwise. *)
Definition mod_int (a n : Z) : outcome Z :=
  if builtin_width w then
    if w <? 32 then Ret (wrap w (Z.rem a n)) else Ret (a mod wrap w n)
  else bmod_int w a n.
Definition uint_mod_assign_int (n : Z) : M SafeUint_t unit :=
  checked_assign (λ a, chk_div a n "Modulus assignment by zero") (λ a, mod_int a n).

Definition uint_and_assign_uint (b : Z) : M SafeUint_t unit :=
  checked_assign no_check (λ a, cast_uint w (Z.land a b)).
Definition uint_and_assign (y : SafeUint_t) : M SafeUint_t unit := uint_and_assign_uint (value_ y).
Definition uint_and_assign_int (n : Z) : M SafeUint_t unit :=
  checked_assign (λ _, chk_neg n "Bitwise AND assignment with a negative value")
    (λ a, cast_uint w (Z.land a n)).

(** [|] and [^] with an [int] wider than [uint_t]. *)
Definition bits_int (z : Z) : outcome Z := if builtin_width w then Ret (wrap w z) else mk_bits w z.

Definition uint_or_assign_uint (b : Z) : M SafeUint_t unit :=
  checked_assign no_check (λ a, cast_uint w (Z.lor a b)).
Definition uint_or_assign (y : SafeUint_t) : M SafeUint_t unit := uint_or_assign_uint (value_ y).
Definition uint_or_assign_int (n : Z) : M SafeUint_t unit :=
  checked_assign (λ _, chk_neg n "Bitwise OR assignment with a negative value")
    (λ a, bits_int (Z.lor a n)).

Definition uint_xor_assign_uint (b : Z) : M SafeUint_t unit :=
  checked_assign no_check (λ a, cast_uint w (Z.lxor a b)).
Definition uint_xor_assign (y : SafeUint_t) : M SafeUint_t unit := uint_xor_assign_uint (value_ y).
Definition uint_xor_assign_int (n : Z) : M SafeUint_t unit :=
  checked_assign (λ _, chk_neg n "Bitwise XOR assignment with a negative value.")
    (λ a, bits_int (Z.lxor a n)).

Definition uint_shl_assign (n : Z) : M SafeUint_t unit :=
  checked_assign no_check (λ a, shl_value a n).
Definition uint_shr_assign (n : Z) : M SafeUint_t unit :=
  checked_assign no_check (λ a, shr_value a n).

Definition chk_max (a : Z) (msg : string) : option exn :=
  if a =? umax w then Some (overflow_error msg) else None.
Definition chk_zero (a : Z) (msg : string) : option exn :=
  if a =? 0 then Some (underflow_error msg) else None.

Definition uint_pre_inc : M SafeUint_t unit :=
  checked_assign (λ a, chk_max a "Overflow in prefix increment operation.") (λ a, cast_uint w (a + 1)).
Definition uint_post_inc : M SafeUint_t SafeUint_t :=
  tmp ← gets (λ x, scalar_local (value_ x)) ;
  checked_assign (λ a, chk_max a "Overflow in postfix increment operation.") (λ a, cast_uint w (a + 1)) ;;
  mret tmp.
Definition uint_pre_dec : M SafeUint_t unit :=
  checked_assign (λ a, chk_zero a "Underflow in prefix decrement operation.") (λ a, cast_uint w (a - 1)).
Definition uint_post_dec : M SafeUint_t SafeUint_t :=
  tmp ← gets (λ x, scalar_local (value_ x)) ;
  checked_assign (λ a, chk_zero a "Underflow in postfix decrement operation.") (λ a, cast_uint w (a - 1)) ;;
  mret tmp.
End safeuint.

(** ** Sequences of mutating operations *)

(** Every mutating operator, with its operand. *)
Inductive UintOp :=
| UAssign (b : Z) | UAssignInt (n : Z)
| UAdd (b : Z) | UAddInt (n : Z) | USub (b : Z) | USubInt (n : Z)
| UMul (b : Z) | UMulInt (n : Z) | UDiv (b : Z) | UDivInt (n : Z)
| UMod (b : Z) | UModInt (n : Z)
| UAnd (b : Z) | UAndInt (n : Z) | UOr (b : Z) | UOrInt (n : Z) | UXor (b : Z) | UXorInt (n : Z)
| UShl (n : Z) | UShr (n : Z)
| UPreInc | UPostInc | UPreDec | UPostDec.

Section ops.
Context {BI : BoostInt} (w : Z).

Definition uint_run (op : UintOp) : M SafeUint_t unit :=
  match op with
  | UAssign b => uint_assign_uint b
  | UAssignInt n => uint_assign_int w n
  | UAdd b => uint_add_assign_uint w b
  | UAddInt n => uint_add_assign_int w n
  | USub b => uint_sub_assign_uint w b
  | USubInt n => uint_sub_assign_int w n
  | UMul b => uint_mul_assign_uint w b
  | UMulInt n => uint_mul_assign_int w n
  | UDiv b => uint_div_assign_uint w b
  | UDivInt n => uint_div_assign_int w n
  | UMod b => uint_mod_assign_uint w b
  | UModInt n => uint_mod_assign_int w n
  | UAnd b => uint_and_assign_uint w b
  | UAndInt n => uint_and_assign_int w n
  | UOr b => uint_or_assign_uint w b
  | UOrInt n => uint_or_assign_int w n
  | UXor b => uint_xor_assign_uint w b
  | UXorInt n => uint_xor_assign_int w n
  | UShl n => uint_shl_assign w n
  | UShr n => uint_shr_assign w n
  | UPreInc => uint_pre_inc w
  | UPostInc => uint_post_inc w ;; mret ()
  | UPreDec => uint_pre_dec w
  | UPostDec => uint_post_dec w ;; mret ()
  end.

(** The operands the C++ types admit. *)
Definition op_ok (op : UintOp) : Prop :=
  match op with
  | UAssign b | UAdd b | USub b | UMul b | UDiv b | UMod b | UAnd b | UOr b | UXor b => in_range w b
  | UAssignInt n | UAddInt n | USubInt n | UMulInt n | UDivInt n | UModInt n
  | UAndInt n | UOrInt n | UXorInt n => is_int n
  | UShl n | UShr n => in_range 8 n
  | UPreInc | UPostInc | UPreDec | UPostDec => True
  end.

(** A caller that catches what each operation throws and goes on. *)
Definition uint_run_all (ops : list UintOp) (x : SafeUint_t) : SafeUint_t :=
  fold_left (λ x op, (uint_run op x).2) ops x.

Lemma checked_assign_safe chk e : safe_op (checked_assign chk e).
Proof. unfold checked_assign. solve_safe_op. Qed.

Lemma uint_run_safe op : safe_op (uint_run op).
Proof.
  destruct op; cbn [uint_run];
    try (apply mark_assign_safe); try (apply checked_assign_safe).
  all: unfold uint_add_assign_int, uint_sub_assign_int, uint_post_inc, uint_post_dec; solve_safe_op.
  all: unfold checked_assign; solve_safe_op.
Qed.

(** What an operation that succeeds stores. *)
Definition stores (m : M SafeUint_t unit) (P : Z → Z → Prop) : Prop :=
  ∀ x, match m x with
       | (Ret _, x') => P (value_ x) (value_ x')
       | (Throw _, x') => value_ x' = value_ x
       end.

Lemma checked_assign_run chk e x :
  checked_assign chk e x =
    match chk (value_ x) with
    | Some ex => (Throw ex, x)
    | None => mark_assign (e (value_ x)) x
    end.
Proof. unfold checked_assign, gets, mbind, M_bind. by destruct (chk (value_ x)). Qed.

Lemma checked_assign_stores chk e (P : Z → Z → Prop) :
  (∀ a v, chk a = None → e a = Ret v → P a v) → stores (checked_assign chk e) P.
Proof.
  intros He x. rewrite checked_assign_run.
  destruct (chk (value_ x)) eqn:C; [done|]. rewrite mark_assign_run.
  destruct (e (value_ x)) eqn:E; cbn; [by apply He|done].
Qed.

Lemma mod_int_range a n v : uint_size w → in_range w a → mod_int w a n = Ret v → in_range w v.
Proof.
  intros [Hw _] Ha. unfold mod_int. destruct (builtin_width w).
  - destruct (w <? 32); intros [= <-]; [apply wrap_in_range; lia|].
    pose proof (wrap_in_range w n ltac:(lia)) as Hn. unfold in_range in *.
    destruct (Z.eq_dec (wrap w n) 0) as [->|Hz]; [by rewrite Z.mod_0_r|].
    pose proof (Z.mod_pos_bound a (wrap w n)). pose proof (Z.mod_le a (wrap w n)). lia.
  - by apply bmod_int_range.
Qed.

Lemma shl_value_range a n v : 0 ≤ w → shl_value w a n = Ret v → in_range w v.
Proof.
  intros Hw. unfold shl_value. destruct (builtin_width w); [|apply bshl_range].
  destruct (_ <=? n); [done|]. intros [= <-]. by apply wrap_in_range.
Qed.

Lemma bits_int_range z v : 0 ≤ w → bits_int w z = Ret v → in_range w v.
Proof.
  intros Hw. unfold bits_int. destruct (builtin_width w); [|apply mk_bits_range].
  intros [= <-]. by apply wrap_in_range.
Qed.

Lemma shr_value_range a n v : 0 ≤ w → shr_value w a n = Ret v → in_range w v.
Proof.
  intros Hw. unfold shr_value. destruct (_ && _); [done|]. by apply cast_uint_in_range.
Qed.

(** One step keeps the value within its type. *)
Lemma uint_run_range op : uint_size w → op_ok op →
  stores (uint_run op) (λ a v, in_range w a → in_range w v).
Proof.
  intros Hw Hop. assert (0 ≤ w) by (destruct Hw; lia).
  destruct op; cbn [uint_run op_ok] in *.
  1: { intros x. unfold uint_assign_uint. rewrite mark_assign_run. cbn. auto. }
  all: try (apply checked_assign_stores; intros a v _ E Ha;
            first [ by eapply cast_uint_in_range | by eapply mod_int_range
                  | by eapply shl_value_range | by eapply shr_value_range
                  | by eapply bits_int_range ]).
  1,2: (intros x; unfold uint_add_assign_int, uint_sub_assign_int, gets, lift, mbind, M_bind;
    destruct (int256_tmp _ _ _ _ _); [|done]; rewrite mark_assign_run;
    destruct (cast_uint w _) eqn:E; cbn; [intros _; by eapply cast_uint_in_range | done]).
  all: intros x; unfold uint_post_inc, uint_post_dec, gets, lift, mbind, mret, M_bind, M_ret;
    rewrite checked_assign_run; cbv beta;
    first [destruct (chk_max _ _ _) | destruct (chk_zero _ _)]; [done|]; rewrite mark_assign_run;
    destruct (cast_uint w _) eqn:E; cbn; [intros _; by eapply cast_uint_in_range | done].
Qed.

(** ** The arithmetic the operators implement *)

Definition is_arith (op : UintOp) : bool :=
  match op with
  | UAdd _ | UAddInt _ | USub _ | USubInt _ | UMul _ | UMulInt _ | UDiv _ | UDivInt _ | UMod _
  | UPreInc | UPostInc | UPreDec | UPostDec => true
  | _ => false
  end.

(** The exact integer result, [None] where the operator refuses its operands:
    a zero factor, a zero dividend or divisor, a negative [int] divisor. *)
Definition math_result (op : UintOp) (a : Z) : option Z :=
  match op with
  | UAdd n | UAddInt n => Some (a + n)
  | USub n | USubInt n => Some (a - n)
  | UMul n | UMulInt n => if (a =? 0) || (n =? 0) then None else Some (a * n)
  | UDiv n => if (a =? 0) || (n =? 0) then None else Some (a / n)
  | UDivInt n => if n <=? 0 then None else Some (a / n)
  | UMod n => if (a =? 0) || (n =? 0) then None else Some (a mod n)
  | UPreInc | UPostInc => Some (a + 1)
  | UPreDec | UPostDec => Some (a - 1)
  | _ => None
  end.

(** [exact_or_throw m r x]: [m] stores [r] when it is a value of the type and
    otherwise throws without touching the variable. *)
Definition exact_or_throw (m : M SafeUint_t unit) (r : option Z) (x : SafeUint_t) : Prop :=
  (∃ z, r = Some z ∧ in_range w z ∧
     m x = (Ret (), mkScalar (markAsUsed (sc_base x)) z (copy_ x))) ∨
  ((∀ z, r = Some z → ¬ in_range w z) ∧ ∃ e, m x = (Throw e, x)).

Lemma checked_assign_exact chk e r x :
  (∀ z, r = Some z → in_range w z → chk (value_ x) = None ∧ e (value_ x) = cast_uint w z) →
  (∀ ex, chk (value_ x) = Some ex → ∀ z, r = Some z → ¬ in_range w z) →
  (chk (value_ x) = None → ∃ z, r = Some z ∧ in_range w z) →
  exact_or_throw (checked_assign chk e) r x.
Proof.
  intros H1 H2 H3. unfold exact_or_throw. rewrite checked_assign_run.
  destruct (chk (value_ x)) as [ex|] eqn:C; [right; eauto|].
  destruct (H3 eq_refl) as (z & -> & Hz). left. exists z. split_and!; [done..|].
  destruct (H1 z eq_refl Hz) as [_ ->]. by rewrite mark_assign_run, cast_uint_id.
Qed.

Ltac solve_exact :=
  apply checked_assign_exact; unfold umax, in_range in *;
  [ intros ? [= <-] ?; split; [repeat case_match; first [done | lia] | done]
  | intros ?; repeat case_match; try done; intros _ ? [= <-]; lia
  | repeat case_match; try done; intros _; eexists; split; [done | lia] ].

Lemma int256_tmp_spec a d u v :
  uint_size w → in_range w a → - 2 ^ 31 ≤ d ≤ 2 ^ 31 →
  (in_range w (a + d) ∧ int256_tmp w a d u v = Ret (a + d)) ∨
  (¬ in_range w (a + d) ∧ ∃ e, int256_tmp w a d u v = Throw e).
Proof.
  intros [[Hw1 Hw2] _] Ha Hd. unfold in_range, is_int, int256_tmp, umax in *.
  assert (2 ^ w ≤ 2 ^ 256) by (apply Z.pow_le_mono_r; lia).
  rewrite (mk_signed_fits 256 a) by lia. rewrite (mk_signed_fits 256 (2 ^ w - 1)) by lia.
  cbv [mbind outcome_bind].
  destruct (decide (- 2 ^ 256 < a + d < 2 ^ 256)) as [Hs|Hs].
  - rewrite mk_signed_fits by done.
    destruct (Z.ltb_spec (a + d) 0); [right; split; [lia|eauto]|].
    destruct (Z.gtb_spec (a + d) (2 ^ w - 1)); [right; split; [lia|eauto]|].
    left. split; [lia|done].
  - rewrite mk_signed_throws by done. right. split; [lia|eauto].
Qed.

Lemma quot_guard b a : 0 < b → (a >? umax w / b) = negb (a * b <=? umax w).
Proof.
  intros Hb. rewrite Z.gtb_ltb. destruct (Z.leb_spec (a * b) (umax w)); cbn.
  - apply Z.ltb_ge. apply Z.div_le_lower_bound; lia.
  - apply Z.ltb_lt. apply Z.div_lt_upper_bound; lia.
Qed.

Lemma chk_max_exact msg x : in_range w (value_ x) →
  exact_or_throw (checked_assign (λ a, chk_max w a msg) (λ a, cast_uint w (a + 1)))
    (Some (value_ x + 1)) x.
Proof. intros Ha. unfold chk_max. solve_exact. Qed.

Lemma chk_zero_exact msg x : in_range w (value_ x) →
  exact_or_throw (checked_assign (λ a, chk_zero a msg) (λ a, cast_uint w (a - 1)))
    (Some (value_ x - 1)) x.
Proof. intros Ha. unfold chk_zero. solve_exact. Qed.

(** Dropping the returned copy of a postfix operator. *)
Lemma exact_post m r x :
  exact_or_throw m r x →
  exact_or_throw ((tmp ← gets (λ x, scalar_local (T := Z) (value_ x)) ; m ;; mret tmp) ;; mret ()) r x.
Proof.
  intros [(z & ? & ? & Hm)|[? [e Hm]]]; [left; exists z | right].
  - split_and!; [done..|]. unfold mbind, mret, M_bind, M_ret, gets. by rewrite Hm.
  - split; [done|]. exists e. unfold mbind, mret, M_bind, M_ret, gets. by rewrite Hm.
Qed.

Lemma int256_assign_exact d u v x :
  uint_size w → in_range w (value_ x) → - 2 ^ 31 ≤ d ≤ 2 ^ 31 →
  exact_or_throw (a ← gets value_ ; tmp ← lift (int256_tmp w a d u v) ; mark_assign (cast_uint w tmp))
    (Some (value_ x + d)) x.
Proof.
  intros Hw Ha Hd. unfold exact_or_throw, mbind, M_bind, gets, lift.
  destruct (int256_tmp_spec (value_ x) d u v Hw Ha Hd) as [[Hz ->]|[Hz [e ->]]].
  - left. exists (value_ x + d). split_and!; [done..|]. by rewrite mark_assign_run, cast_uint_id.
  - right. split; [by intros ? [= <-]|eauto].
Qed.

Lemma mul_exact b x zero over : in_range w (value_ x) → 0 ≤ b →
  exact_or_throw (checked_assign (λ a, chk_mul w a b zero over) (λ a, cast_uint w (a * b)))
    (if (value_ x =? 0) || (b =? 0) then None else Some (value_ x * b)) x.
Proof.
  intros Ha Hb. destruct (Z.eqb_spec (value_ x) 0) as [H0|H0]; cbn.
  { right. split; [done|]. rewrite checked_assign_run. unfold chk_mul.
    rewrite H0, orb_true_r. eauto. }
  destruct (Z.eqb_spec b 0) as [H1|H1]; cbn.
  { right. split; [done|]. rewrite checked_assign_run. unfold chk_mul. rewrite H1. eauto. }
  unfold in_range in Ha. assert (0 < value_ x * b) by nia.
  apply checked_assign_exact; unfold chk_mul;
    rewrite ?(proj2 (Z.eqb_neq b 0) H1), ?(proj2 (Z.eqb_neq _ 0) H0), quot_guard by lia; cbn;
    unfold umax, in_range in *.
  - intros z [= <-] Hz. split; [case_match; first [done|lia]|done].
  - intros ex. case_match; [|done]. intros _ z [= <-]. lia.
  - case_match; [done|]. intros _. eexists. split; [done|]. lia.
Qed.

Lemma mul_int_exact n x zero under over : in_range w (value_ x) →
  exact_or_throw (checked_assign (λ a, chk_mul_int w a n zero under over) (λ a, cast_uint w (a * n)))
    (if (value_ x =? 0) || (n =? 0) then None else Some (value_ x * n)) x.
Proof.
  intros Ha. destruct (Z.ltb_spec n 0) as [Hn|Hn].
  - right. destruct (Z.eqb_spec (value_ x) 0); cbn.
    + split; [done|]. rewrite checked_assign_run. unfold chk_mul_int.
      destruct (_ || _); [eauto|]. rewrite (proj2 (Z.ltb_lt n 0) Hn). eauto.
    + rewrite (proj2 (Z.eqb_neq n 0)) by lia. split.
      * intros z [= <-]. unfold in_range in *. nia.
      * rewrite checked_assign_run. unfold chk_mul_int.
        destruct (_ || _); [eauto|]. rewrite (proj2 (Z.ltb_lt n 0) Hn). eauto.
  - pose proof (mul_exact n x zero over Ha Hn) as Hm. unfold exact_or_throw in *.
    rewrite checked_assign_run in *. unfold chk_mul, chk_mul_int in *.
    by rewrite (proj2 (Z.ltb_ge n 0) Hn).
Qed.

Lemma div_in_range a b : in_range w a → 0 < b → in_range w (a / b).
Proof.
  unfold in_range. intros Ha Hb. pose proof (Z.div_pos a b). pose proof (Z.div_le_upper_bound a b a). nia.
Qed.

Lemma mod_in_range a b : in_range w a → 0 < b → in_range w (a mod b).
Proof.
  unfold in_range. intros Ha Hb. pose proof (Z.mod_pos_bound a b). pose proof (Z.mod_le a b). lia.
Qed.

Lemma div_exact (f : Z → Z) b x msg :
  (0 < b → in_range w (f (value_ x))) → in_range w (value_ x) → 0 ≤ b →
  exact_or_throw (checked_assign (λ a, chk_div a b msg) (λ a, cast_uint w (f a)))
    (if (value_ x =? 0) || (b =? 0) then None else Some (f (value_ x))) x.
Proof.
  intros Hf Ha Hb. unfold exact_or_throw. rewrite checked_assign_run. unfold chk_div.
  destruct (Z.eqb_spec (value_ x) 0); cbn; [right; split; [done|eauto]|].
  destruct (Z.eqb_spec b 0); cbn; [right; split; [done|eauto]|]. left. exists (f (value_ x)).
  assert (in_range w (f (value_ x))) by (apply Hf; lia).
  split_and!; [done..|]. by rewrite mark_assign_run, cast_uint_id.
Qed.

(** Each arithmetic assignment is exact or throws with no effect. *)
Lemma uint_arith op x : uint_size w → op_ok op → is_arith op = true → in_range w (value_ x) →
  exact_or_throw (uint_run op) (math_result op (value_ x)) x.
Proof.
  intros Hw Hop Har Ha. assert (Hpos : 0 < 2 ^ w) by (unfold in_range in Ha; lia).
  destruct op; try done; cbn [uint_run math_result op_ok] in *.
  - unfold uint_add_assign_uint, chk_add. unfold in_range in Hop. solve_exact.
  - apply int256_assign_exact; [done..|]. unfold is_int in *. lia.
  - unfold uint_sub_assign_uint, chk_sub. unfold in_range in Hop. solve_exact.
  - apply int256_assign_exact; [done..|]. unfold is_int in *. lia.
  - apply mul_exact; [done|]. unfold in_range in Hop. lia.
  - by apply mul_int_exact.
  - apply (div_exact (λ a, a / b)); [by intros; apply div_in_range | done | apply Hop].
  - destruct (Z.leb_spec n 0) as [Hn|Hn].
    + right. split; [done|]. unfold uint_div_assign_int. rewrite checked_assign_run.
      unfold chk_div_int. repeat case_match; first [by eauto | lia].
    + left. exists (value_ x / n). split_and!; [done | by apply div_in_range |].
      unfold uint_div_assign_int. rewrite checked_assign_run. unfold chk_div_int.
      rewrite (proj2 (Z.eqb_neq n 0)), (proj2 (Z.ltb_ge n 0)) by lia.
      rewrite mark_assign_run, cast_uint_id; [done | by apply div_in_range].
  - apply (div_exact (λ a, a mod b)); [by intros; apply mod_in_range | done | apply Hop].
  - by apply chk_max_exact.
  - by apply exact_post, chk_max_exact.
  - by apply chk_zero_exact.
  - by apply exact_post, chk_zero_exact.
Qed.
End ops.

(** ** The properties of [SafeUint_t] *)

Section properties.
Context {BI : BoostInt}.

(** An arithmetic assignment of [SafeUint_t] ([+=], [-=], [*=], [/=], [%=],
    increments and decrements, with an unsigned or an [int] operand) on an
    in-range variable stores the exact mathematical result, marks the variable
    as used and keeps its committed copy when that result fits the type and the
    operator accepts its operands (the code refuses a zero factor, a zero
    dividend or divisor and a negative [int] divisor), and otherwise throws and
    leaves the variable untouched. *)
Theorem uint_arith_exact w op x :
  uint_size w → op_ok w op → is_arith op = true → in_range w (value_ x) →
  (∃ z, math_result op (value_ x) = Some z ∧ in_range w z ∧
     uint_run w op x = (Ret (), mkScalar (markAsUsed (sc_base x)) z (copy_ x))) ∨
  ((∀ z, math_result op (value_ x) = Some z → ¬ in_range w z) ∧
     ∃ e, uint_run w op x = (Throw e, x)).
Proof. apply uint_arith. Qed.

(** Whatever sequence of mutating operations a [SafeUint_t] goes through,
    throwing or not, its value stays within the type and [revert] brings back
    the value of the last commit. *)
Theorem uint_ops_revert w ops x o :
  uint_size w → Forall (op_ok w) ops → in_range w (value_ x) →
  scalar_rel o x →
  in_range w (value_ (uint_run_all w ops x)) ∧
  ∃ x', scalar_revert (uint_run_all w ops x) = (Ret (), x') ∧ value_ x' = o.
Proof.
  intros Hw Hops Ha Hr.
  cut (in_range w (value_ (uint_run_all w ops x)) ∧ scalar_rel o (uint_run_all w ops x)).
  { intros [H1 H2]. split; [done|].
    destruct (@sv_revert_ok _ _ scalar_var o _ H2) as (x' & ? & ? & _). eauto. }
  revert x Ha Hr. induction Hops as [|op ops Hop Hops IH]; intros x Ha Hr; [done|].
  unfold uint_run_all in *. cbn [fold_left]. apply IH.
  - pose proof (uint_run_range w op Hw Hop x) as Hst.
    destruct (uint_run w op x) as [[[]|e] x']; cbn in *; [by apply Hst | by rewrite Hst].
  - by apply (uint_run_safe w op x).
Qed.
End properties.

Lemma uint_arith_exact_witness :
  uint_run (BI := boost_ref) 8 (UAdd 7) (scalar_owned 250) = (Throw (overflow_error "Overflow in addition assignment operation."), scalar_owned 250) ∧
  ((∃ z, math_result (UMul 7) 6 = Some z ∧ in_range 256 z ∧
     uint_run (BI := boost_ref) 256 (UMul 7) (scalar_owned 6) = (Ret (), mkScalar (mkSafeBase true false false) z 6)) ∨
   ((∀ z, math_result (UMul 7) 6 = Some z → ¬ in_range 256 z) ∧
     ∃ e, uint_run (BI := boost_ref) 256 (UMul 7) (scalar_owned 6) = (Throw e, scalar_owned 6))).
Proof.
  split; [vm_compute; reflexivity|].
  apply (uint_arith_exact (BI := boost_ref) 256 (UMul 7) (scalar_owned 6)).
  - split; [lia | reflexivity].
  - cbn. unfold in_range. lia.
  - reflexivity.
  - cbn. unfold in_range. lia.
Defined.

Lemma uint_ops_revert_witness :
  in_range 64 (value_ (uint_run_all (BI := boost_ref) 64 [UAdd 5; USub 100; UShl 3] (scalar_owned 7))) ∧
  ∃ x', scalar_revert (uint_run_all (BI := boost_ref) 64 [UAdd 5; USub 100; UShl 3] (scalar_owned 7)) = (Ret (), x') ∧ value_ x' = 7.
Proof.
  apply (uint_ops_revert (BI := boost_ref) 64 [UAdd 5; USub 100; UShl 3] (scalar_owned 7) 7).
  - split; [lia | reflexivity].
  - repeat constructor; unfold in_range; lia.
  - cbn. unfold in_range. lia.
  - split; [reflexivity | intros; reflexivity].
Defined.
