(* ===== verification/SafeInt.v ===== *)
(** * [SafeInt_t<Size>]

    Models the arithmetic, comparison and assignment operators of
    src/contract/variables/safeint.h.  [int_t] is a built-in type for 8, 16, 32
    and 64 and otherwise a checked Boost number with sign and a magnitude of
    [Size] bits.  The bitwise and shift operators are not modelled. *)

From S2P Require Import Prelude CheckedInt SafeBase SafeScalars SafeUint.

Definition SafeInt_t := Scalar Z.

(** [std::numeric_limits<int_t>::max()] and [min()] *)
Definition imax (w : Z) : Z := if builtin_width w then 2 ^ (w - 1) - 1 else 2 ^ w - 1.
Definition imin (w : Z) : Z := if builtin_width w then - 2 ^ (w - 1) else - (2 ^ w - 1).

(** The values of [int_t]. *)
Definition int_range (w z : Z) : Prop := imin w ≤ z ≤ imax w.

#[export] Instance int_range_dec w z : Decision (int_range w z).
Proof. unfold int_range. apply _. Defined.

Section safeint.
Context {BI : BoostInt} (w : Z).

(** Store an exact result: below 32 bits the computation is in [int] and the
    store wraps; at 32 and 64 bits overflow is undefined; Boost throws. *)
Definition store_int (z : Z) : outcome Z :=
  if builtin_width w then
    if decide (int_range w z) then Ret z
    else if w <? 32 then Ret (wrap w (z + 2 ^ (w - 1)) - 2 ^ (w - 1))
    else Throw undefined_behaviour
  else mk_signed w z.

Definition ichk_add (a b : Z) (over under : string) : option exn :=
  if (b >? 0) && (a >? imax w - b) then Some (overflow_error over)
  else if (b <? 0) && (a <? imin w - b) then Some (underflow_error under) else None.
Definition ichk_sub (a b : Z) (over under : string) : option exn :=
  if (b <? 0) && (a >? imax w + b) then Some (overflow_error over)
  else if (b >? 0) && (a <? imin w + b) then Some (underflow_error under) else None.
(** [min() / -1] overflows [int32_t] and [int64_t]. *)
Definition ichk_mul (a b : Z) (over under : string) : option exn :=
  if (a =? 0) || (b =? 0) then Some (domain_error "Multiplication by zero.")
  else if a >? Z.quot (imax w) b then Some (overflow_error over)
  else if (b =? -1) && ((w =? 32) || (w =? 64)) then Some undefined_behaviour
  else if a <? Z.quot (imin w) b then Some (underflow_error under) else None.
Definition ichk_div (a b : Z) (zero over : string) : option exn :=
  if b =? 0 then Some (domain_error zero)
  else if (a =? imin w) && (b =? -1) then Some (overflow_error over) else None.
Definition ichk_mod (b : Z) (zero : string) : option exn :=
  if b =? 0 then Some (domain_error zero) else None.

Definition int_ret (o : outcome Z) : outcome SafeInt_t := v ← o ; mret (scalar_local v).

(** ** Operators that build a new variable *)

Definition int_add_int (x : SafeInt_t) (b : Z) : outcome SafeInt_t :=
  int_ret (after (ichk_add (value_ x) b "Overflow in addition operation."
                    "Underflow in addition operation.") (store_int (value_ x + b))).
Definition int_add (x y : SafeInt_t) : outcome SafeInt_t := int_add_int x (value_ y).
Definition int_sub_int (x : SafeInt_t) (b : Z) : outcome SafeInt_t :=
  int_ret (after (ichk_sub (value_ x) b "Overflow in subtraction operation."
                    "Underflow in subtraction operation.") (store_int (value_ x - b))).
Definition int_sub (x y : SafeInt_t) : outcome SafeInt_t := int_sub_int x (value_ y).
Definition int_mul_int (x : SafeInt_t) (b : Z) : outcome SafeInt_t :=
  int_ret (after (ichk_mul (value_ x) b "Overflow in multiplication operation."
                    "Underflow in multiplication operation.") (store_int (value_ x * b))).
Definition int_mul (x y : SafeInt_t) : outcome SafeInt_t := int_mul_int x (value_ y).
Definition int_div_int (x : SafeInt_t) (b : Z) : outcome SafeInt_t :=
  int_ret (after (ichk_div (value_ x) b "Division by zero" "Overflow in division operation.")
             (store_int (Z.quot (value_ x) b))).
Definition int_div (x y : SafeInt_t) : outcome SafeInt_t := int_div_int x (value_ y).
Definition int_mod_int (x : SafeInt_t) (b : Z) : outcome SafeInt_t :=
  int_ret (after (ichk_mod b "Modulus by zero") (store_int (Z.rem (value_ x) b))).
Definition int_mod (x y : SafeInt_t) : outcome SafeInt_t := int_mod_int x (value_ y).

(** ** Comparisons *)

Definition int_bool (x : SafeInt_t) : bool := negb (value_ x =? 0).
Definition int_eq (x y : SafeInt_t) : bool := value_ x =? value_ y.
Definition int_ne (x y : SafeInt_t) : bool := negb (value_ x =? value_ y).
Definition int_lt (x y : SafeInt_t) : bool := value_ x <? value_ y.
Definition int_le (x y : SafeInt_t) : bool := value_ x <=? value_ y.
Definition int_gt (x y : SafeInt_t) : bool := value_ x >? value_ y.
Definition int_ge (x y : SafeInt_t) : bool := value_ x >=? value_ y.

(** ** Assignment operators *)

Definition int_assign (b : Z) : M SafeInt_t unit := mark_assign (Ret b).
Definition int_add_assign (b : Z) : M SafeInt_t unit :=
  checked_assign (λ a, ichk_add a b "Overflow in addition assignment operation."
                         "Underflow in addition assignment operation.") (λ a, store_int (a + b)).
Definition int_sub_assign (b : Z) : M SafeInt_t unit :=
  checked_assign (λ a, ichk_sub a b "Overflow in subtraction assignment operation."
                         "Underflow in subtraction assignment operation.") (λ a, store_int (a - b)).
Definition int_mul_assign (b : Z) : M SafeInt_t unit :=
  checked_assign (λ a, ichk_mul a b "Overflow in multiplication assignment operation."
                         "Underflow in multiplication assignment operation.") (λ a, store_int (a * b)).
Definition int_div_assign (b : Z) : M SafeInt_t unit :=
  checked_assign (λ a, ichk_div a b "Division assignment by zero."
                         "Overflow in division assignment operation.") (λ a, store_int (Z.quot a b)).
Definition int_mod_assign (b : Z) : M SafeInt_t unit :=
  checked_assign (λ _, ichk_mod b "Modulus assignment by zero.") (λ a, store_int (Z.rem a b)).

Definition ichk_max (a : Z) (msg : string) : option exn :=
  if a =? imax w then Some (overflow_error msg) else None.
Definition ichk_min (a : Z) (msg : string) : option exn :=
  if a =? imin w then Some (underflow_error msg) else None.

Definition int_pre_inc : M SafeInt_t unit :=
  checked_assign (λ a, ichk_max a "Overflow in prefix increment operation.") (λ a, store_int (a + 1)).
Definition int_post_inc : M SafeInt_t SafeInt_t :=
  tmp ← gets (λ x, scalar_local (value_ x)) ;
  checked_assign (λ a, ichk_max a "Overflow in postfix increment operation.") (λ a, store_int (a + 1)) ;;
  mret tmp.
Definition int_pre_dec : M SafeInt_t unit :=
  checked_assign (λ a, ichk_min a "Underflow in prefix decrement operation.") (λ a, store_int (a - 1)).
Definition int_post_dec : M SafeInt_t SafeInt_t :=
  tmp ← gets (λ x, scalar_local (value_ x)) ;
  checked_assign (λ a, ichk_min a "Underflow in postfix decrement operation.") (λ a, store_int (a - 1)) ;;
  mret tmp.

(** ** Lemmas *)

Lemma store_int_id z : int_range w z → store_int z = Ret z.
Proof.
  intros Hz. unfold store_int. destruct (builtin_width w) eqn:Hb.
  - by rewrite decide_True.
  - apply mk_signed_fits. unfold int_range, imin, imax in Hz. rewrite Hb in Hz. lia.
Qed.

Lemma imin_imax : uint_size w → imin w < 0 < imax w ∧ - imax w - 1 ≤ imin w ≤ - imax w.
Proof.
  intros [[Hw _] _]. unfold imin, imax.
  assert (2 ^ 7 ≤ 2 ^ (w - 1)) by (apply Z.pow_le_mono_r; lia).
  assert (2 ^ 8 ≤ 2 ^ w) by (apply Z.pow_le_mono_r; lia).
  destruct (builtin_width w); lia.
Qed.

(** The operations and the exact results they aim at. *)
Inductive IntOp := IAdd (b : Z) | ISub (b : Z) | IMul (b : Z) | IDiv (b : Z) | IMod (b : Z) | IInc | IDec.

Definition int_run (op : IntOp) : M SafeInt_t unit :=
  match op with
  | IAdd b => int_add_assign b | ISub b => int_sub_assign b | IMul b => int_mul_assign b
  | IDiv b => int_div_assign b | IMod b => int_mod_assign b
  | IInc => int_pre_inc | IDec => int_pre_dec
  end.
Definition int_operand (op : IntOp) : Z :=
  match op with IAdd b | ISub b | IMul b | IDiv b | IMod b => b | IInc | IDec => 1 end.
Definition int_result (op : IntOp) (a : Z) : option Z :=
  match op with
  | IAdd b => Some (a + b) | ISub b => Some (a - b)
  | IMul b => if (a =? 0) || (b =? 0) then None else Some (a * b)
  | IDiv b => if b =? 0 then None else Some (Z.quot a b)
  | IMod b => if b =? 0 then None else Some (Z.rem a b)
  | IInc => Some (a + 1) | IDec => Some (a - 1)
  end.

Lemma int_checked_exact chk e (r : option Z) x :
  (∀ ex, chk (value_ x) = Some ex → ∀ z, r = Some z → ¬ int_range w z) →
  (chk (value_ x) = None → ∃ z, r = Some z ∧ int_range w z ∧ e (value_ x) = store_int z) →
  (∃ z, r = Some z ∧ int_range w z ∧
     checked_assign chk e x = (Ret (), mkScalar (markAsUsed (sc_base x)) z (copy_ x))) ∨
  ((∀ z, r = Some z → ¬ int_range w z) ∧ ∃ e', checked_assign chk e x = (Throw e', x)).
Proof.
  intros H1 H2. rewrite checked_assign_run.
  destruct (chk (value_ x)) as [ex|] eqn:C; [right; eauto|].
  destruct (H2 eq_refl) as (z & -> & Hz & ->). left. exists z.
  by rewrite mark_assign_run, store_int_id.
Qed.

Lemma quot_bounds a b : int_range w a → uint_size w → b ≠ 0 → (a = imin w → b ≠ -1) →
  int_range w (Z.quot a b).
Proof.
  intros Ha Hw Hb Hm. pose proof (imin_imax Hw). unfold int_range in *.
  destruct (decide (b = -1)) as [->|Hb'].
  - change (-1) with (- (1)). rewrite Z.quot_opp_r, Z.quot_1_r by lia. lia.
  - destruct (decide (b = 1)) as [->|Hb'']; [by rewrite Z.quot_1_r|].
    assert (Z.abs (Z.quot a b) ≤ Z.abs a / 2).
    { rewrite <- Z.quot_abs, Z.quot_div_nonneg by lia.
      apply Z.div_le_compat_l; lia. }
    pose proof (Z.div_le_upper_bound (Z.abs a) 2 (imax w)). lia.
Qed.

Lemma rem_bounds a b : uint_size w → int_range w a → b ≠ 0 → int_range w (Z.rem a b).
Proof.
  intros Hw Ha Hb. pose proof (imin_imax Hw). unfold int_range in *.
  assert (Z.abs (Z.rem a b) ≤ Z.abs a).
  { rewrite <- Z.rem_abs, Z.rem_mod_nonneg by lia. apply Z.mod_le; lia. }
  pose proof (Z.rem_sign_mul a b Hb).
  destruct (Z.le_gt_cases 0 a); [assert (0 ≤ Z.rem a b) | assert (Z.rem a b ≤ 0)];
    [destruct (decide (a = 0)) as [->|]; [by rewrite Z.rem_0_l | nia] | nia | lia..].
Qed.

(** The operations whose guards are exact: a factor is not negative (see
    [int_mul_negative_throws] for the others), and [min() / -1], refused for
    every type, is not representable. *)
Definition int_scope (op : IntOp) (a : Z) : Prop :=
  match op with
  | IMul b => 0 ≤ b
  | IDiv b => b = -1 → a = imin w → builtin_width w = true
  | _ => True
  end.

Lemma mul_pos_guard a b over under :
  uint_size w → int_range w a → a ≠ 0 → 0 < b →
  ichk_mul a b over under = None ↔ int_range w (a * b).
Proof.
  intros Hw Ha Ha0 Hb. pose proof (imin_imax Hw). unfold ichk_mul, int_range in *.
  rewrite (proj2 (Z.eqb_neq a 0)), (proj2 (Z.eqb_neq b 0)), (proj2 (Z.eqb_neq b (-1))) by lia. cbn.
  rewrite Z.quot_div_nonneg by lia.
  assert (Hq : Z.quot (imin w) b = - (- imin w / b)).
  { rewrite <- (Z.opp_involutive (imin w)) at 1. rewrite Z.quot_opp_l, Z.quot_div_nonneg by lia. done. }
  rewrite Hq.
  assert (a ≤ imax w / b ↔ a * b ≤ imax w).
  { split; intros; [|apply Z.div_le_lower_bound; lia].
    pose proof (Z.mul_div_le (imax w) b). nia. }
  assert (- a ≤ - imin w / b ↔ imin w ≤ a * b).
  { split; intros; [|apply Z.div_le_lower_bound; lia].
    pose proof (Z.mul_div_le (- imin w) b). nia. }
  destruct (Z.gtb_spec a (imax w / b)); [split; [done|lia]|].
  destruct (Z.ltb_spec a (- (- imin w / b))); [split; [done|lia]|].
  split; [lia|done].
Qed.

Lemma int_arith op x : uint_size w → int_range w (value_ x) → int_range w (int_operand op) →
  int_scope op (value_ x) →
  (∃ z, int_result op (value_ x) = Some z ∧ int_range w z ∧
     int_run op x = (Ret (), mkScalar (markAsUsed (sc_base x)) z (copy_ x))) ∨
  ((∀ z, int_result op (value_ x) = Some z → ¬ int_range w z) ∧
     ∃ e, int_run op x = (Throw e, x)).
Proof.
  intros Hw Ha Hb Hm. pose proof (imin_imax Hw) as Hmm.
  destruct op as [b|b|b|b|b| |]; cbn [int_run int_result int_operand] in *;
    apply int_checked_exact.
  - unfold ichk_add, int_range in *. intros ex. repeat case_match; try done; intros _ z [= <-]; lia.
  - unfold ichk_add, int_range in *. repeat case_match; try done. intros _. eexists. split; [done|split; [lia|done]].
  - unfold ichk_sub, int_range in *. intros ex. repeat case_match; try done; intros _ z [= <-]; lia.
  - unfold ichk_sub, int_range in *. repeat case_match; try done. intros _. eexists. split; [done|split; [lia|done]].
  - intros ex Hc z. cbn in Hm. destruct (_ || _) eqn:C; [done|]. intros [= <-] Hr.
    apply (mul_pos_guard (value_ x) b "Overflow in multiplication assignment operation."
             "Underflow in multiplication assignment operation.") in Hr; [congruence|done|done|lia|lia].
  - intros Hc. cbn in Hm. destruct (_ || _) eqn:C; [unfold ichk_mul in Hc; by rewrite C in Hc|].
    eexists. split; [done|]. split; [|done]. eapply mul_pos_guard, Hc; [done|done|lia|lia].
  - unfold ichk_div. intros ex. destruct (Z.eqb_spec b 0); [done|].
    destruct (_ && _) eqn:C; [|done]. intros _ z [= <-].
    assert (value_ x = imin w ∧ b = - (1)) as [Ex ->] by lia.
    rewrite Ex, Z.quot_opp_r, Z.quot_1_r by lia. cbn in Hm. specialize (Hm eq_refl Ex).
    unfold int_range, imin, imax in *. rewrite Hm. lia.
  - unfold ichk_div. destruct (Z.eqb_spec b 0); [done|]. destruct (_ && _) eqn:C; [done|].
    intros _. eexists. split_and!; [done| |done]. apply quot_bounds; [done..|lia].
  - unfold ichk_mod. intros ex. by destruct (b =? 0).
  - unfold ichk_mod. destruct (Z.eqb_spec b 0); [done|]. intros _. eexists.
    split_and!; [done| by apply rem_bounds |done].
  - unfold ichk_max, int_range in *. intros ex. case_match; [|done]. intros _ z [= <-]. lia.
  - unfold ichk_max, int_range in *. case_match; [done|]. intros _. eexists. split; [done|split; [lia|done]].
  - unfold ichk_min, int_range in *. intros ex. case_match; [|done]. intros _ z [= <-]. lia.
  - unfold ichk_min, int_range in *. case_match; [done|]. intros _. eexists. split; [done|split; [lia|done]].
Qed.
End safeint.

(** ** The properties of [SafeInt_t] *)

Section properties.
Context {BI : BoostInt}.

(** An arithmetic assignment of [SafeInt_t] on in-range operands stores the
    exact result when it fits the type and otherwise throws leaving the
    variable untouched, for every operation except a multiplication by a
    negative factor. *)
Theorem int_arith_exact w op x :
  uint_size w → int_range w (value_ x) → int_range w (int_operand op) →
  int_scope w op (value_ x) →
  (∃ z, int_result op (value_ x) = Some z ∧ int_range w z ∧
     int_run w op x = (Ret (), mkScalar (markAsUsed (sc_base x)) z (copy_ x))) ∨
  ((∀ z, int_result op (value_ x) = Some z → ¬ int_range w z) ∧
     ∃ e, int_run w op x = (Throw e, x)).
Proof. apply int_arith. Qed.

(** [SafeInt_t] refuses every multiplication by a negative factor, also the
    ones whose product fits the type: the guards compare with [max() / other]
    and [min() / other], whose order a negative [other] exchanges. *)
Theorem int_mul_negative_throws w x b :
  uint_size w → int_range w (value_ x) → int_range w b → b < 0 →
  ∃ e, int_run w (IMul b) x = (Throw e, x).
Proof.
  intros Hw Ha Hb Hneg. pose proof (imin_imax w Hw). unfold int_run, int_mul_assign.
  rewrite checked_assign_run. unfold ichk_mul.
  destruct (_ || _) eqn:C; [eauto|].
  destruct (Z.gtb_spec (value_ x) (Z.quot (imax w) b)) as [Hg|Hg]; [eauto|].
  destruct (_ && _); [eauto|].
  assert (Z.quot (imax w) b ≤ 0) by (rewrite <- (Z.opp_involutive b), Z.quot_opp_r by lia;
    pose proof (Z.quot_pos (imax w) (- b)); lia).
  assert (0 ≤ Z.quot (imin w) b) by (rewrite <- Z.quot_opp_opp by lia; apply Z.quot_pos; lia).
  assert (value_ x < 0) by lia.
  rewrite (proj2 (Z.ltb_lt _ _)) by lia. eauto.
Qed.
End properties.

Lemma int_arith_exact_witness :
  int_run (BI := boost_ref) 8 (ISub 1) (scalar_owned (-128)) =
    (Throw (underflow_error "Underflow in subtraction assignment operation."), scalar_owned (-128)) ∧
  ((∃ z, int_result (IDiv (-3)) 100 = Some z ∧ int_range 256 z ∧
     int_run (BI := boost_ref) 256 (IDiv (-3)) (scalar_owned 100) = (Ret (), mkScalar (mkSafeBase true false false) z 100)) ∨
   ((∀ z, int_result (IDiv (-3)) 100 = Some z → ¬ int_range 256 z) ∧
     ∃ e, int_run (BI := boost_ref) 256 (IDiv (-3)) (scalar_owned 100) = (Throw e, scalar_owned 100))).
Proof.
  split; [vm_compute; reflexivity|].
  apply (int_arith_exact (BI := boost_ref) 256 (IDiv (-3)) (scalar_owned 100)).
  - split; [lia | reflexivity].
  - cbn. unfold int_range. vm_compute. split; discriminate.
  - cbn. unfold int_range. vm_compute. split; discriminate.
  - cbn. intros H. discriminate H.
Defined.

Lemma int_mul_negative_throws_witness :
  ∃ e, int_run (BI := boost_ref) 64 (IMul (-2)) (scalar_owned 5) = (Throw e, scalar_owned 5).
Proof.
  apply (int_mul_negative_throws (BI := boost_ref) 64 (scalar_owned 5) (-2)).
  - split; [lia | reflexivity].
  - cbn. unfold int_range. vm_compute. split; discriminate.
  - unfold int_range. vm_compute. split; discriminate.
  - lia.
Defined.
