(* ===== verification/SafeMap.v ===== *)
(** * [SafeUnorderedMap<Key, T>]

    Models src/contract/variables/safeunorderedmap.h.  [value_] is the current
    map; [copy_] maps every key touched since the last commit to its committed
    value, [None] standing for [std::nullopt] (the key did not exist).  Iterators
    are modelled by the key they point to; a hint does not change the result of
    an insertion and is dropped. *)

From S2P Require Import Prelude SafeBase.

Record SafeMap (K T : Type) `{Countable K} := mkSafeMap {
  sm_base : SafeBase;
  sm_value : gmap K T;
  sm_copy : gmap K (option T);
}.
Arguments mkSafeMap {K T _ _}.
Arguments sm_base {K T _ _}.
Arguments sm_value {K T _ _}.
Arguments sm_copy {K T _ _}.

Section safemap.
Context {K T : Type} `{Countable K}.
Implicit Types (x : SafeMap K T) (k : K) (v : T).

(** Constructors without and with an owner. *)
Definition map_local (m : gmap K T) : SafeMap K T := mkSafeMap (mkSafeBase false false false) m ∅.
Definition map_owned (m : gmap K T) : SafeMap K T := mkSafeMap (mkSafeBase true false false) m ∅.

Definition map_mark x : SafeMap K T := mkSafeMap (markAsUsed (sm_base x)) (sm_value x) (sm_copy x).
Definition set_map (m : gmap K T) x : SafeMap K T := mkSafeMap (sm_base x) m (sm_copy x).

(** [copy_.try_emplace(k, ov)] *)
Definition copy_emplace k (ov : option T) x : SafeMap K T :=
  mkSafeMap (sm_base x) (sm_value x)
    (match sm_copy x !! k with Some _ => sm_copy x | None => <[k := ov]> (sm_copy x) end).

(** The save the code makes before it hands out or overwrites key [k]:
    [if (found) copy_.try_emplace(k, in_place, v) else copy_.try_emplace(k, nullopt)] *)
Definition map_save k x : SafeMap K T :=
  match sm_value x !! k with
  | Some v => copy_emplace k (Some v) x
  | None => copy_emplace k None x
  end.

(** ** Read access *)
Definition map_count k x : nat := match sm_value x !! k with Some _ => 1%nat | None => 0%nat end.
Definition map_contains k x : bool := match sm_value x !! k with Some _ => true | None => false end.
Definition map_find_const k x : option T := sm_value x !! k.
Definition map_empty x : bool := bool_decide (sm_value x = ∅).
Definition map_size x : nat := size (sm_value x).
Definition map_at_const k x : outcome T :=
  match sm_value x !! k with Some v => Ret v | None => Throw out_of_range end.

(** ** Non-const access *)

(** [find(key)]: an iterator to write through, so the value is saved. *)
Definition map_find k : M (SafeMap K T) (option T) :=
  r ← gets (map_find_const k) ;
  match r with
  | Some v => modify (copy_emplace k (Some v)) ;; modify map_mark ;; mret (Some v)
  | None => mret None
  end.

(** [begin()]: [first] is the key of the first element in iteration order;
    the code dereferences it also when the map is empty. *)
Definition map_begin (first : option K) : M (SafeMap K T) unit :=
  match first with
  | None => throw undefined_behaviour
  | Some k =>
      r ← gets (map_find_const k) ;
      match r with Some v => modify (copy_emplace k (Some v)) | None => mret () end ;;
      modify map_mark
  end.
Definition map_end : M (SafeMap K T) unit := modify map_mark.

Definition map_at k : M (SafeMap K T) T :=
  modify (map_save k) ;; modify map_mark ;;
  x ← gets id ; lift (map_at_const k x).

(** [operator[]]: inserts [dflt], the value-initialised [T], when absent. *)
Definition map_index (dflt : T) k : M (SafeMap K T) T :=
  modify (map_save k) ;; modify map_mark ;;
  x ← gets id ;
  match sm_value x !! k with
  | Some v => mret v
  | None => modify (set_map (<[k := dflt]> (sm_value x))) ;; mret dflt
  end.

(** A write through the reference [at], [operator[]] or [find] returned. *)
Definition map_write k v : M (SafeMap K T) unit :=
  modify (λ x, set_map (<[k := v]> (sm_value x)) x).

(** ** Modifiers *)

Definition map_clear : M (SafeMap K T) unit :=
  modify (λ x, mkSafeMap (sm_base x) (sm_value x) (sm_copy x ∪ (Some <$> sm_value x))) ;;
  modify map_mark ;; modify (set_map ∅).

(** [insert(value)] and [try_emplace(key, ...)]: insert when absent, then
    record the insertion. *)
Definition map_insert k v : M (SafeMap K T) bool :=
  x ← gets id ;
  match sm_value x !! k with
  | Some _ => mret false
  | None =>
      modify (set_map (<[k := v]> (sm_value x))) ;; modify map_mark ;;
      modify (copy_emplace k None) ;; mret true
  end.
Definition map_try_emplace k v : M (SafeMap K T) bool := map_insert k v.

(** [insert(init_type&&)] and [try_emplace(hint, key, ...)] look first. *)
Definition map_insert_node k v : M (SafeMap K T) unit :=
  x ← gets id ;
  (if map_contains k x then mret () else modify map_mark ;; modify (copy_emplace k None)) ;;
  modify (λ x, if map_contains k x then x else set_map (<[k := v]> (sm_value x)) x).
Definition map_try_emplace_hint k v : M (SafeMap K T) unit := map_insert_node k v.

(** [emplace(args...)] *)
Definition map_emplace k v : M (SafeMap K T) bool :=
  b ← map_insert k v ; modify map_mark ;; mret b.

(** [insert(hint, value)] and [emplace_hint]: the returned iterator is never
    [cend()], so the insertion is recorded also when nothing was inserted. *)
Definition map_insert_hint k v : M (SafeMap K T) unit :=
  modify (λ x, match sm_value x !! k with
               | Some _ => x
               | None => set_map (<[k := v]> (sm_value x)) x
               end) ;;
  modify map_mark ;; modify (copy_emplace k None).
Definition map_emplace_hint k v : M (SafeMap K T) unit := map_insert_hint k v.

(** [insert(first, last)] and [insert(ilist)] *)
Definition insert_absent (m : gmap K T) (kv : K * T) : gmap K T :=
  match m !! kv.1 with Some _ => m | None => <[kv.1 := kv.2]> m end.
Definition map_insert_range (l : list (K * T)) : M (SafeMap K T) unit :=
  for_each (λ kv, modify (map_save kv.1)) l ;;
  modify map_mark ;;
  modify (λ x, set_map (fold_left insert_absent l (sm_value x)) x).

Definition map_insert_or_assign k v : M (SafeMap K T) unit :=
  modify (map_save k) ;; modify map_mark ;;
  modify (λ x, set_map (<[k := v]> (sm_value x)) x).

(** [erase(key)] *)
Definition map_erase k : M (SafeMap K T) nat :=
  x ← gets id ;
  match sm_value x !! k with Some v => modify (copy_emplace k (Some v)) | None => mret () end ;;
  modify map_mark ;;
  modify (λ x, set_map (delete k (sm_value x)) x) ;;
  mret (map_count k x).

(** [erase(pos)]: the iterator must point to an element. *)
Definition map_erase_pos k : M (SafeMap K T) unit :=
  x ← gets id ;
  match sm_value x !! k with
  | None => throw undefined_behaviour
  | Some v =>
      modify (copy_emplace k (Some v)) ;; modify map_mark ;;
      modify (λ x, set_map (delete k (sm_value x)) x)
  end.
(** [erase(first, last)] over the keys of the range. *)
Definition map_erase_range (l : list K) : M (SafeMap K T) unit :=
  for_each (λ k, x ← gets id ;
                 match sm_value x !! k with
                 | Some v => modify (copy_emplace k (Some v))
                 | None => throw undefined_behaviour
                 end) l ;;
  modify map_mark ;;
  modify (λ x, set_map (fold_left (λ m k, delete k m) l (sm_value x)) x).

(** ** [commit] and [revert] *)
Definition map_commit : M (SafeMap K T) unit :=
  modify (λ x, mkSafeMap (unregister (sm_base x)) (sm_value x) ∅).

(** The loop over [copy_] in [revert]. *)
Definition restore (m : gmap K T) (c : gmap K (option T)) : gmap K T :=
  map_fold (λ k ov m, match ov with None => delete k m | Some v => <[k := v]> m end) m c.
Definition map_revert : M (SafeMap K T) unit :=
  modify (λ x, mkSafeMap (unregister (sm_base x)) (restore (sm_value x) (sm_copy x)) ∅).

(** ** Lemmas *)

Lemma restore_lookup m c k :
  restore m c !! k = match c !! k with Some ov => ov | None => m !! k end.
Proof.
  unfold restore. revert k.
  apply (map_fold_weak_ind (λ r c, ∀ k, r !! k = match c !! k with Some ov => ov | None => m !! k end)).
  - done.
  - intros i ov c' r Hi IH k. destruct (decide (i = k)) as [->|Hne].
    + rewrite lookup_insert_eq. destruct ov; by simplify_map_eq.
    + rewrite lookup_insert_ne by done. rewrite <- IH. destruct ov; by simplify_map_eq.
Qed.

Lemma restore_empty m : restore m ∅ = m.
Proof. apply map_eq. intros k. rewrite restore_lookup. by rewrite lookup_empty. Qed.

(** [map_orig x]: the map [revert] would bring back. *)
Definition map_orig x : gmap K T := restore (sm_value x) (sm_copy x).

Definition map_rel (o : gmap K T) x : Prop :=
  map_orig x = o ∧
  (tracked (sm_base x) = true → registered_ (sm_base x) = false → sm_value x = o).

#[export] Program Instance map_var : SafeVar (SafeMap K T) (gmap K T) := {|
  sv_base := sm_base;
  sv_get := sm_value;
  sv_commit := map_commit;
  sv_revert := map_revert;
  sv_rel := map_rel;
|}.
Next Obligation.
  intros o x [<- Hx]. eexists. split_and!; [done|done| |done]. split; [apply restore_empty|auto].
Qed.
Next Obligation.
  intros o x [<- Hx]. eexists. split_and!; [done|done| |done]. split; [apply restore_empty|auto].
Qed.
Next Obligation.
  intros o x [<- Hx] Ht Hr. auto.
Qed.

(** Going from [x] to [x'] keeps the committed map, when the writes are on saved
    keys and the variable gets registered as soon as something is saved. *)
Lemma sv_le_intro x x' :
  base_le (sm_base x) (sm_base x') →
  (sm_base x' = markAsUsed (sm_base x) ∨ sm_value x' = sm_value x ∧ sm_base x' = sm_base x) →
  map_orig x' = map_orig x →
  sv_le x x'.
Proof.
  intros Hb Hm Ho. split; [|done].
  intros o [<- Hx]. split; [done|]. intros Ht Hr. rewrite (base_le_tracked _ _ Hb) in Ht.
  destruct Hm as [Hbx|[Hv Hbx]].
  - rewrite Hbx in Hr. by rewrite markAsUsed_tracked in Hr.
  - rewrite Hv. rewrite Hbx in Hr. auto.
Qed.

Lemma copy_emplace_lookup k ov x j :
  sm_copy (copy_emplace k ov x) !! j =
    match sm_copy x !! j with
    | Some o => Some o
    | None => if decide (k = j) then Some ov else None
    end.
Proof.
  cbn. destruct (sm_copy x !! k) eqn:Ek.
  - destruct (sm_copy x !! j) eqn:Ej; [done|]. case_decide; congruence.
  - destruct (decide (k = j)) as [->|]; simplify_map_eq; [done|]. by destruct (sm_copy x !! j).
Qed.

Lemma map_save_eq k x : map_save k x = copy_emplace k (sm_value x !! k) x.
Proof. unfold map_save. by destruct (sm_value x !! k). Qed.

Lemma orig_lookup x k :
  map_orig x !! k = match sm_copy x !! k with Some ov => ov | None => sm_value x !! k end.
Proof. apply restore_lookup. Qed.

(** Prove [sv_le] between two explicit states by looking up each key. *)
Ltac solve_map_le :=
  apply sv_le_intro;
  [ cbn; first [apply markAsUsed_le | reflexivity]
  | cbn; first [by left | by right]
  | apply map_eq; intros ?k; rewrite !orig_lookup; cbn ].

Lemma saved_write_le k v x x' :
  sm_base x' = markAsUsed (sm_base x) →
  sm_copy x' = sm_copy (map_save k x) →
  (∀ j, j ≠ k → sm_value x' !! j = sm_value x !! j) →
  sv_le x x'.
Proof.
  intros Hb Hc Hv. apply sv_le_intro.
  - rewrite Hb. apply markAsUsed_le.
  - by left.
  - apply map_eq. intros j. rewrite !orig_lookup, Hc, map_save_eq, copy_emplace_lookup.
    destruct (sm_copy x !! j); [done|]. case_decide as Hd; [by subst|]. by apply Hv.
Qed.

Lemma map_find_safe k : safe_op (map_find k).
Proof.
  intros x. unfold map_find, map_find_const. cbv [mbind M_bind gets modify mret M_ret].
  destruct (sm_value x !! k) as [v|] eqn:E; [|reflexivity].
  apply (saved_write_le k v); cbn; [done| |done]. unfold map_save. by rewrite E.
Qed.

Lemma map_begin_safe f : safe_op (map_begin f).
Proof.
  intros x. destruct f as [k|]; [|reflexivity].
  unfold map_begin, map_find_const. cbv [mbind M_bind gets modify mret M_ret].
  destruct (sm_value x !! k) as [v|] eqn:E.
  - apply (saved_write_le k v); cbn; [done| |done]. unfold map_save. by rewrite E.
  - cbn. apply sv_le_intro; [apply markAsUsed_le | by left | done].
Qed.

Lemma map_mark_safe : safe_op (modify map_mark : M (SafeMap K T) unit).
Proof. intros x. apply sv_le_intro; [apply markAsUsed_le | by left | done]. Qed.

Lemma map_at_safe k : safe_op (map_at k).
Proof.
  intros x. unfold map_at. cbv [mbind M_bind gets modify mret M_ret lift].
  rewrite map_save_eq. cbn.
  apply sv_le_intro; [apply markAsUsed_le | by left |].
  apply map_eq. intros j. rewrite !orig_lookup.
  change (sm_copy (map_mark ?y)) with (sm_copy y). change (sm_value (map_mark ?y)) with (sm_value y).
  rewrite copy_emplace_lookup. cbn. destruct (sm_copy x !! j); [done|]. by case_decide; subst.
Qed.

(** [operator[]] followed by a write through the reference. *)
Lemma map_index_write_safe d k (f : T → outcome T) :
  safe_op (v ← map_index d k ; v' ← lift (f v) ; map_write k v').
Proof.
  intros x. unfold map_index, map_write. cbv [mbind M_bind gets modify mret M_ret lift id].
  rewrite map_save_eq. cbn. destruct (sm_value x !! k) as [v|] eqn:E; cbn; destruct (f _); cbn;
    (apply (saved_write_le k d); cbn; [done| by rewrite map_save_eq, E |]);
    intros j Hj; by simplify_map_eq.
Qed.

Lemma map_index_safe d k : safe_op (map_index d k).
Proof.
  intros x. unfold map_index. cbv [mbind M_bind gets modify mret M_ret id].
  rewrite map_save_eq. cbn. destruct (sm_value x !! k) as [v|] eqn:E; cbn;
    (apply (saved_write_le k d); cbn; [done| by rewrite map_save_eq, E |]);
    intros j Hj; by simplify_map_eq.
Qed.

Lemma map_clear_safe : safe_op map_clear.
Proof.
  intros x. unfold map_clear. cbv [mbind M_bind modify]. cbn. solve_map_le.
  rewrite lookup_union, lookup_fmap, lookup_empty.
  destruct (sm_copy x !! k), (sm_value x !! k); done.
Qed.

Lemma map_insert_safe k v : safe_op (map_insert k v).
Proof.
  intros x. unfold map_insert. cbv [mbind M_bind gets modify mret M_ret id].
  destruct (sm_value x !! k) as [u|] eqn:E; [reflexivity|]. cbn.
  apply (saved_write_le k v); cbn; [done| by rewrite map_save_eq, E |].
  intros j Hj. by simplify_map_eq.
Qed.

Lemma map_insert_node_safe k v : safe_op (map_insert_node k v).
Proof.
  intros x. unfold map_insert_node, map_contains. cbv [mbind M_bind gets modify mret M_ret id].
  destruct (sm_value x !! k) as [u|] eqn:E; cbn; rewrite E; [reflexivity|].
  apply (saved_write_le k v); cbn; [done| by rewrite map_save_eq, E |].
  intros j Hj. by simplify_map_eq.
Qed.

Lemma map_emplace_safe k v : safe_op (map_emplace k v).
Proof.
  unfold map_emplace. apply preserves_bind; [apply _ | apply map_insert_safe | intros b].
  apply preserves_bind; [apply _ | apply map_mark_safe | intros _]. apply preserves_ret, _.
Qed.

Lemma map_insert_or_assign_safe k v : safe_op (map_insert_or_assign k v).
Proof.
  intros x. unfold map_insert_or_assign. cbv [mbind M_bind modify]. rewrite map_save_eq. cbn.
  apply (saved_write_le k v); cbn; [done| by rewrite map_save_eq |].
  intros j Hj. by simplify_map_eq.
Qed.

Lemma map_erase_safe k : safe_op (map_erase k).
Proof.
  intros x. unfold map_erase. cbv [mbind M_bind gets modify mret M_ret id].
  destruct (sm_value x !! k) as [v|] eqn:E; cbn.
  - apply (saved_write_le k v); cbn; [done| by rewrite map_save_eq, E |].
    intros j Hj. by simplify_map_eq.
  - solve_map_le. destruct (decide (k = k0)) as [->|]; simplify_map_eq; [|done].
    by destruct (sm_copy x !! k0).
Qed.

(** The state after saving the keys of [l]. *)
Lemma save_all_run (l : list K) x :
  ∃ x', for_each (λ k, modify (map_save k)) l x = (Ret (), x') ∧
    sm_base x' = sm_base x ∧ sm_value x' = sm_value x ∧
    ∀ j, sm_copy x' !! j = match sm_copy x !! j with
                           | Some o => Some o
                           | None => if decide (j ∈ l) then Some (sm_value x !! j) else None
                           end.
Proof.
  revert x. induction l as [|k l IH]; intros x.
  - exists x. split_and!; [done..|]. intros j. rewrite decide_False by set_solver.
    by destruct (sm_copy x !! j).
  - destruct (IH (map_save k x)) as (x' & Hrun & Hb & Hv & Hc). rewrite map_save_eq in *.
    exists x'. split_and!; [|done..|].
    + cbn [for_each]. cbv [mbind M_bind modify]. by rewrite map_save_eq.
    + intros j. rewrite Hc, copy_emplace_lookup. cbn. destruct (sm_copy x !! j) eqn:Ej; [done|].
      destruct (decide (k = j)) as [->|Hne].
      * by rewrite decide_True by set_solver.
      * destruct (decide (j ∈ l)); [by rewrite decide_True by set_solver|].
        by rewrite decide_False by set_solver.
Qed.

(** Saving keys, marking, then writing only the saved keys. *)
Lemma saved_keys_write_safe (l : list K) (f : gmap K T → gmap K T) :
  (∀ m j, j ∉ l → f m !! j = m !! j) →
  safe_op (for_each (λ k, modify (map_save k)) l ;; modify map_mark ;;
           modify (λ x, set_map (f (sm_value x)) x)).
Proof.
  intros Hf x. destruct (save_all_run l x) as (x' & Hrun & Hb & Hv & Hc).
  cbv [mbind M_bind]. rewrite Hrun. cbn. apply sv_le_intro.
  - cbn. rewrite Hb. apply markAsUsed_le.
  - left. cbn. by rewrite Hb.
  - apply map_eq. intros j. rewrite !orig_lookup. cbn. rewrite Hc.
    destruct (sm_copy x !! j); [done|]. case_decide; [done|]. by rewrite Hf, Hv.
Qed.

Lemma insert_absent_other (l : list (K * T)) m j :
  j ∉ l.*1 → fold_left insert_absent l m !! j = m !! j.
Proof.
  revert m. induction l as [|[k v] l IH]; intros m Hj; cbn in *; [done|].
  rewrite IH by set_solver. unfold insert_absent. cbn.
  destruct (m !! k); [done|]. by rewrite lookup_insert_ne by set_solver.
Qed.

Lemma for_each_fst (l : list (K * T)) x :
  for_each (λ kv : K * T, modify (map_save kv.1)) l x = for_each (λ k, modify (map_save k)) l.*1 x.
Proof.
  revert x. induction l as [|[k v] l IH]; intros x; [done|].
  cbn [for_each fmap list_fmap]. cbv [mbind M_bind modify]. apply IH.
Qed.

Lemma map_insert_range_safe l : safe_op (map_insert_range l).
Proof.
  intros x. pose proof (saved_keys_write_safe l.*1 (fold_left insert_absent l)
    (λ m j, insert_absent_other l m j) x) as Hs.
  unfold map_insert_range. cbv [mbind M_bind] in *. by rewrite for_each_fst.
Qed.

Lemma delete_all_other (l : list K) (m : gmap K T) j :
  j ∉ l → fold_left (λ m k, delete k m) l m !! j = m !! j.
Proof.
  revert m. induction l as [|k l IH]; intros m Hj; cbn; [done|].
  rewrite IH by set_solver. by rewrite lookup_delete_ne by set_solver.
Qed.

Lemma map_save_safe k : safe_op (modify (map_save k) : M (SafeMap K T) unit).
Proof.
  intros x. cbn. rewrite map_save_eq. apply sv_le_intro; [reflexivity | by right |].
  apply map_eq. intros j. rewrite !orig_lookup, copy_emplace_lookup. cbn.
  destruct (sm_copy x !! j); [done|]. by case_decide; subst.
Qed.

Lemma map_erase_pos_safe k : safe_op (map_erase_pos k).
Proof.
  intros x. unfold map_erase_pos. cbv [mbind M_bind gets modify mret M_ret id throw].
  destruct (sm_value x !! k) as [v|] eqn:E; cbn; [|reflexivity].
  apply (saved_write_le k v); cbn; [done| by rewrite map_save_eq, E |].
  intros j Hj. by simplify_map_eq.
Qed.

Lemma map_at_write_safe k v : safe_op (map_at k ;; map_write k v).
Proof.
  intros x. unfold map_at, map_write. cbv [mbind M_bind gets modify mret M_ret lift id].
  rewrite map_save_eq. cbn. unfold map_at_const. cbn.
  destruct (sm_value x !! k) as [u|] eqn:E; cbn;
    (apply (saved_write_le k v); cbn; [done| by rewrite map_save_eq, E |]);
    intros j Hj; by simplify_map_eq.
Qed.

Definition erase_save k : M (SafeMap K T) unit :=
  x ← gets id ;
  match sm_value x !! k with
  | Some v => modify (copy_emplace k (Some v))
  | None => throw undefined_behaviour
  end.

Lemma erase_loop_run l x :
  (∃ x', for_each erase_save l x = (Ret (), x') ∧ for_each (λ k, modify (map_save k)) l x = (Ret (), x')) ∨
  (∃ e x', for_each erase_save l x = (Throw e, x') ∧ sv_le x x').
Proof.
  revert x. induction l as [|k l IH]; intros x; [left; by exists x|].
  cbn [for_each]. cbv [mbind M_bind erase_save gets modify id throw].
  destruct (sm_value x !! k) as [v|] eqn:E.
  - assert (Hs : map_save k x = copy_emplace k (Some v) x) by (rewrite map_save_eq; by rewrite E).
    rewrite Hs. destruct (IH (copy_emplace k (Some v) x)) as [Hl|(e & x' & Hr & Hle)]; [by left|].
    right. exists e, x'. split; [done|]. etrans; [|exact Hle]. rewrite <- Hs. apply (map_save_safe k x).
  - right. eexists _, x. split; [done|reflexivity].
Qed.

Lemma map_erase_range_safe l : safe_op (map_erase_range l).
Proof.
  intros x. pose proof (saved_keys_write_safe l (fold_left (λ m k, delete k m) l)
    (λ m j, delete_all_other l m j) x) as Hs.
  change (map_erase_range l) with (for_each erase_save l ;; modify map_mark ;;
    modify (λ x : SafeMap K T, set_map (fold_left (λ m k, delete k m) l (sm_value x)) x)).
  cbv [mbind M_bind] in *. destruct (erase_loop_run l x) as [(x' & Hr & Hs')|(e & x' & Hr & Hle)].
  - rewrite Hs' in Hs. by rewrite Hr.
  - by rewrite Hr.
Qed.

(** ** Sequences of operations *)

Inductive MapOp :=
| OFind k | OBegin (first : option K) | OEnd | OAt k | OAtWrite k v
| OIndex (dflt : T) k | OIndexWrite (dflt : T) k v | OClear | OInsert k v | OInsertNode k v
| OEmplace k v | OInsertRange (l : list (K * T)) | OInsertOrAssign k v
| OErase k | OErasePos k | OEraseRange (l : list K).

Definition map_run (op : MapOp) : M (SafeMap K T) unit :=
  match op with
  | OFind k => map_find k ;; mret ()
  | OBegin f => map_begin f
  | OEnd => map_end
  | OAt k => map_at k ;; mret ()
  | OAtWrite k v => map_at k ;; map_write k v
  | OIndex d k => map_index d k ;; mret ()
  | OIndexWrite d k v => map_index d k ;; map_write k v
  | OClear => map_clear
  | OInsert k v => map_insert k v ;; mret ()
  | OInsertNode k v => map_insert_node k v
  | OEmplace k v => map_emplace k v ;; mret ()
  | OInsertRange l => map_insert_range l
  | OInsertOrAssign k v => map_insert_or_assign k v
  | OErase k => map_erase k ;; mret ()
  | OErasePos k => map_erase_pos k
  | OEraseRange l => map_erase_range l
  end.

Definition map_run_all (ops : list MapOp) x : SafeMap K T :=
  fold_left (λ x op, (map_run op x).2) ops x.

(** What each operation does to the contents, as an operation on finite maps. *)
Definition map_spec (op : MapOp) (m : gmap K T) : gmap K T :=
  match op with
  | OFind _ | OBegin _ | OEnd | OAt _ => m
  | OAtWrite k v => match m !! k with Some _ => <[k := v]> m | None => m end
  | OIndex d k => <[k := default d (m !! k)]> m
  | OIndexWrite _ k v => <[k := v]> m
  | OClear => ∅
  | OInsert k v | OInsertNode k v | OEmplace k v => <[k := default v (m !! k)]> m
  | OInsertRange l => m ∪ list_to_map l
  | OInsertOrAssign k v => <[k := v]> m
  | OErase k | OErasePos k => delete k m
  | OEraseRange l => fold_left (λ m k, delete k m) l m
  end.

Lemma safe_drop {A} (m : M (SafeMap K T) A) : safe_op m → safe_op (m ;; mret ()).
Proof.
  intros Hm. apply preserves_bind; [apply _ | done | intros a; apply preserves_ret, _].
Qed.

Lemma map_run_safe op : safe_op (map_run op).
Proof.
  destruct op; cbn [map_run]; try apply safe_drop.
  - apply map_find_safe.
  - apply map_begin_safe.
  - apply map_mark_safe.
  - apply map_at_safe.
  - apply map_at_write_safe.
  - apply map_index_safe.
  - exact (map_index_write_safe dflt k (λ _, Ret v)).
  - apply map_clear_safe.
  - apply map_insert_safe.
  - apply map_insert_node_safe.
  - apply map_emplace_safe.
  - apply map_insert_range_safe.
  - apply map_insert_or_assign_safe.
  - apply map_erase_safe.
  - apply map_erase_pos_safe.
  - apply map_erase_range_safe.
Qed.

Lemma insert_absent_union (l : list (K * T)) m :
  fold_left insert_absent l m = m ∪ list_to_map l.
Proof.
  revert m. induction l as [|[k v] l IH]; intros m; cbn; [by rewrite (right_id_L ∅ _)|].
  rewrite IH. apply map_eq. intros j. rewrite !lookup_union. unfold insert_absent. cbn.
  destruct (decide (k = j)) as [->|Hne].
  - rewrite lookup_insert_eq. destruct (m !! j) eqn:E; rewrite ?E, ?lookup_insert_eq;
      by destruct ((list_to_map l : gmap K T) !! j).
  - rewrite (lookup_insert_ne (list_to_map l)) by done.
    destruct (m !! k); by rewrite ?lookup_insert_ne by done.
Qed.

Lemma map_run_spec op x :
  match map_run op x with
  | (Ret _, x') => sm_value x' = map_spec op (sm_value x)
  | (Throw _, x') => sm_value x' = sm_value x
  end.
Proof.
  destruct op; cbn [map_run map_spec];
    unfold map_find, map_begin, map_end, map_at, map_index, map_write, map_clear, map_insert,
      map_insert_node, map_emplace, map_insert, map_insert_or_assign, map_erase, map_erase_pos,
      map_at_const, map_contains, map_find_const;
    cbv [mbind M_bind gets modify mret M_ret lift id throw]; rewrite ?map_save_eq; cbn.
  - by destruct (sm_value x !! k).
  - destruct first; [|done]. by destruct (sm_value x !! k).
  - done.
  - by destruct (sm_value x !! k).
  - by destruct (sm_value x !! k).
  - destruct (sm_value x !! k) eqn:E; cbn; [by rewrite insert_id|done].
  - destruct (sm_value x !! k) eqn:E; cbn; [done|]. by rewrite insert_insert_eq.
  - done.
  - destruct (sm_value x !! k) eqn:E; cbn; [by rewrite insert_id|done].
  - destruct (sm_value x !! k) eqn:E; cbn; rewrite E; [by rewrite insert_id|done].
  - destruct (sm_value x !! k) eqn:E; cbn; [by rewrite insert_id|done].
  - unfold map_insert_range. cbv [mbind M_bind]. rewrite for_each_fst.
    destruct (save_all_run l.*1 x) as (x' & -> & _ & Hv & _). cbn. by rewrite Hv, insert_absent_union.
  - done.
  - destruct (sm_value x !! k); done.
  - destruct (sm_value x !! k); done.
  - change (map_erase_range l) with (for_each erase_save l ;; modify map_mark ;;
      modify (λ x : SafeMap K T, set_map (fold_left (λ m k, delete k m) l (sm_value x)) x)).
    assert (Hv : ∀ l x, sm_value (for_each erase_save l x).2 = sm_value x).
    { clear. intros l. induction l as [|k l IH]; intros x; [done|]. cbn [for_each].
      cbv [mbind M_bind erase_save gets modify throw id]. destruct (sm_value x !! k); [|done]. by rewrite IH. }
    specialize (Hv l x). cbv [mbind M_bind].
    destruct (for_each erase_save l x) as [[[]|e] x']; cbn in *; [by rewrite Hv|done].
Qed.
(** ** Writes through references *)

(** The map after a write through the reference of key [k]. *)
Definition touch (k : K) (v : T) x : SafeMap K T :=
  set_map (<[k := v]> (sm_value x)) (map_mark (map_save k x)).

Lemma map_save_value k x : sm_value (map_save k x) = sm_value x.
Proof. unfold map_save. by destruct (sm_value x !! k). Qed.

Lemma map_index_touch (d : T) k x :
  map_index d k x = (Ret (default d (sm_value x !! k)), touch k (default d (sm_value x !! k)) x).
Proof.
  unfold map_index, touch, set_map, map_mark. cbv [mbind M_bind gets modify mret M_ret id]. cbn.
  rewrite map_save_value. destruct (sm_value x !! k) as [v|] eqn:E; cbn; [|done].
  by rewrite (insert_id (sm_value x) k v E).
Qed.

Lemma map_write_touch k (v v' : T) x :
  map_write k v (touch k v' x) = (Ret (), touch k v x).
Proof.
  unfold map_write, touch, set_map, modify. cbn. by rewrite insert_insert_eq.
Qed.

Lemma touch_le k (v : T) x : sv_le x (touch k v x).
Proof.
  pose proof (map_index_write_safe v k (λ _, Ret v) x) as Hs.
  unfold mbind, M_bind in Hs. rewrite map_index_touch in Hs. unfold lift in Hs.
  by rewrite map_write_touch in Hs.
Qed.
End safemap.
Arguments MapOp : clear implicits.

(** ** The properties of [SafeUnorderedMap] *)

Section properties.
Context {K T : Type} `{Countable K}.

(** Every operation of [SafeUnorderedMap] acts on the current contents as
    the corresponding finite-map operation (insertions never overwrite, ranges
    insert the first binding of each new key, [operator[]] default-inserts),
    and an operation that throws leaves the contents as they were. *)
Theorem map_refines_spec (op : MapOp K T) (x : SafeMap K T) :
  match map_run op x with
  | (Ret _, x') => sm_value x' = map_spec op (sm_value x)
  | (Throw _, x') => sm_value x' = sm_value x
  end.
Proof. apply map_run_spec. Qed.

(** After any sequence of operations on a [SafeUnorderedMap], throwing or
    not, including writes through the references [at] and [operator[]] hand
    out, [revert] restores exactly the committed map: same keys, same values. *)
Theorem map_ops_revert (ops : list (MapOp K T)) (x : SafeMap K T) o :
  map_rel o x →
  ∃ x', map_revert (map_run_all ops x) = (Ret (), x') ∧ sm_value x' = o ∧ sm_copy x' = ∅.
Proof.
  intros Hr. cut (map_rel o (map_run_all ops x)).
  { intros [Ho _]. eexists. split_and!; [done|exact Ho|done]. }
  revert x Hr. induction ops as [|op ops IH]; intros x Hr; [done|].
  unfold map_run_all in *. cbn [fold_left]. apply IH. by apply (map_run_safe op x).
Qed.

(** The hinted insertions ([insert(hint, value)], [emplace_hint]) record the
    key as new even when it already existed, so that on a clean map a hinted
    insertion of an existing key followed by [revert] deletes the key's
    committed value. *)
Theorem map_insert_hint_revert_deletes (m : gmap K T) b k v u :
  m !! k = Some u →
  ∃ x', (map_insert_hint k v ;; map_revert) (mkSafeMap b m ∅) = (Ret (), x') ∧
    sm_value x' = delete k m.
Proof.
  intros Hk. eexists. split.
  { unfold map_insert_hint. cbv [mbind M_bind modify map_revert]. cbn. rewrite Hk. done. }
  cbn. rewrite lookup_empty. apply map_eq. intros j. rewrite restore_lookup.
  destruct (decide (k = j)) as [->|Hne]; by simplify_map_eq.
Qed.
End properties.

Lemma map_ops_revert_witness :
  ∃ x', map_revert (map_run_all [OIndexWrite 0 7 5; OErase 1; OInsert 2 9; OClear; OAt 3]
          (map_owned (<[1 := 10]> (∅ : gmap Z Z)))) = (Ret (), x') ∧
    sm_value x' = <[1 := 10]> ∅ ∧ sm_copy x' = ∅.
Proof.
  apply map_ops_revert. split; [reflexivity | intros; reflexivity].
Defined.

Lemma map_insert_hint_revert_deletes_witness :
  ∃ x', (map_insert_hint 1 99 ;; map_revert) (mkSafeMap (mkSafeBase true false true) (<[1 := 10]> (∅ : gmap Z Z)) ∅)
          = (Ret (), x') ∧ sm_value x' = delete 1 (<[1 := 10]> ∅).
Proof. apply (map_insert_hint_revert_deletes _ _ 1 99 10). reflexivity. Defined.
