(* ===== verification/SafeVector.v ===== *)
(** * [SafeVector<T>]

    Models src/contract/variables/safevector.h: [value_] is the current vector,
    [copy_] a full copy made before an operation that replaces everything, and
    [undo_] a stack of undo records for the operations made while there is no
    full copy.  [revert] starts from the full copy, if any, and unwinds the
    stack.  Iterators are modelled by their offset. *)

From S2P Require Import Prelude SafeBase.

#[local] Open Scope nat_scope.

Inductive VectorOp :=
| AT | OPERATOR_BRACKETS | FRONT | BACK | INSERT | EMPLACE | ERASE | INSERT_BULK | ERASE_BULK
| PUSH_BACK | EMPLACE_BACK | POP_BACK | RESIZE_MORE | RESIZE_LESS.

(** [UndoOp]: operation, index, quantity and old values. *)
Record UndoOp (T : Type) := mkUndo {
  u_op : VectorOp;
  u_index : nat;
  u_quantity : nat;
  u_old : list T;
}.
Arguments mkUndo {T}.
Arguments u_op {T}.
Arguments u_index {T}.
Arguments u_quantity {T}.
Arguments u_old {T}.

Record SafeVector (T : Type) := mkSafeVector {
  vec_base : SafeBase;
  vec_value : list T;
  vec_copy : option (list T);
  vec_undo : option (list (UndoOp T));
}.
Arguments mkSafeVector {T}.
Arguments vec_base {T}.
Arguments vec_value {T}.
Arguments vec_copy {T}.
Arguments vec_undo {T}.

Section std_vector.
Context {T : Type}.
Implicit Types (l : list T) (i n : nat) (v : T).

(** ** [std::vector] *)

(** [l.at(i)] and [l[i]] *)
Definition std_at l i : outcome T :=
  match l !! i with Some v => Ret v | None => Throw out_of_range end.
Definition std_index l i : outcome T :=
  match l !! i with Some v => Ret v | None => Throw undefined_behaviour end.
(** [l.at(i) = v] and [l[i] = v] *)
Definition std_set_at l i v : outcome (list T) :=
  if decide (i < length l) then Ret (<[i := v]> l) else Throw out_of_range.
Definition std_set l i v : outcome (list T) :=
  if decide (i < length l) then Ret (<[i := v]> l) else Throw undefined_behaviour.
(** [l.insert(l.begin() + i, vs...)], [l.erase(l.begin() + i)], [l.pop_back()] *)
Definition std_insert l i (vs : list T) : outcome (list T) :=
  if decide (i <= length l) then Ret (take i l ++ vs ++ drop i l) else Throw undefined_behaviour.
Definition std_erase l i n : outcome (list T) :=
  if decide (i + n <= length l) then Ret (take i l ++ drop (i + n) l) else Throw undefined_behaviour.
Definition std_pop_back l : outcome (list T) :=
  match l with [] => Throw undefined_behaviour | _ => Ret (take (length l - 1) l) end.
Definition std_resize l n (d : T) : list T := take n l ++ replicate (n - length l) d.

Fixpoint iterate (n : nat) (f : list T → outcome (list T)) l : outcome (list T) :=
  match n with O => Ret l | S n => l' ← f l ; iterate n f l' end.

(** ** The undo stack *)

(** One iteration of [processUndoStack]. *)
Definition undo_one (op : UndoOp T) l : outcome (list T) :=
  let index := u_index op in
  match u_op op with
  | AT => v ← std_index (u_old op) 0 ; std_set_at l index v
  | OPERATOR_BRACKETS => v ← std_index (u_old op) 0 ; std_set l index v
  | FRONT => v ← std_index (u_old op) 0 ; std_set_at l 0 v
  | BACK => v ← std_index (u_old op) 0 ; std_set_at l (length l - 1) v
  | INSERT | EMPLACE => if decide (index < length l) then std_erase l index 1 else Throw undefined_behaviour
  | ERASE => v ← std_index (u_old op) 0 ; std_insert l index [v]
  | INSERT_BULK =>
      iterate (u_quantity op)
        (λ l, if decide (index < length l) then std_erase l index 1 else Throw undefined_behaviour) l
  | ERASE_BULK =>
      foldl (λ acc i, l ← acc ; v ← std_index (u_old op) i ; std_insert l (index + i) [v])
        (Ret l) (seq 0 (u_quantity op))
  | PUSH_BACK | EMPLACE_BACK => std_pop_back l
  | POP_BACK => v ← std_index (u_old op) 0 ; Ret (l ++ [v])
  | RESIZE_MORE => iterate index std_pop_back l
  | RESIZE_LESS =>
      foldl (λ acc i, l ← acc ; v ← std_index (u_old op) i ; Ret (l ++ [v])) (Ret l) (seq 0 index)
  end.

(** [processUndoStack]: unwind the stack, most recent operation first. *)
Fixpoint processUndoStack (stk : list (UndoOp T)) l : outcome (list T) :=
  match stk with
  | [] => Ret l
  | op :: stk => l' ← undo_one op l ; processUndoStack stk l'
  end.
End std_vector.

Section safevector.
Context {T : Type}.
Implicit Types (x : SafeVector T) (l : list T) (i n : nat) (v : T).

Definition vec_local l : SafeVector T := mkSafeVector (mkSafeBase false false false) l None None.
Definition vec_owned l : SafeVector T := mkSafeVector (mkSafeBase true false false) l None None.

Definition vec_mark x : SafeVector T :=
  mkSafeVector (markAsUsed (vec_base x)) (vec_value x) (vec_copy x) (vec_undo x).
Definition vec_set l x : SafeVector T := mkSafeVector (vec_base x) l (vec_copy x) (vec_undo x).

(** [if (copy_ == nullptr) copy_ = make_unique(value_)] *)
Definition vec_save x : SafeVector T :=
  mkSafeVector (vec_base x) (vec_value x)
    (Some (match vec_copy x with Some c => c | None => vec_value x end)) (vec_undo x).

(** [if (undo_ == nullptr) undo_ = make_unique(stack)] *)
Definition vec_alloc x : SafeVector T :=
  mkSafeVector (vec_base x) (vec_value x) (vec_copy x)
    (Some (match vec_undo x with Some s => s | None => [] end)).
Definition vec_push (op : UndoOp T) x : SafeVector T :=
  mkSafeVector (vec_base x) (vec_value x) (vec_copy x)
    (Some (op :: match vec_undo x with Some s => s | None => [] end)).

(** [if (copy_ == nullptr) { allocate the stack; undo_->emplace(op) }] where
    computing the record reads the vector and may throw. *)
Definition vec_record (mk : list T → outcome (UndoOp T)) : M (SafeVector T) unit :=
  x ← gets id ;
  match vec_copy x with
  | Some _ => mret ()
  | None => modify vec_alloc ;; op ← lift (mk (vec_value x)) ; modify (vec_push op)
  end.

(** [markAsUsed(); value_ = f(value_)] *)
Definition vec_update (f : list T → outcome (list T)) : M (SafeVector T) unit :=
  modify vec_mark ;; x ← gets id ; l ← lift (f (vec_value x)) ; modify (vec_set l).

(** ** Operations that replace everything *)
Definition vec_assign_all (l : list T) : M (SafeVector T) unit :=
  modify vec_save ;; vec_update (λ _, Ret l).
Definition vec_assign_count n v : M (SafeVector T) unit := vec_assign_all (replicate n v).
Definition vec_assign_range l : M (SafeVector T) unit := vec_assign_all l.
Definition vec_clear : M (SafeVector T) unit := vec_assign_all [].
Definition vec_operator_assign l : M (SafeVector T) unit := vec_assign_all l.

(** ** Access that hands out a reference, followed by a write of [v] through it *)

Definition vec_at i : M (SafeVector T) T :=
  x ← gets id ;
  r ← lift (std_at (vec_value x) i) ;
  vec_record (λ l, o ← std_at l i ; Ret (mkUndo AT i 1 [o])) ;;
  modify vec_mark ;; mret r.
Definition vec_at_write i v : M (SafeVector T) unit :=
  vec_at i ;; modify (λ x, vec_set (<[i := v]> (vec_value x)) x).

Definition vec_index i : M (SafeVector T) T :=
  vec_record (λ l, o ← std_index l i ; Ret (mkUndo OPERATOR_BRACKETS i 1 [o])) ;;
  modify vec_mark ;; x ← gets id ; lift (std_index (vec_value x) i).
Definition vec_index_write i v : M (SafeVector T) unit :=
  vec_index i ;; modify (λ x, vec_set (<[i := v]> (vec_value x)) x).

Definition vec_front : M (SafeVector T) T :=
  vec_record (λ l, o ← std_at l 0 ; Ret (mkUndo FRONT 0 1 [o])) ;;
  modify vec_mark ;; x ← gets id ; lift (std_index (vec_value x) 0).
Definition vec_front_write v : M (SafeVector T) unit :=
  vec_front ;; modify (λ x, vec_set (<[0 := v]> (vec_value x)) x).

(** [value_.size() - 1] wraps on an empty vector and [at] then throws. *)
Definition vec_back : M (SafeVector T) T :=
  vec_record (λ l, match l with
                   | [] => Throw out_of_range
                   | _ => o ← std_at l (length l - 1) ; Ret (mkUndo BACK (length l - 1) 1 [o])
                   end) ;;
  modify vec_mark ;; x ← gets id ;
  lift (std_index (vec_value x) (length (vec_value x) - 1)).
Definition vec_back_write v : M (SafeVector T) unit :=
  vec_back ;; modify (λ x, vec_set (<[length (vec_value x) - 1 := v]> (vec_value x)) x).

(** ** Capacity *)
Definition vec_reserve : M (SafeVector T) unit := modify vec_mark.
Definition vec_shrink_to_fit : M (SafeVector T) unit := modify vec_mark.

(** ** Insertions and erasures *)

(** [std::distance(value_.cbegin(), pos)]: [pos] must be an iterator of the vector. *)
Definition std_distance l i : outcome nat :=
  if decide (i <= length l) then Ret i else Throw undefined_behaviour.

Definition vec_insert i v : M (SafeVector T) unit :=
  vec_record (λ l, index ← std_distance l i ; Ret (mkUndo INSERT index 1 [])) ;;
  vec_update (λ l, std_insert l i [v]).
Definition vec_insert_count i n v : M (SafeVector T) unit :=
  vec_record (λ l, index ← std_distance l i ; Ret (mkUndo INSERT_BULK index n [])) ;;
  vec_update (λ l, std_insert l i (replicate n v)).
Definition vec_insert_range i (vs : list T) : M (SafeVector T) unit :=
  vec_record (λ l, index ← std_distance l i ; Ret (mkUndo INSERT_BULK index (length vs) [])) ;;
  vec_update (λ l, std_insert l i vs).
Definition vec_emplace i v : M (SafeVector T) unit :=
  vec_record (λ l, index ← std_distance l i ; Ret (mkUndo EMPLACE index 1 [])) ;;
  vec_update (λ l, std_insert l i [v]).

Definition vec_erase i : M (SafeVector T) unit :=
  vec_record (λ l, index ← std_distance l i ; o ← std_at l index ; Ret (mkUndo ERASE index 1 [o])) ;;
  vec_update (λ l, std_erase l i 1).
(** [erase(first, last)]: the range [i, i + n). *)
Definition vec_erase_range i n : M (SafeVector T) unit :=
  vec_record (λ l, if decide (i + n <= length l) then Ret (mkUndo ERASE_BULK i n (take n (drop i l)))
                   else Throw undefined_behaviour) ;;
  vec_update (λ l, std_erase l i n).

Definition vec_push_back v : M (SafeVector T) unit :=
  vec_record (λ _, Ret (mkUndo PUSH_BACK 0 0 [])) ;; vec_update (λ l, Ret (l ++ [v])).
Definition vec_emplace_back v : M (SafeVector T) unit :=
  vec_record (λ _, Ret (mkUndo EMPLACE_BACK 0 0 [])) ;; vec_update (λ l, Ret (l ++ [v])).
Definition vec_pop_back : M (SafeVector T) unit :=
  vec_record (λ l, match l with
                   | [] => Throw undefined_behaviour
                   | _ => o ← std_index l (length l - 1) ; Ret (mkUndo POP_BACK 0 0 [o])
                   end) ;;
  vec_update std_pop_back.

(** [resize(count)] and [resize(count, value)]; [d] fills the new elements. *)
Definition vec_resize n (d : T) : M (SafeVector T) unit :=
  x ← gets id ;
  match vec_copy x with
  | Some _ => mret ()
  | None =>
      if decide (n = 0) then modify vec_save
      else if decide (n = length (vec_value x)) then mret ()
      else if decide (length (vec_value x) < n)
      then modify (vec_push (mkUndo RESIZE_MORE (n - length (vec_value x)) 0 []))
      else modify (vec_push (mkUndo RESIZE_LESS (length (vec_value x) - n) 0 (drop n (vec_value x))))
  end ;;
  vec_update (λ l, Ret (std_resize l n d)).

(** ** [commit] and [revert] *)
Definition vec_commit : M (SafeVector T) unit :=
  modify (λ x, mkSafeVector (unregister (vec_base x)) (vec_value x) None None).
Definition vec_revert : M (SafeVector T) unit :=
  modify (λ x, vec_set (match vec_copy x with Some c => c | None => vec_value x end) x) ;;
  x ← gets id ;
  match vec_undo x with
  | None | Some [] => mret ()
  | Some stk => l ← lift (processUndoStack stk (vec_value x)) ; modify (vec_set l)
  end ;;
  modify (λ x, mkSafeVector (unregister (vec_base x)) (vec_value x) None None).

(** ** The committed value *)

Definition vec_start x : list T := match vec_copy x with Some c => c | None => vec_value x end.
Definition vec_stack x : list (UndoOp T) := match vec_undo x with Some s => s | None => [] end.

Definition vec_rel (o : list T) x : Prop :=
  processUndoStack (vec_stack x) (vec_start x) = Ret o ∧
  (tracked (vec_base x) = true → registered_ (vec_base x) = false → vec_value x = o).

Lemma vec_revert_run o x :
  processUndoStack (vec_stack x) (vec_start x) = Ret o →
  vec_revert x = (Ret (), mkSafeVector (unregister (vec_base x)) o None None).
Proof.
  unfold vec_revert, vec_stack, vec_start. cbv [mbind M_bind modify gets id lift mret M_ret].
  destruct (vec_undo x) as [[|op stk]|] eqn:E; cbn [vec_undo vec_set vec_value vec_base]; rewrite E.
  - intros [= <-]. done.
  - intros ->. done.
  - intros [= <-]. done.
Qed.

#[export] Program Instance vec_var : SafeVar (SafeVector T) (list T) := {|
  sv_base := vec_base;
  sv_get := vec_value;
  sv_commit := vec_commit;
  sv_revert := vec_revert;
  sv_rel := vec_rel;
|}.
Next Obligation.
  intros o x [Ho Hx]. eexists. split_and!; [by apply vec_revert_run|done| |done]. by split.
Qed.
Next Obligation. intros o x [Ho Hx]. eexists. split_and!; [done|done| |done]. by split. Qed.
Next Obligation. intros o x [Ho Hx] Ht Hr. auto. Qed.

(** The two ways an operation keeps the committed value: it does not touch the
    contents nor the undo data, or it marks the variable and leaves undo data
    that lead back to the previous contents. *)
Lemma vec_le_same x x' :
  vec_base x' = vec_base x ∨ vec_base x' = markAsUsed (vec_base x) →
  vec_value x' = vec_value x → vec_copy x' = vec_copy x → vec_stack x' = vec_stack x →
  sv_le x x'.
Proof.
  intros Hb Hv Hc Hs. assert (Hle : base_le (vec_base x) (vec_base x')).
  { destruct Hb as [->| ->]; [reflexivity | apply markAsUsed_le]. }
  split; [|done]. intros o [Ho Hx]. split.
  - unfold vec_start in *. by rewrite Hs, Hc, Hv.
  - intros Ht Hr. rewrite (base_le_tracked _ _ Hle) in Ht. rewrite Hv. apply Hx; [done|].
    destruct Hle as (_ & _ & H). destruct (registered_ (vec_base x)); [|done]. rewrite H in Hr; done.
Qed.

Lemma vec_le_marked x x' :
  vec_base x' = markAsUsed (vec_base x) →
  (∀ o, processUndoStack (vec_stack x) (vec_start x) = Ret o →
        processUndoStack (vec_stack x') (vec_start x') = Ret o) →
  sv_le x x'.
Proof.
  intros Hb Hs. split; [|cbn; rewrite Hb; apply markAsUsed_le].
  intros o [Ho Hx]. split; [auto|]. intros Ht Hr. rewrite Hb in *.
  rewrite (base_le_tracked _ _ (markAsUsed_le _)) in Ht. by rewrite markAsUsed_tracked in Hr.
Qed.

(** Replacing everything after a full copy. *)
Lemma vec_assign_all_safe l : safe_op (vec_assign_all l).
Proof.
  intros x. unfold vec_assign_all, vec_update. cbv [mbind M_bind modify gets id lift].
  apply vec_le_marked; [done|]. unfold vec_start, vec_stack. cbn. by destruct (vec_copy x).
Qed.

(** Recording an undo record for an update it inverts. *)
Lemma record_update_safe mk f :
  (∀ l op, mk l = Ret op → ∃ l', f l = Ret l' ∧ undo_one op l' = Ret l) →
  safe_op (vec_record mk ;; vec_update f).
Proof.
  intros Hmk x. unfold vec_record, vec_update. cbv [mbind M_bind modify gets id lift mret M_ret].
  destruct (vec_copy x) as [c|] eqn:Ec.
  - destruct (f _) eqn:Ef; cbn.
    + apply vec_le_marked; [done|]. unfold vec_start, vec_stack. cbn. by rewrite Ec.
    + apply vec_le_same; auto.
  - destruct (mk (vec_value x)) as [op|e] eqn:Em; cbn.
    + destruct (Hmk _ _ Em) as (l' & Hf & Hu). rewrite Hf. cbn.
      apply vec_le_marked; [done|]. unfold vec_start, vec_stack. cbn. rewrite Ec.
      by rewrite Hu.
    + apply vec_le_same; auto.
Qed.

(** Recording the old element for a reference through which [v] is written. *)
Lemma record_write_safe mk (rd : list T → outcome T) (pos : list T → nat) v :
  (∀ l op, mk l = Ret op → (∃ r, rd l = Ret r) ∧ undo_one op (<[pos l := v]> l) = Ret l) →
  safe_op (vec_record mk ;; modify vec_mark ;; x ← gets id ; lift (rd (vec_value x)) ;;
           modify (λ x, vec_set (<[pos (vec_value x) := v]> (vec_value x)) x)).
Proof.
  intros Hmk x. unfold vec_record. cbv [mbind M_bind modify gets id lift mret M_ret].
  destruct (vec_copy x) as [c|] eqn:Ec.
  - destruct (rd _); cbn.
    + apply vec_le_marked; [done|]. unfold vec_start, vec_stack. cbn. by rewrite Ec.
    + apply vec_le_same; auto.
  - destruct (mk (vec_value x)) as [op|e] eqn:Em; cbn.
    + destruct (Hmk _ _ Em) as [[r Hr] Hu]. rewrite Hr. cbn.
      apply vec_le_marked; [done|]. unfold vec_start, vec_stack. cbn. rewrite Ec. by rewrite Hu.
    + apply vec_le_same; auto.
Qed.

(** ** Each undo record inverts its operation *)

Lemma write_undo l i o v : l !! i = Some o → <[i := o]> (<[i := v]> l) = l.
Proof. intros Hi. rewrite list_insert_insert_eq. by apply list_insert_id. Qed.

Lemma insert_erase i l (vs : list T) n : i <= length l → length vs = n →
  std_erase (take i l ++ vs ++ drop i l) i n = Ret l.
Proof.
  intros Hi Hn. unfold std_erase. rewrite decide_True.
  - f_equal. rewrite take_app_length', drop_app_ge by (rewrite length_take; lia).
    rewrite length_take, drop_app_length' by lia. apply take_drop.
  - rewrite !length_app, length_take, length_drop. lia.
Qed.

Lemma insert_bulk_undo i l (vs : list T) : i <= length l →
  iterate (length vs)
    (λ l, if decide (i < length l) then std_erase l i 1 else Throw undefined_behaviour)
    (take i l ++ vs ++ drop i l) = Ret l.
Proof.
  intros Hi. induction vs as [|v vs IH]; cbn [iterate length].
  - cbn. by rewrite take_drop.
  - rewrite decide_True by (rewrite !length_app, length_take; cbn; lia).
    unfold std_erase. rewrite decide_True by (rewrite !length_app, length_take; cbn; lia).
    cbn [mbind outcome_bind].
    rewrite take_app_length', drop_app_ge by (rewrite length_take; lia).
    rewrite length_take. replace (i + 1 - i `min` length l) with 1 by lia. exact IH.
Qed.

Lemma erase_insert l i o : l !! i = Some o →
  std_insert (take i l ++ drop (i + 1) l) i [o] = Ret l.
Proof.
  intros Ho. pose proof (lookup_lt_Some _ _ _ Ho) as Hi. unfold std_insert.
  rewrite decide_True by (rewrite length_app, length_take, length_drop; lia). f_equal.
  rewrite take_app_length', drop_app_length' by (rewrite length_take; lia).
  rewrite Nat.add_1_r. cbn. by apply take_drop_middle.
Qed.

Lemma erase_bulk_undo l i n : i + n <= length l →
  foldl (λ acc j, l' ← acc ; v ← std_index (take n (drop i l)) j ; std_insert l' (i + j) [v])
    (Ret (take i l ++ drop (i + n) l)) (seq 0 n) = Ret l.
Proof.
  intros Hn.
  assert (Hk : ∀ k, k <= n →
    foldl (λ acc j, l' ← acc ; v ← std_index (take n (drop i l)) j ; std_insert l' (i + j) [v])
      (Ret (take i l ++ drop (i + n) l)) (seq 0 k) = Ret (take (i + k) l ++ drop (i + n) l)).
  { induction k as [|k IH]; intros Hk; [by rewrite Nat.add_0_r|].
    rewrite seq_S, foldl_app, IH by lia. cbn.
    destruct (lookup_lt_is_Some_2 l (i + k)) as [v Hv]; [lia|].
    unfold std_index. rewrite lookup_take_lt, lookup_drop, Hv by lia. cbn.
    unfold std_insert. rewrite decide_True by (rewrite length_app, length_take, length_drop; lia).
    f_equal. rewrite take_app_length', drop_app_length' by (rewrite length_take; lia).
    rewrite Nat.add_succ_r, (take_S_r _ _ _ Hv), <- (assoc_L (++)). done. }
  rewrite Hk by lia. by rewrite take_drop.
Qed.

Lemma push_pop l v : std_pop_back (l ++ [v]) = Ret l.
Proof.
  unfold std_pop_back. destruct (l ++ [v]) eqn:E; [by destruct l|]. rewrite <- E.
  rewrite length_app. cbn. by rewrite Nat.add_sub, take_app_length.
Qed.

Lemma resize_more_undo l n (d : T) : iterate n std_pop_back (l ++ replicate n d) = Ret l.
Proof.
  induction n as [|n IH]; cbn [iterate]; [cbn; by rewrite app_nil_r|].
  rewrite replicate_S_end, (assoc_L (++)), push_pop. exact IH.
Qed.

Lemma resize_less_undo l n : n <= length l →
  foldl (λ acc j, l' ← acc ; v ← std_index (drop n l) j ; Ret (l' ++ [v]))
    (Ret (take n l)) (seq 0 (length l - n)) = Ret l.
Proof.
  intros Hn.
  assert (Hk : ∀ k, n + k <= length l →
    foldl (λ acc j, l' ← acc ; v ← std_index (drop n l) j ; Ret (l' ++ [v]))
      (Ret (take n l)) (seq 0 k) = Ret (take (n + k) l)).
  { induction k as [|k IH]; intros Hk; [by rewrite Nat.add_0_r|].
    rewrite seq_S, foldl_app, IH by lia. cbn.
    destruct (lookup_lt_is_Some_2 l (n + k)) as [v Hv]; [lia|].
    unfold std_index. rewrite lookup_drop, Hv. cbn.
    by rewrite Nat.add_succ_r, (take_S_r _ _ _ Hv). }
  rewrite Hk by lia. by rewrite take_ge by lia.
Qed.

Lemma pop_undo l : l ≠ [] → ∃ o l', std_index l (length l - 1) = Ret o ∧ std_pop_back l = Ret l' ∧ l' ++ [o] = l.
Proof.
  intros Hl. destruct l as [|o l' _] using rev_ind; [done|].
  exists o, l'. rewrite push_pop. split_and!; [|done..].
  unfold std_index. rewrite length_app. cbn. rewrite Nat.add_sub.
  by rewrite (list_lookup_middle l' [] o) by done.
Qed.

(** ** Every operation keeps the committed value *)

Inductive VecOp :=
| VAssign l | VAt i | VAtWrite i v | VIndexWrite i v | VFrontWrite v | VBackWrite v
| VReserve | VShrink | VInsert i v | VInsertCount i n v | VInsertRange i (vs : list T)
| VEmplace i v | VErase i | VEraseRange i n | VPushBack v | VEmplaceBack v | VPopBack
| VResize n v.

Definition vec_run (op : VecOp) : M (SafeVector T) unit :=
  match op with
  | VAssign l => vec_assign_all l
  | VAt i => vec_at i ;; mret ()
  | VAtWrite i v => vec_at_write i v
  | VIndexWrite i v => vec_index_write i v
  | VFrontWrite v => vec_front_write v
  | VBackWrite v => vec_back_write v
  | VReserve => vec_reserve
  | VShrink => vec_shrink_to_fit
  | VInsert i v => vec_insert i v
  | VInsertCount i n v => vec_insert_count i n v
  | VInsertRange i vs => vec_insert_range i vs
  | VEmplace i v => vec_emplace i v
  | VErase i => vec_erase i
  | VEraseRange i n => vec_erase_range i n
  | VPushBack v => vec_push_back v
  | VEmplaceBack v => vec_emplace_back v
  | VPopBack => vec_pop_back
  | VResize n v => vec_resize n v
  end.

Definition vec_run_all (ops : list VecOp) x : SafeVector T :=
  fold_left (λ x op, (vec_run op x).2) ops x.

Lemma vec_mark_safe : safe_op (modify vec_mark : M (SafeVector T) unit).
Proof. intros x. apply vec_le_same; auto. Qed.

Lemma vec_insert_safe op i (vs : list T) :
  op = mkUndo INSERT i 1 [] ∧ length vs = 1 ∨ op = mkUndo EMPLACE i 1 [] ∧ length vs = 1 ∨
    op = mkUndo INSERT_BULK i (length vs) [] →
  safe_op (vec_record (λ l, index ← std_distance l i ;
             Ret (mkUndo (u_op op) index (u_quantity op) (u_old op))) ;;
           vec_update (λ l, std_insert l i vs)).
Proof.
  intros Hop. apply record_update_safe. intros l op'. unfold std_distance, std_insert.
  case_decide as Hi; [|done]. cbn. intros [= <-]. eexists. split; [done|].
  assert (Hlt : length vs = 1 → i < length (take i l ++ vs ++ drop i l)).
  { intros Hv. rewrite !length_app, length_take, length_drop. lia. }
  destruct Hop as [[-> Hv]|[[-> Hv]| ->]]; cbn; try rewrite decide_True by auto.
  - by apply insert_erase.
  - by apply insert_erase.
  - by apply insert_bulk_undo.
Qed.

Lemma vec_at_write_safe i v : safe_op (vec_at_write i v).
Proof.
  intros x. unfold vec_at_write, vec_at, vec_record, std_at.
  cbv [mbind M_bind modify gets id lift mret M_ret].
  destruct (vec_value x !! i) as [o|] eqn:Ei; [|reflexivity].
  destruct (vec_copy x) as [c|] eqn:Ec.
  - apply vec_le_marked; [done|]. unfold vec_start, vec_stack. cbn. by rewrite Ec.
  - cbn. apply vec_le_marked; [done|]. unfold vec_start, vec_stack. cbn. rewrite Ec. cbn.
    unfold std_set_at. rewrite length_insert, decide_True by (by eapply lookup_lt_Some).
    cbn. by rewrite write_undo.
Qed.

Lemma vec_at_safe i : safe_op (vec_at i ;; mret ()).
Proof.
  intros x. unfold vec_at, vec_record, std_at. cbv [mbind M_bind modify gets id lift mret M_ret].
  destruct (vec_value x !! i) as [o|] eqn:Ei; [|reflexivity].
  destruct (vec_copy x) as [c|] eqn:Ec; [by apply vec_le_same; auto|].
  cbn. apply vec_le_marked; [done|]. unfold vec_start, vec_stack. cbn. rewrite Ec. cbn.
  unfold std_set_at. rewrite decide_True by (by eapply lookup_lt_Some).
  cbn. by rewrite list_insert_id.
Qed.

Lemma vec_resize_safe n d : safe_op (vec_resize n d).
Proof.
  intros x. unfold vec_resize, vec_update. cbv [mbind M_bind modify gets id lift mret M_ret].
  destruct (vec_copy x) as [c|] eqn:Ec.
  { apply vec_le_marked; [done|]. unfold vec_start, vec_stack. cbn. by rewrite Ec. }
  destruct (decide (n = 0)) as [->|H0].
  { apply vec_le_marked; [done|]. unfold vec_start, vec_stack. cbn. by rewrite Ec. }
  destruct (decide (n = length (vec_value x))) as [Hn|Hn].
  { apply vec_le_marked; [done|]. unfold vec_start, vec_stack. cbn. rewrite Ec.
    unfold std_resize. rewrite take_ge, Hn, Nat.sub_diag by lia. cbn. by rewrite app_nil_r. }
  destruct (decide (length (vec_value x) < n)) as [Hl|Hl];
    (apply vec_le_marked; [done|]); unfold vec_start, vec_stack, std_resize; cbn; rewrite Ec; cbn.
  - rewrite take_ge by lia. by rewrite resize_more_undo.
  - replace (n - length (vec_value x)) with 0 by lia. cbn. rewrite app_nil_r.
    by rewrite resize_less_undo by lia.
Qed.

Lemma bind_assoc_safe {A B C} (m : M (SafeVector T) A) (f : A → M (SafeVector T) B) (g : B → M (SafeVector T) C) :
  safe_op (a ← m ; f a ≫= g) → safe_op ((m ≫= f) ≫= g).
Proof. intros Hm x. specialize (Hm x). cbv [mbind M_bind] in *. by destruct (m x) as [[a|e] x']. Qed.

Lemma vec_write_safe mk (rd : list T → outcome T) (pos : list T → nat) v :
  (∀ l op, mk l = Ret op → (∃ r, rd l = Ret r) ∧ undo_one op (<[pos l := v]> l) = Ret l) →
  safe_op ((vec_record mk ;; modify vec_mark ;; x ← gets id ; lift (rd (vec_value x))) ;;
           modify (λ x, vec_set (<[pos (vec_value x) := v]> (vec_value x)) x)).
Proof.
  intros Hmk. apply bind_assoc_safe. intros x.
  pose proof (record_write_safe mk rd pos v Hmk x) as Hs. cbv [mbind M_bind] in *.
  destruct (vec_record mk x) as [[[]|e] x']; [|done]. cbn in *. by destruct (rd (vec_value x')).
Qed.

Lemma vec_index_write_safe i v : safe_op (vec_index_write i v).
Proof.
  apply (vec_write_safe _ (λ l, std_index l i) (λ _, i)). intros l op. unfold std_index.
  destruct (l !! i) as [o|] eqn:E; [|done]. cbn. intros [= <-]. split; [eauto|]. cbn.
  unfold std_set. rewrite length_insert, decide_True by (by eapply lookup_lt_Some). cbn. by rewrite write_undo.
Qed.

Lemma vec_front_write_safe v : safe_op (vec_front_write v).
Proof.
  apply (vec_write_safe _ (λ l, std_index l 0) (λ _, 0)). intros l op. unfold std_index, std_at.
  destruct (l !! 0) as [o|] eqn:E; [|done]. cbn. intros [= <-]. split; [eauto|]. cbn.
  unfold std_set_at. rewrite length_insert, decide_True by (by eapply lookup_lt_Some). cbn. by rewrite write_undo.
Qed.

Lemma vec_back_write_safe v : safe_op (vec_back_write v).
Proof.
  apply (vec_write_safe _ (λ l, std_index l (length l - 1)) (λ l, length l - 1)).
  intros l op. unfold std_index, std_at. destruct l as [|u l]; [done|].
  destruct ((u :: l) !! (length (u :: l) - 1)) as [o|] eqn:E; [|done]. cbn [mbind outcome_bind].
  intros [= <-]. split; [eauto|]. cbn [undo_one u_op u_old]. cbn [std_index lookup list_lookup mbind outcome_bind].
  unfold std_set_at. rewrite length_insert, decide_True by (by eapply lookup_lt_Some).
  by rewrite write_undo.
Qed.

Lemma vec_run_safe op : safe_op (vec_run op).
Proof.
  destruct op; cbn [vec_run].
  - apply vec_assign_all_safe.
  - apply vec_at_safe.
  - apply vec_at_write_safe.
  - apply vec_index_write_safe.
  - apply vec_front_write_safe.
  - apply vec_back_write_safe.
  - apply vec_mark_safe.
  - apply vec_mark_safe.
  - apply (vec_insert_safe (mkUndo INSERT i 1 []) i [v]). auto.
  - pose proof (vec_insert_safe (mkUndo INSERT_BULK i n []) i (replicate n v)) as Hs.
    apply Hs. rewrite length_replicate. auto.
  - apply (vec_insert_safe (mkUndo INSERT_BULK i (length vs) []) i vs). auto.
  - apply (vec_insert_safe (mkUndo EMPLACE i 1 []) i [v]). auto.
  - apply record_update_safe. intros l op'. unfold std_distance, std_at. case_decide; [|done]. cbn.
    destruct (l !! i) as [o|] eqn:E; [|done]. cbn. intros [= <-].
    pose proof (lookup_lt_Some _ _ _ E). unfold std_erase. rewrite decide_True by lia.
    eexists. split; [done|]. cbn. by apply erase_insert.
  - apply record_update_safe. intros l op'. case_decide; [|done]. intros [= <-].
    unfold std_erase. rewrite decide_True by lia. eexists. split; [done|]. by apply erase_bulk_undo.
  - apply record_update_safe. intros l op' [= <-]. eexists. split; [done|]. apply push_pop.
  - apply record_update_safe. intros l op' [= <-]. eexists. split; [done|]. apply push_pop.
  - apply record_update_safe. intros l op' Hop.
    destruct (decide (l = [])) as [->|Hl]; [done|].
    destruct (pop_undo l Hl) as (o & l' & Ho & Hp & He). exists l'. split; [done|].
    destruct l; [done|]. rewrite Ho in Hop. injection Hop as <-. cbn. by rewrite He.
  - apply vec_resize_safe.
Qed.
End safevector.
Arguments VecOp : clear implicits.

(** ** The properties of [SafeVector] *)

(** Each kind of undo record inverts the operation it is pushed for, and
    after any sequence of operations on a [SafeVector] (assignments, writes
    through references, insertions, erasures, pushes, pops and resizes, mixed
    freely, throwing or not) [revert] returns without error and restores the
    committed vector, dropping the full copy and the undo stack. *)
Theorem vec_ops_revert {T} (ops : list (VecOp T)) (x : SafeVector T) o :
  vec_rel o x →
  vec_revert (vec_run_all ops x) =
    (Ret (), mkSafeVector (unregister (vec_base (vec_run_all ops x))) o None None).
Proof.
  intros Hr. apply vec_revert_run. cut (vec_rel o (vec_run_all ops x)); [by intros [? _]|].
  revert x Hr. induction ops as [|op ops IH]; intros x Hr; [done|].
  unfold vec_run_all in *. cbn [fold_left]. apply IH. by apply (vec_run_safe op x).
Qed.

Lemma vec_ops_revert_witness :
  let x := vec_run_all [VPushBack 4; VErase 0; VResize 1 7; VIndexWrite 0 9; VInsertCount 1 2 5;
                        VEraseRange 0 2; VAssign [8]; VPopBack] (vec_owned [1; 2; 3]) in
  vec_value x = [] ∧
  vec_revert x = (Ret (), mkSafeVector (unregister (vec_base x)) [1; 2; 3] None None).
Proof.
  intros x. split; [vm_compute; reflexivity|].
  apply (vec_ops_revert _ (vec_owned [1; 2; 3]) [1; 2; 3]).
  split; [reflexivity | intros; reflexivity].
Defined.
