(* ===== verification/SafeString.v ===== *)
(** * [SafeString]

    Models src/contract/variables/safestring.h: [value_] is the current string
    and [copy_] a copy of the committed one, made by the first operation that
    may change the string.  The operations forward to [std::string], which is
    modelled first: a string is a list of characters, positions and counts are
    [size_t] values ([npos] is the largest), a position past the end throws
    [out_of_range], a result longer than [max_size()] throws [length_error],
    and iterators are offsets.  The capacity of a string is not modelled: the
    three branches of [revert] on it all end by assigning the copy. *)

From S2P Require Import Prelude SafeBase.

(** ** [std::string] *)

(** [max_size()] is chosen by the library. *)
Class StringLimits := {
  max_size : Z;
  max_size_range : 0 <= max_size < 2 ^ 64 - 1;
}.

Section std_string.
Context {SL : StringLimits}.
Implicit Types (s t : list Ascii.ascii) (pos count : Z) (ch : Ascii.ascii).

Definition npos : Z := 2 ^ 64 - 1.
Definition size s : Z := Z.of_nat (length s).
Definition NUL : Ascii.ascii := Ascii.zero.

(** [std::string] bounds: a position must not be past the end, a count is cut
    at the end, and [n1] characters are replaced by [n2] only if the result is
    not too long. *)
Definition check_pos s pos : outcome unit := if size s <? pos then Throw out_of_range else Ret ().
Definition limit s pos count : Z := Z.min count (size s - pos).
Definition check_length s (n1 n2 : Z) : outcome unit :=
  if max_size - (size s - n1) <? n2 then Throw (length_error "basic_string") else Ret ().

Definition str_first (n : Z) s : list Ascii.ascii := take (Z.to_nat n) s.
Definition str_after (n : Z) s : list Ascii.ascii := drop (Z.to_nat n) s.

(** [substr(pos, count)] *)
Definition std_substr s pos count : outcome (list Ascii.ascii) :=
  check_pos s pos ;; Ret (str_first (limit s pos count) (str_after pos s)).

(** [replace(pos, count, t)] and [replace(pos, count, count2, ch)] *)
Definition std_replace s pos count t : outcome (list Ascii.ascii) :=
  check_pos s pos ;;
  check_length s (limit s pos count) (size t) ;;
  Ret (str_first pos s ++ t ++ str_after (pos + limit s pos count) s).
Definition std_replace_fill s pos count (count2 : Z) ch : outcome (list Ascii.ascii) :=
  check_pos s pos ;;
  check_length s (limit s pos count) count2 ;;
  Ret (str_first pos s ++ replicate (Z.to_nat count2) ch ++ str_after (pos + limit s pos count) s).

(** [erase(pos, count)], [pop_back()], [resize(count, ch)] *)
Definition std_erase_str s pos count : outcome (list Ascii.ascii) :=
  check_pos s pos ;; Ret (str_first pos s ++ str_after (pos + limit s pos count) s).
Definition std_pop s : outcome (list Ascii.ascii) :=
  match s with [] => Throw undefined_behaviour | _ => Ret (take (length s - 1) s) end.
Definition std_resize_str s count ch : outcome (list Ascii.ascii) :=
  if count <=? size s then Ret (str_first count s)
  else std_replace_fill s (size s) 0 (count - size s) ch.

(** A [const char*] argument points to a buffer: with a count, that many
    characters are read; without, the characters up to the terminating zero. *)
Definition read_buf (buf : list Ascii.ascii) count : outcome (list Ascii.ascii) :=
  if Z.of_nat (length buf) <? count then Throw undefined_behaviour else Ret (str_first count buf).
Fixpoint read_cstr (buf : list Ascii.ascii) : outcome (list Ascii.ascii) :=
  match buf with
  | [] => Throw undefined_behaviour
  | c :: buf => if decide (c = NUL) then Ret [] else t ← read_cstr buf ; Ret (c :: t)
  end.

(** An iterator range [first, last) of the string. *)
Definition check_range s (i j : Z) : outcome unit :=
  if (0 <=? i) && (i <=? j) && (j <=? size s) then Ret () else Throw undefined_behaviour.

(** Characters compare as unsigned bytes; [compare] gives the sign of the
    result of [std::string::compare]. *)
Fixpoint std_compare s t : comparison :=
  match s, t with
  | [], [] => Eq
  | [], _ => Lt
  | _, [] => Gt
  | a :: s, b :: t =>
      match N.compare (Ascii.N_of_ascii a) (Ascii.N_of_ascii b) with Eq => std_compare s t | c => c end
  end.

(** ** Searching *)

(** The first candidate position that satisfies [p], or [npos]. *)
Definition search (p : nat → bool) (cands : list nat) : Z :=
  match list_find (λ i, p i = true) cands with Some (_, i) => Z.of_nat i | None => npos end.
(** [t] occurs in [s] at [i]; the character at [i] is one of [t]. *)
Definition occurs s t (i : nat) : bool := bool_decide (take (length t) (drop i s) = t).
Definition one_of s t (i : nat) : bool :=
  match s !! i with Some c => bool_decide (c ∈ t) | None => false end.
Definition none_of s t (i : nat) : bool :=
  match s !! i with Some c => bool_decide (c ∉ t) | None => false end.
(** Positions from [pos] upwards, and from [pos] downwards. *)
Definition upwards pos (n : nat) : list nat := filter (λ i : nat, pos <= Z.of_nat i) (seq 0 n).
Definition downwards pos (n : nat) : list nat := reverse (filter (λ i : nat, Z.of_nat i <= pos) (seq 0 n)).

Definition std_find s t pos : Z := search (occurs s t) (upwards pos (S (length s))).
Definition std_rfind s t pos : Z := search (occurs s t) (downwards pos (S (length s))).
Definition std_find_first_of s t pos : Z := search (one_of s t) (upwards pos (length s)).
Definition std_find_first_not_of s t pos : Z := search (none_of s t) (upwards pos (length s)).
Definition std_find_last_of s t pos : Z := search (one_of s t) (downwards pos (length s)).
Definition std_find_last_not_of s t pos : Z := search (none_of s t) (downwards pos (length s)).

Definition std_starts_with s t : bool := bool_decide (take (length t) s = t).
Definition std_ends_with s t : bool :=
  bool_decide (length t ≤ length s)%nat && bool_decide (drop (length s - length t) s = t).
Definition std_contains s t : bool := negb (std_find s t 0 =? npos).
End std_string.

(** ** The class *)

Record SafeString := mkSafeString {
  ss_base : SafeBase;
  ss_value : list Ascii.ascii;
  ss_copy : option (list Ascii.ascii);
}.

Section safestring.
Context {SL : StringLimits}.
Implicit Types (x y : SafeString) (t buf : list Ascii.ascii) (pos count i j : Z) (ch : Ascii.ascii).

(** The constructors; a copy has no owner and no saved value. *)
Definition str_owned t : SafeString := mkSafeString (mkSafeBase true false false) t None.
Definition str_local t : SafeString := mkSafeString (mkSafeBase false false false) t None.
Definition str_copy x : SafeString := str_local (ss_value x).

Definition str_save x : SafeString :=
  mkSafeString (ss_base x) (ss_value x)
    (Some (match ss_copy x with Some c => c | None => ss_value x end)).
Definition str_mark x : SafeString :=
  mkSafeString (markAsUsed (ss_base x)) (ss_value x) (ss_copy x).
Definition str_set t x : SafeString := mkSafeString (ss_base x) t (ss_copy x).

(** [if (copy_ == nullptr) copy_ = make_unique(value_); markAsUsed();] *)
Definition str_touch : M SafeString unit := modify str_save ;; modify str_mark.
(** ... followed by an operation of [std::string] on [value_]. *)
Definition str_update (f : list Ascii.ascii → outcome (list Ascii.ascii)) : M SafeString unit :=
  str_touch ;; s ← gets ss_value ; r ← lift (f s) ; modify (str_set r).

(** *** [assign] and [operator=] *)
Definition str_assign t : M SafeString unit :=
  str_update (λ s, check_length s (size s) (size t) ;; Ret t).
Definition str_assign_sub t pos count : M SafeString unit := str_update (λ _, std_substr t pos count).
Definition str_assign_fill count ch : M SafeString unit :=
  str_update (λ s, std_replace_fill s 0 (size s) count ch).
Definition str_assign_buf buf count : M SafeString unit :=
  str_update (λ s, t ← read_buf buf count ; std_replace s 0 (size s) t).
Definition str_assign_cstr buf : M SafeString unit :=
  str_update (λ s, t ← read_cstr buf ; std_replace s 0 (size s) t).
Definition str_assign_range t : M SafeString unit := str_update (λ s, std_replace s 0 (size s) t).
Definition str_assign_char ch : M SafeString unit := str_update (λ s, std_replace s 0 (size s) [ch]).

(** *** References: access, and access followed by a write of [ch] *)
Definition char_at t pos : option Ascii.ascii := if pos <? 0 then None else t !! Z.to_nat pos.
Definition put_char pos ch t : list Ascii.ascii := <[Z.to_nat pos := ch]> t.

Definition str_at pos : M SafeString Ascii.ascii :=
  s ← gets ss_value ;
  r ← lift (match char_at s pos with Some c => Ret c | None => Throw out_of_range end) ;
  str_touch ;; mret r.
Definition str_at_write pos ch : M SafeString unit :=
  str_at pos ;; modify (λ x, str_set (put_char pos ch (ss_value x)) x).
(** [s[s.size()]] is the terminating zero, and only a zero may be written there. *)
Definition str_index pos : M SafeString Ascii.ascii :=
  str_touch ;; s ← gets ss_value ;
  if pos =? size s then mret NUL
  else match char_at s pos with Some c => mret c | None => throw undefined_behaviour end.
Definition str_index_write pos ch : M SafeString unit :=
  str_index pos ;; s ← gets ss_value ;
  if pos =? size s then (if decide (ch = NUL) then mret () else throw undefined_behaviour)
  else modify (str_set (put_char pos ch s)).
Definition str_front : M SafeString Ascii.ascii :=
  str_touch ;; s ← gets ss_value ;
  match head s with Some c => mret c | None => throw undefined_behaviour end.
Definition str_front_write ch : M SafeString unit :=
  str_front ;; modify (λ x, str_set (put_char 0 ch (ss_value x)) x).
Definition str_back : M SafeString Ascii.ascii :=
  str_touch ;; s ← gets ss_value ;
  match last s with Some c => mret c | None => throw undefined_behaviour end.
Definition str_back_write ch : M SafeString unit :=
  str_back ;; modify (λ x, str_set (put_char (size (ss_value x) - 1) ch (ss_value x)) x).

(** [begin] and [end] give the offsets of iterators, [rbegin] and [rend] the
    offsets their base iterators have. *)
Definition str_begin : M SafeString Z := str_touch ;; mret 0.
Definition str_end : M SafeString Z := str_touch ;; s ← gets ss_value ; mret (size s).
Definition str_rbegin : M SafeString Z := str_touch ;; s ← gets ss_value ; mret (size s).
Definition str_rend : M SafeString Z := str_touch ;; mret 0.
(** A write of [ch] through an iterator at offset [i], obtained from [begin]. *)
Definition str_iter_write i ch : M SafeString unit :=
  str_begin ;; s ← gets ss_value ;
  lift (check_range s i (i + 1)) ;; modify (str_set (put_char i ch s)).

(** *** Capacity *)
Definition str_reserve (newcap : Z) : M SafeString unit :=
  str_update (λ s, if max_size <? newcap then Throw (length_error "basic_string") else Ret s).
Definition str_shrink_to_fit : M SafeString unit := str_update Ret.
Definition str_clear : M SafeString unit := str_update (λ _, Ret []).

(** *** Insertion *)
Definition str_insert_fill index count ch : M SafeString unit :=
  str_update (λ s, std_replace_fill s index 0 count ch).
Definition str_insert_cstr index buf : M SafeString unit :=
  str_update (λ s, t ← read_cstr buf ; std_replace s index 0 t).
Definition str_insert_buf index buf count : M SafeString unit :=
  str_update (λ s, t ← read_buf buf count ; std_replace s index 0 t).
Definition str_insert index t : M SafeString unit := str_update (λ s, std_replace s index 0 t).
Definition str_insert_sub index t index_str count : M SafeString unit :=
  str_update (λ s, check_pos s index ;; r ← std_substr t index_str count ; std_replace s index 0 r).
(** Insertions at an iterator return one to the first new character. *)
Definition str_insert_it i t : M SafeString Z :=
  str_update (λ s, check_range s i i ;; std_replace s i 0 t) ;; mret i.
Definition str_insert_it_fill i count ch : M SafeString Z :=
  str_update (λ s, check_range s i i ;; std_replace_fill s i 0 count ch) ;; mret i.

(** *** Erasure, [push_back], [pop_back] *)
Definition str_erase index count : M SafeString unit := str_update (λ s, std_erase_str s index count).
Definition str_erase_it i : M SafeString Z :=
  str_update (λ s, check_range s i (i + 1) ;; std_erase_str s i 1) ;; mret i.
Definition str_erase_range i j : M SafeString Z :=
  str_update (λ s, check_range s i j ;; std_erase_str s i (j - i)) ;; mret i.
Definition str_push_back ch : M SafeString unit := str_update (λ s, std_replace s (size s) 0 [ch]).
Definition str_pop_back : M SafeString unit := str_update std_pop.

(** *** [append] and [operator+=] *)
Definition str_append_fill count ch : M SafeString unit :=
  str_update (λ s, std_replace_fill s (size s) 0 count ch).
Definition str_append t : M SafeString unit := str_update (λ s, std_replace s (size s) 0 t).
Definition str_append_sub t pos count : M SafeString unit :=
  str_update (λ s, r ← std_substr t pos count ; std_replace s (size s) 0 r).
Definition str_append_buf buf count : M SafeString unit :=
  str_update (λ s, t ← read_buf buf count ; std_replace s (size s) 0 t).
Definition str_append_cstr buf : M SafeString unit :=
  str_update (λ s, t ← read_cstr buf ; std_replace s (size s) 0 t).
Definition str_append_range t : M SafeString unit := str_update (λ s, std_replace s (size s) 0 t).

(** *** [replace] *)
Definition str_replace pos count t : M SafeString unit := str_update (λ s, std_replace s pos count t).
Definition str_replace_it i j t : M SafeString unit :=
  str_update (λ s, check_range s i j ;; std_replace s i (j - i) t).
Definition str_replace_sub pos count t pos2 count2 : M SafeString unit :=
  str_update (λ s, check_pos s pos ;; r ← std_substr t pos2 count2 ; std_replace s pos count r).
Definition str_replace_buf pos count buf count2 : M SafeString unit :=
  str_update (λ s, t ← read_buf buf count2 ; std_replace s pos count t).
Definition str_replace_it_buf i j buf count : M SafeString unit :=
  str_update (λ s, check_range s i j ;; t ← read_buf buf count ; std_replace s i (j - i) t).
Definition str_replace_cstr pos count buf : M SafeString unit :=
  str_update (λ s, t ← read_cstr buf ; std_replace s pos count t).
Definition str_replace_it_cstr i j buf : M SafeString unit :=
  str_update (λ s, check_range s i j ;; t ← read_cstr buf ; std_replace s i (j - i) t).
Definition str_replace_fill pos count count2 ch : M SafeString unit :=
  str_update (λ s, std_replace_fill s pos count count2 ch).
Definition str_replace_it_fill i j count ch : M SafeString unit :=
  str_update (λ s, check_range s i j ;; std_replace_fill s i (j - i) count ch).

(** *** [resize] and [swap] *)
Definition str_resize count : M SafeString unit := str_update (λ s, std_resize_str s count NUL).
Definition str_resize_fill count ch : M SafeString unit := str_update (λ s, std_resize_str s count ch).
(** With a [std::string], whose new value is returned, and with another
    [SafeString], which is saved and marked too. *)
Definition str_swap_std t : M SafeString (list Ascii.ascii) :=
  str_touch ;; s ← gets ss_value ; modify (str_set t) ;; mret s.
Definition str_swap : M (SafeString * SafeString) unit :=
  modify (prod_map str_save id) ;; modify (prod_map id str_save) ;;
  modify (prod_map str_mark id) ;; modify (prod_map id str_mark) ;;
  modify (λ p, (str_set (ss_value p.2) p.1, str_set (ss_value p.1) p.2)).

(** *** Reading *)
Definition str_compare x t : comparison := std_compare (ss_value x) t.
Definition str_compare_sub x pos count t : outcome comparison :=
  r ← std_substr (ss_value x) pos count ; Ret (std_compare r t).
Definition str_compare_subs x pos1 count1 t pos2 count2 : outcome comparison :=
  check_pos (ss_value x) pos1 ;; r2 ← std_substr t pos2 count2 ;
  r1 ← std_substr (ss_value x) pos1 count1 ; Ret (std_compare r1 r2).
Definition str_compare_buf x pos1 count1 buf count2 : outcome comparison :=
  r2 ← read_buf buf count2 ; r1 ← std_substr (ss_value x) pos1 count1 ; Ret (std_compare r1 r2).
Definition str_starts_with x t : bool := std_starts_with (ss_value x) t.
Definition str_ends_with x t : bool := std_ends_with (ss_value x) t.
Definition str_contains x t : bool := std_contains (ss_value x) t.
Definition str_substr x pos count : outcome SafeString :=
  r ← std_substr (ss_value x) pos count ; Ret (str_local r).
(** [copy(dest, count, pos)] writes to the start of [dest] and returns how many
    characters it wrote. *)
Definition str_copy_to x (dest : list Ascii.ascii) count pos : outcome (Z * list Ascii.ascii) :=
  r ← std_substr (ss_value x) pos count ;
  if Z.of_nat (length dest) <? size r then Throw undefined_behaviour
  else Ret (size r, r ++ str_after (size r) dest).
Definition str_find x t pos : Z := std_find (ss_value x) t pos.
Definition str_rfind x t pos : Z := std_rfind (ss_value x) t pos.
Definition str_find_first_of x t pos : Z := std_find_first_of (ss_value x) t pos.
Definition str_find_first_not_of x t pos : Z := std_find_first_not_of (ss_value x) t pos.
Definition str_find_last_of x t pos : Z := std_find_last_of (ss_value x) t pos.
Definition str_find_last_not_of x t pos : Z := std_find_last_not_of (ss_value x) t pos.
Definition str_plus x t : outcome SafeString :=
  r ← std_replace (ss_value x) (size (ss_value x)) 0 t ; Ret (str_local r).
Definition str_eq x t : bool := bool_decide (ss_value x = t).
Definition str_ne x t : bool := negb (str_eq x t).
Definition str_lt x t : bool := match str_compare x t with Lt => true | _ => false end.
Definition str_gt x t : bool := match str_compare x t with Gt => true | _ => false end.
Definition str_le x t : bool := match str_compare x t with Gt => false | _ => true end.
Definition str_ge x t : bool := match str_compare x t with Lt => false | _ => true end.

(** *** [commit] and [revert] *)
Definition str_commit : M SafeString unit :=
  modify (λ x, mkSafeString (unregister (ss_base x)) (ss_value x) None).
Definition str_revert : M SafeString unit :=
  modify (λ x, match ss_copy x with Some c => str_set c x | None => x end) ;;
  modify (λ x, mkSafeString (unregister (ss_base x)) (ss_value x) None).

(** ** The committed value *)

Definition str_rel (o : list Ascii.ascii) x : Prop :=
  match ss_copy x with Some c => c | None => ss_value x end = o ∧
  (tracked (ss_base x) = true → registered_ (ss_base x) = false → ss_value x = o).

Lemma str_revert_run o x : str_rel o x →
  str_revert x = (Ret (), mkSafeString (unregister (ss_base x)) o None).
Proof. intros [<- _]. unfold str_revert. cbv [mbind M_bind modify]. by destruct (ss_copy x). Qed.

#[export] Program Instance str_var : SafeVar SafeString (list Ascii.ascii) := {|
  sv_base := ss_base;
  sv_get := ss_value;
  sv_commit := str_commit;
  sv_revert := str_revert;
  sv_rel := str_rel;
|}.
Next Obligation. intros o x Hx. eexists. split_and!; [by apply str_revert_run|done| |done]. by split. Qed.
Next Obligation. intros o x _. eexists. split_and!; [done|done| |done]. by split. Qed.
Next Obligation. intros o x [_ Hx] Ht Hr. auto. Qed.

(** After [str_touch] the string can be set to anything. *)
Lemma str_le_touched x t :
  sv_le x (mkSafeString (markAsUsed (ss_base x)) t
    (Some (match ss_copy x with Some c => c | None => ss_value x end))).
Proof.
  split; [|apply markAsUsed_le]. intros o [Ho _]. split; [done|]. cbn. intros Ht Hr.
  rewrite (base_le_tracked _ _ (markAsUsed_le _)) in Ht. by rewrite markAsUsed_tracked in Hr.
Qed.

(** A mutator keeps the committed string, and keeps the current one when it
    throws. *)
Definition str_ok {A} (m : M SafeString A) : Prop :=
  safe_op m ∧ ∀ x e, (m x).1 = Throw e → ss_value (m x).2 = ss_value x.

Lemma str_update_ok f : str_ok (str_update f).
Proof.
  split; intros x; unfold str_update, str_touch; cbv [mbind M_bind modify gets lift].
  - destruct (f _); exact (str_le_touched x _).
  - intros e. destruct (f _); [intros [=] | reflexivity].
Qed.

Lemma str_ok_ret {A B} (m : M SafeString A) (b : B) : str_ok m → str_ok (m ;; mret b).
Proof.
  intros [Hs Ht]. split; intros x; specialize (Hs x); specialize (Ht x);
    cbv [mbind M_bind mret M_ret]; destruct (m x) as [[a|e] x']; cbn in *; try done.
  intros _ _. by apply (Ht e).
Qed.
End safestring.

#[export] Hint Resolve str_update_ok str_ok_ret : bdk.

(** ** Every operation that may change a string *)

Section mutators.
Context {SL : StringLimits}.
Implicit Types (x y : SafeString) (t buf : list Ascii.ascii) (pos count i j : Z) (ch : Ascii.ascii).

Inductive str_mutator : M SafeString unit → Prop :=
| mut_assign t : str_mutator (str_assign t)
| mut_assign_sub t pos count : str_mutator (str_assign_sub t pos count)
| mut_assign_fill count ch : str_mutator (str_assign_fill count ch)
| mut_assign_buf buf count : str_mutator (str_assign_buf buf count)
| mut_assign_cstr buf : str_mutator (str_assign_cstr buf)
| mut_assign_range t : str_mutator (str_assign_range t)
| mut_assign_char ch : str_mutator (str_assign_char ch)
| mut_at_write pos ch : str_mutator (str_at_write pos ch)
| mut_index_write pos ch : str_mutator (str_index_write pos ch)
| mut_front_write ch : str_mutator (str_front_write ch)
| mut_back_write ch : str_mutator (str_back_write ch)
| mut_iter_write i ch : str_mutator (str_iter_write i ch)
| mut_begin : str_mutator (str_begin ;; mret ())
| mut_end : str_mutator (str_end ;; mret ())
| mut_rbegin : str_mutator (str_rbegin ;; mret ())
| mut_rend : str_mutator (str_rend ;; mret ())
| mut_reserve n : str_mutator (str_reserve n)
| mut_shrink_to_fit : str_mutator str_shrink_to_fit
| mut_clear : str_mutator str_clear
| mut_insert_fill i count ch : str_mutator (str_insert_fill i count ch)
| mut_insert_cstr i buf : str_mutator (str_insert_cstr i buf)
| mut_insert_buf i buf count : str_mutator (str_insert_buf i buf count)
| mut_insert i t : str_mutator (str_insert i t)
| mut_insert_sub i t j count : str_mutator (str_insert_sub i t j count)
| mut_insert_it i t : str_mutator (str_insert_it i t ;; mret ())
| mut_insert_it_fill i count ch : str_mutator (str_insert_it_fill i count ch ;; mret ())
| mut_erase i count : str_mutator (str_erase i count)
| mut_erase_it i : str_mutator (str_erase_it i ;; mret ())
| mut_erase_range i j : str_mutator (str_erase_range i j ;; mret ())
| mut_push_back ch : str_mutator (str_push_back ch)
| mut_pop_back : str_mutator str_pop_back
| mut_append_fill count ch : str_mutator (str_append_fill count ch)
| mut_append t : str_mutator (str_append t)
| mut_append_sub t pos count : str_mutator (str_append_sub t pos count)
| mut_append_buf buf count : str_mutator (str_append_buf buf count)
| mut_append_cstr buf : str_mutator (str_append_cstr buf)
| mut_append_range t : str_mutator (str_append_range t)
| mut_replace pos count t : str_mutator (str_replace pos count t)
| mut_replace_it i j t : str_mutator (str_replace_it i j t)
| mut_replace_sub pos count t pos2 count2 : str_mutator (str_replace_sub pos count t pos2 count2)
| mut_replace_buf pos count buf count2 : str_mutator (str_replace_buf pos count buf count2)
| mut_replace_it_buf i j buf count : str_mutator (str_replace_it_buf i j buf count)
| mut_replace_cstr pos count buf : str_mutator (str_replace_cstr pos count buf)
| mut_replace_it_cstr i j buf : str_mutator (str_replace_it_cstr i j buf)
| mut_replace_fill pos count count2 ch : str_mutator (str_replace_fill pos count count2 ch)
| mut_replace_it_fill i j count ch : str_mutator (str_replace_it_fill i j count ch)
| mut_resize count : str_mutator (str_resize count)
| mut_resize_fill count ch : str_mutator (str_resize_fill count ch)
| mut_swap_std t : str_mutator (str_swap_std t ;; mret ()).

(** References and iterators: after [str_touch], run the code and finish with
    [str_le_touched]. *)
Ltac solve_str_ok defs :=
  split; intros x; defs; unfold str_touch; cbv [mbind M_bind modify gets lift mret M_ret throw];
  cbn [ss_value str_mark str_save]; repeat case_match; simplify_eq/=;
  first [done | reflexivity | exact (str_le_touched x _)].

Lemma str_at_write_ok pos ch : str_ok (str_at_write pos ch).
Proof. solve_str_ok ltac:(unfold str_at_write, str_at). Qed.
Lemma str_index_write_ok pos ch : str_ok (str_index_write pos ch).
Proof. solve_str_ok ltac:(unfold str_index_write, str_index). Qed.
Lemma str_front_write_ok ch : str_ok (str_front_write ch).
Proof. solve_str_ok ltac:(unfold str_front_write, str_front). Qed.
Lemma str_back_write_ok ch : str_ok (str_back_write ch).
Proof. solve_str_ok ltac:(unfold str_back_write, str_back). Qed.
Lemma str_iter_write_ok i ch : str_ok (str_iter_write i ch).
Proof. solve_str_ok ltac:(unfold str_iter_write, str_begin). Qed.

Lemma str_touch_ok {A} (f : list Ascii.ascii → A) : str_ok (str_touch ;; s ← gets ss_value ; mret (f s)).
Proof. split; intros x; [exact (str_le_touched x _) | done]. Qed.

Lemma str_mutator_ok m : str_mutator m → str_ok m.
Proof.
  destruct 1; first
    [ apply str_update_ok | apply str_ok_ret, str_ok_ret, str_update_ok
    | apply str_at_write_ok | apply str_index_write_ok | apply str_front_write_ok
    | apply str_back_write_ok | apply str_iter_write_ok
    | apply str_ok_ret, str_touch_ok
    | apply str_ok_ret; split; intros x; [exact (str_le_touched x _) | done] ].
Qed.

Definition str_run_all (ms : list (M SafeString unit)) x : SafeString :=
  fold_left (λ x m, (m x).2) ms x.

Lemma str_run_all_rel o ms x : Forall str_mutator ms → str_rel o x → str_rel o (str_run_all ms x).
Proof.
  intros Hms. revert x. induction Hms as [|m ms Hm _ IH]; intros x Hx; [done|].
  apply IH. by apply (str_mutator_ok m Hm).
Qed.
End mutators.

(** ** Searching finds the nearest position *)

Section searching.
Context {SL : StringLimits}.
Implicit Types (s t : list Ascii.ascii) (pos : Z).

(** [r] is the least position from [pos] on, or the greatest up to [pos], that
    satisfies [P], and [npos] if there is none. *)
Definition least_from (P : nat → Prop) pos (r : Z) : Prop :=
  (r = npos ∧ ∀ i : nat, pos <= Z.of_nat i → ¬ P i) ∨
  ∃ i : nat, r = Z.of_nat i ∧ P i ∧ pos <= Z.of_nat i ∧ ∀ j : nat, P j → pos <= Z.of_nat j → (i ≤ j)%nat.
Definition greatest_to (P : nat → Prop) pos (r : Z) : Prop :=
  (r = npos ∧ ∀ i : nat, Z.of_nat i <= pos → ¬ P i) ∨
  ∃ i : nat, r = Z.of_nat i ∧ P i ∧ Z.of_nat i <= pos ∧ ∀ j : nat, P j → Z.of_nat j <= pos → (j ≤ i)%nat.

Lemma search_spec p cands :
  (search p cands = npos ∧ ∀ i, i ∈ cands → p i = false) ∨
  ∃ k i, search p cands = Z.of_nat i ∧ cands !! k = Some i ∧ p i = true ∧
    ∀ k' j, cands !! k' = Some j → p j = true → (k ≤ k')%nat.
Proof.
  unfold search. destruct (list_find _ cands) as [[k i]|] eqn:E.
  - apply list_find_Some in E as (Hk & Hp & Hmin). right. exists k, i. split_and!; [done..|].
    intros k' j Hj Hpj. destruct (decide (k ≤ k')%nat) as [?|Hlt]; [done|].
    exfalso. apply (Hmin k' j); [done|lia|done].
  - apply list_find_None in E. left. split; [done|]. intros i Hi.
    rewrite Forall_forall in E. apply not_true_is_false, E, Hi.
Qed.

Lemma upwards_search p (P : nat → Prop) pos n :
  (∀ i, P i ↔ (i < n)%nat ∧ p i = true) → least_from P pos (search p (upwards pos n)).
Proof.
  intros HP. assert (Hin : ∀ i, i ∈ upwards pos n ↔ pos <= Z.of_nat i ∧ (i < n)%nat).
  { intros i. unfold upwards. rewrite list_elem_of_filter, elem_of_seq. intuition lia. }
  pose proof (filter_sorted lt (λ i : nat, pos <= Z.of_nat i) _ (seq_sorted 0 n)) as Hs.
  destruct (search_spec p (upwards pos n)) as [[Hr Hno]|(k & i & Hr & Hk & Hp & Hmin)].
  - left. split; [done|]. intros i Hi HPi. specialize (Hno i).
    rewrite Hin in Hno. apply HP in HPi as [Hn Hp]. rewrite Hno in Hp; [done|auto].
  - right. exists i. apply list_elem_of_lookup_2 in Hk as Hi. apply Hin in Hi as [Hpi Hni].
    split_and!; [done|by apply HP|done|].
    intros j Hj Hpos. assert (j ∈ upwards pos n) as [k' Hk']%list_elem_of_lookup
      by (apply Hin; apply HP in Hj; tauto).
    apply HP in Hj as [_ Hj]. specialize (Hmin k' j Hk' Hj).
    destruct (decide (k = k')) as [->|Hne]; [by simplify_eq|].
    apply Nat.lt_le_incl, (StronglySorted_lookup_lt lt _ Hs k k'); [done|done|lia].
Qed.

Lemma downwards_search p (P : nat → Prop) pos n :
  (∀ i, P i ↔ (i < n)%nat ∧ p i = true) → greatest_to P pos (search p (downwards pos n)).
Proof.
  intros HP. assert (Hin : ∀ i, i ∈ downwards pos n ↔ Z.of_nat i <= pos ∧ (i < n)%nat).
  { intros i. unfold downwards. rewrite elem_of_reverse, list_elem_of_filter, elem_of_seq. intuition lia. }
  pose proof (filter_sorted lt (λ i : nat, Z.of_nat i <= pos) _ (seq_sorted 0 n)) as Hs.
  destruct (search_spec p (downwards pos n)) as [[Hr Hno]|(k & i & Hr & Hk & Hp & Hmin)].
  - left. split; [done|]. intros i Hi HPi. specialize (Hno i).
    rewrite Hin in Hno. apply HP in HPi as [Hn Hp]. rewrite Hno in Hp; [done|auto].
  - right. exists i. apply list_elem_of_lookup_2 in Hk as Hi. apply Hin in Hi as [Hpi Hni].
    split_and!; [done|by apply HP|done|].
    intros j Hj Hpos. assert (j ∈ downwards pos n) as [k' Hk']%list_elem_of_lookup
      by (apply Hin; apply HP in Hj; tauto).
    apply HP in Hj as [_ Hj]. specialize (Hmin k' j Hk' Hj).
    destruct (decide (k = k')) as [->|Hne]; [by simplify_eq|].
    unfold downwards in Hk, Hk'.
    set (l := filter _ _) in *.
    apply lookup_lt_Some in Hk as Hkl. apply lookup_lt_Some in Hk' as Hkl'.
    rewrite length_reverse in Hkl, Hkl'.
    rewrite reverse_lookup in Hk, Hk' by done.
    apply Nat.lt_le_incl, (StronglySorted_lookup_lt lt _ Hs (length l - S k') (length l - S k)); [done|done|lia].
Qed.

(** The string [t] stands in [s] at offset [i]; the character at [i] is in [t]. *)
Definition stands_at s t (i : nat) : Prop := ∃ a b, s = a ++ t ++ b ∧ length a = i.
Definition char_in s t (i : nat) : Prop := ∃ c, s !! i = Some c ∧ c ∈ t.
Definition char_not_in s t (i : nat) : Prop := ∃ c, s !! i = Some c ∧ c ∉ t.

Lemma stands_at_occurs s t i : stands_at s t i ↔ (i ≤ length s)%nat ∧ occurs s t i = true.
Proof.
  unfold occurs. rewrite bool_decide_eq_true. split.
  - intros (a & b & -> & <-). split; [rewrite length_app; lia|].
    by rewrite drop_app_length, take_app_length.
  - intros [Hi Ht]. exists (take i s), (drop (length t) (drop i s)).
    split; [|by apply length_take_le]. rewrite <- Ht at 1. by rewrite take_drop, take_drop.
Qed.
End searching.

(** ** The properties of [SafeString] *)

(** After any sequence of operations that may change a [SafeString] (all
    overloads of assign, insert, erase, append, replace, resize and swap, writes
    through references and iterators, capacity changes), throwing or not,
    [revert] restores the committed string and drops the copy; and an operation
    that throws leaves the current string as it was. *)
Theorem string_ops_revert {SL : StringLimits} ms (x : SafeString) o :
  Forall str_mutator ms → str_rel o x →
  str_revert (str_run_all ms x) =
    (Ret (), mkSafeString (unregister (ss_base (str_run_all ms x))) o None) ∧
  ∀ m y e, m ∈ ms → (m y).1 = Throw e → ss_value (m y).2 = ss_value y.
Proof.
  intros Hms Hx. split; [by apply str_revert_run, str_run_all_rel|].
  intros m y e Hm. rewrite Forall_forall in Hms. apply (str_mutator_ok m), Hms, Hm.
Qed.

(** The six search functions of [SafeString] return the nearest position:
    [find] and [rfind] the first, or last, place from [pos] on, or up to [pos],
    where the argument stands in the string, [find_first_of] and [find_last_of]
    the nearest character that is in the argument, [find_first_not_of] and
    [find_last_not_of] the nearest one that is not; [npos] exactly when there is
    none. *)
Theorem string_search_correct (x : SafeString) t pos :
  let s := ss_value x in
  least_from (stands_at s t) pos (str_find x t pos) ∧
  greatest_to (stands_at s t) pos (str_rfind x t pos) ∧
  least_from (char_in s t) pos (str_find_first_of x t pos) ∧
  greatest_to (char_in s t) pos (str_find_last_of x t pos) ∧
  least_from (char_not_in s t) pos (str_find_first_not_of x t pos) ∧
  greatest_to (char_not_in s t) pos (str_find_last_not_of x t pos).
Proof.
  intros s.
  assert (Hs : ∀ i, stands_at s t i ↔ (i < S (length s))%nat ∧ occurs s t i = true).
  { intros i. rewrite stands_at_occurs. intuition lia. }
  assert (Hc : ∀ i, char_in s t i ↔ (i < length s)%nat ∧ one_of s t i = true).
  { intros i. unfold char_in, one_of. rewrite <- lookup_lt_is_Some. unfold is_Some.
    destruct (s !! i); [|naive_solver]. rewrite bool_decide_eq_true. naive_solver. }
  assert (Hn : ∀ i, char_not_in s t i ↔ (i < length s)%nat ∧ none_of s t i = true).
  { intros i. unfold char_not_in, none_of. rewrite <- lookup_lt_is_Some. unfold is_Some.
    destruct (s !! i); [|naive_solver]. rewrite bool_decide_eq_true. naive_solver. }
  split_and!; [by apply upwards_search | by apply downwards_search..
    | by apply upwards_search | by apply downwards_search | by apply upwards_search | by apply downwards_search].
Qed.

(** [swap] between two [SafeString]s keeps both committed strings. *)
Lemma str_swap_safe x y :
  let '(x', y') := (str_swap (x, y)).2 in
  sv_le x x' ∧ sv_le y y' ∧ ss_value x' = ss_value y ∧ ss_value y' = ss_value x.
Proof.
  split_and!; [exact (str_le_touched x (ss_value y)) | exact (str_le_touched y (ss_value x)) | done..].
Qed.

(** The comparison operators are a total order that agrees with equality. *)
Lemma std_compare_eq s t : std_compare s t = Eq ↔ s = t.
Proof.
  revert t. induction s as [|a s IH]; intros [|b t]; cbn; try done.
  destruct (N.compare_spec (Ascii.N_of_ascii a) (Ascii.N_of_ascii b)) as [E|E|E]; cbn.
  - apply (f_equal Ascii.ascii_of_N) in E. rewrite !Ascii.ascii_N_embedding in E. subst.
    rewrite IH. naive_solver.
  - split; [done|]. intros [= -> ->]. lia.
  - split; [done|]. intros [= -> ->]. lia.
Qed.

Lemma std_compare_antisym s t : std_compare t s = CompOpp (std_compare s t).
Proof.
  revert t. induction s as [|a s IH]; intros [|b t]; cbn; try done.
  rewrite N.compare_antisym. destruct (_ ?= _)%N; cbn; auto.
Qed.

Lemma str_order (x : SafeString) t :
  str_le x t = str_lt x t || str_eq x t ∧
  str_ge x t = str_gt x t || str_eq x t ∧ str_lt x t = negb (str_ge x t) ∧
  (str_eq x t = true ↔ str_compare x t = Eq).
Proof.
  pose proof (std_compare_eq (ss_value x) t) as H.
  unfold str_le, str_ge, str_lt, str_gt, str_eq, str_compare.
  destruct (std_compare _ _); case_bool_decide; naive_solver.
Qed.

#[export] Program Instance gcc_limits : StringLimits := {| max_size := 2 ^ 63 - 1 |}.
Next Obligation. lia. Qed.

Definition demo_string : SafeString := str_owned (String.list_ascii_of_string "safe string").

Lemma string_ops_revert_witness :
  let x' := str_run_all [str_append [Ascii.zero]; str_erase 0 5; str_insert 99 [NUL]; str_replace 1 npos [];
                         str_push_back NUL; str_clear] demo_string in
  ss_value x' = [] ∧
  str_revert x' = (Ret (), mkSafeString (unregister (ss_base x')) (String.list_ascii_of_string "safe string") None).
Proof.
  intros x'. split; [vm_compute; reflexivity|].
  apply (string_ops_revert [str_append [Ascii.zero]; str_erase 0 5; str_insert 99 [NUL]; str_replace 1 npos [];
                            str_push_back NUL; str_clear] demo_string (String.list_ascii_of_string "safe string")).
  - repeat (apply Forall_cons_2 || apply Forall_nil_2);
      [apply mut_append | apply mut_erase | apply mut_insert | apply mut_replace
      | apply mut_push_back | apply mut_clear].
  - split; intros; reflexivity.
Defined.
