(* ===== verification/SafeArray.v ===== *)
(** * [SafeArray<T, N>]

    Models src/contract/variables/safearray.h: a fixed-size array with a full
    copy ([fill]) and an undo stack for the element accesses, like [SafeVector].
    The size [N] is the length of [arr_value], which no operation changes; a
    [std::array] is a list and its element access is that of [std::vector]
    ([std_at], [std_index], [std_set_at], [std_set] of SafeVector). *)

From S2P Require Import Prelude SafeBase SafeVector.

#[local] Open Scope nat_scope.

Inductive ArrayOp := ARR_AT | ARR_BRACKETS | ARR_FRONT | ARR_BACK.

Record SafeArray (T : Type) := mkSafeArray {
  arr_base : SafeBase;
  arr_value : list T;
  arr_copy : option (list T);
  arr_undo : option (list (ArrayOp * nat * T));
}.
Arguments mkSafeArray {T}.
Arguments arr_base {T}.
Arguments arr_value {T}.
Arguments arr_copy {T}.
Arguments arr_undo {T}.

Section safearray.
Context {T : Type}.
Implicit Types (x : SafeArray T) (l : list T) (i : nat) (v : T).

Definition arr_local l : SafeArray T := mkSafeArray (mkSafeBase false false false) l None None.
Definition arr_owned l : SafeArray T := mkSafeArray (mkSafeBase true false false) l None None.

(** One iteration of [processUndoStack], and the loop. *)
Definition arr_undo_one (u : ArrayOp * nat * T) l : outcome (list T) :=
  let '(op, index, value) := u in
  match op with
  | ARR_AT => std_set_at l index value
  | ARR_BRACKETS => std_set l index value
  | ARR_FRONT => std_set_at l 0 value
  | ARR_BACK => match l with [] => Throw out_of_range | _ => std_set_at l (length l - 1) value end
  end.
Fixpoint arr_processUndoStack (stk : list (ArrayOp * nat * T)) l : outcome (list T) :=
  match stk with
  | [] => Ret l
  | u :: stk => l' ← arr_undo_one u l ; arr_processUndoStack stk l'
  end.

Definition arr_mark x : SafeArray T :=
  mkSafeArray (markAsUsed (arr_base x)) (arr_value x) (arr_copy x) (arr_undo x).
Definition arr_set l x : SafeArray T := mkSafeArray (arr_base x) l (arr_copy x) (arr_undo x).
Definition arr_alloc x : SafeArray T :=
  mkSafeArray (arr_base x) (arr_value x) (arr_copy x)
    (Some (match arr_undo x with Some s => s | None => [] end)).
Definition arr_push (u : ArrayOp * nat * T) x : SafeArray T :=
  mkSafeArray (arr_base x) (arr_value x) (arr_copy x)
    (Some (u :: match arr_undo x with Some s => s | None => [] end)).

(** [if (copy_ == nullptr) { allocate the stack; undo_->emplace(op, index, old) }] *)
Definition arr_record (op : ArrayOp) (old : list T → outcome (nat * T)) : M (SafeArray T) unit :=
  x ← gets id ;
  match arr_copy x with
  | Some _ => mret ()
  | None =>
      modify arr_alloc ;; iv ← lift (old (arr_value x)) ; modify (arr_push (op, iv.1, iv.2))
  end.

(** ** Operations; the [_write] ones write [v] through the reference returned *)

Definition arr_at i : M (SafeArray T) T :=
  x ← gets id ;
  r ← lift (std_at (arr_value x) i) ;
  arr_record ARR_AT (λ l, o ← std_at l i ; Ret (i, o)) ;;
  modify arr_mark ;; mret r.
Definition arr_at_write i v : M (SafeArray T) unit :=
  arr_at i ;; modify (λ x, arr_set (<[i := v]> (arr_value x)) x).

Definition arr_index i : M (SafeArray T) T :=
  arr_record ARR_BRACKETS (λ l, o ← std_index l i ; Ret (i, o)) ;;
  modify arr_mark ;; x ← gets id ; lift (std_index (arr_value x) i).
Definition arr_index_write i v : M (SafeArray T) unit :=
  arr_index i ;; modify (λ x, arr_set (<[i := v]> (arr_value x)) x).

Definition arr_front : M (SafeArray T) T :=
  arr_record ARR_FRONT (λ l, o ← std_at l 0 ; Ret (0, o)) ;;
  modify arr_mark ;; x ← gets id ; lift (std_index (arr_value x) 0).
Definition arr_front_write v : M (SafeArray T) unit :=
  arr_front ;; modify (λ x, arr_set (<[0 := v]> (arr_value x)) x).

(** [value_.back()]; [N - 1] wraps for an empty array, and [at] then throws. *)
Definition std_back l : outcome T :=
  match l with [] => Throw undefined_behaviour | _ => std_index l (length l - 1) end.
Definition arr_back : M (SafeArray T) T :=
  arr_record ARR_BACK (λ l, match l with
                            | [] => Throw out_of_range
                            | _ => o ← std_at l (length l - 1) ; Ret (length l - 1, o)
                            end) ;;
  modify arr_mark ;; x ← gets id ;
  lift (std_back (arr_value x)).
Definition arr_back_write v : M (SafeArray T) unit :=
  arr_back ;; modify (λ x, arr_set (<[length (arr_value x) - 1 := v]> (arr_value x)) x).

Definition arr_fill v : M (SafeArray T) unit :=
  modify (λ x, mkSafeArray (arr_base x) (arr_value x)
    (Some (match arr_copy x with Some c => c | None => arr_value x end)) (arr_undo x)) ;;
  modify arr_mark ;;
  modify (λ x, arr_set (replicate (length (arr_value x)) v) x).

Definition arr_commit : M (SafeArray T) unit :=
  modify (λ x, mkSafeArray (unregister (arr_base x)) (arr_value x) None None).
Definition arr_revert : M (SafeArray T) unit :=
  modify (λ x, match arr_copy x with Some c => arr_set c x | None => x end) ;;
  x ← gets id ;
  match arr_undo x with
  | None | Some [] => mret ()
  | Some stk => l ← lift (arr_processUndoStack stk (arr_value x)) ; modify (arr_set l)
  end ;;
  modify (λ x, mkSafeArray (unregister (arr_base x)) (arr_value x) None None).

(** ** The committed value *)

Definition arr_start x : list T := match arr_copy x with Some c => c | None => arr_value x end.
Definition arr_stack x : list (ArrayOp * nat * T) := match arr_undo x with Some s => s | None => [] end.

Definition arr_rel (o : list T) x : Prop :=
  arr_processUndoStack (arr_stack x) (arr_start x) = Ret o ∧ length (arr_value x) = length o ∧
  (tracked (arr_base x) = true → registered_ (arr_base x) = false → arr_value x = o).

Lemma arr_revert_run o x : arr_rel o x →
  arr_revert x = (Ret (), mkSafeArray (unregister (arr_base x)) o None None).
Proof.
  intros [Ho _]. revert Ho. unfold arr_revert, arr_stack, arr_start.
  cbv [mbind M_bind modify gets id lift mret M_ret].
  destruct (arr_copy x); cbn; destruct (arr_undo x) as [[|u stk]|];
    (intros [= <-] || intros ->); reflexivity.
Qed.

#[export] Program Instance arr_var : SafeVar (SafeArray T) (list T) := {|
  sv_base := arr_base;
  sv_get := arr_value;
  sv_commit := arr_commit;
  sv_revert := arr_revert;
  sv_rel := arr_rel;
|}.
Next Obligation. intros o x Hx. eexists. split_and!; [by apply arr_revert_run|done| |done]. by split. Qed.
Next Obligation. intros o x _. eexists. split_and!; [done|done| |done]. by split. Qed.
Next Obligation. intros o x (_ & _ & Hx) Ht Hr. auto. Qed.

Lemma arr_le x x' :
  arr_base x' = arr_base x ∨ arr_base x' = markAsUsed (arr_base x) →
  length (arr_value x') = length (arr_value x) →
  arr_processUndoStack (arr_stack x') (arr_start x') = arr_processUndoStack (arr_stack x) (arr_start x) →
  (arr_base x' = markAsUsed (arr_base x) ∨ arr_value x' = arr_value x) → sv_le x x'.
Proof.
  intros Hb Hl Hs Hv. assert (Hle : base_le (arr_base x) (arr_base x')).
  { destruct Hb as [->| ->]; [reflexivity | apply markAsUsed_le]. }
  split; [|done]. intros o (Ho & Hlo & Hx). split_and!; [congruence|congruence|].
  intros Ht Hr. rewrite (base_le_tracked _ _ Hle) in Ht. destruct Hv as [Hm|Hv].
  - rewrite Hm in Hr. by rewrite markAsUsed_tracked in Hr.
  - rewrite Hv. apply Hx; [done|]. destruct Hle as (_ & _ & H).
    destruct (registered_ (arr_base x)); [|done]. rewrite H in Hr; done.
Qed.

(** A recorded access and a write at the recorded place: unwinding the record
    gives the old array back. *)
Lemma arr_write_safe op (old : list T → outcome (nat * T)) (rd : list T → outcome T) (pos : list T → nat) v :
  (∀ l iv, old l = Ret iv → (∃ r, rd l = Ret r) ∧ arr_undo_one (op, iv.1, iv.2) (<[pos l := v]> l) = Ret l) →
  safe_op ((arr_record op old ;; modify arr_mark ;; x ← gets id ; lift (rd (arr_value x))) ;;
           modify (λ x, arr_set (<[pos (arr_value x) := v]> (arr_value x)) x)).
Proof.
  intros Hold x. unfold arr_record. cbv [mbind M_bind modify gets id lift mret M_ret].
  destruct (arr_copy x) as [c|] eqn:Ec.
  - destruct (rd _); apply arr_le; cbn; rewrite ?length_insert; auto;
      unfold arr_stack, arr_start; cbn; by rewrite Ec.
  - destruct (old (arr_value x)) as [iv|e] eqn:Eo; cbn.
    + destruct (Hold _ _ Eo) as [[r Hr] Hu]. rewrite Hr. apply arr_le; cbn; rewrite ?length_insert; auto.
      unfold arr_stack, arr_start. cbn in *. rewrite Ec. by rewrite Hu.
    + apply arr_le; cbn; auto.
Qed.

Lemma set_back l (i : nat) o v : l !! i = Some o → std_set_at (<[i := v]> l) i o = Ret l.
Proof.
  intros Hi. unfold std_set_at. rewrite length_insert, decide_True by (by eapply lookup_lt_Some).
  by rewrite write_undo.
Qed.

Lemma arr_index_write_safe i v : safe_op (arr_index_write i v).
Proof.
  apply (arr_write_safe ARR_BRACKETS _ (λ l, std_index l i) (λ _, i)). intros l iv. unfold std_index.
  destruct (l !! i) as [o|] eqn:E; [|done]. cbn. intros [= <-]. split; [eauto|]. cbn.
  unfold std_set. rewrite length_insert, decide_True by (by eapply lookup_lt_Some). by rewrite write_undo.
Qed.

Lemma arr_front_write_safe v : safe_op (arr_front_write v).
Proof.
  apply (arr_write_safe ARR_FRONT _ (λ l, std_index l 0) (λ _, 0)). intros l iv. unfold std_index, std_at.
  destruct (l !! 0) as [o|] eqn:E; [|done]. cbn. intros [= <-]. split; [eauto|]. by apply set_back.
Qed.

Lemma arr_back_write_safe v : safe_op (arr_back_write v).
Proof.
  apply (arr_write_safe ARR_BACK _ std_back (λ l, length l - 1)). intros [|u l] iv; [done|].
  unfold std_back, std_index, std_at. destruct ((u :: l) !! (length (u :: l) - 1)) as [o|] eqn:E; [|done].
  cbn [mbind outcome_bind]. intros [= <-]. split; [eauto|]. pose proof (set_back _ _ _ v E) as Hb.
  cbn [arr_undo_one fst snd]. destruct (<[_ := v]> (u :: l)) eqn:El; [by destruct (length (u :: l) - 1)|].
  rewrite <- El in *. by rewrite length_insert.
Qed.

Lemma arr_at_write_safe i v : safe_op (arr_at_write i v).
Proof.
  intros x. unfold arr_at_write, arr_at, arr_record, std_at. cbv [mbind M_bind modify gets id lift mret M_ret].
  destruct (arr_value x !! i) as [o|] eqn:Ei; [|reflexivity].
  destruct (arr_copy x) as [c|] eqn:Ec; apply arr_le; cbn; rewrite ?length_insert; auto;
    unfold arr_stack, arr_start; cbn; rewrite Ec; [done|]. cbn.
  by rewrite set_back.
Qed.

Lemma arr_fill_safe v : safe_op (arr_fill v).
Proof.
  intros x. unfold arr_fill. cbv [mbind M_bind modify].
  apply arr_le; [by right | apply length_replicate | | by left]. unfold arr_stack, arr_start. cbn. by destruct (arr_copy x).
Qed.

Inductive ArrOp := AAtWrite i v | AIndexWrite i v | AFrontWrite v | ABackWrite v | AFill v.
Definition arr_run (op : ArrOp) : M (SafeArray T) unit :=
  match op with
  | AAtWrite i v => arr_at_write i v
  | AIndexWrite i v => arr_index_write i v
  | AFrontWrite v => arr_front_write v
  | ABackWrite v => arr_back_write v
  | AFill v => arr_fill v
  end.
Definition arr_run_all (ops : list ArrOp) x : SafeArray T := fold_left (λ x op, (arr_run op x).2) ops x.

Lemma arr_run_safe op : safe_op (arr_run op).
Proof.
  destruct op; [apply arr_at_write_safe | apply arr_index_write_safe | apply arr_front_write_safe
    | apply arr_back_write_safe | apply arr_fill_safe].
Qed.

(** Any sequence of operations on a [SafeArray] keeps its size and is undone by
    [revert]. *)
Lemma arr_ops_revert ops x o : arr_rel o x →
  length (arr_value (arr_run_all ops x)) = length o ∧
  arr_revert (arr_run_all ops x) =
    (Ret (), mkSafeArray (unregister (arr_base (arr_run_all ops x))) o None None).
Proof.
  intros Hx. assert (Hr : arr_rel o (arr_run_all ops x)).
  { revert x Hx. induction ops as [|op ops IH]; intros x Hx; [done|]. apply IH. by apply (arr_run_safe op x). }
  split; [apply Hr | by apply arr_revert_run].
Qed.
End safearray.
