(* ===== verification/SafeTuple.v ===== *)
(** * [SafeTuple<Types...>]

    Models src/contract/variables/safetuple.h.  The elements of a tuple have
    their own types, fixed at compile time: [U] is a type that holds a value of
    any of them, a tuple is the list of its elements and the index of a [get] is
    below its length.  [copy_] holds one pointer per element.  The indices
    [Is...] of [copyAll] and [clearCopy] are the positions of the tuple, in
    order. *)

From S2P Require Import Prelude SafeBase.

#[local] Open Scope nat_scope.

Record SafeTuple (U : Type) := mkSafeTuple {
  tup_base : SafeBase;
  tup_value : list U;
  tup_copy : list (option U);
}.
Arguments mkSafeTuple {U}.
Arguments tup_base {U}.
Arguments tup_value {U}.
Arguments tup_copy {U}.

Section safetuple.
Context {U : Type}.
Implicit Types (x y : SafeTuple U) (l : list U) (c : list (option U)) (i : nat) (v : U).

(** The constructors with an owner and from a [std::tuple]: no copies yet. *)
Definition tup_owned l : SafeTuple U :=
  mkSafeTuple (mkSafeBase true false false) l (replicate (length l) None).
Definition tup_local l : SafeTuple U :=
  mkSafeTuple (mkSafeBase false false false) l (replicate (length l) None).

(** [copyIndex<I>(value_, copy_)]: a new copy of the element, whether or not
    there is one already. *)
Definition copyIndex_save i l c : list (option U) :=
  match l !! i with Some v => <[i := Some v]> c | None => c end.
(** [copyIndex<I>(copy_, value_)]: dereference the pointer. *)
Definition copyIndex_restore i c l : outcome (list U) :=
  match c !! i with
  | Some (Some v) => Ret (<[i := v]> l)
  | Some None => Throw undefined_behaviour
  | None => Ret l
  end.

(** [copyAll] in the two directions, and [clearCopy]. *)
Definition copyAll_save l c : list (option U) :=
  foldl (λ c i, copyIndex_save i l c) c (seq 0 (length l)).
Definition copyAll_restore c l : outcome (list U) :=
  foldl (λ acc i, l ← acc ; copyIndex_restore i c l) (Ret l) (seq 0 (length c)).
Definition setIndexAsNullptr i c : list (option U) := <[i := None]> c.
Definition clearCopy c : list (option U) := foldl (λ c i, setIndexAsNullptr i c) c (seq 0 (length c)).

Definition tup_save_at i x : SafeTuple U :=
  mkSafeTuple (tup_base x) (tup_value x) (copyIndex_save i (tup_value x) (tup_copy x)).
Definition tup_save x : SafeTuple U :=
  mkSafeTuple (tup_base x) (tup_value x) (copyAll_save (tup_value x) (tup_copy x)).
Definition tup_mark x : SafeTuple U := mkSafeTuple (markAsUsed (tup_base x)) (tup_value x) (tup_copy x).
Definition tup_set l x : SafeTuple U := mkSafeTuple (tup_base x) l (tup_copy x).

(** [get<I>()], and a write of [v] through the reference it returns; the free
    [get] on a variable calls it. *)
Definition tup_get i : M (SafeTuple U) U :=
  modify (tup_save_at i) ;; modify tup_mark ;;
  x ← gets id ; match tup_value x !! i with Some v => mret v | None => throw undefined_behaviour end.
Definition tup_write i v : M (SafeTuple U) unit :=
  tup_get i ;; modify (λ x, tup_set (<[i := v]> (tup_value x)) x).

(** [operator=] from a tuple, a [SafeTuple] or a pair. *)
Definition tup_assign l : M (SafeTuple U) unit :=
  modify tup_save ;; modify tup_mark ;; modify (tup_set l).
Definition tup_raw x : list U := tup_value x.

(** The member [swap] saves and marks both; the free one marks them first. *)
Definition tup_swap : M (SafeTuple U * SafeTuple U) unit :=
  modify (prod_map tup_save id) ;; modify (prod_map tup_mark id) ;;
  modify (prod_map id tup_save) ;; modify (prod_map id tup_mark) ;;
  modify (λ p, (tup_set (tup_value p.2) p.1, tup_set (tup_value p.1) p.2)).
Definition tup_swap_free : M (SafeTuple U * SafeTuple U) unit :=
  modify (prod_map tup_mark id) ;; modify (prod_map id tup_mark) ;; tup_swap.

(** [commit] clears the copies; [revert] restores every element and leaves the
    copies. *)
Definition tup_commit : M (SafeTuple U) unit :=
  modify (λ x, mkSafeTuple (unregister (tup_base x)) (tup_value x) (clearCopy (tup_copy x))).
Definition tup_revert : M (SafeTuple U) unit :=
  x ← gets id ; l ← lift (copyAll_restore (tup_copy x) (tup_value x)) ;
  modify (λ x, mkSafeTuple (unregister (tup_base x)) l (tup_copy x)).

(** ** What the loops compute *)

Lemma copyAll_save_all l c : length c = length l → copyAll_save l c = Some <$> l.
Proof.
  intros Hc. unfold copyAll_save.
  assert (Hk : ∀ k, k <= length l →
    foldl (λ c i, copyIndex_save i l c) c (seq 0 k) = (Some <$> take k l) ++ drop k c).
  { induction k as [|k IH]; intros Hk; [done|]. rewrite seq_S, foldl_app, IH by lia. cbn.
    unfold copyIndex_save. destruct (lookup_lt_is_Some_2 l k) as [v Hv]; [lia|]. rewrite Hv.
    rewrite (take_S_r _ _ _ Hv), fmap_app. destruct (lookup_lt_is_Some_2 c k) as [w Hw]; [lia|].
    rewrite (drop_S _ _ _ Hw). rewrite insert_app_r_alt by (rewrite length_fmap, length_take; lia).
    rewrite length_fmap, length_take, Nat.min_l, Nat.sub_diag by lia. cbn. by rewrite <- (assoc_L (++)). }
  rewrite Hk by lia. rewrite take_ge, drop_ge by lia. by rewrite app_nil_r.
Qed.

Lemma copyAll_restore_all (o : list U) l : length o = length l →
  copyAll_restore (Some <$> o) l = Ret o.
Proof.
  intros Hl. unfold copyAll_restore. rewrite length_fmap.
  assert (Hk : ∀ k, k <= length o →
    foldl (λ acc i, l ← acc ; copyIndex_restore i (Some <$> o) l) (Ret l) (seq 0 k) = Ret (take k o ++ drop k l)).
  { induction k as [|k IH]; intros Hk; [done|]. rewrite seq_S, foldl_app, IH by lia. cbn.
    unfold copyIndex_restore. rewrite list_lookup_fmap.
    destruct (lookup_lt_is_Some_2 o k) as [v Hv]; [lia|]. rewrite Hv. cbn. f_equal.
    destruct (lookup_lt_is_Some_2 l k) as [w Hw]; [lia|].
    rewrite (take_S_r _ _ _ Hv), (drop_S _ _ _ Hw).
    rewrite insert_app_r_alt by (rewrite length_take; lia).
    rewrite length_take, Nat.min_l, Nat.sub_diag by lia. cbn. by rewrite <- (assoc_L (++)). }
  rewrite Hk by lia. rewrite take_ge, drop_ge by lia. by rewrite app_nil_r.
Qed.

Lemma clearCopy_all c : clearCopy c = replicate (length c) None.
Proof.
  unfold clearCopy, setIndexAsNullptr.
  assert (Hk : ∀ k, k <= length c →
    foldl (λ c i, <[i := None]> c) c (seq 0 k) = replicate k None ++ drop k c).
  { induction k as [|k IH]; intros Hk; [done|]. rewrite seq_S, foldl_app, IH by lia. cbn [foldl].
    destruct (lookup_lt_is_Some_2 c k) as [w Hw]; [lia|]. rewrite (drop_S _ _ _ Hw).
    rewrite insert_app_r_alt by (rewrite length_replicate; lia).
    rewrite length_replicate, Nat.sub_diag. cbn [insert list_insert Nat.add].
    by rewrite replicate_S_end, <- (assoc_L (++)). }
  rewrite Hk by lia. rewrite drop_ge by lia. apply app_nil_r.
Qed.

(** One null pointer is enough for [copyAll] to have no defined result. *)
Lemma restore_undefined c l : None ∈ c → copyAll_restore c l = Throw undefined_behaviour.
Proof.
  intros [i Hi]%list_elem_of_lookup. unfold copyAll_restore.
  assert (Hstuck : ∀ js, foldl (λ acc i, l ← acc ; copyIndex_restore i c l)
    (Throw undefined_behaviour) js = Throw undefined_behaviour).
  { induction js as [|j js IH]; [done|exact IH]. }
  assert (Hgo : ∀ js l, i ∈ js → (foldl (λ acc i, l ← acc ; copyIndex_restore i c l) (Ret l) js)
    = Throw undefined_behaviour).
  { induction js as [|j js IH]; intros l' Hin; [by apply not_elem_of_nil in Hin|]. cbn.
    unfold copyIndex_restore at 2. destruct (decide (i = j)) as [->|Hne].
    - rewrite Hi. apply Hstuck.
    - assert (i ∈ js) by set_solver. destruct (c !! j) as [[v|]|]; auto. }
  apply Hgo, elem_of_seq. apply lookup_lt_Some in Hi. lia.
Qed.

(** ** When [revert] works and when it does not *)

(** A clean tuple: one copy pointer per element. *)
Definition tup_wf x : Prop := length (tup_copy x) = length (tup_value x).

Lemma tup_assign_revert l x : tup_wf x → length l = length (tup_value x) →
  tup_revert (tup_assign l x).2 =
    (Ret (), mkSafeTuple (unregister (markAsUsed (tup_base x))) (tup_value x) (Some <$> tup_value x)).
Proof.
  intros Hw Hl. unfold tup_revert, tup_assign. cbv [mbind M_bind modify gets lift id].
  cbn [snd tup_set tup_mark tup_save tup_copy tup_value tup_base].
  rewrite copyAll_save_all by done. by rewrite copyAll_restore_all.
Qed.

Lemma tup_write_run i v x : i < length (tup_value x) →
  tup_write i v x = (Ret (), mkSafeTuple (markAsUsed (tup_base x)) (<[i := v]> (tup_value x))
    (copyIndex_save i (tup_value x) (tup_copy x))).
Proof.
  intros [w Hw]%lookup_lt_is_Some_2. unfold tup_write, tup_get.
  cbv [mbind M_bind modify gets id]. cbn [tup_mark tup_save_at tup_value]. by rewrite Hw.
Qed.
End safetuple.

(** [SafeTuple::revert] undoes one assignment of the whole tuple, or a swap,
    exactly.  It does not undo more: a second assignment overwrites the copy, so
    that the value between the two comes back; and a tuple of which only some
    elements were accessed since the last commit has null copies, which [revert]
    dereferences. *)
Theorem tuple_revert_last_only {U} (x : SafeTuple U) (l1 l2 : list U) (v : U) :
  tup_wf x → length l1 = length (tup_value x) → length l2 = length (tup_value x) →
  tup_value (tup_revert (tup_assign l1 x).2).2 = tup_value x ∧
  tup_value (tup_revert (tup_assign l2 (tup_assign l1 x).2).2).2 = l1 ∧
  (2 <= length (tup_value x) →
   (tup_revert (tup_write 0 v (tup_commit x).2).2).1 = Throw undefined_behaviour).
Proof.
  intros Hw H1 H2. split_and!.
  - by rewrite tup_assign_revert.
  - rewrite tup_assign_revert; [done| |change (length l2 = length l1); congruence].
    unfold tup_wf, tup_assign. cbv [mbind M_bind modify]. cbn [snd tup_set tup_mark tup_save tup_copy tup_value].
    rewrite copyAll_save_all by done. by rewrite length_fmap.
  - intros Hlen. pose proof (clearCopy_all (tup_copy x)) as Hclear. rewrite Hw in Hclear.
    rewrite tup_write_run by (cbn; lia). unfold tup_revert. cbv [mbind M_bind gets lift id]. cbn [fst snd].
    rewrite restore_undefined; [done|]. cbn [tup_commit modify snd tup_value tup_copy]. rewrite Hclear.
    unfold copyIndex_save. destruct (tup_value x) as [|a [|b l]]; [cbn in *; lia..|]. cbn. set_solver.
Qed.

Lemma tuple_revert_last_only_witness :
  let x := tup_owned [1; 2; 3] in
  tup_value (tup_revert (tup_assign [7; 8; 9] (tup_assign [4; 5; 6] x).2).2).2 = [4; 5; 6] ∧
  (tup_revert (tup_write 0 7 (tup_commit x).2).2).1 = Throw undefined_behaviour.
Proof.
  intros x. split.
  - apply (tuple_revert_last_only x [4; 5; 6] [7; 8; 9] 7); reflexivity.
  - apply (tuple_revert_last_only x [4; 5; 6] [7; 8; 9] 7); [reflexivity..|cbn; lia].
Defined.
