(* ===== verification/SafeMultiSet.v ===== *)
(** * [SafeMultiSet<Key, Compare>]

    Models src/contract/variables/safemultiset.h.  A [std::multiset] is the list
    of its elements in iteration order and an iterator is an offset into it; the
    comparison [Compare] is a parameter that has to be a strict weak order
    ([StrictWeak]), as the standard asks.  The class keeps a value and a copy
    like the scalar variables and shares their [commit] and [revert]. *)

From S2P Require Import Prelude SafeBase SafeScalars.

#[local] Open Scope nat_scope.

(** A strict weak order: incomparable keys are interchangeable. *)
Class StrictWeak {K} (cmp : K → K → bool) := {
  cmp_irrefl : ∀ a, cmp a a = false;
  cmp_trans : ∀ a b c, cmp a b = true → cmp b c = true → cmp a c = true;
  cmp_split : ∀ a b c, cmp a c = true → cmp a b = true ∨ cmp b c = true;
}.

(** ** [std::multiset] *)

Section std_multiset.
Context {K : Type} (cmp : K → K → bool).
Implicit Types (l : list K) (k e : K) (i : nat).

Definition equivalent a b : bool := negb (cmp a b) && negb (cmp b a).

Fixpoint ms_lower l k : nat :=
  match l with [] => 0 | e :: l => if cmp e k then S (ms_lower l k) else 0 end.
Fixpoint ms_upper l k : nat :=
  match l with [] => 0 | e :: l => if cmp k e then 0 else S (ms_upper l k) end.

Definition put_at i k l : list K := take i l ++ k :: drop i l.
Definition cut i j l : list K := take i l ++ drop j l.

(** [insert(k)]: after the equivalent elements. *)
Definition ms_insert k l : outcome (nat * list K) :=
  let i := ms_upper l k in Ret (i, put_at i k l).
(** [insert(hint, k)]: as close as possible before the hint. *)
Definition ms_hint_pos i k l : nat :=
  if match i with O => false | S j => match l !! j with Some e => cmp k e | None => false end end
  then ms_upper l k
  else match l !! i with
       | Some e => if cmp e k then ms_lower l k else i
       | None => i
       end.
Definition ms_insert_hint i k l : outcome (nat * list K) :=
  if decide (i <= length l) then let j := ms_hint_pos i k l in Ret (j, put_at j k l)
  else Throw undefined_behaviour.
Definition ms_insert_all (ks : list K) l : list K :=
  foldl (λ l k, put_at (ms_upper l k) k l) l ks.

Definition ms_erase_at i l : outcome (nat * list K) :=
  if decide (i < length l) then Ret (i, cut i (S i) l) else Throw undefined_behaviour.
Definition ms_erase_range i j l : outcome (nat * list K) :=
  if decide (i <= j ∧ j <= length l) then Ret (i, cut i j l) else Throw undefined_behaviour.
Definition ms_count l k : nat := ms_upper l k - ms_lower l k.
Definition ms_erase_key k l : outcome (nat * list K) :=
  Ret (ms_count l k, cut (ms_lower l k) (ms_upper l k) l).
(** The offset of the first equivalent element, or [end()]. *)
Definition ms_find l k : nat :=
  match l !! ms_lower l k with
  | Some e => if cmp k e then length l else ms_lower l k
  | None => length l
  end.
Definition ms_contains l k : bool := bool_decide (ms_find l k ≠ length l).
(** [extract]: the node of the element taken out, empty if there is none. *)
Definition ms_extract_at i l : outcome (option K * list K) :=
  if decide (i < length l) then Ret (l !! i, cut i (S i) l) else Throw undefined_behaviour.
Definition ms_extract_key k l : outcome (option K * list K) :=
  let i := ms_find l k in Ret (l !! i, cut i (S i) l).
(** The loop of [erase_if]: [kept] is what the iterator has passed. *)
Fixpoint erase_if_loop (pred : K → bool) (kept l : list K) : list K :=
  match l with
  | [] => kept
  | e :: l => if pred e then erase_if_loop pred kept l else erase_if_loop pred (kept ++ [e]) l
  end.
End std_multiset.

(** ** The class *)

Definition SafeMultiSet (K : Type) : Type := Scalar (list K).

Section safemultiset.
Context {K : Type} (cmp : K → K → bool).
Implicit Types (l : list K) (k : K) (i j : nat).

(** [SafeMultiSet(owner)], the constructors from elements (no owner; value and
    copy have the elements) and the copy constructor. *)
Definition mset_owned : SafeMultiSet K := scalar_owned [].
Definition mset_of (ks : list K) : SafeMultiSet K := scalar_local (ms_insert_all cmp ks []).
Definition mset_copy (x : SafeMultiSet K) : SafeMultiSet K := scalar_local (value_ x).

(** [markAsUsed(); return value_.op(...);] *)
Definition mset_op {A} (f : list K → outcome (A * list K)) : M (SafeMultiSet K) A :=
  modify mark ;; l ← gets value_ ; r ← lift (f l) ; modify (set_value r.2) ;; mret r.1.

Definition mset_begin : M (SafeMultiSet K) nat := mset_op (λ l, Ret (0, l)).
Definition mset_end : M (SafeMultiSet K) nat := mset_op (λ l, Ret (length l, l)).
Definition mset_clear : M (SafeMultiSet K) unit := mset_op (λ _, Ret ((), [])).
Definition mset_insert k : M (SafeMultiSet K) nat := mset_op (ms_insert cmp k).
Definition mset_insert_hint i k : M (SafeMultiSet K) nat := mset_op (ms_insert_hint cmp i k).
Definition mset_insert_all (ks : list K) : M (SafeMultiSet K) unit :=
  mset_op (λ l, Ret ((), ms_insert_all cmp ks l)).
Definition mset_emplace k : M (SafeMultiSet K) nat := mset_op (ms_insert cmp k).
Definition mset_emplace_hint i k : M (SafeMultiSet K) nat := mset_op (ms_insert_hint cmp i k).
Definition mset_erase_at i : M (SafeMultiSet K) nat := mset_op (ms_erase_at i).
Definition mset_erase_range i j : M (SafeMultiSet K) nat := mset_op (ms_erase_range i j).
Definition mset_erase_key k : M (SafeMultiSet K) nat := mset_op (ms_erase_key cmp k).
Definition mset_extract_at i : M (SafeMultiSet K) (option K) := mset_op (ms_extract_at i).
Definition mset_extract_key k : M (SafeMultiSet K) (option K) := mset_op (ms_extract_key cmp k).
Definition mset_find k : M (SafeMultiSet K) nat := mset_op (λ l, Ret (ms_find cmp l k, l)).
Definition mset_erase_if (pred : K → bool) : M (SafeMultiSet K) nat :=
  mset_op (λ l, let l' := erase_if_loop pred [] l in Ret (length l - length l', l')).

(** [swap(other)] marks only this variable. *)
Definition mset_swap : M (SafeMultiSet K * SafeMultiSet K) unit :=
  modify (prod_map mark id) ;;
  modify (λ p, (set_value (value_ p.2) p.1, set_value (value_ p.1) p.2)).

(** Reading *)
Definition mset_empty (x : SafeMultiSet K) : bool := match value_ x with [] => true | _ => false end.
Definition mset_size (x : SafeMultiSet K) : nat := length (value_ x).
Definition mset_count (x : SafeMultiSet K) k : nat := ms_count cmp (value_ x) k.
Definition mset_find_const (x : SafeMultiSet K) k : nat := ms_find cmp (value_ x) k.
Definition mset_contains (x : SafeMultiSet K) k : bool := ms_contains cmp (value_ x) k.
Definition mset_lower_bound (x : SafeMultiSet K) k : nat := ms_lower cmp (value_ x) k.
Definition mset_upper_bound (x : SafeMultiSet K) k : nat := ms_upper cmp (value_ x) k.
End safemultiset.

(** ** Sorted sequences *)

Section sorted.
Context {K : Type} (cmp : K → K → bool) {SW : StrictWeak cmp}.
Implicit Types (l : list K) (k e : K) (i : nat).

Definition mset_sorted l : Prop := StronglySorted (λ a b, cmp b a = false) l.

Lemma cmp_asym a b : cmp a b = true → cmp b a = false.
Proof.
  intros H. destruct (cmp b a) eqn:E; [|done].
  pose proof (cmp_irrefl (cmp := cmp) a). pose proof (cmp_trans a b a H E). congruence.
Qed.

Lemma sorted_sublist l' l : sublist l' l → mset_sorted l → mset_sorted l'.
Proof.
  induction 1 as [|e l' l Hs IH|e l' l Hs IH]; intros Hl; [constructor| |]; inversion Hl; subst.
  - constructor; [by apply IH|]. rewrite Forall_forall in *. eauto using elem_of_sublist.
  - by apply IH.
Qed.

Lemma cut_sublist i j l : i <= j → sublist (cut i j l) l.
Proof.
  intros Hij. unfold cut. rewrite <- (take_drop i l) at 3. apply sublist_app; [done|].
  replace j with (i + (j - i)) by lia. rewrite <- drop_drop. apply sublist_drop.
Qed.

Lemma sorted_put i k l : mset_sorted l →
  Forall (λ e, cmp k e = false) (take i l) → Forall (λ e, cmp e k = false) (drop i l) →
  mset_sorted (put_at i k l).
Proof.
  revert i. induction l as [|e l IH]; intros i Hl Ht Hd.
  { unfold put_at. rewrite take_nil, drop_nil. repeat constructor. }
  inversion Hl as [|? ? Hs He]; subst. unfold put_at. destruct i as [|i]; cbn in *.
  - constructor; [done|]. apply Forall_cons in Hd as [H1 H2]. by constructor.
  - apply Forall_cons in Ht as [H1 H2]. constructor; [by apply IH|].
    apply Forall_app. split; [by apply Forall_take|]. constructor; [done|]. by apply Forall_drop.
Qed.

(** Elements before [ms_lower] are smaller than the key and the others are not;
    elements from [ms_upper] on are greater and the others are not. *)
Lemma lower_spec l k : mset_sorted l →
  Forall (λ e, cmp e k = true) (take (ms_lower cmp l k) l) ∧
  Forall (λ e, cmp e k = false) (drop (ms_lower cmp l k) l).
Proof.
  induction 1 as [|e l Hs [IH1 IH2] He]; cbn; [by split|].
  destruct (cmp e k) eqn:E; cbn; [split; [by constructor|done]|].
  split; [constructor|]. constructor; [done|]. eapply Forall_impl; [exact He|]. cbn. intros b Hb.
  destruct (cmp b k) eqn:Eb; [|done]. destruct (cmp_split b e k Eb); congruence.
Qed.

Lemma upper_spec l k : mset_sorted l →
  Forall (λ e, cmp k e = false) (take (ms_upper cmp l k) l) ∧
  Forall (λ e, cmp k e = true) (drop (ms_upper cmp l k) l).
Proof.
  induction 1 as [|e l Hs [IH1 IH2] He]; cbn; [by split|].
  destruct (cmp k e) eqn:E; cbn; [|split; [by constructor|done]].
  split; [constructor|]. constructor; [done|]. eapply Forall_impl; [exact He|]. cbn. intros b Hb.
  destruct (cmp_split k b e E); congruence.
Qed.

Lemma lower_le_upper l k : ms_lower cmp l k <= ms_upper cmp l k.
Proof.
  induction l as [|e l IH]; cbn; [done|]. destruct (cmp e k) eqn:E; [|lia].
  rewrite (cmp_asym _ _ E). lia.
Qed.

Lemma upper_le_length l k : ms_upper cmp l k <= length l.
Proof. induction l as [|e l IH]; cbn; [done|]. destruct (cmp k e); cbn; lia. Qed.

Lemma Forall_cmp_asym_l l k : Forall (λ e, cmp k e = true) l → Forall (λ e, cmp e k = false) l.
Proof. intros H. eapply Forall_impl; [exact H|]. intros e. apply cmp_asym. Qed.
Lemma Forall_cmp_asym_r l k : Forall (λ e, cmp e k = true) l → Forall (λ e, cmp k e = false) l.
Proof. intros H. eapply Forall_impl; [exact H|]. intros e. apply cmp_asym. Qed.

Lemma put_upper_sorted k l : mset_sorted l → mset_sorted (put_at (ms_upper cmp l k) k l).
Proof.
  intros Hl. destruct (upper_spec l k Hl). apply sorted_put; [done..|]. by apply Forall_cmp_asym_l.
Qed.

Lemma sorted_lookup l (i j : nat) a b : mset_sorted l → l !! i = Some a → l !! j = Some b → i <= j →
  cmp b a = false.
Proof.
  intros Hl Hi Hj Hij. destruct (decide (i = j)) as [->|Hne].
  - simplify_eq. apply cmp_irrefl.
  - apply (StronglySorted_lookup_lt _ l Hl i j a b Hi Hj). lia.
Qed.

(** Any element that is not greater, or not smaller, than the key bounds the
    elements before, or after, it. *)
Lemma before_not_greater l (i : nat) b k : mset_sorted l → l !! i = Some b → cmp k b = false →
  Forall (λ e, cmp k e = false) (take (S i) l).
Proof.
  intros Hl Hi Hb. apply Forall_lookup. intros j e Hj. apply lookup_take_Some in Hj as [Hj Hji].
  destruct (cmp k e) eqn:E; [|done].
  pose proof (sorted_lookup l j i e b Hl Hj Hi ltac:(lia)). destruct (cmp_split k b e E); congruence.
Qed.

Lemma after_not_smaller l (i : nat) b k : mset_sorted l → l !! i = Some b → cmp b k = false →
  Forall (λ e, cmp e k = false) (drop i l).
Proof.
  intros Hl Hi Hb. apply Forall_lookup. intros j e Hj. rewrite lookup_drop in Hj.
  destruct (cmp e k) eqn:E; [|done].
  pose proof (sorted_lookup l i (i + j) b e Hl Hi Hj ltac:(lia)). destruct (cmp_split e b k E); congruence.
Qed.

(** The hinted position is right, whatever the hint. *)
Lemma put_hint_sorted i k l : i <= length l → mset_sorted l → mset_sorted (put_at (ms_hint_pos cmp i k l) k l).
Proof.
  intros Hi Hl. unfold ms_hint_pos. case_match eqn:Eb; [by apply put_upper_sorted|].
  assert (Ht : Forall (λ e, cmp k e = false) (take i l)).
  { destruct i as [|j]; [constructor|]. destruct (lookup_lt_is_Some_2 l j) as [b Hb]; [lia|].
    rewrite Hb in Eb. by apply (before_not_greater l j b). }
  destruct (l !! i) as [e|] eqn:Ei.
  - destruct (cmp e k) eqn:Ee.
    + destruct (lower_spec l k Hl). apply sorted_put; [done| |done]. by apply Forall_cmp_asym_r.
    + apply sorted_put; [done..|]. by apply (after_not_smaller l i e).
  - apply sorted_put; [done..|]. apply lookup_ge_None in Ei. by rewrite drop_ge.
Qed.
End sorted.

(** ** The interface: a bag of keys kept in order *)

Section spec.
Context {K : Type} (cmp : K → K → bool) {SW : StrictWeak cmp}.
Implicit Types (l : list K) (k e : K) (i j : nat) (x : SafeMultiSet K).

Lemma put_at_perm i k l : put_at i k l ≡ₚ k :: l.
Proof. unfold put_at. rewrite <- Permutation_middle. by rewrite take_drop. Qed.

Lemma cut_one_perm i e l : l !! i = Some e → e :: cut i (S i) l ≡ₚ l.
Proof.
  intros Hi. unfold cut. rewrite Permutation_middle. by rewrite take_drop_middle.
Qed.

(** The sequence falls into smaller, equivalent and greater elements. *)
Lemma sorted_split l k : mset_sorted cmp l → ∃ a m b,
  l = a ++ m ++ b ∧ length a = ms_lower cmp l k ∧ length (a ++ m) = ms_upper cmp l k ∧
  Forall (λ e, cmp e k = true) a ∧ Forall (λ e, equivalent cmp k e = true) m ∧
  Forall (λ e, cmp k e = true) b.
Proof.
  intros Hl. pose proof (lower_le_upper cmp l k) as Hlu. pose proof (upper_le_length cmp l k) as Hu.
  destruct (lower_spec cmp l k Hl) as [L1 L2]. destruct (upper_spec cmp l k Hl) as [U1 U2].
  set (lo := ms_lower cmp l k) in *. set (up := ms_upper cmp l k) in *.
  exists (take lo l), (take (up - lo) (drop lo l)), (drop up l). split_and!.
  - replace up with (lo + (up - lo)) at 2 by lia. rewrite <- drop_drop. by rewrite !take_drop.
  - rewrite length_take. lia.
  - rewrite length_app, !length_take, length_drop. lia.
  - done.
  - apply Forall_lookup. intros i e Hi. apply lookup_take_Some in Hi as [Hi Hlt]. unfold equivalent.
    rewrite Forall_lookup in L2, U1. rewrite (L2 i e Hi).
    rewrite (U1 (lo + i) e); [done|]. rewrite lookup_drop in Hi. apply lookup_take_Some. split; [done|lia].
  - done.
Qed.

(** What a call promises to a client that sees the bag only. *)
Inductive MsetOp :=
| MInsert k | MInsertHint i k | MInsertAll (ks : list K) | MEraseAt i | MEraseRange i j | MEraseKey k
| MExtractAt i | MExtractKey k | MEraseIf (pred : K → bool) | MFind k | MBegin | MEnd | MClear.

Definition mset_run (op : MsetOp) : M (SafeMultiSet K) unit :=
  match op with
  | MInsert k => mset_insert cmp k ;; mret ()
  | MInsertHint i k => mset_insert_hint cmp i k ;; mret ()
  | MInsertAll ks => mset_insert_all cmp ks ;; mret ()
  | MEraseAt i => mset_erase_at i ;; mret ()
  | MEraseRange i j => mset_erase_range i j ;; mret ()
  | MEraseKey k => mset_erase_key cmp k ;; mret ()
  | MExtractAt i => mset_extract_at i ;; mret ()
  | MExtractKey k => mset_extract_key cmp k ;; mret ()
  | MEraseIf pred => mset_erase_if pred ;; mret ()
  | MFind k => mset_find cmp k ;; mret ()
  | MBegin => mset_begin ;; mret ()
  | MEnd => mset_end ;; mret ()
  | MClear => mset_clear ;; mret ()
  end.

Definition bag_spec (op : MsetOp) (l l' : list K) : Prop :=
  match op with
  | MInsert k | MInsertHint _ k => l' ≡ₚ k :: l
  | MInsertAll ks => l' ≡ₚ ks ++ l
  | MEraseAt i | MExtractAt i => ∃ e, l !! i = Some e ∧ e :: l' ≡ₚ l
  | MEraseRange i j => take (j - i) (drop i l) ++ l' ≡ₚ l
  | MEraseKey k => l' = filter (λ e, equivalent cmp k e = false) l
  | MExtractKey k =>
      (∃ e, e ∈ l ∧ equivalent cmp k e = true ∧ e :: l' ≡ₚ l) ∨
      (l' = l ∧ Forall (λ e, equivalent cmp k e = false) l)
  | MEraseIf pred => l' = filter (λ e, pred e = false) l
  | MFind _ | MBegin | MEnd => l' = l
  | MClear => l' = []
  end.

Lemma equivalent_smaller k e : cmp e k = true → equivalent cmp k e = false.
Proof. intros H. unfold equivalent. rewrite H. apply andb_false_r. Qed.
Lemma equivalent_greater k e : cmp k e = true → equivalent cmp k e = false.
Proof. intros H. unfold equivalent. by rewrite H. Qed.


Lemma erase_key_filter l k : mset_sorted cmp l →
  cut (ms_lower cmp l k) (ms_upper cmp l k) l = filter (λ e, equivalent cmp k e = false) l.
Proof.
  intros Hl. destruct (sorted_split l k Hl) as (a & m & b & El & Ha & Hm & Fa & Fm & Fb).
  rewrite <- Ha, <- Hm. unfold cut. rewrite El at 1 2.
  rewrite take_app_length, (assoc_L (++)), drop_app_length.
  rewrite El, !filter_app. rewrite (filter_all _ a), (filter_none _ m), (filter_all _ b); [done|..].
  - eapply Forall_impl; [exact Fb|]. intros e. apply equivalent_greater.
  - eapply Forall_impl; [exact Fm|]. cbn. congruence.
  - eapply Forall_impl; [exact Fa|]. intros e. apply equivalent_smaller.
Qed.

Lemma find_spec l k : mset_sorted cmp l →
  (∃ e, l !! ms_find cmp l k = Some e ∧ equivalent cmp k e = true ∧
    ∀ (j : nat) e', l !! j = Some e' → equivalent cmp k e' = true → ms_find cmp l k <= j) ∨
  (ms_find cmp l k = length l ∧ Forall (λ e, equivalent cmp k e = false) l).
Proof.
  intros Hl. destruct (sorted_split l k Hl) as (a & m & b & El & Ha & Hm & Fa & Fm & Fb).
  unfold ms_find. rewrite <- Ha. assert (Hlook : l !! length a = (m ++ b) !! 0).
  { by rewrite El, lookup_app_r, Nat.sub_diag. }
  rewrite Hlook. destruct m as [|e m]; cbn.
  - right. assert (Hall : Forall (λ e, equivalent cmp k e = false) l).
    { rewrite El. cbn. apply Forall_app. split; (eapply Forall_impl; [eassumption|]); intros e;
        [apply equivalent_smaller | apply equivalent_greater]. }
    destruct b as [|e b]; cbn; [done|]. apply Forall_cons in Fb as [-> _]. done.
  - left. exists e. apply Forall_cons in Fm as [He _].
    assert (cmp k e = false) as -> by (unfold equivalent in He; by destruct (cmp k e)).
    split_and!; [done|done|]. intros j e' Hj Heq. destruct (decide (length a <= j)) as [?|Hlt]; [done|].
    rewrite El, lookup_app_l in Hj by lia. rewrite Forall_lookup in Fa.
    rewrite (equivalent_smaller k e') in Heq; [done|]. by eapply Fa.
Qed.

Lemma erase_if_loop_filter pred kept l :
  erase_if_loop pred kept l = kept ++ filter (λ e, pred e = false) l.
Proof.
  revert kept. induction l as [|e l IH]; intros kept; cbn [erase_if_loop]; [by rewrite app_nil_r|].
  rewrite filter_cons. destruct (pred e) eqn:E; rewrite IH; case_decide; try congruence.
  by rewrite <- (assoc_L (++)).
Qed.

Lemma insert_all_spec ks l : mset_sorted cmp l →
  mset_sorted cmp (ms_insert_all cmp ks l) ∧ ms_insert_all cmp ks l ≡ₚ ks ++ l.
Proof.
  revert l. induction ks as [|k ks IH]; intros l Hl; [done|]. unfold ms_insert_all in *. cbn [foldl].
  destruct (IH (put_at (ms_upper cmp l k) k l)) as [IH1 IH2]; [by apply put_upper_sorted|].
  split; [done|]. rewrite IH2, put_at_perm. by rewrite <- Permutation_middle.
Qed.

(** An operation of the class runs a list function on the value. *)
Lemma mset_op_spec {A} (f : list K → outcome (A * list K)) (P : list K → Prop) x :
  match f (value_ x) with Ret r => P r.2 | Throw e => e = undefined_behaviour end →
  match (mset_op f ;; mret ()) x with
  | (Ret _, x') => P (value_ x')
  | (Throw e, x') => e = undefined_behaviour ∧ value_ x' = value_ x
  end.
Proof. unfold mset_op. cbv [mbind M_bind modify gets lift mret M_ret]. by destruct (f _) as [[a l]|e]. Qed.

Lemma mset_op_safe {A} (f : list K → outcome (A * list K)) : safe_op (mset_op f ;; mret ()).
Proof.
  intros x. pose proof (mark_assign_safe (r ← f (value_ x) ; Ret r.2) x) as H.
  unfold mset_op, mark_assign in *. cbv [mbind M_bind modify gets lift mret M_ret outcome_bind] in *.
  by destruct (f _) as [[a l]|e].
Qed.

Lemma mset_run_safe op : safe_op (mset_run op).
Proof. destruct op; apply mset_op_safe. Qed.

Definition mset_run_all (ops : list MsetOp) x : SafeMultiSet K := fold_left (λ x op, (mset_run op x).2) ops x.
End spec.
Arguments MsetOp : clear implicits.

(** ** The properties of [SafeMultiSet] *)

(** For any strict weak order, a [SafeMultiSet] refines a bag of keys: every
    operation (insertion with and without hint, of ranges, erasure by iterator,
    range, key or predicate, extraction, lookup) on an ordered sequence keeps it
    ordered and changes the bag of elements exactly as the operation promises;
    an iterator that is not one of the set is the only way to fail, without
    effect. *)
Theorem multiset_refines_bag {K} (cmp : K → K → bool) {SW : StrictWeak cmp} (op : MsetOp K) (x : SafeMultiSet K) :
  mset_sorted cmp (value_ x) →
  match mset_run cmp op x with
  | (Ret _, x') => mset_sorted cmp (value_ x') ∧ bag_spec cmp op (value_ x) (value_ x')
  | (Throw e, x') => e = undefined_behaviour ∧ value_ x' = value_ x
  end.
Proof.
  intros Hl. pose proof (λ i j l, sorted_sublist cmp _ l ∘ cut_sublist i j l) as Hcut. set (l := value_ x) in *.
  destruct op;
    match goal with |- context [bag_spec cmp ?o _ _] =>
      apply (mset_op_spec _ (λ l', mset_sorted cmp l' ∧ bag_spec cmp o l l')) end; fold l; cbn.
  - split; [by apply put_upper_sorted | apply put_at_perm].
  - unfold ms_insert_hint. case_decide; [|done]. split; [by apply put_hint_sorted | apply put_at_perm].
  - by apply insert_all_spec.
  - unfold ms_erase_at. case_decide as Hi; [|done]. split; [apply Hcut; [lia|done]|].
    destruct (lookup_lt_is_Some_2 l i Hi) as [e He]. exists e. split; [done | by apply cut_one_perm].
  - unfold ms_erase_range. case_decide as Hi; [|done]. split; [apply Hcut; [lia|done]|].
    unfold cut. cbn. rewrite Permutation_app_swap_app.
    replace j with (i + (j - i)) at 2 by lia. rewrite <- drop_drop. by rewrite !take_drop.
  - split; [apply Hcut; [exact (lower_le_upper cmp l k)|done] | by apply erase_key_filter].
  - unfold ms_extract_at. case_decide as Hi; [|done]. split; [apply Hcut; [lia|done]|].
    destruct (lookup_lt_is_Some_2 l i Hi) as [e He]. exists e. split; [done | by apply cut_one_perm].
  - split; [apply Hcut; [lia|done]|]. destruct (find_spec cmp l k Hl) as [(e & He & Heq & _)|[He Hno]].
    + left. exists e. split_and!; [by eapply list_elem_of_lookup_2|done|]. by apply cut_one_perm.
    + right. rewrite He. unfold cut. rewrite take_ge, drop_ge by lia. by rewrite app_nil_r.
  - rewrite erase_if_loop_filter. cbn. split; [|done]. eapply sorted_sublist; [|exact Hl]. apply sublist_filter.
  - done.
  - done.
  - done.
  - split; [constructor|done].
Qed.

(** The queries of an ordered [SafeMultiSet] are exact: [count] is the number
    of equivalent elements, [find] the first of them or [end()], [contains] says
    whether there is one, and the bounds delimit them. *)
Theorem multiset_queries_exact {K} (cmp : K → K → bool) {SW : StrictWeak cmp} (x : SafeMultiSet K) k :
  mset_sorted cmp (value_ x) →
  let eqv := filter (λ e, equivalent cmp k e = true) (value_ x) in
  mset_count cmp x k = length eqv ∧
  (mset_contains cmp x k = true ↔ eqv ≠ []) ∧
  value_ x !! mset_find_const cmp x k = head eqv ∧
  take (mset_count cmp x k) (drop (mset_lower_bound cmp x k) (value_ x)) = eqv ∧
  mset_lower_bound cmp x k + mset_count cmp x k = mset_upper_bound cmp x k.
Proof.
  intros Hl eqv. unfold mset_count, mset_contains, mset_find_const, mset_lower_bound, mset_upper_bound.
  destruct (sorted_split cmp (value_ x) k Hl) as (a & m & b & El & Ha & Hm & Fa & Fm & Fb).
  set (l := value_ x) in *. assert (Heqv : eqv = m).
  { unfold eqv. rewrite El, !filter_app. rewrite (filter_none _ a), (filter_all _ m), (filter_none _ b).
    - cbn. by rewrite app_nil_r.
    - eapply Forall_impl; [exact Fb|]. intros e He. by rewrite equivalent_greater.
    - done.
    - eapply Forall_impl; [exact Fa|]. intros e He. by rewrite equivalent_smaller. }
  rewrite length_app in Hm. assert (Hc : ms_count cmp l k = length m) by (unfold ms_count; lia).
  rewrite Heqv, Hc. split_and!; [done| | | |lia].
  - unfold ms_contains. rewrite bool_decide_eq_true.
    destruct (find_spec cmp l k Hl) as [(e & He & Heq & _)|[He Hno]].
    + apply lookup_lt_Some in He as Hlt. split; [|lia]. intros _ ->. rewrite <- Heqv in *.
      assert (e ∈ eqv) as Hin; [|by rewrite Heqv in Hin; apply not_elem_of_nil in Hin].
      apply list_elem_of_filter. split; [done|]. by eapply list_elem_of_lookup_2.
    + rewrite He. split; [done|]. intros Hne. destruct Hne. rewrite <- Heqv. apply filter_none.
      eapply Forall_impl; [exact Hno|]. cbn. congruence.
  - unfold ms_find. rewrite <- Ha. assert (Hlook : l !! length a = (m ++ b) !! 0).
    { by rewrite El, lookup_app_r, Nat.sub_diag. }
    rewrite Hlook. destruct m as [|e m]; cbn.
    + destruct b as [|e b]; cbn; [by apply lookup_ge_None_2|].
      apply Forall_cons in Fb as [-> _]. by apply lookup_ge_None_2.
    + apply Forall_cons in Fm as [He _]. unfold equivalent in He. destruct (cmp k e); [done|]. done.
  - rewrite <- Ha, El, drop_app_length. apply take_app_length.
Qed.

(** Any sequence of operations is undone by [revert]. *)
Lemma mset_ops_revert {K} (cmp : K → K → bool) ops (x : SafeMultiSet K) o : scalar_rel o x →
  (scalar_revert (mset_run_all cmp ops x)).1 = Ret () ∧ value_ (scalar_revert (mset_run_all cmp ops x)).2 = o.
Proof.
  intros Hx. assert (Hr : scalar_rel o (mset_run_all cmp ops x)).
  { revert x Hx. induction ops as [|op ops IH]; intros x Hx; [done|]. apply IH. by apply (mset_run_safe cmp op x). }
  destruct Hr as [<- _]. done.
Qed.

(** [swap] does not mark the other set: it stays unregistered, so the host
    neither commits nor reverts it, and after a revert of everything that was
    registered it keeps the elements of the first set. *)
Lemma mset_swap_unregistered {K} (x y : SafeMultiSet K) :
  let '(x', y') := (mset_swap (x, y)).2 in
  sc_base y' = sc_base y ∧ value_ y' = value_ x ∧ copy_ y' = copy_ y ∧
  value_ (scalar_revert x').2 = copy_ x.
Proof. done. Qed.

#[export] Instance nat_strict : @StrictWeak nat Nat.ltb.
Proof. split; intros; rewrite ?Nat.ltb_lt, ?Nat.ltb_irrefl in *; lia || done. Qed.

Definition demo_mset : SafeMultiSet nat := mset_of Nat.ltb [5; 2; 9; 2].

Lemma multiset_refines_bag_witness :
  let x' := (mset_run Nat.ltb (MInsertHint 4 3) demo_mset).2 in
  value_ x' = [2; 2; 3; 5; 9] ∧ value_ x' ≡ₚ 3 :: value_ demo_mset.
Proof.
  intros x'. split; [vm_compute; reflexivity|].
  apply (multiset_refines_bag Nat.ltb (MInsertHint 4 3) demo_mset).
  vm_compute. repeat constructor.
Defined.

Lemma multiset_queries_exact_witness :
  mset_count Nat.ltb demo_mset 2 = 2 ∧
  mset_count Nat.ltb demo_mset 2 = length (filter (λ e, equivalent Nat.ltb 2 e = true) (value_ demo_mset)).
Proof.
  split; [vm_compute; reflexivity|].
  apply (multiset_queries_exact Nat.ltb demo_mset 2). vm_compute. repeat constructor.
Defined.
