(* ===== verification/SafeBytes.v ===== *)
(** * [SafeBytes]

    Models src/contract/variables/safebytes.h, which is the code of
    [SafeVector] written again for [std::vector<uint8_t>]: same undo records,
    same stack, same full copy.  The operations here are those of SafeVector at
    bytes; the only difference is that new bytes of [resize(count)] are zero and
    that the class has no assignment operator. *)

From S2P Require Import Prelude SafeBase SafeVector.

Definition SafeBytes : Type := SafeVector Z.

Definition bytes_owned (l : list Z) : SafeBytes := vec_owned l.
Definition bytes_local (l : list Z) : SafeBytes := vec_local l.
Definition bytes_processUndoStack : list (UndoOp Z) → list Z → outcome (list Z) := processUndoStack.

Definition bytes_assign_count (n : nat) (v : Z) : M SafeBytes unit := vec_assign_count n v.
Definition bytes_assign (l : list Z) : M SafeBytes unit := vec_assign_range l.
Definition bytes_clear : M SafeBytes unit := vec_clear.
Definition bytes_at (i : nat) : M SafeBytes Z := vec_at i.
Definition bytes_index (i : nat) : M SafeBytes Z := vec_index i.
Definition bytes_front : M SafeBytes Z := vec_front.
Definition bytes_back : M SafeBytes Z := vec_back.
Definition bytes_reserve : M SafeBytes unit := vec_reserve.
Definition bytes_shrink_to_fit : M SafeBytes unit := vec_shrink_to_fit.
Definition bytes_insert (i : nat) (v : Z) : M SafeBytes unit := vec_insert i v.
Definition bytes_insert_count (i n : nat) (v : Z) : M SafeBytes unit := vec_insert_count i n v.
Definition bytes_insert_range (i : nat) (vs : list Z) : M SafeBytes unit := vec_insert_range i vs.
Definition bytes_emplace (i : nat) (v : Z) : M SafeBytes unit := vec_emplace i v.
Definition bytes_erase (i : nat) : M SafeBytes unit := vec_erase i.
Definition bytes_erase_range (i n : nat) : M SafeBytes unit := vec_erase_range i n.
Definition bytes_push_back (v : Z) : M SafeBytes unit := vec_push_back v.
Definition bytes_emplace_back (v : Z) : M SafeBytes unit := vec_emplace_back v.
Definition bytes_pop_back : M SafeBytes unit := vec_pop_back.
Definition bytes_resize (n : nat) : M SafeBytes unit := vec_resize n 0.
Definition bytes_resize_fill (n : nat) (v : Z) : M SafeBytes unit := vec_resize n v.
Definition bytes_commit : M SafeBytes unit := vec_commit.
Definition bytes_revert : M SafeBytes unit := vec_revert.
