(* ===== verification/ERC20.v ===== *)
(** * The ERC-20 contract

    Models src/contract/templates/standards/erc20.cpp and the contracts built on
    it (mintableerc20.cpp, the token part of nativewrapper.cpp) over the safe
    variables they are made of.  [erc_call] is a call as the host runs it: a call
    that returns commits the variables, a call that throws reverts them.  Name,
    symbol and decimals never change after construction and are left out, as are
    the test helpers [generate] and [addall]; the database form is in [TokenStore]. *)

From S2P Require Import Prelude CheckedInt SafeBase SafeScalars SafeUint SafeMap.

(** The events of the token. *)
Inductive ERC20Event :=
| Transfer (from to : Address) (value : Z)
| Approval (owner spender : Address) (value : Z).

Record ERC20 := mkERC20 {
  totalSupply_ : SafeUint_t;
  balances_ : SafeMap Address Z;
  allowed_ : SafeMap Address (gmap Address Z);
  erc_events : list ERC20Event;
}.

Definition set_supply v s := mkERC20 v (balances_ s) (allowed_ s) (erc_events s).
Definition set_balances v s := mkERC20 (totalSupply_ s) v (allowed_ s) (erc_events s).
Definition set_allowed v s := mkERC20 (totalSupply_ s) (balances_ s) v (erc_events s).
Definition set_events v s := mkERC20 (totalSupply_ s) (balances_ s) (allowed_ s) v.

Section erc20.
Context {BI : BoostInt}.

Definition emit (e : ERC20Event) : M ERC20 unit := modify (λ s, set_events (erc_events s ++ [e]) s).

(** [balances_[a] op= ...]: the reference of [operator[]], then the checked
    operation of the [uint256_t]. *)
Definition balance_update (f : Z → outcome Z) (a : Address) : M ERC20 unit :=
  zoom balances_ set_balances (v ← map_index 0 a; v' ← lift (f v); map_write a v').
Definition balance_add (a : Address) (value : Z) : M ERC20 unit :=
  balance_update (λ v, uadd 256 v value) a.
Definition balance_sub (a : Address) (value : Z) : M ERC20 unit :=
  balance_update (λ v, usub 256 v value) a.

Definition supply_add (value : Z) : M ERC20 unit :=
  zoom totalSupply_ set_supply (uint_add_assign_uint 256 value).
Definition supply_sub (value : Z) : M ERC20 unit :=
  zoom totalSupply_ set_supply (uint_sub_assign_uint 256 value).

(** [mintValue_], which emits no event, [mint_] and [burnValue_]. *)
Definition mintValue_ (a : Address) (value : Z) : M ERC20 unit :=
  balance_add a value ;; supply_add value.
Definition mint_ (a : Address) (value : Z) : M ERC20 unit :=
  balance_add a value ;; supply_add value ;; emit (Transfer 0 a value).
Definition burnValue_ (a : Address) (value : Z) : M ERC20 unit :=
  balance_sub a value ;; supply_sub value ;; emit (Transfer a 0 value).

Definition totalSupply (s : ERC20) : Z := value_ (totalSupply_ s).
Definition balanceOf (owner : Address) (s : ERC20) : Z := default 0 (sm_value (balances_ s) !! owner).
Definition allowance (owner spender : Address) (s : ERC20) : Z :=
  default 0 (default ∅ (sm_value (allowed_ s) !! owner) !! spender).

Definition transfer (caller to : Address) (value : Z) : M ERC20 bool :=
  balance_sub caller value ;;
  balance_add to value ;;
  emit (Transfer caller to value) ;;
  mret true.

Definition approve (caller spender : Address) (value : Z) : M ERC20 bool :=
  zoom allowed_ set_allowed
    (inner ← map_index ∅ caller; map_write caller (<[spender := value]> inner)) ;;
  emit (Approval caller spender value) ;;
  mret true.

(** [allowed_[from][caller] -= value]: the inner [operator[]] inserts a zero
    before the subtraction can throw. *)
Definition spend_allowance (from caller : Address) (value : Z) : M ERC20 unit :=
  zoom allowed_ set_allowed
    (inner ← map_index ∅ from;
     let old := default 0 (inner !! caller) in
     map_write from (<[caller := old]> inner) ;;
     v ← lift (usub 256 old value);
     map_write from (<[caller := v]> inner)).

Definition transferFrom (caller from to : Address) (value : Z) : M ERC20 bool :=
  spend_allowance from caller value ;;
  balance_sub from value ;;
  balance_add to value ;;
  emit (Transfer from to value) ;;
  mret true.

(** [ERC20Mintable::mint], guarded by [onlyOwner], and [ERC20Mintable::burn]. *)
Definition mintable_mint (owner caller to : Address) (amount : Z) : M ERC20 unit :=
  throw_if (negb (owner =? caller)) (DynamicException "Ownable: caller is not the owner") ;;
  mint_ to amount.
Definition mintable_burn (caller : Address) (amount : Z) : M ERC20 unit :=
  b ← gets (balanceOf caller);
  throw_if (b <? amount) (DynamicException "Not enough balance to burn") ;;
  burnValue_ caller amount.

(** ** Calls *)

Inductive ERC20Op :=
| OTransfer (caller to : Address) (value : Z)
| OApprove (caller spender : Address) (value : Z)
| OTransferFrom (caller from to : Address) (value : Z)
| OMint (owner caller to : Address) (amount : Z)
| OBurn (caller : Address) (amount : Z)
| ODeposit (caller : Address) (value : Z)
| OWithdraw (caller : Address) (value : Z).

(** [NativeWrapper::deposit] mints the value of the call; the token part of
    [withdraw] burns. *)
Definition erc_op (o : ERC20Op) : M ERC20 unit :=
  match o with
  | OTransfer caller to value => transfer caller to value ;; mret ()
  | OApprove caller spender value => approve caller spender value ;; mret ()
  | OTransferFrom caller from to value => transferFrom caller from to value ;; mret ()
  | OMint owner caller to amount => mintable_mint owner caller to amount
  | OBurn caller amount => mintable_burn caller amount
  | ODeposit caller value => mint_ caller value
  | OWithdraw caller value => burnValue_ caller value
  end.

(** The end of the execution for the contract's variables; the constructors call
    [commit] themselves. *)
Definition erc_commit : M ERC20 unit :=
  zoom totalSupply_ set_supply scalar_commit ;;
  zoom balances_ set_balances map_commit ;;
  zoom allowed_ set_allowed map_commit.
Definition erc_revert : M ERC20 unit :=
  zoom totalSupply_ set_supply scalar_revert ;;
  zoom balances_ set_balances map_revert ;;
  zoom allowed_ set_allowed map_revert.

(** The constructor: mint to the creator, commit, enable registration. *)
Definition ERC20_new (creator : Address) (mintValue : Z) : outcome ERC20 :=
  let blank := mkERC20 (scalar_owned 0) (map_owned ∅) (map_owned ∅) [] in
  match (mintValue_ creator mintValue ;; erc_commit) blank with
  | (Ret _, s) =>
      let t := totalSupply_ s in let b := balances_ s in let a := allowed_ s in
      Ret (mkERC20 (mkScalar (enableRegister (sc_base t)) (value_ t) (copy_ t))
        (mkSafeMap (enableRegister (sm_base b)) (sm_value b) (sm_copy b))
        (mkSafeMap (enableRegister (sm_base a)) (sm_value a) (sm_copy a)) (erc_events s))
  | (Throw e, _) => Throw e
  end.

(** A call: its events are dropped with its changes when it throws. *)
Definition erc_call {A} (m : M ERC20 A) : M ERC20 A := λ s,
  match m s with
  | (Ret a, s') => let '(r, s2) := erc_commit s' in (r ;; Ret a, s2)
  | (Throw e, s') => let '(r, s2) := erc_revert s' in (r ;; Throw e, set_events (erc_events s) s2)
  end.

Definition erc_run (ops : list ERC20Op) (s : ERC20) : ERC20 :=
  fold_left (λ s o, (erc_call (erc_op o) s).2) ops s.

(** ** What each step does *)

Lemma balance_update_run f a s :
  balance_update f a s =
    match f (balanceOf a s) with
    | Ret v => (Ret (), set_balances (touch a v (balances_ s)) s)
    | Throw e => (Throw e, set_balances (touch a (balanceOf a s) (balances_ s)) s)
    end.
Proof.
  unfold balance_update, zoom, balanceOf. unfold mbind, M_bind.
  rewrite map_index_touch. unfold lift.
  destruct (f _) as [v|e]; [by rewrite map_write_touch|done].
Qed.

Lemma spend_allowance_run from caller value s :
  let old := allowance from caller s in
  let inner := default ∅ (sm_value (allowed_ s) !! from) in
  let after v := set_allowed (touch from (<[caller := v]> inner) (allowed_ s)) s in
  spend_allowance from caller value s =
    match usub 256 old value with
    | Ret v => (Ret (), after v)
    | Throw e => (Throw e, after old)
    end.
Proof.
  cbv zeta. unfold spend_allowance, zoom, allowance. unfold mbind, M_bind.
  rewrite map_index_touch, map_write_touch. unfold lift.
  destruct (usub _ _ _) as [v|e]; [by rewrite map_write_touch|done].
Qed.

Lemma approve_run caller spender value s :
  approve caller spender value s =
    (Ret true, set_events (erc_events s ++ [Approval caller spender value])
      (set_allowed (touch caller (<[spender := value]> (default ∅ (sm_value (allowed_ s) !! caller)))
        (allowed_ s)) s)).
Proof.
  unfold approve, zoom, mbind, M_bind. by rewrite map_index_touch, map_write_touch.
Qed.

(** ** Every operation keeps the committed values *)

Definition erc_le (s s' : ERC20) : Prop :=
  sv_le (totalSupply_ s) (totalSupply_ s') ∧ sv_le (balances_ s) (balances_ s') ∧
  sv_le (allowed_ s) (allowed_ s').

#[local] Instance erc_le_preorder : PreOrder erc_le.
Proof.
  split; [intros s; unfold erc_le; split_and!; reflexivity|].
  intros s1 s2 s3 (?&?&?) (?&?&?). unfold erc_le. split_and!; by etrans.
Qed.

Lemma balance_update_le f a : preserves erc_le (balance_update f a).
Proof.
  intros s. rewrite balance_update_run.
  destruct (f _); split_and!; try reflexivity; apply touch_le.
Qed.

Lemma spend_allowance_le from caller value : preserves erc_le (spend_allowance from caller value).
Proof.
  intros s. rewrite spend_allowance_run.
  destruct (usub _ _ _); split_and!; try reflexivity; apply touch_le.
Qed.

Lemma approve_le caller spender value : preserves erc_le (approve caller spender value).
Proof. intros s. rewrite approve_run. split_and!; try reflexivity. apply touch_le. Qed.

Lemma supply_le (m : M SafeUint_t unit) : safe_op m → preserves erc_le (zoom totalSupply_ set_supply m).
Proof.
  intros Hm s. specialize (Hm (totalSupply_ s)). unfold zoom.
  destruct (m (totalSupply_ s)) as [r t]. split_and!; try reflexivity. exact Hm.
Qed.

Lemma emit_le e : preserves erc_le (emit e).
Proof. intros s. split_and!; reflexivity. Qed.

Lemma supply_add_le v : preserves erc_le (supply_add v).
Proof. apply supply_le, (uint_run_safe 256 (UAdd v)). Qed.
Lemma supply_sub_le v : preserves erc_le (supply_sub v).
Proof. apply supply_le, (uint_run_safe 256 (USub v)). Qed.

#[local] Ltac solve_erc_le :=
  repeat first
    [ apply balance_update_le | apply spend_allowance_le | apply approve_le | apply emit_le
    | apply supply_add_le | apply supply_sub_le
    | apply preserves_ret; apply _ | apply preserves_gets; apply _ | apply preserves_throw_if; apply _
    | apply preserves_bind; [apply _| |intros ?] ].

Lemma transferFrom_le caller from to value : preserves erc_le (transferFrom caller from to value).
Proof. unfold transferFrom, balance_add, balance_sub. solve_erc_le. Qed.

Lemma erc_op_le o : preserves erc_le (erc_op o).
Proof.
  destruct o; cbn [erc_op];
    unfold transfer, transferFrom, mintable_mint, mintable_burn, mint_, burnValue_, balance_add, balance_sub;
    solve_erc_le.
Qed.

(** ** Calls *)

Definition same_values (s s' : ERC20) : Prop :=
  totalSupply s' = totalSupply s ∧ sm_value (balances_ s') = sm_value (balances_ s) ∧
  sm_value (allowed_ s') = sm_value (allowed_ s).

(** Between calls every variable holds its committed value. *)
Definition erc_clean (s : ERC20) : Prop :=
  scalar_rel (totalSupply s) (totalSupply_ s) ∧ map_rel (sm_value (balances_ s)) (balances_ s) ∧
  map_rel (sm_value (allowed_ s)) (allowed_ s).

(** A call that returns keeps what it did, one that throws leaves no trace. *)
Lemma erc_call_spec {A} (m : M ERC20 A) s : preserves erc_le m → erc_clean s →
  ∃ s2, (erc_call m s).2 = s2 ∧ erc_clean s2 ∧ (erc_call m s).1 = (m s).1 ∧
    let s1 := match (m s).1 with Ret _ => (m s).2 | Throw _ => s end in
    same_values s1 s2 ∧ erc_events s2 = erc_events s1.
Proof.
  intros Hm (Ht & Hb & Ha). specialize (Hm s). unfold erc_call.
  destruct (m s) as [r s1]. cbn [fst snd] in *. destruct Hm as ((Lt & _) & (Lb & _) & (La & _)).
  specialize (Lt _ Ht). specialize (Lb _ Hb). specialize (La _ Ha).
  eexists. split; [reflexivity|]. destruct r as [a|e]; cbn.
  - destruct (@sv_commit_ok _ _ scalar_var _ _ Lt) as (t' & Et & Gt & Rt & _).
    destruct (@sv_commit_ok _ _ map_var _ _ Lb) as (b' & Eb & Gb & Rb & _).
    destruct (@sv_commit_ok _ _ map_var _ _ La) as (a' & Ea & Ga & Ra & _).
    injection Et as <-. injection Eb as <-. injection Ea as <-.
    split_and!; [split_and!; [exact Rt|exact Rb|exact Ra]|done..].
  - destruct (@sv_revert_ok _ _ scalar_var _ _ Lt) as (t' & Et & Gt & Rt & _).
    destruct (@sv_revert_ok _ _ map_var _ _ Lb) as (b' & Eb & Gb & Rb & _).
    destruct (@sv_revert_ok _ _ map_var _ _ La) as (a' & Ea & Ga & Ra & _).
    injection Et as <-. injection Eb as <-. injection Ea as <-. cbn in Gt, Gb, Ga.
    split_and!; [|done|split_and!; [exact Gt|exact Gb|exact Ga]|done].
    rewrite <- Gt in Rt. rewrite <- Gb in Rb. rewrite <- Ga in Ra.
    split_and!; [exact Rt|exact Rb|exact Ra].
Qed.

(** ** The invariant: the balances sum up to the supply *)

Lemma msum_bound (m : gmap Address Z) a b : (∀ k, 0 ≤ default 0 (m !! k)) →
  a ≠ b → default 0 (m !! a) + default 0 (m !! b) ≤ msum m ∧ default 0 (m !! a) ≤ msum m.
Proof.
  intros Hpos Hab.
  assert (Hle : ∀ m : gmap Address Z, (∀ k, 0 ≤ default 0 (m !! k)) → 0 ≤ msum m).
  { intros m'. induction m' as [|k v m' Hk IH] using map_ind; intros Hm; [done|].
    rewrite msum_insert_None by done. pose proof (Hm k) as Hv. rewrite lookup_insert_eq in Hv.
    assert (0 ≤ msum m'); [|cbn in Hv; lia]. apply IH. intros j.
    destruct (decide (j = k)) as [->|Hne]; [by rewrite Hk|].
    specialize (Hm j). by rewrite lookup_insert_ne in Hm. }
  assert (Hsum : msum (<[b := 0]> (<[a := 0]> m)) = msum m - default 0 (m !! a) - default 0 (m !! b)).
  { rewrite !msum_insert, lookup_insert_ne by done. lia. }
  pose proof (Hpos b). assert (0 ≤ msum (<[b := 0]> (<[a := 0]> m))); [|lia].
  apply Hle. intros k. destruct (decide (k = b)) as [->|]; [by rewrite lookup_insert_eq|].
  rewrite lookup_insert_ne by done.
  destruct (decide (k = a)) as [->|]; [by rewrite lookup_insert_eq|]. by rewrite lookup_insert_ne.
Qed.

Lemma balanceOf_touch a b v s :
  balanceOf b (set_balances (touch a v (balances_ s)) s) = if decide (b = a) then v else balanceOf b s.
Proof. unfold balanceOf. cbn. case_decide; [subst; by rewrite lookup_insert_eq|by rewrite lookup_insert_ne]. Qed.

Lemma msum_touch a v s :
  msum (sm_value (touch a v (balances_ s))) = msum (sm_value (balances_ s)) - balanceOf a s + v.
Proof. cbn. apply msum_insert. Qed.

(** The supply is updated exactly, or not at all. *)
Lemma supply_run op n z s : in_range 256 n → 0 ≤ totalSupply s < 2 ^ 256 →
  (op = UAdd n ∧ z = totalSupply s + n ∨ op = USub n ∧ z = totalSupply s - n) →
  (in_range 256 z ∧ ∃ b, uint_run 256 op (totalSupply_ s) = (Ret (), mkScalar b z (copy_ (totalSupply_ s)))) ∨
  (¬ in_range 256 z ∧ ∃ e, uint_run 256 op (totalSupply_ s) = (Throw e, totalSupply_ s)).
Proof.
  intros Hn Ht Hop.
  pose proof (uint_arith 256 op (totalSupply_ s)) as H.
  assert (Hex : exact_or_throw 256 (uint_run 256 op) (Some z) (totalSupply_ s)).
  { destruct Hop as [[-> ->]|[-> ->]]; apply H; done. }
  destruct Hex as [(z' & [= <-] & Hz & E)|(Hz & e & E)].
  - left. split; [done|]. eexists. exact E.
  - right. split; [by apply Hz|by exists e].
Qed.

Definition val_inv (s : ERC20) : Prop :=
  msum (sm_value (balances_ s)) = totalSupply s ∧ (∀ a, 0 ≤ balanceOf a s) ∧ totalSupply s < 2 ^ 256.

Lemma balance_le_supply a s : val_inv s → 0 ≤ balanceOf a s ≤ totalSupply s.
Proof.
  intros (Hs & Hp & _). split; [apply Hp|]. rewrite <- Hs.
  apply (msum_bound (sm_value (balances_ s)) a (a + 1)); [exact Hp|lia].
Qed.

(** The balances after [value] went from [from] to [to]. *)
Definition moved (from to : Address) (value : Z) (s : ERC20) (b : Address) : Z :=
  balanceOf b s - (if decide (b = from) then value else 0) + (if decide (b = to) then value else 0).

Lemma move_run from to value s : val_inv s → in_range 256 value →
  if value <=? balanceOf from s then
    ∃ s1 s2, balance_sub from value s = (Ret (), s1) ∧ balance_add to value s1 = (Ret (), s2) ∧
      (∀ b, balanceOf b s2 = moved from to value s b) ∧ val_inv s2 ∧
      allowed_ s2 = allowed_ s ∧ totalSupply_ s2 = totalSupply_ s ∧ erc_events s2 = erc_events s
  else ∃ e s1, balance_sub from value s = (Throw e, s1).
Proof.
  intros Hi Hv. pose proof (balance_le_supply from s Hi) as Hf. destruct Hi as (Hs & Hp & Hmax).
  unfold in_range in Hv. unfold balance_sub, balance_add. rewrite balance_update_run.
  destruct (Z.leb_spec value (balanceOf from s)) as [Hle|Hgt].
  2: { unfold usub. rewrite mk_unsigned_throws by (unfold in_range; lia). eauto. }
  unfold usub. rewrite mk_unsigned_fits by (unfold in_range; lia). do 2 eexists. split; [done|].
  rewrite balance_update_run. set (s1 := set_balances _ s).
  assert (Hb1 : ∀ b, balanceOf b s1 = balanceOf b s - (if decide (b = from) then value else 0)).
  { intros b. unfold s1. rewrite balanceOf_touch. case_decide; [by subst|lia]. }
  assert (Hto : 0 ≤ balanceOf to s1 ∧ balanceOf to s1 + value < 2 ^ 256).
  { rewrite Hb1. case_decide as E; [subst; lia|].
    pose proof (msum_bound (sm_value (balances_ s)) to from Hp E) as [Hm _].
    fold (balanceOf to s) (balanceOf from s) in Hm. pose proof (Hp to). lia. }
  unfold uadd. rewrite mk_unsigned_fits by (unfold in_range; lia). split; [done|].
  assert (Hb2 : ∀ b, balanceOf b (set_balances (touch to (balanceOf to s1 + value) (balances_ s1)) s1) =
    moved from to value s b).
  { intros b. rewrite balanceOf_touch. unfold moved. rewrite <- Hb1.
    case_decide; [subst; lia|lia]. }
  split_and!; [exact Hb2| |done..]. split_and!; [| |done].
  - pose proof (msum_touch from (balanceOf from s - value) s) as M1.
    pose proof (msum_touch to (balanceOf to s1 + value) s1) as M2.
    change (msum (sm_value (touch to (balanceOf to s1 + value) (balances_ s1))) = totalSupply s).
    rewrite M2. change (balances_ s1) with (touch from (balanceOf from s - value) (balances_ s)).
    rewrite M1. lia.
  - intros a. rewrite Hb2. unfold moved. rewrite <- Hb1. pose proof (Hp a).
    specialize (Hb1 a). repeat case_decide; subst; lia.
Qed.

Lemma transfer_run caller to value s : val_inv s → in_range 256 value →
  if value <=? balanceOf caller s then
    ∃ s2, transfer caller to value s = (Ret true, s2) ∧
      (∀ b, balanceOf b s2 = moved caller to value s b) ∧ val_inv s2 ∧ allowed_ s2 = allowed_ s ∧
      erc_events s2 = erc_events s ++ [Transfer caller to value] ∧ totalSupply_ s2 = totalSupply_ s
  else ∃ e s2, transfer caller to value s = (Throw e, s2).
Proof.
  intros Hi Hv. pose proof (move_run caller to value s Hi Hv) as H.
  destruct (value <=? balanceOf caller s).
  - destruct H as (s1 & s2 & E1 & E2 & Hb & Hi2 & Ha & Ht & He). eexists.
    unfold transfer. erewrite bind_run by exact E1. erewrite bind_run by exact E2.
    split_and!; [done|exact Hb|exact Hi2|exact Ha|cbn; by rewrite He|exact Ht].
  - destruct H as (e & s1 & E). exists e, s1. unfold transfer. by erewrite bind_run_throw.
Qed.

Lemma transferFrom_run caller from to value s : val_inv s → in_range 256 value →
  (∀ a b, in_range 256 (allowance a b s)) →
  if (value <=? allowance from caller s) && (value <=? balanceOf from s) then
    ∃ s2, transferFrom caller from to value s = (Ret true, s2) ∧
      (∀ b, balanceOf b s2 = moved from to value s b) ∧ val_inv s2 ∧
      (∀ o p, allowance o p s2 =
        allowance o p s - (if decide (o = from ∧ p = caller) then value else 0)) ∧
      erc_events s2 = erc_events s ++ [Transfer from to value] ∧ totalSupply_ s2 = totalSupply_ s
  else ∃ e s2, transferFrom caller from to value s = (Throw e, s2).
Proof.
  intros Hi Hv Hal. pose proof (Hal from caller) as Hr. unfold in_range in Hv, Hr.
  unfold transferFrom. pose proof (spend_allowance_run from caller value s) as Hsp. cbv zeta in Hsp.
  destruct (Z.leb_spec value (allowance from caller s)) as [Hle|Hgt]; cbn [andb].
  2: { unfold usub in Hsp. rewrite mk_unsigned_throws in Hsp by (unfold in_range; lia).
       do 2 eexists. erewrite bind_run_throw; [done|exact Hsp]. }
  unfold usub in Hsp. rewrite mk_unsigned_fits in Hsp by (unfold in_range; lia).
  erewrite bind_run; [|exact Hsp]. set (s0 := set_allowed _ s).
  pose proof (move_run from to value s0 Hi Hv) as H. change (balanceOf from s0) with (balanceOf from s) in H.
  destruct (value <=? balanceOf from s).
  - destruct H as (s1 & s2 & E1 & E2 & Hb & Hi2 & Ha & Ht & He). eexists.
    erewrite bind_run by exact E1. erewrite bind_run by exact E2.
    split_and!; [done|exact Hb|exact Hi2| |cbn; by rewrite He|exact Ht].
    intros o p. unfold allowance. cbn. rewrite Ha. unfold s0. cbn.
    destruct (decide (o = from)) as [->|Ho].
    + rewrite lookup_insert_eq. cbn. destruct (decide (p = caller)) as [->|Hp].
      * rewrite lookup_insert_eq, decide_True by done. done.
      * rewrite lookup_insert_ne, decide_False by naive_solver. lia.
    + rewrite lookup_insert_ne, decide_False by naive_solver. lia.
  - destruct H as (e & s1 & E). exists e, s1. by erewrite bind_run_throw.
Qed.

(** Minting and burning that return are exact and keep the invariant. *)
Lemma mintValue_Ret a value s s' : val_inv s → in_range 256 value → mintValue_ a value s = (Ret (), s') →
  val_inv s' ∧ totalSupply s' = totalSupply s + value ∧ allowed_ s' = allowed_ s ∧
  ∀ b, balanceOf b s' = balanceOf b s + (if decide (b = a) then value else 0).
Proof.
  intros Hi Hv. pose proof (balance_le_supply a s Hi). destruct Hi as (Hs & Hp & Hmax).
  unfold mintValue_, balance_add, mbind, M_bind. rewrite balance_update_run.
  destruct (uadd 256 (balanceOf a s) value) as [v|] eqn:Hu; [|done].
  apply uadd_Ret in Hu as [-> Hr]. unfold supply_add, zoom. set (s1 := set_balances _ s).
  destruct (supply_run (UAdd value) value (totalSupply s + value) s Hv ltac:(lia) ltac:(by left))
    as [(Hz & b & E)|(_ & e & E)]; change (totalSupply_ s1) with (totalSupply_ s); cbn [uint_run] in E;
    rewrite E; [|done]. intros [= <-]. unfold in_range in *.
  assert (Hb : ∀ b, balanceOf b s1 = balanceOf b s + (if decide (b = a) then value else 0)).
  { intros c. unfold s1. rewrite balanceOf_touch. case_decide; [subst; lia|lia]. }
  split_and!; [|done|done|exact Hb]. split_and!.
  - pose proof (msum_touch a (balanceOf a s + value) s) as Hm. cbn in *. lia.
  - intros c. change (0 ≤ balanceOf c s1). rewrite Hb. pose proof (Hp c). case_decide; lia.
  - cbn. lia.
Qed.

Lemma burnValue_Ret a value s s' : val_inv s → in_range 256 value → burnValue_ a value s = (Ret (), s') →
  val_inv s' ∧ totalSupply s' = totalSupply s - value ∧ allowed_ s' = allowed_ s ∧
  ∀ b, balanceOf b s' = balanceOf b s - (if decide (b = a) then value else 0).
Proof.
  intros Hi Hv. pose proof (balance_le_supply a s Hi). destruct Hi as (Hs & Hp & Hmax).
  unfold burnValue_, balance_sub, mbind, M_bind. rewrite balance_update_run.
  destruct (usub 256 (balanceOf a s) value) as [v|] eqn:Hu; [|done].
  apply usub_Ret in Hu as [-> Hr]. unfold supply_sub, zoom. set (s1 := set_balances _ s).
  destruct (supply_run (USub value) value (totalSupply s - value) s Hv ltac:(lia) ltac:(by right))
    as [(Hz & b & E)|(_ & e & E)]; change (totalSupply_ s1) with (totalSupply_ s); cbn [uint_run] in E;
    rewrite E; [|done]. intros [= <-]. unfold in_range in *.
  assert (Hb : ∀ b, balanceOf b s1 = balanceOf b s - (if decide (b = a) then value else 0)).
  { intros c. unfold s1. rewrite balanceOf_touch. case_decide; [subst; lia|lia]. }
  split_and!; [|done|done|exact Hb]. split_and!.
  - pose proof (msum_touch a (balanceOf a s - value) s) as Hm. cbn in *. lia.
  - intros c. change (0 ≤ balanceOf c s1). rewrite Hb. pose proof (Hp c). case_decide; [subst|]; lia.
  - cbn. lia.
Qed.

(** Between calls: clean variables, balances that sum up to the supply, and
    256-bit allowances. *)
Definition erc_inv (s : ERC20) : Prop :=
  erc_clean s ∧ val_inv s ∧ ∀ a b, in_range 256 (allowance a b s).

Definition op_value (o : ERC20Op) : Z :=
  match o with
  | OTransfer _ _ v | OApprove _ _ v | OTransferFrom _ _ _ v | OMint _ _ _ v | OBurn _ v
  | ODeposit _ v | OWithdraw _ v => v
  end.

Lemma mint_keeps a value s s' : mint_ a value s = (Ret (), s') → in_range 256 value → val_inv s →
  (∀ a b, in_range 256 (allowance a b s)) → val_inv s' ∧ ∀ a b, in_range 256 (allowance a b s').
Proof.
  intros E Hv Hi Ha. assert (∃ s1, mintValue_ a value s = (Ret (), s1) ∧ s' = (emit (Transfer 0 a value) s1).2)
    as (s1 & E1 & ->).
  { revert E. unfold mint_, mintValue_, mbind, M_bind. repeat (case_match; try done). intros [= <-].
    match goal with u : unit |- _ => destruct u end. eauto. }
  apply mintValue_Ret in E1 as (Hi1 & _ & Hal & _); [|done..]. split; [exact Hi1|].
  unfold allowance in *. cbn. by rewrite Hal.
Qed.
Lemma burn_keeps a value s s' : burnValue_ a value s = (Ret (), s') → in_range 256 value → val_inv s →
  (∀ a b, in_range 256 (allowance a b s)) → val_inv s' ∧ ∀ a b, in_range 256 (allowance a b s').
Proof.
  intros E Hv Hi Ha. apply burnValue_Ret in E as (Hi1 & _ & Hal & _); [|done..]. split; [exact Hi1|].
  unfold allowance in *. by rewrite Hal.
Qed.

(** The effect of an operation that returns. *)
Lemma erc_op_inv o s s' : in_range 256 (op_value o) → val_inv s →
  (∀ a b, in_range 256 (allowance a b s)) → erc_op o s = (Ret (), s') →
  val_inv s' ∧ ∀ a b, in_range 256 (allowance a b s').
Proof.
  intros Hv Hi Ha E. destruct o as [c to v|c sp v|c f to v|ow c to v|c v|c v|c v]; cbn [erc_op op_value] in *.
  - pose proof (transfer_run c to v s Hi Hv) as H. unfold mbind, M_bind in E. destruct (v <=? _).
    + destruct H as (s2 & E2 & _ & Hi2 & Ha2 & _). rewrite E2 in E. injection E as <-.
      split; [done|]. unfold allowance in *. by rewrite Ha2.
    + destruct H as (e & s2 & E2). by rewrite E2 in E.
  - unfold mbind, M_bind in E. rewrite approve_run in E. injection E as <-. split; [exact Hi|].
    intros a b. unfold allowance. cbn. destruct (decide (a = c)) as [->|]; [|rewrite lookup_insert_ne by done; apply Ha].
    rewrite lookup_insert_eq. cbn. destruct (decide (b = sp)) as [->|]; [by rewrite lookup_insert_eq|].
    rewrite lookup_insert_ne by done. apply Ha.
  - pose proof (transferFrom_run c f to v s Hi Hv Ha) as H. unfold mbind, M_bind in E.
    destruct ((v <=? _) && _) eqn:Hc.
    + destruct H as (s2 & E2 & _ & Hi2 & Ha2 & _). rewrite E2 in E. injection E as <-.
      split; [done|]. intros a b. rewrite Ha2. apply andb_true_iff in Hc as [Hle _].
      apply Z.leb_le in Hle. pose proof (Ha a b) as Hab. unfold in_range in *.
      case_decide as Hd; [destruct Hd as [-> ->]|]; lia.
    + destruct H as (e & s2 & E2). by rewrite E2 in E.
  - unfold mintable_mint, mbind, M_bind, throw_if in E. destruct (negb _); [done|]. cbn in E.
    by apply mint_keeps in E.
  - unfold mintable_burn, mbind, M_bind, throw_if, gets in E. destruct (_ <? v); [done|]. cbn in E.
    by apply burn_keeps in E.
  - by apply mint_keeps in E.
  - by apply burn_keeps in E.
Qed.

(** One call, whatever its outcome. *)
Lemma erc_call_inv o s : in_range 256 (op_value o) → erc_inv s → erc_inv (erc_call (erc_op o) s).2.
Proof.
  intros Hv (Hc & Hi & Ha).
  destruct (erc_call_spec (erc_op o) s (erc_op_le o) Hc) as (s2 & -> & Hc2 & _ & Hs).
  cbv zeta in Hs. destruct (erc_op o s) as [[[]|e] s1] eqn:E; cbn [fst snd] in Hs;
    destruct Hs as [(Ht & Hb & Hal) _].
  - destruct (erc_op_inv o s s1 Hv Hi Ha E) as [Hi1 Ha1]. split; [done|].
    unfold val_inv, balanceOf, allowance in *. by rewrite Ht, Hb, Hal.
  - split; [done|]. unfold val_inv, balanceOf, allowance in *. by rewrite Ht, Hb, Hal.
Qed.
End erc20.

(** A token after its constructor minted [value] to [creator] and committed. *)
Definition new_token (creator : Address) (value : Z) : ERC20 :=
  mkERC20 (mkScalar (mkSafeBase true false true) value value)
    (mkSafeMap (mkSafeBase true false true) {[ creator := value ]} ∅)
    (mkSafeMap (mkSafeBase true false true) ∅ ∅) [].

Lemma ERC20_new_run {BI : BoostInt} creator value : in_range 256 value →
  ERC20_new creator value = Ret (new_token creator value).
Proof.
  intros Hv. unfold ERC20_new. set (blank := mkERC20 _ _ _ _).
  assert (Hb : balance_add creator value blank = (Ret (), set_balances (touch creator value (map_owned ∅)) blank)).
  { unfold balance_add. rewrite balance_update_run. change (balanceOf creator blank) with 0.
    unfold uadd. by rewrite mk_unsigned_fits. }
  set (s1 := set_balances _ blank) in Hb.
  destruct (supply_run (UAdd value) value (0 + value) s1 Hv ltac:(done) ltac:(by left))
    as [(_ & b & E)|(Hn & _)]; [|done].
  assert (b = mkSafeBase true false false) as ->.
  { cbn [uint_run] in E. unfold uint_add_assign_uint in E. rewrite checked_assign_run in E.
    destruct (chk_add _ _ _ _); [done|]. rewrite mark_assign_run in E.
    destruct (cast_uint _ _); [|done]. cbn in E. injection E. done. }
  unfold mintValue_, mbind, M_bind. rewrite Hb. unfold supply_add, zoom. cbn [uint_run] in E. rewrite E.
  done.
Qed.

Lemma new_token_inv creator value : in_range 256 value → erc_inv (new_token creator value).
Proof.
  intros Hv. unfold in_range in Hv. split_and!.
  - split_and!; (split; [apply restore_empty || done|done]).
  - unfold val_inv. cbn. split_and!; [|intros a|lia].
    + change (msum (<[creator := value]> (∅ : gmap Address Z)) = value).
      rewrite msum_insert_None by done. rewrite (msum_empty (K := Address)). lia.
    + unfold balanceOf. cbn. destruct (decide (a = creator)) as [->|];
        [rewrite lookup_singleton_eq; cbn; lia|by rewrite lookup_singleton_ne].
  - intros a b. unfold allowance. cbn. by rewrite lookup_empty.
Qed.

(** C14: a token can be created with any supply, and its supply is exactly the sum of its balances after any
    sequence of transfers, approvals, delegated transfers, mints, burns, deposits
    and withdrawals, by any callers, succeeding or failing, and no balance or
    allowance leaves its 256 bits. *)
Theorem erc20_supply_invariant {BI : BoostInt} (creator : Address) (value : Z) (ops : list ERC20Op) :
  in_range 256 value → Forall (λ o, in_range 256 (op_value o)) ops →
  ∃ s0, ERC20_new creator value = Ret s0 ∧
  let s := erc_run ops s0 in
  msum (sm_value (balances_ s)) = totalSupply s ∧
  (∀ a, in_range 256 (balanceOf a s)) ∧ ∀ a b, in_range 256 (allowance a b s).
Proof.
  intros Hv Hops. exists (new_token creator value). split; [by apply ERC20_new_run|].
  intros s. assert (Hi : erc_inv s).
  { unfold s, erc_run. revert Hops. generalize (new_token_inv creator value Hv).
    generalize (new_token creator value) as t. induction ops as [|o ops IH]; intros t Ht Hops; [done|].
    apply Forall_cons in Hops as [Ho Hops]. cbn. apply IH; [|done]. by apply erc_call_inv. }
  destruct Hi as (_ & Hi & Ha). split_and!; [apply Hi| |done].
  intros a. pose proof (balance_le_supply a s Hi). destruct Hi as (_ & _ & Hmax). unfold in_range. lia.
Qed.

(** C15: [transferFrom] succeeds exactly when the allowance and the balance
    suffice; it then moves the value, lowers only that allowance and emits one
    [Transfer]; otherwise the call throws and leaves every balance, every
    allowance and the events as they were. *)
Theorem transferFrom_correct {BI : BoostInt} (caller from to : Address) (value : Z) (s : ERC20) :
  erc_inv s → in_range 256 value →
  let '(r, s') := erc_call (transferFrom caller from to value) s in
  if (value <=? allowance from caller s) && (value <=? balanceOf from s) then
    r = Ret true ∧ (∀ b, balanceOf b s' = moved from to value s b) ∧
    (∀ o p, allowance o p s' =
       allowance o p s - (if decide (o = from ∧ p = caller) then value else 0)) ∧
    totalSupply s' = totalSupply s ∧ erc_events s' = erc_events s ++ [Transfer from to value]
  else
    returns r = false ∧ (∀ b, balanceOf b s' = balanceOf b s) ∧
    (∀ o p, allowance o p s' = allowance o p s) ∧ totalSupply s' = totalSupply s ∧
    erc_events s' = erc_events s.
Proof.
  intros (Hc & Hi & Ha) Hv.
  destruct (erc_call_spec _ s (transferFrom_le caller from to value) Hc) as (s2 & E2 & _ & E1 & Hs).
  destruct (erc_call _ s) as [r s']. cbn in E1, E2. subst r s'.
  pose proof (transferFrom_run caller from to value s Hi Hv Ha) as H.
  unfold balanceOf, allowance in *.
  destruct (_ && _).
  - destruct H as (s1 & E & Hb & _ & Hal & He & Hsup). rewrite E in *. cbn in Hs.
    destruct Hs as [(Ht & Hbal & Hall) Hev]. rewrite Ht, Hbal, Hall, Hev.
    unfold totalSupply. by rewrite Hsup.
  - destruct H as (e & s1 & E). rewrite E in *. cbn in Hs.
    destruct Hs as [(Ht & Hbal & Hall) Hev]. by rewrite Ht, Hbal, Hall, Hev.
Qed.

Lemma erc20_supply_invariant_witness :
  let ops := [OTransfer 1 2 300; OTransfer 2 3 500; OApprove 1 2 50; OTransferFrom 2 1 3 40;
              OMint 1 1 4 7; OBurn 3 10; OWithdraw 4 8] in
  totalSupply (erc_run (BI := boost_ref) ops (new_token 1 1000)) = 997 ∧
  ∃ s0, ERC20_new (BI := boost_ref) 1 1000 = Ret s0 ∧
    let s := erc_run (BI := boost_ref) ops s0 in msum (sm_value (balances_ s)) = totalSupply s.
Proof.
  intros ops. split; [vm_compute; reflexivity|].
  destruct (erc20_supply_invariant (BI := boost_ref) 1 1000 ops) as (s0 & E & Hm & _); [done| |by exists s0].
  repeat (apply Forall_cons; split; [done|]). apply Forall_nil_2.
Defined.

Lemma transferFrom_correct_witness :
  let s := erc_run (BI := boost_ref) [OApprove 1 2 50] (new_token 1 1000) in
  balanceOf 3 (erc_call (transferFrom (BI := boost_ref) 2 1 3 40) s).2 = 40 ∧
  returns (erc_call (transferFrom (BI := boost_ref) 2 1 3 60) s).1 = false.
Proof.
  intros s. assert (Hs : erc_inv s) by (apply (erc_call_inv (BI := boost_ref)); [done|by apply new_token_inv]).
  split.
  - pose proof (transferFrom_correct (BI := boost_ref) 2 1 3 40 s Hs ltac:(done)) as H.
    destruct (erc_call _ s) as [r s']. destruct H as (_ & Hb & _). rewrite Hb. reflexivity.
  - pose proof (transferFrom_correct (BI := boost_ref) 2 1 3 60 s Hs ltac:(done)) as H.
    destruct (erc_call _ s) as [r s']. apply H.
Defined.
