(* ===== verification/ERC721.v ===== *)
(** * The ERC-721 contract

    Models src/contract/templates/standards/erc721.cpp over the safe maps it is
    made of.  The names of the
    collection are constants and left out; the database form is in [NftStore].  A token is
    stored under its number cast to 64 bits; the cast is Boost's (class
    [NarrowCast]).  A receiver that is a contract is called back: what it does is
    given as the calls it makes on the token, nested to any depth, and its
    answer. *)

From stdpp Require Import pretty.
From S2P Require Import Prelude CheckedInt SafeBase SafeScalars SafeUint SafeMap.

(** [static_cast<uint64_t>] of a 256-bit number. *)
Class NarrowCast := {
  to_u64 : Z → outcome Z;
  to_u64_fits : ∀ z, in_range 64 z → to_u64 z = Ret z;
  to_u64_range : ∀ z v, to_u64 z = Ret v → in_range 64 v;
}.

Inductive ERC721Event :=
| NTransfer (from to : Address) (tokenId : Z)
| NApproval (owner approved : Address) (tokenId : Z)
| NApprovalForAll (owner operator : Address) (approved : bool).

Record ERC721 := mkERC721 {
  owners_ : SafeMap Z Address;
  balances_ : SafeMap Address Z;
  tokenApprovals_ : SafeMap Z Address;
  operatorAddressApprovals_ : SafeMap Address (gmap Address bool);
  nft_events : list ERC721Event;
}.

Definition set_owners v s := mkERC721 v (balances_ s) (tokenApprovals_ s) (operatorAddressApprovals_ s) (nft_events s).
Definition set_balances v s := mkERC721 (owners_ s) v (tokenApprovals_ s) (operatorAddressApprovals_ s) (nft_events s).
Definition set_approvals v s := mkERC721 (owners_ s) (balances_ s) v (operatorAddressApprovals_ s) (nft_events s).
Definition set_operators v s := mkERC721 (owners_ s) (balances_ s) (tokenApprovals_ s) v (nft_events s).
Definition set_events v s := mkERC721 (owners_ s) (balances_ s) (tokenApprovals_ s) (operatorAddressApprovals_ s) v.

Section erc721.
Context {NC : NarrowCast}.

Definition query {A} (f : ERC721 → outcome A) : M ERC721 A := λ s, (f s, s).
Definition emit (e : ERC721Event) : M ERC721 unit := modify (λ s, set_events (nft_events s ++ [e]) s).

(** What the maps say of a key. *)
Definition owner_at (k : Z) (s : ERC721) : Address := default 0 (sm_value (owners_ s) !! k).
Definition approved_at (k : Z) (s : ERC721) : Address := default 0 (sm_value (tokenApprovals_ s) !! k).
Definition balance_at (a : Address) (s : ERC721) : Z := default 0 (sm_value (balances_ s) !! a).

(** [map[k] = v], and [balances_[a]++] and [--] on a [uint64_t]. *)
Definition owners_put (k : Z) (v : Address) : M ERC721 unit :=
  zoom owners_ set_owners (map_index 0 k ;; map_write k v).
Definition approvals_put (k : Z) (v : Address) : M ERC721 unit :=
  zoom tokenApprovals_ set_approvals (map_index 0 k ;; map_write k v).
Definition balance_step (d : Z) (a : Address) : M ERC721 unit :=
  zoom balances_ set_balances (v ← map_index 0 a ; map_write a (wrap 64 (v + d))).

Definition ownerOf_ (tokenId : Z) (s : ERC721) : outcome Address :=
  k ← to_u64 tokenId ; Ret (owner_at k s).
Definition getApproved_ (tokenId : Z) (s : ERC721) : outcome Address :=
  k ← to_u64 tokenId ; Ret (approved_at k s).
Definition isApprovedForAll (owner operator : Address) (s : ERC721) : bool :=
  match sm_value (operatorAddressApprovals_ s) !! owner with
  | None => false
  | Some m => default false (m !! operator)
  end.

Definition isAuthorized_ (owner spender : Address) (tokenId : Z) (s : ERC721) : outcome bool :=
  if spender =? owner then Ret true
  else if spender =? 0 then Ret false
  else if isApprovedForAll owner spender s then Ret true
  else a ← getApproved_ tokenId s ; Ret (a =? spender).
Definition checkAuthorized_ (owner spender : Address) (tokenId : Z) : M ERC721 unit :=
  ok ← query (isAuthorized_ owner spender tokenId) ;
  if (ok : bool) then mret ()
  else if negb (owner =? 0) then throw (DynamicException "ERC721::checkAuthorized_: Not authorized")
  else throw (DynamicException "ERC721::checkAuthorized_: inexistent token").

Definition update_ (to : Address) (tokenId : Z) (auth : Address) : M ERC721 Address :=
  from ← query (ownerOf_ tokenId) ;
  (if negb (auth =? 0) then checkAuthorized_ from auth tokenId else mret ()) ;;
  k ← lift (to_u64 tokenId) ;
  (if negb (from =? 0) then approvals_put k 0 ;; balance_step (-1) from else mret ()) ;;
  (if negb (to =? 0) then balance_step 1 to else mret ()) ;;
  owners_put k to ;;
  emit (NTransfer from to tokenId) ;;
  mret from.

Definition mint_ (to : Address) (tokenId : Z) : M ERC721 unit :=
  throw_if (to =? 0) (DynamicException "ERC721::mint_: mint to the zero address") ;;
  update_ to tokenId 0 ;; mret ().
Definition burn_ (caller : Address) (tokenId : Z) : M ERC721 unit :=
  prevOwner ← update_ 0 tokenId caller ;
  throw_if (prevOwner =? 0) (DynamicException "ERC721::burn_: inexistent token").
Definition transfer_ (caller from to : Address) (tokenId : Z) : M ERC721 unit :=
  throw_if (to =? 0) (DynamicException "ERC721::transfer_: transfer to the zero address") ;;
  prevOwner ← update_ to tokenId caller ;
  if prevOwner =? 0 then throw (DynamicException "ERC721::transfer_: inexistent token")
  else throw_if (negb (prevOwner =? from)) (DynamicException "ERC721::transfer_: incorrect owner").

Definition ownerOf (tokenId : Z) (s : ERC721) : outcome Address :=
  owner ← ownerOf_ tokenId s ;
  if owner =? 0 then Throw (DynamicException "ERC721::ownerOf: inexistent token") else Ret owner.
Definition requireMinted_ (tokenId : Z) (s : ERC721) : outcome unit :=
  owner ← ownerOf_ tokenId s ;
  if owner =? 0 then Throw (DynamicException "ERC721::requireMinted_: inexistent token") else Ret ().
Definition balanceOf (owner : Address) (s : ERC721) : outcome Z :=
  if owner =? 0 then Throw (DynamicException "ERC721::balanceOf: zero address") else Ret (balance_at owner s).
Definition getApproved (tokenId : Z) (s : ERC721) : outcome Address :=
  requireMinted_ tokenId s ;; getApproved_ tokenId s.
(** [baseURI_] is virtual. *)
Definition tokenURI (baseURI : string) (tokenId : Z) (s : ERC721) : outcome string :=
  requireMinted_ tokenId s ;; Ret (baseURI +:+ pretty tokenId).

Definition approve_ (to : Address) (tokenId : Z) (auth : Address) : M ERC721 Address :=
  owner ← query (ownerOf tokenId) ;
  s ← gets id ;
  throw_if (negb (auth =? 0) && negb (owner =? auth) && negb (isApprovedForAll owner auth s))
    (DynamicException "ERC721::approve_: Not authorized") ;;
  k ← lift (to_u64 tokenId) ;
  approvals_put k to ;;
  emit (NApproval owner to tokenId) ;;
  mret owner.
Definition approve (caller to : Address) (tokenId : Z) : M ERC721 unit := approve_ to tokenId caller ;; mret ().

Definition setApprovalForAll_ (owner operator : Address) (approved : bool) : M ERC721 unit :=
  throw_if (operator =? 0) (DynamicException "ERC721::setApprovalForAll_: zero address") ;;
  zoom operatorAddressApprovals_ set_operators
    (inner ← map_index ∅ owner ; map_write owner (<[operator := approved]> inner)) ;;
  emit (NApprovalForAll owner operator approved).
Definition setApprovalForAll (caller operator : Address) (approved : bool) : M ERC721 unit :=
  setApprovalForAll_ caller operator approved.

Definition transferFrom (caller from to : Address) (tokenId : Z) : M ERC721 unit := transfer_ caller from to tokenId.

(** 0x150b7a02 *)
Definition onERC721ReceiverSelector : Z := 353073666.

(** The calls on the token.  [reply] of a safe transfer is [None] when the
    receiver is not a contract, else the calls it makes on the token before it
    answers, and the answer.  A nested call that throws ends the call around it: a
    receiver that caught the exception could not return ([cpp_failure_sticks]).
    Minting is a call of the derived contract. *)
Inductive ERC721Op :=
| OTransferFrom (caller from to : Address) (tokenId : Z)
| OSafeTransferFrom (caller from to : Address) (tokenId : Z) (reply : option (list ERC721Op * outcome Z))
| OApprove (caller to : Address) (tokenId : Z)
| OSetApprovalForAll (caller operator : Address) (approved : bool)
| OMint (to : Address) (tokenId : Z)
| OBurn (caller : Address) (tokenId : Z).

(** [checkOnERC721Received_], after the calls of the receiver. *)
Definition checkOnERC721Received_ (nested : M ERC721 unit) (answer : outcome Z) : M ERC721 unit :=
  nested ;;
  result ← lift answer ;
  throw_if (negb (result =? onERC721ReceiverSelector))
    (DynamicException "ERC721::checkOnERC721Received_: transfer to non ERC721Receiver implementer").

Fixpoint nft_op (o : ERC721Op) : M ERC721 unit :=
  match o with
  | OTransferFrom caller from to tokenId => transferFrom caller from to tokenId
  | OSafeTransferFrom caller from to tokenId reply =>
      transfer_ caller from to tokenId ;;
      match reply with
      | None => mret ()
      | Some (calls, answer) =>
          checkOnERC721Received_
            ((fix go calls := match calls with [] => mret () | c :: calls => nft_op c ;; go calls end) calls) answer
      end
  | OApprove caller to tokenId => approve caller to tokenId
  | OSetApprovalForAll caller operator approved => setApprovalForAll caller operator approved
  | OMint to tokenId => mint_ to tokenId
  | OBurn caller tokenId => burn_ caller tokenId
  end.

(** Induction on calls, through the nested ones. *)
Section op_ind.
Variable P : ERC721Op → Prop.
Hypothesis HT : ∀ c f t i, P (OTransferFrom c f t i).
Hypothesis HS0 : ∀ c f t i, P (OSafeTransferFrom c f t i None).
Hypothesis HS : ∀ c f t i l a, Forall P l → P (OSafeTransferFrom c f t i (Some (l, a))).
Hypothesis HA : ∀ c t i, P (OApprove c t i).
Hypothesis HF : ∀ c o b, P (OSetApprovalForAll c o b).
Hypothesis HM : ∀ t i, P (OMint t i).
Hypothesis HB : ∀ c i, P (OBurn c i).
Fixpoint op_ind' (o : ERC721Op) : P o :=
  match o with
  | OTransferFrom c f t i => HT c f t i
  | OSafeTransferFrom c f t i None => HS0 c f t i
  | OSafeTransferFrom c f t i (Some (l, a)) =>
      HS c f t i l a ((fix go l : Forall P l := match l with
        | [] => Forall_nil_2 P | o :: l => Forall_cons_2 P o l (op_ind' o) (go l) end) l)
  | OApprove c t i => HA c t i
  | OSetApprovalForAll c o b => HF c o b
  | OMint t i => HM t i
  | OBurn c i => HB c i
  end.
End op_ind.

(** The end of the execution for the contract's variables. *)
Definition nft_commit : M ERC721 unit :=
  zoom owners_ set_owners map_commit ;; zoom balances_ set_balances map_commit ;;
  zoom tokenApprovals_ set_approvals map_commit ;; zoom operatorAddressApprovals_ set_operators map_commit.
Definition nft_revert : M ERC721 unit :=
  zoom owners_ set_owners map_revert ;; zoom balances_ set_balances map_revert ;;
  zoom tokenApprovals_ set_approvals map_revert ;; zoom operatorAddressApprovals_ set_operators map_revert.

Definition nft_call {A} (m : M ERC721 A) : M ERC721 A := λ s,
  match m s with
  | (Ret a, s') => let '(r, s2) := nft_commit s' in (r ;; Ret a, s2)
  | (Throw e, s') => let '(r, s2) := nft_revert s' in (r ;; Throw e, set_events (nft_events s) s2)
  end.
Definition nft_run (ops : list ERC721Op) (s : ERC721) : ERC721 :=
  fold_left (λ s o, (nft_call (nft_op o) s).2) ops s.

(** The constructor. *)
Definition ERC721_new : ERC721 :=
  let fresh {K T} `{Countable K} : SafeMap K T := mkSafeMap (enableRegister (unregister (mkSafeBase true false false))) ∅ ∅ in
  mkERC721 fresh fresh fresh fresh [].

(** ** What each step does *)

Definition put_owner (k : Z) (v : Address) (s : ERC721) : ERC721 := set_owners (touch k v (owners_ s)) s.
Definition put_approval (k : Z) (v : Address) (s : ERC721) : ERC721 := set_approvals (touch k v (tokenApprovals_ s)) s.
Definition step_balance (d : Z) (a : Address) (s : ERC721) : ERC721 :=
  set_balances (touch a (wrap 64 (balance_at a s + d)) (balances_ s)) s.

Lemma owners_put_run k v s : owners_put k v s = (Ret (), put_owner k v s).
Proof. unfold owners_put, zoom, mbind, M_bind. by rewrite map_index_touch, map_write_touch. Qed.
Lemma approvals_put_run k v s : approvals_put k v s = (Ret (), put_approval k v s).
Proof. unfold approvals_put, zoom, mbind, M_bind. by rewrite map_index_touch, map_write_touch. Qed.
Lemma balance_step_run d a s : balance_step d a s = (Ret (), step_balance d a s).
Proof. unfold balance_step, zoom, mbind, M_bind. by rewrite map_index_touch, map_write_touch. Qed.

(** The state after the token under [k] went from its owner to [to]. *)
Definition moved (k : Z) (to : Address) (tokenId : Z) (s : ERC721) : ERC721 :=
  let from := owner_at k s in
  let s1 := if from =? 0 then s else step_balance (-1) from (put_approval k 0 s) in
  let s2 := if to =? 0 then s1 else step_balance 1 to s1 in
  let s3 := put_owner k to s2 in
  set_events (nft_events s3 ++ [NTransfer from to tokenId]) s3.

(** Whether [update_] lets [auth] move the token. *)
Definition may_move (k : Z) (auth : Address) (s : ERC721) : bool :=
  (auth =? 0) || (auth =? owner_at k s) || isApprovedForAll (owner_at k s) auth s || (approved_at k s =? auth).

Lemma update_run to tokenId auth s :
  update_ to tokenId auth s =
    match to_u64 tokenId with
    | Throw e => (Throw e, s)
    | Ret k =>
        if may_move k auth s then (Ret (owner_at k s), moved k to tokenId s)
        else (Throw (DynamicException (if owner_at k s =? 0 then "ERC721::checkAuthorized_: inexistent token"
                                       else "ERC721::checkAuthorized_: Not authorized")), s)
    end.
Proof.
  unfold update_, query, ownerOf_, lift, mbind, M_bind. cbn. destruct (to_u64 tokenId) as [k|e] eqn:Ek; [|done]. cbn.
  assert (Hauth : (if negb (auth =? 0) then checkAuthorized_ (owner_at k s) auth tokenId else mret ()) s =
    (if may_move k auth s then Ret ()
     else Throw (DynamicException (if owner_at k s =? 0 then "ERC721::checkAuthorized_: inexistent token"
                                   else "ERC721::checkAuthorized_: Not authorized")), s)).
  { unfold may_move. destruct (Z.eqb_spec auth 0) as [Ha|Ha]; cbn [negb orb]; [done|].
    unfold checkAuthorized_, query, isAuthorized_, getApproved_, mbind, M_bind. cbn. rewrite Ek. cbn.
    destruct (auth =? owner_at k s); cbn [orb]; [done|].
    rewrite (proj2 (Z.eqb_neq auth 0) Ha). destruct (isApprovedForAll (owner_at k s) auth s); [done|]. cbn [orb].
    by destruct (approved_at k s =? auth), (owner_at k s =? 0). }
  rewrite Hauth. destruct (may_move k auth s); [|done]. unfold moved, mret, M_ret.
  destruct (owner_at k s =? 0), (to =? 0); cbn [negb];
    rewrite ?approvals_put_run, ?balance_step_run, ?balance_step_run, ?owners_put_run; done.
Qed.

(** ** Every operation keeps the committed values *)

Definition nft_le (s s' : ERC721) : Prop :=
  sv_le (owners_ s) (owners_ s') ∧ sv_le (balances_ s) (balances_ s') ∧
  sv_le (tokenApprovals_ s) (tokenApprovals_ s') ∧ sv_le (operatorAddressApprovals_ s) (operatorAddressApprovals_ s').

#[local] Instance nft_le_preorder : PreOrder nft_le.
Proof.
  split; [intros s; unfold nft_le; split_and!; reflexivity|].
  intros s1 s2 s3 (?&?&?&?) (?&?&?&?). unfold nft_le. split_and!; by etrans.
Qed.

Lemma put_owner_le k v s : nft_le s (put_owner k v s).
Proof. unfold nft_le. split_and!; try reflexivity. apply touch_le. Qed.
Lemma put_approval_le k v s : nft_le s (put_approval k v s).
Proof. unfold nft_le. split_and!; try reflexivity. apply touch_le. Qed.
Lemma step_balance_le d a s : nft_le s (step_balance d a s).
Proof. unfold nft_le. split_and!; try reflexivity. apply touch_le. Qed.

Lemma moved_le k to tokenId s : nft_le s (moved k to tokenId s).
Proof.
  unfold moved. cbv zeta. etrans; [|unfold nft_le; split_and!; reflexivity]. etrans; [|apply put_owner_le].
  assert (H1 : nft_le s (if owner_at k s =? 0 then s else step_balance (-1) (owner_at k s) (put_approval k 0 s))).
  { destruct (_ =? _); [reflexivity|]. etrans; [apply put_approval_le|apply step_balance_le]. }
  destruct (to =? 0); [done|]. etrans; [exact H1|apply step_balance_le].
Qed.

Lemma update_le to tokenId auth : preserves nft_le (update_ to tokenId auth).
Proof.
  intros s. rewrite update_run. destruct (to_u64 tokenId); [|reflexivity]. destruct (may_move _ _ _); [|reflexivity].
  apply moved_le.
Qed.

Lemma query_le {A} (f : ERC721 → outcome A) : preserves nft_le (query f).
Proof. intros s. reflexivity. Qed.

Lemma nft_approve_le to tokenId auth : preserves nft_le (approve_ to tokenId auth).
Proof.
  unfold approve_. apply preserves_bind; [apply _|apply query_le|intros owner].
  apply preserves_bind; [apply _|apply preserves_gets; apply _|intros s0].
  apply preserves_bind; [apply _|apply preserves_throw_if; apply _|intros _].
  apply preserves_bind; [apply _|apply preserves_lift; apply _|intros k].
  intros s. unfold mbind, M_bind. rewrite approvals_put_run. cbn.
  etrans; [apply (put_approval_le k to)|]. unfold nft_le. split_and!; reflexivity.
Qed.

Lemma setApprovalForAll_le owner operator b : preserves nft_le (setApprovalForAll_ owner operator b).
Proof.
  unfold setApprovalForAll_. apply preserves_bind; [apply _|apply preserves_throw_if; apply _|intros _].
  intros s. unfold mbind, M_bind, zoom. rewrite map_index_touch, map_write_touch. cbn.
  unfold nft_le. cbn. split_and!; try reflexivity. apply touch_le.
Qed.

Lemma transfer_le caller from to tokenId : preserves nft_le (transfer_ caller from to tokenId).
Proof.
  unfold transfer_. apply preserves_bind; [apply _|apply preserves_throw_if; apply _|intros _].
  apply preserves_bind; [apply _|apply update_le|intros p].
  destruct (p =? 0); [apply preserves_throw; apply _|apply preserves_throw_if; apply _].
Qed.

Lemma nft_op_le o : preserves nft_le (nft_op o).
Proof.
  induction o as [c f t i|c f t i|c f t i l a Hl|c t i|c o b|t i|c i] using op_ind'; cbn [nft_op].
  - apply transfer_le.
  - apply preserves_bind; [apply _|apply transfer_le|intros _]. apply preserves_ret; apply _.
  - apply preserves_bind; [apply _|apply transfer_le|intros _]. unfold checkOnERC721Received_.
    apply preserves_bind; [apply _| |intros _].
    + induction Hl as [|o l Ho Hl IH]; [apply preserves_ret; apply _|].
      apply preserves_bind; [apply _|exact Ho|intros _; exact IH].
    + apply preserves_bind; [apply _|apply preserves_lift; apply _|intros r]. apply preserves_throw_if; apply _.
  - unfold approve. apply preserves_bind; [apply _|apply nft_approve_le|intros _]. apply preserves_ret; apply _.
  - apply setApprovalForAll_le.
  - unfold mint_. apply preserves_bind; [apply _|apply preserves_throw_if; apply _|intros _].
    apply preserves_bind; [apply _|apply update_le|intros _]. apply preserves_ret; apply _.
  - unfold burn_. apply preserves_bind; [apply _|apply update_le|intros p]. apply preserves_throw_if; apply _.
Qed.

(** ** Calls *)

Definition same_values (s s' : ERC721) : Prop :=
  sm_value (owners_ s') = sm_value (owners_ s) ∧ sm_value (balances_ s') = sm_value (balances_ s) ∧
  sm_value (tokenApprovals_ s') = sm_value (tokenApprovals_ s) ∧
  sm_value (operatorAddressApprovals_ s') = sm_value (operatorAddressApprovals_ s).

(** Between calls every variable holds its committed value. *)
Definition nft_clean (s : ERC721) : Prop :=
  map_rel (sm_value (owners_ s)) (owners_ s) ∧ map_rel (sm_value (balances_ s)) (balances_ s) ∧
  map_rel (sm_value (tokenApprovals_ s)) (tokenApprovals_ s) ∧
  map_rel (sm_value (operatorAddressApprovals_ s)) (operatorAddressApprovals_ s).

Lemma map_commit_clean {K T} `{Countable K} (x : SafeMap K T) o : map_rel o x →
  sm_value (map_commit x).2 = sm_value x ∧ map_rel (sm_value x) (map_commit x).2.
Proof.
  intros Hr. destruct (@sv_commit_ok _ _ map_var _ _ Hr) as (x' & E & G & R & _). injection E as <-. by split.
Qed.
Lemma map_revert_clean {K T} `{Countable K} (x : SafeMap K T) o : map_rel o x →
  sm_value (map_revert x).2 = o ∧ map_rel (sm_value (map_revert x).2) (map_revert x).2.
Proof.
  intros Hr. destruct (@sv_revert_ok _ _ map_var _ _ Hr) as (x' & E & G & R & _). injection E as <-. cbn in *.
  split; [exact G|]. by rewrite G.
Qed.

(** A call that returns keeps what it did, one that throws leaves no trace. *)
Lemma nft_call_spec {A} (m : M ERC721 A) s : preserves nft_le m → nft_clean s →
  let s2 := (nft_call m s).2 in
  let s1 := match (m s).1 with Ret _ => (m s).2 | Throw _ => s end in
  nft_clean s2 ∧ (nft_call m s).1 = (m s).1 ∧ same_values s1 s2 ∧ nft_events s2 = nft_events s1.
Proof.
  intros Hm (Ho & Hb & Ht & Hp). specialize (Hm s). cbv zeta. unfold nft_call.
  destruct (m s) as [r s1]. cbn [fst snd] in *. destruct Hm as ((Lo & _) & (Lb & _) & (Lt & _) & (Lp & _)).
  specialize (Lo _ Ho). specialize (Lb _ Hb). specialize (Lt _ Ht). specialize (Lp _ Hp).
  destruct r as [a|e]; cbn -[map_commit map_revert].
  - destruct (map_commit_clean _ _ Lo), (map_commit_clean _ _ Lb), (map_commit_clean _ _ Lt), (map_commit_clean _ _ Lp).
    unfold nft_clean, same_values. split_and!; done.
  - destruct (map_revert_clean _ _ Lo), (map_revert_clean _ _ Lb), (map_revert_clean _ _ Lt), (map_revert_clean _ _ Lp).
    unfold nft_clean, same_values. split_and!; done.
Qed.

(** ** The invariant *)

(** The number of tokens of [a]. *)
Definition tokens_of (a : Address) (m : gmap Z Address) : Z :=
  Z.of_nat (size (filter (λ kv : Z * Address, kv.2 = a) m)).

Lemma tokens_insert a k v m : tokens_of a (<[k := v]> m) =
  tokens_of a m - (if decide (m !! k = Some a) then 1 else 0) + (if decide (v = a) then 1 else 0).
Proof.
  unfold tokens_of. set (P := λ kv : Z * Address, kv.2 = a).
  assert (Hk : filter P m !! k = if decide (m !! k = Some a) then Some a else None).
  { destruct (decide _) as [E|E].
    - by apply map_lookup_filter_Some.
    - apply map_lookup_filter_None. destruct (m !! k) as [b|]; [|by left]. right. intros x [= <-] Hx. apply E. by rewrite <- Hx. }
  rewrite map_filter_insert. destruct (decide (P (k, v))) as [Hv|Hv]; cbn in Hv.
  - rewrite map_size_insert, Hk, (decide_True _ _ Hv). destruct (decide (m !! k = Some a)); cbn; lia.
  - rewrite map_filter_delete, map_size_delete, Hk, (decide_False _ _ Hv).
    destruct (decide (m !! k = Some a)) as [E|E]; [|cbn; lia].
    assert (size (filter P m) ≠ 0%nat).
    { intros H0. apply map_size_empty_inv in H0. by rewrite H0, lookup_empty in Hk. }
    cbn. lia.
Qed.

(** Every balance is the number of the owner's tokens (in 64 bits), and only
    tokens that exist have an approved address. *)
Definition nft_inv (s : ERC721) : Prop :=
  (∀ a, a ≠ 0 → balance_at a s = tokens_of a (sm_value (owners_ s)) mod 2 ^ 64) ∧
  (∀ k, approved_at k s ≠ 0 → owner_at k s ≠ 0).

Lemma owner_at_moved j k to tokenId s : owner_at j (moved k to tokenId s) = if decide (j = k) then to else owner_at j s.
Proof.
  unfold moved. destruct (owner_at k s =? 0), (to =? 0); unfold owner_at; cbn;
    (destruct (decide (j = k)) as [->|Hne]; [by rewrite lookup_insert_eq|by rewrite lookup_insert_ne]).
Qed.

Lemma approved_at_moved j k to tokenId s : approved_at j (moved k to tokenId s) =
  if decide (j = k ∧ owner_at k s ≠ 0) then 0 else approved_at j s.
Proof.
  unfold moved. destruct (Z.eqb_spec (owner_at k s) 0) as [E|E]; destruct (to =? 0); unfold approved_at; cbn;
    rewrite ?(decide_False _ _ (λ H : j = k ∧ owner_at k s ≠ 0, proj2 H E)); try done;
    (destruct (decide (j = k)) as [->|Hne];
     [rewrite lookup_insert_eq, decide_True by done; done
     |rewrite lookup_insert_ne, decide_False by naive_solver; done]).
Qed.

Lemma balance_at_moved a k to tokenId s : a ≠ 0 → in_range 64 (balance_at a s) → balance_at a (moved k to tokenId s) =
  (balance_at a s - (if decide (owner_at k s = a) then 1 else 0) + (if decide (to = a) then 1 else 0)) mod 2 ^ 64.
Proof.
  intros Ha Hr.
  assert (Hstep : ∀ d b s, balance_at a (step_balance d b s) =
    if decide (b = a) then wrap 64 (balance_at a s + d) else balance_at a s).
  { intros d b s'. unfold balance_at, step_balance. cbn. unfold balance_at.
    destruct (decide (b = a)) as [->|Hne]; [by rewrite lookup_insert_eq|by rewrite lookup_insert_ne]. }
  unfold moved. change (balance_at a (set_events ?e (put_owner ?k ?t ?x))) with (balance_at a x).
  destruct (Z.eqb_spec (owner_at k s) 0) as [E|E], (Z.eqb_spec to 0) as [Et|Et]; rewrite ?Hstep;
    change (balance_at a (put_approval k 0 s)) with (balance_at a s); unfold wrap;
    repeat case_decide; try congruence; rewrite ?Zplus_mod_idemp_l; try (f_equal; lia);
    rewrite Z.mod_small; unfold in_range in Hr; lia.
Qed.

Lemma owner_at_lookup a k s : a ≠ 0 → owner_at k s = a ↔ sm_value (owners_ s) !! k = Some a.
Proof. unfold owner_at. intros Ha. destruct (sm_value (owners_ s) !! k); cbn; naive_solver. Qed.

Lemma moved_inv k to tokenId s : nft_inv s → nft_inv (moved k to tokenId s).
Proof.
  intros [Hb Hp]. split.
  - intros a Ha. rewrite balance_at_moved; [|done|rewrite Hb by done; unfold in_range; apply Z.mod_pos_bound; lia].
    assert (Ho : sm_value (owners_ (moved k to tokenId s)) = <[k := to]> (sm_value (owners_ s))).
    { unfold moved. destruct (owner_at k s =? 0), (to =? 0); done. }
    rewrite Ho, tokens_insert, Hb by done.
    rewrite (decide_ext _ _ 1 0 (owner_at_lookup a k s Ha)).
    rewrite <- !Z.add_sub_swap, <- !Z.add_sub_assoc. apply Zplus_mod_idemp_l.
  - intros j. rewrite approved_at_moved, owner_at_moved. 
    destruct (decide (j = k)) as [->|Hne].
    + destruct (decide (k = k ∧ owner_at k s ≠ 0)) as [|Hn]; [done|]. intros Ha. exfalso. apply Hn. split; [done|]. by apply Hp.
    + rewrite decide_False by naive_solver. apply Hp.
Qed.

(** Code that returns keeps the invariant. *)
Definition keeps_inv {A} (m : M ERC721 A) : Prop := ∀ s a s', nft_inv s → m s = (Ret a, s') → nft_inv s'.

Lemma keeps_bind {A B} (m : M ERC721 A) (f : A → M ERC721 B) :
  keeps_inv m → (∀ a, keeps_inv (f a)) → keeps_inv (m ≫= f).
Proof. intros Hm Hf s b s' Hi H. apply bind_Ret in H as (a & s1 & E1 & E2). eapply Hf; [|exact E2]. by eapply Hm. Qed.
Lemma keeps_ret {A} (a : A) : keeps_inv (mret a).
Proof. intros s b s' Hi H. by injection H as <- <-. Qed.
Lemma keeps_lift {A} (o : outcome A) : keeps_inv (lift o).
Proof. intros s b s' Hi H. by injection H as _ <-. Qed.
Lemma keeps_throw_if b e : keeps_inv (throw_if b e).
Proof. destruct b; [done|apply keeps_ret]. Qed.

Lemma keeps_update to tokenId auth : keeps_inv (update_ to tokenId auth).
Proof.
  intros s a s' Hi H. rewrite update_run in H. destruct (to_u64 tokenId); [|done]. destruct (may_move _ _ _); [|done].
  injection H as _ <-. by apply moved_inv.
Qed.
Lemma keeps_transfer caller from to tokenId : keeps_inv (transfer_ caller from to tokenId).
Proof.
  apply keeps_bind; [apply keeps_throw_if|intros _]. apply keeps_bind; [apply keeps_update|intros p].
  destruct (p =? 0); [done|apply keeps_throw_if].
Qed.

Lemma keeps_approve to tokenId auth : keeps_inv (approve_ to tokenId auth).
Proof.
  intros s a s' [Hb Hp] H. unfold approve_, query, ownerOf, ownerOf_ in H.
  apply bind_Ret in H as (owner & s1 & Ho & H). injection Ho as Ho <-.
  destruct (to_u64 tokenId) as [k|] eqn:Ek; [|done]. cbn in Ho. destruct (Z.eqb_spec (owner_at k s) 0) as [|Hk]; [done|].
  apply bind_Ret in H as (? & s1 & E & H). injection E as <- <-.
  apply bind_Ret in H as ([] & s1 & E & H). unfold throw_if in E. destruct (_ && _); [done|]. injection E as <-.
  unfold lift, mbind, M_bind in H. rewrite approvals_put_run in H. cbn in H. injection H as _ <-.
  split; [exact Hb|]. intros j. change (owner_at j _) with (owner_at j s). unfold approved_at. cbn.
  destruct (decide (j = k)) as [->|Hne]; [done|]. rewrite lookup_insert_ne by done. apply Hp.
Qed.

Lemma keeps_setApprovalForAll owner operator b : keeps_inv (setApprovalForAll_ owner operator b).
Proof.
  apply keeps_bind; [apply keeps_throw_if|intros _]. intros s a s' Hi H. unfold mbind, M_bind, zoom in H.
  rewrite map_index_touch, map_write_touch in H. cbn in H. injection H as _ <-. exact Hi.
Qed.

Lemma keeps_op o : keeps_inv (nft_op o).
Proof.
  induction o as [c f t i|c f t i|c f t i l a Hl|c t i|c o b|t i|c i] using op_ind'; cbn [nft_op].
  - apply keeps_transfer.
  - apply keeps_bind; [apply keeps_transfer|intros _; apply keeps_ret].
  - apply keeps_bind; [apply keeps_transfer|intros _]. apply keeps_bind.
    + induction Hl as [|o l Ho Hl IH]; [apply keeps_ret|]. apply keeps_bind; [exact Ho|intros _; exact IH].
    + intros _. apply keeps_bind; [apply keeps_lift|intros r; apply keeps_throw_if].
  - apply keeps_bind; [apply keeps_approve|intros _; apply keeps_ret].
  - apply keeps_setApprovalForAll.
  - apply keeps_bind; [apply keeps_throw_if|intros _]. apply keeps_bind; [apply keeps_update|intros _; apply keeps_ret].
  - apply keeps_bind; [apply keeps_update|intros p; apply keeps_throw_if].
Qed.

Lemma same_values_inv s s' : same_values s s' → nft_inv s → nft_inv s'.
Proof.
  intros (Ho & Hb & Ha & _) [Hi1 Hi2]. unfold nft_inv, balance_at, approved_at, owner_at in *. rewrite Ho, Hb, Ha. done.
Qed.

Lemma call_inv {A} (m : M ERC721 A) s : preserves nft_le m → keeps_inv m → nft_clean s ∧ nft_inv s →
  nft_clean (nft_call m s).2 ∧ nft_inv (nft_call m s).2.
Proof.
  intros Hle Hk [Hc Hi]. destruct (nft_call_spec m s Hle Hc) as (Hc2 & _ & Hv & _). split; [exact Hc2|].
  eapply same_values_inv; [exact Hv|]. destruct (m s) as [[a|e] s1] eqn:E; cbn [fst snd]; [by eapply Hk|done].
Qed.

Lemma new_clean : nft_clean ERC721_new ∧ nft_inv ERC721_new.
Proof.
  unfold nft_clean, nft_inv, ERC721_new. cbn. split_and!; try (split; [done|intros; done]); try done.
Qed.

(** C34: from the constructor on, after any calls by anybody (transfers, safe
    transfers whose receivers call back into the token to any depth, approvals,
    mints and burns), returning or not, the balance of every account is the
    number of tokens it owns and only existing tokens have an approved address.
    A nested call that throws takes the call around it with it, also when the
    receiver catches the exception: no message of the execution returns after a
    failed C++ call ([cpp_failure_sticks]). *)
Theorem nft_supply_invariant (ops : list ERC721Op) :
  let s := nft_run ops ERC721_new in
  (∀ a, a ≠ 0 → balanceOf a s = Ret (tokens_of a (sm_value (owners_ s)) mod 2 ^ 64)) ∧
  (∀ k, approved_at k s ≠ 0 → owner_at k s ≠ 0).
Proof.
  cut (∀ s, nft_clean s ∧ nft_inv s → nft_inv (nft_run ops s)).
  { intros H. destruct (H ERC721_new new_clean) as [Hb Hp]. split; [|exact Hp].
    intros a Ha. unfold balanceOf. destruct (Z.eqb_spec a 0); [done|]. by rewrite Hb. }
  induction ops as [|o ops IH]; intros s Hs; [apply Hs|]. unfold nft_run in *. cbn [fold_left].
  apply IH. apply call_inv; [apply nft_op_le|apply keeps_op|done].
Qed.

Lemma nft_transfer_run caller from to tokenId k s : to_u64 tokenId = Ret k →
  if negb (to =? 0) && negb (owner_at k s =? 0) && (owner_at k s =? from) && may_move k caller s
  then transferFrom caller from to tokenId s = (Ret (), moved k to tokenId s)
  else ∃ e s', transferFrom caller from to tokenId s = (Throw e, s').
Proof.
  intros Hk. unfold transferFrom, transfer_. destruct (to =? 0); cbn [negb andb]; [by do 2 eexists|].
  unfold throw_if at 1. unfold mbind, M_bind. cbn. rewrite update_run, Hk.
  destruct (may_move k caller s); rewrite ?andb_false_r; [|by do 2 eexists].
  destruct (owner_at k s =? 0); cbn [negb andb]; [by do 2 eexists|].
  destruct (owner_at k s =? from); cbn; [done|by do 2 eexists].
Qed.

(** [transferFrom] is exact on every branch: it returns when the receiver is
    not the zero address, the token exists and belongs to [from], and the caller
    is its owner, an operator of the owner or approved for the token; then the
    owner changes, the approval is cleared, one token moves between the balances
    and nothing else changes.  In every other case the call throws and leaves
    owners, balances, approvals and events as they were. *)
Theorem nft_transferFrom_correct (caller from to : Address) (tokenId k : Z) (s : ERC721) :
  nft_clean s → nft_inv s → to_u64 tokenId = Ret k →
  let r := nft_call (transferFrom caller from to tokenId) s in
  if negb (to =? 0) && negb (owner_at k s =? 0) && (owner_at k s =? from) && may_move k caller s then
    r.1 = Ret () ∧ (∀ j, owner_at j r.2 = if decide (j = k) then to else owner_at j s) ∧
    (∀ j, approved_at j r.2 = if decide (j = k) then 0 else approved_at j s) ∧
    (∀ a, a ≠ 0 → balance_at a r.2 =
      (balance_at a s - (if decide (from = a) then 1 else 0) + (if decide (to = a) then 1 else 0)) mod 2 ^ 64) ∧
    nft_events r.2 = nft_events s ++ [NTransfer from to tokenId]
  else (∃ e, r.1 = Throw e) ∧ same_values s r.2 ∧ nft_events r.2 = nft_events s.
Proof.
  intros Hc Hi Hk r. pose proof (nft_transfer_run caller from to tokenId k s Hk) as H.
  destruct (nft_call_spec (transferFrom caller from to tokenId) s (transfer_le _ _ _ _) Hc) as (_ & Hr & Hv & He).
  fold r in Hr, Hv, He. destruct (negb (to =? 0) && _ && _ && _) eqn:Hok.
  - rewrite H in Hr, Hv, He. cbn [fst snd] in Hr, Hv, He. destruct Hv as (Vo & Vb & Va & _).
    apply andb_true_iff in Hok as [[[_ Hex]%andb_true_iff Hfrom%Z.eqb_eq]%andb_true_iff _].
    apply negb_true_iff, Z.eqb_neq in Hex. split; [exact Hr|]. split_and!.
    + intros j. rewrite <- (owner_at_moved j k to tokenId s). unfold owner_at. by rewrite Vo.
    + intros j. transitivity (approved_at j (moved k to tokenId s)); [unfold approved_at; by rewrite Va|].
      rewrite approved_at_moved. apply decide_ext. naive_solver.
    + intros a Ha. transitivity (balance_at a (moved k to tokenId s)); [unfold balance_at; by rewrite Vb|].
      rewrite balance_at_moved, Hfrom; [done|done|].
      destruct Hi as [Hb _]. rewrite Hb by done. unfold in_range. apply Z.mod_pos_bound. lia.
    + rewrite He. unfold moved. rewrite Hfrom. by destruct (from =? 0), (to =? 0).
  - destruct H as (e & s' & E). rewrite E in Hr, Hv, He. cbn [fst snd] in *. by eauto.
Qed.

(** [mint_] does not look whether the token exists: minting it again takes it
    from its owner, without any authorisation. *)
Lemma mint_takes_existing to tokenId k s : to_u64 tokenId = Ret k → to ≠ 0 →
  ∃ s', mint_ to tokenId s = (Ret (), s') ∧ owner_at k s' = to ∧ approved_at k s' = (if decide (owner_at k s = 0) then approved_at k s else 0).
Proof.
  intros Hk Ht. exists (moved k to tokenId s). split_and!.
  - unfold mint_. destruct (Z.eqb_spec to 0); [done|]. cbn. unfold mbind, M_bind. cbn.
    rewrite update_run, Hk. unfold may_move. cbn. done.
  - rewrite owner_at_moved. by rewrite decide_True.
  - rewrite approved_at_moved. repeat case_decide; naive_solver.
Qed.
End erc721.

(** The cast that refuses what does not fit. *)
#[export] Program Instance checked_u64 : NarrowCast := {|
  to_u64 z := if decide (0 <= z < 2 ^ 64) then Ret z else Throw boost_error;
|}.
Solve Obligations with (unfold in_range; cbn; intros; case_decide; naive_solver).

(** Account 5 holds token 7, 6 is approved for it. *)
Definition demo_nft : ERC721 := nft_run [OMint 5 7; OApprove 5 6 7] ERC721_new.

Lemma nft_supply_invariant_witness :
  let s := nft_run [OMint 5 7; OMint 5 8; OSafeTransferFrom 5 5 9 7 (Some ([OTransferFrom 9 9 6 7], Ret onERC721ReceiverSelector))]
             ERC721_new in
  balanceOf 5 s = Ret (tokens_of 5 (sm_value (owners_ s)) mod 2 ^ 64) ∧ balanceOf 5 s = Ret 1 ∧ balanceOf 6 s = Ret 1.
Proof.
  split; [|by vm_compute].
  apply (nft_supply_invariant [OMint 5 7; OMint 5 8;
    OSafeTransferFrom 5 5 9 7 (Some ([OTransferFrom 9 9 6 7], Ret onERC721ReceiverSelector))]). lia.
Defined.

Lemma demo_nft_ok : nft_clean demo_nft ∧ nft_inv demo_nft.
Proof.
  unfold demo_nft, nft_run. cbn [fold_left].
  apply call_inv; [apply nft_op_le|apply keeps_op|]. apply call_inv; [apply nft_op_le|apply keeps_op|]. apply new_clean.
Qed.

Lemma nft_transferFrom_correct_witness :
  let r := nft_call (transferFrom 6 5 9 7) demo_nft in
  r.1 = Ret () ∧ owner_at 7 r.2 = 9 ∧ approved_at 7 r.2 = 0.
Proof.
  pose proof (nft_transferFrom_correct 6 5 9 7 7 demo_nft (proj1 demo_nft_ok) (proj2 demo_nft_ok) eq_refl) as H.
  change (negb (9 =? 0) && negb (owner_at 7 demo_nft =? 0) && (owner_at 7 demo_nft =? 5) && may_move 7 6 demo_nft)
    with true in H.
  destruct H as (Hr & Ho & Ha & _). split_and!; [exact Hr|by rewrite Ho|by rewrite Ha].
Defined.
