(* ===== verification/DexLibrary.v ===== *)
(** * The arithmetic of the exchange

    Models src/contract/templates/dexv2/uq112x112.h (fixed-point prices) and
    src/contract/templates/dexv2/dexv2library.cpp (prices and paths).  The
    reserves the library asks other contracts for are an argument of the
    functions that walk a path; DexFactory.v supplies them. *)

From S2P Require Import Prelude CheckedInt.

(** ** UQ112x112 *)

Definition Q112 : Z := 5192296858534827628530496329220096.

Section library.
Context {BI : BoostInt}.

Definition uq_encode (x : Z) : outcome Z := umul 224 x Q112.
Definition uqdiv (x y : Z) : outcome Z := udiv 224 x y.

(** ** DEXV2Library *)

Definition sortTokens (tokenA tokenB : Address) : outcome (Address * Address) :=
  if tokenA =? tokenB then Throw (DynamicException "DEXV2Library: IDENTICAL_ADDRESSES")
  else
    let ret := if tokenA <? tokenB then (tokenA, tokenB) else (tokenB, tokenA) in
    if ret.1 =? 0 then Throw (DynamicException "DEXV2Library: ZERO_ADDRESS") else Ret ret.

Definition quote (amountA reserveA reserveB : Z) : outcome Z :=
  if amountA =? 0 then Throw (DynamicException "DEXV2Library: INSUFFICIENT_AMOUNT")
  else if (reserveA =? 0) || (reserveB =? 0)
  then Throw (DynamicException "DEXV2Library: INSUFFICIENT_LIQUIDITY")
  else n ← umul 256 amountA reserveB; udiv 256 n reserveA.

Definition getAmountOut (amountIn reserveIn reserveOut : Z) : outcome Z :=
  if amountIn =? 0 then Throw (DynamicException "DEXV2Library: INSUFFICIENT_INPUT_AMOUNT")
  else if (reserveIn =? 0) || (reserveOut =? 0)
  then Throw (DynamicException "DEXV2Library: INSUFFICIENT_LIQUIDITY")
  else
    amountInWithFee ← umul 256 amountIn 997;
    numerator ← umul 256 amountInWithFee reserveOut;
    d ← umul 256 reserveIn 1000;
    denominator ← uadd 256 d amountInWithFee;
    udiv 256 numerator denominator.

Definition getAmountIn (amountOut reserveIn reserveOut : Z) : outcome Z :=
  if amountOut =? 0 then Throw (DynamicException "DEXV2Library: INSUFFICIENT_OUTPUT_AMOUNT")
  else if (reserveIn =? 0) || (reserveOut =? 0)
  then Throw (DynamicException "DEXV2Library: INSUFFICIENT_LIQUIDITY")
  else
    n ← umul 256 reserveIn amountOut;
    numerator ← umul 256 n 1000;
    d ← usub 256 reserveOut amountOut;
    denominator ← umul 256 d 997;
    q ← udiv 256 numerator denominator;
    uadd 256 q 1.

(** The loops of [getAmountsOut] and [getAmountsIn]; the second fills the vector
    from its end. *)
Fixpoint amounts_out (getReserves : Address → Address → outcome (Z * Z)) (amount : Z)
    (path : list Address) : outcome (list Z) :=
  match path with
  | a :: ((b :: _) as rest) =>
      r ← getReserves a b;
      out ← getAmountOut amount r.1 r.2;
      l ← amounts_out getReserves out rest;
      Ret (amount :: l)
  | _ => Ret [amount]
  end.

Fixpoint amounts_in (getReserves : Address → Address → outcome (Z * Z)) (amountOut : Z)
    (path : list Address) : outcome (list Z) :=
  match path with
  | a :: ((b :: _) as rest) =>
      l ← amounts_in getReserves amountOut rest;
      r ← getReserves a b;
      i ← getAmountIn (default 0 (head l)) r.1 r.2;
      Ret (i :: l)
  | _ => Ret [amountOut]
  end.

Definition getAmountsOut (getReserves : Address → Address → outcome (Z * Z)) (amountIn : Z)
    (path : list Address) : outcome (list Z) :=
  if (length path <? 2)%nat then Throw (DynamicException "DEXV2Library: INVALID_PATH")
  else amounts_out getReserves amountIn path.

Definition getAmountsIn (getReserves : Address → Address → outcome (Z * Z)) (amountOut : Z)
    (path : list Address) : outcome (list Z) :=
  if (length path <? 2)%nat then Throw (DynamicException "DEXV2Library: INVALID_PATH")
  else amounts_in getReserves amountOut path.

(** ** What the prices mean *)

(** The test of [DEXV2Pair::swap]: the product of the balances, three thousandths
    of the input set aside, is at least the product of the reserves. *)
Definition k_test (balanceIn balanceOut amountIn reserveIn reserveOut : Z) : Prop :=
  reserveIn * reserveOut * 1000 * 1000 ≤ (balanceIn * 1000 - amountIn * 3) * (balanceOut * 1000).

Lemma getAmountOut_Ret amountIn reserveIn reserveOut out :
  getAmountOut amountIn reserveIn reserveOut = Ret out →
  amountIn ≠ 0 ∧ reserveIn ≠ 0 ∧ reserveOut ≠ 0 ∧
  out = amountIn * 997 * reserveOut / (reserveIn * 1000 + amountIn * 997).
Proof.
  unfold getAmountOut. destruct (Z.eqb_spec amountIn 0); [done|].
  destruct (Z.eqb_spec reserveIn 0); [done|]. destruct (Z.eqb_spec reserveOut 0); [done|].
  cbn. intros H. inv_run. inv_checked. done.
Qed.

Lemma getAmountIn_Ret amountOut reserveIn reserveOut i :
  getAmountIn amountOut reserveIn reserveOut = Ret i →
  amountOut ≠ 0 ∧ reserveIn ≠ 0 ∧ reserveOut ≠ 0 ∧ 0 ≤ reserveOut - amountOut ∧ reserveOut ≠ amountOut ∧
  i = reserveIn * amountOut * 1000 / ((reserveOut - amountOut) * 997) + 1.
Proof.
  unfold getAmountIn. destruct (Z.eqb_spec amountOut 0); [done|].
  destruct (Z.eqb_spec reserveIn 0); [done|]. destruct (Z.eqb_spec reserveOut 0); [done|].
  cbn. intros H. inv_run. inv_checked. split_and!; try done; lia.
Qed.

(** The product test in terms of the price: [out] passes exactly when it is at
    most the exact price. *)
Lemma k_test_price i o ri ro :
  k_test (ri + i) (ro - o) i ri ro ↔ o * (ri * 1000 + i * 997) ≤ i * 997 * ro.
Proof. unfold k_test. nia. Qed.

(** What the library computes with numbers of at most 112 bits never overflows. *)
Lemma getAmountOut_returns i ri ro :
  0 < i < 2 ^ 112 → 0 < ri < 2 ^ 112 → 0 < ro < 2 ^ 112 →
  getAmountOut i ri ro = Ret (i * 997 * ro / (ri * 1000 + i * 997)).
Proof.
  intros Hi Hri Hro. unfold getAmountOut.
  rewrite !(proj2 (Z.eqb_neq _ _)) by lia. cbn [orb].
  assert (Hn : 0 ≤ i * 997 * ro < 2 ^ 256) by nia.
  unfold umul, uadd. do 4 (rewrite mk_unsigned_fits by (unfold in_range; nia); cbn [mbind outcome_bind]).
  unfold udiv. rewrite (proj2 (Z.eqb_neq _ _)) by lia. apply mk_unsigned_fits.
  split; [apply Z.div_pos; lia|]. apply Z.div_lt_upper_bound; [lia|]. nia.
Qed.
End library.

Lemma floor_le a b q : 0 < b → q ≤ a / b ↔ q * b ≤ a.
Proof. intros Hb. pose proof (Z.div_mod a b ltac:(lia)). pose proof (Z.mod_pos_bound a b Hb). nia. Qed.

(** [getAmountOut] returns for all amounts and reserves of at most 112 bits;
    its result is below the reserve and is exactly the largest output that passes
    the product test of the pair.  What [getAmountIn] returns always passes that
    test and two units less would not. *)
Theorem dex_prices {BI : BoostInt} (ri ro : Z) : 0 < ri < 2 ^ 112 → 0 < ro < 2 ^ 112 →
  (∀ i, 0 < i < 2 ^ 112 → ∃ out, getAmountOut i ri ro = Ret out ∧ 0 ≤ out < ro ∧
     ∀ o, o ≤ out ↔ k_test (ri + i) (ro - o) i ri ro) ∧
  (∀ o i, 0 < o → getAmountIn o ri ro = Ret i →
     o < ro ∧ k_test (ri + i) (ro - o) i ri ro ∧ ¬ k_test (ri + (i - 2)) (ro - o) (i - 2) ri ro).
Proof.
  intros Hri Hro. split.
  - intros i Hi. eexists. split; [by apply getAmountOut_returns|]. split.
    + split; [apply Z.div_pos; nia|]. apply Z.div_lt_upper_bound; nia.
    + intros o. rewrite k_test_price. apply floor_le. lia.
  - intros o i Ho H. apply getAmountIn_Ret in H as (_ & _ & _ & Hle & Hne & ->).
    assert (Hd : 0 < (ro - o) * 997) by lia. rewrite !k_test_price.
    pose proof (Z.div_mod (ri * o * 1000) ((ro - o) * 997) ltac:(lia)) as Hq.
    pose proof (Z.mod_pos_bound (ri * o * 1000) ((ro - o) * 997) Hd) as Hm.
    set (q := ri * o * 1000 / ((ro - o) * 997)) in *. split_and!; nia.
Qed.

Lemma dex_prices_witness :
  (∃ out, getAmountOut (BI := boost_ref) 100 4000 1000 = Ret out ∧ 0 ≤ out < 1000) ∧
  getAmountIn (BI := boost_ref) 24 4000 1000 = Ret 99 ∧ k_test (4000 + 99) (1000 - 24) 99 4000 1000.
Proof.
  destruct (dex_prices (BI := boost_ref) 4000 1000 ltac:(lia) ltac:(lia)) as [H1 H2]. split_and!.
  - destruct (H1 100 ltac:(lia)) as (out & E & Hr & _). by exists out.
  - vm_compute. reflexivity.
  - apply (H2 24 99); [lia|vm_compute; reflexivity].
Defined.
