(* ===== verification/DexPair.v ===== *)
(** * The pair contract of the exchange

    Models src/contract/templates/dexv2/dexv2pair.cpp: a pool of two tokens whose
    shares are an ERC-20 token of their own.  The pair calls other contracts
    (the two tokens and the factory) through the host; [TokenWorld] is the
    interface it calls, with the state [T] of all the other contracts, and
    [TokenLaws] what an honest token promises.  [ledger] is the instance in which
    the tokens are the ERC-20 contracts of ERC20.v.

    A token may be any contract, also one that calls the pair back: the guarded
    functions of the pair refuse such a call ([pair_locked_throws]), which is why
    a call of the model changes [T] only.  The pair's own shares are not one of
    the two tokens. *)

From S2P Require Import Prelude CheckedInt SafeBase SafeScalars SafeUint SafeMap ERC20 DexLibrary.

(** What the pair calls: [ERC20::transfer] and [ERC20::balanceOf] of the contract
    at an address, [DEXV2Factory::feeTo]. *)
Class TokenWorld (T : Type) := {
  call_transfer : ∀ token caller to : Address, Z → M T bool;
  call_balanceOf : ∀ token owner : Address, M T Z;
  call_feeTo : Address → M T Address;
}.

Record DEXV2Pair := mkPair {
  p_erc20 : ERC20;
  factory_ : SafeAddress;
  token0_ : SafeAddress;
  token1_ : SafeAddress;
  reserve0_ : SafeUint_t;
  reserve1_ : SafeUint_t;
  blockTimestampLast_ : SafeUint_t;
  price0CumulativeLast_ : SafeUint_t;
  price1CumulativeLast_ : SafeUint_t;
  kLast_ : SafeUint_t;
  reentrancyLock_ : bool;
  contractAddress_ : Address;
}.

Definition put_erc20 v p := mkPair v (factory_ p) (token0_ p) (token1_ p) (reserve0_ p) (reserve1_ p) (blockTimestampLast_ p) (price0CumulativeLast_ p) (price1CumulativeLast_ p) (kLast_ p) (reentrancyLock_ p) (contractAddress_ p).
Definition put_token0 v p := mkPair (p_erc20 p) (factory_ p) v (token1_ p) (reserve0_ p) (reserve1_ p) (blockTimestampLast_ p) (price0CumulativeLast_ p) (price1CumulativeLast_ p) (kLast_ p) (reentrancyLock_ p) (contractAddress_ p).
Definition put_token1 v p := mkPair (p_erc20 p) (factory_ p) (token0_ p) v (reserve0_ p) (reserve1_ p) (blockTimestampLast_ p) (price0CumulativeLast_ p) (price1CumulativeLast_ p) (kLast_ p) (reentrancyLock_ p) (contractAddress_ p).
Definition put_reserve0 v p := mkPair (p_erc20 p) (factory_ p) (token0_ p) (token1_ p) v (reserve1_ p) (blockTimestampLast_ p) (price0CumulativeLast_ p) (price1CumulativeLast_ p) (kLast_ p) (reentrancyLock_ p) (contractAddress_ p).
Definition put_reserve1 v p := mkPair (p_erc20 p) (factory_ p) (token0_ p) (token1_ p) (reserve0_ p) v (blockTimestampLast_ p) (price0CumulativeLast_ p) (price1CumulativeLast_ p) (kLast_ p) (reentrancyLock_ p) (contractAddress_ p).
Definition put_timestamp v p := mkPair (p_erc20 p) (factory_ p) (token0_ p) (token1_ p) (reserve0_ p) (reserve1_ p) v (price0CumulativeLast_ p) (price1CumulativeLast_ p) (kLast_ p) (reentrancyLock_ p) (contractAddress_ p).
Definition put_price0 v p := mkPair (p_erc20 p) (factory_ p) (token0_ p) (token1_ p) (reserve0_ p) (reserve1_ p) (blockTimestampLast_ p) v (price1CumulativeLast_ p) (kLast_ p) (reentrancyLock_ p) (contractAddress_ p).
Definition put_price1 v p := mkPair (p_erc20 p) (factory_ p) (token0_ p) (token1_ p) (reserve0_ p) (reserve1_ p) (blockTimestampLast_ p) (price0CumulativeLast_ p) v (kLast_ p) (reentrancyLock_ p) (contractAddress_ p).
Definition put_kLast v p := mkPair (p_erc20 p) (factory_ p) (token0_ p) (token1_ p) (reserve0_ p) (reserve1_ p) (blockTimestampLast_ p) (price0CumulativeLast_ p) (price1CumulativeLast_ p) v (reentrancyLock_ p) (contractAddress_ p).
Definition put_lock v p := mkPair (p_erc20 p) (factory_ p) (token0_ p) (token1_ p) (reserve0_ p) (reserve1_ p) (blockTimestampLast_ p) (price0CumulativeLast_ p) (price1CumulativeLast_ p) (kLast_ p) v (contractAddress_ p).

Definition MINIMUM_LIQUIDITY : Z := 1000.

(** [DEXV2Pair(address, creator, chainId)]: [initialize] sets the tokens later. *)
Definition fresh_var {A} (v : A) : Scalar A := mkScalar (mkSafeBase true false true) v v.
Definition DEXV2Pair_new {BI : BoostInt} (address creator : Address) : outcome DEXV2Pair :=
  e ← ERC20_new creator 0;
  Ret (mkPair e (fresh_var creator) (fresh_var 0) (fresh_var 0) (fresh_var 0) (fresh_var 0)
    (fresh_var 0) (fresh_var 0) (fresh_var 0) (fresh_var 0) false address).

(** A call of the pair: the pair and the other contracts. *)
Record DexCall (T : Type) := mkDexCall { pair : DEXV2Pair; world : T }.
Arguments mkDexCall {T}.
Arguments pair {T}.
Arguments world {T}.

Section pair.
Context {BI : BoostInt} {T : Type} {TW : TokenWorld T}.

Definition in_pair {A} (m : M DEXV2Pair A) : M (DexCall T) A :=
  zoom pair (λ p s, mkDexCall p (world s)) m.
Definition in_world {A} (m : M T A) : M (DexCall T) A :=
  zoom world (λ w s, mkDexCall (pair s) w) m.
Definition in_erc20 {A} (m : M ERC20 A) : M (DexCall T) A := in_pair (zoom p_erc20 put_erc20 m).

(** [ReentrancyGuard]: the constructor throws when the lock is taken, the
    destructor frees it whatever happened. *)
Definition with_lock {A} (m : M (DexCall T) A) : M (DexCall T) A := λ s,
  if reentrancyLock_ (pair s)
  then (Throw (DynamicException "ReentrancyGuard: reentrancy attack detected"), s)
  else
    let '(r, s') := m (mkDexCall (put_lock true (pair s)) (world s)) in
    (r, mkDexCall (put_lock false (pair s')) (world s')).

Definition _safeTransfer (token to : Address) (value : Z) : M (DexCall T) unit :=
  self ← gets (λ s, contractAddress_ (pair s));
  in_world (call_transfer token self to value) ;;
  mret ().

(** [callContractViewFunction(token, &ERC20::balanceOf, getContractAddress())] *)
Definition own_balance (token : Address) : M (DexCall T) Z :=
  self ← gets (λ s, contractAddress_ (pair s)); in_world (call_balanceOf token self).

(** The price accumulators of [_update]. *)
Definition accumulate (timeElapsed reserve0 reserve1 : Z) : M DEXV2Pair unit :=
  r1 ← lift (mk_unsigned 112 reserve1); e ← lift (uq_encode r1);
  r0 ← lift (mk_unsigned 112 reserve0); q ← lift (uqdiv e r0);
  d ← lift (umul 256 q timeElapsed);
  zoom price0CumulativeLast_ put_price0 (uint_add_assign_uint 256 d) ;;
  r0 ← lift (mk_unsigned 112 reserve0); e ← lift (uq_encode r0);
  r1 ← lift (mk_unsigned 112 reserve1); q ← lift (uqdiv e r1);
  d ← lift (umul 256 q timeElapsed);
  zoom price1CumulativeLast_ put_price1 (uint_add_assign_uint 256 d).

Definition _update (now balance0 balance1 reserve0 reserve1 : Z) : M DEXV2Pair unit :=
  let blockTimestamp := wrap 32 (now / 1000000) in
  last ← gets (λ p, value_ (blockTimestampLast_ p));
  let timeElapsed := wrap 32 (blockTimestamp - last) in
  (if (0 <? timeElapsed) && negb (reserve0 =? 0) && negb (reserve1 =? 0)
   then accumulate timeElapsed reserve0 reserve1 else mret ()) ;;
  b0 ← lift (mk_unsigned 112 balance0);
  zoom reserve0_ put_reserve0 (uint_assign_uint b0) ;;
  b1 ← lift (mk_unsigned 112 balance1);
  zoom reserve1_ put_reserve1 (uint_assign_uint b1) ;;
  zoom blockTimestampLast_ put_timestamp (uint_assign_uint blockTimestamp).

Definition _mintFee (reserve0 reserve1 : Z) : M (DexCall T) bool :=
  f ← gets (λ s, value_ (factory_ (pair s)));
  feeTo ← in_world (call_feeTo f);
  let feeOn := negb (feeTo =? 0) in
  kLast ← gets (λ s, value_ (kLast_ (pair s)));
  (if feeOn && negb (kLast =? 0) then
     k ← lift (umul 256 reserve0 reserve1);
     let rootK := bsqrt k in
     let rootKLast := bsqrt kLast in
     if rootK >? rootKLast then
       supply ← gets (λ s, totalSupply (p_erc20 (pair s)));
       d ← lift (usub 256 rootK rootKLast);
       numerator ← lift (umul 256 supply d);
       r5 ← lift (umul 256 rootK 5);
       denominator ← lift (uadd 256 r5 rootKLast);
       liquidity ← lift (udiv 256 numerator denominator);
       if liquidity >? 0 then in_erc20 (mintValue_ feeTo liquidity) else mret ()
     else mret ()
   else if negb (kLast =? 0) then in_pair (zoom kLast_ put_kLast (uint_assign_int 256 0))
   else mret ()) ;;
  mret feeOn.

Definition initialize (caller token0 token1 : Address) : M DEXV2Pair unit :=
  f ← gets factory_;
  throw_if (negb (address_eq f caller)) (DynamicException "DEXV2Pair: FORBIDDEN") ;;
  zoom token0_ put_token0 (address_assign token0) ;;
  zoom token1_ put_token1 (address_assign token1).

Definition getReserves (p : DEXV2Pair) : Z * Z * Z :=
  (value_ (reserve0_ p), value_ (reserve1_ p), value_ (blockTimestampLast_ p)).

(** The reserves and token addresses the functions below read with [get()]. *)
Definition res0 (s : DexCall T) : Z := value_ (reserve0_ (pair s)).
Definition res1 (s : DexCall T) : Z := value_ (reserve1_ (pair s)).
Definition tok0 (s : DexCall T) : Address := value_ (token0_ (pair s)).
Definition tok1 (s : DexCall T) : Address := value_ (token1_ (pair s)).

(** [this->_update(balance0, balance1, this->reserve0_.get(), this->reserve1_.get())] *)
Definition update_reserves (now balance0 balance1 : Z) : M (DexCall T) unit :=
  r0 ← gets res0; r1 ← gets res1; in_pair (_update now balance0 balance1 r0 r1).

(** [if (feeOn) kLast_ = reserve0 * reserve1] *)
Definition remember_k (feeOn : bool) : M (DexCall T) unit :=
  if feeOn then
    r0 ← gets res0; r1 ← gets res1;
    k ← lift (umul 256 r0 r1);
    in_pair (zoom kLast_ put_kLast (uint_assign_uint k))
  else mret ().

Definition mint (now : Z) (to : Address) : M (DexCall T) Z := with_lock (
  t0 ← gets tok0; balance0 ← own_balance t0;
  t1 ← gets tok1; balance1 ← own_balance t1;
  r0 ← gets res0; amount0 ← lift (usub 256 balance0 r0);
  r1 ← gets res1; amount1 ← lift (usub 256 balance1 r1);
  feeOn ← _mintFee r0 r1;
  supply ← gets (λ s, totalSupply (p_erc20 (pair s)));
  liquidity ← (if supply =? 0 then
      k ← lift (umul 256 amount0 amount1);
      l ← lift (usub 256 (bsqrt k) MINIMUM_LIQUIDITY);
      in_erc20 (mintValue_ 0 MINIMUM_LIQUIDITY) ;;
      mret l
    else
      n0 ← lift (umul 256 amount0 supply); l0 ← lift (udiv 256 n0 r0);
      n1 ← lift (umul 256 amount1 supply); l1 ← lift (udiv 256 n1 r1);
      mret (Z.min l0 l1));
  throw_if (liquidity =? 0) (DynamicException "DEXV2Pair: INSUFFICIENT_LIQUIDITY_MINTED") ;;
  in_erc20 (mintValue_ to liquidity) ;;
  update_reserves now balance0 balance1 ;;
  remember_k feeOn ;;
  mret liquidity).

Definition burn (now : Z) (to : Address) : M (DexCall T) (Z * Z) := with_lock (
  t0 ← gets tok0; balance0 ← own_balance t0;
  t1 ← gets tok1; balance1 ← own_balance t1;
  self ← gets (λ s, contractAddress_ (pair s));
  liquidity ← gets (λ s, balanceOf self (p_erc20 (pair s)));
  r0 ← gets res0; r1 ← gets res1;
  feeOn ← _mintFee r0 r1;
  supply ← gets (λ s, totalSupply (p_erc20 (pair s)));
  n0 ← lift (umul 256 liquidity balance0); amount0 ← lift (udiv 256 n0 supply);
  n1 ← lift (umul 256 liquidity balance1); amount1 ← lift (udiv 256 n1 supply);
  throw_if ((amount0 =? 0) || (amount1 =? 0))
    (DynamicException "DEXV2Pair: INSUFFICIENT_LIQUIDITY_BURNED") ;;
  in_erc20 (burnValue_ self liquidity) ;;
  _safeTransfer t0 to amount0 ;;
  _safeTransfer t1 to amount1 ;;
  balance0 ← own_balance t0;
  balance1 ← own_balance t1;
  update_reserves now balance0 balance1 ;;
  remember_k feeOn ;;
  mret (amount0, amount1)).

(** The first three tests of [swap]; the second narrows its second amount only
    when its first half holds. *)
Definition swap_checks (amount0Out amount1Out : Z) (to : Address) : M (DexCall T) unit :=
  throw_if ((amount0Out =? 0) && (amount1Out =? 0))
    (DynamicException "DEXV2Pair: INSUFFICIENT_OUTPUT_AMOUNT") ;;
  p ← gets pair;
  a0 ← lift (mk_unsigned 112 amount0Out);
  (if uint_le_uint (reserve0_ p) a0 then
     a1 ← lift (mk_unsigned 112 amount1Out);
     throw_if (uint_le_uint (reserve1_ p) a1) (DynamicException "DEXV2Pair: INSUFFICIENT_LIQUIDITY")
   else mret ()) ;;
  throw_if (address_eq (token0_ p) to || address_eq (token1_ p) to)
    (DynamicException "DEXV2Pair: INVALID_TO").

(** [balance > reserve - uint112_t(amountOut) ? balance - reserve + uint112_t(amountOut) : 0] *)
Definition amount_in (balance reserve amountOut : Z) : outcome Z :=
  a ← mk_unsigned 112 amountOut;
  d ← usub 112 reserve a;
  if balance >? d then e ← usub 256 balance reserve; uadd 256 e a else Ret 0.

(** [balance * 1000 - amountIn * 3] *)
Definition adjusted (balance amountIn : Z) : outcome Z :=
  b ← umul 256 balance 1000; a ← umul 256 amountIn 3; usub 256 b a.

Definition swap (now amount0Out amount1Out : Z) (to : Address) : M (DexCall T) unit := with_lock (
  swap_checks amount0Out amount1Out to ;;
  t0 ← gets tok0; t1 ← gets tok1;
  (if amount0Out >? 0 then _safeTransfer t0 to amount0Out else mret ()) ;;
  (if amount1Out >? 0 then _safeTransfer t1 to amount1Out else mret ()) ;;
  balance0 ← own_balance t0;
  balance1 ← own_balance t1;
  r0 ← gets res0; r1 ← gets res1;
  amount0In ← lift (amount_in balance0 r0 amount0Out);
  amount1In ← lift (amount_in balance1 r1 amount1Out);
  throw_if ((amount0In =? 0) && (amount1In =? 0))
    (DynamicException "DEXV2Pair: INSUFFICIENT_INPUT_AMOUNT") ;;
  balance0Adjusted ← lift (adjusted balance0 amount0In);
  balance1Adjusted ← lift (adjusted balance1 amount1In);
  balTotal ← lift (umul 256 balance0Adjusted balance1Adjusted);
  k ← lift (umul 256 r0 r1); k ← lift (umul 256 k 1000); k ← lift (umul 256 k 1000);
  throw_if (balTotal <? k) (DynamicException "DEXV2Pair: K") ;;
  update_reserves now balance0 balance1).

Definition skim (to : Address) : M (DexCall T) unit := with_lock (
  t0 ← gets tok0; b0 ← own_balance t0; r0 ← gets res0; d0 ← lift (usub 256 b0 r0);
  _safeTransfer t0 to d0 ;;
  t1 ← gets tok1; b1 ← own_balance t1; r1 ← gets res1; d1 ← lift (usub 256 b1 r1);
  _safeTransfer t1 to d1).

Definition sync (now : Z) : M (DexCall T) unit := with_lock (
  t0 ← gets tok0; b0 ← own_balance t0;
  t1 ← gets tok1; b1 ← own_balance t1;
  update_reserves now b0 b1).

(** ** What the helpers do *)

(** The fields an update of the reserves leaves alone. *)
Definition pair_frame (p p' : DEXV2Pair) : Prop :=
  p_erc20 p' = p_erc20 p ∧ factory_ p' = factory_ p ∧ token0_ p' = token0_ p ∧ token1_ p' = token1_ p ∧
  reentrancyLock_ p' = reentrancyLock_ p ∧ contractAddress_ p' = contractAddress_ p.

#[local] Instance pair_frame_preorder : PreOrder pair_frame.
Proof. split; unfold pair_frame; [done|]. intros ??? (?&?&?&?&?&?) (?&?&?&?&?&?). split_and!; congruence. Qed.

Definition pair_keeps (p p' : DEXV2Pair) : Prop :=
  pair_frame p p' ∧ reserve0_ p' = reserve0_ p ∧ reserve1_ p' = reserve1_ p.
#[local] Instance pair_keeps_preorder : PreOrder pair_keeps.
Proof.
  split; [done|]. intros ??? (?&?&?) (?&?&?). split_and!; [by etrans|congruence..].
Qed.

Lemma accumulate_keeps t r0 r1 : preserves pair_keeps (accumulate t r0 r1).
Proof.
  assert (Hz : ∀ m : M SafeUint_t unit, preserves pair_keeps (zoom price0CumulativeLast_ put_price0 m) ∧
                    preserves pair_keeps (zoom price1CumulativeLast_ put_price1 m)).
  { intros m. split; intros p; unfold zoom; destruct (m _); done. }
  unfold accumulate.
  repeat first [apply Hz | apply preserves_lift; apply _ | apply preserves_bind; [apply _| |intros ?]].
Qed.

(** A scalar variable after an assignment. *)
Lemma assign_run b (x : SafeUint_t) :
  uint_assign_uint b x = (Ret (), mkScalar (markAsUsed (sc_base x)) b (copy_ x)).
Proof. done. Qed.

Lemma _update_Ret now b0 b1 r0 r1 p p' : _update now b0 b1 r0 r1 p = (Ret (), p') →
  in_range 112 b0 ∧ in_range 112 b1 ∧ value_ (reserve0_ p') = b0 ∧ value_ (reserve1_ p') = b1 ∧
  pair_frame p p'.
Proof.
  unfold _update. intros H. inv_run.
  match goal with H : (if _ then accumulate ?t ?a ?b else _) ?p = (Ret _, ?q) |- _ =>
    assert (Hk : pair_keeps p q);
    [destruct (_ && _ && _) in H; [pose proof (accumulate_keeps t a b p) as Hk; by rewrite H in Hk|inv_run; done]|]
  end.
  repeat match goal with H : uint_assign_uint _ _ = _ |- _ => rewrite assign_run in H; injection H as H end.
  inv_checked. subst. destruct Hk as (Hf & _). repeat split; try done; try lia; apply Hf.
Qed.

Lemma with_lock_Ret {A} (m : M (DexCall T) A) s a s' : with_lock m s = (Ret a, s') →
  reentrancyLock_ (pair s) = false ∧ ∃ s1,
    m (mkDexCall (put_lock true (pair s)) (world s)) = (Ret a, s1) ∧
    s' = mkDexCall (put_lock false (pair s1)) (world s1).
Proof.
  unfold with_lock. destruct (reentrancyLock_ (pair s)); [done|]. destruct (m _) as [r s1] eqn:E.
  intros [= -> <-]. eauto.
Qed.

(** What the pair got: the growth of its balance over the reserve less the output. *)
Definition paid_in (balance reserve out : Z) : Z :=
  if balance >? reserve - out then balance - reserve + out else 0.

(** The input the pair computes is what its balance grew by. *)
Lemma amount_in_Ret b r a i : amount_in b r a = Ret i →
  in_range 112 a ∧ a ≤ r ∧ i = paid_in b r a.
Proof.
  unfold amount_in, paid_in. intros H. inv_run. inv_checked.
  destruct (_ >? _); inv_run; inv_checked; split_and!; lia.
Qed.

Lemma adjusted_Ret b i z : adjusted b i = Ret z → z = b * 1000 - i * 3 ∧ 0 ≤ b * 1000 - i * 3.
Proof. unfold adjusted. intros H. inv_run. inv_checked. lia. Qed.

Lemma own_balance_Ret tok s b s' : own_balance tok s = (Ret b, s') →
  ∃ w, call_balanceOf tok (contractAddress_ (pair s)) (world s) = (Ret b, w) ∧ s' = mkDexCall (pair s) w.
Proof. unfold own_balance, in_world. intros H. inv_run. eauto. Qed.

Lemma _safeTransfer_Ret tok to v s u s' : _safeTransfer tok to v s = (Ret u, s') →
  ∃ b w, call_transfer tok (contractAddress_ (pair s)) to v (world s) = (Ret b, w) ∧
    s' = mkDexCall (pair s) w.
Proof. unfold _safeTransfer, in_world. intros H. inv_run. eauto. Qed.

Lemma update_reserves_Ret now b0 b1 s u s' : update_reserves now b0 b1 s = (Ret u, s') →
  world s' = world s ∧ in_range 112 b0 ∧ in_range 112 b1 ∧ res0 s' = b0 ∧ res1 s' = b1 ∧
  pair_frame (pair s) (pair s').
Proof.
  unfold update_reserves, in_pair. intros H. inv_run. destruct u.
  match goal with H : _update _ _ _ _ _ _ = _ |- _ => apply _update_Ret in H end. naive_solver.
Qed.

Lemma swap_checks_Ret a0 a1 to s u s' : swap_checks a0 a1 to s = (Ret u, s') → s' = s.
Proof.
  unfold swap_checks. intros H. inv_run.
  match goal with H : (if _ then _ else _) _ = _ |- _ => destruct (uint_le_uint _ _); inv_run end; done.
Qed.

Lemma paid_in_nonneg b r a : 0 ≤ paid_in b r a.
Proof. unfold paid_in. destruct (Z.gtb_spec b (r - a)); lia. Qed.

(** Setting part of the input aside, the test still bounds the plain product. *)
Lemma k_of_test r0 r1 b0 b1 i0 i1 : 0 ≤ i0 → 0 ≤ i1 → 0 ≤ b0 → 0 ≤ b1 →
  0 ≤ b0 * 1000 - i0 * 3 → 0 ≤ b1 * 1000 - i1 * 3 →
  r0 * r1 * 1000 * 1000 ≤ (b0 * 1000 - i0 * 3) * (b1 * 1000 - i1 * 3) → r0 * r1 ≤ b0 * b1.
Proof.
  intros. assert ((b0 * 1000 - i0 * 3) * (b1 * 1000 - i1 * 3) ≤ (b0 * 1000) * (b1 * 1000)); [|lia].
  apply Z.mul_le_mono_nonneg; lia.
Qed.

(** The payment of one output, when there is one. *)
Definition pays (tok self to : Address) (a : Z) (w w' : T) : Prop :=
  if a >? 0 then ∃ b, call_transfer tok self to a w = (Ret b, w') else w' = w.

Lemma pay_Ret tok to a s u s' :
  (if a >? 0 then _safeTransfer tok to a else mret ()) s = (Ret u, s') →
  pair s' = pair s ∧ pays tok (contractAddress_ (pair s)) to a (world s) (world s').
Proof.
  unfold pays. destruct (a >? 0); intros H; [apply _safeTransfer_Ret in H as (b & w & H & ->)|inv_run]; eauto.
Qed.

(** A swap that returns, read off its steps: it paid the outputs, the balances it
    then read are the new reserves, and the product test held for them. *)
Lemma swap_Ret now a0 a1 to s s' : swap now a0 a1 to s = (Ret (), s') →
  let in0 := paid_in (res0 s') (res0 s) a0 in
  let in1 := paid_in (res1 s') (res1 s) a1 in
  let me := contractAddress_ (pair s) in
  (∃ w1 w2 w3, pays (tok0 s) me to a0 (world s) w1 ∧ pays (tok1 s) me to a1 w1 w2 ∧
     call_balanceOf (tok0 s) me w2 = (Ret (res0 s'), w3) ∧
     call_balanceOf (tok1 s) me w3 = (Ret (res1 s'), world s')) ∧
  in_range 112 a0 ∧ a0 ≤ res0 s ∧ in_range 112 a1 ∧ a1 ≤ res1 s ∧ in_range 112 (res0 s') ∧ in_range 112 (res1 s') ∧
  0 ≤ res0 s' * 1000 - in0 * 3 ∧ 0 ≤ res1 s' * 1000 - in1 * 3 ∧
  res0 s * res1 s * 1000 * 1000 ≤ (res0 s' * 1000 - in0 * 3) * (res1 s' * 1000 - in1 * 3) ∧
  ¬ (in0 = 0 ∧ in1 = 0) ∧ ¬ (a0 = 0 ∧ a1 = 0) ∧
  pair_frame (pair s) (pair s').
Proof.
  intros H. apply with_lock_Ret in H as (Hl & s1 & H & ->). set (s0 := mkDexCall _ _) in H. inv_run.
  match goal with H : swap_checks _ _ _ _ = _ |- _ =>
    pose proof H as Hc; apply swap_checks_Ret in H; unfold swap_checks in Hc end.
  subst. inv_run. repeat match goal with
  | H : (if _ >? 0 then _safeTransfer _ _ _ else _) _ = (Ret _, _) |- _ => apply pay_Ret in H as [? ?]
  | H : own_balance _ _ = _ |- _ => apply own_balance_Ret in H as (? & ? & ->)
  end.
  match goal with H : update_reserves _ _ _ _ = _ |- _ =>
    apply update_reserves_Ret in H as (Hw & ? & ? & ? & ? & Hf) end.
  repeat match goal with
  | H : amount_in _ _ _ = _ |- _ => apply amount_in_Ret in H as (? & ? & ->)
  | H : adjusted _ _ = _ |- _ => apply adjusted_Ret in H as (-> & ?)
  | H : _ && _ = false |- _ => apply andb_false_iff in H; rewrite !Z.eqb_neq in H
  end.
  unfold s0, res0, res1, tok0, tok1 in *. cbn [pair world] in *.
  match type of Hf with pair_frame ?p _ => assert (Hx : p = put_lock true (pair s)) by congruence end.
  rewrite Hx in *. cbn [reserve0_ reserve1_ put_lock] in *. subst.
  repeat match goal with H : in_range _ _ |- _ => unfold in_range in H end. inv_checked.
  match goal with H : (_ <? _) = false |- _ => apply Z.ltb_ge in H end.
  match goal with H : put_lock true (pair s) = pair ?x |- _ => rewrite <- H in * end.
  split_and!; try lia; try done; [by eexists _, _, _|]. unfold pair_frame in *. naive_solver.
Qed.
End pair.

(** ** What an honest token promises

    [token_ok w t]: an honest token is deployed at [t]; [bal w t a] is the balance
    of [a] there.  Reading a balance or the fee address changes nothing; a
    transfer that returns moves the value and nothing else, and one the balance
    covers does return. *)
Class TokenLaws (T : Type) {TW : TokenWorld T} := {
  token_ok : T → Address → Prop;
  bal : T → Address → Address → Z;
  bal_nonneg w t a : token_ok w t → 0 ≤ bal w t a;
  balanceOf_law w t a : token_ok w t → call_balanceOf t a w = (Ret (bal w t a), w);
  transfer_law w t caller to v b w' : token_ok w t → in_range 256 v →
    call_transfer t caller to v w = (Ret b, w') →
    v ≤ bal w t caller ∧
    (∀ a, bal w' t a = bal w t a - (if decide (a = caller) then v else 0) + (if decide (a = to) then v else 0)) ∧
    (∀ t' a, t' ≠ t → bal w' t' a = bal w t' a) ∧ (∀ t', token_ok w t' → token_ok w' t') ∧
    ∀ f, (call_feeTo f w').1 = (call_feeTo f w).1;
  feeTo_law w f : (call_feeTo f w).2 = w;
  transfer_returns w t caller to v : token_ok w t → in_range 256 v → v ≤ bal w t caller →
    ∃ b w', call_transfer t caller to v w = (Ret b, w');
}.

Section shares.
Context {BI : BoostInt} {T : Type} {TW : TokenWorld T} {TL : TokenLaws T}.

Definition self (s : DexCall T) : Address := contractAddress_ (pair s).
Definition supply (s : DexCall T) : Z := totalSupply (p_erc20 (pair s)).

(** A pool in use: honest tokens, reserves backed by the pair's balances, some
    shares locked at the zero address. *)
Record pool_ok (s : DexCall T) : Prop := {
  ok_tok0 : token_ok (world s) (tok0 s);
  ok_tok1 : token_ok (world s) (tok1 s);
  ok_distinct : tok0 s ≠ tok1 s;
  ok_res0 : 0 ≤ res0 s ≤ bal (world s) (tok0 s) (self s);
  ok_res1 : 0 ≤ res1 s ≤ bal (world s) (tok1 s) (self s);
  ok_erc : val_inv (p_erc20 (pair s));
  ok_allow : ∀ a b, in_range 256 (allowance a b (p_erc20 (pair s)));
  ok_locked : 0 < balanceOf 0 (p_erc20 (pair s));
  ok_self : self s ≠ 0;
}.
(** The factory has no recipient for the protocol fee. *)
Definition fee_off (s : DexCall T) : Prop := (call_feeTo (value_ (factory_ (pair s))) (world s)).1 = Ret 0.

(** The reserves behind a share (the square of their geometric mean per share)
    do not shrink. *)
Definition share_le (s s' : DexCall T) : Prop :=
  res0 s * res1 s * (supply s' * supply s') ≤ res0 s' * res1 s' * (supply s * supply s).

(** One successful call: of the pair, of its share token, or of other contracts,
    which cannot take tokens away from the pair but may set the recipient of the
    fee.  A call that throws is undone by
    the host and is no step. *)
Inductive dex_step : DexCall T → DexCall T → Prop :=
| step_mint now to s l s' : mint now to s = (Ret l, s') → dex_step s s'
| step_burn now to s r s' : burn now to s = (Ret r, s') → dex_step s s'
| step_swap now a0 a1 to s s' : swap now a0 a1 to s = (Ret (), s') → dex_step s s'
| step_skim to s s' : skim to s = (Ret (), s') → dex_step s s'
| step_sync now s s' : sync now s = (Ret (), s') → dex_step s s'
| step_transfer caller to v s e :
    caller ≠ 0 → in_range 256 v → transfer caller to v (p_erc20 (pair s)) = (Ret true, e) →
    dex_step s (mkDexCall (put_erc20 e (pair s)) (world s))
| step_transferFrom caller from to v s e :
    from ≠ 0 → in_range 256 v → transferFrom caller from to v (p_erc20 (pair s)) = (Ret true, e) →
    dex_step s (mkDexCall (put_erc20 e (pair s)) (world s))
| step_approve caller spender v s e :
    in_range 256 v → approve caller spender v (p_erc20 (pair s)) = (Ret true, e) →
    dex_step s (mkDexCall (put_erc20 e (pair s)) (world s))
| step_others s w :
    (∀ t, token_ok (world s) t → token_ok w t ∧ bal (world s) t (self s) ≤ bal w t (self s)) →
    dex_step s (mkDexCall (pair s) w).

(** What the protocol may take: [F] new shares, when there is a recipient, and at
    most a sixth of what the root of the product of the reserves grew by since
    the last mint or burn: [F / (supply + F) <= (K - L) / 6K]. *)
Definition protocol_fee (s : DexCall T) (F : Z) : Prop :=
  let K := bsqrt (res0 s * res1 s) in
  let L := bsqrt (value_ (kLast_ (pair s))) in
  F = 0 ∨ 0 ≤ F ∧ ¬ fee_off s ∧ value_ (kLast_ (pair s)) ≠ 0 ∧ L < K ∧ F * (5 * K + L) ≤ supply s * (K - L).
(** One call: the reserves behind a share do not shrink but for the shares of the
    protocol. *)
Definition share_step (s s' : DexCall T) : Prop := ∃ F, protocol_fee s F ∧
  res0 s * res1 s * (supply s' * supply s') ≤ res0 s' * res1 s' * ((supply s + F) * (supply s + F)).
Lemma share_step_le s s' : share_le s s' → share_step s s'.
Proof. intros H. exists 0. split; [by left|]. by rewrite Z.add_0_r. Qed.
Lemma share_step_off s s' : fee_off s → share_step s s' → share_le s s'.
Proof. intros Hf (F & [->|(_ & Hon & _)] & Hk); [by rewrite Z.add_0_r in Hk|done]. Qed.

Lemma share_of_scaled r0 r1 r0' r1' S S' : 0 ≤ r0 → 0 ≤ r1 → 0 ≤ S → 0 ≤ S' →
  r0 * S' ≤ r0' * S → r1 * S' ≤ r1' * S → r0 * r1 * (S' * S') ≤ r0' * r1' * (S * S).
Proof.
  intros H0 H1 HS HS' A0 A1.
  replace (r0 * r1 * (S' * S')) with ((r0 * S') * (r1 * S')) by ring.
  replace (r0' * r1' * (S * S)) with ((r0' * S) * (r1' * S)) by ring.
  apply Z.mul_le_mono_nonneg; nia.
Qed.

Lemma supply_pos s : pool_ok s → 0 < supply s.
Proof.
  intros Hs. pose proof (balance_le_supply 0 _ (ok_erc s Hs)). pose proof (ok_locked s Hs).
  unfold supply. lia.
Qed.

(** Reading a balance of an honest token. *)
Lemma own_balance_ok tok s b s' : token_ok (world s) tok → own_balance tok s = (Ret b, s') →
  b = bal (world s) tok (self s) ∧ s' = s.
Proof.
  intros Ht H. apply own_balance_Ret in H as (w & H & ->). rewrite balanceOf_law in H by done.
  injection H as <- <-. by destruct s.
Qed.

(** The share token after the protocol got its [F] shares. *)
Record fee_paid (s : DexCall T) (F : Z) (e : ERC20) : Prop := {
  fp_fee : protocol_fee s F;
  fp_pos : 0 ≤ F;
  fp_inv : val_inv e;
  fp_supply : totalSupply e = supply s + F;
  fp_allowed : allowed_ e = allowed_ (p_erc20 (pair s));
  fp_balance : ∀ a, balanceOf a (p_erc20 (pair s)) ≤ balanceOf a e;
}.
(** [_mintFee] changes the shares and [kLast_] only. *)
Definition fee_frame (p p' : DEXV2Pair) : Prop :=
  factory_ p' = factory_ p ∧ token0_ p' = token0_ p ∧ token1_ p' = token1_ p ∧
  contractAddress_ p' = contractAddress_ p ∧ reserve0_ p' = reserve0_ p ∧ reserve1_ p' = reserve1_ p.

Lemma mintValue_range a v e u e' : val_inv e → 0 ≤ v → mintValue_ a v e = (Ret u, e') → in_range 256 v.
Proof.
  intros He Hv. unfold mintValue_, mbind, M_bind, balance_add. rewrite balance_update_run.
  destruct (uadd _ _ _) eqn:Hu; [|done]. apply uadd_Ret in Hu as [_ Hu]. intros _.
  destruct He as (_ & Hp & _). pose proof (Hp a). unfold in_range in *. lia.
Qed.

Lemma mintFee_paid s b s' : val_inv (p_erc20 (pair s)) → _mintFee (res0 s) (res1 s) s = (Ret b, s') →
  ∃ F, fee_paid s F (p_erc20 (pair s')) ∧ world s' = world s ∧ fee_frame (pair s) (pair s').
Proof.
  intros He H. destruct s as [p w]. cbn [pair] in He. set (s := mkDexCall p w) in *.
  assert (Hnone : ∀ e, e = p_erc20 p → fee_paid s 0 e) by (intros e ->; split; try done; [by left|unfold supply; cbn; lia]).
  unfold _mintFee, in_world in H. inv_run.
  match goal with H : call_feeTo ?f ?w = (Ret ?a, ?w') |- _ =>
    pose proof (feeTo_law w f) as Hlaw; rewrite H in Hlaw; cbn [snd] in Hlaw; rewrite Hlaw in *; rename H into Hcall; rename a into feeTo end.
  change (mkDexCall (pair s) w) with s in *. change (mkDexCall (pair s) (world s)) with s in *.
  match goal with H : (if _ && _ then _ else _) _ = _ |- _ => rename H into Hm end.
  destruct (negb (feeTo =? 0) && negb (value_ (kLast_ (pair s)) =? 0)) eqn:Eon.
  2: { exists 0. destruct (negb (value_ (kLast_ (pair s)) =? 0)).
       - unfold in_pair in Hm. inv_run. split; [by apply Hnone|done].
       - inv_run. split; [by apply Hnone|done]. }
  apply andb_true_iff in Eon as [Hon%negb_true_iff%Z.eqb_neq Hk%negb_true_iff%Z.eqb_neq].
  inv_run. match goal with H : umul 256 (res0 s) (res1 s) = _ |- _ => apply umul_Ret in H as [-> _] end.
  set (K := bsqrt (res0 s * res1 s)) in *. set (L := bsqrt (value_ (kLast_ (pair s)))) in *.
  destruct (Z.gtb_spec K L) as [HKL|]; [|inv_run; exists 0; split; [by apply Hnone|done]].
  inv_run. inv_checked. change (totalSupply (p_erc20 p)) with (supply s) in *.
  set (F := supply s * (K - L) / (K * 5 + L)) in *.
  destruct (Z.gtb_spec F 0) as [HF|HF]; [|inv_run; exists 0; split; [by apply Hnone|done]].
  match goal with H : in_erc20 _ _ = _ |- _ => unfold in_erc20, in_pair in H end. inv_run.
  match goal with H : mintValue_ _ _ _ = _ |- _ => rename H into Em end. repeat match goal with u : unit |- _ => destruct u end.
  assert (HR : in_range 256 F) by (unfold in_range; assumption).
  assert (HFle : F * (5 * K + L) <= supply s * (K - L)).
  { replace (5 * K + L) with (K * 5 + L) by lia. rewrite Z.mul_comm. apply Z.mul_div_le. clearbody F. lia. }
  clearbody F. pose proof (mintValue_Ret _ _ _ _ He HR Em) as (Hi & Hsup & Hal & Hb).
  exists F. split; [|done]. cbn [pair put_erc20 p_erc20]. split; try done.
  - right. fold K L. split_and!; try done; [lia|].
    unfold fee_off. cbn. cbn in Hcall. rewrite Hcall. cbn. congruence.
  - lia.
  - intros a. cbn. rewrite Hb. case_decide; lia.
Qed.

Lemma remember_k_keeps b (s : DexCall T) u s' : remember_k b s = (Ret u, s') → world s' = world s ∧ pair_keeps (pair s) (pair s').
Proof.
  unfold remember_k. destruct b; [|by intros [= _ <-]]. intros H. unfold in_pair in H. inv_run. done.
Qed.

(** Shares minted for the tokens the pair got since its last update. *)
Lemma mint_step now to s l s' : pool_ok s → mint now to s = (Ret l, s') → ∃ F e, fee_paid s F e ∧
  world s' = world s ∧ tok0 s' = tok0 s ∧ tok1 s' = tok1 s ∧ self s' = self s ∧
  factory_ (pair s') = factory_ (pair s) ∧
  res0 s' = bal (world s) (tok0 s) (self s) ∧ res1 s' = bal (world s) (tok1 s) (self s) ∧
  0 ≤ l ∧ l * res0 s ≤ (res0 s' - res0 s) * (supply s + F) ∧ l * res1 s ≤ (res1 s' - res1 s) * (supply s + F) ∧
  mintValue_ to l e = (Ret (), p_erc20 (pair s')).
Proof.
  intros Hok H. pose proof (supply_pos s Hok) as HS. destruct Hok as [Ht0 Ht1 Hd Hr0 Hr1 He _ _ _].
  apply with_lock_Ret in H as (_ & s1 & H & ->). set (s0 := mkDexCall _ _) in H. inv_run.
  repeat match goal with H : own_balance _ _ = _ |- _ => apply own_balance_ok in H as [-> ->]; [|done] end.
  match goal with H : _mintFee _ _ _ = _ |- _ => apply mintFee_paid in H as (F & Hp & Hw & Hk); [|done] end.
  match goal with H : in_erc20 _ _ = _ |- _ => unfold in_erc20, in_pair in H end.
  inv_run. match goal with H : remember_k _ _ = _ |- _ => apply remember_k_keeps in H as (Hwk & (M1 & M2 & M3 & M4 & _ & M6) & Mr0 & Mr1) end.
  match goal with H : update_reserves _ _ _ _ = _ |- _ =>
    apply update_reserves_Ret in H as (Hw' & _ & _ & E0 & E1 & Hf) end.
  destruct Hk as (Kf & K0 & K1 & Ka & Kr0 & Kr1). pose proof Hp as [P1 P2 P3 P4 P5 P6].
  change (supply s0) with (supply s) in P4. cbn [pair world] in *. rewrite P4 in *.
  match goal with H : (if supply s + F =? 0 then _ else _) _ = _ |- _ =>
    rewrite (proj2 (Z.eqb_neq _ _)) in H by lia; inv_run end.
  repeat match goal with u : unit |- _ => destruct u end. inv_checked.
  eexists F, _. split; [destruct Hp; by split|].
  unfold self, tok0, tok1, res0, res1, s0 in *. cbn [pair world] in *.
  destruct Hf as (F1 & F2 & F3 & F4 & _ & F6).
  cbn [put_erc20 put_lock p_erc20 factory_ token0_ token1_ contractAddress_ reserve0_ reserve1_] in *.
  rewrite Mr0, Mr1, E0, E1, M1, M2, M3, M4, M6, F1, F2, F3, F4, F6, Kf, K0, K1, Ka, Hwk, Hw'.
  split_and!; try done.
  - apply Z.min_glb; apply Z.div_pos; nia.
  - rewrite <- floor_le by lia. apply Z.le_min_l.
  - rewrite <- floor_le by lia. apply Z.le_min_r.
Qed.

(** The other contracts after a transfer by the pair. *)
Definition honest_le (w w' : T) : Prop := ∀ t, token_ok w t → token_ok w' t.
#[local] Instance honest_le_preorder : PreOrder honest_le.
Proof. split; [by intros w t|]. intros w1 w2 w3 H1 H2 t Ht. by apply H2, H1. Qed.

Lemma pays_law tok me to a w w' : token_ok w tok → in_range 256 a → pays tok me to a w w' →
  honest_le w w' ∧ (∀ t' x, t' ≠ tok → bal w' t' x = bal w t' x) ∧ bal w tok me - a ≤ bal w' tok me.
Proof.
  unfold pays. intros Ht Ha. destruct (Z.gtb_spec a 0) as [Hg|Hg].
  - intros [b H]. destruct (transfer_law _ _ _ _ _ _ _ Ht Ha H) as (Hle & Hb & Hoth & Hok & Hf).
    split_and!; [done|done|]. rewrite Hb, decide_True by done. unfold in_range in Ha. case_decide; lia.
  - intros ->. split_and!; [done|done|]. unfold in_range in Ha. lia.
Qed.

(** The pair's balance after it sent [v] away; other tokens are untouched. *)
Lemma transfer_step tok to v s u s' : token_ok (world s) tok → in_range 256 v →
  _safeTransfer tok to v s = (Ret u, s') →
  pair s' = pair s ∧ honest_le (world s) (world s') ∧
  (∀ t' x, t' ≠ tok → bal (world s') t' x = bal (world s) t' x) ∧
  bal (world s) tok (self s) - v ≤ bal (world s') tok (self s).
Proof.
  intros Ht Hv H. apply _safeTransfer_Ret in H as (b & w & H & ->).
  destruct (transfer_law _ _ _ _ _ _ _ Ht Hv H) as (Hle & Hb & Hoth & Hok & Hf).
  split_and!; [done|done|done|]. rewrite Hb, decide_True by done. unfold in_range in Hv. case_decide; lia.
Qed.

(** The holders keep their part of the balance, rounding in their favour. *)
Lemma burn_share b r r' l S : 0 < S → 0 ≤ l ≤ S → 0 ≤ r ≤ b → b - l * b / S ≤ r' → r * (S - l) ≤ r' * S.
Proof. intros HS Hl Hr Hb. pose proof (Z.mul_div_le (l * b) S HS). nia. Qed.

(** Two payments, two balances read and the reserves set to them. *)
Lemma payout now t0 t1 to a0 a1 s sa sb sc sd s' u1 u2 u3 b0 b1 :
  t0 ≠ t1 → token_ok (world s) t0 → token_ok (world s) t1 → in_range 256 a0 → in_range 256 a1 →
  _safeTransfer t0 to a0 s = (Ret u1, sa) → _safeTransfer t1 to a1 sa = (Ret u2, sb) →
  own_balance t0 sb = (Ret b0, sc) → own_balance t1 sc = (Ret b1, sd) →
  update_reserves now b0 b1 sd = (Ret u3, s') →
  honest_le (world s) (world s') ∧ pair_frame (pair s) (pair s') ∧
  res0 s' = bal (world s') t0 (self s) ∧ res1 s' = bal (world s') t1 (self s) ∧
  bal (world s) t0 (self s) - a0 ≤ res0 s' ∧ bal (world s) t1 (self s) - a1 ≤ res1 s'.
Proof.
  intros Hd Ht0 Ht1 Ha0 Ha1 H1 H2 H3 H4 H5.
  apply transfer_step in H1 as (P1 & L1 & O1 & B1); [|done..].
  apply transfer_step in H2 as (P2 & L2 & O2 & B2); [|by apply L1|done].
  apply own_balance_ok in H3 as [-> ->]; [|by apply L2, L1].
  apply own_balance_ok in H4 as [-> ->]; [|by apply L2, L1].
  apply update_reserves_Ret in H5 as (-> & _ & _ & -> & -> & Hf). rewrite P2, P1 in Hf.
  unfold self in *. rewrite P2, P1 in *.
  split_and!; [by etrans|done|done|done|rewrite O2 by done; lia|].
  rewrite <- (O1 t1 _ ltac:(done)). lia.
Qed.

Lemma burn_step now to s r s' : pool_ok s → burn now to s = (Ret r, s') →
  let l := balanceOf (self s) (p_erc20 (pair s)) in ∃ F e, fee_paid s F e ∧
  honest_le (world s) (world s') ∧ tok0 s' = tok0 s ∧ tok1 s' = tok1 s ∧ self s' = self s ∧
  factory_ (pair s') = factory_ (pair s) ∧
  res0 s' = bal (world s') (tok0 s) (self s) ∧ res1 s' = bal (world s') (tok1 s) (self s) ∧
  res0 s * (supply s + F - l) ≤ res0 s' * (supply s + F) ∧ res1 s * (supply s + F - l) ≤ res1 s' * (supply s + F) ∧
  burnValue_ (self s) l e = (Ret (), p_erc20 (pair s')).
Proof.
  intros Hok H. pose proof (supply_pos s Hok) as HS. destruct Hok as [Ht0 Ht1 Hd Hr0 Hr1 He _ _ _].
  pose proof (balance_le_supply (self s) _ He) as Hl. fold (supply s) in Hl.
  apply with_lock_Ret in H as (_ & s1 & H & ->). set (s0 := mkDexCall _ _) in H. inv_run.
  do 2 match goal with H : own_balance _ s0 = _ |- _ => apply own_balance_ok in H as [-> ->]; [|done] end.
  match goal with H : _mintFee _ _ _ = _ |- _ => apply mintFee_paid in H as (F & Hp & Hw & Hk); [|done] end.
  match goal with H : in_erc20 _ _ = _ |- _ => unfold in_erc20, in_pair in H end.
  inv_run. match goal with H : remember_k _ _ = _ |- _ => apply remember_k_keeps in H as (Hwk & (M1 & M2 & M3 & M4 & _ & M6) & Mr0 & Mr1) end.
  destruct Hk as (Kf & K0 & K1 & Ka & Kr0 & Kr1). pose proof Hp as [P1 P2 P3 P4 P5 P6].
  change (supply s0) with (supply s) in P4. cbn [pair world] in *. rewrite P4 in *.
  inv_checked.
  repeat match goal with u : unit |- _ => destruct u end.
  change (contractAddress_ (pair s0)) with (self s) in *. change (self s0) with (self s) in *.
  change (tok0 s0) with (tok0 s) in *. change (tok1 s0) with (tok1 s) in *.
  change (p_erc20 (pair s0)) with (p_erc20 (pair s)) in *. change (world s0) with (world s) in *.
  set (l := balanceOf (self s) (p_erc20 (pair s))) in *.
  match goal with H : update_reserves _ _ _ _ = _ |- _ => eapply payout in H end; [|exact Hd| | | | |eassumption..];
    cbn [world] in *; rewrite ?Hw; try done.
  match goal with H : honest_le _ _ ∧ _ |- _ => destruct H as (Hle & (F1 & F2 & F3 & F4 & _ & F6) & E0 & E1 & B0 & B1) end.
  eexists F, _. split; [destruct Hp; by split|].
  unfold self, tok0, tok1 in *. cbn [pair put_erc20 put_lock p_erc20 factory_ token0_ token1_ contractAddress_] in *.
  rewrite M1, M2, M3, M4, M6, F1, F2, F3, F4, F6, Kf, K0, K1, Ka, Hwk. rewrite Ka in *.
  rewrite Hw in *. unfold res0, res1 in *. cbn [pair put_lock reserve0_ reserve1_] in *. rewrite Mr0, Mr1.
  split_and!; try done; eapply burn_share; try eassumption; lia.
Qed.

(** The pool after a call that leaves the share token alone. *)
Lemma frame_erc s s' : pair_frame (pair s) (pair s') →
  p_erc20 (pair s') = p_erc20 (pair s) ∧ tok0 s' = tok0 s ∧ tok1 s' = tok1 s ∧ self s' = self s ∧
  factory_ (pair s') = factory_ (pair s).
Proof. unfold tok0, tok1, self. intros (-> & -> & -> & -> & _ & ->). done. Qed.

Lemma swap_step now a0 a1 to s s' : pool_ok s → swap now a0 a1 to s = (Ret (), s') →
  honest_le (world s) (world s') ∧ pair_frame (pair s) (pair s') ∧
  res0 s' = bal (world s') (tok0 s) (self s) ∧ res1 s' = bal (world s') (tok1 s) (self s) ∧
  res0 s * res1 s ≤ res0 s' * res1 s'.
Proof.
  intros Hok H. apply swap_Ret in H
    as ((w1 & w2 & w3 & P0 & P1 & Q0 & Q1) & A0 & _ & A1 & _ & R0 & R1 & N0 & N1 & K & _ & _ & Hf).
  destruct Hok as [Ht0 Ht1 Hd _ _ _ _ _ _]. unfold in_range in *.
  apply pays_law in P0 as (L0 & _ & _); [|done|unfold in_range; lia].
  apply pays_law in P1 as (L1 & _ & _); [|by apply L0|unfold in_range; lia].
  rewrite balanceOf_law in Q0 by (by apply L1, L0). injection Q0 as E0 <-.
  rewrite balanceOf_law in Q1 by (by apply L1, L0). injection Q1 as E1 <-.
  split_and!; [by etrans|done|done|done|].
  eapply k_of_test; [apply paid_in_nonneg|apply paid_in_nonneg|..|exact K]; lia.
Qed.

Lemma skim_step to s s' : pool_ok s → skim to s = (Ret (), s') →
  honest_le (world s) (world s') ∧ pair_frame (pair s) (pair s') ∧ res0 s' = res0 s ∧ res1 s' = res1 s ∧
  res0 s ≤ bal (world s') (tok0 s) (self s) ∧ res1 s ≤ bal (world s') (tok1 s) (self s).
Proof.
  intros [Ht0 Ht1 Hd Hr0 Hr1 _ _ _ _] H.
  apply with_lock_Ret in H as (Hl & s1 & H & ->). set (s0 := mkDexCall _ _) in H. inv_run.
  match goal with H : own_balance _ s0 = _ |- _ => apply own_balance_ok in H as [-> ->]; [|done] end.
  inv_checked.
  match goal with H : _safeTransfer _ _ _ s0 = _ |- _ => apply transfer_step in H as (P1 & L1 & O1 & B1); [|done..] end.
  match goal with H : own_balance _ _ = _ |- _ => apply own_balance_ok in H as [-> ->];
    [|unfold tok1; rewrite P1; by apply L1] end.
  match goal with H : _safeTransfer _ _ _ _ = _ |- _ => apply transfer_step in H as (P2 & L2 & O2 & B2);
    [|unfold tok1; rewrite P1; by apply L1|done] end.
  unfold s0, tok0, tok1, self, res0, res1 in *. rewrite P2 in *. rewrite P1 in *. cbn [pair world] in *.
  cbn [put_lock contractAddress_ token0_ token1_ reserve0_ reserve1_] in *.
  split_and!; [by etrans|unfold pair_frame; by rewrite <- Hl|done|done|rewrite O2 by done; lia|lia].
Qed.

Lemma sync_step now s s' : pool_ok s → sync now s = (Ret (), s') →
  world s' = world s ∧ pair_frame (pair s) (pair s') ∧
  res0 s' = bal (world s) (tok0 s) (self s) ∧ res1 s' = bal (world s) (tok1 s) (self s).
Proof.
  intros [Ht0 Ht1 Hd Hr0 Hr1 _ _ _ _] H.
  apply with_lock_Ret in H as (Hl & s1 & H & ->). set (s0 := mkDexCall _ _) in H. inv_run.
  repeat match goal with H : own_balance _ s0 = _ |- _ => apply own_balance_ok in H as [-> ->]; [|done] end.
  match goal with H : update_reserves _ _ _ _ = _ |- _ => apply update_reserves_Ret in H as (-> & _ & _ & E0 & E1 & Hf) end.
  split_and!; [done| |exact E0|exact E1]. unfold pair_frame in *. cbn in *. rewrite Hl. naive_solver.
Qed.

(** ** The pool over time *)

Lemma pool_ok_next s s' : pool_ok s → honest_le (world s) (world s') →
  tok0 s' = tok0 s → tok1 s' = tok1 s → self s' = self s →
  0 ≤ res0 s' ≤ bal (world s') (tok0 s) (self s) → 0 ≤ res1 s' ≤ bal (world s') (tok1 s) (self s) →
  val_inv (p_erc20 (pair s')) → (∀ a b, in_range 256 (allowance a b (p_erc20 (pair s')))) →
  0 < balanceOf 0 (p_erc20 (pair s')) → pool_ok s'.
Proof.
  intros Hok Hle E0 E1 Es H0 H1 Hv Ha Hl. destruct Hok. split; rewrite ?E0, ?E1, ?Es; auto.
Qed.

(** The pool after a call that leaves the share token alone. *)
Lemma pool_ok_frame s s' : pool_ok s → honest_le (world s) (world s') → pair_frame (pair s) (pair s') →
  0 ≤ res0 s' ≤ bal (world s') (tok0 s) (self s) → 0 ≤ res1 s' ≤ bal (world s') (tok1 s) (self s) →
  res0 s * res1 s ≤ res0 s' * res1 s' → pool_ok s' ∧ share_le s s'.
Proof.
  intros Hok Hw Hf H0 H1 Hk. pose proof (supply_pos s Hok). apply frame_erc in Hf as (Fe & F0 & F1 & Fs & Ff). split.
  - apply (pool_ok_next s); rewrite ?Fe; try done; apply Hok.
  - unfold share_le, supply in *. rewrite Fe. nia.
Qed.

(** The pool after a call of the share token that leaves the supply alone. *)
Lemma pool_ok_shares s e : pool_ok s → val_inv e → (∀ a b, in_range 256 (allowance a b e)) →
  0 < balanceOf 0 e → totalSupply_ e = totalSupply_ (p_erc20 (pair s)) →
  let s' := mkDexCall (put_erc20 e (pair s)) (world s) in pool_ok s' ∧ share_le s s'.
Proof.
  intros Hok Hv Ha Hl Ht s'. split.
  - apply (pool_ok_next s); try done; apply Hok.
  - unfold share_le, supply, totalSupply. cbn. rewrite Ht. done.
Qed.

Lemma mint_pool now to s l s' : pool_ok s → mint now to s = (Ret l, s') → pool_ok s' ∧ share_step s s'.
Proof.
  intros Hok H. pose proof (supply_pos s Hok) as HS.
  apply mint_step in H as (F & e & [P1 P2 P3 P4 P5 P6] & Hw & F0 & F1 & Fs & Ff & E0 & E1 & Hl & L0 & L1 & Em); [|done].
  pose proof (ok_res0 s Hok). pose proof (ok_res1 s Hok).
  pose proof (mintValue_range _ _ _ _ _ P3 Hl Em) as Hr.
  apply mintValue_Ret in Em as (Hi & Hsup & Hal & Hb); [|done..]. fold (supply s') in Hsup. split.
  - apply (pool_ok_next s); rewrite ?Hw; try done; try lia.
    + unfold allowance. rewrite Hal, P5. apply Hok.
    + rewrite Hb. pose proof (ok_locked s Hok). specialize (P6 0). case_decide; lia.
  - exists F. split; [done|]. apply share_of_scaled; rewrite ?Hsup, ?P4; nia.
Qed.

Lemma burn_pool now to s r s' : pool_ok s → burn now to s = (Ret r, s') → pool_ok s' ∧ share_step s s'.
Proof.
  intros Hok H. pose proof (supply_pos s Hok) as HS.
  apply burn_step in H as (F & e & [P1 P2 P3 P4 P5 P6] & Hw & F0 & F1 & Fs & Ff & E0 & E1 & L0 & L1 & Eb); [|done].
  pose proof (ok_res0 s Hok). pose proof (ok_res1 s Hok). pose proof (ok_erc s Hok) as He.
  set (l := balanceOf (self s) (p_erc20 (pair s))) in *.
  pose proof (balance_le_supply (self s) _ He) as Hl. fold (supply s) l in Hl.
  apply burnValue_Ret in Eb as (Hi & Hsup & Hal & Hb); [|done|].
  2: { destruct He as (_ & _ & He). unfold in_range, supply in *. lia. }
  fold (supply s') in Hsup. rewrite P4 in Hsup. split.
  - apply (pool_ok_next s); try done.
    + rewrite E0. split; [|done]. apply bal_nonneg, Hw, Hok.
    + rewrite E1. split; [|done]. apply bal_nonneg, Hw, Hok.
    + unfold allowance. rewrite Hal, P5. apply Hok.
    + rewrite Hb. pose proof (ok_locked s Hok). pose proof (ok_self s Hok). specialize (P6 0). rewrite decide_False by done. lia.
  - exists F. split; [done|]. apply share_of_scaled; rewrite ?Hsup; lia.
Qed.

Lemma with_share_step s s' : pool_ok s' ∧ share_le s s' → pool_ok s' ∧ share_step s s'.
Proof. intros [? ?]. split; [done|by apply share_step_le]. Qed.

Lemma dex_step_pool s s' : pool_ok s → dex_step s s' → pool_ok s' ∧ share_step s s'.
Proof.
  intros Hok Hs. pose proof (ok_erc s Hok) as He. pose proof (ok_allow s Hok) as Ha.
  pose proof (ok_locked s Hok) as Hl. pose proof (ok_res0 s Hok) as Hr0. pose proof (ok_res1 s Hok) as Hr1.
  destruct Hs as [now to s l s' H|now to s r s' H|now a0 a1 to s s' H|to s s' H|now s s' H
    |caller to v s e Hc Hv H|caller from to v s e Hc Hv H|caller spender v s e Hv H|s w Hw].
  - by eapply mint_pool.
  - by eapply burn_pool.
  - apply swap_step in H as (L & F & E0 & E1 & K); [|done].
    apply with_share_step, pool_ok_frame; try done; rewrite ?E0, ?E1; (split; [|done]); apply bal_nonneg, L, Hok.
  - apply skim_step in H as (L & F & E0 & E1 & B0 & B1); [|done]. apply with_share_step, pool_ok_frame; try done; nia.
  - apply sync_step in H as (W & F & E0 & E1); [|done]. apply with_share_step, pool_ok_frame; try done; rewrite ?W; try lia; try done. nia.
  - pose proof (transfer_run caller to v (p_erc20 (pair s)) He Hv) as R.
    destruct (v <=? _); [destruct R as (e2 & R & Rb & Ri & Ral & _ & Rt)|destruct R as (x & e2 & R)];
      rewrite R in H; [injection H as <-|done]. apply with_share_step, pool_ok_shares; try done.
    + unfold allowance in *. by rewrite Ral.
    + rewrite Rb. unfold moved. rewrite (decide_False (P := 0 = caller)) by done.
      unfold in_range in Hv. case_decide; lia.
  - pose proof (transferFrom_run caller from to v (p_erc20 (pair s)) He Hv Ha) as R.
    destruct (_ && _) eqn:Hle; [destruct R as (e2 & R & Rb & Ri & Ral & _ & Rt)|destruct R as (x & e2 & R)];
      rewrite R in H; [injection H as <-|done]. apply with_share_step, pool_ok_shares; try done.
    + intros o q. rewrite Ral. apply andb_true_iff in Hle as [Hle _]. apply Z.leb_le in Hle.
      pose proof (Ha o q). unfold in_range in *. case_decide as D; [destruct D as [-> ->]|]; lia.
    + rewrite Rb. unfold moved. rewrite (decide_False (P := 0 = from)) by done.
      unfold in_range in Hv. case_decide; lia.
  - rewrite approve_run in H. injection H as <-. apply with_share_step, pool_ok_shares; try done.
    intros o q. unfold allowance. cbn. destruct (decide (o = caller)) as [->|]; [|rewrite lookup_insert_ne by done; apply Ha].
    rewrite lookup_insert_eq. cbn. destruct (decide (q = spender)) as [->|]; [by rewrite lookup_insert_eq|].
    rewrite lookup_insert_ne by done. apply Ha.
  - apply with_share_step, pool_ok_frame; try done; cbn.
    + intros t Ht. by apply Hw.
    + destruct (Hw _ (ok_tok0 s Hok)). unfold res0 in *. cbn. lia.
    + destruct (Hw _ (ok_tok1 s Hok)). unfold res1 in *. cbn. lia.
Qed.

Lemma share_le_trans s1 s2 s3 : 0 < supply s2 → share_le s1 s2 → share_le s2 s3 → share_le s1 s3.
Proof.
  unfold share_le. intros HS H1 H2. set (k1 := res0 s1 * res1 s1) in *. set (k2 := res0 s2 * res1 s2) in *.
  set (k3 := res0 s3 * res1 s3) in *. set (S2 := supply s2) in *.
  apply (Z.mul_le_mono_pos_r _ _ (S2 * S2)); [nia|].
  assert (A : k1 * (S2 * S2) * (supply s3 * supply s3) ≤ k2 * (supply s1 * supply s1) * (supply s3 * supply s3))
    by (apply Z.mul_le_mono_nonneg_r; nia).
  assert (B : k2 * (supply s3 * supply s3) * (supply s1 * supply s1) ≤ k3 * (S2 * S2) * (supply s1 * supply s1))
    by (apply Z.mul_le_mono_nonneg_r; nia).
  nia.
Qed.
End shares.

(** ** A quoted swap goes through *)

Section progress.
Context {BI : BoostInt} {T : Type} {TW : TokenWorld T} {TL : TokenLaws T}.

(** What the accumulators grow by in an update, and the room they need. *)
Definition elapsed (now : Z) (p : DEXV2Pair) : Z :=
  wrap 32 (wrap 32 (now / 1000000) - value_ (blockTimestampLast_ p)).
Definition price_room (now : Z) (p : DEXV2Pair) : Prop :=
  let r0 := value_ (reserve0_ p) in let r1 := value_ (reserve1_ p) in
  in_range 256 (value_ (price0CumulativeLast_ p) + r1 * Q112 / r0 * elapsed now p) ∧
  in_range 256 (value_ (price1CumulativeLast_ p) + r0 * Q112 / r1 * elapsed now p) ∧
  0 ≤ value_ (price0CumulativeLast_ p) ∧ 0 ≤ value_ (price1CumulativeLast_ p).

Lemma add_assign_returns b (x : SafeUint_t) : 0 ≤ b → 0 ≤ value_ x → in_range 256 (value_ x + b) →
  ∃ x', uint_add_assign_uint 256 b x = (Ret (), x').
Proof.
  intros Hb Hx Hr. unfold in_range in Hr.
  destruct (uint_arith 256 (UAdd b) x) as [(z & _ & _ & E)|(Hn & _)]; cbn; unfold in_range, uint_size; try lia; try done.
  - by eexists.
  - exfalso. by apply (Hn _ eq_refl).
Qed.

(** The growth of one accumulator: exact, within 256 bits. *)
Lemma price_step ra rb t : 0 < ra < 2 ^ 112 → 0 < rb < 2 ^ 112 → 0 ≤ t →
  rb * Q112 / ra * t < 2 ^ 256 →
  mk_unsigned 112 rb = Ret rb ∧ uq_encode rb = Ret (rb * Q112) ∧ mk_unsigned 112 ra = Ret ra ∧
  uqdiv (rb * Q112) ra = Ret (rb * Q112 / ra) ∧ umul 256 (rb * Q112 / ra) t = Ret (rb * Q112 / ra * t) ∧
  0 ≤ rb * Q112 / ra * t.
Proof.
  intros Ha Hb Ht Hm. unfold uq_encode, uqdiv, umul, udiv. rewrite (proj2 (Z.eqb_neq ra 0)) by lia.
  assert (Hq : 0 ≤ rb * Q112 / ra) by (apply Z.div_pos; unfold Q112; lia).
  assert (Hu : rb * Q112 < 2 ^ 224) by (unfold Q112; lia).
  assert (Hd : rb * Q112 / ra ≤ rb * Q112) by (apply Z.div_le_upper_bound; unfold Q112 in *; nia).
  rewrite !mk_unsigned_fits; unfold in_range, Q112 in *; split_and!; try done; try lia; nia.
Qed.

Lemma accumulate_returns now p : 0 < value_ (reserve0_ p) < 2 ^ 112 → 0 < value_ (reserve1_ p) < 2 ^ 112 →
  price_room now p →
  ∃ p', accumulate (elapsed now p) (value_ (reserve0_ p)) (value_ (reserve1_ p)) p = (Ret (), p').
Proof.
  intros H0 H1 (R0 & R1 & N0 & N1). set (r0 := value_ (reserve0_ p)) in *. set (r1 := value_ (reserve1_ p)) in *.
  assert (Ht : 0 ≤ elapsed now p) by (apply wrap_in_range; lia). unfold in_range in R0, R1.
  destruct (price_step r0 r1 (elapsed now p)) as (A1 & A2 & A3 & A4 & A5 & A6); [done..|lia|].
  destruct (price_step r1 r0 (elapsed now p)) as (B1 & B2 & B3 & B4 & B5 & B6); [done..|lia|].
  destruct (add_assign_returns (r1 * Q112 / r0 * elapsed now p) (price0CumulativeLast_ p)) as [x0 E0]; [done..|].
  destruct (add_assign_returns (r0 * Q112 / r1 * elapsed now p) (price1CumulativeLast_ p)) as [x1 E1]; [done..|].
  unfold accumulate, mbind, M_bind, lift, zoom.
  rewrite A1, A2, A3, A4, A5, E0, B2, B4, B5. cbn [put_price0 price1CumulativeLast_]. rewrite E1. by eexists.
Qed.

Lemma _update_returns now b0 b1 p : in_range 112 b0 → in_range 112 b1 →
  0 < value_ (reserve0_ p) < 2 ^ 112 → 0 < value_ (reserve1_ p) < 2 ^ 112 → price_room now p →
  ∃ p', _update now b0 b1 (value_ (reserve0_ p)) (value_ (reserve1_ p)) p = (Ret (), p').
Proof.
  intros Hb0 Hb1 H0 H1 Hr. destruct (accumulate_returns now p H0 H1 Hr) as [p1 E].
  unfold _update. unfold mbind at 1, M_bind at 1, gets. fold (elapsed now p).
  assert (∃ p2, (if (0 <? elapsed now p) && negb (value_ (reserve0_ p) =? 0) && negb (value_ (reserve1_ p) =? 0)
    then accumulate (elapsed now p) (value_ (reserve0_ p)) (value_ (reserve1_ p)) else mret ()) p = (Ret (), p2))
    as [p2 E2] by (destruct (_ && _ && _); [by eexists|by eexists]).
  erewrite bind_run by exact E2. unfold lift, mbind, M_bind, zoom.
  rewrite !mk_unsigned_fits by done. by eexists.
Qed.

Lemma swap_checks_ok out to (s : DexCall T) : out ≠ 0 → 0 < res0 s → to ≠ tok0 s → to ≠ tok1 s →
  swap_checks 0 out to s = (Ret (), s).
Proof.
  intros Ho Hr H0 H1. unfold swap_checks, uint_le_uint, address_eq, throw_if. cbn [Z.eqb andb].
  rewrite (proj2 (Z.eqb_neq out 0)) by done. unfold mbind, M_bind, mret, M_ret, gets, lift.
  rewrite mk_unsigned_fits by (unfold in_range; lia).
  rewrite (proj2 (Z.leb_gt _ 0)) by exact Hr. fold (tok0 s) (tok1 s).
  by rewrite (proj2 (Z.eqb_neq _ to)), (proj2 (Z.eqb_neq _ to)) by done.
Qed.

Lemma amount_in_paid r i : 0 < i → in_range 112 r → in_range 112 (r + i) → amount_in (r + i) r 0 = Ret i.
Proof.
  intros Hi Hr Hb. unfold in_range in *. unfold amount_in, usub, uadd.
  rewrite (mk_unsigned_fits 112 0) by (unfold in_range; lia). cbn [mbind outcome_bind].
  rewrite (mk_unsigned_fits 112 (r - 0)) by (unfold in_range; lia). cbn [mbind outcome_bind].
  destruct (Z.gtb_spec (r + i) (r - 0)); [|lia].
  rewrite (mk_unsigned_fits 256 (r + i - r)) by (unfold in_range; lia). cbn [mbind outcome_bind].
  rewrite mk_unsigned_fits by (unfold in_range; lia). f_equal. lia.
Qed.

Lemma amount_in_none r a : 0 ≤ a ≤ r → in_range 112 r → amount_in (r - a) r a = Ret 0.
Proof.
  intros Ha Hr. unfold in_range in *. unfold amount_in, usub.
  rewrite (mk_unsigned_fits 112 a) by (unfold in_range; lia). cbn [mbind outcome_bind].
  rewrite (mk_unsigned_fits 112 (r - a)) by (unfold in_range; lia). cbn [mbind outcome_bind].
  destruct (Z.gtb_spec (r - a) (r - a)); [lia|done].
Qed.

Lemma adjusted_ok b i : 0 ≤ i ≤ b → b < 2 ^ 112 → adjusted b i = Ret (b * 1000 - i * 3).
Proof.
  intros Hi Hb. unfold adjusted, umul, usub.
  rewrite (mk_unsigned_fits 256 (b * 1000)) by (unfold in_range; lia). cbn [mbind outcome_bind].
  rewrite (mk_unsigned_fits 256 (i * 3)) by (unfold in_range; lia). cbn [mbind outcome_bind].
  by rewrite mk_unsigned_fits by (unfold in_range; lia).
Qed.

Lemma own_balance_run tok (s : DexCall T) : token_ok (world s) tok →
  own_balance tok s = (Ret (bal (world s) tok (self s)), s).
Proof.
  intros Ht. unfold own_balance, in_world, zoom, mbind, M_bind, gets.
  rewrite balanceOf_law by done. by destruct s.
Qed.

(** The product test of [swap] as its three checked products. *)
Lemma k_products r0 r1 b0 b1 : 0 ≤ r0 < 2 ^ 112 → 0 ≤ r1 < 2 ^ 112 →
  0 ≤ b0 < 2 ^ 122 → 0 ≤ b1 < 2 ^ 122 → r0 * r1 * 1000 * 1000 ≤ b0 * b1 →
  umul 256 b0 b1 = Ret (b0 * b1) ∧ umul 256 r0 r1 = Ret (r0 * r1) ∧
  umul 256 (r0 * r1) 1000 = Ret (r0 * r1 * 1000) ∧
  umul 256 (r0 * r1 * 1000) 1000 = Ret (r0 * r1 * 1000 * 1000) ∧
  (b0 * b1 <? r0 * r1 * 1000 * 1000) = false.
Proof.
  intros. assert (0 ≤ r0 * r1 < 2 ^ 224) by nia. assert (0 ≤ b0 * b1 < 2 ^ 244) by nia.
  unfold umul. rewrite !mk_unsigned_fits by (unfold in_range; lia). split_and!; try done. by apply Z.ltb_ge.
Qed.

(** A sale of token 0: the pair holds [i] more of it than its reserve. *)
Record sale (now i out : Z) (to : Address) (s : DexCall T) : Prop := {
  sale_pool : pool_ok s;
  sale_free : reentrancyLock_ (pair s) = false;
  sale_res0 : 0 < res0 s;
  sale_res1 : 0 < res1 s < 2 ^ 112;
  sale_in : 0 < i ∧ res0 s + i < 2 ^ 112;
  sale_bal0 : bal (world s) (tok0 s) (self s) = res0 s + i;
  sale_bal1 : bal (world s) (tok1 s) (self s) = res1 s;
  sale_quote : getAmountOut i (res0 s) (res1 s) = Ret out;
  sale_out : out ≠ 0;
  sale_to : to ≠ tok0 s ∧ to ≠ tok1 s ∧ to ≠ self s;
  sale_room : price_room now (pair s);
}.

Lemma sale_run now i out to s : sale now i out to s →
  ∃ s', swap now 0 out to s = (Ret (), s') ∧ res0 s' = res0 s + i ∧ res1 s' = res1 s - out ∧
    bal (world s') (tok1 s) to = bal (world s) (tok1 s) to + out.
Proof.
  intros [Hok Hl H0 H1 [Hi Hb] B0 B1 Hq Ho (T0 & T1 & Ts) Hroom].
  pose proof (getAmountOut_Ret _ _ _ _ Hq) as (_ & _ & _ & Eout).
  assert (Hout : 0 < out < res1 s).
  { subst out. split; [|apply Z.div_lt_upper_bound; nia].
    assert (0 ≤ i * 997 * res1 s / (res0 s * 1000 + i * 997)) by (apply Z.div_pos; nia). lia. }
  assert (HK : res0 s * res1 s * 1000 * 1000 ≤ ((res0 s + i) * 1000 - i * 3) * ((res1 s - out) * 1000 - 0 * 3)).
  { replace ((res1 s - out) * 1000 - 0 * 3) with ((res1 s - out) * 1000) by lia.
    apply k_test_price. rewrite <- floor_le by lia. lia. }
  assert (Hor : in_range 256 out) by (unfold in_range; lia).
  set (s0 := mkDexCall (put_lock true (pair s)) (world s)).
  destruct (transfer_returns (world s) (tok1 s) (self s) to out) as (b & w & Et); [apply Hok|exact Hor|lia|].
  destruct (transfer_law _ _ _ _ _ _ _ (ok_tok1 s Hok) Hor Et) as (_ & Tb & To & Tk & _).
  set (s1 := mkDexCall (pair s0) w).
  assert (E0 : own_balance (tok0 s) s1 = (Ret (res0 s + i), s1)).
  { rewrite own_balance_run by (apply Tk, Hok). cbn. rewrite To by apply Hok. by rewrite <- B0. }
  assert (E1 : own_balance (tok1 s) s1 = (Ret (res1 s - out), s1)).
  { rewrite own_balance_run by (apply Tk, Hok). change (self s1) with (self s). cbn [world s1].
    rewrite Tb, decide_True, decide_False by done. rewrite B1. do 2 f_equal. lia. }
  destruct (_update_returns now (res0 s + i) (res1 s - out) (put_lock true (pair s))) as [p2 Eu];
    [unfold in_range; lia|unfold in_range; lia|cbn; fold (res0 s); lia|done|exact Hroom|].
  destruct (k_products (res0 s) (res1 s) ((res0 s + i) * 1000 - i * 3) ((res1 s - out) * 1000 - 0 * 3))
    as (K1 & K2 & K3 & K4 & K5); [lia..|].
  exists (mkDexCall (put_lock false p2) w).
  assert (Er : update_reserves now (res0 s + i) (res1 s - out) s1 = (Ret (), mkDexCall p2 w)).
  { unfold update_reserves, in_pair, zoom. unfold mbind, M_bind, gets. unfold s1, s0, res0, res1 in *.
    cbn [pair world]. by rewrite Eu. }
  pose proof (_update_Ret _ _ _ _ _ _ _ Eu) as (_ & _ & U0 & U1 & _). split_and!; [|exact U0|exact U1|].
  - unfold swap, with_lock. rewrite Hl. fold s0.
    erewrite bind_run by (apply swap_checks_ok; done).
    unfold mbind, M_bind, gets, lift. cbn [Z.gtb Z.compare]. unfold mret at 1, M_ret at 1.
    change (tok0 s0) with (tok0 s). change (tok1 s0) with (tok1 s).
    assert (Ep : (if out >? 0 then _safeTransfer (tok1 s) to out else mret ()) s0 = (Ret (), s1)).
    { destruct (Z.gtb_spec out 0); [|lia]. unfold _safeTransfer, in_world, zoom, mbind, M_bind, gets. cbn.
      fold (self s). by rewrite Et. }
    rewrite Ep, E0, E1. change (res0 s1) with (res0 s). change (res1 s1) with (res1 s).
    rewrite amount_in_paid by (unfold in_range; lia). rewrite amount_in_none by (unfold in_range; lia).
    unfold throw_if at 1. rewrite (proj2 (Z.eqb_neq i 0)) by lia. cbn [andb]. unfold mret at 1, M_ret at 1.
    rewrite !adjusted_ok by lia. rewrite K1, K2, K3, K4, K5. unfold throw_if, mret, M_ret.
    by rewrite Er.
  - cbn. rewrite Tb, decide_False, decide_True by done. lia.
Qed.

(** Every guarded function refuses to run while one of them is running. *)
Lemma pair_locked_throws now a0 a1 to (s : DexCall T) : reentrancyLock_ (pair s) = true →
  let e := DynamicException "ReentrancyGuard: reentrancy attack detected" in
  mint now to s = (Throw e, s) ∧ burn now to s = (Throw e, s) ∧ swap now a0 a1 to s = (Throw e, s) ∧
  skim to s = (Throw e, s) ∧ sync now s = (Throw e, s).
Proof. intros Hl. unfold mint, burn, swap, skim, sync, with_lock. by rewrite Hl. Qed.

(** A balance above [reserve - out] but below the reserve. *)
Lemma amount_in_dust r a d : in_range 112 r → 0 < d < a → a ≤ r → amount_in (r + d - a) r a = Throw boost_error.
Proof.
  intros Hr Hd Ha. unfold in_range in *. unfold amount_in, usub.
  rewrite (mk_unsigned_fits 112 a) by (unfold in_range; lia). cbn [mbind outcome_bind].
  rewrite (mk_unsigned_fits 112 (r - a)) by (unfold in_range; lia). cbn [mbind outcome_bind].
  destruct (Z.gtb_spec (r + d - a) (r - a)); [|lia].
  by rewrite mk_unsigned_throws by (unfold in_range; lia).
Qed.

Lemma dust_run now a d to s : pool_ok s → reentrancyLock_ (pair s) = false → in_range 112 (res0 s) →
  bal (world s) (tok0 s) (self s) = res0 s + d → 0 < d < a → a < res0 s →
  to ≠ tok0 s → to ≠ tok1 s → to ≠ self s → ∃ s', swap now a 0 to s = (Throw boost_error, s').
Proof.
  intros Hok Hl Hr B0 Hd Ha T0 T1 Ts. unfold in_range in Hr.
  assert (Har : in_range 256 a) by (unfold in_range; lia).
  set (s0 := mkDexCall (put_lock true (pair s)) (world s)).
  destruct (transfer_returns (world s) (tok0 s) (self s) to a) as (b & w & Et); [apply Hok|exact Har|lia|].
  destruct (transfer_law _ _ _ _ _ _ _ (ok_tok0 s Hok) Har Et) as (_ & Tb & To & Tk & _).
  set (s1 := mkDexCall (pair s0) w).
  assert (Ec : swap_checks a 0 to s0 = (Ret (), s0)).
  { unfold swap_checks, uint_le_uint, address_eq, throw_if. rewrite (proj2 (Z.eqb_neq a 0)) by lia. cbn [andb].
    unfold mbind, M_bind, mret, M_ret, gets, lift. rewrite mk_unsigned_fits by (unfold in_range; lia).
    rewrite (proj2 (Z.leb_gt _ a)) by exact Ha. cbn [pair s0 put_lock token0_ token1_]. fold (tok0 s) (tok1 s).
    by rewrite (proj2 (Z.eqb_neq _ to)), (proj2 (Z.eqb_neq _ to)) by done. }
  assert (Ep : (if a >? 0 then _safeTransfer (tok0 s) to a else mret ()) s0 = (Ret (), s1)).
  { destruct (Z.gtb_spec a 0); [|lia]. unfold _safeTransfer, in_world, zoom, mbind, M_bind, gets. cbn.
    fold (self s). by rewrite Et. }
  assert (E0 : own_balance (tok0 s) s1 = (Ret (res0 s + d - a), s1)).
  { rewrite own_balance_run by (apply Tk, Hok). change (self s1) with (self s). cbn [world s1].
    rewrite Tb, decide_True, decide_False by done. rewrite B0. do 2 f_equal. lia. }
  exists (mkDexCall (put_lock false (pair s1)) w).
  unfold swap, with_lock. rewrite Hl. fold s0. erewrite bind_run by exact Ec.
  unfold mbind, M_bind, gets, lift. change (tok0 s0) with (tok0 s). change (tok1 s0) with (tok1 s).
  rewrite Ep. cbn [Z.gtb Z.compare]. unfold mret at 1, M_ret at 1.
  rewrite E0. rewrite own_balance_run by (apply Tk, Hok). change (res0 s1) with (res0 s).
  by rewrite amount_in_dust by (unfold in_range; lia).
Qed.
End progress.

(** ** ERC-20 contracts as the tokens *)

Record Ledger := mkLedger { l_tokens : gmap Address ERC20; l_feeTo : gmap Address Address }.

Definition no_contract : exn := DynamicException "Attempt to invoke non-contract or inexistent address".

#[export] Instance ledger_world {BI : BoostInt} : TokenWorld Ledger := {|
  call_transfer t caller to v w :=
    match l_tokens w !! t with
    | Some e => let '(r, e') := transfer caller to v e in (r, mkLedger (<[t := e']> (l_tokens w)) (l_feeTo w))
    | None => (Throw no_contract, w)
    end;
  call_balanceOf t owner w :=
    match l_tokens w !! t with Some e => (Ret (balanceOf owner e), w) | None => (Throw no_contract, w) end;
  call_feeTo f w :=
    match l_feeTo w !! f with Some a => (Ret a, w) | None => (Throw no_contract, w) end;
|}.

#[export] Program Instance ledger_laws {BI : BoostInt} : TokenLaws Ledger := {|
  token_ok w t := ∃ e, l_tokens w !! t = Some e ∧ val_inv e ∧ ∀ a b, in_range 256 (allowance a b e);
  bal w t a := match l_tokens w !! t with Some e => balanceOf a e | None => 0 end;
|}.
Next Obligation. intros BI w t a (e & -> & Hv & _). apply Hv. Qed.
Next Obligation. intros BI w t a (e & Ht & Hv). cbn. by rewrite Ht. Qed.
Next Obligation.
  intros BI w t caller to v b w' (e & Ht & Hi & Hal) Hv H. cbn in H. rewrite Ht in *.
  pose proof (transfer_run caller to v e Hi Hv) as R. destruct (Z.leb_spec v (balanceOf caller e)) as [Hle|Hle].
  2: { destruct R as (x & e2 & R). by rewrite R in H. }
  destruct R as (e2 & R & Rb & Ri & Ra & _). rewrite R in H. injection H as <- <-. cbn.
  split_and!; [done| | | |intros f; by destruct (l_feeTo w !! f)].
  - intros a. by rewrite lookup_insert_eq, Rb.
  - intros t' a Hne. by rewrite lookup_insert_ne.
  - intros t' (e' & Ht' & Hi'). destruct (decide (t' = t)) as [->|].
    + rewrite lookup_insert_eq. eexists. split_and!; [done|done|]. unfold allowance. by rewrite Ra.
    + rewrite lookup_insert_ne by done. eauto.
Qed.
Next Obligation. intros BI w f. cbn. by destruct (l_feeTo w !! f). Qed.
Next Obligation.
  intros BI w t caller to v (e & Ht & Hi & _) Hv Hle. cbn. rewrite Ht in *.
  pose proof (transfer_run caller to v e Hi Hv) as R. rewrite (proj2 (Z.leb_le _ _)) in R by done.
  destruct R as (e2 & -> & _). by do 2 eexists.
Qed.

(** ** The properties of the pair *)

(** C16: [swap] protects the pool against any tokens: when it returns, the outputs
    were at most the reserves (although only the case that both exceed them is
    tested at the start), something was paid in, and the product of the reserves,
    with the 0.3% of the inputs set aside, has not shrunk; shares, token
    addresses and the lock are as before. *)
Theorem swap_keeps_k {BI : BoostInt} {T} {TW : TokenWorld T} (now a0 a1 : Z) (to : Address)
    (s s' : DexCall T) :
  swap now a0 a1 to s = (Ret (), s') →
  let in0 := paid_in (res0 s') (res0 s) a0 in
  let in1 := paid_in (res1 s') (res1 s) a1 in
  a0 ≤ res0 s ∧ a1 ≤ res1 s ∧ 0 < in0 + in1 ∧
  res0 s * res1 s * 1000 * 1000 ≤ (res0 s' * 1000 - in0 * 3) * (res1 s' * 1000 - in1 * 3) ∧
  res0 s * res1 s ≤ res0 s' * res1 s' ∧ pair_frame (pair s) (pair s').
Proof.
  intros H. apply swap_Ret in H as (_ & A0 & L0 & A1 & L1 & R0 & R1 & N0 & N1 & K & I & _ & Hf).
  cbv zeta. unfold in_range in *.
  pose proof (paid_in_nonneg (res0 s') (res0 s) a0) as I0. pose proof (paid_in_nonneg (res1 s') (res1 s) a1) as I1.
  split_and!; try done; [lia|]. eapply k_of_test; [exact I0|exact I1|..|exact K]; lia.
Qed.

(** C17: from any pool in use, over any sequence of calls of the pair, of its share
    token and of other contracts, by anybody, the reserves stay backed by the
    pair's balances.  While the factory has no recipient for the protocol fee the
    reserves behind a share never shrink: liquidity providers cannot be diluted by
    mints, burns, swaps, [skim] or [sync].  With a recipient, what one call
    dilutes them by is at most the protocol's new shares, a sixth of what the root
    of the product of the reserves grew by since the last mint or burn.  The two
    tokens are honest and different ([token_ok]), and a pool in use has shares
    locked at the zero address ([pool_ok]). *)
Theorem shares_keep_value {BI : BoostInt} {T} {TW : TokenWorld T} {TL : TokenLaws T} (s s' : DexCall T) :
  pool_ok s → rtc dex_step s s' →
  pool_ok s' ∧
  (∀ s'', rtc (λ a b, fee_off a ∧ dex_step a b) s' s'' → share_le s' s'') ∧
  (∀ s'', dex_step s' s'' → share_step s' s'').
Proof.
  intros Hok Hr. assert (Hok' : pool_ok s').
  { induction Hr as [s|s1 s2 s3 Hs _ IH]; [done|]. apply IH. by apply (dex_step_pool s1 s2 Hok Hs). }
  split; [done|]. split; [|intros s'' Hs; by apply dex_step_pool]. clear -Hok'.
  intros s'' Hr. induction Hr as [s|s1 s2 s3 [Hf Hs] _ IH]; [unfold share_le; lia|].
  destruct (dex_step_pool s1 s2 Hok' Hs) as [Hok2 H12%share_step_off]; [|done].
  eapply share_le_trans; [|exact H12|by apply IH]. by apply supply_pos.
Qed.

(** A trade at the quoted price goes through: when the pair holds [i] more of
    token 0 than its reserve and token 1 is in step, asking for exactly what
    [getAmountOut] quotes returns, pays it to the receiver, and leaves the
    reserves equal to the balances. *)
Theorem quoted_swap_returns {BI : BoostInt} {T} {TW : TokenWorld T} {TL : TokenLaws T}
    (now i out : Z) (to : Address) (s : DexCall T) : sale now i out to s →
  ∃ s', swap now 0 out to s = (Ret (), s') ∧ res0 s' = res0 s + i ∧ res1 s' = res1 s - out ∧
    bal (world s') (tok1 s) to = bal (world s) (tok1 s) to + out.
Proof. apply sale_run. Qed.

(** When anybody has sent the pair a few units of token 0 beyond its reserve
    (less than the output asked for), every swap that takes token 0 out throws,
    however much of token 1 was paid in: the input is computed as
    [balance - reserve + out], whose difference is negative. *)
Theorem dust_blocks_swaps {BI : BoostInt} {T} {TW : TokenWorld T} {TL : TokenLaws T}
    (now a d : Z) (to : Address) (s : DexCall T) :
  pool_ok s → reentrancyLock_ (pair s) = false → in_range 112 (res0 s) →
  bal (world s) (tok0 s) (self s) = res0 s + d → 0 < d < a → a < res0 s →
  to ≠ tok0 s → to ≠ tok1 s → to ≠ self s → ∃ s', swap now a 0 to s = (Throw boost_error, s').
Proof. apply dust_run. Qed.

#[local] Existing Instance boost_ref.

(** A pool of 40000 units of token 1 and 10000 of token 2, held by the pair at
    address 9, with 20000 shares; account 5 has sent [d] more units of token 1. *)
Definition demo_token (d : Z) (held : Z) : ERC20 :=
  mkERC20 (mkScalar (mkSafeBase true false true) 100000 100000)
    (mkSafeMap (mkSafeBase true false true) {[ 5 := 100000 - held - d; 9 := held + d ]} ∅)
    (mkSafeMap (mkSafeBase true false true) ∅ ∅) [].
Definition demo_shares : ERC20 :=
  mkERC20 (mkScalar (mkSafeBase true false true) 20000 20000)
    (mkSafeMap (mkSafeBase true false true) {[ 0 := 1000; 5 := 19000 ]} ∅)
    (mkSafeMap (mkSafeBase true false true) ∅ ∅) [].
Definition demo_pool (d : Z) : DexCall Ledger :=
  mkDexCall (mkPair demo_shares (fresh_var 8) (fresh_var 1) (fresh_var 2) (fresh_var 40000) (fresh_var 10000)
    (fresh_var 0) (fresh_var 0) (fresh_var 0) (fresh_var 0) false 9)
    (mkLedger {[ 1 := demo_token d 40000; 2 := demo_token 0 10000 ]} {[ 8 := 0 ]}).

Lemma two_entries (a b : Address) (x y : Z) e : a ≠ b → 0 ≤ x → 0 ≤ y →
  sm_value (balances_ e) = {[ a := x; b := y ]} → totalSupply e = x + y → x + y < 2 ^ 256 → val_inv e.
Proof.
  intros Hab Hx Hy Hb Ht Hm. unfold val_inv, balanceOf. rewrite Hb, Ht. split_and!; [| |done].
  - rewrite insert_union_singleton_l. rewrite <- insert_union_singleton_l.
    rewrite msum_insert_None by (by rewrite lookup_singleton_ne).
    change {[b := y]} with (<[b := y]> (∅ : gmap Address Z)).
    rewrite msum_insert_None by done. rewrite (msum_empty (K := Address)). lia.
  - intros c. destruct (decide (c = a)) as [->|]; [by rewrite lookup_insert_eq|].
    rewrite lookup_insert_ne by done. destruct (decide (c = b)) as [->|]; [by rewrite lookup_singleton_eq|].
    by rewrite lookup_singleton_ne.
Qed.

Lemma no_allowances e : sm_value (allowed_ e) = ∅ → ∀ a b, in_range 256 (allowance a b e).
Proof. intros E a b. unfold allowance. rewrite E, lookup_empty. cbn. by rewrite lookup_empty. Qed.

Lemma demo_pool_ok d : 0 ≤ d ≤ 60000 → pool_ok (demo_pool d).
Proof.
  intros Hd. split.
  - exists (demo_token d 40000). split; [done|split; [|by apply no_allowances]].
    apply (two_entries 5 9 (100000 - 40000 - d) (40000 + d)); try done; cbn; lia.
  - exists (demo_token 0 10000). split; [done|split; [|by apply no_allowances]]. by apply (two_entries 5 9 90000 10000).
  - done.
  - change (0 ≤ 40000 ≤ 40000 + d). lia.
  - change (0 ≤ 10000 ≤ 10000). lia.
  - apply (two_entries 0 5 1000 19000); done.
  - by apply no_allowances.
  - done.
  - done.
Qed.

Lemma swap_keeps_k_witness :
  let s := demo_pool 1000 in
  let '(r, s') := swap 0 0 243 7 s in
  r = Ret () ∧ res0 s * res1 s ≤ res0 s' * res1 s'.
Proof.
  intros s. destruct (swap 0 0 243 7 s) as [r s'] eqn:E.
  assert (r = Ret ()) as -> by (apply (f_equal fst) in E; vm_compute in E; by rewrite <- E).
  split; [done|]. apply (swap_keeps_k) in E. apply E.
Defined.

Lemma shares_keep_value_witness :
  ∃ s', rtc dex_step (demo_pool 1000) s' ∧ pool_ok s' ∧ share_le (demo_pool 1000) s'.
Proof.
  destruct (swap 0 0 243 7 (demo_pool 1000)) as [r s'] eqn:E.
  assert (r = Ret ()) as -> by (apply (f_equal fst) in E; vm_compute in E; by rewrite <- E).
  assert (Hs : dex_step (demo_pool 1000) s') by (by eapply step_swap). exists s'. split; [by apply rtc_once|]. split.
  - apply (shares_keep_value (demo_pool 1000) s'); [apply demo_pool_ok; lia|by apply rtc_once].
  - apply (proj1 (proj2 (shares_keep_value (demo_pool 1000) (demo_pool 1000) ltac:(apply demo_pool_ok; lia) ltac:(apply rtc_refl)))).
    apply rtc_once. split; [reflexivity|exact Hs].
Defined.

Lemma demo_sale : sale 0 1000 243 7 (demo_pool 1000).
Proof.
  split; try done.
  - apply demo_pool_ok; lia.
Qed.

Lemma quoted_swap_returns_witness :
  ∃ s', swap 0 0 243 7 (demo_pool 1000) = (Ret (), s') ∧ res1 s' = 10000 - 243.
Proof.
  destruct (quoted_swap_returns 0 1000 243 7 (demo_pool 1000))
    as (s' & E & _ & E1 & _); [exact demo_sale|]. by exists s'.
Defined.

Lemma dust_blocks_swaps_witness :
  ∃ s', swap 0 2 0 7 (demo_pool 1) = (Throw boost_error, s').
Proof.
  apply (dust_blocks_swaps 0 2 1 7 (demo_pool 1)); try done; try lia.
  apply demo_pool_ok; lia.
Defined.
