(* ===== verification/DexFactory.v ===== *)
(** * The factory of the exchange, and the reserves the library reads

    Models src/contract/templates/dexv2/dexv2factory.cpp (creation and registry of
    pairs, and its two database functions) and the functions [pairFor] and
    [getReserves] of src/contract/templates/dexv2/dexv2library.cpp.  The pairs are
    reached through the interface [PairWorld]. *)

From S2P Require Import Prelude CheckedInt SafeBase SafeScalars SafeMap SafeVector ERC20 DexLibrary.

(** What the factory and the library ask the host for: a new pair contract,
    [DEXV2Pair::initialize] and [DEXV2Pair::getReserves] of the pair at an address. *)
Class PairWorld (T : Type) := {
  call_create_pair : ∀ creator : Address, M T Address;
  call_initialize : ∀ pair caller token0 token1 : Address, M T unit;
  call_getReserves : Address → T → outcome (Z * Z * Z);
}.

Record DEXV2Factory := mkFactory {
  feeTo_ : SafeAddress;
  feeToSetter_ : SafeAddress;
  allPairs_ : SafeVector Address;
  getPair_ : SafeMap Address (gmap Address Address);
  f_address : Address;
}.

Definition put_feeTo v f := mkFactory v (feeToSetter_ f) (allPairs_ f) (getPair_ f) (f_address f).
Definition put_feeToSetter v f := mkFactory (feeTo_ f) v (allPairs_ f) (getPair_ f) (f_address f).
Definition put_allPairs v f := mkFactory (feeTo_ f) (feeToSetter_ f) v (getPair_ f) (f_address f).
Definition put_getPair v f := mkFactory (feeTo_ f) (feeToSetter_ f) (allPairs_ f) v (f_address f).

Definition feeTo (f : DEXV2Factory) : Address := value_ (feeTo_ f).
Definition feeToSetter (f : DEXV2Factory) : Address := value_ (feeToSetter_ f).
Definition allPairs (f : DEXV2Factory) : list Address := vec_value (allPairs_ f).
Definition allPairsLength (f : DEXV2Factory) : nat := length (vec_value (allPairs_ f)).

(** [getPair]: the zero address when there is no such pair. *)
Definition getPair (tokenA tokenB : Address) (f : DEXV2Factory) : Address :=
  match sm_value (getPair_ f) !! tokenA with
  | Some inner => match inner !! tokenB with Some p => p | None => 0 end
  | None => 0
  end.

Definition getPairByIndex (index : nat) (f : DEXV2Factory) : Address :=
  if (allPairsLength f <=? index)%nat then 0 else default 0 (allPairs f !! index).

Definition setFeeTo (a : Address) : M DEXV2Factory unit := zoom feeTo_ put_feeTo (address_assign a).
Definition setFeeToSetter (a : Address) : M DEXV2Factory unit :=
  zoom feeToSetter_ put_feeToSetter (address_assign a).

(** [getPair_[a][b] = pair] *)
Definition set_pair (a b pair : Address) : M DEXV2Factory unit :=
  zoom getPair_ put_getPair (inner ← map_index ∅ a; map_write a (<[b := pair]> inner)).

Section factory.
Context {T : Type} {PW : PairWorld T}.

Definition in_factory {A} (m : M DEXV2Factory A) : M (DEXV2Factory * T) A := zoom fst (λ f s, (f, s.2)) m.
Definition in_pairs {A} (m : M T A) : M (DEXV2Factory * T) A := zoom snd (λ w s, (s.1, w)) m.

Definition createPair (tokenA tokenB : Address) : M (DEXV2Factory * T) Address :=
  throw_if (tokenA =? tokenB) (DynamicException "DEXV2Factory::createPair: IDENTICAL_ADDRESSES") ;;
  let token0 := if tokenA <? tokenB then tokenA else tokenB in
  let token1 := if tokenA <? tokenB then tokenB else tokenA in
  throw_if (token0 =? 0) (DynamicException "DEXV2Factory::createPair: ZERO_ADDRESS") ;;
  old ← gets (λ s, getPair token0 token1 s.1);
  throw_if (negb (old =? 0)) (DynamicException "DEXV2Factory::createPair: PAIR_EXISTS") ;;
  me ← gets (λ s, f_address s.1);
  pair ← in_pairs (call_create_pair me);
  in_pairs (call_initialize pair me token0 token1) ;;
  in_factory (set_pair token0 token1 pair) ;;
  in_factory (set_pair token1 token0 pair) ;;
  in_factory (zoom allPairs_ put_allPairs (vec_push_back pair)) ;;
  mret pair.

(** ** The library's view of the pairs *)

Definition pairFor (tokenA tokenB : Address) (s : DEXV2Factory * T) : Address := getPair tokenA tokenB s.1.

(** [getReserves] of the library: the reserves of the pair as they are. *)
Definition lib_getReserves (s : DEXV2Factory * T) (tokenA tokenB : Address) : outcome (Z * Z) :=
  r ← call_getReserves (pairFor tokenA tokenB s) s.2;
  let '(reserveA, reserveB, timestamp) := r in Ret (reserveA, reserveB).

(** ** What the registry promises *)

(** Pairs are found in either order of their tokens, are not the zero address and
    are listed. *)
Record registry_ok (f : DEXV2Factory) : Prop := {
  reg_sym : ∀ a b, getPair a b f = getPair b a f;
  reg_listed : ∀ a b, getPair a b f ≠ 0 → getPair a b f ∈ allPairs f;
  reg_diag : ∀ a, getPair a a f = 0;
}.

Lemma set_pair_run a b p f : ∃ f', set_pair a b p f = (Ret (), f') ∧
  (∀ x y, getPair x y f' = if decide (x = a ∧ y = b) then p else getPair x y f) ∧
  allPairs_ f' = allPairs_ f ∧ feeTo_ f' = feeTo_ f ∧ feeToSetter_ f' = feeToSetter_ f ∧
  f_address f' = f_address f.
Proof.
  unfold set_pair, zoom, mbind, M_bind. rewrite map_index_touch, map_write_touch.
  eexists. split; [reflexivity|]. split_and!; try done. intros x y. unfold getPair. cbn.
  destruct (decide (x = a)) as [->|Hx].
  - rewrite lookup_insert_eq. destruct (decide (y = b)) as [->|Hy].
    + by rewrite lookup_insert_eq, decide_True.
    + rewrite lookup_insert_ne, decide_False by naive_solver.
      by destruct (sm_value (getPair_ f) !! a) as [inner|].
  - by rewrite lookup_insert_ne, decide_False by naive_solver.
Qed.

Lemma push_back_value v (x : SafeVector Address) : ∃ x',
  vec_push_back v x = (Ret (), x') ∧ vec_value x' = vec_value x ++ [v].
Proof.
  unfold vec_push_back, vec_record, vec_update.
  cbv [mbind M_bind gets modify mret M_ret lift]. repeat (case_match; cbn in * ); simplify_eq; eauto.
Qed.

(** The effect of a creation that returns. *)
Lemma createPair_Ret a b f w p f' w' : createPair a b (f, w) = (Ret p, (f', w')) →
  a ≠ b ∧ Z.min a b ≠ 0 ∧ getPair (Z.min a b) (Z.max a b) f = 0 ∧
  (∃ w1, call_create_pair (f_address f) w = (Ret p, w1) ∧
     call_initialize p (f_address f) (Z.min a b) (Z.max a b) w1 = (Ret (), w')) ∧
  (∀ x y, getPair x y f' = if decide (x = a ∧ y = b ∨ x = b ∧ y = a) then p else getPair x y f) ∧
  allPairs f' = allPairs f ++ [p].
Proof.
  intros H. unfold createPair, in_pairs, in_factory in H. inv_run. cbn [fst snd] in *.
  repeat match goal with u : unit |- _ => destruct u | H : (_, _) = (_, _) |- _ => injection H as <- <- end.
  assert (Emin : (if a <? b then a else b) = Z.min a b) by (destruct (Z.ltb_spec a b); lia).
  assert (Emax : (if a <? b then b else a) = Z.max a b) by (destruct (Z.ltb_spec a b); lia).
  rewrite Emin, Emax in *.
  destruct (set_pair_run (Z.min a b) (Z.max a b) p f) as (f1 & E1 & G1 & A1 & _).
  match goal with H : set_pair _ _ _ f = _ |- _ => rewrite E1 in H; injection H as <- end.
  destruct (set_pair_run (Z.max a b) (Z.min a b) p f1) as (f2 & E2 & G2 & A2 & _).
  match goal with H : set_pair _ _ _ f1 = _ |- _ => rewrite E2 in H; injection H as <- end.
  destruct (push_back_value p (allPairs_ f2)) as (v & Ev & Hv).
  match goal with H : vec_push_back _ _ = _ |- _ => rewrite Ev in H; injection H as <- end.
  match goal with H : negb _ = false |- _ => apply negb_false_iff in H end.
  rewrite ?Z.eqb_neq, ?Z.eqb_eq in *. split_and!; [done|done|done|by eexists| |].
  - intros x y. change (getPair x y (put_allPairs v f2)) with (getPair x y f2). rewrite G2, G1.
    repeat case_decide; try done; lia.
  - unfold allPairs. cbn. by rewrite Hv, A2, A1.
Qed.

Lemma createPair_registry a b f w p f' w' : p ≠ 0 → registry_ok f →
  createPair a b (f, w) = (Ret p, (f', w')) → registry_ok f'.
Proof.
  intros Hp [Hs Hl Hd] H. apply createPair_Ret in H as (Hab & _ & _ & _ & Hg & Ha). split.
  - intros x y. rewrite !Hg, (Hs x y). repeat case_decide; naive_solver.
  - intros x y. rewrite Hg, Ha. rewrite elem_of_app, list_elem_of_singleton. case_decide; [by right|]. left. by apply Hl.
  - intros x. rewrite Hg. case_decide; [naive_solver|apply Hd].
Qed.

(** ** The database form of the registry *)

(** [dump]: one entry per pair and direction under the key [tokenA]; the value is
    [tokenB] followed by the address of the pair. *)
Definition dump_getPair (f : DEXV2Factory) : list (Address * (Address * Address)) :=
  flat_map (λ e : Address * gmap Address Address, (λ i : Address * Address, (e.1, i)) <$> map_to_list e.2)
    (map_to_list (sm_value (getPair_ f))).

(** A batch of puts: a later entry replaces an earlier one with the same key. *)
Definition put_batch (batch : list (Address * (Address * Address))) : gmap Address (Address * Address) :=
  foldl (λ db e, <[e.1 := e.2]> db) ∅ batch.

(** The loop of the loading constructor over the entries of the database. *)
Definition load_entry (e : Address * (Address * Address)) : M (SafeMap Address (gmap Address Address)) unit :=
  inner ← map_index ∅ e.1; map_write e.1 (<[e.2.1 := e.2.2]> inner).
Definition load_getPair (db : gmap Address (Address * Address)) : M (SafeMap Address (gmap Address Address)) unit :=
  for_each load_entry (map_to_list db).

Definition reload (f : DEXV2Factory) : DEXV2Factory :=
  put_getPair (load_getPair (put_batch (dump_getPair f)) (map_owned ∅)).2 f.

Lemma load_lookup l m : NoDup l.*1 → (∀ k, k ∈ l.*1 → sm_value m !! k = None) →
  ∀ k, sm_value (for_each load_entry l m).2 !! k =
    match list_to_map (M := gmap Address (Address * Address)) l !! k with
    | Some (b, p) => Some {[b := p]}
    | None => sm_value m !! k
    end.
Proof.
  revert m. induction l as [|[k0 [b p]] l IH]; intros m Hn Hm k; [done|].
  cbn [for_each fmap list_fmap fst] in *. apply NoDup_cons in Hn as [Hni Hn].
  unfold mbind at 1, M_bind at 1. unfold load_entry at 1, mbind at 1, M_bind at 1. rewrite map_index_touch, map_write_touch.
  cbn [fst snd]. rewrite (Hm k0) by left. cbn [default list_to_map foldr fst snd]. rewrite IH; [|done|].
  - cbn. destruct (decide (k = k0)) as [->|Hk].
    + rewrite lookup_insert_eq, not_elem_of_list_to_map_1 by done. by rewrite lookup_insert_eq.
    + by rewrite !lookup_insert_ne by done.
  - intros k1 Hk1. cbn. rewrite lookup_insert_ne by (intros ->; done). apply Hm. by right.
Qed.

Lemma reload_getPair f a b : getPair a b (reload f) =
  match put_batch (dump_getPair f) !! a with
  | Some (b', p) => if decide (b = b') then p else 0
  | None => 0
  end.
Proof.
  unfold getPair, reload, load_getPair. cbn.
  rewrite load_lookup; [|apply NoDup_fst_map_to_list|done]. rewrite list_to_map_to_list.
  destruct (put_batch (dump_getPair f) !! a) as [[b' p]|]; [|done].
  case_decide as E; [subst; by rewrite lookup_singleton_eq|by rewrite lookup_singleton_ne].
Qed.
End factory.

(** ** The properties of the factory *)

(** [createPair] that returns created and initialized one contract with the
    tokens in order, registers exactly that pair under both orders of the tokens,
    appends it to the list and keeps the registry well formed; it refuses equal
    tokens, the zero address and an existing pair without touching anything. *)
Theorem createPair_correct {T} {PW : PairWorld T} (a b : Address) (f : DEXV2Factory) (w : T) :
  registry_ok f →
  (∀ p f' w', p ≠ 0 → createPair a b (f, w) = (Ret p, (f', w')) →
     registry_ok f' ∧ getPair a b f = 0 ∧ allPairs f' = allPairs f ++ [p] ∧
     (∀ x y, getPair x y f' = if decide (x = a ∧ y = b ∨ x = b ∧ y = a) then p else getPair x y f) ∧
     ∃ w1, call_create_pair (f_address f) w = (Ret p, w1) ∧
       call_initialize p (f_address f) (Z.min a b) (Z.max a b) w1 = (Ret (), w')) ∧
  (a = b ∨ a = 0 ∧ 0 < b ∨ b = 0 ∧ 0 < a ∨ getPair a b f ≠ 0 →
     ∃ e, createPair a b (f, w) = (Throw e, (f, w))).
Proof.
  intros Hok. split.
  - intros p f' w' Hp H. pose proof (createPair_registry a b f w p f' w' Hp Hok H) as Hr.
    apply createPair_Ret in H as (_ & _ & G & C & Hg & Ha). split_and!; try done.
    destruct (Z.min_spec a b) as [[Hl Em]|[Hl Em]]; rewrite Em in *.
    + by rewrite Z.max_r in G by lia.
    + rewrite Z.max_l in G by lia. by rewrite (reg_sym f Hok).
  - intros Hc. unfold createPair, mbind, M_bind, throw_if, throw, mret, M_ret, gets.
    destruct (Z.eqb_spec a b); [by eexists|]. cbn [fst].
    destruct (Z.eqb_spec (if a <? b then a else b) 0) as [E0|E0]; [by eexists|].
    assert (Hg : getPair a b f ≠ 0) by (destruct (Z.ltb_spec a b); lia).
    assert (Hn : getPair (if a <? b then a else b) (if a <? b then b else a) f ≠ 0).
    { destruct (a <? b); [done|]. by rewrite (reg_sym f Hok). }
    cbn [fst]. rewrite (proj2 (Z.eqb_neq _ 0) Hn). by eexists.
Qed.

(** The reserves the library reads do not depend on the order it is asked in
    ("fetches and sorts the reserves"): they are never sorted, so for one of the
    two directions of trade of every pair the reserves are exchanged. *)
Theorem getReserves_not_sorted {T} {PW : PairWorld T} (f : DEXV2Factory) (w : T) (a b : Address) :
  registry_ok f → lib_getReserves (f, w) a b = lib_getReserves (f, w) b a.
Proof. intros Hok. unfold lib_getReserves, pairFor. cbn. by rewrite (reg_sym f Hok a b). Qed.

(** A factory written to the database and loaded again has lost pairs: of two
    pairs of the same token at most one is still found. *)
Theorem reload_loses_pairs (f : DEXV2Factory) (a b c : Address) : b ≠ c →
  getPair a b (reload f) = 0 ∨ getPair a c (reload f) = 0.
Proof.
  intros Hbc. rewrite !reload_getPair. destruct (put_batch (dump_getPair f) !! a) as [[x p]|]; [|by left].
  destruct (decide (b = x)) as [->|]; [right; by rewrite decide_False|by left].
Qed.

(** ** Witnesses *)

(** Pairs as their reserves, at consecutive addresses from 100 on. *)
#[local] Instance demo_pairs : PairWorld (gmap Address (Z * Z)) := {|
  call_create_pair _ w := (Ret (100 + Z.of_nat (size w)), <[100 + Z.of_nat (size w) := (0, 0)]> w);
  call_initialize _ _ _ _ w := (Ret (), w);
  call_getReserves p w := match w !! p with Some (r0, r1) => Ret (r0, r1, 0) | None => Throw out_of_range end;
|}.

Definition demo_factory : DEXV2Factory :=
  mkFactory (scalar_owned 0) (scalar_owned 0) (vec_owned []) (map_owned ∅) 8.

Lemma demo_factory_ok : registry_ok demo_factory.
Proof. split; done. Qed.

(** Tokens 1 and 2, then tokens 1 and 3. *)
Definition demo_two : DEXV2Factory * gmap Address (Z * Z) :=
  ((createPair 1 2 ;; createPair 3 1) (demo_factory, ∅)).2.

Lemma createPair_correct_witness :
  (∃ f' w', createPair 2 1 (demo_factory, ∅ : gmap Address (Z * Z)) = (Ret 100, (f', w')) ∧
     getPair 1 2 f' = 100 ∧ allPairs f' = [100]) ∧
  ∃ e, createPair 1 1 (demo_factory, ∅ : gmap Address (Z * Z)) = (Throw e, (demo_factory, ∅)).
Proof.
  destruct (createPair_correct 2 1 demo_factory (∅ : gmap Address (Z * Z)) demo_factory_ok) as [H1 _].
  destruct (createPair_correct 1 1 demo_factory (∅ : gmap Address (Z * Z)) demo_factory_ok) as [_ H2].
  split; [|apply H2; by left].
  destruct (createPair 2 1 (demo_factory, ∅ : gmap Address (Z * Z))) as [r [f' w']] eqn:E.
  assert (r = Ret 100) as -> by (apply (f_equal fst) in E; vm_compute in E; by rewrite <- E).
  destruct (H1 100 f' w' ltac:(done) eq_refl) as (_ & _ & Ha & Hg & _). exists f', w'.
  split_and!; [done| |exact Ha]. rewrite Hg. reflexivity.
Defined.

(** A pool of 40000 of token 1 and 10000 of token 2: a sale of 100 units of token
    2 is quoted 24 units of token 1, the price of the other direction (the right
    quote is 394). *)
Lemma getReserves_not_sorted_witness :
  let f := demo_two.1 in
  let w := {[ 100 := (40000, 10000) ]} : gmap Address (Z * Z) in
  lib_getReserves (f, w) 2 1 = lib_getReserves (f, w) 1 2 ∧
  getAmountsOut (BI := boost_ref) (lib_getReserves (f, w)) 100 [2; 1] = Ret [100; 24] ∧
  getAmountOut (BI := boost_ref) 100 10000 40000 = Ret 394.
Proof.
  intros f w. split_and!; [|vm_compute; reflexivity..]. apply getReserves_not_sorted.
  assert (N1 : 100 ≠ 0) by lia. assert (N2 : 101 ≠ 0) by lia.
  unfold f. destruct (createPair 1 2 (demo_factory, ∅ : gmap Address (Z * Z))) as [r1 [f1 w1]] eqn:E1.
  assert (r1 = Ret 100) as -> by (apply (f_equal fst) in E1; vm_compute in E1; by rewrite <- E1).
  pose proof (createPair_registry _ _ _ _ _ _ _ N1 demo_factory_ok E1) as Hr1.
  destruct (createPair 3 1 (f1, w1)) as [r2 [f2 w2]] eqn:E2.
  assert (r2 = Ret 101) as ->.
  { apply (f_equal fst) in E2. apply (f_equal snd) in E1. vm_compute in E1. injection E1 as <- <-.
    vm_compute in E2. by rewrite <- E2. }
  pose proof (createPair_registry _ _ _ _ _ _ _ N2 Hr1 E2) as Hr2.
  replace demo_two with (f2, w2); [exact Hr2|]. unfold demo_two, mbind, M_bind. by rewrite E1, E2.
Defined.

Lemma reload_loses_pairs_witness :
  getPair 1 2 demo_two.1 = 100 ∧ getPair 1 3 demo_two.1 = 101 ∧
  (getPair 1 2 (reload demo_two.1) = 0 ∨ getPair 1 3 (reload demo_two.1) = 0).
Proof.
  split_and!; [vm_compute; reflexivity|vm_compute; reflexivity|]. apply reload_loses_pairs. lia.
Defined.
