(* ===== verification/DexRouter.v ===== *)
(** * The router of the exchange

    Models src/contract/templates/dexv2/dexv2router02.cpp: the functions users
    call to add and remove liquidity and to trade along a path.  The factory, the
    pairs, the tokens and the wrapper of the native coin are other contracts the
    router calls through the host; [RouterWorld] is what it calls, over the state
    [T] of all of them. *)

From S2P Require Import Prelude CheckedInt DexLibrary.

Class RouterWorld (T : Type) := {
  (** [DEXV2Factory::getPair] and [createPair] *)
  rw_getPair : ∀ tokenA tokenB : Address, M T Address;
  rw_createPair : ∀ tokenA tokenB : Address, M T Address;
  (** [DEXV2Library::pairFor] and [getReserves], which read the contracts directly *)
  rw_pairFor : ∀ tokenA tokenB : Address, T → outcome Address;
  rw_lib_getReserves : T → ∀ tokenA tokenB : Address, outcome (Z * Z);
  (** [DEXV2Pair::getReserves], [mint], [burn] and [swap] *)
  rw_getReserves : Address → M T (Z * Z * Z);
  rw_mint : ∀ pair to : Address, M T Z;
  rw_burn : ∀ pair to : Address, M T (Z * Z);
  rw_swap : ∀ pair : Address, Z → Z → Address → M T unit;
  (** [ERC20::transfer] and [transferFrom], called by the router *)
  rw_transfer : ∀ token to : Address, Z → M T bool;
  rw_transferFrom : ∀ token from to : Address, Z → M T bool;
  (** [NativeWrapper::deposit] with a value, [withdraw], and [sendTokens] *)
  rw_deposit : Z → M T unit;
  rw_withdraw : Z → M T unit;
  rw_sendTokens : Address → Z → M T unit;
}.

(** The call: who makes it, with which value, at which time, and the router's own
    address and wrapper. *)
Record RouterCall := mkRouterCall {
  rc_caller : Address;
  rc_value : Z;
  rc_now : Z;
  rc_self : Address;
  rc_wrapped : Address;
}.

Section router.
Context {BI : BoostInt} {T : Type} {RW : RouterWorld T} (c : RouterCall).

Definition ensure (deadline : Z) : M T bool :=
  throw_if (deadline <? rc_now c) (DynamicException "DEXV2Router02::ensure: EXPIRED") ;; mret true.

(** [receive]: only the wrapper may send coins. *)
Definition receive (sender : Address) : M T unit :=
  throw_if (negb (sender =? rc_wrapped c))
    (DynamicException "DEXV2Router02::receive: Only wrapped native token can call receive!").

(** The amounts [_addLiquidity] settles on. *)
Definition liquidity_amounts (reserveA reserveB amountADesired amountBDesired amountAMin amountBMin : Z) :
    outcome (Z * Z) :=
  if (reserveA =? 0) && (reserveB =? 0) then Ret (amountADesired, amountBDesired)
  else
    amountBoptimal ← quote amountADesired reserveA reserveB;
    if amountBoptimal <=? amountBDesired then
      if amountBoptimal <? amountBMin
      then Throw (DynamicException "DEXV2Router02::_addLiquidity: INSUFFICIENT_B_AMOUNT")
      else Ret (amountADesired, amountBoptimal)
    else
      amountAoptimal ← quote amountBDesired reserveB reserveA;
      if (amountAoptimal >? amountADesired) || (amountAoptimal <? amountAMin)
      then Throw (DynamicException "DEXV2Router02::_addLiquidity: INSUFFICIENT_A_AMOUNT")
      else Ret (amountAoptimal, amountBDesired).

Definition _addLiquidity (tokenA tokenB : Address)
    (amountADesired amountBDesired amountAMin amountBMin : Z) : M T (Z * Z) :=
  p ← rw_getPair tokenA tokenB;
  pairAddress ← (if p =? 0 then rw_createPair tokenA tokenB else mret p);
  r ← rw_getReserves pairAddress;
  let '(reserveA, reserveB, timestamp) := r in
  lift (liquidity_amounts reserveA reserveB amountADesired amountBDesired amountAMin amountBMin).

(** The loop of [_swap] from hop [i] on; [amounts[i + 1]] is the output of hop [i]. *)
Fixpoint swap_hops (amounts : list Z) (path : list Address) (to_ : Address) : M T unit :=
  match path, amounts with
  | input :: ((output :: more) as rest), _ :: ((amountOut :: _) as amounts') =>
      pairAddress ← rw_getPair input output;
      throw_if (pairAddress =? 0) (DynamicException "DEXV2Router02::_swap: PAIR_NOT_FOUND") ;;
      tokens ← lift (sortTokens input output);
      let amount0Out := if input =? tokens.1 then 0 else amountOut in
      let amount1Out := if input =? tokens.1 then amountOut else 0 in
      to ← (match more with [] => mret to_ | next :: _ => rw_getPair output next end);
      rw_swap pairAddress amount0Out amount1Out to ;;
      swap_hops amounts' rest to_
  | _, _ => mret ()
  end.

(** [path.size() - 1] wraps for an empty path, and [amounts[i + 1]] is read
    without a check: [_swap] is only defined on paths with their amounts. *)
Definition _swap (amounts : list Z) (path : list Address) (to_ : Address) : M T unit :=
  if (length path =? 0)%nat || negb (length amounts =? length path)%nat
  then throw undefined_behaviour else swap_hops amounts path to_.

Definition addLiquidity (tokenA tokenB : Address)
    (amountADesired amountBDesired amountAMin amountBMin : Z) (to : Address) (deadline : Z) : M T (Z * Z * Z) :=
  ensure deadline ;;
  ab ← _addLiquidity tokenA tokenB amountADesired amountBDesired amountAMin amountBMin;
  let '(amountA, amountB) := ab in
  w ← gets id; pair ← lift (rw_pairFor tokenA tokenB w);
  rw_transferFrom tokenA (rc_caller c) pair amountA ;;
  rw_transferFrom tokenB (rc_caller c) pair amountB ;;
  liquidity ← rw_mint pair to;
  mret (amountA, amountB, liquidity).

Definition addLiquidityNative (token : Address) (amountTokenDesired amountTokenMin amountNativeMin : Z)
    (to : Address) (deadline : Z) : M T (Z * Z * Z) :=
  ensure deadline ;;
  ab ← _addLiquidity token (rc_wrapped c) amountTokenDesired (rc_value c) amountTokenMin amountNativeMin;
  let '(amountToken, amountNative) := ab in
  w ← gets id; pair ← lift (rw_pairFor token (rc_wrapped c) w);
  rw_transferFrom token (rc_caller c) pair amountToken ;;
  rw_deposit amountNative ;;
  rw_transfer (rc_wrapped c) pair amountNative ;;
  liquidity ← rw_mint pair to;
  (if rc_value c >? amountNative then
     d ← lift (usub 256 (rc_value c) amountNative); rw_sendTokens (rc_caller c) d
   else mret ()) ;;
  mret (amountToken, amountNative, liquidity).

Definition removeLiquidity (tokenA tokenB : Address) (liquidity amountAMin amountBMin : Z)
    (to : Address) (deadline : Z) : M T (Z * Z) :=
  ensure deadline ;;
  w ← gets id; pair ← lift (rw_pairFor tokenA tokenB w);
  rw_transferFrom pair (rc_caller c) pair liquidity ;;
  am ← rw_burn pair to;
  let '(amount0, amount1) := am in
  tokens ← lift (sortTokens tokenA tokenB);
  let amountA := if tokenA =? tokens.1 then amount0 else amount1 in
  let amountB := if tokenA =? tokens.1 then amount1 else amount0 in
  throw_if (amountA <? amountAMin)
    (DynamicException "DEXV2Router02::removeLiquidity: INSUFFICIENT_A_AMOUNT") ;;
  throw_if (amountB <? amountBMin)
    (DynamicException "DEXV2Router02::removeLiquidity: INSUFFICIENT_B_AMOUNT") ;;
  mret (amountA, amountB).

Definition removeLiquidityNative (token : Address) (liquidity amountTokenMin amountNativeMin : Z)
    (to : Address) (deadline : Z) : M T (Z * Z) :=
  ensure deadline ;;
  ab ← removeLiquidity token (rc_wrapped c) liquidity amountTokenMin amountNativeMin (rc_self c) deadline;
  let '(amountToken, amountNative) := ab in
  rw_transfer token to amountToken ;;
  rw_withdraw amountNative ;;
  rw_sendTokens (rc_caller c) amountNative ;;
  mret (amountToken, amountNative).

(** [path[0]], [path[1]] and [amounts.back()]. *)
Definition path_at (path : list Address) (i : nat) : M T Address :=
  match path !! i with Some a => mret a | None => throw undefined_behaviour end.
Definition last_amount (amounts : list Z) : Z := default 0 (last amounts).
Definition first_amount (amounts : list Z) : Z := default 0 (head amounts).

Definition amounts_out_of (amountIn : Z) (path : list Address) : M T (list Z) :=
  w ← gets id; lift (getAmountsOut (rw_lib_getReserves w) amountIn path).
Definition amounts_in_of (amountOut : Z) (path : list Address) : M T (list Z) :=
  w ← gets id; lift (getAmountsIn (rw_lib_getReserves w) amountOut path).
Definition first_pair (path : list Address) : M T Address :=
  a ← path_at path 0; b ← path_at path 1; w ← gets id; lift (rw_pairFor a b w).

(** The caller pays the first token to the first pair. *)
Definition pay_first (path : list Address) (amount : Z) : M T unit :=
  pair ← first_pair path;
  a ← path_at path 0;
  rw_transferFrom a (rc_caller c) pair amount ;; mret ().

(** The router wraps the coins it got and pays them to the first pair. *)
Definition pay_native (path : list Address) (amount : Z) : M T unit :=
  rw_deposit amount ;;
  pair ← first_pair path;
  rw_transfer (rc_wrapped c) pair amount ;; mret ().

Definition swapExactTokensForTokens (amountIn amountOutMin : Z) (path : list Address) (to : Address)
    (deadline : Z) : M T (list Z) :=
  ensure deadline ;;
  amounts ← amounts_out_of amountIn path;
  throw_if (last_amount amounts <? amountOutMin)
    (DynamicException "DEXV2Router02::swapExactTokensForTokens: INSUFFICIENT_OUTPUT_AMOUNT") ;;
  pay_first path (first_amount amounts) ;;
  _swap amounts path to ;;
  mret amounts.

Definition swapTokensForExactTokens (amountOut amountInMax : Z) (path : list Address) (to : Address)
    (deadline : Z) : M T (list Z) :=
  ensure deadline ;;
  amounts ← amounts_in_of amountOut path;
  throw_if (first_amount amounts >? amountInMax)
    (DynamicException "DEXV2Router02::swapTokensForExactTokens: EXCESSIVE_INPUT_AMOUNT") ;;
  pay_first path (first_amount amounts) ;;
  _swap amounts path to ;;
  mret amounts.

Definition swapExactNativeForTokens (amountOutMin : Z) (path : list Address) (to : Address)
    (deadline : Z) : M T (list Z) :=
  ensure deadline ;;
  a ← path_at path 0;
  throw_if (negb (a =? rc_wrapped c)) (DynamicException "DEXV2Router02::swapExactNativeForTokens: INVALID_PATH") ;;
  amounts ← amounts_out_of (rc_value c) path;
  throw_if (last_amount amounts <? amountOutMin)
    (DynamicException "DEXV2Router02::swapExactNativeForTokens: INSUFFICIENT_OUTPUT_AMOUNT") ;;
  pay_native path (first_amount amounts) ;;
  _swap amounts path to ;;
  mret amounts.

Definition path_back (path : list Address) : M T Address :=
  match last path with Some a => mret a | None => throw undefined_behaviour end.

Definition swapTokensForExactNative (amountOut amountInMax : Z) (path : list Address) (to : Address)
    (deadline : Z) : M T (list Z) :=
  ensure deadline ;;
  z ← path_back path;
  throw_if (negb (z =? rc_wrapped c)) (DynamicException "DEXV2Router02::swapTokensForExactNative: INVALID_PATH") ;;
  amounts ← amounts_in_of amountOut path;
  throw_if (first_amount amounts >? amountInMax)
    (DynamicException "DEXV2Router02::swapTokensForExactNative: EXCESSIVE_INPUT_AMOUNT") ;;
  pay_first path (first_amount amounts) ;;
  _swap amounts path (rc_self c) ;;
  rw_withdraw amountOut ;;
  rw_sendTokens to amountOut ;;
  mret amounts.

Definition swapExactTokensForNative (amountIn amountOutMin : Z) (path : list Address) (to : Address)
    (deadline : Z) : M T (list Z) :=
  ensure deadline ;;
  z ← path_back path;
  throw_if (negb (z =? rc_wrapped c)) (DynamicException "DEXV2Router02::swapExactTokensForNative: INVALID_PATH") ;;
  amounts ← amounts_out_of amountIn path;
  throw_if (last_amount amounts <? amountOutMin)
    (DynamicException "DEXV2Router02::swapExactTokensForNative: INSUFFICIENT_OUTPUT_AMOUNT") ;;
  pay_first path (first_amount amounts) ;;
  _swap amounts path (rc_self c) ;;
  rw_withdraw (last_amount amounts) ;;
  rw_sendTokens to (last_amount amounts) ;;
  mret amounts.

(** [swapNativeForExactTokens] sends nothing back: coins beyond [amounts[0]] stay
    with the router. *)
Definition swapNativeForExactTokens (amountOut amountInMax : Z) (path : list Address) (to : Address)
    (deadline : Z) : M T (list Z) :=
  ensure deadline ;;
  a ← path_at path 0;
  throw_if (negb (a =? rc_wrapped c)) (DynamicException "DEXV2Router02::swapNativeForExactTokens: INVALID_PATH") ;;
  amounts ← amounts_in_of amountOut path;
  throw_if (first_amount amounts >? amountInMax)
    (DynamicException "DEXV2Router02::swapNativeForExactTokens: EXCESSIVE_INPUT_AMOUNT") ;;
  pay_native path (first_amount amounts) ;;
  _swap amounts path to ;;
  mret amounts.
End router.

(** ** What a user is protected from *)

Section limits.
Context {BI : BoostInt}.

Lemma amounts_out_shape g i path l : amounts_out g i path = Ret l → path ≠ [] →
  length l = length path ∧ head l = Some i.
Proof.
  revert i l. induction path as [|a [|b path] IH]; intros i l H Hne; [done| |].
  - injection H as <-. done.
  - cbn [amounts_out] in H. inv_run. edestruct IH as [E _]; [eassumption|done|].
    cbn in *. rewrite E. done.
Qed.

Lemma amounts_in_shape g o path l : amounts_in g o path = Ret l → path ≠ [] →
  length l = length path ∧ last l = Some o.
Proof.
  revert l. induction path as [|a [|b path] IH]; intros l H Hne; [done| |].
  - injection H as <-. done.
  - change (amounts_in g o (a :: b :: path)) with
      (l ← amounts_in g o (b :: path); r ← g a b; i ← getAmountIn (default 0 (head l)) r.1 r.2; Ret (i :: l)) in H.
    apply bind_outcome_Ret in H as (l1 & H1 & H). destruct (IH l1 H1 ltac:(done)) as [E E'].
    destruct l1 as [|x l1]; [done|]. inv_run. cbn in *. rewrite E. done.
Qed.

Lemma getAmountsOut_shape g i path l : getAmountsOut g i path = Ret l →
  length l = length path ∧ head l = Some i ∧ (2 ≤ length path)%nat.
Proof.
  unfold getAmountsOut. destruct (Nat.ltb_spec (length path) 2) as [|Hl]; [done|]. intros H.
  apply amounts_out_shape in H as [? ?]; [done|]. by intros ->; cbn in Hl; lia.
Qed.

Lemma getAmountsIn_shape g o path l : getAmountsIn g o path = Ret l →
  length l = length path ∧ last l = Some o ∧ (2 ≤ length path)%nat.
Proof.
  unfold getAmountsIn. destruct (Nat.ltb_spec (length path) 2) as [|Hl]; [done|]. intros H.
  apply amounts_in_shape in H as [? ?]; [done|]. by intros ->; cbn in Hl; lia.
Qed.

(** The amounts of a deposit: all of one token and the equivalent of the other. *)
Lemma liquidity_amounts_Ret ra rb ad bd amin bmin a b :
  liquidity_amounts ra rb ad bd amin bmin = Ret (a, b) →
  a ≤ ad ∧ b ≤ bd ∧
  (ra = 0 ∧ rb = 0 ∧ a = ad ∧ b = bd ∨
   a = ad ∧ b = ad * rb / ra ∧ bmin ≤ b ∨ b = bd ∧ a = bd * ra / rb ∧ amin ≤ a).
Proof.
  unfold liquidity_amounts, quote.
  destruct (Z.eqb_spec ra 0), (Z.eqb_spec rb 0); cbn [andb orb].
  all: try (intros [= <- <-]; split_and!; [lia..|left; done]).
  all: destruct (Z.eqb_spec ad 0); [done|]; try done.
  intros H. inv_run. inv_checked.
  match goal with H : (if ?x <=? bd then _ else _) = _ |- _ => destruct (Z.leb_spec x bd) end.
  - match goal with H : (if ?x <? bmin then _ else _) = _ |- _ => destruct (Z.ltb_spec x bmin); [done|] end.
    match goal with H : Ret _ = Ret _ |- _ => injection H as <- <- end. split_and!; [lia..|right; left; done].
  - destruct (Z.eqb_spec bd 0); [done|]. inv_run. inv_checked.
    match goal with H : (if (?x >? ad) || _ then _ else _) = _ |- _ =>
      destruct (Z.gtb_spec x ad); [done|]; destruct (Z.ltb_spec x amin); [done|]; cbn [orb] in H;
      injection H as <- <- end. split_and!; [lia..|right; right; done].
Qed.
End limits.

(** The router keeps its users' limits: a trade that returns did so before its
    deadline, along at least one pair, with the promised first or last amount and
    the other one within the caller's limit; liquidity is added in the ratio of the
    reserves with at most the desired and at least the minimal amounts, and removed
    for at least the minimal ones. *)
Theorem router_limits {BI : BoostInt} {T} {RW : RouterWorld T} (c : RouterCall) (w w' : T)
    (x limit deadline : Z) (path : list Address) (to : Address) (l : list Z) :
  (swapExactTokensForTokens c x limit path to deadline w = (Ret l, w') ∨
   swapExactTokensForNative c x limit path to deadline w = (Ret l, w') →
   rc_now c ≤ deadline ∧ length l = length path ∧ (2 ≤ length path)%nat ∧ head l = Some x ∧ limit ≤ last_amount l) ∧
  (swapTokensForExactTokens c x limit path to deadline w = (Ret l, w') ∨
   swapTokensForExactNative c x limit path to deadline w = (Ret l, w') ∨
   swapNativeForExactTokens c x limit path to deadline w = (Ret l, w') →
   rc_now c ≤ deadline ∧ length l = length path ∧ (2 ≤ length path)%nat ∧ last l = Some x ∧ first_amount l ≤ limit) ∧
  (∀ tokenA tokenB ad bd amin bmin a b s,
   addLiquidity c tokenA tokenB ad bd amin bmin to deadline w = (Ret (a, b, s), w') →
   rc_now c ≤ deadline ∧ a ≤ ad ∧ b ≤ bd ∧ (a = ad ∨ amin ≤ a) ∧ (b = bd ∨ bmin ≤ b)) ∧
  (∀ tokenA tokenB amin bmin a b,
   removeLiquidity c tokenA tokenB x amin bmin to deadline w = (Ret (a, b), w') →
   rc_now c ≤ deadline ∧ amin ≤ a ∧ bmin ≤ b).
Proof.
  split_and!.
  - intros [H|H]; [unfold swapExactTokensForTokens in H|unfold swapExactTokensForNative in H];
      unfold ensure, amounts_out_of in H; inv_run;
      match goal with H : getAmountsOut _ _ _ = _ |- _ => apply getAmountsOut_shape in H as (? & ? & ?) end;
      rewrite ?Z.ltb_ge in *; split_and!; done.
  - intros [H|[H|H]]; [unfold swapTokensForExactTokens in H|unfold swapTokensForExactNative in H
      |unfold swapNativeForExactTokens in H]; unfold ensure, amounts_in_of in H; inv_run;
      match goal with H : getAmountsIn _ _ _ = _ |- _ => apply getAmountsIn_shape in H as (? & ? & ?) end;
      rewrite ?Z.ltb_ge in *; (split_and!; [done..|]);
      match goal with H : (?a >? ?b) = false |- _ => destruct (Z.gtb_spec a b); [done|lia] end.
  - intros tokenA tokenB ad bd amin bmin a b s H. unfold addLiquidity, ensure, _addLiquidity in H. inv_run.
    repeat match goal with p : (_ * _)%type |- _ => destruct p end. inv_run.
    match goal with H : (_, _, _) = (_, _, _) |- _ => injection H as -> -> -> end.
    match goal with H : liquidity_amounts _ _ _ _ _ _ = _ |- _ => apply liquidity_amounts_Ret in H end.
    rewrite ?Z.ltb_ge in *. naive_solver lia.
  - intros tokenA tokenB amin bmin a b H. unfold removeLiquidity, ensure in H. inv_run.
    repeat match goal with p : (_ * _)%type |- _ => destruct p end. inv_run.
    match goal with H : (_, _) = (_, _) |- _ => injection H as <- <- end.
    rewrite ?Z.ltb_ge in *. done.
Qed.

(** Neither the check nor the outcome of [swapNativeForExactTokens] depends on the
    coins sent with the call: too few are taken from the router's own balance, and
    what is left over is not sent back. *)
Lemma swapNativeForExactTokens_ignores_value {BI : BoostInt} {T} {RW : RouterWorld T}
    caller v v' now self wrapped amountOut amountInMax path to deadline :
  swapNativeForExactTokens (mkRouterCall caller v now self wrapped) amountOut amountInMax path to deadline =
  swapNativeForExactTokens (mkRouterCall caller v' now self wrapped) amountOut amountInMax path to deadline.
Proof. done. Qed.

(** Block timestamps are in microseconds: from 1970 on, a deadline within the
    current range of seconds (10 digits) has always expired. *)
Lemma deadline_in_seconds_expired {T} c deadline (w : T) :
  deadline < 10 ^ 10 → 10 ^ 10 ≤ rc_now c → returns (ensure c deadline w).1 = false.
Proof. intros Hd Hn. unfold ensure, throw_if. destruct (Z.ltb_spec deadline (rc_now c)); [done|lia]. Qed.

(** One pair with reserves 10000 and 40000 whose calls all succeed. *)
#[local] Instance demo_router : RouterWorld unit := {|
  rw_getPair _ _ := mret 100;
  rw_createPair _ _ := mret 100;
  rw_pairFor _ _ _ := Ret 100;
  rw_lib_getReserves _ _ _ := Ret (10000, 40000);
  rw_getReserves _ := mret (10000, 40000, 0);
  rw_mint _ _ := mret 1;
  rw_burn _ _ := mret (5, 20);
  rw_swap _ _ _ _ := mret ();
  rw_transfer _ _ _ := mret true;
  rw_transferFrom _ _ _ _ := mret true;
  rw_deposit _ := mret ();
  rw_withdraw _ := mret ();
  rw_sendTokens _ _ := mret ();
|}.

Lemma router_limits_witness :
  let c := mkRouterCall 5 0 1000 200 50 in
  (∃ l w', swapExactTokensForTokens (BI := boost_ref) c 100 390 [1; 2] 7 2000 () = (Ret l, w') ∧
     390 ≤ last_amount l) ∧
  ∃ a b s w', addLiquidity (BI := boost_ref) c 1 2 100 500 90 300 7 2000 () = (Ret (a, b, s), w') ∧ b ≤ 500.
Proof.
  intros c. split.
  - destruct (router_limits (BI := boost_ref) c () () 100 390 2000 [1; 2] 7 [100; 394]) as [H _].
    exists [100; 394], (). split; [vm_compute; reflexivity|]. apply H. left. vm_compute. reflexivity.
  - destruct (router_limits (BI := boost_ref) c () () 100 390 2000 [1; 2] 7 []) as (_ & _ & H & _).
    exists 100, 400, 1, (). split; [vm_compute; reflexivity|].
    apply (H 1 2 100 500 90 300 100 400 1). vm_compute. reflexivity.
Defined.
