(* ===== verification/ExecutionContext.v ===== *)
(** * The execution context: a journaled view of the chain state

    Models src/contract/executioncontext.{h,cpp} and the undo entries of
    src/utils/transactional.h.  Every write pushes an entry on [transactions_];
    popping an entry runs it (the destructor of [BasicTransactional] reverts),
    committing an entry only disarms it.  [world_equiv] is the equivalence the
    journal guarantees: [getAccount] inserts a default account without an entry,
    so states are compared up to accounts that are all zero.  [world_upto D] is
    what remains of it when contracts are notified at addresses [D] that hold one
    already: undoing that erases them. *)

From S2P Require Import Prelude CheckedInt.

(** [enum class ContractType] (src/utils/utils.h) *)
Inductive ContractType := NOT_A_CONTRACT | EVM | CPP.

#[export] Instance ContractType_eq_dec : EqDecision ContractType.
Proof. solve_decision. Defined.

(** [struct Account]; a null [code] pointer is [None]. *)
Record Account := mkAccount {
  balance : Z;
  nonce : Z;
  codeHash : Hash;
  code : option (list Z);
  contractType : ContractType;
}.

Definition Account0 : Account := mkAccount 0 0 0 None NOT_A_CONTRACT.

Definition isContract (a : Account) : bool := negb (bool_decide (contractType a = NOT_A_CONTRACT)).

(** [class Event]: what an emitted log holds. *)
Record Event := mkEvent {
  logIndex : Z;
  ev_txHash : Hash;
  ev_txIndex : Z;
  ev_blockHash : Hash;
  ev_blockIndex : Z;
  ev_address : Address;
  ev_data : list Z;
  ev_topics : list Hash;
  ev_anonymous : bool;
}.

(** The containers the entries of the journal refer to: the four maps owned by
    [State] and the two vectors of the context.  A contract is the identity of
    its object; [None] is a null [unique_ptr]. *)
Record World := mkWorld {
  accounts_ : gmap Z Account;
  storage_ : gmap (Z * Z) Hash;
  contracts_ : gmap Z (option nat);
  evmContracts_ : gmap Z (list Z);
  events_ : list Event;
  newContracts_ : list (Address * option nat);
}.

Definition with_accounts f w := mkWorld (f (accounts_ w)) (storage_ w) (contracts_ w) (evmContracts_ w) (events_ w) (newContracts_ w).
Definition with_storage f w := mkWorld (accounts_ w) (f (storage_ w)) (contracts_ w) (evmContracts_ w) (events_ w) (newContracts_ w).
Definition with_contracts f w := mkWorld (accounts_ w) (storage_ w) (f (contracts_ w)) (evmContracts_ w) (events_ w) (newContracts_ w).
Definition with_evmContracts f w := mkWorld (accounts_ w) (storage_ w) (contracts_ w) (f (evmContracts_ w)) (events_ w) (newContracts_ w).
Definition with_events f w := mkWorld (accounts_ w) (storage_ w) (contracts_ w) (evmContracts_ w) (f (events_ w)) (newContracts_ w).
Definition with_newContracts f w := mkWorld (accounts_ w) (storage_ w) (contracts_ w) (evmContracts_ w) (events_ w) (f (newContracts_ w)).

(** The account an address denotes: [accounts_[address]] creates a default one. *)
Definition account (w : World) (a : Address) : Account := default Account0 (accounts_ w !! a).

(** ** Undo entries *)

(** The transactions the context pushes: [copy] of an account field,
    [emplaceOrAssign] of a storage slot, [emplaceBack] of an event, and the
    [BasicTransactional]s that erase a contract or an EVM code or pop
    [newContracts_]. *)
Inductive Undo :=
| UBalance (a : Address) (old : Z)
| UNonce (a : Address) (old : Z)
| UCodeHash (a : Address) (old : Hash)
| UCode (a : Address) (old : option (list Z))
| UContractType (a : Address) (old : ContractType)
| UStorage (k : Address * Hash) (mapped : option Hash)
| UEraseContract (a : Address)
| UPopNewContract
| UEraseEvmContract (h : Hash)
| UPopEvent.

(** Write a field of an account that exists: the entry holds a reference to it. *)
Definition on_account (a : Address) (f : Account → Account) (w : World) : outcome World :=
  match accounts_ w !! a with
  | None => Throw undefined_behaviour
  | Some acc => Ret (with_accounts (<[a := f acc]>) w)
  end.

Definition set_balance b acc := mkAccount b (nonce acc) (codeHash acc) (code acc) (contractType acc).
Definition set_nonce n acc := mkAccount (balance acc) n (codeHash acc) (code acc) (contractType acc).
Definition set_codeHash h acc := mkAccount (balance acc) (nonce acc) h (code acc) (contractType acc).
Definition set_code c acc := mkAccount (balance acc) (nonce acc) (codeHash acc) c (contractType acc).
Definition set_contractType t acc := mkAccount (balance acc) (nonce acc) (codeHash acc) (code acc) t.

(** [pop_back]: undefined on an empty vector. *)
Definition pop_back {A} (l : list A) : outcome (list A) :=
  match l with [] => Throw undefined_behaviour | _ => Ret (removelast l) end.

(** [BasicTransactional::revert] of each kind of entry. *)
Definition undo_one (u : Undo) (w : World) : outcome World :=
  match u with
  | UBalance a b => on_account a (set_balance b) w
  | UNonce a n => on_account a (set_nonce n) w
  | UCodeHash a h => on_account a (set_codeHash h) w
  | UCode a c => on_account a (set_code c) w
  | UContractType a t => on_account a (set_contractType t) w
  | UStorage k (Some v) =>
      if decide (is_Some (storage_ w !! k))
      then Ret (with_storage (<[k := v]>) w) else Throw out_of_range
  | UStorage k None => Ret (with_storage (delete k) w)
  | UEraseContract a => Ret (with_contracts (delete a) w)
  | UPopNewContract =>
      l ← pop_back (newContracts_ w); Ret (with_newContracts (λ _, l) w)
  | UEraseEvmContract h => Ret (with_evmContracts (delete h) w)
  | UPopEvent => l ← pop_back (events_ w); Ret (with_events (λ _, l) w)
  end.

(** Popping entries from the top of the stack, the last pushed first. *)
Fixpoint undo_all (us : list Undo) (w : World) : outcome World :=
  match us with
  | [] => Ret w
  | u :: us => w' ← undo_one u w; undo_all us w'
  end.

(** ** The context *)

(** The block and transaction fields of [ExecutionContext].  The compiler
    chooses the order in which the arguments of [Event(...)] are evaluated in
    [addEvent(address, data, topics)]; [args_left_to_right] records it. *)
Record Env := mkEnv {
  blockGasLimit_ : Z;
  blockNumber_ : Z;
  blockTimestamp_ : Z;
  txIndex_ : Z;
  blockCoinbase_ : Address;
  txOrigin_ : Address;
  blockHash_ : Hash;
  txHash_ : Hash;
  chainId_ : Z;
  txGasPrice_ : Z;
  args_left_to_right : bool;
}.

(** [overwritten_] is a history variable that the code does not have: the
    addresses that held a contract when [notifyNewContract] was called for them
    (an EVM contract is deployed where a C++ contract is). *)
Record Ctx := mkCtx {
  env : Env;
  world : World;
  transactions_ : list Undo;
  overwritten_ : gset Z;
}.

Definition with_world f (c : Ctx) := mkCtx (env c) (f (world c)) (transactions_ c) (overwritten_ c).
Definition with_transactions f (c : Ctx) := mkCtx (env c) (world c) (f (transactions_ c)) (overwritten_ c).
Definition with_overwritten f (c : Ctx) := mkCtx (env c) (world c) (transactions_ c) (f (overwritten_ c)).

Definition push (u : Undo) : M Ctx unit := modify (with_transactions (cons u)).
Definition write (f : World → World) : M Ctx unit := modify (with_world f).

(** [AccountPointer]: a reference to the account at an address. *)
Record AccountPointer := mkAccountPointer { account_ : Address }.

Section context.
Context {BI : BoostInt}.

(** [addEvent(Event)] *)
Definition addEvent (e : Event) : M Ctx unit :=
  write (with_events (λ l, l ++ [e])) ;; push UPopEvent.

(** [addEvent(name, address, args, anonymous)]: the encoded signature, indexed
    arguments and data come from the ABI encoder; [Event]'s constructor keeps
    at most four topics. *)
Definition addEvent_cpp (signature : Hash) (indexed : list Hash) (data : list Z)
    (addr : Address) (anonymous : bool) : M Ctx unit :=
  c ← gets id;
  addEvent (mkEvent (Z.of_nat (length (events_ (world c)))) (txHash_ (env c)) (txIndex_ (env c))
    (blockHash_ (env c)) (blockNumber_ (env c)) addr data
    (take 4 (if anonymous then indexed else signature :: indexed)) anonymous).

(** [addEvent(address, data, topics)]: [!topics.empty()] is read before or
    after [topics] is moved from. *)
Definition addEvent_evm (addr : Address) (data : list Z) (topics : list Hash) : M Ctx unit :=
  c ← gets id;
  addEvent (mkEvent (Z.of_nat (length (events_ (world c)))) (txHash_ (env c)) (txIndex_ (env c))
    (blockHash_ (env c)) (blockNumber_ (env c)) addr data topics
    (if args_left_to_right (env c) then false else negb (bool_decide (topics = [])))).

(** [accounts_[accountAddress]] *)
Definition getAccount (a : Address) : M Ctx AccountPointer :=
  write (λ w, with_accounts (<[a := account w a]>) w) ;; mret (mkAccountPointer a).

Definition accountExists (a : Address) : M Ctx bool :=
  gets (λ c, bool_decide (is_Some (accounts_ (world c) !! a))).

Definition getContract (a : Address) : M Ctx nat :=
  cs ← gets (λ c, contracts_ (world c));
  match cs !! a with
  | None => throw (DynamicException "contract not found")
  | Some None => throw (DynamicException "not a C++ contract")
  | Some (Some p) => mret p
  end.

Definition getMutableAccount (a : Address) : M Ctx AccountPointer :=
  accs ← gets (λ c, accounts_ (world c));
  match accs !! a with
  | None => throw (DynamicException "account not found")
  | Some _ => mret (mkAccountPointer a)
  end.

Definition checkEVMContract (h : Hash) (bytecode : list Z) : M Ctx (list Z) :=
  evm ← gets (λ c, evmContracts_ (world c));
  match evm !! h with
  | None =>
      write (with_evmContracts (<[h := bytecode]>)) ;;
      push (UEraseEvmContract h) ;;
      mret bytecode
  | Some b => mret b
  end.

(** *** [AccountPointer] *)

Definition deref (p : AccountPointer) : M Ctx Account :=
  gets (λ c, account (world c) (account_ p)).
Definition assign (p : AccountPointer) (f : Account → Account) : M Ctx unit :=
  write (λ w, with_accounts (<[account_ p := f (account w (account_ p))]>) w).

Definition getBalance (p : AccountPointer) : M Ctx Z := acc ← deref p; mret (balance acc).
Definition getNonce (p : AccountPointer) : M Ctx Z := acc ← deref p; mret (nonce acc).
Definition getCodeHash (p : AccountPointer) : M Ctx Hash := acc ← deref p; mret (codeHash acc).
Definition getCode (p : AccountPointer) : M Ctx (list Z) :=
  acc ← deref p; mret (default [] (code acc)).
Definition getContractType (p : AccountPointer) : M Ctx ContractType :=
  acc ← deref p; mret (contractType acc).

Definition setBalance (p : AccountPointer) (amount : Z) : M Ctx unit :=
  acc ← deref p; push (UBalance (account_ p) (balance acc)) ;; assign p (set_balance amount).
Definition setNonce (p : AccountPointer) (n : Z) : M Ctx unit :=
  acc ← deref p; push (UNonce (account_ p) (nonce acc)) ;; assign p (set_nonce n).
Definition setCode (p : AccountPointer) (c : option (list Z)) (h : Hash) : M Ctx unit :=
  acc ← deref p;
  push (UCodeHash (account_ p) (codeHash acc)) ;;
  push (UCode (account_ p) (code acc)) ;;
  assign p (set_codeHash h) ;;
  assign p (set_code c).
Definition setContractType (p : AccountPointer) (t : ContractType) : M Ctx unit :=
  acc ← deref p; push (UContractType (account_ p) (contractType acc)) ;; assign p (set_contractType t).

(** *** Contracts, transfers and storage *)

Definition notifyNewContract (a : Address) (p : option nat) : M Ctx unit :=
  write (with_newContracts (λ l, l ++ [(a, p)])) ;;
  push (UEraseContract a) ;;
  push UPopNewContract.

(** A call of [notifyNewContract] from outside: the history variable is kept. *)
Definition notifyContractAt (a : Address) (p : option nat) : M Ctx unit :=
  cs ← gets (λ c, contracts_ (world c));
  (if decide (is_Some (cs !! a)) then modify (with_overwritten (λ D, {[ a ]} ∪ D)) else mret ()) ;;
  notifyNewContract a p.

Definition addContract (a : Address) (contract : option nat) : M Ctx unit :=
  match contract with
  | None => throw (DynamicException "attempt to insert null contract")
  | Some _ =>
      cs ← gets (λ c, contracts_ (world c));
      match cs !! a with
      | Some _ => throw (DynamicException "contract already exists")
      | None =>
          write (with_contracts (<[a := contract]>)) ;;
          acc ← getAccount a;
          setNonce acc 1 ;;
          setContractType acc CPP ;;
          notifyNewContract a contract
      end
  end.

Definition transferBalance (from to : Address) (amount : Z) : M Ctx unit :=
  sender ← getAccount from;
  recipient ← getAccount to;
  b ← getBalance sender;
  throw_if (b <? amount) (DynamicException "insufficient founds") ;;
  b' ← lift (usub 256 b amount);
  setBalance sender b' ;;
  r ← getBalance recipient;
  r' ← lift (uadd 256 r amount);
  setBalance recipient r'.

(** [emplaceOrAssign] on [storage_]. *)
Definition store (addr : Address) (slot : Hash) (data : Hash) : M Ctx unit :=
  st ← gets (λ c, storage_ (world c));
  let k := (addr, slot) in
  write (with_storage (<[k := data]>)) ;;
  push (UStorage k (st !! k)).

Definition retrieve (addr : Address) (slot : Hash) : M Ctx Hash :=
  gets (λ c, default 0 (storage_ (world c) !! (addr, slot))).

(** *** Commit, revert and checkpoints *)

Definition clear_vectors (w : World) : World :=
  with_newContracts (λ _, []) (with_events (λ _, []) w).

Definition commit : M Ctx unit :=
  modify (with_transactions (λ _, [])) ;; write clear_vectors.

(** Pop [n] entries. *)
Definition unwind (n : nat) : M Ctx unit := λ c,
  match undo_all (take n (transactions_ c)) (world c) with
  | Ret w => (Ret (), mkCtx (env c) w (drop n (transactions_ c)) (overwritten_ c))
  | Throw e => (Throw e, c)
  end.

Definition revert : M Ctx unit :=
  n ← gets (λ c, length (transactions_ c));
  unwind n ;; write clear_vectors.

(** [Checkpoint]: whether [transactions_] is not null, and [checkpoint_]. *)
Record Checkpoint := mkCheckpoint { cp_armed : bool; checkpoint_ : nat }.

Definition checkpoint : M Ctx Checkpoint :=
  gets (λ c, mkCheckpoint true (length (transactions_ c))).

Definition Checkpoint_commit (cp : Checkpoint) : Checkpoint := mkCheckpoint false (checkpoint_ cp).

Definition Checkpoint_revert (cp : Checkpoint) : M Ctx Checkpoint :=
  if cp_armed cp then
    n ← gets (λ c, length (transactions_ c));
    unwind (n - checkpoint_ cp) ;; mret (mkCheckpoint false (checkpoint_ cp))
  else mret cp.
End context.

(** ** Equivalence of states *)

(** Equal up to accounts that are all zero. *)
Record world_equiv (w w' : World) : Prop := mkWorldEquiv {
  we_account : ∀ a, account w a = account w' a;
  we_storage : storage_ w = storage_ w';
  we_contracts : contracts_ w = contracts_ w';
  we_evmContracts : evmContracts_ w = evmContracts_ w';
  we_events : events_ w = events_ w';
  we_newContracts : newContracts_ w = newContracts_ w';
}.

#[export] Instance world_equiv_equivalence : Equivalence world_equiv.
Proof.
  split.
  - intros w. by split.
  - intros w w' []. by split.
  - intros w1 w2 w3 [] []. split; [intros a|..]; etrans; eauto.
Qed.

#[export] Instance world_Equiv : Equiv World := world_equiv.

#[export] Instance world_equiv_rewrite : RewriteRelation (≡@{World}) := {}.

#[export] Instance account_Proper : Proper ((≡) ==> (=) ==> (=)) account.
Proof. intros w w' Hw a a' ->. apply Hw. Qed.

(** [world_upto D w w']: equal up to accounts that are all zero, except that
    the contracts at the addresses [D] may be gone. *)
Record world_upto (D : gset Z) (w w' : World) : Prop := mkWorldUpto {
  wu_account : ∀ a, account w a = account w' a;
  wu_storage : storage_ w = storage_ w';
  wu_contracts : ∀ a, contracts_ w' !! a = contracts_ w !! a ∨ a ∈ D ∧ contracts_ w' !! a = None;
  wu_evmContracts : evmContracts_ w = evmContracts_ w';
  wu_events : events_ w = events_ w';
  wu_newContracts : newContracts_ w = newContracts_ w';
}.

Lemma world_equiv_upto D w w' : w ≡ w' → world_upto D w w'.
Proof. intros []. split; try done. intros a. left. congruence. Qed.

Lemma world_upto_empty w w' : world_upto ∅ w w' ↔ w ≡ w'.
Proof.
  split; [|apply world_equiv_upto]. intros [A B C E F G]. split; try done.
  apply map_eq. intros a. destruct (C a) as [->|[[]%elem_of_empty _]]. done.
Qed.

Lemma world_upto_mono D D' w w' : D ⊆ D' → world_upto D w w' → world_upto D' w w'.
Proof. intros HD [A B C E F G]. split; try done. intros a. destruct (C a) as [|[]]; auto. Qed.

#[export] Instance world_upto_preorder D : PreOrder (world_upto D).
Proof.
  split.
  - intros w. by apply world_equiv_upto.
  - intros w1 w2 w3 [A B C E F G] [A' B' C' E' F' G']. split; try congruence.
    intros a. destruct (C a) as [C1|[? C1]], (C' a) as [C2|[? C2]]; rewrite C2; auto.
Qed.

#[export] Instance world_upto_Proper D : Proper ((≡) ==> (≡) ==> iff) (world_upto D).
Proof.
  assert (∀ w1 w2 v1 v2, w1 ≡ w2 → v1 ≡ v2 → world_upto D w1 v1 → world_upto D w2 v2) as H.
  { intros w1 w2 v1 v2 Hw Hv H. etrans; [by apply world_equiv_upto; symmetry|].
    etrans; [exact H|by apply world_equiv_upto]. }
  intros w1 w2 Hw v1 v2 Hv. split; apply H; done || by symmetry.
Qed.

(** ... with possibly more default accounts. *)
Definition world_ext (D : gset Z) (w w' : World) : Prop :=
  world_upto D w w' ∧ dom (accounts_ w) ⊆ dom (accounts_ w').

#[export] Instance world_ext_preorder D : PreOrder (world_ext D).
Proof.
  split.
  - intros w. split; [reflexivity | done].
  - intros w1 w2 w3 [H1 D1] [H2 D2]. split; [by etrans | set_solver].
Qed.

Lemma world_ext_mono D D' w w' : D ⊆ D' → world_ext D w w' → world_ext D' w w'.
Proof. intros HD [H1 H2]. split; [by eapply world_upto_mono|done]. Qed.

Lemma world_ext_lookup D w w' a acc :
  world_ext D w w' → accounts_ w !! a = Some acc → accounts_ w' !! a = Some acc.
Proof.
  intros [He Hd] Ha.
  assert (a ∈ dom (accounts_ w')) as [acc' Ha']%elem_of_dom.
  { apply Hd, elem_of_dom. eauto. }
  rewrite Ha'. f_equal. pose proof (wu_account _ _ _ He a) as H. unfold account in H.
  rewrite Ha, Ha' in H. done.
Qed.

Lemma account_insert w a acc b :
  account (with_accounts (<[a := acc]>) w) b = if decide (a = b) then acc else account w b.
Proof. unfold account. cbn. rewrite lookup_insert. by case_decide. Qed.

(** Writing the same account on both sides keeps states equivalent. *)
Lemma world_ext_insert D w w' a acc :
  world_ext D w w' →
  world_ext D (with_accounts (<[a := acc]>) w) (with_accounts (<[a := acc]>) w').
Proof.
  intros [[] Hd]. split; [split; cbn; try done|cbn; set_solver].
  intros b. rewrite !account_insert. case_decide; auto.
Qed.

(** Inserting the account an address already denotes changes nothing. *)
Lemma world_equiv_touch w a acc :
  acc = account w a → w ≡ with_accounts (<[a := acc]>) w.
Proof. intros ->. split; try done. intros b. rewrite account_insert. by case_decide; subst. Qed.

Lemma world_ext_touch D w a acc :
  acc = account w a → world_ext D w (with_accounts (<[a := acc]>) w).
Proof. intros H. split; [by apply world_equiv_upto, world_equiv_touch|cbn; set_solver]. Qed.

Lemma on_account_ext D a f w w1 w' :
  on_account a f w = Ret w1 → world_ext D w w' →
  ∃ w1', on_account a f w' = Ret w1' ∧ world_ext D w1 w1'.
Proof.
  unfold on_account. destruct (accounts_ w !! a) as [acc|] eqn:Ha; [|done].
  intros [= <-] He. rewrite (world_ext_lookup _ _ _ _ _ He Ha).
  eexists. split; [done|]. by apply world_ext_insert.
Qed.

(** Undoing an entry does not see the difference between such states. *)
Lemma undo_one_ext D u w w1 w' :
  undo_one u w = Ret w1 → world_ext D w w' →
  ∃ w1', undo_one u w' = Ret w1' ∧ world_ext D w1 w1'.
Proof.
  intros Hu He. pose proof He as [[Ha Hs Hc Hv Hev Hn] Hd].
  destruct u as [| | | | |k [v|]|b| | |]; cbn in *; eauto using on_account_ext.
  - rewrite <- Hs. case_decide; [|done]. injection Hu as <-.
    eexists; split; [done|]. split; [split; cbn; congruence || done|done].
  - injection Hu as <-. eexists; split; [done|]. split; [split; cbn; congruence || done|done].
  - injection Hu as <-. eexists; split; [done|]. split; [split; cbn; try (congruence || done)|done].
    intros a. rewrite !lookup_delete. case_decide; auto.
  - apply bind_outcome_Ret in Hu as (l & Hl & [= <-]). rewrite <- Hn, Hl. cbn.
    eexists; split; [done|]. split; [split; cbn; congruence || done|done].
  - injection Hu as <-. eexists; split; [done|]. split; [split; cbn; congruence || done|done].
  - apply bind_outcome_Ret in Hu as (l & Hl & [= <-]). rewrite <- Hev, Hl. cbn.
    eexists; split; [done|]. split; [split; cbn; congruence || done|done].
Qed.

Lemma undo_all_ext D us : ∀ w w1 w',
  undo_all us w = Ret w1 → world_ext D w w' →
  ∃ w1', undo_all us w' = Ret w1' ∧ world_ext D w1 w1'.
Proof.
  induction us as [|u us IH]; intros w w1 w' Hu He; cbn in *.
  - injection Hu as <-. eauto.
  - apply bind_outcome_Ret in Hu as (w2 & Hw2 & Hu).
    destruct (undo_one_ext _ _ _ _ _ Hw2 He) as (w2' & -> & He2). cbn. eauto.
Qed.

Lemma undo_all_app us vs w :
  undo_all (us ++ vs) w = (w' ← undo_all us w; undo_all vs w').
Proof.
  revert w. induction us as [|u us IH]; intros w; cbn; [done|].
  destruct (undo_one u w); cbn; auto.
Qed.

(** ** What every operation keeps *)

(** [ctx_le c c']: [c'] only has more entries than [c], and undoing those gives
    back the state of [c], up to the contracts that were overwritten. *)
Definition ctx_le (c c' : Ctx) : Prop :=
  env c' = env c ∧ overwritten_ c ⊆ overwritten_ c' ∧
  ∃ us w, transactions_ c' = us ++ transactions_ c ∧
    undo_all us (world c') = Ret w ∧ world_ext (overwritten_ c') (world c) w.

#[export] Instance ctx_le_preorder : PreOrder ctx_le.
Proof.
  split.
  - intros c. split_and!; [done..|]. exists [], (world c). split_and!; [done..|reflexivity].
  - intros c1 c2 c3 (E1 & D1 & us1 & w1 & T1 & U1 & X1) (E2 & D2 & us2 & w2 & T2 & U2 & X2).
    split_and!; [congruence|set_solver|].
    destruct (undo_all_ext _ _ _ _ _ U1 X2) as (w1' & U1' & X1').
    exists (us2 ++ us1), w1'. split_and!.
    + rewrite T2, T1. by rewrite app_assoc.
    + rewrite undo_all_app, U2. cbn. done.
    + etrans; [by apply (world_ext_mono (overwritten_ c2))|done].
Qed.

(** A write and the entries pushed with it. *)
Lemma ctx_le_intro c w' us w :
  undo_all us w' = Ret w → world_ext (overwritten_ c) (world c) w →
  ctx_le c (mkCtx (env c) w' (us ++ transactions_ c) (overwritten_ c)).
Proof. intros Hu He. split_and!; [done..|]. exists us, w. done. Qed.

(** Most writes are undone exactly. *)
Lemma ctx_le_exact c w' us w :
  undo_all us w' = Ret w → world c ≡ w → dom (accounts_ (world c)) ⊆ dom (accounts_ w) →
  ctx_le c (mkCtx (env c) w' (us ++ transactions_ c) (overwritten_ c)).
Proof. intros Hu He Hd. eapply ctx_le_intro; [done|]. split; [by apply world_equiv_upto|done]. Qed.

Lemma removelast_app_one {A} (l : list A) x : removelast (l ++ [x]) = l.
Proof. rewrite removelast_app by done. cbn. apply app_nil_r. Qed.

Lemma pop_back_app {A} (l : list A) x : pop_back (l ++ [x]) = Ret l.
Proof.
  unfold pop_back. rewrite removelast_app_one. destruct l; done.
Qed.

Lemma with_accounts_twice a x y w :
  with_accounts (<[a := x]>) (with_accounts (<[a := y]>) w) = with_accounts (<[a := x]>) w.
Proof. unfold with_accounts. cbn. by rewrite insert_insert_eq. Qed.

Lemma on_account_insert a f x w :
  on_account a f (with_accounts (<[a := x]>) w) = Ret (with_accounts (<[a := f x]>) w).
Proof. unfold on_account. cbn. rewrite lookup_insert_eq. by rewrite with_accounts_twice. Qed.

(** Evaluate straight-line code of the context. *)
Ltac run_ops :=
  unfold addContract, getAccount, setNonce, setContractType, setCode, setBalance,
    notifyNewContract, deref, assign, push, write, gets, modify, throw_if;
  unfold mbind, M_bind, mret, M_ret, with_world, with_transactions; cbn.

Section journal.
Context {BI : BoostInt}.

Ltac op_le us := intros c; eapply (ctx_le_exact c _ us).

Lemma addEvent_le e : preserves ctx_le (addEvent e).
Proof.
  op_le [UPopEvent]; cbn; [by rewrite pop_back_app|by split|done].
Qed.

Lemma addEvent_cpp_le s i d a b : preserves ctx_le (addEvent_cpp s i d a b).
Proof. intros c. apply addEvent_le. Qed.
Lemma addEvent_evm_le a d t : preserves ctx_le (addEvent_evm a d t).
Proof. intros c. apply addEvent_le. Qed.

Lemma getAccount_le a : preserves ctx_le (getAccount a).
Proof. op_le (@nil Undo); cbn; [done|by apply world_equiv_touch|set_solver]. Qed.

Lemma checkEVMContract_le h b : preserves ctx_le (checkEVMContract h b).
Proof.
  intros c. unfold checkEVMContract, gets, mbind, M_bind.
  destruct (evmContracts_ (world c) !! h) as [b'|] eqn:Hb; [reflexivity|]. cbn.
  eapply (ctx_le_exact c _ [UEraseEvmContract h]); [done| |done]. cbn.
  split; cbn; try done. by rewrite delete_insert_id.
Qed.

(** The setters, at once: [us] restores what writing [f] changes. *)
Lemma setter_le c p f us :
  undo_all us (with_accounts (<[account_ p := f]>) (world c)) =
    Ret (with_accounts (<[account_ p := account (world c) (account_ p)]>) (world c)) →
  ctx_le c (mkCtx (env c) (with_accounts (<[account_ p := f]>) (world c)) (us ++ transactions_ c) (overwritten_ c)).
Proof. intros Hu. eapply ctx_le_intro; [apply Hu|]. by apply world_ext_touch. Qed.

Ltac solve_setter c us :=
  apply (setter_le c _ _ us); cbn; rewrite !on_account_insert;
  destruct (account (world c) _); done.

Lemma setBalance_le p b : preserves ctx_le (setBalance p b).
Proof. intros c. solve_setter c [UBalance (account_ p) (balance (account (world c) (account_ p)))]. Qed.
Lemma setNonce_le p n : preserves ctx_le (setNonce p n).
Proof. intros c. solve_setter c [UNonce (account_ p) (nonce (account (world c) (account_ p)))]. Qed.
Lemma setContractType_le p t : preserves ctx_le (setContractType p t).
Proof.
  intros c.
  solve_setter c [UContractType (account_ p) (contractType (account (world c) (account_ p)))].
Qed.

Lemma setCode_le p b h : preserves ctx_le (setCode p b h).
Proof.
  intros c. run_ops. rewrite with_accounts_twice.
  apply (setter_le c _ _ [UCode (account_ p) (code (account (world c) (account_ p)));
                          UCodeHash (account_ p) (codeHash (account (world c) (account_ p)))]).
  cbn. rewrite on_account_insert. cbn. rewrite on_account_insert. cbn.
  rewrite account_insert, decide_True by done. by destruct (account (world c) _).
Qed.

Lemma store_le a s d : preserves ctx_le (store a s d).
Proof.
  intros c.
  destruct (storage_ (world c) !! (a, s)) as [v|] eqn:Hs.
  all: eapply (ctx_le_exact c _ [UStorage (a, s) (storage_ (world c) !! (a, s))]); rewrite ?Hs; cbn.
  - by rewrite decide_True by (rewrite lookup_insert_eq; eauto).
  - split; cbn; try done. by rewrite insert_insert_eq, insert_id.
  - done.
  - done.
  - split; cbn; try done. by rewrite delete_insert_id.
  - done.
Qed.

(** [notifyNewContract] is undone by erasing the address from [contracts_]:
    the contract that was there, if any, is lost. *)
Lemma notifyContractAt_le a p : preserves ctx_le (notifyContractAt a p).
Proof.
  intros c. unfold notifyContractAt, gets, mbind, M_bind. set (D := overwritten_ (notifyContractAt a p c).2).
  assert (HD : D = if decide (is_Some (contracts_ (world c) !! a)) then {[ a ]} ∪ overwritten_ c else overwritten_ c).
  { unfold D, notifyContractAt, gets, mbind, M_bind. by destruct (decide _). }
  assert (Hc : ctx_le c (mkCtx (env c) (with_newContracts (λ l, l ++ [(a, p)]) (world c))
    ([UPopNewContract; UEraseContract a] ++ transactions_ c) D)).
  { split_and!; [done|cbn; rewrite HD; case_decide; set_solver|].
    eexists _, _. split; [done|]. split; [cbn; rewrite pop_back_app; cbn; reflexivity|].
    split; [|done]. split; try done. intros b. cbn. rewrite lookup_delete.
    destruct (decide (a = b)) as [<-|]; [|by left]. rewrite HD.
    destruct (contracts_ (world c) !! a) eqn:E; [right|by left].
    rewrite decide_True by eauto. set_solver. }
  subst D. destruct (decide _) eqn:E; unfold notifyContractAt, gets, mbind, M_bind in Hc; rewrite E in Hc; exact Hc.
Qed.

Lemma transferBalance_le f t n : preserves ctx_le (transferBalance f t n).
Proof.
  unfold transferBalance, getBalance, deref.
  auto 20 using getAccount_le, setBalance_le with bdk.
Qed.

Lemma addContract_le a p : preserves ctx_le (addContract a p).
Proof.
  intros c. unfold addContract. destruct p as [p|]; [|reflexivity].
  unfold gets, mbind, M_bind. destruct (contracts_ (world c) !! a) as [q|] eqn:Ha; [reflexivity|].
  run_ops. rewrite !with_accounts_twice, !account_insert, !decide_True by done.
  eapply (ctx_le_exact c _ [UPopNewContract; UEraseContract a;
    UContractType a (contractType (account (world c) a)); UNonce a (nonce (account (world c) a))]).
  - cbn. rewrite pop_back_app. unfold on_account. cbn.
    rewrite lookup_insert_eq. cbn. rewrite lookup_insert_eq. cbn. reflexivity.
  - split; cbn; try done.
    + intros b. unfold account. cbn. rewrite !insert_insert_eq, lookup_insert.
      case_decide; subst; [|done]. unfold account. cbn. by destruct (default _ _).
    + by rewrite delete_insert_id.
  - cbn. set_solver.
Qed.
End journal.

#[export] Hint Resolve addEvent_le addEvent_cpp_le addEvent_evm_le getAccount_le
  checkEVMContract_le setBalance_le setNonce_le setContractType_le setCode_le store_le
  transferBalance_le addContract_le notifyContractAt_le : bdk.

(** ** Programs that use the context *)

(** The operations a contract, an executor or the dispatcher may call. *)
Inductive CtxOp :=
| OAddEvent (e : Event)
| OAddEventCpp (signature : Hash) (indexed : list Hash) (data : list Z) (a : Address) (anonymous : bool)
| OAddEventEvm (a : Address) (data : list Z) (topics : list Hash)
| OGetAccount (a : Address)
| OCheckEVMContract (h : Hash) (bytecode : list Z)
| OSetBalance (a : Address) (b : Z)
| OSetNonce (a : Address) (n : Z)
| OSetCode (a : Address) (c : option (list Z)) (h : Hash)
| OSetContractType (a : Address) (t : ContractType)
| OAddContract (a : Address) (p : option nat)
| ONotifyNewContract (a : Address) (p : option nat)
| OTransferBalance (from to : Address) (n : Z)
| OStore (a : Address) (slot data : Hash).

(** A program: operations, and scopes that take a checkpoint and end by
    committing it ([keep]) or by leaving it to its destructor; an exception
    inside a scope is caught by the caller of the scope. *)
Inductive CtxProg :=
| PDone
| POp (o : CtxOp) (k : CtxProg)
| PScope (body : CtxProg) (keep : bool) (k : CtxProg).

Section programs.
Context {BI : BoostInt}.

Definition ctx_op (o : CtxOp) : M Ctx unit :=
  match o with
  | OAddEvent e => addEvent e
  | OAddEventCpp s i d a b => addEvent_cpp s i d a b
  | OAddEventEvm a d t => addEvent_evm a d t
  | OGetAccount a => getAccount a ;; mret ()
  | OCheckEVMContract h b => checkEVMContract h b ;; mret ()
  | OSetBalance a b => p ← getAccount a; setBalance p b
  | OSetNonce a n => p ← getAccount a; setNonce p n
  | OSetCode a c h => p ← getAccount a; setCode p c h
  | OSetContractType a t => p ← getAccount a; setContractType p t
  | OAddContract a p => addContract a p
  | ONotifyNewContract a p => notifyContractAt a p
  | OTransferBalance f t n => transferBalance f t n
  | OStore a s d => store a s d
  end.

(** A block that takes a checkpoint: [Checkpoint::commit] on success, the
    destructor's [Checkpoint::revert] otherwise. *)
Definition scope {A} (keep : bool) (m : M Ctx A) : M Ctx A := λ c,
  match checkpoint c with
  | (Throw e, c0) => (Throw e, c0)
  | (Ret cp, c0) =>
      match m c0 with
      | (Ret a, c1) =>
          match Checkpoint_revert (if keep then Checkpoint_commit cp else cp) c1 with
          | (Ret _, c2) => (Ret a, c2)
          | (Throw e, c2) => (Throw e, c2)
          end
      | (Throw e, c1) =>
          match Checkpoint_revert cp c1 with
          | (Ret _, c2) => (Throw e, c2)
          | (Throw e', c2) => (Throw e', c2)
          end
      end
  end.

Fixpoint ctx_run (p : CtxProg) : M Ctx unit :=
  match p with
  | PDone => mret ()
  | POp o k => ctx_op o ;; ctx_run k
  | PScope b keep k => λ c, ctx_run k (scope keep (ctx_run b) c).2
  end.

Lemma ctx_op_le o : preserves ctx_le (ctx_op o).
Proof. destruct o; cbn [ctx_op]; auto with bdk. Qed.

(** What undoing back to [c] gives: [c] with more history. *)
Definition restored (c c2 : Ctx) : Prop :=
  env c2 = env c ∧ transactions_ c2 = transactions_ c ∧ overwritten_ c ⊆ overwritten_ c2 ∧
  world_ext (overwritten_ c2) (world c) (world c2).

(** Unwinding to a mark that was there before gives the state of the mark. *)
Lemma unwind_le c c' :
  ctx_le c c' → ∃ c2,
    unwind (length (transactions_ c') - length (transactions_ c)) c' = (Ret (), c2) ∧
    overwritten_ c2 = overwritten_ c' ∧ restored c c2.
Proof.
  intros (E & D & us & w & T & U & X). unfold unwind.
  rewrite T, length_app.
  replace (length us + length (transactions_ c) - length (transactions_ c))%nat
    with (length us) by lia.
  rewrite take_app_length, drop_app_length, U. by eexists.
Qed.

Lemma Checkpoint_revert_le c c' :
  ctx_le c c' → ∃ cp c2,
    Checkpoint_revert (mkCheckpoint true (length (transactions_ c))) c' = (Ret cp, c2) ∧
    overwritten_ c2 = overwritten_ c' ∧ restored c c2.
Proof.
  intros H. destruct (unwind_le c c' H) as (c2 & Hu & ?). eexists _, c2. split; [|done].
  unfold Checkpoint_revert. cbn [cp_armed checkpoint_].
  unfold gets, mbind, M_bind. by rewrite Hu.
Qed.

Lemma ctx_le_restored c c2 : restored c c2 → ctx_le c c2.
Proof. intros (He & Ht & HD & Hw). split_and!; [done..|]. exists [], (world c2). done. Qed.

Lemma scope_le {A} keep (m : M Ctx A) : preserves ctx_le m → preserves ctx_le (scope keep m).
Proof.
  intros Hm c. unfold scope, checkpoint, gets. specialize (Hm c).
  destruct (m c) as [[a|e] c1]; cbn in Hm; cbv beta iota.
  - destruct keep; [done|].
    destruct (Checkpoint_revert_le c c1 Hm) as (cp & c2 & -> & _ & ?). by apply ctx_le_restored.
  - destruct (Checkpoint_revert_le c c1 Hm) as (cp & c2 & -> & _ & ?). by apply ctx_le_restored.
Qed.

(** A scope that throws, or is not kept, leaves the state it found, up to the
    contracts it overwrote. *)
Lemma scope_restores {A} keep (m : M Ctx A) c :
  preserves ctx_le m → keep = false ∨ (∃ e, (m c).1 = Throw e) →
  world_upto (overwritten_ (m c).2) (world c) (world (scope keep m c).2) ∧
  transactions_ (scope keep m c).2 = transactions_ c ∧ (scope keep m c).1 = (m c).1.
Proof.
  intros Hm Hk. unfold scope, checkpoint, gets. specialize (Hm c).
  destruct (m c) as [[a|e] c1] eqn:E; cbn in Hm, Hk; cbv beta iota.
  - destruct Hk as [->|[e He]]; [|done].
    destruct (Checkpoint_revert_le c c1 Hm) as (cp & c2 & -> & HD & (?&?&?&[He _])).
    rewrite HD in He. split_and!; done.
  - destruct (Checkpoint_revert_le c c1 Hm) as (cp & c2 & -> & HD & (?&?&?&[He _])).
    rewrite HD in He. split_and!; done.
Qed.

Lemma ctx_run_le p : preserves ctx_le (ctx_run p).
Proof.
  induction p as [|o k IH|b IHb keep k IHk]; cbn.
  - apply preserves_ret, _.
  - apply preserves_bind; [apply _|apply ctx_op_le|auto].
  - intros c. etrans; [apply (scope_le keep _ IHb)|apply IHk].
Qed.

(** Reverting a context restores the state in which its entries started. *)
Lemma revert_le c c' :
  transactions_ c = [] → ctx_le c c' → ∃ c2,
    revert c' = (Ret (), c2) ∧ transactions_ c2 = [] ∧
    world_upto (overwritten_ c') (clear_vectors (world c)) (world c2).
Proof.
  intros Hc H. destruct (unwind_le c c' H) as (c2 & Hu & HD & (He & Ht & _ & [Hw _])).
  rewrite Hc in Hu. cbn in Hu. rewrite Nat.sub_0_r in Hu.
  exists (with_world clear_vectors c2). split_and!.
  - unfold revert. unfold gets, mbind, M_bind. by rewrite Hu.
  - cbn. congruence.
  - rewrite HD in Hw. destruct Hw. by split.
Qed.
End programs.

#[export] Hint Resolve ctx_op_le ctx_run_le scope_le : bdk.

(** The sum of all native balances. *)
Definition total (w : World) : Z := msum (balance <$> accounts_ w).

#[export] Instance total_Proper : Proper ((≡) ==> (=)) total.
Proof.
  intros w w' Hw. unfold total. apply msum_ext. intros a. rewrite !lookup_fmap.
  pose proof (we_account _ _ Hw a) as Ha. unfold account in Ha.
  destruct (accounts_ w !! a), (accounts_ w' !! a); cbn in *; congruence || by subst.
Qed.

Lemma total_insert w a acc :
  total (with_accounts (<[a := acc]>) w) = total w - balance (account w a) + balance acc.
Proof.
  unfold total, account. cbn. rewrite fmap_insert, msum_insert, lookup_fmap.
  by destruct (accounts_ w !! a).
Qed.

(** The parts of the state that are not accounts. *)
Definition same_rest (w w' : World) : Prop :=
  storage_ w' = storage_ w ∧ contracts_ w' = contracts_ w ∧ evmContracts_ w' = evmContracts_ w ∧
  events_ w' = events_ w ∧ newContracts_ w' = newContracts_ w.

(** ... up to the contracts at [D], which may be gone. *)
Definition same_rest_upto (D : gset Z) (w w' : World) : Prop :=
  storage_ w' = storage_ w ∧
  (∀ a, contracts_ w' !! a = contracts_ w !! a ∨ a ∈ D ∧ contracts_ w' !! a = None) ∧
  evmContracts_ w' = evmContracts_ w ∧ events_ w' = events_ w ∧ newContracts_ w' = newContracts_ w.

#[export] Instance same_rest_preorder : PreOrder same_rest.
Proof.
  split; [by intros w|]. intros w1 w2 w3 (?&?&?&?&?) (?&?&?&?&?). unfold same_rest.
  split_and!; congruence.
Qed.

Definition ctx_same_rest (c c' : Ctx) : Prop := same_rest (world c) (world c').

#[export] Instance ctx_same_rest_preorder : PreOrder ctx_same_rest.
Proof.
  split; [intros c; unfold ctx_same_rest; reflexivity|].
  intros c1 c2 c3. unfold ctx_same_rest. apply transitivity.
Qed.

Lemma transferBalance_rest `{BoostInt} f t n : preserves ctx_same_rest (transferBalance f t n).
Proof.
  assert (∀ a, preserves ctx_same_rest (getAccount a)) by done.
  assert (∀ p b, preserves ctx_same_rest (setBalance p b)) by done.
  unfold transferBalance, getBalance, deref. auto 20 with bdk.
Qed.

(** ** Theorems *)

(** C5: whatever a program does after a checkpoint (any operation of the
    context, returning or throwing, inner checkpoints committed or reverted),
    reverting the checkpoint succeeds, restores the journal, and restores
    accounts, storage, code, events and contracts, up to accounts that are all
    zero and up to the contracts at the addresses that held one when
    [notifyNewContract] was called for them: those may be gone. *)
Theorem checkpoint_revert_restores `{BoostInt} (p : CtxProg) (c : Ctx) :
  ∃ cp c', Checkpoint_revert (mkCheckpoint true (length (transactions_ c))) (ctx_run p c).2
             = (Ret cp, c') ∧
    cp_armed cp = false ∧ transactions_ c' = transactions_ c ∧
    world_upto (overwritten_ (ctx_run p c).2) (world c) (world c').
Proof.
  destruct (Checkpoint_revert_le c _ (ctx_run_le p c)) as (cp & c' & Hr & HD & (_ & Ht & _ & [Hw _])).
  rewrite HD in Hw. exists cp, c'. split_and!; [done| |done|done].
  unfold Checkpoint_revert in Hr. cbn [cp_armed] in Hr. inv_run. done.
Qed.

(** A context that starts on the state [w] and is reverted leaves [w] as it
    was, whatever was run on it, and its event and new-contract lists empty. *)
Theorem context_revert_restores `{BoostInt} (p : CtxProg) (e : Env) (w : World) :
  let c := mkCtx e w [] ∅ in
  ∃ c', revert (ctx_run p c).2 = (Ret (), c') ∧ transactions_ c' = [] ∧
    world_upto (overwritten_ (ctx_run p c).2) (clear_vectors w) (world c').
Proof. by apply (revert_le (mkCtx e w [] ∅)), ctx_run_le. Qed.

(** [transferBalance]: an amount above the sender's balance throws and
    changes no account; otherwise the amount moves from sender to recipient (a
    transfer to oneself changes nothing), every other field and account is kept,
    and the sum of all balances does not change; a recipient balance beyond 256
    bits throws. *)
Theorem transferBalance_spec `{BoostInt} (from to : Address) (n : Z) (c : Ctx) :
  in_range 256 n → (∀ a, in_range 256 (balance (account (world c) a))) →
  let bal a := balance (account (world c) a) in
  let '(r, c') := transferBalance from to n c in
  if decide (bal from < n) then
    r = Throw (DynamicException "insufficient founds") ∧ world c' ≡ world c
  else if decide (from ≠ to ∧ 2 ^ 256 ≤ bal to + n) then r = Throw boost_error
  else r = Ret () ∧ total (world c') = total (world c) ∧
    ∀ a, account (world c') a =
      set_balance (bal a - (if decide (a = from) then n else 0) + (if decide (a = to) then n else 0))
        (account (world c) a).
Proof.
  intros Hn Hb bal.
  set (w1 := with_accounts (<[from := account (world c) from]>) (world c)).
  set (w2 := with_accounts (<[to := account w1 to]>) w1).
  assert (Hw2 : world c ≡ w2).
  { etrans; [by apply (world_equiv_touch _ from)|by apply world_equiv_touch]. }
  assert (Hacc : ∀ a, account w2 a = account (world c) a).
  { intros a. symmetry. apply Hw2. }
  pose proof (Hb from) as Hf. pose proof (Hb to) as Ht.
  assert (Hrun : transferBalance from to n c =
    (throw_if (bal from <? n) (DynamicException "insufficient founds") ;;
     b' ← lift (usub 256 (bal from) n);
     setBalance (mkAccountPointer from) b' ;;
     r ← getBalance (mkAccountPointer to);
     r' ← lift (uadd 256 r n);
     setBalance (mkAccountPointer to) r') (mkCtx (env c) w2 (transactions_ c) (overwritten_ c))).
  { unfold bal. rewrite <- Hacc. done. }
  rewrite Hrun. clear Hrun. unfold in_range in *.
  unfold usub, uadd. fold (bal from) in Hf. fold (bal to) in Ht.
  case_decide as Hlt.
  { rewrite (proj2 (Z.ltb_lt _ _) Hlt). cbn. split; [done|]. symmetry. apply Hw2. }
  rewrite (proj2 (Z.ltb_ge _ _)) by lia. 
  rewrite mk_unsigned_fits by (unfold in_range; lia).
  run_ops. unfold getBalance. run_ops. rewrite account_insert, !Hacc.
  assert (Htot : total w2 = total (world c)) by (by rewrite Hw2).
  destruct (decide (from = to)) as [<-|Hne]; cbn.
  - rewrite mk_unsigned_fits by (unfold in_range; lia).
    rewrite with_accounts_twice, decide_False by tauto. split_and!; [done| |].
    + cbn. rewrite total_insert, Hacc, Htot. cbn. unfold bal. lia.
    + intros a. cbn. rewrite account_insert, Hacc. fold (bal a).
      destruct (decide (from = a)) as [<-|?].
      * rewrite decide_True by done. by destruct (account (world c) from).
      * rewrite decide_False by done. unfold bal. rewrite Z.sub_0_r, Z.add_0_r.
        by destruct (account (world c) a).
  - fold (bal to). destruct (decide (2 ^ 256 ≤ bal to + n)) as [Hov|Hov].
    { rewrite mk_unsigned_throws by (unfold in_range; lia). by rewrite decide_True. }
    rewrite mk_unsigned_fits by (unfold in_range; lia).
    rewrite decide_False by tauto. split_and!; [done| |].
    + cbn. rewrite !total_insert, account_insert, decide_False, !Hacc, Htot by done.
      cbn. unfold bal. lia.
    + intros a. cbn. rewrite !account_insert, Hacc. unfold bal.
      repeat case_decide; subst; try done; rewrite ?Z.sub_0_r, ?Z.add_0_r;
        try done; by destruct (account (world c) a).
Qed.

Lemma transferBalance_spec_witness :
  let acc b := mkAccount b 0 0 None NOT_A_CONTRACT in
  let w := mkWorld {[ 1 := acc 100; 2 := acc 7 ]} ∅ ∅ ∅ [] [] in
  let e := mkEnv 0 0 0 0 0 0 0 0 0 0 true in
  balance (account (world (transferBalance (BI := boost_ref) 1 2 30 (mkCtx e w [] ∅)).2) 2) = 37.
Proof.
  intros acc w e.
  pose proof (transferBalance_spec (H := boost_ref) 1 2 30 (mkCtx e w [] ∅)) as Hs.
  destruct (transferBalance 1 2 30 (mkCtx e w [] ∅)) as [r c'].
  cbv zeta in Hs. rewrite decide_False in Hs by (vm_compute; done).
  rewrite decide_False in Hs by (vm_compute; intros [_ ?]; done).
  destruct Hs as (_ & _ & Ha); [done| |cbn [snd]; rewrite Ha; reflexivity].
  intros a. unfold w, account. cbn [accounts_ world].
  destruct (decide (1 = a)) as [<-|?]; [done|].
  destruct (decide (2 = a)) as [<-|?]; [done|].
  rewrite lookup_insert_ne, lookup_singleton_ne by done. done.
Defined.
