(* ===== verification/Bytes.v ===== *)
(** * Byte strings: integer conversions and the account codec

    Models the minimal big-endian conversion of src/utils/utils.h
    ([bytesRequired], [uintToBytes]) and [Account]'s serialization
    (src/utils/utils.cpp).  A byte is an integer between 0 and 255. *)

From S2P Require Import Prelude ExecutionContext.

(** [bytesRequired]: [for (; i != 0; ++ic, i >>= 8)].  Every pass divides by
    256, so [log2 i + 1] passes are enough. *)
Fixpoint bytesRequired_loop (fuel : nat) (i : Z) : nat :=
  match fuel with
  | O => O
  | S fuel => if i =? 0 then O else S (bytesRequired_loop fuel (Z.shiftr i 8))
  end.
Definition bytesRequired (i : Z) : nat := bytesRequired_loop (Z.to_nat (Z.log2 i + 1)) i.

(** [uintToBytes]: fills the buffer from its end with [i & 0xff]. *)
Fixpoint uintToBytes_loop (room : nat) (i : Z) (acc : list Z) : list Z :=
  match room with
  | O => acc
  | S room =>
      if i =? 0 then repeat 0 (S room) ++ acc
      else uintToBytes_loop room (Z.shiftr i 8) (Z.land i 255 :: acc)
  end.
Definition uintToBytes (i : Z) : list Z := uintToBytes_loop (bytesRequired i) i [].

(** [Account::serialize]: 32 bytes of balance, 8 of nonce, 32 of code hash, one
    of contract type. *)
Definition ContractType_byte (t : ContractType) : Z :=
  match t with NOT_A_CONTRACT => 0 | EVM => 1 | CPP => 2 end.

Definition Account_serialize (a : Account) : list Z :=
  be_bytes 32 (balance a) ++ be_bytes 8 (nonce a) ++ be_bytes 32 (codeHash a) ++
  [ContractType_byte (contractType a)].

(** [subspan(from, len)] of a view long enough. *)
Definition subspan (from len : nat) (l : list Z) : list Z := take len (drop from l).

(** [Account::Account(const View<Bytes>&)] *)
Definition Account_deserialize (bytes : list Z) : outcome Account :=
  if decide (length bytes < 73)%nat
  then Throw (DynamicException "Account: Invalid bytes size")
  else
    let t := nth 72 bytes 0 in
    if 2 <? t then Throw (DynamicException "Account: Invalid contract type")
    else Ret (mkAccount (be_value (subspan 0 32 bytes)) (be_value (subspan 32 8 bytes))
      (be_value (subspan 40 32 bytes)) None
      (if t =? 0 then NOT_A_CONTRACT else if t =? 1 then EVM else CPP)).

(** ** Lemmas *)

Lemma bytesRequired_loop_spec fuel i :
  0 ≤ i < 2 ^ Z.of_nat fuel →
  i < 256 ^ Z.of_nat (bytesRequired_loop fuel i) ∧
  (i ≠ 0 → 256 ^ (Z.of_nat (bytesRequired_loop fuel i) - 1) ≤ i ∧ bytesRequired_loop fuel i ≠ O).
Proof.
  revert i. induction fuel as [|fuel IH]; intros i Hi; cbn [bytesRequired_loop].
  { cbn in *. lia. }
  destruct (Z.eqb_spec i 0) as [->|Hne]; [cbn; lia|].
  rewrite Z.shiftr_div_pow2 by lia. change (2 ^ 8) with 256.
  assert (Hq : 0 ≤ i / 256 < 2 ^ Z.of_nat fuel).
  { split; [apply Z.div_pos; lia|]. apply Z.div_lt_upper_bound; [lia|].
    rewrite Nat2Z.inj_succ, Z.pow_succ_r in Hi by lia. lia. }
  destruct (IH _ Hq) as [IH1 IH2]. set (n := bytesRequired_loop fuel (i / 256)) in *.
  pose proof (Z.div_mod i 256). pose proof (Z.mod_pos_bound i 256).
  rewrite Nat2Z.inj_succ, Z.pow_succ_r by lia. split; [lia|].
  intros _. split; [|done]. replace (Z.succ (Z.of_nat n) - 1) with (Z.of_nat n) by lia.
  destruct (decide (i / 256 = 0)) as [E|E].
  - assert (n = O) as ->; [|cbn; lia].
    unfold n. rewrite E. by destruct fuel.
  - destruct (IH2 E) as [Hlo Hn0].
    replace (Z.of_nat n) with (Z.succ (Z.of_nat n - 1)) by lia.
    rewrite Z.pow_succ_r by lia. lia.
Qed.

Lemma bytesRequired_spec i :
  0 ≤ i → i < 256 ^ Z.of_nat (bytesRequired i) ∧
  (i ≠ 0 → 256 ^ (Z.of_nat (bytesRequired i) - 1) ≤ i).
Proof.
  intros Hi. pose proof (Z.log2_nonneg i).
  destruct (bytesRequired_loop_spec (Z.to_nat (Z.log2 i + 1)) i) as [H1 H2].
  { split; [done|]. rewrite Z2Nat.id by lia. destruct (decide (i = 0)) as [->|]; [done|].
    pose proof (Z.log2_spec i). unfold Z.succ in *. lia. }
  split; [done|]. intros Hn. by apply H2.
Qed.

Lemma repeat_zero_be n : repeat 0 n = be_bytes n 0.
Proof.
  induction n as [|n IH]; [done|]. cbn [be_bytes]. rewrite Z.div_0_l, Z.mod_0_l by lia.
  rewrite <- IH. apply (repeat_cons n 0).
Qed.

Lemma uintToBytes_loop_spec room i acc :
  0 ≤ i → uintToBytes_loop room i acc = be_bytes room i ++ acc.
Proof.
  revert i acc. induction room as [|room IH]; intros i acc Hi; [done|].
  cbn [uintToBytes_loop]. destruct (Z.eqb_spec i 0) as [->|Hne].
  - by rewrite repeat_zero_be.
  - rewrite IH by (apply Z.shiftr_nonneg; lia). cbn [be_bytes].
    rewrite <- app_assoc. cbn. do 2 f_equal.
    + rewrite Z.shiftr_div_pow2 by lia. done.
    + f_equal. change 255 with (Z.ones 8). by rewrite Z.land_ones by lia.
Qed.

Lemma uintToBytes_be i : 0 ≤ i → uintToBytes i = be_bytes (bytesRequired i) i.
Proof. intros. unfold uintToBytes. rewrite uintToBytes_loop_spec by done. apply app_nil_r. Qed.

(** Bytes read as a number are below the power of 256 of their count. *)
Definition is_byte (b : Z) : Prop := 0 ≤ b < 256.

Lemma be_bytes_is_byte n z : Forall is_byte (be_bytes n z).
Proof.
  revert z. induction n; intros z; cbn; [constructor|].
  apply Forall_app. split; [done|]. constructor; [|done].
  unfold is_byte. apply Z.mod_pos_bound. lia.
Qed.

Lemma be_value_snoc l b : be_value (l ++ [b]) = be_value l * 256 + b.
Proof. unfold be_value. by rewrite foldl_app. Qed.

Lemma be_value_bound l : Forall is_byte l → 0 ≤ be_value l < 256 ^ Z.of_nat (length l).
Proof.
  induction l as [|b l IH] using rev_ind; intros Hl; [cbn; lia|].
  apply Forall_app in Hl as [Hl [Hb _]%Forall_cons]. specialize (IH Hl). unfold is_byte in Hb.
  rewrite be_value_snoc, length_app, Nat2Z.inj_add, Z.pow_add_r by lia.
  change (256 ^ Z.of_nat (length [b])) with 256. lia.
Qed.

Lemma be_bytes_value l : Forall is_byte l → be_bytes (length l) (be_value l) = l.
Proof.
  induction l as [|b l IH] using rev_ind; intros Hl; [done|].
  apply Forall_app in Hl as [Hl [Hb _]%Forall_cons]. unfold is_byte in Hb.
  rewrite length_app, Nat.add_1_r, be_value_snoc. cbn [be_bytes].
  rewrite Z.div_add_l, Z.div_small, Z.add_0_r by lia. rewrite IH by done.
  do 2 f_equal. rewrite Z.add_comm, Z.mod_add by lia. apply Z.mod_small. lia.
Qed.

(** ** Theorems *)

(** [uintToBytes] is the shortest big-endian encoding: its bytes read back
    as the number, and a number other than zero has no leading zero byte. *)
Theorem uintToBytes_minimal (i : Z) :
  0 ≤ i →
  be_value (uintToBytes i) = i ∧ length (uintToBytes i) = bytesRequired i ∧
  (i ≠ 0 → ∃ b l, uintToBytes i = b :: l ∧ b ≠ 0).
Proof.
  intros Hi. rewrite uintToBytes_be by done. rewrite be_bytes_length.
  destruct (bytesRequired_spec i Hi) as [Hlt Hge].
  assert (Hr : be_value (be_bytes (bytesRequired i) i) = i).
  { apply be_value_bytes. unfold in_range. rewrite Z.pow_mul_r by lia. done. }
  split_and!; [done|done|]. intros Hne. specialize (Hge Hne).
  destruct (bytesRequired i) as [|n]; [cbn in Hlt; lia|].
  destruct (be_bytes (S n) i) as [|b l] eqn:E.
  { pose proof (be_bytes_length (S n) i) as Hl. by rewrite E in Hl. }
  exists b, l. split; [done|]. intros ->.
  pose proof (be_bytes_length (S n) i) as Hl. pose proof (be_bytes_is_byte (S n) i) as Hb.
  rewrite E in *. apply Forall_cons in Hb as [_ Hb]. injection Hl as Hl.
  pose proof (be_value_bound l Hb) as Hv. rewrite Hl in Hv.
  change (be_value (0 :: l)) with (be_value l) in Hr.
  replace (Z.of_nat (S n) - 1) with (Z.of_nat n) in Hge by lia. lia.
Qed.

Lemma uintToBytes_minimal_witness : be_value (uintToBytes 66051) = 66051.
Proof. apply (uintToBytes_minimal 66051). lia. Defined.

(** Reading back a serialized account gives its balance, nonce, code hash
    and contract type; the code is not part of the encoding. *)
Theorem Account_roundtrip (a : Account) :
  in_range 256 (balance a) → in_range 64 (nonce a) → in_range 256 (codeHash a) →
  length (Account_serialize a) = 73%nat ∧
  Account_deserialize (Account_serialize a) = Ret (set_code None a).
Proof.
  intros Hb Hn Hc.
  assert (Hlen : length (Account_serialize a) = 73%nat).
  { unfold Account_serialize. rewrite !length_app, !be_bytes_length. done. }
  split; [done|]. unfold Account_deserialize. rewrite decide_False by lia.
  assert (Hs : ∀ x y z t : list Z, length x = 32%nat → length y = 8%nat → length z = 32%nat →
    let l := x ++ y ++ z ++ t in
    subspan 0 32 l = x ∧ subspan 32 8 l = y ∧ subspan 40 32 l = z ∧ nth 72 l 0 = nth 0 t 0).
  { intros x y z t Hx Hy Hz l. unfold subspan, l. split_and!.
    - rewrite drop_0. by rewrite take_app_length'.
    - rewrite drop_app_length' by done. by rewrite take_app_length'.
    - rewrite app_assoc, drop_app_length' by (rewrite length_app; lia). by rewrite take_app_length'.
    - rewrite !app_assoc, app_nth2; rewrite !length_app, Hx, Hy, Hz; done || lia. }
  unfold Account_serialize.
  destruct (Hs (be_bytes 32 (balance a)) (be_bytes 8 (nonce a)) (be_bytes 32 (codeHash a))
    [ContractType_byte (contractType a)]) as (-> & -> & -> & ->); [apply be_bytes_length..|].
  rewrite !be_value_bytes by done. destruct a as [? ? ? ? []]; done.
Qed.

Lemma Account_roundtrip_witness :
  Account_deserialize (Account_serialize (mkAccount 1000 3 77 (Some [1; 2]) EVM)) =
    Ret (mkAccount 1000 3 77 None EVM).
Proof. apply (Account_roundtrip (mkAccount 1000 3 77 (Some [1; 2]) EVM)); done. Defined.
