(* ===== verification/Conv.v ===== *)
(** * Conversions between integers and bytes

    Models src/utils/uintconv.cpp, src/utils/intconv.cpp, src/utils/evmcconv.cpp
    and the padding functions of src/utils/strconv.cpp.  [export_bits] and
    [import_bits] are Boost's: the class [BoostBits] states their documented
    behaviour on numbers that are not negative.  The functions that copy memory
    ([memcpy], followed by a reversal) are modelled on a little-endian machine,
    the branch the preprocessor takes there. *)

From Stdlib Require Import Ascii.
From S2P Require Import Prelude CheckedInt ExecutionContext Bytes.

(** Boost's conversions with chunks of 8 bits, most significant first. *)
Class BoostBits := {
  export_bits : Z → list Z;
  import_bits : list Z → Z;
  export_bits_zero : export_bits 0 = [0];
  export_bits_shortest : ∀ z, 0 < z → ∃ n : nat,
    256 ^ (Z.of_nat n - 1) <= z < 256 ^ Z.of_nat n ∧ export_bits z = be_bytes n z;
  import_bits_value : ∀ l, Forall is_byte l → import_bits l = be_value l;
}.

Section conv.
Context {BB : BoostBits}.
Implicit Types (i z : Z) (b tmp : list Z) (n : nat).

(** ** UintConv *)

(** [for (ii = 0; ii < tmp.size(); ii++) ret[n - 1 - ii] = tmp[tmp.size() - ii - 1]]
    on an array [ret] of [n] zeros.  A number of the type has at most [n] bytes. *)
Definition right_align n tmp : list Z :=
  map (λ p, let ii := (n - 1 - p)%nat in
            if (ii <? length tmp)%nat then nth (length tmp - ii - 1) tmp 0 else 0) (seq 0 n).

Definition invalid_size : exn := DynamicException "Invalid bytes size".

(** [bytesToUintN]: the size is checked, the bits are imported. *)
Definition bytesToUint n b : outcome Z :=
  if decide (length b = n) then Ret (import_bits b) else Throw invalid_size.

Definition uint256ToBytes (i : Z) : list Z := right_align 32 (export_bits i).
Definition uint248ToBytes (i : Z) : list Z := right_align 31 (export_bits i).
Definition uint240ToBytes (i : Z) : list Z := right_align 30 (export_bits i).
Definition uint232ToBytes (i : Z) : list Z := right_align 29 (export_bits i).
Definition uint224ToBytes (i : Z) : list Z := right_align 28 (export_bits i).
Definition uint216ToBytes (i : Z) : list Z := right_align 27 (export_bits i).
Definition uint208ToBytes (i : Z) : list Z := right_align 26 (export_bits i).
Definition uint200ToBytes (i : Z) : list Z := right_align 25 (export_bits i).
Definition uint192ToBytes (i : Z) : list Z := right_align 24 (export_bits i).
Definition uint184ToBytes (i : Z) : list Z := right_align 23 (export_bits i).
Definition uint176ToBytes (i : Z) : list Z := right_align 22 (export_bits i).
Definition uint168ToBytes (i : Z) : list Z := right_align 21 (export_bits i).
Definition uint160ToBytes (i : Z) : list Z := right_align 20 (export_bits i).
Definition uint152ToBytes (i : Z) : list Z := right_align 19 (export_bits i).
Definition uint144ToBytes (i : Z) : list Z := right_align 18 (export_bits i).
Definition uint136ToBytes (i : Z) : list Z := right_align 17 (export_bits i).
Definition uint128ToBytes (i : Z) : list Z := right_align 16 (export_bits i).
Definition uint120ToBytes (i : Z) : list Z := right_align 15 (export_bits i).
Definition uint112ToBytes (i : Z) : list Z := right_align 14 (export_bits i).
Definition uint104ToBytes (i : Z) : list Z := right_align 13 (export_bits i).
Definition uint96ToBytes (i : Z) : list Z := right_align 12 (export_bits i).
Definition uint88ToBytes (i : Z) : list Z := right_align 11 (export_bits i).
Definition uint80ToBytes (i : Z) : list Z := right_align 10 (export_bits i).
Definition uint72ToBytes (i : Z) : list Z := right_align 9 (export_bits i).
Definition uint56ToBytes (i : Z) : list Z := right_align 7 (export_bits i).
Definition uint48ToBytes (i : Z) : list Z := right_align 6 (export_bits i).
Definition uint40ToBytes (i : Z) : list Z := right_align 5 (export_bits i).
Definition uint24ToBytes (i : Z) : list Z := right_align 3 (export_bits i).
(** The built-in types: [memcpy] gives the bytes in the order of the machine. *)
Fixpoint le_bytes n z : list Z :=
  match n with O => [] | S n => z mod 256 :: le_bytes n (z / 256) end.
Fixpoint le_value b : Z := match b with [] => 0 | x :: b => x + 256 * le_value b end.

Definition uint64ToBytes i : list Z := reverse (le_bytes 8 i).
Definition uint32ToBytes i : list Z := reverse (le_bytes 4 i).
Definition uint16ToBytes i : list Z := reverse (le_bytes 2 i).
Definition uint8ToBytes i : list Z := le_bytes 1 i.

Definition bytesToUint256 (b : list Z) : outcome Z := bytesToUint 32 b.
Definition bytesToUint248 (b : list Z) : outcome Z := bytesToUint 31 b.
Definition bytesToUint240 (b : list Z) : outcome Z := bytesToUint 30 b.
Definition bytesToUint232 (b : list Z) : outcome Z := bytesToUint 29 b.
Definition bytesToUint224 (b : list Z) : outcome Z := bytesToUint 28 b.
Definition bytesToUint216 (b : list Z) : outcome Z := bytesToUint 27 b.
Definition bytesToUint208 (b : list Z) : outcome Z := bytesToUint 26 b.
Definition bytesToUint200 (b : list Z) : outcome Z := bytesToUint 25 b.
Definition bytesToUint192 (b : list Z) : outcome Z := bytesToUint 24 b.
Definition bytesToUint184 (b : list Z) : outcome Z := bytesToUint 23 b.
Definition bytesToUint176 (b : list Z) : outcome Z := bytesToUint 22 b.
Definition bytesToUint168 (b : list Z) : outcome Z := bytesToUint 21 b.
Definition bytesToUint160 (b : list Z) : outcome Z := bytesToUint 20 b.
Definition bytesToUint152 (b : list Z) : outcome Z := bytesToUint 19 b.
Definition bytesToUint144 (b : list Z) : outcome Z := bytesToUint 18 b.
Definition bytesToUint136 (b : list Z) : outcome Z := bytesToUint 17 b.
Definition bytesToUint128 (b : list Z) : outcome Z := bytesToUint 16 b.
Definition bytesToUint120 (b : list Z) : outcome Z := bytesToUint 15 b.
Definition bytesToUint112 (b : list Z) : outcome Z := bytesToUint 14 b.
Definition bytesToUint104 (b : list Z) : outcome Z := bytesToUint 13 b.
Definition bytesToUint96 (b : list Z) : outcome Z := bytesToUint 12 b.
Definition bytesToUint88 (b : list Z) : outcome Z := bytesToUint 11 b.
Definition bytesToUint80 (b : list Z) : outcome Z := bytesToUint 10 b.
Definition bytesToUint72 (b : list Z) : outcome Z := bytesToUint 9 b.
Definition bytesToUint56 (b : list Z) : outcome Z := bytesToUint 7 b.
Definition bytesToUint48 (b : list Z) : outcome Z := bytesToUint 6 b.
Definition bytesToUint40 (b : list Z) : outcome Z := bytesToUint 5 b.
Definition bytesToUint24 (b : list Z) : outcome Z := bytesToUint 3 b.
(** [__builtin_bswapN] of the number whose memory is [b]. *)
Definition bswap n z : Z := le_value (reverse (le_bytes n z)).
Definition bytesToUint64 b : outcome Z :=
  if decide (length b = 8%nat) then Ret (bswap 8 (le_value b)) else Throw invalid_size.
Definition bytesToUint32 b : outcome Z :=
  if decide (length b = 4%nat) then Ret (bswap 4 (le_value b)) else Throw invalid_size.
Definition bytesToUint16 b : outcome Z :=
  if decide (length b = 2%nat) then Ret (bswap 2 (le_value b)) else Throw invalid_size.
Definition bytesToUint8 b : outcome Z :=
  if decide (length b = 1%nat) then Ret (nth 0 b 0) else Throw invalid_size.

(** ** IntConv *)

(** [if (ret[j] != 0xFF) { ret[j]++; break; } else ret[j] = 0x00;] from the last
    byte on; the list is in reverse order. *)
Fixpoint increment (rb : list Z) : list Z :=
  match rb with
  | [] => []
  | x :: rb => if x =? 255 then 0 :: increment rb else x + 1 :: rb
  end.
(** The complement of the bytes of the absolute value, aligned to the right. *)
Definition complement_align n tmp : list Z :=
  map (λ p, let j := (n - 1 - p)%nat in
            if (j <? length tmp)%nat then 255 - nth (length tmp - j - 1) tmp 0 else 255) (seq 0 n).

Definition int256ToBytes i : list Z :=
  if i <? 0 then reverse (increment (reverse (complement_align 32 (export_bits (- i)))))
  else right_align 32 (export_bits i).
(** [int64ToBytes], [int32ToBytes]: the memory of a built-in signed integer is
    the two's complement. *)
Definition int64ToBytes i : list Z := reverse (le_bytes 8 i).
Definition int32ToBytes i : list Z := reverse (le_bytes 4 i).

(** The borrow loop of [bytesToInt256], from byte 31 down; [k] is [31 - i]. *)
Fixpoint borrow_loop (rb : list Z) (k : Z) (ret : Z) : Z :=
  match rb with
  | [] => ret
  | x :: rb =>
      let ret' := ret - Z.shiftl 1 (8 * k) in
      if x =? 0 then borrow_loop rb (k + 1) ret' else ret'
  end.
Definition complement256 z : Z := 2 ^ 256 - 1 - z.
Definition bytesToInt256 b : outcome Z :=
  if decide (length b = 32%nat) then
    let ret := import_bits b in
    if negb (Z.land (nth 0 b 0) 128 =? 0)
    then Ret (- complement256 (borrow_loop (reverse b) 0 ret))
    else Ret ret
  else Throw invalid_size.
(** A built-in signed integer with the given memory. *)
Definition signed n z : Z := if z <? 2 ^ (8 * Z.of_nat n - 1) then z else z - 2 ^ (8 * Z.of_nat n).
Definition bytesToInt64 b : outcome Z :=
  if decide (length b = 8%nat) then Ret (signed 8 (bswap 8 (le_value b))) else Throw invalid_size.
Definition bytesToInt32 b : outcome Z :=
  if decide (length b = 4%nat) then Ret (signed 4 (bswap 4 (le_value b))) else Throw invalid_size.

(** ** EVMCConv: an [evmc::uint256be] is its 32 bytes *)
Definition evmcUint256ToUint256 (x : list Z) : outcome Z := bytesToUint256 x.
Definition uint256ToEvmcUint256 i : list Z := uint256ToBytes i.
(** [getFunctor]: zero when there are fewer than four bytes. *)
Definition getFunctor (input : list Z) : outcome Z :=
  if decide (length input < 4)%nat then Ret 0 else bytesToUint32 (take 4 input).
Definition getFunctionArgs (input : list Z) : list Z :=
  if decide (length input < 4)%nat then [] else drop 4 input.
End conv.

(** ** StrConv *)
Definition padding (charAmount : Z) {A} (l : list A) : nat :=
  if Z.of_nat (length l) <? charAmount then Z.to_nat (charAmount - Z.of_nat (length l)) else 0%nat.
Definition padLeftBytes (b : list Z) (charAmount sign : Z) : list Z :=
  replicate (padding charAmount b) sign ++ b.
Definition padRightBytes (b : list Z) (charAmount sign : Z) : list Z :=
  b ++ replicate (padding charAmount b) sign.

Definition has_prefix (s : list Ascii.ascii) : bool :=
  match s with
  | c :: d :: _ => bool_decide (c = "0"%char) && (bool_decide (d = "x"%char) || bool_decide (d = "X"%char))
  | _ => false
  end.
(** [padLeft] and [padRight] keep a hexadecimal prefix in front, as "0x". *)
Definition padLeft (s : list Ascii.ascii) (charAmount : Z) (sign : Ascii.ascii) : list Ascii.ascii :=
  let body := if has_prefix s then drop 2 s else s in
  (if has_prefix s then ["0"%char; "x"%char] else []) ++ replicate (padding charAmount body) sign ++ body.
Definition padRight (s : list Ascii.ascii) (charAmount : Z) (sign : Ascii.ascii) : list Ascii.ascii :=
  let body := if has_prefix s then drop 2 s else s in
  (if has_prefix s then ["0"%char; "x"%char] else []) ++ body ++ replicate (padding charAmount body) sign.

(** ** Lemmas *)

Lemma reverse_le_bytes n z : reverse (le_bytes n z) = be_bytes n z.
Proof. revert z. induction n as [|n IH]; intros z; [done|]. cbn [le_bytes be_bytes]. by rewrite reverse_cons, IH. Qed.

Lemma le_bytes_reverse n z : le_bytes n z = reverse (be_bytes n z).
Proof. by rewrite <- reverse_le_bytes, reverse_involutive. Qed.

Lemma le_value_reverse l : le_value (reverse l) = be_value l.
Proof.
  induction l as [|x l IH] using rev_ind; [done|].
  rewrite reverse_snoc, be_value_snoc. cbn [le_value]. rewrite IH. lia.
Qed.

Lemma be_bytes_pad n k z : in_range (8 * Z.of_nat k) z →
  be_bytes (n + k) z = replicate n 0 ++ be_bytes k z.
Proof.
  unfold in_range. revert z. induction k as [|k IH]; intros z Hz.
  - cbn in Hz. assert (z = 0) as -> by lia. rewrite Nat.add_0_r, <- repeat_zero_be. cbn.
    rewrite app_nil_r. induction n; cbn; congruence.
  - rewrite Nat.add_succ_r. cbn [be_bytes]. rewrite IH; [by rewrite (assoc_L (++))|].
    replace (8 * Z.of_nat (S k)) with (8 * Z.of_nat k + 8) in Hz by lia.
    rewrite Z.pow_add_r in Hz by lia. split; [apply Z.div_pos; lia|]. apply Z.div_lt_upper_bound; lia.
Qed.

Lemma nth_lookup_total (l : list Z) (j : nat) : nth j l 0 = default 0 (l !! j).
Proof. revert j. induction l as [|x l IH]; intros [|j]; cbn; auto. Qed.

(** Both alignment loops write the bytes to the right end. *)
Lemma align_spec (f : Z → Z) (fill : Z) n tmp : (length tmp <= n)%nat →
  map (λ p, let j := (n - 1 - p)%nat in
            if (j <? length tmp)%nat then f (nth (length tmp - j - 1) tmp 0) else fill) (seq 0 n) =
  replicate (n - length tmp) fill ++ map f tmp.
Proof.
  intros Hn. apply list_eq. intros p. change @map with (λ A B, @fmap list _ A B).
  destruct (decide (p < n)%nat) as [Hp|Hp].
  - rewrite list_lookup_fmap, lookup_seq_lt by done. cbn [fmap option_fmap option_map Nat.add].
    destruct (Nat.ltb_spec (n - 1 - p) (length tmp)) as [Hj|Hj].
    + rewrite lookup_app_r by (rewrite length_replicate; lia). rewrite length_replicate, list_lookup_fmap.
      destruct (lookup_lt_is_Some_2 tmp (p - (n - length tmp))) as [v Hv]; [lia|]. rewrite Hv.
      rewrite nth_lookup_total. replace (length tmp - (n - 1 - p) - 1)%nat with (p - (n - length tmp))%nat by lia.
      by rewrite Hv.
    + rewrite lookup_app_l by (rewrite length_replicate; lia). by rewrite lookup_replicate_2 by lia.
  - rewrite !lookup_ge_None_2; [done|..].
    + rewrite length_app, length_replicate, length_fmap. lia.
    + rewrite length_fmap, length_seq. lia.
Qed.

Lemma map_id_list (l : list Z) : map (λ x, x) l = l.
Proof. induction l; cbn; congruence. Qed.

Section lemmas.
Context {BB : BoostBits}.

(** The exported bytes, completed with zeros, are the big-endian bytes. *)
Lemma export_align n z : in_range (8 * Z.of_nat n) z → (0 < n)%nat →
  right_align n (export_bits z) = be_bytes n z ∧ (length (export_bits z) <= n)%nat.
Proof.
  intros Hz Hn. unfold in_range in Hz.
  assert (∃ k, (k <= n)%nat ∧ export_bits z = be_bytes k z ∧ in_range (8 * Z.of_nat k) z) as (k & Hk & He & Hr).
  { destruct (decide (z = 0)) as [->|Hne].
    - exists 1%nat. rewrite export_bits_zero. unfold in_range. split_and!; [lia|done|lia|lia].
    - destruct (export_bits_shortest z) as (k & [Hlo Hhi] & He); [lia|]. exists k. split_and!; [|done|].
      + destruct (decide (k <= n)%nat); [done|]. exfalso.
        rewrite Z.pow_mul_r in Hz by lia. change (2 ^ 8) with 256 in Hz.
        pose proof (Z.pow_le_mono_r 256 (Z.of_nat n) (Z.of_nat k - 1)). lia.
      + unfold in_range. rewrite Z.pow_mul_r by lia. change (2 ^ 8) with 256. lia. }
  rewrite He, be_bytes_length. split; [|done]. unfold right_align.
  rewrite (align_spec (λ x, x)) by (by rewrite be_bytes_length). rewrite map_id_list, be_bytes_length.
  rewrite <- be_bytes_pad by done. f_equal. lia.
Qed.

Lemma right_align_be n z : in_range (8 * Z.of_nat n) z → (0 < n)%nat →
  right_align n (export_bits z) = be_bytes n z.
Proof. intros. by apply export_align. Qed.

Lemma bytesToUint_be n z : in_range (8 * Z.of_nat n) z → bytesToUint n (be_bytes n z) = Ret z.
Proof.
  intros Hz. unfold bytesToUint. rewrite decide_True by apply be_bytes_length.
  rewrite import_bits_value by apply be_bytes_is_byte. by rewrite be_value_bytes.
Qed.

Lemma bswap_be n b : length b = n → Forall is_byte b → bswap n (le_value b) = be_value b.
Proof.
  intros Hl Hb. unfold bswap. rewrite reverse_le_bytes.
  assert (le_value b = be_value (reverse b)) as -> by (by rewrite <- le_value_reverse, reverse_involutive).
  rewrite <- Hl, <- (length_reverse b), be_bytes_value by (by apply Forall_reverse).
  apply le_value_reverse.
Qed.
End lemmas.

(** ** Two's complement *)

Lemma pow256_succ (n : nat) : 256 ^ Z.of_nat (S n) = 256 * 256 ^ Z.of_nat n.
Proof. rewrite Nat2Z.inj_succ, Z.pow_succ_r by lia. done. Qed.

Lemma le_value_bound l : Forall is_byte l → 0 <= le_value l < 256 ^ Z.of_nat (length l).
Proof.
  intros Hl. rewrite <- (reverse_involutive l), le_value_reverse, (length_reverse (reverse l)).
  apply be_value_bound. by apply Forall_reverse.
Qed.

Lemma le_value_inj l l' : length l = length l' → Forall is_byte l → Forall is_byte l' →
  le_value l = le_value l' → l = l'.
Proof.
  intros Hlen Hl Hl' Hv.
  rewrite <- (reverse_involutive l), <- (reverse_involutive l') in Hv |- *. f_equal.
  rewrite !le_value_reverse in Hv.
  rewrite <- (be_bytes_value (reverse l)), <- (be_bytes_value (reverse l')) by (by apply Forall_reverse).
  rewrite !length_reverse. congruence.
Qed.

Lemma increment_spec rb : Forall is_byte rb →
  Forall is_byte (increment rb) ∧ length (increment rb) = length rb ∧
  le_value (increment rb) = (le_value rb + 1) mod 256 ^ Z.of_nat (length rb).
Proof.
  induction 1 as [|x rb Hx Hrb (IH1 & IH2 & IH3)]; cbn [increment]; [done|].
  pose proof (le_value_bound rb Hrb) as Hb. unfold is_byte in Hx. cbn [length].
  rewrite pow256_succ. destruct (Z.eqb_spec x 255) as [->|Hne]; cbn [length le_value].
  - split_and!; [constructor; [unfold is_byte; lia|done] | by rewrite IH2 |].
    rewrite IH3. replace (255 + 256 * le_value rb + 1) with (256 * (le_value rb + 1)) by lia.
    rewrite Z.mul_mod_distr_l by lia. lia.
  - split_and!; [constructor; [unfold is_byte; lia|done] | done |]. rewrite Z.mod_small; lia.
Qed.

Lemma be_value_complement l : be_value (map (λ x, 255 - x) l) = 256 ^ Z.of_nat (length l) - 1 - be_value l.
Proof.
  induction l as [|x l IH] using rev_ind; [done|].
  rewrite map_app. cbn [map]. rewrite !be_value_snoc, IH, length_app, Nat.add_1_r, pow256_succ. lia.
Qed.

(** Adding one to the complement negates. *)
Lemma negate_bytes n z : 0 < z < 256 ^ Z.of_nat n →
  reverse (increment (reverse (map (λ x, 255 - x) (be_bytes n z)))) = be_bytes n (- z mod 256 ^ Z.of_nat n).
Proof.
  intros Hz. set (l := map (λ x, 255 - x) (be_bytes n z)).
  assert (Hlen : length l = n) by (unfold l; rewrite length_map; apply be_bytes_length).
  assert (Hl : Forall is_byte l).
  { unfold l. apply Forall_map. eapply Forall_impl; [apply be_bytes_is_byte|]. unfold is_byte. cbn. lia. }
  destruct (increment_spec (reverse l)) as (H1 & H2 & H3); [by apply Forall_reverse|].
  rewrite length_reverse in H2, H3. rewrite le_value_reverse in H3. rewrite Hlen in H2, H3.
  rewrite <- (be_bytes_value (reverse (increment (reverse l)))) by (by apply Forall_reverse).
  rewrite length_reverse, H2. f_equal. rewrite <- le_value_reverse, reverse_involutive, H3.
  unfold l. rewrite be_value_complement, be_bytes_length, be_value_bytes.
  - replace (256 ^ Z.of_nat n - 1 - z + 1) with (- z + 1 * 256 ^ Z.of_nat n) by lia. apply Z.mod_add. lia.
  - unfold in_range. rewrite Z.pow_mul_r by lia. change (2 ^ 8) with 256. lia.
Qed.

Section twos.
Context {BB : BoostBits}.

Lemma complement_align_be n z : 0 < z < 256 ^ Z.of_nat n → (0 < n)%nat →
  complement_align n (export_bits z) = map (λ x, 255 - x) (be_bytes n z).
Proof.
  intros Hz Hn. destruct (export_align n z) as [He Hl]; [|done|].
  { unfold in_range. rewrite Z.pow_mul_r by lia. change (2 ^ 8) with 256. lia. }
  rewrite <- He. unfold complement_align, right_align.
  rewrite (align_spec (λ x, 255 - x)), (align_spec (λ x, x)) by done.
  rewrite map_id_list, map_app. f_equal. generalize (n - length (export_bits z))%nat as k.
  induction k as [|k IH]; [done|]. cbn [replicate map]. by rewrite <- IH.
Qed.

(** [int256ToBytes] writes the two's complement. *)
Lemma int256ToBytes_twos z : - 2 ^ 255 <= z < 2 ^ 255 → int256ToBytes z = be_bytes 32 (z mod 2 ^ 256).
Proof.
  intros Hz. unfold int256ToBytes. destruct (Z.ltb_spec z 0) as [Hneg|Hpos].
  - assert (0 < - z < 256 ^ Z.of_nat 32) as Hr by (change (256 ^ Z.of_nat 32) with (2 ^ 256); lia).
    rewrite complement_align_be, negate_bytes by (done || lia). by rewrite Z.opp_involutive.
  - rewrite right_align_be; [|unfold in_range; change (8 * Z.of_nat 32) with 256; lia|lia].
    by rewrite Z.mod_small by lia.
Qed.

Lemma byte_high_bit x : is_byte x → negb (Z.land x 128 =? 0) = (128 <=? x).
Proof.
  intros Hx. unfold is_byte in Hx.
  assert (Hall : forallb (λ k, Bool.eqb (negb (Z.land (Z.of_nat k) 128 =? 0)) (128 <=? Z.of_nat k)) (seq 0 256) = true)
    by (vm_compute; reflexivity).
  rewrite forallb_forall in Hall. specialize (Hall (Z.to_nat x)). rewrite Z2Nat.id in Hall by lia.
  apply Bool.eqb_prop, Hall, in_seq. lia.
Qed.

Lemma be_bytes_head n z : in_range (8 * Z.of_nat (S n)) z →
  ∃ l, be_bytes (S n) z = z / 256 ^ Z.of_nat n :: l.
Proof.
  unfold in_range. revert z. induction n as [|n IH]; intros z Hz.
  - exists []. cbn in *. rewrite Z.div_1_r, Z.mod_small by lia. done.
  - destruct (IH (z / 256)) as [l Hl].
    { replace (8 * Z.of_nat (S (S n))) with (8 * Z.of_nat (S n) + 8) in Hz by lia.
      rewrite Z.pow_add_r in Hz by lia. split; [apply Z.div_pos; lia|]. apply Z.div_lt_upper_bound; lia. }
    exists (l ++ [z mod 256]). change (be_bytes (S (S n)) z) with (be_bytes (S n) (z / 256) ++ [z mod 256]).
    rewrite Hl. cbn [app]. f_equal. rewrite Z.div_div, <- pow256_succ by lia. done.
Qed.

(** What the borrow loop takes away in all: one for every byte it visits, at
    that byte's place. *)
Fixpoint borrowed (rb : list Z) (k : Z) : Z :=
  match rb with [] => 0 | x :: rb => 2 ^ (8 * k) + if x =? 0 then borrowed rb (k + 1) else 0 end.

Lemma borrow_loop_spec rb k ret : 0 <= k → borrow_loop rb k ret = ret - borrowed rb k.
Proof.
  revert k ret. induction rb as [|x rb IH]; intros k ret Hk; cbn [borrow_loop borrowed]; [lia|].
  rewrite Z.shiftl_1_l. destruct (x =? 0); [rewrite IH by lia|]; lia.
Qed.

Lemma borrowed_pos rb k : 0 <= k → 0 <= borrowed rb k ∧ (rb ≠ [] → 2 ^ (8 * k) <= borrowed rb k).
Proof.
  revert k. induction rb as [|x rb IH]; intros k Hk; cbn [borrowed]; [done|].
  pose proof (Z.pow_pos_nonneg 2 (8 * k)). destruct (IH (k + 1)) as [H1 _]; [lia|].
  destruct (x =? 0); lia.
Qed.
End twos.

(** Reading the two's complement of a number. *)
Lemma bytesToInt256_twos {BB : BoostBits} (z : Z) :
  - 2 ^ 255 <= z < 2 ^ 255 →
  (0 <= z ∨ z mod 256 ≠ 0 → bytesToInt256 (be_bytes 32 (z mod 2 ^ 256)) = Ret z) ∧
  (z < 0 → z mod 256 = 0 → ∃ z', bytesToInt256 (be_bytes 32 (z mod 2 ^ 256)) = Ret z' ∧ z' < z).
Proof.
  intros Hz. set (v := z mod 2 ^ 256). assert (Hv : in_range 256 v) by (apply Z.mod_pos_bound; lia).
  assert (Hv32 : in_range (8 * Z.of_nat 32) v) by done.
  unfold bytesToInt256. rewrite decide_True by apply be_bytes_length.
  rewrite import_bits_value, be_value_bytes by (apply be_bytes_is_byte || done).
  destruct (be_bytes_head 31 v Hv32) as [l Hl].
  assert (Hbyte : is_byte (v / 256 ^ Z.of_nat 31)).
  { pose proof (be_bytes_is_byte 32 v) as Hb. rewrite Hl in Hb. by apply Forall_cons in Hb as [? _]. }
  assert (nth 0 (be_bytes 32 v) 0 = v / 256 ^ Z.of_nat 31) as -> by (by rewrite Hl).
  rewrite byte_high_bit by done. rewrite borrow_loop_spec by lia.
  assert (Hrev : reverse (be_bytes 32 v) = v mod 256 :: reverse (be_bytes 31 (v / 256))).
  { change (be_bytes 32 v) with (be_bytes 31 (v / 256) ++ [v mod 256]). apply reverse_snoc. }
  rewrite Hrev. cbn [borrowed]. change (2 ^ (8 * 0)) with 1. unfold complement256.
  assert (Hmod : v mod 256 = z mod 256).
  { unfold v. change (2 ^ 256) with (256 * 2 ^ 248). rewrite Z.rem_mul_r by lia.
    rewrite Z.mul_comm, Z.mod_add by lia. apply Z.mod_mod. lia. }
  rewrite Hmod. destruct (decide (0 <= z)) as [Hpos|Hneg].
  - assert (v = z) as -> by (unfold v; apply Z.mod_small; lia).
    assert (z / 256 ^ Z.of_nat 31 < 128) by (apply Z.div_lt_upper_bound; [lia|]; change (256 ^ Z.of_nat 31 * 128) with (2 ^ 255); lia).
    destruct (Z.leb_spec 128 (z / 256 ^ Z.of_nat 31)); [lia|]. split; [done|lia].
  - assert (Hve : v = z + 2 ^ 256).
    { unfold v. symmetry. apply Z.mod_unique_pos with (q := -1); lia. }
    assert (128 <= v / 256 ^ Z.of_nat 31).
    { apply Z.div_le_lower_bound; [lia|]. change (256 ^ Z.of_nat 31 * 128) with (2 ^ 255). lia. }
    destruct (Z.leb_spec 128 (v / 256 ^ Z.of_nat 31)); [|lia].
    destruct (Z.eqb_spec (z mod 256) 0) as [E|E].
    + split; [intros [?|?]; [lia|done]|]. intros _ _. eexists. split; [done|].
      destruct (borrowed_pos (reverse (be_bytes 31 (v / 256))) (0 + 1)) as [_ Hb]; [lia|].
      assert (reverse (be_bytes 31 (v / 256)) ≠ []).
      { intros Hn. apply (f_equal length) in Hn. by rewrite length_reverse, be_bytes_length in Hn. }
      specialize (Hb ltac:(done)). change (2 ^ (8 * (0 + 1))) with 256 in Hb. lia.
    + split; [|done]. intros _. f_equal. lia.
Qed.

(** [int256ToBytes] writes the two's complement of every 256-bit signed
    number, and [bytesToInt256] reads it back when the number is not negative or
    its lowest byte is not zero.  Every other negative number is read back as a
    smaller one: the loop that subtracts one takes the borrow out of the whole
    number as well as out of the bytes. *)
Theorem int256_bytes {BB : BoostBits} (z : Z) :
  - 2 ^ 255 <= z < 2 ^ 255 →
  int256ToBytes z = be_bytes 32 (z mod 2 ^ 256) ∧
  (0 <= z ∨ z mod 256 ≠ 0 → bytesToInt256 (int256ToBytes z) = Ret z) ∧
  (z < 0 → z mod 256 = 0 → ∃ z', bytesToInt256 (int256ToBytes z) = Ret z' ∧ z' < z).
Proof.
  intros Hz. rewrite int256ToBytes_twos by done. split; [done|]. by apply bytesToInt256_twos.
Qed.

(** ** The unsigned conversions *)

Section codecs.
Context {BB : BoostBits}.

(** The pairs of functions of [UintConv], with their width. *)
Definition uint_codecs : list (Z * (Z → list Z) * (list Z → outcome Z)) :=
   [(256, uint256ToBytes, bytesToUint256); (248, uint248ToBytes, bytesToUint248);
    (240, uint240ToBytes, bytesToUint240); (232, uint232ToBytes, bytesToUint232);
    (224, uint224ToBytes, bytesToUint224); (216, uint216ToBytes, bytesToUint216);
    (208, uint208ToBytes, bytesToUint208); (200, uint200ToBytes, bytesToUint200);
    (192, uint192ToBytes, bytesToUint192); (184, uint184ToBytes, bytesToUint184);
    (176, uint176ToBytes, bytesToUint176); (168, uint168ToBytes, bytesToUint168);
    (160, uint160ToBytes, bytesToUint160); (152, uint152ToBytes, bytesToUint152);
    (144, uint144ToBytes, bytesToUint144); (136, uint136ToBytes, bytesToUint136);
    (128, uint128ToBytes, bytesToUint128); (120, uint120ToBytes, bytesToUint120);
    (112, uint112ToBytes, bytesToUint112); (104, uint104ToBytes, bytesToUint104);
    (96, uint96ToBytes, bytesToUint96); (88, uint88ToBytes, bytesToUint88);
    (80, uint80ToBytes, bytesToUint80); (72, uint72ToBytes, bytesToUint72);
    (64, uint64ToBytes, bytesToUint64); (56, uint56ToBytes, bytesToUint56);
    (48, uint48ToBytes, bytesToUint48); (40, uint40ToBytes, bytesToUint40);
    (32, uint32ToBytes, bytesToUint32); (24, uint24ToBytes, bytesToUint24);
    (16, uint16ToBytes, bytesToUint16); (8, uint8ToBytes, bytesToUint8)].

(** A codec writes the big-endian bytes of every number of its width, reads
    exactly the strings of its size, and the two are inverse to each other. *)
Definition codec_ok (c : Z * (Z → list Z) * (list Z → outcome Z)) : Prop :=
  let '(w, to, from) := c in
  let n := Z.to_nat (w / 8) in
  (∀ i, in_range w i → to i = be_bytes n i ∧ length (to i) = n ∧ from (to i) = Ret i) ∧
  (∀ b, Forall is_byte b → length b = n → ∃ i, from b = Ret i ∧ in_range w i ∧ to i = b) ∧
  (∀ b, length b ≠ n → from b = Throw invalid_size).

Lemma codec_intro w n (to : Z → list Z) (from : list Z → outcome Z) :
  w = 8 * Z.of_nat n →
  (∀ i, in_range w i → to i = be_bytes n i) →
  (∀ b, Forall is_byte b → length b = n → from b = Ret (be_value b)) →
  (∀ b, length b ≠ n → from b = Throw invalid_size) → codec_ok (w, to, from).
Proof.
  intros -> Hto Hfrom Hbad. unfold codec_ok. rewrite Z.mul_comm, Z.div_mul, Nat2Z.id by lia.
  rewrite (Z.mul_comm (Z.of_nat n)). split_and!; [| |done].
  - intros i Hi. rewrite Hto by done. split_and!; [done|apply be_bytes_length|].
    rewrite Hfrom, be_value_bytes; [done|done|apply be_bytes_is_byte|apply be_bytes_length].
  - intros b Hb Hl. exists (be_value b). pose proof (be_value_bound b Hb) as Hv. rewrite Hl in Hv.
    assert (Hr : in_range (8 * Z.of_nat n) (be_value b)).
    { unfold in_range. rewrite Z.pow_mul_r by lia. done. }
    split_and!; [by apply Hfrom|done|]. rewrite Hto by done. rewrite <- Hl. by apply be_bytes_value.
Qed.

Lemma boost_codec n : (0 < n)%nat →
  codec_ok (8 * Z.of_nat n, λ i, right_align n (export_bits i), bytesToUint n).
Proof.
  intros Hn. apply (codec_intro _ n); [done|..].
  - intros i Hi. by apply right_align_be.
  - intros b Hb Hl. unfold bytesToUint. by rewrite decide_True, import_bits_value.
  - intros b Hl. unfold bytesToUint. by rewrite decide_False.
Qed.

Lemma builtin_codec n :
  codec_ok (8 * Z.of_nat n, λ i, reverse (le_bytes n i),
    λ b, if decide (length b = n) then Ret (bswap n (le_value b)) else Throw invalid_size).
Proof.
  apply (codec_intro _ n); [done|..].
  - intros i _. apply reverse_le_bytes.
  - intros b Hb Hl. by rewrite decide_True, bswap_be.
  - intros b Hl. by rewrite decide_False.
Qed.

Lemma byte_codec : codec_ok (8, uint8ToBytes, bytesToUint8).
Proof.
  apply (codec_intro _ 1); [done|..].
  - intros i Hi. done.
  - intros [|x [|y b]] Hb Hl; done.
  - intros b Hl. unfold bytesToUint8. by rewrite decide_False.
Qed.
End codecs.

(** All 32 pairs of [UintConv] functions (8 to 256 bits) are inverse to each
    other: a number of the width becomes its big-endian bytes and is read back,
    every byte string of the right size is a number that writes it again, and a
    string of any other size is refused. *)
Theorem uint_conversions_roundtrip {BB : BoostBits} : Forall codec_ok uint_codecs.
Proof.
  repeat (apply Forall_cons; split; [first [exact byte_codec | exact (builtin_codec 8) | exact (builtin_codec 4)
    | exact (builtin_codec 2) | match goal with |- codec_ok (?w, _, _) =>
        let n := eval vm_compute in (Z.to_nat (w / 8)) in exact (boost_codec n ltac:(lia)) end]|]).
  constructor.
Qed.

(** The class is inhabited: the shortest big-endian bytes. *)
#[export] Program Instance boost_bits_ref : BoostBits := {|
  export_bits z := if z =? 0 then [0] else uintToBytes z;
  import_bits := be_value;
|}.
Next Obligation. done. Qed.
Next Obligation.
  intros z Hz. exists (bytesRequired z). destruct (Z.eqb_spec z 0); [lia|].
  destruct (bytesRequired_spec z) as [H1 H2]; [lia|]. split; [|apply uintToBytes_be; lia].
  split; [apply H2; lia|done].
Qed.
Next Obligation. done. Qed.

Lemma int256_bytes_witness :
  bytesToInt256 (int256ToBytes (-257)) = Ret (-257) ∧
  (∃ z', bytesToInt256 (int256ToBytes (-256)) = Ret z' ∧ z' < -256) ∧
  bytesToInt256 (int256ToBytes (-256)) = Ret (-512).
Proof.
  split_and!.
  - apply (int256_bytes (-257)); [lia|]. right. vm_compute. discriminate.
  - apply (int256_bytes (-256)); [lia|lia|]. vm_compute. reflexivity.
  - vm_compute. reflexivity.
Defined.

Lemma uint_conversions_roundtrip_witness : Forall codec_ok (uint_codecs (BB := boost_bits_ref)).
Proof. apply (uint_conversions_roundtrip (BB := boost_bits_ref)). Defined.

(** ** Numbers in range as big-endian bytes *)

Lemma codec_at n i : in_range (8 * Z.of_nat n) i →
  reverse (le_bytes n i) = be_bytes n i ∧
  (if decide (length (be_bytes n i) = n) then Ret (bswap n (le_value (be_bytes n i))) else Throw invalid_size) = Ret i.
Proof.
  intros Hi. destruct (builtin_codec n) as (Hc & _ & _). destruct (Hc i Hi) as (E1 & _ & E2). rewrite E1 in E2.
  rewrite Z.mul_comm, Z.div_mul, Nat2Z.id in * by lia. by split.
Qed.
Lemma u64_bytes i : in_range 64 i → uint64ToBytes i = be_bytes 8 i ∧ bytesToUint64 (be_bytes 8 i) = Ret i.
Proof. apply (codec_at 8). Qed.
Lemma u32_bytes i : in_range 32 i → uint32ToBytes i = be_bytes 4 i ∧ bytesToUint32 (be_bytes 4 i) = Ret i.
Proof. apply (codec_at 4). Qed.
Lemma u16_bytes i : in_range 16 i → uint16ToBytes i = be_bytes 2 i ∧ bytesToUint16 (be_bytes 2 i) = Ret i.
Proof. apply (codec_at 2). Qed.
Lemma u8_bytes i : in_range 8 i → uint8ToBytes i = [i].
Proof. unfold in_range. intros Hi. unfold uint8ToBytes. cbn. f_equal. by apply Z.mod_small. Qed.
Lemma boost_codec_at {BB : BoostBits} n i : (0 < n)%nat → in_range (8 * Z.of_nat n) i →
  right_align n (export_bits i) = be_bytes n i ∧ bytesToUint n (right_align n (export_bits i)) = Ret i.
Proof.
  intros Hn Hi. destruct (boost_codec n Hn) as (Hc & _ & _). destruct (Hc i Hi) as (E1 & _ & E2).
  rewrite Z.mul_comm, Z.div_mul, Nat2Z.id in * by lia. by split.
Qed.
Lemma u256_bytes {BB : BoostBits} i : in_range 256 i → uint256ToBytes i = be_bytes 32 i ∧ bytesToUint256 (uint256ToBytes i) = Ret i.
Proof. apply (boost_codec_at 32). lia. Qed.
