(* ===== verification/Blake2.v ===== *)
(** * The BLAKE2b compression function

    Models src/contract/precompiles/blake2f.cpp, the precompiled contract 9.  The
    code keeps the sixteen words in variables and unrolls a round; it is compared
    with the definition of BLAKE2b in RFC 7693, where a round is eight
    applications of the mixing function to the columns and diagonals. *)

From S2P Require Import Prelude CheckedInt Conv.

(** ** 64-bit words *)
Definition add64w (x y : Z) : Z := wrap 64 (x + y).
Notation "x +64 y" := (add64w x y) (at level 50, left associativity).
(** [std::rotr] *)
Definition rotr64 (x n : Z) : Z := Z.lor (Z.shiftr x n) (wrap 64 (Z.shiftl x (64 - n))).

Definition iv : list Z :=
  [0x6A09E667F3BCC908; 0xBB67AE8584CAA73B; 0x3C6EF372FE94F82B; 0xA54FF53A5F1D36F1;
   0x510E527FADE682D1; 0x9B05688C2B3E6C1F; 0x1F83D9ABFB41BD6B; 0x5BE0CD19137E2179].

Definition precomputed : list (list nat) :=
  [[0; 2; 4; 6; 1; 3; 5; 7; 8; 10; 12; 14; 9; 11; 13; 15];
   [14; 4; 9; 13; 10; 8; 15; 6; 1; 0; 11; 5; 12; 2; 7; 3];
   [11; 12; 5; 15; 8; 0; 2; 13; 10; 3; 7; 9; 14; 6; 1; 4];
   [7; 3; 13; 11; 9; 1; 12; 14; 2; 5; 4; 15; 6; 10; 0; 8];
   [9; 5; 2; 10; 0; 7; 4; 15; 14; 11; 6; 3; 1; 12; 8; 13];
   [2; 6; 0; 8; 12; 10; 11; 3; 4; 7; 15; 1; 13; 5; 14; 9];
   [12; 1; 14; 4; 5; 15; 13; 10; 0; 6; 9; 8; 7; 3; 2; 11];
   [13; 7; 12; 3; 11; 14; 1; 9; 5; 15; 8; 2; 0; 4; 6; 10];
   [6; 14; 11; 0; 15; 9; 3; 8; 12; 13; 1; 10; 2; 7; 4; 5];
   [10; 8; 7; 1; 2; 4; 6; 5; 15; 9; 3; 13; 11; 14; 12; 0]]%nat.

(** The local variables [v0] to [v15]. *)
Record V16 := mkV { w0 : Z; w1 : Z; w2 : Z; w3 : Z; w4 : Z; w5 : Z; w6 : Z; w7 : Z; w8 : Z; w9 : Z; w10 : Z; w11 : Z; w12 : Z; w13 : Z; w14 : Z; w15 : Z }.

(** The body of the loop. *)
Definition round (m : list Z) (s : list nat) (v : V16) : V16 :=
  let ms k := nth (nth (Z.to_nat k) s 0%nat) m 0 in
  let 'mkV v0 v1 v2 v3 v4 v5 v6 v7 v8 v9 v10 v11 v12 v13 v14 v15 := v in
  let v0 := v0 +64 ms 0 in let v0 := v0 +64 v4 in let v12 := Z.lxor v12 v0 in let v12 := rotr64 v12 32 in
    let v8 := v8 +64 v12 in let v4 := Z.lxor v4 v8 in let v4 := rotr64 v4 24 in
  let v1 := v1 +64 ms 1 in let v1 := v1 +64 v5 in let v13 := Z.lxor v13 v1 in let v13 := rotr64 v13 32 in
    let v9 := v9 +64 v13 in let v5 := Z.lxor v5 v9 in let v5 := rotr64 v5 24 in
  let v2 := v2 +64 ms 2 in let v2 := v2 +64 v6 in let v14 := Z.lxor v14 v2 in let v14 := rotr64 v14 32 in
    let v10 := v10 +64 v14 in let v6 := Z.lxor v6 v10 in let v6 := rotr64 v6 24 in
  let v3 := v3 +64 ms 3 in let v3 := v3 +64 v7 in let v15 := Z.lxor v15 v3 in let v15 := rotr64 v15 32 in
    let v11 := v11 +64 v15 in let v7 := Z.lxor v7 v11 in let v7 := rotr64 v7 24 in
  let v0 := v0 +64 ms 4 in let v0 := v0 +64 v4 in let v12 := Z.lxor v12 v0 in let v12 := rotr64 v12 16 in
    let v8 := v8 +64 v12 in let v4 := Z.lxor v4 v8 in let v4 := rotr64 v4 63 in
  let v1 := v1 +64 ms 5 in let v1 := v1 +64 v5 in let v13 := Z.lxor v13 v1 in let v13 := rotr64 v13 16 in
    let v9 := v9 +64 v13 in let v5 := Z.lxor v5 v9 in let v5 := rotr64 v5 63 in
  let v2 := v2 +64 ms 6 in let v2 := v2 +64 v6 in let v14 := Z.lxor v14 v2 in let v14 := rotr64 v14 16 in
    let v10 := v10 +64 v14 in let v6 := Z.lxor v6 v10 in let v6 := rotr64 v6 63 in
  let v3 := v3 +64 ms 7 in let v3 := v3 +64 v7 in let v15 := Z.lxor v15 v3 in let v15 := rotr64 v15 16 in
    let v11 := v11 +64 v15 in let v7 := Z.lxor v7 v11 in let v7 := rotr64 v7 63 in
  let v0 := v0 +64 ms 8 in let v0 := v0 +64 v5 in let v15 := Z.lxor v15 v0 in let v15 := rotr64 v15 32 in
    let v10 := v10 +64 v15 in let v5 := Z.lxor v5 v10 in let v5 := rotr64 v5 24 in
  let v1 := v1 +64 ms 9 in let v1 := v1 +64 v6 in let v12 := Z.lxor v12 v1 in let v12 := rotr64 v12 32 in
    let v11 := v11 +64 v12 in let v6 := Z.lxor v6 v11 in let v6 := rotr64 v6 24 in
  let v2 := v2 +64 ms 10 in let v2 := v2 +64 v7 in let v13 := Z.lxor v13 v2 in let v13 := rotr64 v13 32 in
    let v8 := v8 +64 v13 in let v7 := Z.lxor v7 v8 in let v7 := rotr64 v7 24 in
  let v3 := v3 +64 ms 11 in let v3 := v3 +64 v4 in let v14 := Z.lxor v14 v3 in let v14 := rotr64 v14 32 in
    let v9 := v9 +64 v14 in let v4 := Z.lxor v4 v9 in let v4 := rotr64 v4 24 in
  let v0 := v0 +64 ms 12 in let v0 := v0 +64 v5 in let v15 := Z.lxor v15 v0 in let v15 := rotr64 v15 16 in
    let v10 := v10 +64 v15 in let v5 := Z.lxor v5 v10 in let v5 := rotr64 v5 63 in
  let v1 := v1 +64 ms 13 in let v1 := v1 +64 v6 in let v12 := Z.lxor v12 v1 in let v12 := rotr64 v12 16 in
    let v11 := v11 +64 v12 in let v6 := Z.lxor v6 v11 in let v6 := rotr64 v6 63 in
  let v2 := v2 +64 ms 14 in let v2 := v2 +64 v7 in let v13 := Z.lxor v13 v2 in let v13 := rotr64 v13 16 in
    let v8 := v8 +64 v13 in let v7 := Z.lxor v7 v8 in let v7 := rotr64 v7 63 in
  let v3 := v3 +64 ms 15 in let v3 := v3 +64 v4 in let v14 := Z.lxor v14 v3 in let v14 := rotr64 v14 16 in
    let v9 := v9 +64 v14 in let v4 := Z.lxor v4 v9 in let v4 := rotr64 v4 63 in
  mkV v0 v1 v2 v3 v4 v5 v6 v7 v8 v9 v10 v11 v12 v13 v14 v15.
(** [for (i = from; n more times; i++)] *)
Fixpoint for_loop {A} (f : nat → A → A) (n i : nat) (a : A) : A :=
  match n with O => a | S n => for_loop f n (S i) (f i a) end.
Definition rounds_loop (n : nat) (m : list Z) (v : V16) : V16 :=
  for_loop (λ i v, round m (nth (i mod 10)%nat precomputed []) v) n 0 v.

(** [precompiles::blake2f] on words. *)
Definition blake2f_words (h m : list Z) (c0 c1 : Z) (flag : bool) (rounds : nat) : list Z :=
  let at_ l i := nth (Z.to_nat i) l 0 in
  let v := mkV (at_ h 0) (at_ h 1) (at_ h 2) (at_ h 3) (at_ h 4) (at_ h 5) (at_ h 6) (at_ h 7)
    (at_ iv 0) (at_ iv 1) (at_ iv 2) (at_ iv 3) (Z.lxor (at_ iv 4) c0) (Z.lxor (at_ iv 5) c1)
    (if flag then Z.lxor (at_ iv 6) 0xFFFFFFFFFFFFFFFF else at_ iv 6) (at_ iv 7) in
  let v := rounds_loop rounds m v in
  [Z.lxor (at_ h 0) (Z.lxor (w0 v) (w8 v)); Z.lxor (at_ h 1) (Z.lxor (w1 v) (w9 v));
   Z.lxor (at_ h 2) (Z.lxor (w2 v) (w10 v)); Z.lxor (at_ h 3) (Z.lxor (w3 v) (w11 v));
   Z.lxor (at_ h 4) (Z.lxor (w4 v) (w12 v)); Z.lxor (at_ h 5) (Z.lxor (w5 v) (w13 v));
   Z.lxor (at_ h 6) (Z.lxor (w6 v) (w14 v)); Z.lxor (at_ h 7) (Z.lxor (w7 v) (w15 v))].

(** ** BLAKE2b (RFC 7693) *)

(** The permutations of the message words. *)
Definition sigma : list (list nat) :=
  [[0; 1; 2; 3; 4; 5; 6; 7; 8; 9; 10; 11; 12; 13; 14; 15];
   [14; 10; 4; 8; 9; 15; 13; 6; 1; 12; 0; 2; 11; 7; 5; 3];
   [11; 8; 12; 0; 5; 2; 15; 13; 10; 14; 3; 6; 7; 1; 9; 4];
   [7; 9; 3; 1; 13; 12; 11; 14; 2; 6; 5; 10; 4; 0; 15; 8];
   [9; 0; 5; 7; 2; 4; 10; 15; 14; 1; 11; 12; 6; 8; 3; 13];
   [2; 12; 6; 10; 0; 11; 8; 3; 4; 13; 7; 5; 15; 14; 1; 9];
   [12; 5; 1; 15; 14; 13; 4; 10; 0; 7; 6; 3; 9; 2; 8; 11];
   [13; 11; 7; 14; 12; 1; 3; 9; 5; 0; 15; 4; 8; 6; 2; 10];
   [6; 15; 14; 9; 11; 3; 0; 8; 12; 2; 13; 7; 1; 4; 10; 5];
   [10; 2; 8; 4; 7; 6; 1; 5; 15; 11; 9; 14; 3; 12; 13; 0]]%nat.

Section rfc.
Local Open Scope nat_scope.
Definition at_word (l : list Z) (i : nat) : Z := nth i l 0%Z.
(** The mixing function on the words [a], [b], [c], [d] of the vector. *)
Definition mix (a b c d : nat) (x y : Z) (v : list Z) : list Z :=
  let v := <[a := wrap 64 (at_word v a + at_word v b + x)%Z]> v in
  let v := <[d := rotr64 (Z.lxor (at_word v d) (at_word v a)) 32]> v in
  let v := <[c := wrap 64 (at_word v c + at_word v d)%Z]> v in
  let v := <[b := rotr64 (Z.lxor (at_word v b) (at_word v c)) 24]> v in
  let v := <[a := wrap 64 (at_word v a + at_word v b + y)%Z]> v in
  let v := <[d := rotr64 (Z.lxor (at_word v d) (at_word v a)) 16]> v in
  let v := <[c := wrap 64 (at_word v c + at_word v d)%Z]> v in
  <[b := rotr64 (Z.lxor (at_word v b) (at_word v c)) 63]> v.
Definition rfc_round (m : list Z) (s : list nat) (v : list Z) : list Z :=
  let x k := at_word m (nth k s 0) in
  let v := mix 0 4 8 12 (x 0) (x 1) v in
  let v := mix 1 5 9 13 (x 2) (x 3) v in
  let v := mix 2 6 10 14 (x 4) (x 5) v in
  let v := mix 3 7 11 15 (x 6) (x 7) v in
  let v := mix 0 5 10 15 (x 8) (x 9) v in
  let v := mix 1 6 11 12 (x 10) (x 11) v in
  let v := mix 2 7 8 13 (x 12) (x 13) v in
  mix 3 4 9 14 (x 14) (x 15) v.
(** The compression function [F] with the number of rounds as an argument. *)
Definition blake2_F (h m : list Z) (t0 t1 : Z) (last : bool) (rounds : nat) : list Z :=
  let v := h ++ iv in
  let v := <[12 := Z.lxor (at_word v 12) t0]> v in
  let v := <[13 := Z.lxor (at_word v 13) t1]> v in
  let v := if last then <[14 := Z.lxor (at_word v 14) (2 ^ 64 - 1)]> v else v in
  let v := fold_left (λ v i, rfc_round m (nth (i mod 10) sigma []) v) (seq 0 rounds) v in
  map (λ i, Z.lxor (at_word h i) (Z.lxor (at_word v i) (at_word v (8 + i)))) (seq 0 8).
End rfc.

(** ** The code computes BLAKE2b *)

(** The mixing function with the sums in the order of the code. *)
Definition mix_code (a b c d : nat) (x y : Z) (v : list Z) : list Z :=
  let v := <[a := at_word v a +64 x +64 at_word v b]> v in
  let v := <[d := rotr64 (Z.lxor (at_word v d) (at_word v a)) 32]> v in
  let v := <[c := at_word v c +64 at_word v d]> v in
  let v := <[b := rotr64 (Z.lxor (at_word v b) (at_word v c)) 24]> v in
  let v := <[a := at_word v a +64 y +64 at_word v b]> v in
  let v := <[d := rotr64 (Z.lxor (at_word v d) (at_word v a)) 16]> v in
  let v := <[c := at_word v c +64 at_word v d]> v in
  <[b := rotr64 (Z.lxor (at_word v b) (at_word v c)) 63]> v.
Lemma sum_order a b x : wrap 64 (a + b + x) = a +64 x +64 b.
Proof. unfold add64w, wrap. rewrite Zplus_mod_idemp_l. f_equal. lia. Qed.
Lemma mix_order a b c d x y v : mix a b c d x y v = mix_code a b c d x y v.
Proof. unfold mix, mix_code. rewrite !sum_order. done. Qed.

Definition words (v : V16) : list Z :=
  let 'mkV v0 v1 v2 v3 v4 v5 v6 v7 v8 v9 v10 v11 v12 v13 v14 v15 := v in [v0; v1; v2; v3; v4; v5; v6; v7; v8; v9; v10; v11; v12; v13; v14; v15].

Lemma list16 (m : list Z) : length m = 16%nat → ∃ m0 m1 m2 m3 m4 m5 m6 m7 m8 m9 m10 m11 m12 m13 m14 m15, m = [m0; m1; m2; m3; m4; m5; m6; m7; m8; m9; m10; m11; m12; m13; m14; m15].
Proof.
  intros Hm. do 16 (destruct m as [|? m]; [done|]). destruct m; [|done]. repeat eexists.
Qed.
Lemma round_rfc m i v : length m = 16%nat →
  words (round m (nth (i mod 10)%nat precomputed []) v) = rfc_round m (nth (i mod 10)%nat sigma []) (words v).
Proof.
  intros (m0 & m1 & m2 & m3 & m4 & m5 & m6 & m7 & m8 & m9 & m10 & m11 & m12 & m13 & m14 & m15 & ->)%list16. destruct v as [v0 v1 v2 v3 v4 v5 v6 v7 v8 v9 v10 v11 v12 v13 v14 v15].
  unfold rfc_round. cbv zeta. rewrite !mix_order.
  assert (Hi : (i mod 10 < 10)%nat) by (apply Nat.mod_upper_bound; lia). revert Hi. generalize (i mod 10)%nat. clear i. intros i Hi.
  do 10 (destruct i as [|i]; [cbv -[add64w rotr64 Z.lxor]; reflexivity|]). lia.
Qed.
Lemma for_loop_sim {A B} (f : nat → A → A) (g : nat → B → B) (R : A → B) : (∀ i a, R (f i a) = g i (R a)) →
  ∀ n i a, R (for_loop f n i a) = fold_left (λ b i, g i b) (seq i n) (R a).
Proof. intros H n. induction n as [|n IH]; intros i a; [done|]. cbn. by rewrite IH, H. Qed.
Lemma rounds_rfc n m v : length m = 16%nat →
  words (rounds_loop n m v) = fold_left (λ v i, rfc_round m (nth (i mod 10)%nat sigma []) v) (seq 0 n) (words v).
Proof.
  intros Hm. exact (for_loop_sim (λ i v, round m (nth (i mod 10)%nat precomputed []) v)
    (λ i v, rfc_round m (nth (i mod 10)%nat sigma []) v) words (λ i v, round_rfc m i v Hm) n 0 v).
Qed.
Lemma list8 (h : list Z) : length h = 8%nat → ∃ h0 h1 h2 h3 h4 h5 h6 h7, h = [h0; h1; h2; h3; h4; h5; h6; h7].
Proof. intros Hh. do 8 (destruct h as [|? h]; [done|]). destruct h; [|done]. repeat eexists. Qed.
Lemma blake2f_rfc h m t0 t1 flag rounds : length h = 8%nat → length m = 16%nat →
  blake2f_words h m t0 t1 flag rounds = blake2_F h m t0 t1 flag rounds.
Proof.
  intros (h0 & h1 & h2 & h3 & h4 & h5 & h6 & h7 & ->)%list8 Hm. unfold blake2f_words, blake2_F. cbv zeta.
  match goal with |- context [rounds_loop _ _ ?v0] => pose proof (rounds_rfc rounds m v0 Hm) as Hr; set (start := v0) in * end.
  match goal with |- context [fold_left ?f _ ?v0] => assert (Hs : v0 = words start) by (by destruct flag) end.
  rewrite Hs, <- Hr. clear. by destruct (rounds_loop rounds m start).
Qed.

(** ** The precompiled contract *)

(** Gas is the state; [Gas::use] *)
Definition use (amount : Z) : M Z unit := λ g, if g <? amount then (Throw OutOfGas, 0) else (Ret (), g - amount).

(** [memcpy] of little-endian words. *)
Fixpoint le_words (n : nat) (l : list Z) : list Z :=
  match n with O => [] | S n => le_value (take 8 l) :: le_words n (drop 8 l) end.
(** The number of rounds is copied and its bytes reversed. *)
Definition blake2f (input : list Z) : M Z (list Z) :=
  throw_if (negb (Z.of_nat (length input) =? 213)) (invalid_argument "Blake2F requires exacly 213 bytes") ;;
  let rounds := le_value (reverse (take 4 input)) in
  let h := le_words 8 (drop 4 input) in
  let m := le_words 16 (drop 68 input) in
  let t := le_words 2 (drop 196 input) in
  let flag := nth 212 input 0 in
  use rounds ;;
  mret (concat (map (le_bytes 8) (blake2f_words h m (nth 0 t 0) (nth 1 t 0) (negb (flag =? 0)) (Z.to_nat rounds)))).

Lemma le_words_length n l : length (le_words n l) = n.
Proof. revert l. induction n as [|n IH]; intros l; [done|]. cbn. by rewrite IH. Qed.

(** C36: the precompiled contract 9 is the compression function of BLAKE2b: on 213
    bytes with enough gas it takes one unit of gas per round and returns the words
    of [F] of RFC 7693 for the number of rounds, the state, the message, the
    counters and the flag of the input; with less gas it takes what is left, and
    input of another length is refused without using gas. *)
Theorem blake2f_correct (input : list Z) (gas : Z) :
  let rounds := be_value (take 4 input) in
  let F := blake2_F (le_words 8 (drop 4 input)) (le_words 16 (drop 68 input)) (le_value (take 8 (drop 196 input)))
    (le_value (take 8 (drop 204 input))) (negb (nth 212 input 0 =? 0)) (Z.to_nat rounds) in
  blake2f input gas =
    if decide (length input = 213%nat) then
      if gas <? rounds then (Throw OutOfGas, 0) else (Ret (concat (map (le_bytes 8) F)), gas - rounds)
    else (Throw (invalid_argument "Blake2F requires exacly 213 bytes"), gas).
Proof.
  cbv zeta. rewrite <- blake2f_rfc by apply le_words_length. unfold blake2f.
  assert (Hr : le_value (reverse (take 4 input)) = be_value (take 4 input)) by apply le_value_reverse.
  cbv zeta. rewrite Hr.
  case_decide as Hl.
  - rewrite Hl. cbn [Z.of_nat Z.eqb Pos.eqb negb throw_if]. change (Z.of_nat 213 =? 213) with true. cbn [negb throw_if].
    unfold use. unfold mbind, M_bind, mret, M_ret. destruct (gas <? be_value (take 4 input)); [done|].
    change (nth 1 (le_words 2 (drop 196 input)) 0) with (le_value (take 8 (drop 8 (drop 196 input)))).
    change (nth 0 (le_words 2 (drop 196 input)) 0) with (le_value (take 8 (drop 196 input))). rewrite (drop_drop input 8 196). reflexivity.
  - destruct (Z.eqb_spec (Z.of_nat (length input)) 213); [lia|]. done.
Qed.

(** The example of RFC 7693: the hash of [abc]. *)
Definition abc_input : list Z :=
  be_bytes 4 12 ++ concat (map (le_bytes 8) (Z.lxor 0x01010040 (nth 0 iv 0) :: drop 1 iv)) ++ [97; 98; 99] ++ replicate 125 0 ++
  le_bytes 8 3 ++ le_bytes 8 0 ++ [1].
Example blake2f_abc : blake2f abc_input 12 = (Ret (be_bytes 64
  0xba80a53f981c4d0d6a2797b69f12f6e94c212f14685ac4b74b12bb6fdbffa2d17d87c5392aab792dc252d5de4533cc9518d38aa8dbf1925ab92386edd4009923), 0).
Proof. vm_compute. reflexivity. Qed.
