(* ===== verification/Ripemd160.v ===== *)
(** * RIPEMD-160

    Models src/contract/precompiles/ripemd160.hpp and ripemd160.cpp, the hash of
    precompiled contract 3.  The code unrolls the two lines of eighty steps, with
    the roles of the five registers rotated from line to line; it is compared with
    the definition of RIPEMD-160 by Dobbertin, Bosselaers and Preneel, a loop with
    tables of message words and shifts over the padded message. *)

From S2P Require Import Prelude CheckedInt Bytes Conv Blake2.

(** ** The code *)

(** Arithmetic on [uint32_t]. *)
Definition not32 (x : Z) : Z := Z.lxor x (2 ^ 32 - 1).
Definition ROL (x n : Z) : Z := Z.lor (wrap 32 (Z.shiftl x n)) (Z.shiftr x (32 - n)).
Definition F_ (x y z : Z) : Z := Z.lxor (Z.lxor x y) z.
Definition G_ (x y z : Z) : Z := Z.lor (Z.land x y) (Z.land (not32 x) z).
Definition H_ (x y z : Z) : Z := Z.lxor (Z.lor x (not32 y)) z.
Definition IQ_ (x y z : Z) : Z := Z.lor (Z.land x z) (Z.land y (not32 z)).
Definition J_ (x y z : Z) : Z := Z.lxor x (Z.lor y (not32 z)).

(** The macros of a step, with their function and constant. *)
Inductive Macro := FF | GG | HH | II | JJ | FFF | GGG | HHH | III | JJJ.
Definition macro_f (k : Macro) : Z → Z → Z → Z :=
  match k with
  | FF | FFF => F_ | GG | GGG => G_ | HH | HHH => H_ | II | III => IQ_ | JJ | JJJ => J_
  end.
Definition macro_k (k : Macro) : Z :=
  match k with
  | FF | FFF => 0
  | GG => 0x5a827999 | HH => 0x6ed9eba1 | II => 0x8f1bbcdc | JJ => 0xa953fd4e
  | GGG => 0x7a6d76e9 | HHH => 0x6d703ef3 | III => 0x5c4dd124 | JJJ => 0x50a28be6
  end.

(** The registers [aa] to [ee], or [aaa] to [eee].  A line is written as its
    macro, the register that comes first (the others follow in the order of their
    names, [aa] after [ee]), the index of the message word and the shift. *)
Inductive Reg := AA | BB | CC | DD | EE.
Definition reg (r : Reg) : nat := match r with AA => 0 | BB => 1 | CC => 2 | DD => 3 | EE => 4 end.
Definition Line : Type := Macro * Reg * nat * Z.

Definition left_lines : list Line :=
  [(FF, AA, 0%nat, 11); (FF, EE, 1%nat, 14); (FF, DD, 2%nat, 15); (FF, CC, 3%nat, 12);
   (FF, BB, 4%nat, 5); (FF, AA, 5%nat, 8); (FF, EE, 6%nat, 7); (FF, DD, 7%nat, 9);
   (FF, CC, 8%nat, 11); (FF, BB, 9%nat, 13); (FF, AA, 10%nat, 14); (FF, EE, 11%nat, 15);
   (FF, DD, 12%nat, 6); (FF, CC, 13%nat, 7); (FF, BB, 14%nat, 9); (FF, AA, 15%nat, 8);
   (GG, EE, 7%nat, 7); (GG, DD, 4%nat, 6); (GG, CC, 13%nat, 8); (GG, BB, 1%nat, 13);
   (GG, AA, 10%nat, 11); (GG, EE, 6%nat, 9); (GG, DD, 15%nat, 7); (GG, CC, 3%nat, 15);
   (GG, BB, 12%nat, 7); (GG, AA, 0%nat, 12); (GG, EE, 9%nat, 15); (GG, DD, 5%nat, 9);
   (GG, CC, 2%nat, 11); (GG, BB, 14%nat, 7); (GG, AA, 11%nat, 13); (GG, EE, 8%nat, 12);
   (HH, DD, 3%nat, 11); (HH, CC, 10%nat, 13); (HH, BB, 14%nat, 6); (HH, AA, 4%nat, 7);
   (HH, EE, 9%nat, 14); (HH, DD, 15%nat, 9); (HH, CC, 8%nat, 13); (HH, BB, 1%nat, 15);
   (HH, AA, 2%nat, 14); (HH, EE, 7%nat, 8); (HH, DD, 0%nat, 13); (HH, CC, 6%nat, 6);
   (HH, BB, 13%nat, 5); (HH, AA, 11%nat, 12); (HH, EE, 5%nat, 7); (HH, DD, 12%nat, 5);
   (II, CC, 1%nat, 11); (II, BB, 9%nat, 12); (II, AA, 11%nat, 14); (II, EE, 10%nat, 15);
   (II, DD, 0%nat, 14); (II, CC, 8%nat, 15); (II, BB, 12%nat, 9); (II, AA, 4%nat, 8);
   (II, EE, 13%nat, 9); (II, DD, 3%nat, 14); (II, CC, 7%nat, 5); (II, BB, 15%nat, 6);
   (II, AA, 14%nat, 8); (II, EE, 5%nat, 6); (II, DD, 6%nat, 5); (II, CC, 2%nat, 12);
   (JJ, BB, 4%nat, 9); (JJ, AA, 0%nat, 15); (JJ, EE, 5%nat, 5); (JJ, DD, 9%nat, 11);
   (JJ, CC, 7%nat, 6); (JJ, BB, 12%nat, 8); (JJ, AA, 2%nat, 13); (JJ, EE, 10%nat, 12);
   (JJ, DD, 14%nat, 5); (JJ, CC, 1%nat, 12); (JJ, BB, 3%nat, 13); (JJ, AA, 8%nat, 14);
   (JJ, EE, 11%nat, 11); (JJ, DD, 6%nat, 8); (JJ, CC, 15%nat, 5); (JJ, BB, 13%nat, 6)].
Definition right_lines : list Line :=
  [(JJJ, AA, 5%nat, 8); (JJJ, EE, 14%nat, 9); (JJJ, DD, 7%nat, 9); (JJJ, CC, 0%nat, 11);
   (JJJ, BB, 9%nat, 13); (JJJ, AA, 2%nat, 15); (JJJ, EE, 11%nat, 15); (JJJ, DD, 4%nat, 5);
   (JJJ, CC, 13%nat, 7); (JJJ, BB, 6%nat, 7); (JJJ, AA, 15%nat, 8); (JJJ, EE, 8%nat, 11);
   (JJJ, DD, 1%nat, 14); (JJJ, CC, 10%nat, 14); (JJJ, BB, 3%nat, 12); (JJJ, AA, 12%nat, 6);
   (III, EE, 6%nat, 9); (III, DD, 11%nat, 13); (III, CC, 3%nat, 15); (III, BB, 7%nat, 7);
   (III, AA, 0%nat, 12); (III, EE, 13%nat, 8); (III, DD, 5%nat, 9); (III, CC, 10%nat, 11);
   (III, BB, 14%nat, 7); (III, AA, 15%nat, 7); (III, EE, 8%nat, 12); (III, DD, 12%nat, 7);
   (III, CC, 4%nat, 6); (III, BB, 9%nat, 15); (III, AA, 1%nat, 13); (III, EE, 2%nat, 11);
   (HHH, DD, 15%nat, 9); (HHH, CC, 5%nat, 7); (HHH, BB, 1%nat, 15); (HHH, AA, 3%nat, 11);
   (HHH, EE, 7%nat, 8); (HHH, DD, 14%nat, 6); (HHH, CC, 6%nat, 6); (HHH, BB, 9%nat, 14);
   (HHH, AA, 11%nat, 12); (HHH, EE, 8%nat, 13); (HHH, DD, 12%nat, 5); (HHH, CC, 2%nat, 14);
   (HHH, BB, 10%nat, 13); (HHH, AA, 0%nat, 13); (HHH, EE, 4%nat, 7); (HHH, DD, 13%nat, 5);
   (GGG, CC, 8%nat, 15); (GGG, BB, 6%nat, 5); (GGG, AA, 4%nat, 8); (GGG, EE, 1%nat, 11);
   (GGG, DD, 3%nat, 14); (GGG, CC, 11%nat, 14); (GGG, BB, 15%nat, 6); (GGG, AA, 0%nat, 14);
   (GGG, EE, 5%nat, 6); (GGG, DD, 12%nat, 9); (GGG, CC, 2%nat, 12); (GGG, BB, 13%nat, 9);
   (GGG, AA, 9%nat, 12); (GGG, EE, 7%nat, 5); (GGG, DD, 10%nat, 15); (GGG, CC, 14%nat, 8);
   (FFF, BB, 12%nat, 8); (FFF, AA, 15%nat, 5); (FFF, EE, 10%nat, 12); (FFF, DD, 4%nat, 9);
   (FFF, CC, 1%nat, 12); (FFF, BB, 5%nat, 5); (FFF, AA, 8%nat, 14); (FFF, EE, 7%nat, 6);
   (FFF, DD, 6%nat, 8); (FFF, CC, 2%nat, 13); (FFF, BB, 13%nat, 6); (FFF, AA, 14%nat, 5);
   (FFF, EE, 0%nat, 15); (FFF, DD, 3%nat, 13); (FFF, CC, 9%nat, 11); (FFF, BB, 11%nat, 11)].

Definition step (X regs : list Z) (l : Line) : list Z :=
  let '(k, first, x, s) := l in
  let r i := nth ((reg first + i) mod 5)%nat regs 0 in
  let a := wrap 32 (r 0%nat + (macro_f k (r 1%nat) (r 2%nat) (r 3%nat) + nth x X 0 + macro_k k)) in
  let a := wrap 32 (ROL a s + r 4%nat) in
  <[((reg first + 2) mod 5)%nat := ROL (r 2%nat) 10]> (<[reg first := a]> regs).

Definition compress (MDbuf X : list Z) : list Z :=
  let l := fold_left (step X) left_lines MDbuf in
  let r := fold_left (step X) right_lines MDbuf in
  let md i := nth i MDbuf 0 in
  let at_ v q := nth (reg q) v 0 in
  let ddd := wrap 32 (at_ r DD + wrap 32 (at_ l CC + md 1%nat)) in
  [ddd; wrap 32 (md 2%nat + at_ l DD + at_ r EE); wrap 32 (md 3%nat + at_ l EE + at_ r AA);
   wrap 32 (md 4%nat + at_ l AA + at_ r BB); wrap 32 (md 0%nat + at_ l BB + at_ r CC)].

(** A chunk of sixteen words from 64 bytes. *)
Fixpoint read_chunk (n : nat) (msg : list Z) : list Z :=
  match n with
  | O => []
  | S n =>
      let b k := nth k msg 0 in
      Z.lor (Z.lor (Z.lor (b 0%nat) (Z.shiftl (b 1%nat) 8)) (Z.shiftl (b 2%nat) 16)) (Z.shiftl (b 3%nat) 24) :: read_chunk n (drop 4 msg)
  end.
Fixpoint full_chunks (n : nat) (msg digest : list Z) : list Z :=
  match n with O => digest | S n => full_chunks n (drop 64 msg) (compress digest (read_chunk 16 msg)) end.

(** [chunk[i >> 2] ^= b << ((i & 3) << 3)] *)
Definition xor_byte (i b : Z) (chunk : list Z) : list Z :=
  let w := Z.to_nat (Z.shiftr i 2) in <[w := Z.lxor (nth w chunk 0) (Z.shiftl b (Z.shiftl (Z.land i 3) 3))]> chunk.
Fixpoint xor_bytes (i : Z) (msg : list Z) (chunk : list Z) : list Z :=
  match msg with [] => chunk | b :: msg => xor_bytes (i + 1) msg (xor_byte i b chunk) end.

Definition ripemd160 (msg : list Z) : list Z :=
  let msg_len := wrap 32 (Z.of_nat (length msg)) in
  let n := Z.to_nat (Z.shiftr msg_len 6) in
  let digest := full_chunks n msg [0x67452301; 0xefcdab89; 0x98badcfe; 0x10325476; 0xc3d2e1f0] in
  let tail := take (Z.to_nat (Z.land msg_len 63)) (drop (64 * n) msg) in
  let chunk := xor_bytes 0 tail (replicate 16 0) in
  let w := Z.to_nat (Z.land (Z.shiftr msg_len 2) 15) in
  let chunk := <[w := Z.lxor (nth w chunk 0) (Z.shiftl 1 (8 * Z.land msg_len 3 + 7))]> chunk in
  let '(digest, chunk) := if 55 <? Z.land msg_len 63 then (compress digest chunk, replicate 16 0) else (digest, chunk) in
  let chunk := <[15%nat := Z.shiftr msg_len 29]> (<[14%nat := wrap 32 (Z.shiftl msg_len 3)]> chunk) in
  concat (map (λ d, [Z.land d 255; Z.land (Z.shiftr d 8) 255; Z.land (Z.shiftr d 16) 255; Z.land (Z.shiftr d 24) 255])
    (compress digest chunk)).

(** ** The definition of RIPEMD-160 *)

Definition word_left : list nat :=
  [0; 1; 2; 3; 4; 5; 6; 7; 8; 9; 10; 11; 12; 13; 14; 15;
   7; 4; 13; 1; 10; 6; 15; 3; 12; 0; 9; 5; 2; 14; 11; 8;
   3; 10; 14; 4; 9; 15; 8; 1; 2; 7; 0; 6; 13; 11; 5; 12;
   1; 9; 11; 10; 0; 8; 12; 4; 13; 3; 7; 15; 14; 5; 6; 2;
   4; 0; 5; 9; 7; 12; 2; 10; 14; 1; 3; 8; 11; 6; 15; 13]%nat.
Definition word_right : list nat :=
  [5; 14; 7; 0; 9; 2; 11; 4; 13; 6; 15; 8; 1; 10; 3; 12;
   6; 11; 3; 7; 0; 13; 5; 10; 14; 15; 8; 12; 4; 9; 1; 2;
   15; 5; 1; 3; 7; 14; 6; 9; 11; 8; 12; 2; 10; 0; 4; 13;
   8; 6; 4; 1; 3; 11; 15; 0; 5; 12; 2; 13; 9; 7; 10; 14;
   12; 15; 10; 4; 1; 5; 8; 7; 6; 2; 13; 14; 0; 3; 9; 11]%nat.
Definition shift_left : list Z :=
  [11; 14; 15; 12; 5; 8; 7; 9; 11; 13; 14; 15; 6; 7; 9; 8;
   7; 6; 8; 13; 11; 9; 7; 15; 7; 12; 15; 9; 11; 7; 13; 12;
   11; 13; 6; 7; 14; 9; 13; 15; 14; 8; 13; 6; 5; 12; 7; 5;
   11; 12; 14; 15; 14; 15; 9; 8; 9; 14; 5; 6; 8; 6; 5; 12;
   9; 15; 5; 11; 6; 8; 13; 12; 5; 12; 13; 14; 11; 8; 5; 6].
Definition shift_right : list Z :=
  [8; 9; 9; 11; 13; 15; 15; 5; 7; 7; 8; 11; 14; 14; 12; 6;
   9; 13; 15; 7; 12; 8; 9; 11; 7; 7; 12; 7; 6; 15; 13; 11;
   9; 7; 15; 11; 8; 6; 6; 14; 12; 13; 5; 14; 13; 13; 7; 5;
   15; 5; 8; 11; 14; 14; 6; 14; 6; 9; 12; 9; 12; 5; 15; 8;
   8; 5; 12; 9; 12; 5; 14; 6; 8; 13; 6; 5; 15; 13; 11; 11].

Definition f_ (j : nat) : Z → Z → Z → Z :=
  nth (j / 16)%nat
    [λ x y z, Z.lxor (Z.lxor x y) z; λ x y z, Z.lor (Z.land x y) (Z.land (not32 x) z); λ x y z, Z.lxor (Z.lor x (not32 y)) z;
     λ x y z, Z.lor (Z.land x z) (Z.land y (not32 z)); λ x y z, Z.lxor x (Z.lor y (not32 z))] (λ _ _ _, 0).
Definition K_left (j : nat) : Z := nth (j / 16)%nat [0; 0x5a827999; 0x6ed9eba1; 0x8f1bbcdc; 0xa953fd4e] 0.
Definition K_right (j : nat) : Z := nth (j / 16)%nat [0x50a28be6; 0x5c4dd124; 0x6d703ef3; 0x7a6d76e9; 0] 0.

(** A step on the variables [A], [B], [C], [D], [E]. *)
Definition ref_step (f : Z → Z → Z → Z) (K x s : Z) (v : Z * Z * Z * Z * Z) : Z * Z * Z * Z * Z :=
  let '(A, B, C, D, E) := v in
  let T := wrap 32 (ROL (wrap 32 (A + f B C D + x + K)) s + E) in
  (E, T, B, ROL C 10, D).
Definition ref_left (X : list Z) (v : Z * Z * Z * Z * Z) (j : nat) :=
  ref_step (f_ j) (K_left j) (nth (nth j word_left 0%nat) X 0) (nth j shift_left 0) v.
Definition ref_right (X : list Z) (v : Z * Z * Z * Z * Z) (j : nat) :=
  ref_step (f_ (79 - j)) (K_right j) (nth (nth j word_right 0%nat) X 0) (nth j shift_right 0) v.
Definition ref_compress (h : Z * Z * Z * Z * Z) (X : list Z) : Z * Z * Z * Z * Z :=
  let '(h0, h1, h2, h3, h4) := h in
  let '(A, B, C, D, E) := fold_left (ref_left X) (seq 0 80) h in
  let '(A', B', C', D', E') := fold_left (ref_right X) (seq 0 80) h in
  (wrap 32 (h1 + C + D'), wrap 32 (h2 + D + E'), wrap 32 (h3 + E + A'), wrap 32 (h4 + A + B'), wrap 32 (h0 + B + C')).

(** Words are little-endian; the message is padded to whole blocks of 64 bytes. *)
Fixpoint words_of (n : nat) (l : list Z) : list Z :=
  match n with O => [] | S n => le_value (take 4 l) :: words_of n (drop 4 l) end.
Definition padded (msg : list Z) : list Z :=
  let len := Z.of_nat (length msg) in
  msg ++ [0x80] ++ replicate (Z.to_nat ((55 - len) mod 64)) 0 ++ le_bytes 8 (8 * len).
Fixpoint blocks (n : nat) (l : list Z) : list (list Z) :=
  match n with O => [] | S n => take 64 l :: blocks n (drop 64 l) end.
Definition RIPEMD160 (msg : list Z) : list Z :=
  let l := padded msg in
  let '(h0, h1, h2, h3, h4) := fold_left (λ h b, ref_compress h (words_of 16 b)) (blocks (length l / 64) l)
    (0x67452301, 0xefcdab89, 0x98badcfe, 0x10325476, 0xc3d2e1f0) in
  concat (map (le_bytes 4) [h0; h1; h2; h3; h4]).

Example ripemd160_abc : ripemd160 [97; 98; 99] = be_bytes 20 0x8eb208f7e05d987a9b044a8e98c6b087f15a0bfc.
Proof. vm_compute. reflexivity. Qed.
Example ripemd160_ref_abc : RIPEMD160 [97; 98; 99] = be_bytes 20 0x8eb208f7e05d987a9b044a8e98c6b087f15a0bfc.
Proof. vm_compute. reflexivity. Qed.

(** ** The steps *)

(** The registers seen from the one that comes first. *)
Definition seen (first : nat) (regs : list Z) : Z * Z * Z * Z * Z :=
  let r i := nth ((first + i) mod 5)%nat regs 0 in (r 0%nat, r 1%nat, r 2%nat, r 3%nat, r 4%nat).
Definition first_at (j : nat) : nat := ((4 * j) mod 5)%nat.
Definition line_at (k : nat → Macro) (w : list nat) (s : list Z) (j : nat) : Line :=
  (k j, nth (first_at j) [AA; BB; CC; DD; EE] AA, nth j w 0%nat, nth j s 0).

Definition left_macro (j : nat) : Macro := nth (j / 16)%nat [FF; GG; HH; II; JJ] FF.
Definition right_macro (j : nat) : Macro := nth (j / 16)%nat [JJJ; III; HHH; GGG; FFF] FF.
Lemma left_lines_eq : left_lines = map (line_at left_macro word_left shift_left) (seq 0 80).
Proof. reflexivity. Qed.
Lemma right_lines_eq : right_lines = map (line_at right_macro word_right shift_right) (seq 0 80).
Proof. reflexivity. Qed.

Lemma step_length X regs l : length (step X regs l) = length regs.
Proof. destruct l as [[[k f] x] s]. unfold step. by rewrite !length_insert. Qed.
Lemma list5 (l : list Z) : length l = 5%nat → ∃ a b c d e, l = [a; b; c; d; e].
Proof. intros H. do 5 (destruct l as [|? l]; [done|]). destruct l; [|done]. repeat eexists. Qed.

(** A line of the code is a step of the definition and a rotation. *)
Lemma step_seen k r x s X regs : length regs = 5%nat →
  seen ((reg r + 4) mod 5)%nat (step X regs (k, r, x, s)) = ref_step (macro_f k) (macro_k k) (nth x X 0) s (seen (reg r) regs).
Proof.
  intros (a & b & c & d & e & ->)%list5.
  assert (Hs : ∀ A f y, A + (f + y + macro_k k) = A + f + y + macro_k k) by (intros; lia).
  destruct r; unfold step, seen, ref_step; cbn [reg Nat.add Nat.modulo Nat.divmod Nat.sub snd nth]; rewrite Hs; reflexivity.
Qed.
Lemma first_next j : first_at (S j) = ((first_at j + 4) mod 5)%nat.
Proof. unfold first_at. rewrite Nat.Div0.add_mod_idemp_l. f_equal. lia. Qed.
Lemma reg_first j : reg (nth (first_at j) [AA; BB; CC; DD; EE] AA) = first_at j.
Proof.
  assert (H : (first_at j < 5)%nat) by (apply Nat.mod_upper_bound; lia). revert H. generalize (first_at j). intros f Hf.
  do 5 (destruct f as [|f]; [done|]). lia.
Qed.
Lemma lines_seen k f K w s X n j regs : length regs = 5%nat →
  (∀ i, (i < j + n)%nat → macro_f (k i) = f i ∧ macro_k (k i) = K i) →
  seen (first_at (j + n)) (fold_left (step X) (map (line_at k w s) (seq j n)) regs) =
  fold_left (λ v i, ref_step (f i) (K i) (nth (nth i w 0%nat) X 0) (nth i s 0) v) (seq j n) (seen (first_at j) regs).
Proof.
  revert j regs. induction n as [|n IH]; intros j regs Hl Hk; [by rewrite Nat.add_0_r|].
  cbn [seq map fold_left]. destruct (Hk j) as [Hf HK]; [lia|]. replace (j + S n)%nat with (S j + n)%nat by lia.
  rewrite IH; [|by rewrite step_length|intros i Hi; apply Hk; lia]. f_equal. rewrite first_next. unfold line_at.
  pose proof (step_seen (k j) (nth (first_at j) [AA; BB; CC; DD; EE] AA) (nth j w 0%nat) (nth j s 0) X regs Hl) as Hs.
  by rewrite reg_first, Hf, HK in Hs.
Qed.
Lemma seen_zero regs : length regs = 5%nat → ∃ a b c d e, regs = [a; b; c; d; e] ∧ seen 0 regs = (a, b, c, d, e).
Proof. intros (a & b & c & d & e & ->)%list5. by exists a, b, c, d, e. Qed.

Definition listed (h : Z * Z * Z * Z * Z) : list Z := let '(a, b, c, d, e) := h in [a; b; c; d; e].
Lemma fold_step_length X ls regs : length (fold_left (step X) ls regs) = length regs.
Proof. revert regs. induction ls as [|l ls IH]; intros regs; [done|]. cbn [fold_left]. by rewrite IH, step_length. Qed.

(** A whole line of eighty steps, from the registers to the registers. *)
Lemma run_lines X ls k f K w s h : ls = map (line_at k w s) (seq 0 80) →
  (∀ i, (i < 80)%nat → macro_f (k i) = f i ∧ macro_k (k i) = K i) →
  fold_left (step X) ls (listed h) =
  listed (fold_left (λ v i, ref_step (f i) (K i) (nth (nth i w 0%nat) X 0) (nth i s 0) v) (seq 0 80) h).
Proof.
  intros -> Hk. assert (Hl : length (listed h) = 5%nat) by (by destruct h as [[[[? ?] ?] ?] ?]).
  pose proof (lines_seen k f K w s X 80 0 (listed h) Hl Hk) as H.
  destruct (seen_zero (fold_left (step X) (map (line_at k w s) (seq 0 80)) (listed h))) as (a & b & c & d & e & E & Hs);
    [by rewrite fold_step_length|].
  change (first_at (0 + 80)) with 0%nat in H. change (first_at 0) with 0%nat in H. rewrite Hs in H.
  assert (H0 : seen 0 (listed h) = h) by (by destruct h as [[[[? ?] ?] ?] ?]). rewrite H0 in H. rewrite E, <- H. done.
Qed.
Lemma left_run X h : fold_left (step X) left_lines (listed h) = listed (fold_left (ref_left X) (seq 0 80) h).
Proof.
  apply (run_lines X _ left_macro f_ K_left word_left shift_left h left_lines_eq). intros i Hi.
  do 80 (destruct i as [|i]; [split; reflexivity|]). lia.
Qed.
Lemma right_run X h : fold_left (step X) right_lines (listed h) = listed (fold_left (ref_right X) (seq 0 80) h).
Proof.
  apply (run_lines X _ right_macro (λ i, f_ (79 - i)) K_right word_right shift_right h right_lines_eq). intros i Hi.
  do 80 (destruct i as [|i]; [split; reflexivity|]). lia.
Qed.
Lemma compress_ref X h : compress (listed h) X = listed (ref_compress h X).
Proof.
  unfold compress. rewrite left_run, right_run. unfold ref_compress. destruct h as [[[[h0 h1] h2] h3] h4].
  destruct (fold_left (ref_left X) _ _) as [[[[A B] C] D] E], (fold_left (ref_right X) _ _) as [[[[A' B'] C'] D'] E'].
  cbn [listed reg nth]. f_equal. unfold wrap. rewrite Zplus_mod_idemp_r. f_equal. lia.
Qed.

(** ** Words and bytes *)

Lemma le_value_cons b l : le_value (b :: l) = b + 256 * le_value l.
Proof. done. Qed.
Lemma le_value_nil : le_value [] = 0.
Proof. done. Qed.
Lemma lor_shifted x y n : 0 <= n → 0 <= x < 2 ^ n → Z.lor x (Z.shiftl y n) = x + y * 2 ^ n ∧ Z.lxor x (Z.shiftl y n) = x + y * 2 ^ n.
Proof.
  intros Hn Hx. assert (Hd : Z.land x (Z.shiftl y n) = 0).
  { destruct (decide (x = 0)) as [->|Hx0]; [apply Z.land_0_l|]. apply Z.bits_inj'. intros i Hi. rewrite Z.land_spec, Z.bits_0. destruct (Z.ltb_spec i n).
    - rewrite Z.shiftl_spec_low by lia. apply andb_false_r.
    - rewrite (Z.bits_above_log2 x i); [done|lia|].
      apply Z.log2_lt_pow2; [lia|]. eapply Z.lt_le_trans; [apply Hx|]. apply Z.pow_le_mono_r; lia. }
  rewrite <- Z.lxor_lor by done. rewrite <- Z.add_nocarry_lxor by done. rewrite Z.shiftl_mul_pow2 by lia. done.
Qed.

Lemma read_chunk_words n msg : Forall is_byte msg → (4 * n <= length msg)%nat → read_chunk n msg = words_of n msg.
Proof.
  revert msg. induction n as [|n IH]; intros msg Hb Hn; [done|]. cbn [read_chunk words_of].
  destruct msg as [|b0 [|b1 [|b2 [|b3 msg]]]]; try (cbn in Hn; lia). cbn [nth drop take]. rewrite drop_0, take_0.
  do 4 (apply Forall_cons in Hb as [? Hb]). unfold is_byte in *. cbn [length] in Hn. rewrite IH by (done || lia). f_equal.
  rewrite !le_value_cons, le_value_nil.
  destruct (lor_shifted b0 b1 8) as [-> _]; [lia|lia|]. destruct (lor_shifted (b0 + b1 * 2 ^ 8) b2 16) as [-> _]; [lia|lia|].
  destruct (lor_shifted (b0 + b1 * 2 ^ 8 + b2 * 2 ^ 16) b3 24) as [-> _]; [lia|lia|]. lia.
Qed.
Lemma words_of_length n l : length (words_of n l) = n.
Proof. revert l. induction n as [|n IH]; intros l; [done|]. cbn. by rewrite IH. Qed.
Lemma words_of_app n m l l' : length l = (4 * n)%nat → words_of (n + m) (l ++ l') = words_of n l ++ words_of m l'.
Proof.
  revert l. induction n as [|n IH]; intros l Hl; [destruct l; done|]. cbn [words_of Nat.add app].
  rewrite take_app_le, drop_app_le by lia. f_equal. apply IH. rewrite length_drop. lia.
Qed.

(** A byte is added behind the ones a chunk already holds. *)
Lemma xor_byte_next i b w chunk : 4 <= i → xor_byte i b (w :: chunk) = w :: xor_byte (i - 4) b chunk.
Proof.
  intros Hi. unfold xor_byte. assert (E1 : Z.shiftr i 2 = Z.shiftr (i - 4) 2 + 1) by (rewrite !Z.shiftr_div_pow2 by lia; rewrite <- Z.div_add by lia; f_equal; lia).
  assert (E2 : Z.land i 3 = Z.land (i - 4) 3) by (change 3 with (Z.ones 2); rewrite !Z.land_ones by lia; rewrite <- (Z.mod_add (i - 4) 1 (2 ^ 2)) by lia; f_equal; lia).
  assert (0 <= Z.shiftr (i - 4) 2) by (apply Z.shiftr_nonneg; lia).
  rewrite E1, E2. replace (Z.to_nat (Z.shiftr (i - 4) 2 + 1)) with (S (Z.to_nat (Z.shiftr (i - 4) 2))) by lia. done.
Qed.

Lemma replicate_zeros_split a b : replicate (a + b) 0 = replicate a 0 ++ replicate b (0 : Z).
Proof. apply replicate_add. Qed.
Lemma le_value_app l l' : le_value (l ++ l') = le_value l + 2 ^ (8 * Z.of_nat (length l)) * le_value l'.
Proof.
  induction l as [|b l IH]; [cbn [app length]; rewrite le_value_nil; lia|]. cbn [app length]. rewrite !le_value_cons, IH.
  replace (8 * Z.of_nat (S (length l))) with (8 + 8 * Z.of_nat (length l)) by lia. rewrite Z.pow_add_r by lia. lia.
Qed.
Lemma le_value_zeros n : le_value (replicate n 0) = 0.
Proof. induction n as [|n IH]; [done|]. cbn [replicate]. rewrite le_value_cons, IH. done. Qed.
Lemma le_value_range l : Forall is_byte l → 0 <= le_value l < 2 ^ (8 * Z.of_nat (length l)).
Proof.
  induction 1 as [|b l Hb _ IH]; [done|]. rewrite le_value_cons. cbn [length]. unfold is_byte in Hb.
  replace (8 * Z.of_nat (S (length l))) with (8 + 8 * Z.of_nat (length l)) by lia. rewrite Z.pow_add_r by lia. lia.
Qed.
(** The first word of a chunk with less than four bytes in it. *)
Lemma word_xor l b z : Forall is_byte l →
  Z.lxor (le_value (l ++ replicate (S z) 0)) (Z.shiftl b (8 * Z.of_nat (length l))) = le_value (l ++ b :: replicate z 0).
Proof.
  intros Hl. rewrite !le_value_app, le_value_cons, !le_value_zeros, Z.mul_0_r, Z.add_0_r.
  destruct (lor_shifted (le_value l) b (8 * Z.of_nat (length l))) as [_ ->]; [lia|by apply le_value_range|]. lia.
Qed.
Lemma xor_byte_first l b n : Forall is_byte l → (length l < 4)%nat →
  xor_byte (Z.of_nat (length l)) b (words_of (S n) (l ++ replicate (4 - length l) 0 ++ replicate (4 * n) 0)) =
  words_of (S n) (l ++ b :: replicate (3 - length l) 0 ++ replicate (4 * n) 0).
Proof.
  intros Hb Hl. cbn [words_of].
  assert (E : ∀ l1 l2 : list Z, length l1 = 4%nat → take 4 (l1 ++ l2) = l1 ∧ drop 4 (l1 ++ l2) = l2)
    by (intros l1 l2 H1; by rewrite take_app_length', drop_app_length').
  destruct (E (l ++ replicate (4 - length l) 0) (replicate (4 * n) 0)) as [E1 E2]; [rewrite length_app, length_replicate; lia|].
  destruct (E (l ++ b :: replicate (3 - length l) 0) (replicate (4 * n) 0)) as [E3 E4];
    [rewrite length_app; cbn [length]; rewrite length_replicate; lia|].
  rewrite <- !(assoc_L (++)) in E1, E2, E3, E4. cbn [app] in E3, E4. rewrite E1, E2, E3, E4. unfold xor_byte.
  assert (Hi : Z.to_nat (Z.shiftr (Z.of_nat (length l)) 2) = 0%nat ∧
    Z.shiftl (Z.land (Z.of_nat (length l)) 3) 3 = 8 * Z.of_nat (length l)).
  { revert Hl. generalize (length l). intros q Hq. do 4 (destruct q as [|q]; [done|]). lia. }
  destruct Hi as [-> ->]. cbn [nth]. replace (4 - length l)%nat with (S (3 - length l)) by lia. rewrite word_xor by done. done.
Qed.
Lemma xor_byte_put n l b z : Forall is_byte l → (length l + S z = 4 * n)%nat →
  xor_byte (Z.of_nat (length l)) b (words_of n (l ++ replicate (S z) 0)) = words_of n (l ++ b :: replicate z 0).
Proof.
  revert l. induction n as [|n IH]; intros l Hb Hl; [lia|]. destruct (decide (length l < 4)%nat) as [Hs|Hs].
  - replace (S z) with ((4 - length l) + 4 * n)%nat by lia. replace z with ((3 - length l) + 4 * n)%nat by lia.
    rewrite !replicate_zeros_split. by apply xor_byte_first.
  - destruct l as [|b0 [|b1 [|b2 [|b3 l]]]]; try (cbn in Hs; lia). cbn [app words_of]. rewrite xor_byte_next by (cbn; lia).
    cbn [take drop]. rewrite !drop_0, !take_0. f_equal. cbn [length] in Hl. do 4 (apply Forall_cons in Hb as [? Hb]). rewrite <- IH by (done || lia). f_equal. cbn [length]. lia.
Qed.
Lemma xor_bytes_run tail l z : Forall is_byte (l ++ tail) → (length l + length tail + z = 64)%nat →
  xor_bytes (Z.of_nat (length l)) tail (words_of 16 (l ++ replicate (length tail + z) 0)) = words_of 16 (l ++ tail ++ replicate z 0).
Proof.
  revert l. induction tail as [|b tail IH]; intros l Hb Hl; [done|]. cbn [xor_bytes length Nat.add] in *.
  apply Forall_app in Hb as [Hb1 [Hb Hb2]%Forall_cons]. rewrite (xor_byte_put 16 l b (length tail + z)) by (done || lia).
  specialize (IH (l ++ [b])). rewrite length_app in IH. cbn [length] in IH.
  replace (Z.of_nat (length l + 1)) with (Z.of_nat (length l) + 1) in IH by lia. rewrite <- !(assoc_L (++)) in IH. cbn [app] in IH.
  apply IH; [|lia]. apply Forall_app. split; [done|by constructor].
Qed.

(** ** The padded message *)

Lemma full_chunks_run n msg h : Forall is_byte msg → (64 * n <= length msg)%nat →
  full_chunks n msg (listed h) = listed (fold_left (λ h b, ref_compress h (words_of 16 b)) (blocks n msg) h).
Proof.
  revert msg h. induction n as [|n IH]; intros msg h Hb Hn; [done|]. cbn [full_chunks blocks fold_left].
  assert (E : read_chunk 16 msg = words_of 16 (take 64 msg)).
  { rewrite <- (take_drop 64 msg) at 1. rewrite read_chunk_words by (rewrite ?take_drop; done || lia).
    rewrite (words_of_app 16 0) by (rewrite length_take; lia). apply app_nil_r. }
  rewrite E, compress_ref. apply IH; [by apply Forall_drop|rewrite length_drop; lia].
Qed.
Lemma blocks_app n k l l' : length l = (64 * n)%nat → blocks (n + k) (l ++ l') = blocks n l ++ blocks k l'.
Proof.
  revert l. induction n as [|n IH]; intros l Hl; [by destruct l|]. cbn [blocks Nat.add app].
  rewrite take_app_le, drop_app_le by lia. f_equal. apply IH. rewrite length_drop. lia.
Qed.
Lemma blocks_take n l : (64 * n <= length l)%nat → blocks n (take (64 * n) l) = blocks n l.
Proof.
  intros Hn. rewrite <- (take_drop (64 * n) l) at 2. pose proof (blocks_app n 0 (take (64 * n) l) (drop (64 * n) l)) as H.
  rewrite Nat.add_0_r, app_nil_r in H. rewrite H; [done|rewrite length_take; lia].
Qed.

Lemma le_value_bytes n z : le_value (le_bytes n z) = z mod 2 ^ (8 * Z.of_nat n).
Proof.
  revert z. induction n as [|n IH]; intros z; [cbn; by rewrite Z.mod_1_r|]. cbn [le_bytes]. rewrite le_value_cons, IH.
  replace (8 * Z.of_nat (S n)) with (8 + 8 * Z.of_nat n) by lia. rewrite Z.pow_add_r by lia.
  rewrite Z.rem_mul_r by lia. change (2 ^ 8) with 256. lia.
Qed.
(** The two words of the length in bits. *)
Lemma length_words len : 0 <= len < 2 ^ 32 → words_of 2 (le_bytes 8 (8 * len)) = [wrap 32 (Z.shiftl len 3); Z.shiftr len 29].
Proof.
  intros Hlen. change (words_of 2 (le_bytes 8 (8 * len))) with
    [le_value (le_bytes 4 (8 * len)); le_value (le_bytes 4 (8 * len / 256 / 256 / 256 / 256))].
  rewrite !le_value_bytes, !Z.div_div by lia. change (8 * Z.of_nat 4) with 32. unfold wrap. rewrite Z.shiftl_mul_pow2, Z.shiftr_div_pow2 by lia.
  f_equal; [f_equal; lia|]. f_equal. rewrite Z.mod_small.
  - change (256 * (256 * (256 * 256))) with (8 * 2 ^ 29). rewrite <- Z.div_div by lia. f_equal. rewrite Z.mul_comm. apply Z.div_mul. lia.
  - split; [apply Z.div_pos; lia|]. apply Z.div_lt_upper_bound; lia.
Qed.
(** A chunk that ends in the length. *)
Lemma set_length l len : length l = 56%nat → 0 <= len < 2 ^ 32 →
  <[15%nat := Z.shiftr len 29]> (<[14%nat := wrap 32 (Z.shiftl len 3)]> (words_of 16 (l ++ replicate 8 0))) =
  words_of 16 (l ++ le_bytes 8 (8 * len)).
Proof.
  intros Hl Hlen. rewrite !(words_of_app 14 2) by lia. rewrite length_words by done.
  pose proof (words_of_length 14 l) as Hw. rewrite !insert_app_r_alt by lia. rewrite Hw. reflexivity.
Qed.

Lemma digest_bytes d : [Z.land d 255; Z.land (Z.shiftr d 8) 255; Z.land (Z.shiftr d 16) 255; Z.land (Z.shiftr d 24) 255] = le_bytes 4 d.
Proof.
  change 255 with (Z.ones 8). rewrite !Z.land_ones, !Z.shiftr_div_pow2 by lia. cbn [le_bytes]. rewrite !Z.div_div by lia. done.
Qed.

(** The mark behind the message is the byte 0x80. *)
Lemma mark_byte len c : let w := Z.to_nat (Z.land (Z.shiftr len 2) 15) in
  <[w := Z.lxor (nth w c 0) (Z.shiftl 1 (8 * Z.land len 3 + 7))]> c = xor_byte (Z.land len 63) 128 c.
Proof.
  cbv zeta. unfold xor_byte. rewrite Z.shiftr_land. change (Z.shiftr 63 2) with 15. rewrite <- Z.land_assoc. change (Z.land 63 3) with 3.
  assert (H0 : 0 <= Z.land len 3) by (apply Z.land_nonneg; lia).
  rewrite (Z.shiftl_mul_pow2 (Z.land len 3) 3) by lia. change 128 with (Z.shiftl 1 7). rewrite Z.shiftl_shiftl by lia.
  by replace (7 + Z.land len 3 * 2 ^ 3) with (8 * Z.land len 3 + 7) by lia.
Qed.
(** The bytes of the last chunk before the length is set. *)
Lemma last_chunk tail len : Forall is_byte tail → Z.of_nat (length tail) = Z.land len 63 →
  let w := Z.to_nat (Z.land (Z.shiftr len 2) 15) in let c := xor_bytes 0 tail (replicate 16 0) in
  <[w := Z.lxor (nth w c 0) (Z.shiftl 1 (8 * Z.land len 3 + 7))]> c = words_of 16 (tail ++ 0x80 :: replicate (63 - length tail) 0).
Proof.
  intros Hb Ht. cbv zeta. rewrite mark_byte, <- Ht.
  assert (Hlt : (length tail < 64)%nat).
  { change 63 with (Z.ones 6) in Ht. rewrite Z.land_ones in Ht by lia. pose proof (Z.mod_pos_bound len (2 ^ 6)). lia. }
  pose proof (xor_bytes_run tail [] (64 - length tail) Hb) as H. cbn [app length Nat.add] in H.
  replace (length tail + (64 - length tail))%nat with 64%nat in H by lia. change (Z.of_nat 0) with 0 in H.
  change (words_of 16 (replicate 64 0)) with (replicate 16 0) in H. rewrite H by done.
  replace (64 - length tail)%nat with (S (63 - length tail)) by lia. apply (xor_byte_put 16); [done|lia].
Qed.

Lemma compress_listed_set h len : 0 <= len < 2 ^ 32 →
  compress (listed h) (<[15%nat := Z.shiftr len 29]> (<[14%nat := wrap 32 (Z.shiftl len 3)]> (replicate 16 0))) =
  listed (ref_compress h (words_of 16 (replicate 56 0 ++ le_bytes 8 (8 * len)))).
Proof. intros Hlen. rewrite <- compress_ref, <- set_length by done. done. Qed.
(** The rest of the digest after the full chunks. *)
Lemma last_blocks tail len h : Forall is_byte tail → Z.of_nat (length tail) = Z.land len 63 → 0 <= len < 2 ^ 32 →
  let chunk := words_of 16 (tail ++ 0x80 :: replicate (63 - length tail) 0) in
  let '(digest, chunk) := if 55 <? Z.land len 63 then (compress (listed h) chunk, replicate 16 0) else (listed h, chunk) in
  let rest := tail ++ [0x80] ++ replicate (Z.to_nat ((55 - len) mod 64)) 0 ++ le_bytes 8 (8 * len) in
  compress digest (<[15%nat := Z.shiftr len 29]> (<[14%nat := wrap 32 (Z.shiftl len 3)]> chunk)) =
  listed (fold_left (λ h b, ref_compress h (words_of 16 b)) (blocks (length rest / 64) rest) h).
Proof.
  intros Hb Ht Hlen. cbv zeta. rewrite <- Ht. set (t := length tail) in *.
  assert (Hm : len mod 64 = Z.of_nat t) by (rewrite Ht; change 63 with (Z.ones 6); by rewrite Z.land_ones by lia).
  assert (Hlt : (t < 64)%nat) by (pose proof (Z.mod_pos_bound len 64); lia).
  assert (Hz : (55 - len) mod 64 = (55 - Z.of_nat t) mod 64) by (rewrite <- Hm; by rewrite Zminus_mod_idemp_r).
  rewrite Hz. destruct (Z.ltb_spec 55 (Z.of_nat t)) as [Hbig|Hsmall].
  - replace ((55 - Z.of_nat t) mod 64) with (Z.of_nat (63 - t + 56)) by (apply (Z.mod_unique_pos _ _ (-1)); lia).
    rewrite Nat2Z.id, replicate_zeros_split, compress_ref, compress_listed_set by done.
    set (a := tail ++ [0x80] ++ replicate (63 - t) 0).
    assert (Ha : length a = 64%nat) by (unfold a; rewrite !length_app, length_replicate; cbn [length]; lia).
    replace (tail ++ [128] ++ (replicate (63 - t) 0 ++ replicate 56 0) ++ le_bytes 8 (8 * len)) with
      (a ++ (replicate 56 0 ++ le_bytes 8 (8 * len))) by (unfold a; by rewrite <- !(assoc_L (++))).
    set (b := replicate 56 0 ++ le_bytes 8 (8 * len)).
    assert (Hbl : length b = 64%nat) by (unfold b; rewrite length_app, length_replicate; done).
    rewrite length_app, Ha, Hbl. change ((64 + 64) / 64)%nat with (1 + 1)%nat. rewrite (blocks_app 1 1) by lia.
    cbn [blocks app fold_left]. rewrite !take_ge by lia. done.
  - replace ((55 - Z.of_nat t) mod 64) with (Z.of_nat (55 - t)) by (apply (Z.mod_unique_pos _ _ 0); lia). rewrite Nat2Z.id.
    set (a := tail ++ [0x80] ++ replicate (55 - t) 0).
    assert (Ha : length a = 56%nat) by (unfold a; rewrite !length_app, length_replicate; cbn [length]; lia).
    replace (63 - t)%nat with (55 - t + 8)%nat by lia. rewrite replicate_zeros_split.
    replace (tail ++ 128 :: replicate (55 - t) 0 ++ replicate 8 0) with (a ++ replicate 8 0) by (unfold a; by rewrite <- !(assoc_L (++))).
    replace (tail ++ [128] ++ replicate (55 - t) 0 ++ le_bytes 8 (8 * len)) with (a ++ le_bytes 8 (8 * len))
      by (unfold a; by rewrite <- !(assoc_L (++))).
    rewrite set_length, compress_ref by done. set (b := a ++ le_bytes 8 (8 * len)).
    assert (Hbl : length b = 64%nat) by (unfold b; rewrite length_app, Ha; done).
    rewrite Hbl. change (64 / 64)%nat with 1%nat. cbn [blocks fold_left]. by rewrite take_ge by lia.
Qed.

(** C37: the code of precompiled contract 3 computes RIPEMD-160: the unrolled
    compression, with its rotation of registers, and the last chunks that are put
    together by exclusive or, give for every message of less than 2^32 bytes the
    value of the definition on the padded message. *)
Theorem ripemd160_correct (msg : list Z) : Forall is_byte msg → Z.of_nat (length msg) < 2 ^ 32 → ripemd160 msg = RIPEMD160 msg.
Proof.
  intros Hb Hmax. set (len := Z.of_nat (length msg)) in *. set (n := Z.to_nat (Z.shiftr len 6)).
  assert (Hdm : len = 64 * Z.of_nat n + Z.land len 63).
  { unfold n. change 63 with (Z.ones 6). rewrite Z.land_ones, Z.shiftr_div_pow2 by lia. change (2 ^ 6) with 64.
    rewrite Z2Nat.id by (apply Z.div_pos; lia). apply Z.div_mod. lia. }
  assert (Ht : 0 <= Z.land len 63 < 64).
  { change 63 with (Z.ones 6). rewrite Z.land_ones by lia. apply Z.mod_pos_bound. lia. }
  set (l := take (64 * n) msg). set (tail := drop (64 * n) msg).
  assert (Htail : Z.of_nat (length tail) = Z.land len 63) by (unfold tail; rewrite length_drop; lia).
  assert (Hl : length l = (64 * n)%nat) by (unfold l; rewrite length_take; lia).
  assert (Hbt : Forall is_byte tail) by (by apply Forall_drop).
  unfold ripemd160, RIPEMD160. fold len. rewrite (wrap_id 32 len) by (unfold in_range; lia). fold n.
  replace (take (Z.to_nat (Z.land len 63)) (drop (64 * n) msg)) with tail by (unfold tail; rewrite take_ge; [done|rewrite length_drop; lia]).
  change [0x67452301; 0xefcdab89; 0x98badcfe; 0x10325476; 0xc3d2e1f0] with
    (listed (0x67452301, 0xefcdab89, 0x98badcfe, 0x10325476, 0xc3d2e1f0)).
  rewrite (full_chunks_run n msg (0x67452301, 0xefcdab89, 0x98badcfe, 0x10325476, 0xc3d2e1f0)) by (done || lia).
  set (h := fold_left _ (blocks n msg) _). rewrite last_chunk by done.
  pose proof (last_blocks tail len h Hbt Htail ltac:(lia)) as Hlast. cbv zeta in Hlast.
  set (rest := tail ++ [0x80] ++ replicate (Z.to_nat ((55 - len) mod 64)) 0 ++ le_bytes 8 (8 * len)) in *.
  assert (Hp : padded msg = l ++ rest).
  { unfold padded, rest. fold len. rewrite (assoc_L (++) l tail). unfold l, tail. by rewrite take_drop. }
  assert (Hfold : fold_left (λ h b, ref_compress h (words_of 16 b)) (blocks (length (padded msg) / 64) (padded msg))
    (0x67452301, 0xefcdab89, 0x98badcfe, 0x10325476, 0xc3d2e1f0) =
    fold_left (λ h b, ref_compress h (words_of 16 b)) (blocks (length rest / 64) rest) h).
  { rewrite Hp, length_app, Hl, Nat.mul_comm, Nat.div_add_l by lia. rewrite (blocks_app n) by lia. rewrite fold_left_app.
    unfold h, l. by rewrite blocks_take by lia. }
  rewrite Hfold. destruct (if 55 <? Z.land len 63 then _ else _) as [digest chunk]. rewrite Hlast.
  destruct (fold_left _ _ h) as [[[[h0 h1] h2] h3] h4]. cbn [listed map]. by rewrite !digest_bytes.
Qed.

Lemma ripemd160_correct_witness : ripemd160 [109; 100] = RIPEMD160 [109; 100].
Proof. apply ripemd160_correct; [repeat constructor; by vm_compute|by vm_compute]. Defined.
