(* ===== verification/Hex.v ===== *)
(** * Hexadecimal strings

    Models class [Hex] of src/utils/hex.h and hex.cpp.  Strings are lists of
    characters; [s[i]] is the terminating zero at [i = size()] and has no
    defined meaning past it. *)

From Stdlib Require Import Ascii.
From S2P Require Import Prelude CheckedInt ExecutionContext Bytes SafeString Conv.

#[local] Open Scope nat_scope.

(** [s[i]] *)
Definition char_idx (s : list ascii) (i : nat) : outcome ascii :=
  match s !! i with
  | Some c => Ret c
  | None => if decide (i = length s) then Ret NUL else Throw undefined_behaviour
  end.

Record Hex := mkHex { hex_ : list ascii; strict_ : bool }.

Definition prefix0x : list ascii := ["0"%char; "x"%char].
Definition digits : list ascii := String.list_ascii_of_string "0123456789abcdef".
Definition hex_filter : list ascii := String.list_ascii_of_string "0123456789abcdefABCDEF".

(** [Hex::isValid] *)
Definition isValid (hex : list ascii) (strict : bool) : bool :=
  if strict then
    if negb (std_starts_with hex prefix0x) && negb (std_starts_with hex ["0"%char; "X"%char]) then false
    else (std_find_first_not_of hex hex_filter 2 =? npos)%Z
  else (std_find_first_not_of hex hex_filter 0 =? npos)%Z.

(** [if (ret[1] == 'X') ret[1] = 'x';] *)
Definition fix_prefix (ret : list ascii) : outcome (list ascii) :=
  c1 ← char_idx ret 1 ; Ret (if decide (c1 = "X"%char) then <[1 := "x"%char]> ret else ret).

(** [Hex::Hex(value, strict)] *)
Definition Hex_make (value : list ascii) (strict : bool) : outcome Hex :=
  c0 ← char_idx value 0 ;
  ret ← (if strict then
           if decide (c0 = "0"%char) then Ret value
           else c1 ← char_idx value 1 ;
                Ret (if negb (bool_decide (c1 = "x"%char)) || negb (bool_decide (c1 = "X"%char))
                     then prefix0x ++ value else value)
         else
           if decide (c0 = "0"%char)
           then c1 ← char_idx value 1 ;
                Ret (if bool_decide (c1 = "x"%char) || bool_decide (c1 = "X"%char) then drop 2 value else value)
           else Ret value) ;
  ret ← fix_prefix ret ;
  if isValid ret strict then Ret (mkHex ret strict)
  else Throw (DynamicException "Invalid Hex string at constructor").
(** [Hex(strict)] *)
Definition Hex_empty (strict : bool) : Hex := mkHex (if strict then prefix0x else []) strict.

Definition digit (d : Z) : ascii := nth (Z.to_nat d) digits NUL.
Definition byte_digits (b : Z) : list ascii := [digit (Z.land (Z.shiftr b 4) 15); digit (Z.land b 15)].

(** [Hex::fromBytes]: the string is first filled with zeros and its first two
    characters replaced by the prefix, which the digits overwrite unless the
    string is strict. *)
Definition fromBytes_text (bytes : list Z) (strict : bool) : list ascii :=
  let off := if strict then 2 else 0 in
  let filled := prefix0x ++ drop 2 (replicate (length bytes * 2 + off) "0"%char) in
  let ds := concat (map byte_digits bytes) in
  take off filled ++ ds ++ drop (off + length ds) filled.
Definition hex_fromBytes (bytes : list Z) (strict : bool) : outcome Hex :=
  Hex_make (fromBytes_text bytes strict) strict.
(** [Hex::fromUTF8] *)
Definition hex_fromUTF8 (str : list ascii) (strict : bool) : outcome Hex :=
  Hex_make ((if strict then prefix0x else []) ++
    concat (map (λ c, byte_digits (Z.of_N (N_of_ascii c))) str)) strict.
(** [ss << std::hex << value]: lower-case digits without leading zeros. *)
Fixpoint hex_digits (n : nat) (z : Z) : list ascii :=
  match n with O => [] | S n => hex_digits n (z / 16)%Z ++ [digit (z mod 16)%Z] end.
Definition hex_length (z : Z) : nat := S (Z.to_nat (Z.log2 z / 4)).
Definition hex_fromUint (value : Z) (strict : bool) : outcome Hex :=
  Hex_make (hex_digits (hex_length value) value) strict.

(** [Hex::toInt] *)
Definition toInt (c : ascii) : Z :=
  let v := Z.of_N (N_of_ascii c) in
  (if (48 <=? v) && (v <=? 57) then v - 48
   else if (97 <=? v) && (v <=? 102) then v - 97 + 10
   else if (65 <=? v) && (v <=? 70) then v - 65 + 10
   else -1)%Z.

(** The loop that reads two characters at a time, from [i] on. *)
Fixpoint read_pairs (fuel : nat) (s : list ascii) (i : nat) : outcome (list Z) :=
  match fuel with
  | O => Ret []
  | S fuel =>
      if decide (i < length s) then
        h ← char_idx s i ; l ← char_idx s (i + 1) ;
        rest ← read_pairs fuel s (i + 2) ;
        Ret (wrap 8 (toInt h * 16 + toInt l)%Z :: rest)
      else Ret []
  end.
(** An odd length: the first digit stands alone. *)
Definition read_hex (s : list ascii) (i : nat) : outcome (list Z) :=
  if Nat.odd (length s) then
    h ← char_idx s i ; rest ← read_pairs (length s) s (i + 1) ; Ret (wrap 8 (toInt h) :: rest)
  else read_pairs (length s) s i.

(** [Hex::toBytes] and [Hex::bytes] *)
Definition hex_toBytes (hex : list ascii) : outcome (list Z) :=
  s ← fix_prefix hex ;
  let i := if std_starts_with s prefix0x then 2 else 0 in
  if (std_find_first_not_of s hex_filter (Z.of_nat i) =? npos)%Z then read_hex s i
  else Throw (DynamicException "toBytes: Invalid hex string").
Definition hex_bytes (h : Hex) : outcome (list Z) := read_hex (hex_ h) (if strict_ h then 2 else 0).

(** [Hex::getUint] *)
Definition getUint {BB : BoostBits} (h : Hex) : outcome Z :=
  b ← hex_toBytes (hex_ h) ;
  if decide (32 < length b) then Throw (length_error "Hex too big for uint conversion")
  else Ret (import_bits b).

(** [while (retHex[i] == '0') retHex.erase(i, 1);] with [i = 2]. *)
Fixpoint erase_zeros (s : list ascii) : list ascii :=
  match s with c :: s' => if decide (c = "0"%char) then erase_zeros s' else s | [] => [] end.
(** [Hex::forRPC] *)
Definition forRPC (h : Hex) : outcome (list ascii) :=
  r ← fix_prefix (hex_ h) ;
  c0 ← char_idx r 0 ;
  r ← (if decide (c0 = "0"%char) then Ret r
       else c1 ← char_idx r 1 ; Ret (if decide (c1 = "x"%char) then r else prefix0x ++ r)) ;
  if decide (r = prefix0x) then Ret (prefix0x ++ ["0"%char])
  else if decide (length r < 2) then Throw undefined_behaviour
  else Ret (take 2 r ++ erase_zeros (drop 2 r)).

(** [Hex::operator+=] with a string and with another [Hex] *)
Definition hex_append (hex : list ascii) (h : Hex) : outcome Hex :=
  c0 ← char_idx hex 0 ;
  strict ← (if decide (c0 = "0"%char)
            then c1 ← char_idx hex 1 ; Ret (bool_decide (c1 = "x"%char) || bool_decide (c1 = "X"%char))
            else Ret false) ;
  if isValid hex strict then
    s ← fix_prefix (hex_ h ++ if strict then drop 2 hex else hex) ; Ret (mkHex s (strict_ h))
  else Throw (DynamicException "Invalid Hex concat operation").
Definition hex_append_hex (other h : Hex) : Hex :=
  mkHex (hex_ h ++ if strict_ other then drop 2 (hex_ other) else hex_ other) (strict_ h).

(** ** Lemmas *)

Lemma digit_facts d : (0 <= d < 16)%Z →
  digit d ∈ hex_filter ∧ digit d ≠ "x"%char ∧ digit d ≠ "X"%char ∧ toInt (digit d) = d ∧
  (digit d = "0"%char ↔ d = 0%Z).
Proof.
  intros Hd.
  assert (Hall : forallb (λ k, bool_decide (digit (Z.of_nat k) ∈ hex_filter ∧ digit (Z.of_nat k) ≠ "x"%char ∧
    digit (Z.of_nat k) ≠ "X"%char ∧ toInt (digit (Z.of_nat k)) = Z.of_nat k ∧
    (digit (Z.of_nat k) = "0"%char → Z.of_nat k = 0%Z) ∧ (Z.of_nat k = 0%Z → digit (Z.of_nat k) = "0"%char)))
    (seq 0 16) = true) by (vm_compute; reflexivity).
  rewrite forallb_forall in Hall. specialize (Hall (Z.to_nat d)). rewrite Z2Nat.id in Hall by lia.
  assert (Hin : List.In (Z.to_nat d) (seq 0 16)) by (apply in_seq; lia).
  apply Hall, bool_decide_eq_true in Hin. tauto.
Qed.

Lemma nibbles b : is_byte b →
  (0 <= Z.land (Z.shiftr b 4) 15 < 16 ∧ 0 <= Z.land b 15 < 16 ∧
   Z.land (Z.shiftr b 4) 15 * 16 + Z.land b 15 = b)%Z.
Proof.
  unfold is_byte. intros Hb. change 15%Z with (Z.ones 4). rewrite !Z.land_ones, Z.shiftr_div_pow2 by lia.
  change (2 ^ 4)%Z with 16%Z. pose proof (Z.mod_pos_bound b 16). pose proof (Z.mod_pos_bound (b / 16) 16).
  pose proof (Z.div_mod b 16). assert (0 <= b / 16 < 16)%Z.
  { split; [apply Z.div_pos; lia|]. apply Z.div_lt_upper_bound; lia. }
  rewrite (Z.mod_small (b / 16)) by lia. lia.
Qed.

(** A string of digits only. *)
Definition all_digits (s : list ascii) : Prop := Forall (λ c, ∃ d, (0 <= d < 16)%Z ∧ c = digit d) s.

Lemma byte_digits_all b : is_byte b → all_digits (byte_digits b).
Proof.
  intros Hb. destruct (nibbles b Hb) as (H1 & H2 & _).
  constructor; [|constructor; [|constructor]]; eexists; (split; [|reflexivity]); done.
Qed.

Lemma text_digits bytes : Forall is_byte bytes → all_digits (concat (map byte_digits bytes)).
Proof.
  induction 1 as [|b bytes Hb _ IH]; cbn [map concat]; [constructor|].
  apply Forall_app. split; [by apply byte_digits_all|done].
Qed.

Lemma text_length bytes : length (concat (map byte_digits bytes)) = length bytes * 2.
Proof. induction bytes as [|b bytes IH]; cbn [map concat]; [done|]. rewrite length_app, IH. cbn. lia. Qed.

Lemma valid_from s (off : nat) : all_digits (drop off s) → (Z.of_nat (length s) < npos)%Z →
  (std_find_first_not_of s hex_filter (Z.of_nat off) =? npos)%Z = true.
Proof.
  intros Hs Hlen. unfold std_find_first_not_of.
  destruct (upwards_search (none_of s hex_filter) (char_not_in s hex_filter) (Z.of_nat off) (length s))
    as [[-> _]|(i & Hr & (c & Hc & Hno) & Hi & _)]; [|by apply Z.eqb_eq|].
  - intros i. unfold char_not_in, none_of. rewrite <- lookup_lt_is_Some. unfold is_Some.
    destruct (s !! i); [|naive_solver]. rewrite bool_decide_eq_true. naive_solver.
  - exfalso. apply Hno. unfold all_digits in Hs. rewrite Forall_lookup in Hs.
    destruct (Hs (i - off) c) as (d & Hd & ->); [|by apply digit_facts].
    rewrite lookup_drop. by replace (off + (i - off)) with i by lia.
Qed.

Lemma fromBytes_text_eq bytes strict : bytes ≠ [] ∨ strict = true →
  fromBytes_text bytes strict = (if strict then prefix0x else []) ++ concat (map byte_digits bytes).
Proof.
  intros Hb. unfold fromBytes_text. set (ds := concat _).
  assert (Hl : length ds = length bytes * 2) by apply text_length.
  rewrite (drop_ge _ (_ + length ds)).
  - rewrite app_nil_r. destruct strict; [done|]. done.
  - rewrite length_app, length_drop, length_replicate, Hl. cbn [prefix0x length].
    destruct Hb as [Hb|Hs]; [destruct bytes; [done|]; cbn [length]; destruct strict; lia|]. rewrite Hs. lia.
Qed.

(** The two shapes of hexadecimal text the constructor accepts unchanged. *)
Lemma Hex_make_text ds strict : all_digits ds → (Z.of_nat (length ds) < npos - 2)%Z →
  (strict = false → 2 <= length ds) →
  let s := (if strict then prefix0x else []) ++ ds in
  Hex_make s strict = Ret (mkHex s strict) ∧ fix_prefix s = Ret s ∧
  std_starts_with s prefix0x = strict.
Proof.
  intros Hd Hlen Hns s. destruct strict; subst s; cbn [app].
  - assert (Hf : fix_prefix (prefix0x ++ ds) = Ret (prefix0x ++ ds)) by done.
    split_and!; [|done|done]. unfold Hex_make. cbn [mbind outcome_bind char_idx prefix0x app lookup list_lookup].
    rewrite decide_True by done. cbn [mbind outcome_bind]. change ("0"%char :: "x"%char :: ds) with (prefix0x ++ ds).
    rewrite Hf. cbn [mbind outcome_bind]. unfold isValid.
    replace (std_starts_with (prefix0x ++ ds) prefix0x) with true by done. cbn [negb andb].
    change 2%Z with (Z.of_nat 2). rewrite valid_from; [done|done|]. cbn [prefix0x app length]. lia.
  - destruct ds as [|c0 [|c1 ds]]; [cbn in Hns; lia..|]. pose proof Hd as Hd'.
    apply Forall_cons in Hd as [(d0 & H0 & ->) Hd]. apply Forall_cons in Hd as [(d1 & H1 & ->) Hd].
    destruct (digit_facts d1 H1) as (_ & Hx & HX & _).
    assert (Hf : fix_prefix (digit d0 :: digit d1 :: ds) = Ret (digit d0 :: digit d1 :: ds)).
    { unfold fix_prefix. cbn [char_idx lookup list_lookup mbind outcome_bind]. by rewrite decide_False. }
    split_and!; [|done|].
    + unfold Hex_make. cbn [mbind outcome_bind char_idx lookup list_lookup].
      rewrite (bool_decide_eq_false_2 _ Hx), (bool_decide_eq_false_2 _ HX). cbn [orb].
      assert (Hret : (if decide (digit d0 = "0"%char) then Ret (digit d0 :: digit d1 :: ds)
        else Ret (digit d0 :: digit d1 :: ds)) = Ret (digit d0 :: digit d1 :: ds)) by (by case_decide).
      rewrite Hret. cbn [mbind outcome_bind]. rewrite Hf. cbn [mbind outcome_bind]. unfold isValid.
      rewrite (valid_from _ 0); [done|done|lia].
    + unfold std_starts_with. apply bool_decide_eq_false. intros Heq.
      change ([digit d0; digit d1] = prefix0x) in Heq. injection Heq as _ Heq. done.
Qed.

(** Reading pairs of digits gives the bytes back. *)
Lemma read_pairs_text bytes pre fuel : Forall is_byte bytes → length bytes <= fuel →
  read_pairs fuel (pre ++ concat (map byte_digits bytes)) (length pre) = Ret bytes.
Proof.
  revert pre bytes. induction fuel as [|fuel IH]; intros pre bytes Hb Hf.
  { destruct bytes; [done|cbn in Hf; lia]. }
  cbn [read_pairs]. destruct bytes as [|b bytes].
  - cbn. by rewrite decide_False by (rewrite app_nil_r; lia).
  - apply Forall_cons in Hb as [Hb Hbs]. cbn [map concat].
    rewrite decide_True by (rewrite !length_app; cbn; lia).
    destruct (nibbles b Hb) as (H1 & H2 & Hsum).
    unfold char_idx. rewrite !(lookup_app_r pre) by lia.
    replace (length pre + 1 - length pre) with 1 by lia. rewrite Nat.sub_diag. cbn [byte_digits app lookup list_lookup mbind outcome_bind].
    specialize (IH (pre ++ byte_digits b) bytes Hbs). rewrite length_app in IH. cbn [byte_digits length] in IH.
    rewrite <- (assoc_L (++)) in IH. cbn [app byte_digits] in IH. rewrite IH by (cbn in Hf; lia).
    cbn [mbind outcome_bind]. do 2 f_equal.
    destruct (digit_facts _ H1) as (_ & _ & _ & -> & _). destruct (digit_facts _ H2) as (_ & _ & _ & -> & _).
    rewrite Hsum. apply wrap_id. exact Hb.
Qed.

Lemma read_hex_text bytes (strict : bool) : Forall is_byte bytes →
  read_hex ((if strict then prefix0x else []) ++ concat (map byte_digits bytes)) (if strict then 2 else 0) = Ret bytes.
Proof.
  intros Hb. unfold read_hex. set (pre := if strict then prefix0x else []).
  assert (Hodd : Nat.odd (length (pre ++ concat (map byte_digits bytes))) = false).
  { rewrite length_app, text_length. apply Bool.not_true_iff_false. rewrite Nat.odd_spec.
    intros [k Hk]. destruct strict; cbn in Hk; lia. }
  rewrite Hodd. replace (if strict then 2 else 0) with (length pre) by (by destruct strict).
  apply read_pairs_text; [done|]. rewrite length_app, text_length. lia.
Qed.

(** ** The properties of [Hex] *)

(** Bytes written as a hexadecimal string are read back: [fromBytes] accepts
    every byte string (a string without prefix must not be empty), and both
    [toBytes] on the text and [bytes] on the object return the bytes. *)
Theorem hex_roundtrip (bytes : list Z) (strict : bool) :
  Forall is_byte bytes → (Z.of_nat (length bytes) < 2 ^ 62)%Z → bytes ≠ [] ∨ strict = true →
  ∃ h, hex_fromBytes bytes strict = Ret h ∧ strict_ h = strict ∧
    length (hex_ h) = length bytes * 2 + (if strict then 2 else 0) ∧
    hex_toBytes (hex_ h) = Ret bytes ∧ hex_bytes h = Ret bytes.
Proof.
  intros Hb Hlen Hne. set (ds := concat (map byte_digits bytes)).
  assert (Hds : length ds = length bytes * 2) by apply text_length.
  destruct (Hex_make_text ds strict) as (Hm & Hf & Hs); [by apply text_digits|unfold npos; lia| |].
  { intros ->. destruct Hne as [Hne|]; [|done]. destruct bytes; [done|]. cbn [length] in Hds. lia. }
  eexists. unfold hex_fromBytes. rewrite fromBytes_text_eq by done. split; [exact Hm|].
  split_and!; [done| | |by apply read_hex_text].
  - cbn [hex_]. rewrite length_app, Hds. destruct strict; cbn; lia.
  - unfold hex_toBytes. cbn [hex_]. rewrite Hf. cbn [mbind outcome_bind]. rewrite Hs, valid_from.
    + by apply read_hex_text.
    + destruct strict; cbn [app drop prefix0x]; by apply text_digits.
    + rewrite length_app, Hds. unfold npos. destruct strict; cbn; lia.
Qed.

Lemma hex_roundtrip_witness :
  ∃ h, hex_fromBytes [0; 171; 255]%Z true = Ret h ∧ hex_toBytes (hex_ h) = Ret [0; 171; 255]%Z ∧
    hex_ h = String.list_ascii_of_string "0x00abff".
Proof.
  destruct (hex_roundtrip [0; 171; 255]%Z true) as (h & Hh & _ & _ & Ht & _).
  - unfold is_byte. repeat constructor; lia.
  - vm_compute. reflexivity.
  - by right.
  - exists h. split_and!; [done|done|]. vm_compute in Hh. injection Hh as <-. reflexivity.
Defined.

(** [erase_zeros] removes the leading zeros. *)
Lemma erase_zeros_replicate k s : erase_zeros (replicate k "0"%char ++ s) = erase_zeros s.
Proof. induction k; cbn; [done|]. by rewrite decide_True. Qed.

(** [forRPC] of a prefixed string writes the prefix and the digits without
    their leading zeros, and "0x0" for no digits at all; digits that are all
    zero, the number zero written in full, become the bare prefix "0x", which
    its documentation calls wrong. *)
Lemma forRPC_strips_zeros (k : nat) (ds : list ascii) :
  all_digits ds → head ds ≠ Some "0"%char →
  forRPC (mkHex (prefix0x ++ replicate k "0"%char ++ ds) true) =
    Ret (if decide (k = 0 ∧ ds = []) then prefix0x ++ ["0"%char] else prefix0x ++ ds).
Proof.
  intros Hds Hh. unfold forRPC. cbn [hex_].
  assert (Hf : fix_prefix (prefix0x ++ replicate k "0"%char ++ ds) = Ret (prefix0x ++ replicate k "0"%char ++ ds)) by done.
  rewrite Hf. cbn [mbind outcome_bind char_idx prefix0x app lookup list_lookup]. rewrite decide_True by done.
  cbn [mbind outcome_bind]. assert (He : erase_zeros ds = ds).
  { destruct ds as [|c ds]; [done|]. cbn. rewrite decide_False; [done|]. intros ->. done. }
  destruct (decide (k = 0 ∧ ds = [])) as [[-> ->]|Hne]; [done|].
  rewrite decide_False.
  - rewrite decide_False by (cbn; lia). unfold drop at 1. by rewrite erase_zeros_replicate, He.
  - intros [= Hr]. apply Hne. destruct k; [|done]. done.
Qed.

Example forRPC_zero_byte : forRPC (mkHex (String.list_ascii_of_string "0x00") true) = Ret prefix0x.
Proof. vm_compute. reflexivity. Qed.

(** The number zero cannot be written as a prefixed string: its only digit is
    taken for the start of a prefix. *)
Lemma fromUint_zero_strict : hex_fromUint 0 true = Throw (DynamicException "Invalid Hex string at constructor").
Proof. vm_compute. reflexivity. Qed.

(** ** Quantities of the JSON-RPC interface *)

Definition hex_value (ds : list ascii) : Z := foldl (λ acc c, acc * 16 + toInt c)%Z 0%Z ds.

Lemma hex_value_app a b : hex_value (a ++ b) = foldl (λ acc c, acc * 16 + toInt c)%Z (hex_value a) b.
Proof. unfold hex_value. apply foldl_app. Qed.

Lemma text_value bytes : Forall is_byte bytes → hex_value (concat (map byte_digits bytes)) = be_value bytes.
Proof.
  induction bytes as [|b bytes IH] using rev_ind; intros Hb; [done|].
  apply Forall_app in Hb as [Hb [H1 _]%Forall_cons].
  rewrite map_app, concat_app, hex_value_app, IH, be_value_snoc by done. cbn [map concat app byte_digits foldl].
  destruct (nibbles b H1) as (Hh & Hl & Hs).
  destruct (digit_facts _ Hh) as (_ & _ & _ & -> & _). destruct (digit_facts _ Hl) as (_ & _ & _ & -> & _). lia.
Qed.

Lemma split_zeros (s : list ascii) : ∃ k ds, s = replicate k "0"%char ++ ds ∧ head ds ≠ Some "0"%char.
Proof.
  induction s as [|c s (k & ds & -> & Hd)]; [by exists 0, []|].
  destruct (decide (c = "0"%char)) as [->|Hc].
  - by exists (S k), ds.
  - exists 0, (c :: replicate k "0"%char ++ ds). split; [done|]. cbn. congruence.
Qed.

Lemma zeros_value k ds : hex_value (replicate k "0"%char ++ ds) = hex_value ds.
Proof. induction k as [|k IH]; [done|]. exact IH. Qed.

(** [Hex::fromBytes(Utils::uintToBytes(n), true).forRPC()], the form in which
    the JSON-RPC interface writes every quantity, is canonical: the prefix and at
    least one digit, no leading zero unless the number is zero, and the digits
    read back as the number. *)
Theorem rpc_quantity_canonical (n : Z) :
  (0 <= n < 2 ^ 256)%Z →
  ∃ h ds, hex_fromBytes (uintToBytes n) true = Ret h ∧ forRPC h = Ret (prefix0x ++ ds) ∧
    ds ≠ [] ∧ (head ds = Some "0"%char → ds = ["0"%char]) ∧ hex_value ds = n ∧
    all_digits ds ∧ length ds <= 64.
Proof.
  intros Hn. set (bytes := uintToBytes n).
  assert (Hbe : bytes = be_bytes (bytesRequired n) n) by (apply uintToBytes_be; lia).
  assert (Hb : Forall is_byte bytes) by (rewrite Hbe; apply be_bytes_is_byte).
  destruct (bytesRequired_spec n) as [Hlt Hge]; [lia|].
  assert (Hval : be_value bytes = n).
  { rewrite Hbe. apply be_value_bytes. unfold in_range. rewrite Z.pow_mul_r by lia.
    change (2 ^ 8)%Z with 256%Z. lia. }
  assert (Hlen : length bytes <= 32).
  { rewrite Hbe, be_bytes_length. destruct (decide (n = 0%Z)) as [->|Hn0]; [vm_compute; lia|].
    specialize (Hge Hn0). destruct (decide (bytesRequired n <= 32)); [done|]. exfalso.
    pose proof (Z.pow_le_mono_r 256 32 (Z.of_nat (bytesRequired n) - 1)).
    change (256 ^ 32)%Z with (2 ^ 256)%Z in *. lia. }
  set (text := concat (map byte_digits bytes)).
  assert (Htl : length text = length bytes * 2) by apply text_length.
  destruct (Hex_make_text text true) as (Hm & _); [by apply text_digits|unfold npos; lia|done|].
  destruct (split_zeros text) as (k & ds & Htext & Hhead).
  assert (Hds : all_digits ds).
  { pose proof (text_digits bytes Hb) as Ht. fold text in Ht. rewrite Htext in Ht. by apply Forall_app in Ht as [_ ?]. }
  assert (Hdv : hex_value ds = n).
  { rewrite <- Hval, <- text_value by done. fold text. by rewrite Htext, zeros_value. }
  eexists. unfold hex_fromBytes. rewrite fromBytes_text_eq by auto. fold text. rewrite Hm, Htext.
  pose proof (forRPC_strips_zeros k ds Hds Hhead) as Hr.
  destruct (decide (k = 0 ∧ ds = [])) as [[-> ->]|Hne].
  - exists ["0"%char]. split_and!; [done|exact Hr|done|done|by rewrite <- Hdv| |cbn; lia].
    constructor; [by exists 0%Z|constructor].
  - assert (Hl : length ds <= 64) by (pose proof (f_equal length Htext) as Hl; rewrite length_app, Htl in Hl; lia).
    exists ds. split_and!; [done|exact Hr| |done|done|done|done]. intros ->. cbn in Hdv.
    assert (text = []) as Ht; [|rewrite Ht in Htext; destruct k; [naive_solver|done]].
    apply length_zero_iff_nil. rewrite Htl, Hbe, be_bytes_length, <- Hdv. done.
Qed.

Lemma rpc_quantity_canonical_witness :
  ∃ h ds, hex_fromBytes (uintToBytes 1024) true = Ret h ∧ forRPC h = Ret (prefix0x ++ ds) ∧
    hex_value ds = 1024%Z ∧ ds = String.list_ascii_of_string "400".
Proof.
  destruct (rpc_quantity_canonical 1024) as (h & ds & Hh & Hr & _ & _ & Hv & _); [lia|].
  exists h, ds. split_and!; [done|done|done|]. vm_compute in Hh. injection Hh as <-. vm_compute in Hr.
  by injection Hr as <-.
Defined.
