(* ===== verification/Json.v ===== *)
(** * The parameters of JSON-RPC

    Models how requests of the JSON-RPC interface are read:
    src/net/http/jsonrpc/parser.h and .cpp, variadicparser.h, blocktag.h and .cpp
    and the errors of error.h.  A JSON value is an inductive type (the text
    itself is parsed by a library); std::regex is a small matcher by derivatives,
    so that the patterns are the source's.  C++ does not say in which order the
    elements of a tuple are parsed: [left_to_right] tells which one is first. *)

From Stdlib Require Import Ascii.
From S2P Require Import Prelude CheckedInt ExecutionContext Bytes SafeString Conv Hex.

(** ** Values and errors *)

(** Integers are unsigned or negative; a floating-point number is [m * 2 ^ e].
    The fields of an object are in the order of their assignment. *)
Inductive json :=
| JNull
| JBool (b : bool)
| JInt (z : Z)
| JUint (z : Z)
| JFloat (m e : Z)
| JString (s : list ascii)
| JArray (l : list json)
| JObject (fields : list (string * json)).

Definition text (s : string) : list ascii := String.list_ascii_of_string s.
Definition json_type (d : json) : string :=
  match d with
  | JNull => "null" | JBool _ => "boolean" | JInt _ | JUint _ | JFloat _ _ => "number"
  | JString _ => "string" | JArray _ => "array" | JObject _ => "object"
  end.
Fixpoint json_assoc (key : string) (fields : list (string * json)) : option json :=
  match fields with
  | [] => None
  | (k, d) :: fields => if decide (k = key) then Some d else json_assoc key fields
  end.
(** [contains] and [at] of an object in one. *)
Definition json_field (d : json) (key : string) : option json :=
  match d with JObject fields => json_assoc key fields | _ => None end.

(** ** The text of a value *)

(** Well-formed UTF-8 (RFC 3629), as [dump] demands it of every string. *)
Fixpoint utf8 (l : list ascii) : bool :=
  let within (lo hi : Z) (c : ascii) := (lo <=? Z.of_N (N_of_ascii c)) && (Z.of_N (N_of_ascii c) <=? hi) in
  let cont := within 0x80 0xBF in
  match l with
  | [] => true
  | a :: l1 =>
      if within 0 0x7F a then utf8 l1
      else match l1 with
      | [] => false
      | b :: l2 =>
          if within 0xC2 0xDF a && cont b then utf8 l2
          else match l2 with
          | [] => false
          | c :: l3 =>
              if (within 0xE0 0xE0 a && within 0xA0 0xBF b || within 0xE1 0xEC a && cont b
                  || within 0xED 0xED a && within 0x80 0x9F b || within 0xEE 0xEF a && cont b) && cont c
              then utf8 l3
              else match l3 with
              | [] => false
              | d :: l4 =>
                  if (within 0xF0 0xF0 a && within 0x90 0xBF b || within 0xF1 0xF3 a && cont b
                      || within 0xF4 0xF4 a && within 0x80 0x8F b) && cont c && cont d
                  then utf8 l4 else false
              end
          end
      end
  end.
Fixpoint utf8_json (d : json) : bool :=
  match d with
  | JString s => utf8 s
  | JArray l => forallb utf8_json l
  | JObject fields => forallb (λ e : string * json, utf8 (text e.1) && utf8_json e.2) fields
  | _ => true
  end.

(** The JSON library: [json::parse] throws [parse_error], [dump] throws
    [type_error] when a string is not UTF-8, and only then. *)
Class JsonText := {
  json_parse : list ascii → outcome json;
  json_dump : json → outcome (list ascii);
  json_parse_throws : ∀ s e, json_parse s = Throw e → e ≠ undefined_behaviour;
  json_dump_utf8 : ∀ d, utf8_json d = true → ∃ s, json_dump d = Ret s;
  json_dump_throws : ∀ d, utf8_json d = false → ∃ e, json_dump d = Throw e ∧ e ≠ undefined_behaviour;
}.

(** What a method can fail with: [jsonrpc::Error], a [VMExecutionError] with its
    code, or another exception. *)
Inductive failure :=
| Error (code : Z) (message : list ascii)
| VmError (code : Z) (data : list Z)
| Std (e : exn).
Inductive reply (A : Type) := Ok (a : A) | Fail (f : failure).
Arguments Ok {A} a.
Arguments Fail {A} f.
#[export] Instance reply_ret : MRet reply := @Ok.
#[export] Instance reply_bind : MBind reply := λ A B f m, match m with Ok a => f a | Fail e => Fail e end.
Definition std {A} (o : outcome A) : reply A := match o with Ret a => Ok a | Throw e => Fail (Std e) end.

Definition invalidType (exp got : string) : failure :=
  Error (-32601) (text "Parsing error: invalid type, exp '" ++ text exp ++ text "' - got '" ++ text got ++ text "'").
Definition invalidFormat (wrong : list ascii) : failure :=
  Error (-32601) (text "Parsing error: '" ++ wrong ++ text "' is in invalid format").
Definition insufficientValues : failure := Error (-32601) (text "Parsing error: insufficient values in array").
Definition quote_mark : ascii := ascii_of_nat 34.
Definition methodNotAvailable (method : list ascii) : failure :=
  Error (-32601) (text "Method " ++ [quote_mark] ++ method ++ [quote_mark] ++ text " not found/available").
Definition executionError (cause : list ascii) : failure := Error (-32603) (text "Execution error: " ++ cause).

(** ** Regular expressions *)

Inductive regex :=
| Void
| Eps
| Class (p : ascii → bool)
| Seq (r1 r2 : regex)
| Alt (r1 r2 : regex)
| Star (r : regex).

Fixpoint nullable (r : regex) : bool :=
  match r with
  | Void | Class _ => false
  | Eps | Star _ => true
  | Seq r1 r2 => nullable r1 && nullable r2
  | Alt r1 r2 => nullable r1 || nullable r2
  end.
Fixpoint derive (c : ascii) (r : regex) : regex :=
  match r with
  | Void | Eps => Void
  | Class p => if p c then Eps else Void
  | Seq r1 r2 => if nullable r1 then Alt (Seq (derive c r1) r2) (derive c r2) else Seq (derive c r1) r2
  | Alt r1 r2 => Alt (derive c r1) (derive c r2)
  | Star r => Seq (derive c r) (Star r)
  end.
(** [std::regex_match]: the whole string. *)
Definition regex_match (s : list ascii) (r : regex) : bool := nullable (foldl (λ r c, derive c r) r s).

Definition code_of (c : ascii) : Z := Z.of_N (N_of_ascii c).
Definition between (a b c : ascii) : bool := (code_of a <=? code_of c) && (code_of c <=? code_of b).
Definition literal (s : string) : regex := foldr (λ c r, Seq (Class (Ascii.eqb c)) r) Eps (text s).
Fixpoint times (n : nat) (r : regex) : regex := match n with O => Eps | S n => Seq r (times n r) end.
Definition plus (r : regex) : regex := Seq r (Star r).

(** [^0x[0-9a-f]{64}$] *)
Definition hashFormat : regex := Seq (literal "0x") (times 64 (Class (λ c, between "0" "9" c || between "a" "f" c))).
(** [^0x[0-9,a-f,A-F]{40}$], with the commas *)
Definition addressFormat : regex :=
  Seq (literal "0x") (times 40 (Class (λ c, between "0" "9" c || Ascii.eqb "," c || between "a" "f" c || between "A" "F" c))).
(** [^0x([1-9A-Fa-f]+[0-9A-Fa-f]*|0)$] *)
Definition hex_class (c : ascii) : bool := between "0" "9" c || between "A" "F" c || between "a" "f" c.
Definition lead_class (c : ascii) : bool := between "1" "9" c || between "A" "F" c || between "a" "f" c.
Definition numberFormat : regex :=
  Seq (literal "0x") (Alt (Seq (plus (Class lead_class)) (Star (Class hex_class))) (literal "0")).

(** ** Parsers of one value *)

Section parsers.
Context {BI : BoostInt} {BB : BoostBits}.

Definition parse_json (data : json) : reply json := Ok data.
Definition parse_string (data : json) : reply (list ascii) :=
  match data with JString s => Ok s | _ => Fail (invalidType "string" (json_type data)) end.
(** A [Hash] or an [Address] of the bytes of a string. *)
Definition parse_fixed (size : nat) (r : regex) (data : json) : reply Z :=
  rawData ← parse_string data;
  if negb (regex_match rawData r) then Fail (invalidFormat rawData)
  else
    b ← std (hex_toBytes rawData);
    if decide (length b = size) then Ok (be_value b) else Fail (Std (invalid_argument "incompatible size")).
Definition parse_Hash : json → reply Hash := parse_fixed 32 hashFormat.
Definition parse_Address : json → reply Address := parse_fixed 20 addressFormat.
Definition parse_Bytes (data : json) : reply (list Z) :=
  rawData ← parse_string data;
  if negb (isValid rawData true) then Fail (invalidFormat rawData) else std (hex_toBytes rawData).
Definition parse_bool (data : json) : reply bool :=
  match data with JBool b => Ok b | _ => Fail (invalidType "boolean" (json_type data)) end.
(** The number before it is rounded to a [float]; no method uses the value. *)
Definition parse_float (data : json) : reply json :=
  match data with
  | JInt _ | JUint _ | JFloat _ _ => Ok data
  | _ => Fail (invalidType "number" (json_type data))
  end.
(** [std::isdigit] and [std::stoull] of a string of digits *)
Definition isdigit (c : ascii) : bool := between "0" "9" c.
Definition stoull (value : list ascii) : outcome Z :=
  let z := foldl (λ acc c, acc * 10 + (code_of c - 48)) 0 value in
  if z <? 2 ^ 64 then Ret z else Throw out_of_range.
Definition parse_uint64 (data : json) : reply Z :=
  match data with
  | JUint z => Ok z
  | JString value =>
      if regex_match value numberFormat then std (h ← Hex_make value false; z ← getUint h; to_uint64 z)
      else
        match value with
        | [] => Fail (invalidFormat (text "empty string"))
        | _ => if forallb isdigit value then std (stoull value) else Fail (invalidFormat value)
        end
  | _ => Fail (invalidType "string" (json_type data))
  end.
(** A number is read with [get<std::string>()], which throws the library's
    [type_error]. *)
Definition parse_uint256 (data : json) : reply Z :=
  match data with
  | JUint _ => Fail (Std (runtime_error "type_error"))
  | JString value =>
      if negb (regex_match value numberFormat) then Fail (invalidFormat value)
      else std (h ← Hex_make value false; getUint h)
  | _ => Fail (invalidType "string" (json_type data))
  end.

(** *** Optional values, alternatives and arrays *)

Definition parse_optional {A} (p : json → reply A) (data : json) : reply (option A) :=
  match data with JNull => Ok None | _ => a ← p data; Ok (Some a) end.
(** The first alternative is given up for an [Error] only. *)
Definition parse_variant {A B} (p : json → reply A) (q : json → reply B) (data : json) : reply (A + B) :=
  match p data with
  | Ok a => Ok (inl a)
  | Fail (Error _ _) => b ← q data; Ok (inr b)
  | Fail f => Fail f
  end.
Fixpoint parse_each {A} (p : json → reply A) (l : list json) : reply (list A) :=
  match l with [] => Ok [] | d :: l => a ← p d; rest ← parse_each p l; Ok (a :: rest) end.
Definition parse_vector {A} (p : json → reply A) (data : json) : reply (list A) :=
  match data with
  | JArray l => parse_each p l
  | JObject fields => parse_each p fields.*2
  | _ => Fail (invalidType "array or object" (json_type data))
  end.
Definition parseArray {A} (p : json → reply A) (data : json) : reply (list A) :=
  match data with JArray l => parse_each p l | _ => Fail (invalidType "array" (json_type data)) end.
Definition parseIfExists {A} (p : json → reply A) (data : json) (key : string) : reply (option A) :=
  match json_field data key with None => Ok None | Some d => parse_optional p d end.
Definition parseArrayIfExists {A} (p : json → reply A) (data : json) (key : string) : reply (option (list A)) :=
  match json_field data key with None => Ok None | Some d => l ← parseArray p d; Ok (Some l) end.

(** *** Block tags *)

Inductive BlockTag := LATEST | EARLIEST | PENDING.
Definition BlockTagOrNumber : Type := Z + BlockTag.
Definition parse_BlockTag (data : json) : reply BlockTag :=
  value ← parse_string data;
  if decide (value = text "latest") then Ok LATEST
  else if decide (value = text "earliest") then Ok EARLIEST
  else if decide (value = text "pending") then Ok PENDING
  else Fail (invalidFormat value).
Definition parse_BlockTagOrNumber (data : json) : reply BlockTagOrNumber := parse_variant parse_uint64 parse_BlockTag data.
(** [BlockTagOrNumber::number], given the latest height *)
Definition block_number (latest : Z) (b : BlockTagOrNumber) : reply Z :=
  match b with
  | inl number => Ok number
  | inr LATEST => Ok latest
  | inr EARLIEST => Ok 0
  | inr PENDING => Fail (Error (-32601) (text "Pending block not supported for operation"))
  end.

(** ** Parsers of the parameters *)

Context (left_to_right : bool).

(** Two elements of a tuple. *)
Definition both {A B} (a : reply A) (b : reply B) : reply (A * B) :=
  if left_to_right then x ← a; y ← b; Ok (x, y) else y ← b; x ← a; Ok (x, y).

Definition range1 {A} (p : json → reply A) (l : list json) : reply A :=
  match l with [] => Fail insufficientValues | d :: _ => p d end.
Definition range2 {A B} (p : json → reply A) (q : json → reply B) (l : list json) : reply (A * B) :=
  match l with [] => Fail insufficientValues | _ :: l' => both (range1 p l) (range1 q l') end.
Definition range2_opt {A B} (p : json → reply A) (q : json → reply B) (l : list json) : reply (A * option B) :=
  match l with
  | [] => Fail insufficientValues
  | [d] => a ← p d; Ok (a, None)
  | d :: d' :: _ => a ← p d; b ← q d'; Ok (a, Some b)
  end.
Definition range3_opt {A B C} (p : json → reply A) (q : json → reply B) (r : json → reply C) (l : list json) :
    reply (A * (B * option C)) :=
  match l with [] => Fail insufficientValues | _ :: l' => both (range1 p l) (range2_opt q r l') end.

Definition parseAll1 {A} (p : json → reply A) (data : json) : reply A :=
  match data with
  | JArray l => range1 p l
  | JObject _ => p data
  | _ => Fail (invalidType "object or array" (json_type data))
  end.
Definition parseAll2 {A B} (p : json → reply A) (q : json → reply B) (data : json) : reply (A * B) :=
  match data with JArray l => range2 p q l | _ => Fail insufficientValues end.
Definition parseAll2_opt {A B} (p : json → reply A) (q : json → reply B) (data : json) : reply (A * option B) :=
  match data with
  | JArray l => range2_opt p q l
  | JObject _ => a ← p data; Ok (a, None)
  | _ => Fail (invalidType "object or array" (json_type data))
  end.
Definition parseAll3_opt {A B C} (p : json → reply A) (q : json → reply B) (r : json → reply C) (data : json) :
    reply (A * (B * option C)) :=
  match data with JArray l => range3_opt p q r l | _ => Fail insufficientValues end.
Definition parseAllParams {A} (parse : json → reply A) (request : json) : reply A :=
  match json_field request "params" with
  | None => Fail (Std (DynamicException "params not available in json"))
  | Some d => parse d
  end.
(** [forbidParams]; [empty] is also true of null. *)
Definition json_empty (d : json) : bool :=
  match d with JNull | JArray [] | JObject [] => true | _ => false end.
Definition forbidParams (request : json) : reply unit :=
  match json_field request "params" with
  | Some d => if json_empty d then Ok () else Fail (Std (DynamicException "params are not required for method"))
  | None => Ok ()
  end.
End parsers.

(** ** Writers *)

Section writers.


(** [Hex::fromBytes(bytes, true)], also of hashes and addresses *)
Definition json_hex (bytes : list Z) : reply json := h ← std (hex_fromBytes bytes true); Ok (JString (hex_ h)).
(** [Hex::fromBytes(Utils::uintToBytes(n), true).forRPC()] *)
Definition json_quantity (n : Z) : reply json :=
  t ← std (h ← hex_fromBytes (uintToBytes n) true; forRPC h); Ok (JString t).
End writers.

(** ** What the expressions match *)

Inductive lang : regex → list ascii → Prop :=
| lang_eps : lang Eps []
| lang_class p c : p c = true → lang (Class p) [c]
| lang_seq r1 r2 s1 s2 : lang r1 s1 → lang r2 s2 → lang (Seq r1 r2) (s1 ++ s2)
| lang_left r1 r2 s : lang r1 s → lang (Alt r1 r2) s
| lang_right r1 r2 s : lang r2 s → lang (Alt r1 r2) s
| lang_stop r : lang (Star r) []
| lang_more r c s1 s2 : lang r (c :: s1) → lang (Star r) s2 → lang (Star r) (c :: s1 ++ s2).
#[export] Hint Constructors lang : bdk.

Lemma lang_seq_inv r1 r2 s : lang (Seq r1 r2) s ↔ ∃ s1 s2, s = s1 ++ s2 ∧ lang r1 s1 ∧ lang r2 s2.
Proof. split; [inversion 1; naive_solver|]. intros (s1 & s2 & -> & ? & ?). by constructor. Qed.
Lemma lang_alt_inv r1 r2 s : lang (Alt r1 r2) s ↔ lang r1 s ∨ lang r2 s.
Proof. split; [inversion 1; auto|]. intros [?|?]; auto with bdk. Qed.
Lemma lang_class_inv p s : lang (Class p) s ↔ ∃ c, s = [c] ∧ p c = true.
Proof. split; [inversion 1; eauto|]. intros (c & -> & ?). by constructor. Qed.

Lemma nullable_spec r : nullable r = true ↔ lang r [].
Proof.
  induction r as [| |p|r1 IH1 r2 IH2|r1 IH1 r2 IH2|r IH]; cbn [nullable].
  - split; [done|inversion 1].
  - split; [constructor|done].
  - split; [done|]. inversion 1.
  - rewrite andb_true_iff, IH1, IH2, lang_seq_inv. split; [by intros []; exists [], []|].
    intros (s1 & s2 & [-> ->]%eq_sym%app_eq_nil & ? & ?). done.
  - rewrite orb_true_iff, IH1, IH2, lang_alt_inv. done.
  - split; [constructor|done].
Qed.

Lemma derive_spec c r s : lang (derive c r) s ↔ lang r (c :: s).
Proof.
  revert s. induction r as [| |p|r1 IH1 r2 IH2|r1 IH1 r2 IH2|r IH]; intros s; cbn [derive].
  - split; inversion 1.
  - split; inversion 1.
  - destruct (p c) eqn:E.
    + split; [inversion 1; by constructor|]. inversion 1. constructor.
    + split; [inversion 1|]. inversion 1. congruence.
  - assert (Hseq : lang (Seq (derive c r1) r2) s ↔ ∃ s1 s2, s = s1 ++ s2 ∧ lang r1 (c :: s1) ∧ lang r2 s2).
    { rewrite lang_seq_inv. by setoid_rewrite IH1. }
    assert (Hinv : lang (Seq r1 r2) (c :: s) ↔ lang (Seq (derive c r1) r2) s ∨ lang r1 [] ∧ lang r2 (c :: s)).
    { rewrite Hseq, lang_seq_inv. split.
      - intros ([|c' s1] & s2 & E & H1 & H2); cbn in E; [subst s2; by right|]. injection E as <- ->. left. eauto.
      - intros [(s1 & s2 & -> & H1 & H2)|[H1 H2]]; [by exists (c :: s1), s2|by exists [], (c :: s)]. }
    rewrite Hinv, <- nullable_spec. destruct (nullable r1).
    + rewrite lang_alt_inv, IH2. naive_solver.
    + naive_solver.
  - by rewrite !lang_alt_inv, IH1, IH2.
  - rewrite lang_seq_inv. setoid_rewrite IH. split.
    + intros (s1 & s2 & -> & H1 & H2). by constructor.
    + inversion 1; subst; eauto.
Qed.

Lemma regex_match_spec s r : regex_match s r = true ↔ lang r s.
Proof.
  unfold regex_match. revert r. induction s as [|c s IH]; intros r; cbn [foldl]; [apply nullable_spec|].
  by rewrite IH, derive_spec.
Qed.

Lemma lang_literal t s : lang (literal t) s ↔ s = text t.
Proof.
  unfold literal. generalize (text t) as l. intros l. revert s.
  induction l as [|c l IH]; intros s; cbn [foldr]; [split; [by inversion 1|intros ->; constructor]|].
  rewrite lang_seq_inv. setoid_rewrite lang_class_inv. setoid_rewrite IH. split.
  - intros (s1 & s2 & -> & (c' & -> & Hc%Ascii.eqb_eq) & ->). by subst.
  - intros ->. exists [c], l. split_and!; [done| |done]. exists c. split; [done|apply Ascii.eqb_refl].
Qed.
Lemma lang_times n p s : lang (times n (Class p)) s ↔ length s = n ∧ Forall (λ c, p c = true) s.
Proof.
  revert s. induction n as [|n IH]; intros s; cbn [times].
  - split; [by inversion 1|]. intros [->%length_zero_iff_nil _]. constructor.
  - rewrite lang_seq_inv. setoid_rewrite lang_class_inv. setoid_rewrite IH. split.
    + intros (s1 & s2 & -> & (c & -> & Hc) & <- & Hs). split; [done|]. by constructor.
    + destruct s as [|c s]; intros [Hl Hs]; [done|]. apply Forall_cons in Hs as [Hc Hs].
      exists [c], s. split_and!; [done|by exists c|by injection Hl|done].
Qed.
Lemma lang_star p s : lang (Star (Class p)) s ↔ Forall (λ c, p c = true) s.
Proof.
  split.
  - remember (Star (Class p)) as r eqn:E. induction 1; try discriminate E; [constructor|].
    injection E as ->. apply lang_class_inv in H as (c' & [= -> ->] & Hc). cbn. auto.
  - induction 1 as [|c s Hc _ IH]; [constructor|]. apply (lang_more _ c [] s); [|done]. by constructor.
Qed.

(** The three patterns. *)
Definition chars (p : ascii → bool) (s : list ascii) : Prop := Forall (λ c, p c = true) s.

Lemma match_times n p s : regex_match s (Seq (literal "0x") (times n (Class p))) = true ↔
  ∃ ds, s = prefix0x ++ ds ∧ length ds = n ∧ chars p ds.
Proof.
  rewrite regex_match_spec, lang_seq_inv. setoid_rewrite lang_literal. setoid_rewrite lang_times. split.
  - intros (s1 & ds & -> & -> & Hn & Hp). by exists ds.
  - intros (ds & -> & Hn & Hp). by exists (text "0x"), ds.
Qed.

Lemma match_number s : regex_match s numberFormat = true ↔
  ∃ ds, s = prefix0x ++ ds ∧ (ds = ["0"%char] ∨ ∃ c ds', ds = c :: ds' ∧ lead_class c = true ∧ chars hex_class ds').
Proof.
  assert (Hlead : ∀ c, lead_class c = true → hex_class c = true).
  { intros c. unfold lead_class, hex_class, between. rewrite !orb_true_iff, !andb_true_iff, !Z.leb_le.
    intros [[[H1 H2]|H]|H]; [left; left|left; by right|by right]. change (code_of "0") with 48. change (code_of "1") with 49 in H1. lia. }
  unfold numberFormat, plus. rewrite regex_match_spec, lang_seq_inv. setoid_rewrite lang_literal. setoid_rewrite lang_alt_inv.
  setoid_rewrite lang_literal. setoid_rewrite lang_seq_inv. setoid_rewrite lang_seq_inv. setoid_rewrite lang_class_inv.
  setoid_rewrite lang_star. split.
  - intros (s1 & ds & -> & -> & [(l & s2 & -> & (l1 & l2 & -> & (c & -> & Hc) & H1) & H2)|E]); [|subst ds; by exists (text "0"); split; [|left]].
    eexists. split; [reflexivity|]. right. exists c, (l2 ++ s2). split_and!; [done|done|]. apply Forall_app. split; [|done].
    eapply Forall_impl; [exact H1|exact Hlead].
  - intros (ds & -> & [->|(c & ds' & -> & Hc & Hds)]); exists (text "0x"); eexists; (split; [reflexivity|]); split; [done|by right|done|left].
    exists [c], ds'. split_and!; [done| |done]. exists [c], []. split_and!; [done|by exists c|constructor].
Qed.

(** ** Reading back what is written *)

(** The lower-case hexadecimal digits. *)
Definition lower_class (c : ascii) : bool := between "0" "9" c || between "a" "f" c.

Lemma lower_digit c : lower_class c = true → 0 <= toInt c < 16 ∧ c = digit (toInt c).
Proof.
  assert (H : implb (lower_class c) ((0 <=? toInt c) && (toInt c <? 16) && Ascii.eqb c (digit (toInt c))) = true)
    by (destruct c as [[] [] [] [] [] [] [] []]; vm_compute; reflexivity).
  intros E. rewrite E in H. cbn [implb] in H. rewrite !andb_true_iff, Z.leb_le, Z.ltb_lt, Ascii.eqb_eq in H. tauto.
Qed.
Lemma digit_classes d : 0 <= d < 16 →
  lower_class (digit d) = true ∧ hex_class (digit d) = true ∧ (d ≠ 0 → lead_class (digit d) = true).
Proof.
  intros Hd. assert (H : forallb (λ k, let c := digit (Z.of_nat k) in lower_class c && hex_class c && ((k =? 0)%nat || lead_class c)) (seq 0 16) = true)
    by (vm_compute; reflexivity).
  rewrite forallb_forall in H. specialize (H (Z.to_nat d)). cbn zeta in H. rewrite Z2Nat.id in H by lia.
  rewrite in_seq in H. specialize (H ltac:(lia)). rewrite !andb_true_iff, orb_true_iff, Nat.eqb_eq in H.
  destruct H as [[H1 H2] H3]. split_and!; [done|done|]. intros Hne. destruct H3; [lia|done].
Qed.
Lemma all_digits_chars (p : ascii → bool) ds : (∀ d, 0 <= d < 16 → p (digit d) = true) → all_digits ds → chars p ds.
Proof. intros Hp H. eapply Forall_impl; [exact H|]. intros c (d & Hd & ->). by apply Hp. Qed.

(** Two digits are one byte. *)
Lemma pair_byte h l : 0 <= h < 16 → 0 <= l < 16 → is_byte (h * 16 + l) ∧ byte_digits (h * 16 + l) = [digit h; digit l].
Proof.
  intros Hh Hl. assert (Hb : is_byte (h * 16 + l)) by (unfold is_byte; lia). split; [done|].
  destruct (nibbles _ Hb) as (H1 & H2 & H3). unfold byte_digits.
  assert (Z.land (Z.shiftr (h * 16 + l) 4) 15 = h ∧ Z.land (h * 16 + l) 15 = l) as [-> ->] by lia. done.
Qed.

Lemma foldl_base {A} (b : Z) (f : A → Z) (a : Z) (l : list A) :
  foldl (λ acc x, acc * b + f x) a l = a * b ^ Z.of_nat (length l) + foldl (λ acc x, acc * b + f x) 0 l.
Proof.
  revert a. induction l as [|x l IH]; intros a; cbn [foldl length]; [cbn; lia|].
  rewrite (IH (a * b + f x)), (IH (0 * b + f x)), Nat2Z.inj_succ, Z.pow_succ_r by lia. lia.
Qed.

Lemma even_digits ds : all_digits ds → Nat.even (length ds) = true →
  ∃ bytes, Forall is_byte bytes ∧ ds = concat (map byte_digits bytes).
Proof.
  remember (length ds) as n eqn:En. revert ds En. induction (lt_wf n) as [n _ IH]. intros ds -> Hd He.
  destruct ds as [|c1 [|c2 ds]]; [by exists []|done|].
  apply Forall_cons in Hd as [(h & Hh & ->) Hd]. apply Forall_cons in Hd as [(l & Hl & ->) Hd].
  destruct (IH (length ds) ltac:(cbn; lia) ds eq_refl Hd He) as (bytes & Hb & ->).
  destruct (pair_byte h l Hh Hl) as [H1 H2]. exists (h * 16 + l :: bytes). split; [by constructor|].
  cbn [map concat]. by rewrite H2.
Qed.

(** The text of a number: [getUint] adds the digits up, also an odd number of
    them. *)
Lemma getUint_digits {BB : BoostBits} ds : all_digits ds → ds ≠ [] → (length ds <= 64)%nat →
  (h ← Hex_make (prefix0x ++ ds) false; getUint h) = Ret (hex_value ds).
Proof.
  intros Hd Hne Hlen. assert (Hsmall : (Z.of_nat (length ds) < npos)%Z) by (unfold npos; lia).
  assert (Hfix : fix_prefix ds = Ret ds).
  { destruct ds as [|c0 [|c1 ds]]; [done|by unfold fix_prefix|]. unfold fix_prefix. cbn [char_idx lookup list_lookup mbind outcome_bind].
    apply Forall_cons in Hd as [_ [(d & Hr & ->) _]%Forall_cons]. by rewrite decide_False by (by apply digit_facts). }
  assert (Hstart : std_starts_with ds prefix0x = false).
  { unfold std_starts_with. apply bool_decide_eq_false. destruct ds as [|c0 [|c1 ds]]; [done|done|]. intros [= _ E].
    apply Forall_cons in Hd as [_ [(d & Hr & ->) _]%Forall_cons]. by destruct (digit_facts d Hr) as (_ & Hx & _). }
  assert (Hvalid : (std_find_first_not_of ds hex_filter 0 =? npos) = true) by (by apply (valid_from ds 0)).
  assert (Hmake : Hex_make (prefix0x ++ ds) false = Ret (mkHex ds false)).
  { unfold Hex_make. cbn [char_idx prefix0x app lookup list_lookup mbind outcome_bind]. rewrite decide_True by done.
    cbn [char_idx lookup list_lookup mbind outcome_bind]. rewrite bool_decide_eq_true_2 by done. cbn [orb drop mbind outcome_bind].
    rewrite drop_0, Hfix. cbn [mbind outcome_bind]. unfold isValid. by rewrite Hvalid. }
  rewrite Hmake. cbn [mbind outcome_bind]. unfold getUint. cbn [hex_]. unfold hex_toBytes. rewrite Hfix. cbn [mbind outcome_bind].
  rewrite Hstart. change (Z.of_nat 0) with 0. rewrite Hvalid. unfold read_hex. destruct (Nat.odd (length ds)) eqn:Hodd.
  - destruct ds as [|c ds]; [done|]. apply Forall_cons in Hd as [(d & Hr & ->) Hd].
    destruct (even_digits ds Hd) as (bytes & Hb & ->); [by rewrite <- Nat.odd_succ|].
    cbn [char_idx lookup list_lookup mbind outcome_bind]. change (0 + 1)%nat with (length [digit d]).
    rewrite (read_pairs_text bytes [digit d]) by (cbn [length]; rewrite ?text_length; done || lia). cbn [mbind outcome_bind].
    cbn [length] in *. rewrite text_length in Hlen. rewrite decide_False by lia. f_equal.
    destruct (digit_facts d Hr) as (_ & _ & _ & Ht & _).
    rewrite import_bits_value by (constructor; [rewrite Ht, wrap_id by (unfold in_range; lia); unfold is_byte; lia|done]).
    unfold be_value, hex_value. cbn [foldl]. rewrite Ht, wrap_id by (unfold in_range; lia).
    rewrite (foldl_base 256 (λ b, b)), (foldl_base 16 toInt (0 * 16 + d)).
    pose proof (text_value bytes Hb) as Hv. unfold hex_value, be_value in Hv. rewrite Hv, text_length.
    rewrite Nat.mul_comm, Nat2Z.inj_mul, Z.pow_mul_r by lia. done.
  - destruct (even_digits ds Hd) as (bytes & Hb & ->); [by rewrite <- Nat.negb_odd, Hodd|].
    pose proof (read_pairs_text bytes [] (length (concat (map byte_digits bytes))) Hb) as Hp. cbn [app length] in Hp.
    rewrite text_length in Hlen, Hp |- *. rewrite Hp by lia. cbn [mbind outcome_bind]. rewrite decide_False by lia.
    by rewrite import_bits_value, text_value.
Qed.

(** The text of bytes behind the prefix. *)
Definition hex_text (bytes : list Z) : list ascii := prefix0x ++ concat (map byte_digits bytes).

Lemma json_hex_eq bytes : Forall is_byte bytes → Z.of_nat (length bytes) < 2 ^ 62 →
  json_hex bytes = Ok (JString (hex_text bytes)) ∧ hex_toBytes (hex_text bytes) = Ret bytes.
Proof.
  intros Hb Hl. destruct (hex_roundtrip bytes true Hb Hl ltac:(by right)) as (h & Eh & _ & _ & Et & _).
  assert (E : hex_ h = hex_text bytes).
  { unfold hex_fromBytes in Eh. rewrite fromBytes_text_eq in Eh by auto.
    destruct (Hex_make_text (concat (map byte_digits bytes)) true) as (Hm & _); [by apply text_digits|rewrite text_length; unfold npos; lia|done|].
    rewrite Hm in Eh. by injection Eh as <-. }
  unfold json_hex. rewrite Eh, <- E. done.
Qed.

Lemma json_quantity_eq n : 0 <= n < 2 ^ 256 →
  ∃ ds, json_quantity n = Ok (JString (prefix0x ++ ds)) ∧ all_digits ds ∧ ds ≠ [] ∧ (length ds <= 64)%nat ∧
    (head ds = Some "0"%char → ds = ["0"%char]) ∧ hex_value ds = n.
Proof.
  intros Hn. destruct (rpc_quantity_canonical n Hn) as (h & ds & Eh & Er & Hne & Hz & Hv & Hd & Hl).
  exists ds. unfold json_quantity. rewrite Eh. cbn [mbind outcome_bind]. rewrite Er. done.
Qed.

Lemma fixed_read size r b : Forall is_byte b → length b = size → Z.of_nat size < 2 ^ 62 → regex_match (hex_text b) r = true →
  ∃ d, json_hex b = Ok d ∧ parse_fixed size r d = Ok (be_value b).
Proof.
  intros Hb Hl Hs Hr. destruct (json_hex_eq b Hb) as [Ew Et]; [by rewrite Hl|]. exists (JString (hex_text b)). split; [done|].
  unfold parse_fixed. cbn [parse_string mbind reply_bind]. rewrite Hr. cbn [negb]. rewrite Et. cbn [std mbind reply_bind].
  by rewrite decide_True.
Qed.
Lemma hex_text_match n p b : (∀ d, 0 <= d < 16 → p (digit d) = true) → Forall is_byte b → (length b * 2 = n)%nat →
  regex_match (hex_text b) (Seq (literal "0x") (times n (Class p))) = true.
Proof.
  intros Hp Hb Hl. apply match_times. exists (concat (map byte_digits b)). split_and!; [done|by rewrite text_length|].
  by apply all_digits_chars, text_digits.
Qed.

Lemma parse_number {BI : BoostInt} {BB : BoostBits} ds : all_digits ds → ds ≠ [] → (length ds <= 64)%nat → (head ds = Some "0"%char → ds = ["0"%char]) →
  parse_uint256 (JString (prefix0x ++ ds)) = Ok (hex_value ds) ∧
  (in_range 64 (hex_value ds) → parse_uint64 (JString (prefix0x ++ ds)) = Ok (hex_value ds)).
Proof.
  intros Hd Hne Hl Hz. assert (Hm : regex_match (prefix0x ++ ds) numberFormat = true).
  { apply match_number. exists ds. split; [done|]. destruct ds as [|c ds]; [done|]. pose proof Hd as [(d & Hr & ->) Hd']%Forall_cons.
    destruct (decide (d = 0)) as [->|Hn]; [left; by apply Hz|]. right. exists (digit d), ds.
    split_and!; [done|by apply digit_classes|]. apply all_digits_chars; [|done]. intros; by apply digit_classes. }
  pose proof (getUint_digits ds Hd Hne Hl) as Hv. unfold parse_uint256, parse_uint64. rewrite Hm. cbn [negb]. rewrite Hv.
  split; [done|]. intros Hr. apply bind_outcome_Ret in Hv as (h & Eh & Ev). rewrite Eh. cbn [mbind outcome_bind]. rewrite Ev.
  cbn [mbind outcome_bind]. by rewrite to_uint64_fits.
Qed.

(** A hash and an address are read back. *)
Lemma hash_written h : in_range 256 h → ∃ d, json_hex (be_bytes 32 h) = Ok d ∧ parse_Hash d = Ok h.
Proof.
  intros Hh. assert (E : be_value (be_bytes 32 h) = h) by by apply be_value_bytes. setoid_rewrite <- E at 2.
  apply fixed_read; [apply be_bytes_is_byte|apply be_bytes_length|lia|].
  apply (hex_text_match 64 lower_class); [intros; by apply digit_classes|apply be_bytes_is_byte|by rewrite be_bytes_length].
Qed.

Lemma address_written a : in_range 160 a → ∃ d, json_hex (be_bytes 20 a) = Ok d ∧ parse_Address d = Ok a.
Proof.
  intros Ha. assert (E : be_value (be_bytes 20 a) = a) by by apply be_value_bytes. setoid_rewrite <- E at 2.
  apply fixed_read; [apply be_bytes_is_byte|apply be_bytes_length|lia|].
  apply hex_text_match; [|apply be_bytes_is_byte|by rewrite be_bytes_length].
  intros d Hd. cbn beta. destruct (digit_classes d Hd) as [H _]. unfold lower_class in H. apply orb_true_iff in H as [H|H]; rewrite H, ?orb_true_r; done.
Qed.

(** The branch for numbers of the parser of 256-bit numbers asks the library for a
    type it does not convert to: every number is refused, where the parser of
    64-bit numbers takes it. *)
Lemma uint256_numbers_refused {BI : BoostInt} {BB : BoostBits} n :
  parse_uint64 (JUint n) = Ok n ∧ parse_uint256 (JUint n) = Fail (Std (runtime_error "type_error")).
Proof. done. Qed.

(** C30: what the interface writes it reads back.  Hashes, addresses, byte strings
    and numbers of 64 and 256 bits are written as texts that the parsers accept
    and turn into the same values; a hash is accepted in this one form only. *)
Theorem rpc_values_roundtrip {BI : BoostInt} {BB : BoostBits} :
  (∀ h, in_range 256 h → ∃ d, json_hex (be_bytes 32 h) = Ok d ∧ parse_Hash d = Ok h) ∧
  (∀ a, in_range 160 a → ∃ d, json_hex (be_bytes 20 a) = Ok d ∧ parse_Address d = Ok a) ∧
  (∀ b, Forall is_byte b → Z.of_nat (length b) < 2 ^ 62 → ∃ d, json_hex b = Ok d ∧ parse_Bytes d = Ok b) ∧
  (∀ n, 0 <= n < 2 ^ 256 → ∃ d, json_quantity n = Ok d ∧ parse_uint256 d = Ok n ∧ (n < 2 ^ 64 → parse_uint64 d = Ok n)) ∧
  (∀ d h, parse_Hash d = Ok h → json_hex (be_bytes 32 h) = Ok d).
Proof.
  assert (Hw : ∀ n, 0 <= n < 2 ^ 256 → ∃ d, json_quantity n = Ok d ∧ parse_uint256 d = Ok n ∧ (n < 2 ^ 64 → parse_uint64 d = Ok n)).
  { intros n Hn. destruct (json_quantity_eq n Hn) as (ds & Ew & Hd & Hne & Hl & Hz & Hv).
    destruct (parse_number ds Hd Hne Hl Hz) as [H1 H2]. rewrite Hv in H1, H2. eexists. split_and!; [done|done|].
    intros. apply H2. unfold in_range. lia. }
  split_and!; [| | |exact Hw|].
  - exact hash_written.
  - exact address_written.
  - intros b Hb Hl. destruct (json_hex_eq b Hb Hl) as [Ew Et]. exists (JString (hex_text b)). split; [done|].
    unfold parse_Bytes. cbn [parse_string mbind reply_bind].
    assert (Hv : isValid (hex_text b) true = true); [|by rewrite Hv; cbn [negb]; rewrite Et].
    unfold isValid. change (std_starts_with (hex_text b) prefix0x) with true. cbn [negb andb]. apply (valid_from _ 2); [by apply text_digits|].
    unfold hex_text. rewrite length_app, text_length. unfold npos. cbn [prefix0x length]. lia.
  - intros d h. destruct d as [| | | | |s| |]; try discriminate. unfold parse_Hash, parse_fixed. cbn [parse_string mbind reply_bind].
    destruct (regex_match s hashFormat) eqn:Em; [|discriminate]. cbn [negb].
    apply (match_times 64 lower_class) in Em as (ds & -> & Hl & Hc).
    assert (Hd : all_digits ds) by (eapply Forall_impl; [exact Hc|]; intros c H%lower_digit; destruct H; by exists (toInt c)).
    destruct (even_digits ds Hd) as (b & Hb & ->); [by rewrite Hl|]. rewrite text_length in Hl.
    destruct (json_hex_eq b Hb) as [Ew Et]; [lia|]. unfold hex_text in Et. rewrite Et. cbn [std mbind reply_bind].
    rewrite decide_True by lia. intros [= <-]. pose proof (be_bytes_value b Hb) as E. replace (length b) with 32%nat in E by lia. by rewrite E.
Qed.

Lemma rpc_values_roundtrip_witness :
  (∃ d, json_hex (be_bytes 20 5) = Ok d ∧ parse_Address d = Ok 5) ∧
  ∃ d, json_quantity 1000000000000000000000 = Ok d ∧
    parse_uint256 (BB := boost_bits_ref) d = Ok 1000000000000000000000.
Proof.
  destruct (rpc_values_roundtrip (BI := boost_ref) (BB := boost_bits_ref)) as (_ & Ha & _ & Hn & _). split.
  - apply Ha. unfold in_range. lia.
  - destruct (Hn 1000000000000000000000) as (d & E & P & _); [lia|]. by exists d.
Defined.
