(* ===== verification/Abi.v ===== *)
(** * The contract ABI

    Models src/contract/abi.h and abi.cpp: the encoder and the decoder of
    function arguments and return values, the revert reason, event data and the
    type names that function signatures are made of.  The C++ templates work on
    types; [abi_type] is the universe of types they are specialised for and
    [abi_val] the values.  An enum is encoded like its number ([TUint 8]).
    Offsets and indices are [uint64_t] and wrap. *)

From Stdlib Require Import Ascii.
From stdpp Require Import pretty.
From S2P Require Import Prelude CheckedInt ExecutionContext Bytes SafeString Conv Hex.

Inductive abi_type :=
| TUint (w : Z)
| TInt (w : Z)
| TAddress
| TBool
| THash
| TFixedBytes (n : nat)
| TBytes
| TString
| TVector (t : abi_type)
| TArray (t : abi_type) (n : nat)
| TTuple (ts : list abi_type).

(** Numbers, addresses and hashes; booleans; byte strings of any kind; vectors,
    arrays and tuples. *)
Inductive abi_val :=
| VNum (z : Z)
| VBool (b : bool)
| VBytes (l : list Z)
| VList (vs : list abi_val).

(** Induction on types, through the lists of tuples. *)
Section abi_ind.
Variable P : abi_type → Prop.
Hypothesis HUint : ∀ w, P (TUint w).
Hypothesis HInt : ∀ w, P (TInt w).
Hypothesis HAddress : P TAddress.
Hypothesis HBool : P TBool.
Hypothesis HHash : P THash.
Hypothesis HFixed : ∀ n, P (TFixedBytes n).
Hypothesis HBytes : P TBytes.
Hypothesis HString : P TString.
Hypothesis HVector : ∀ t, P t → P (TVector t).
Hypothesis HArray : ∀ t n, P t → P (TArray t n).
Hypothesis HTuple : ∀ ts, Forall P ts → P (TTuple ts).
Fixpoint abi_type_ind' (t : abi_type) : P t :=
  match t with
  | TUint w => HUint w | TInt w => HInt w | TAddress => HAddress | TBool => HBool | THash => HHash
  | TFixedBytes n => HFixed n | TBytes => HBytes | TString => HString
  | TVector t => HVector t (abi_type_ind' t)
  | TArray t n => HArray t n (abi_type_ind' t)
  | TTuple ts => HTuple ts ((fix go ts : Forall P ts :=
      match ts with
      | [] => Forall_nil_2 P
      | t :: ts => Forall_cons_2 P t ts (abi_type_ind' t) (go ts)
      end) ts)
  end.
End abi_ind.

(** ** Types *)

(** [isDynamic] *)
Fixpoint isDynamic (t : abi_type) : bool :=
  match t with
  | TBytes | TString | TVector _ | TArray _ _ => true
  | TTuple ts => existsb isDynamic ts
  | _ => false
  end.

(** [calculateOffsetForType], [calculateTotalOffset] *)
Definition calculateOffsetForType (t : abi_type) : Z :=
  if isDynamic t then 32
  else match t with TTuple ts => 32 * Z.of_nat (length ts) | _ => 32 end.
Definition calculateTotalOffset (ts : list abi_type) : Z :=
  foldr (λ t acc, calculateOffsetForType t + acc) 0 ts.

Definition add64 (a b : Z) : Z := wrap 64 (a + b).

Section encoder.
Context {BB : BoostBits}.

(** [Encoder::encodeUint], [Encoder::encodeInt]; the latter complements the
    memory of the absolute value, least significant byte first. *)
Definition encodeUint (num : Z) : list Z := right_align 32 (export_bits num).
Definition encodeInt (num : Z) : list Z :=
  if num <? 0
  then reverse (increment (reverse (reverse (map (λ b, 255 - b) (le_bytes 32 (- num))))))
  else right_align 32 (export_bits num).

(** [StrConv::padLeftBytes(Utils::uintToBytes(n), 32)] *)
Definition word (n : Z) : list Z := padLeftBytes (uintToBytes n) 32 0.

(** [do { pad += 32; } while (pad < size);] *)
Fixpoint pad_loop (fuel : nat) (pad size : Z) : Z :=
  match fuel with
  | O => pad
  | S fuel => let pad := pad + 32 in if pad <? size then pad_loop fuel pad size else pad
  end.
Definition pad_size (bytes : list Z) : Z := pad_loop (S (length bytes)) 0 (Z.of_nat (length bytes)).

(** [TypeEncoder<Bytes>], [TypeEncoder<std::string>]: length and padded data. *)
Definition encode_bytes (bytes : list Z) : list Z :=
  word (Z.of_nat (length bytes)) ++ padRightBytes bytes (pad_size bytes) 0.

(** The loop over the items of a tuple or vector: a dynamic item leaves its
    offset in [result] and its bytes in [dynamicBytes]. *)
Fixpoint encode_items (head : Z → list Z) (items : list (bool * list Z)) (nextOffset : Z)
    (result dynamicBytes : list Z) : list Z :=
  match items with
  | [] => result ++ dynamicBytes
  | (true, packed) :: items =>
      encode_items head items (add64 nextOffset (Z.of_nat (length packed)))
        (result ++ head nextOffset) (dynamicBytes ++ packed)
  | (false, packed) :: items => encode_items head items nextOffset (result ++ packed) dynamicBytes
  end.

(** [TypeEncoder<T>::encode].  A value that is not of the type is not a C++
    program. *)
Fixpoint encode (t : abi_type) (v : abi_val) {struct t} : list Z :=
  match t, v with
  | TUint _, VNum z => encodeUint z
  | TInt _, VNum z => encodeInt z
  | TAddress, VNum z => padLeftBytes (be_bytes 20 z) 32 0
  | TBool, VBool b => padLeftBytes (if b then [1] else [0]) 32 0
  | THash, VNum z => be_bytes 32 z
  | TFixedBytes _, VBytes l => l ++ drop (length l) (replicate 32 0)
  | TBytes, VBytes l | TString, VBytes l => encode_bytes l
  | TVector t, VList vs | TArray t _, VList vs =>
      word (Z.of_nat (length vs)) ++
      (if isDynamic t
       then encode_items uint256ToBytes (map (λ v, (true, encode t v)) vs) (32 * Z.of_nat (length vs)) [] []
       else concat (map (encode t) vs))
  | TTuple ts, VList vs =>
      encode_items word (zip_with (λ f v, f v) (map (λ t v, (isDynamic t, encode t v)) ts) vs)
        (calculateTotalOffset ts) [] []
  | _, _ => []
  end.

(** [Encoder::encodeData] *)
Definition encodeData (ts : list abi_type) (vs : list abi_val) : list Z :=
  match ts with
  | [] => []
  | _ => encode_items word (zip_with (λ t v, (isDynamic t, encode t v)) ts vs) (calculateTotalOffset ts) [] []
  end.

(** [Encoder::encodeError]: the selector of Error(string) and the reason. *)
Definition encodeError (reason : list Z) : outcome (list Z) :=
  sel ← hex_toBytes (String.list_ascii_of_string "0x08c379a0") ;
  Ret (sel ++ encodeData [TString] [VBytes reason]).

(** [EventEncoder::encodeEventData]: an event parameter is a type, a value and
    whether it is indexed; the offset is computed from all the types. *)
Definition encodeEventData (params : list (abi_type * abi_val * bool)) : list Z :=
  encode_items word
    (map (λ p, (isDynamic p.1.1, encode p.1.1 p.1.2)) (filter (λ p, p.2 = false) params))
    (calculateTotalOffset (map (λ p, p.1.1) params)) [] [].
End encoder.

(** ** Names, signatures and topics *)

(** [FunctorEncoder::TypeName<T>::get] *)
Fixpoint type_name (t : abi_type) : string :=
  match t with
  | TUint w => "uint" +:+ pretty w
  | TInt w => "int" +:+ pretty w
  | TAddress => "address"
  | TBool => "bool"
  | THash => "bytes32"
  | TFixedBytes n => "bytes" +:+ pretty (Z.of_nat n)
  | TBytes => "bytes"
  | TString => "string"
  | TVector t | TArray t _ => type_name t +:+ "[]"
  | TTuple ts => "(" +:+ String.concat "," (map type_name ts) +:+ ")"
  end.

(** [listArgumentTypes], [listArgumentTypesV]; a comma behind each name and the
    last one removed. *)
Definition listArgumentTypes (ts : list abi_type) : string := String.concat "," (map type_name ts).
Definition listArgumentTypesV (ts : list abi_type) : list string := map type_name ts.
Definition string_bytes (s : string) : list Z :=
  map (λ c, Z.of_nat (nat_of_ascii c)) (String.list_ascii_of_string s).
Definition fullSig (funcSig : string) (ts : list abi_type) : string :=
  funcSig +:+ "(" +:+ listArgumentTypes ts +:+ ")".

Section signatures.
Context {BB : BoostBits}.
(** [Utils::sha3] *)
Variable sha3 : list Z → list Z.

(** [FunctorEncoder::encode], [EventEncoder::encodeSignature] *)
Definition functor_encode (funcSig : string) (ts : list abi_type) : outcome Z :=
  bytesToUint32 (take 4 (sha3 (string_bytes (fullSig funcSig ts)))).
Definition encodeSignature (funcSig : string) (ts : list abi_type) : list Z :=
  sha3 (string_bytes (fullSig funcSig ts)).

(** [EventEncoder::TypeEncoder<T>::encode]: in place, without lengths or offsets;
    there is no specialisation for hashes and fixed bytes. *)
Fixpoint event_encode (t : abi_type) (v : abi_val) {struct t} : list Z :=
  match t, v with
  | TBytes, VBytes l | TString, VBytes l => padRightBytes l (pad_size l) 0
  | TVector t, VList vs | TArray t _, VList vs => concat (map (event_encode t) vs)
  | TTuple ts, VList vs => concat (zip_with (λ f v, f v) (map event_encode ts) vs)
  | TUint _, _ | TInt _, _ | TAddress, _ | TBool, _ => encode t v
  | _, _ => []
  end.

(** [encodeTopicSignature]: the hash of what is not one word. *)
Definition encodeTopicSignature (t : abi_type) (v : abi_val) : list Z :=
  match t, v with
  | TBytes, VBytes l | TString, VBytes l => sha3 l
  | TTuple _, _ | TVector _, _ | TArray _ _, _ => sha3 (event_encode t v)
  | _, _ => event_encode t v
  end.
End signatures.

(** ** Decoding *)

(** The conversions from 256-bit numbers to the type decoded ([static_cast<T>]):
    only what they do with numbers that fit is documented for all widths. *)
Class AbiCasts := {
  cast_unsigned : Z → Z → outcome Z;
  cast_signed : Z → Z → outcome Z;
  cast_unsigned_fits : ∀ w z, in_range w z → cast_unsigned w z = Ret z;
  cast_signed_fits : ∀ w z, - 2 ^ w < z < 2 ^ w → cast_signed w z = Ret z;
  cast_defined : ∀ w z e, cast_unsigned w z = Throw e ∨ cast_signed w z = Throw e → e ≠ undefined_behaviour;
}.

Section decoder.
Context {BB : BoostBits} {AC : AbiCasts}.
Implicit Types (bytes view : list Z) (index : Z).

Definition too_short : exn := length_error "Data too short".

(** A read of [n] bytes at [pos], which has to lie inside the view. *)
Definition read_at bytes (pos n : Z) : outcome (list Z) :=
  if (0 <=? pos) && (pos + n <=? Z.of_nat (length bytes))
  then Ret (take (Z.to_nat n) (drop (Z.to_nat pos) bytes))
  else Throw undefined_behaviour.
(** [bytes.subspan(offset)] *)
Definition sub_view bytes (offset : Z) : outcome (list Z) :=
  if offset <=? Z.of_nat (length bytes) then Ret (drop (Z.to_nat offset) bytes) else Throw undefined_behaviour.
(** [if (pos + n > bytes.size()) throw std::length_error(...)] *)
Definition check_size bytes (pos n : Z) : outcome unit :=
  if Z.of_nat (length bytes) <? add64 pos n then Throw too_short else Ret ().
(** [Utils::fromBigEndian<uint64_t>] *)
Definition fromBigEndian64 (l : list Z) : Z :=
  foldl (λ acc b, wrap 64 (Z.lor (wrap 64 (Z.shiftl acc 8)) b)) 0 l.
(** The word at [pos] as an offset or a length, after the check. *)
Definition read_word bytes (pos : Z) : outcome Z :=
  check_size bytes pos 32 ;; tmp ← read_at bytes pos 32 ; Ret (fromBigEndian64 tmp).

Definition decodeUint bytes index : outcome (Z * Z) :=
  check_size bytes index 32 ;; b ← read_at bytes index 32 ;
  z ← bytesToUint256 b ; Ret (z, add64 index 32).
Definition decodeInt bytes index : outcome (Z * Z) :=
  check_size bytes index 32 ;; b ← read_at bytes index 32 ;
  z ← bytesToInt256 b ; Ret (z, add64 index 32).

(** [TypeDecoder<Bytes>], [TypeDecoder<std::string>] *)
Definition decode_bytes bytes index : outcome (abi_val * Z) :=
  bytesStart ← read_word bytes index ;
  bytesLength ← read_word bytes bytesStart ;
  (if Z.of_nat (length bytes) <? add64 (add64 bytesStart 32) bytesLength then Throw too_short else Ret ()) ;;
  l ← read_at bytes (add64 bytesStart 32) bytesLength ;
  Ret (VBytes l, add64 index 32).

(** [decodeTuple] and the loops over the elements of vectors and arrays. *)
Fixpoint decode_seq (ds : list (list Z → Z → outcome (abi_val * Z))) bytes index :
    outcome (list abi_val * Z) :=
  match ds with
  | [] => Ret ([], index)
  | d :: ds => r ← d bytes index ; rs ← decode_seq ds bytes r.2 ; Ret (r.1 :: rs.1, rs.2)
  end.

(** The elements of a vector or array: start, length, then the view behind the
    length word. *)
Definition decode_array (d : list Z → Z → outcome (abi_val * Z)) (expected : option nat) bytes index :
    outcome (abi_val * Z) :=
  arrayStart ← read_word bytes index ;
  arrayLength ← read_word bytes arrayStart ;
  (match expected with
   | Some n => if arrayLength =? Z.of_nat n then Ret ()
               else Throw (length_error "Array length does not match the expected size")
   | None => Ret ()
   end) ;;
  check_size bytes arrayStart 32 ;;
  view ← sub_view bytes (add64 arrayStart 32) ;
  rs ← decode_seq (replicate (Z.to_nat arrayLength) d) view 0 ;
  Ret (VList rs.1, add64 index 32).

(** [TypeDecoder<T>::decode] *)
Fixpoint decode (t : abi_type) bytes index {struct t} : outcome (abi_val * Z) :=
  match t with
  | TUint w => r ← decodeUint bytes index ; z ← cast_unsigned w r.1 ; Ret (VNum z, r.2)
  | TInt w => r ← decodeInt bytes index ; z ← cast_signed w r.1 ; Ret (VNum z, r.2)
  | TAddress =>
      check_size bytes index 32 ;; b ← read_at bytes (add64 index 12) 20 ;
      Ret (VNum (be_value b), add64 index 32)
  | THash =>
      check_size bytes index 32 ;; b ← read_at bytes index 32 ; Ret (VNum (be_value b), add64 index 32)
  | TBool =>
      check_size bytes index 32 ;; b ← read_at bytes (add64 index 31) 1 ;
      Ret (VBool (bool_decide (b = [1])), add64 index 32)
  | TFixedBytes n =>
      check_size bytes index 32 ;; b ← read_at bytes index (Z.of_nat n) ; Ret (VBytes b, index)
  | TBytes | TString => decode_bytes bytes index
  | TVector t => decode_array (decode t) None bytes index
  | TArray t n => decode_array (decode t) (Some n) bytes index
  | TTuple ts =>
      if existsb isDynamic ts then
        offset ← read_word bytes index ;
        view ← sub_view bytes offset ;
        rs ← decode_seq (map decode ts) view 0 ;
        Ret (VList rs.1, add64 index 32)
      else
        check_size bytes index (32 * Z.of_nat (length ts)) ;;
        rs ← decode_seq (map decode ts) bytes index ;
        Ret (VList rs.1, rs.2)
  end.

(** [Decoder::decodeData] *)
Definition decodeData (ts : list abi_type) bytes index : outcome (list abi_val) :=
  rs ← decode_seq (map decode ts) bytes index ; Ret rs.1.

(** [Decoder::decodeError] *)
Definition decodeError bytes : outcome (list Z) :=
  if decide (length bytes < 4)%nat then Ret [] else
  f ← bytesToUint32 (take 4 bytes) ;
  if negb (f =? 147028384) then Ret [] else
  vs ← decodeData [TString] (drop 4 bytes) 0 ;
  match vs with [VBytes l] => Ret l | _ => Ret [] end.
End decoder.

(** ** Typing of values *)

(** [typed L t v]: [v] has the structure of [t] and its leaves satisfy [L]. *)
Fixpoint typed (L : abi_type → abi_val → Prop) (t : abi_type) (v : abi_val) {struct t} : Prop :=
  match t, v with
  | TVector t, VList vs => Forall (typed L t) vs
  | TArray t n, VList vs => length vs = n ∧ Forall (typed L t) vs
  | TTuple ts, VList vs =>
      (fix go ts vs := match ts, vs with
                       | [], [] => True
                       | t :: ts, v :: vs => typed L t v ∧ go ts vs
                       | _, _ => False
                       end) ts vs
  | TVector _, _ | TArray _ _, _ | TTuple _, _ => False
  | _, _ => L t v
  end.

Definition typed_all (L : abi_type → abi_val → Prop) (ts : list abi_type) (vs : list abi_val) : Prop :=
  Forall2 (typed L) ts vs.

Lemma typed_tuple L ts vs : typed L (TTuple ts) (VList vs) ↔ typed_all L ts vs.
Proof.
  unfold typed_all. cbn [typed]. revert vs.
  induction ts as [|t ts IH]; intros [|v vs]; cbn; rewrite ?Forall2_cons; split; try done;
    try (by inversion 1); intros [? ?]; (split; [done|]); by apply IH.
Qed.

(** The values of the C++ types. *)
Definition leaf_type (t : abi_type) (v : abi_val) : Prop :=
  match t, v with
  | TUint w, VNum z => in_range w z
  | TInt w, VNum z => - 2 ^ w < z < 2 ^ w
  | TAddress, VNum z => in_range 160 z
  | THash, VNum z => in_range 256 z
  | TBool, VBool _ => True
  | TFixedBytes n, VBytes l => length l = n ∧ Forall is_byte l
  | TBytes, VBytes l | TString, VBytes l => Forall is_byte l
  | _, _ => False
  end.

(** The values that survive the encoding: unsigned numbers of at most 256 bits,
    and signed ones in the 256-bit two's complement range, those below zero with
    a lowest byte that is not zero. *)
Definition leaf_readable (t : abi_type) (v : abi_val) : Prop :=
  leaf_type t v ∧
  match t, v with
  | TUint _, VNum z => in_range 256 z
  | TInt _, VNum z => - 2 ^ 255 <= z < 2 ^ 255 ∧ (0 <= z ∨ z mod 256 ≠ 0)
  | _, _ => True
  end.
Definition readable : abi_type → abi_val → Prop := typed leaf_readable.

(** The types that survive: no [FixedBytes], whose decoder does not advance, and
    static tuples without tuples inside, whose offsets are counted right. *)
Definition is_tuple (t : abi_type) : bool := match t with TTuple _ => true | _ => false end.
Fixpoint sound_type (t : abi_type) : bool :=
  match t with
  | TFixedBytes _ => false
  | TVector t | TArray t _ => sound_type t
  | TTuple ts =>
      negb (bool_decide (length ts = 0%nat)) && forallb sound_type ts &&
      (existsb isDynamic ts || forallb (λ t, negb (is_tuple t)) ts)
  | _ => true
  end.

(** ** Bytes at a position *)

Definition at_pos (B : list Z) (i : Z) (e : list Z) : Prop :=
  ∃ pre post, B = pre ++ e ++ post ∧ Z.of_nat (length pre) = i.
(** The padding of bytes is counted in an [int]. *)
Definition small (B : list Z) : Prop := Z.of_nat (length B) < 2 ^ 31.

Lemma add64_small a b : 0 <= a + b < 2 ^ 64 → add64 a b = a + b.
Proof. intros. unfold add64. by apply wrap_id. Qed.

Lemma at_pos_bounds B i e : at_pos B i e → 0 <= i ∧ i + Z.of_nat (length e) <= Z.of_nat (length B).
Proof. intros (pre & post & -> & <-). rewrite !length_app. lia. Qed.

Lemma at_pos_split B i e1 e2 : at_pos B i (e1 ++ e2) →
  at_pos B i e1 ∧ at_pos B (i + Z.of_nat (length e1)) e2.
Proof.
  intros (pre & post & -> & <-). split.
  - exists pre, (e2 ++ post). by rewrite <- (assoc_L (++)).
  - exists (pre ++ e1), post. rewrite <- !(assoc_L (++)), length_app. split; [done|lia].
Qed.

Lemma read_at_pos B i e : at_pos B i e → read_at B i (Z.of_nat (length e)) = Ret e.
Proof.
  intros Ha. pose proof (at_pos_bounds B i e Ha) as [H1 H2]. destruct Ha as (pre & post & -> & <-).
  unfold read_at. destruct (Z.leb_spec 0 (Z.of_nat (length pre))); [|lia].
  destruct (Z.leb_spec (Z.of_nat (length pre) + Z.of_nat (length e)) (Z.of_nat (length (pre ++ e ++ post)))); [|lia].
  cbn. rewrite !Nat2Z.id, drop_app_length, take_app_length. done.
Qed.

Lemma check_size_pos B i e n : small B → at_pos B i e → 0 <= n <= Z.of_nat (length e) → check_size B i n = Ret ().
Proof.
  intros Hs Ha Hn. pose proof (at_pos_bounds B i e Ha). unfold small in Hs. unfold check_size.
  rewrite add64_small by lia. destruct (Z.ltb_spec (Z.of_nat (length B)) (i + n)); [lia|done].
Qed.

Lemma fromBigEndian64_value l : Forall is_byte l → fromBigEndian64 l = be_value l mod 2 ^ 64.
Proof.
  unfold fromBigEndian64, be_value. induction l as [|b l IH] using rev_ind; intros Hl; [done|].
  apply Forall_app in Hl as [Hl [Hb _]%Forall_cons]. rewrite !foldl_app. cbn [foldl]. rewrite IH by done.
  set (x := foldl _ 0 l). unfold wrap. unfold is_byte in Hb.
  rewrite Z.shiftl_mul_pow2 by lia. change (2 ^ 8) with 256.
  assert (Hor : ∀ y, Z.lor (y * 256 mod 2 ^ 64) b = y * 256 mod 2 ^ 64 + b).
  { intros y. assert (Hm : y * 256 mod 2 ^ 64 = (y mod 2 ^ 56) * 2 ^ 8).
    { change (2 ^ 64) with (2 ^ 56 * 256). rewrite Z.mul_mod_distr_r by lia. done. }
    rewrite Hm. rewrite <- Z.shiftl_mul_pow2 by lia. symmetry. apply Z.add_nocarry_lor.
    apply Z.bits_inj'. intros n Hn. rewrite Z.land_spec, Z.bits_0.
    destruct (decide (n < 8)).
    - rewrite Z.shiftl_spec_low by lia. done.
    - rewrite (Z.bits_above_log2 b n), andb_false_r; [done|lia|].
      destruct (decide (b = 0)) as [->|]; [cbn; lia|]. apply Z.lt_le_trans with 8; [|lia].
      apply Z.log2_lt_pow2; lia. }
  rewrite Hor. rewrite Zplus_mod_idemp_l, <- Zplus_mod_idemp_l, Z.mul_mod_idemp_l by lia.
  by rewrite Zplus_mod_idemp_l.
Qed.

Lemma read_word_pos B i k : small B → at_pos B i (be_bytes 32 k) → 0 <= k < 2 ^ 64 → read_word B i = Ret k.
Proof.
  intros Hs Ha Hk. unfold read_word. rewrite (check_size_pos B i (be_bytes 32 k)); [|done|done|].
  2: { rewrite be_bytes_length. lia. }
  cbn [mbind outcome_bind]. pose proof (read_at_pos B i _ Ha) as Hr. rewrite be_bytes_length in Hr.
  change (Z.of_nat 32) with 32 in Hr. rewrite Hr. cbn [mbind outcome_bind]. f_equal.
  rewrite fromBigEndian64_value, be_value_bytes by (apply be_bytes_is_byte || (unfold in_range; lia)).
  apply Z.mod_small. lia.
Qed.

Lemma sub_view_pos B i e : at_pos B i e → ∃ post, sub_view B i = Ret (e ++ post) ∧ (length (e ++ post) <= length B)%nat.
Proof.
  intros Ha. pose proof (at_pos_bounds B i e Ha). destruct Ha as (pre & post & -> & <-).
  exists post. unfold sub_view. destruct (Z.leb_spec (Z.of_nat (length pre)) (Z.of_nat (length (pre ++ e ++ post)))); [|lia].
  rewrite Nat2Z.id, drop_app_length, (length_app pre). split; [done|lia].
Qed.

(** ** What the encoder writes *)

Fixpoint heads (off : Z) (items : list (bool * list Z)) : list Z :=
  match items with
  | [] => []
  | (true, e) :: items => be_bytes 32 off ++ heads (off + Z.of_nat (length e)) items
  | (false, e) :: items => e ++ heads off items
  end.
Definition tails (items : list (bool * list Z)) : list Z :=
  concat (map (λ it : bool * list Z, if it.1 then it.2 else []) items).
Definition head_size (items : list (bool * list Z)) : Z :=
  foldr (λ (it : bool * list Z) acc, (if it.1 then 32 else Z.of_nat (length it.2)) + acc) 0 items.

Lemma heads_length off items : Z.of_nat (length (heads off items)) = head_size items.
Proof.
  revert off. induction items as [|[[] e] items IH]; intros off; cbn [heads head_size foldr fst snd]; [done|..].
  - rewrite length_app, be_bytes_length, Nat2Z.inj_add, IH. done.
  - rewrite length_app, Nat2Z.inj_add, IH. done.
Qed.

(** The loop of the encoder lays the heads before the tails. *)
Lemma encode_items_spec head items off r d :
  (∀ n, 0 <= n < 2 ^ 64 → head n = be_bytes 32 n) → 0 <= off → off + Z.of_nat (length (tails items)) < 2 ^ 64 →
  encode_items head items off r d = r ++ heads off items ++ d ++ tails items.
Proof.
  intros Hh. revert off r d. induction items as [|[[] e] items IH]; intros off r d H0 Hlt;
    cbn [encode_items heads]; unfold tails in *; cbn [map concat fst snd] in *.
  - cbn. by rewrite app_nil_r.
  - rewrite length_app in Hlt. rewrite add64_small, IH, Hh by lia. by rewrite <- !(assoc_L (++)).
  - cbn [app] in *. rewrite IH by lia. by rewrite <- !(assoc_L (++)).
Qed.

(** However large the offset, a head takes at least a word. *)
Lemma encode_items_length head items off r d : (∀ n, (32 <= length (head n))%nat) →
  Z.of_nat (length r) + head_size items + Z.of_nat (length d) + Z.of_nat (length (tails items)) <=
  Z.of_nat (length (encode_items head items off r d)).
Proof.
  intros Hh. revert off r d. induction items as [|[[] e] items IH]; intros off r d;
    cbn [encode_items head_size foldr]; unfold tails in *; cbn [map concat fst snd app].
  - rewrite length_app. cbn. lia.
  - specialize (IH (add64 off (Z.of_nat (length e))) (r ++ head off) (d ++ e)). specialize (Hh off).
    unfold head_size in IH. rewrite !length_app in *. lia.
  - specialize (IH off (r ++ e) d). unfold head_size in IH. rewrite !length_app in *. lia.
Qed.

Lemma head_size_nonneg items : 0 <= head_size items.
Proof. rewrite <- (heads_length 0). lia. Qed.

(** What fits in a buffer is laid out without overflow. *)
Lemma encode_items_laid head items B i : (∀ n, (32 <= length (head n))%nat) →
  (∀ n, 0 <= n < 2 ^ 64 → head n = be_bytes 32 n) → small B →
  at_pos B i (encode_items head items (head_size items) [] []) →
  encode_items head items (head_size items) [] [] = heads (head_size items) items ++ tails items.
Proof.
  intros Hl Hh HB Ha. apply at_pos_bounds in Ha as [Hi Ha]. unfold small in HB.
  pose proof (encode_items_length head items (head_size items) [] [] Hl) as Hlen. cbn [length] in Hlen.
  rewrite encode_items_spec; [done|done|apply head_size_nonneg|lia].
Qed.

Lemma word_length n : (32 <= length (word n))%nat.
Proof.
  unfold word, padLeftBytes, padding. rewrite length_app, length_replicate.
  destruct (Z.ltb_spec (Z.of_nat (length (uintToBytes n))) 32); lia.
Qed.

Lemma word_be n : 0 <= n < 2 ^ 64 → word n = be_bytes 32 n.
Proof.
  intros Hn. unfold word, padLeftBytes, padding. rewrite uintToBytes_be by lia.
  destruct (bytesRequired_spec n) as [Hlt Hge]; [lia|]. rewrite be_bytes_length.
  assert (Hk : (bytesRequired n <= 8)%nat).
  { destruct (decide (n = 0)) as [->|Hn0]; [vm_compute; lia|]. specialize (Hge Hn0).
    destruct (decide (bytesRequired n <= 8)%nat); [done|]. exfalso.
    pose proof (Z.pow_le_mono_r 256 8 (Z.of_nat (bytesRequired n) - 1)). change (256 ^ 8) with (2 ^ 64) in *. lia. }
  destruct (Z.ltb_spec (Z.of_nat (bytesRequired n)) 32); [|lia].
  rewrite <- be_bytes_pad; [f_equal; lia|]. unfold in_range. rewrite Z.pow_mul_r by lia.
  change (2 ^ 8) with 256. lia.
Qed.

Lemma encode_bytes_eq l : Z.of_nat (length l) < 2 ^ 64 →
  ∃ pad, encode_bytes l = be_bytes 32 (Z.of_nat (length l)) ++ l ++ pad.
Proof. intros Hl. eexists. unfold encode_bytes, padRightBytes. rewrite word_be by lia. done. Qed.

Section encoded.
Context {BB : BoostBits}.

Lemma encodeUint_be z : in_range 256 z → encodeUint z = be_bytes 32 z.
Proof. intros Hz. apply right_align_be; [done|lia]. Qed.

Lemma encodeInt_twos z : - 2 ^ 255 <= z < 2 ^ 255 → encodeInt z = be_bytes 32 (z mod 2 ^ 256).
Proof.
  intros Hz. unfold encodeInt. destruct (Z.ltb_spec z 0).
  - assert (Hmap : reverse (map (λ b, 255 - b) (le_bytes 32 (- z))) = map (λ b, 255 - b) (be_bytes 32 (- z))).
    { rewrite <- reverse_le_bytes. change (@map Z Z) with (@fmap list _ Z Z). by rewrite fmap_reverse. }
    rewrite Hmap, negate_bytes by (change (256 ^ Z.of_nat 32) with (2 ^ 256); lia).
    by rewrite Z.opp_involutive.
  - rewrite right_align_be; [|unfold in_range; change (8 * Z.of_nat 32) with 256; lia|lia].
    by rewrite Z.mod_small by lia.
Qed.

Lemma encodeUint_length z : length (encodeUint z) = 32%nat.
Proof. unfold encodeUint, right_align. by rewrite length_map, length_seq. Qed.

Lemma increment_length l : length (increment l) = length l.
Proof. induction l as [|x l IH]; cbn; [done|]. destruct (x =? 255); cbn; congruence. Qed.
Lemma le_bytes_length n z : length (le_bytes n z) = n.
Proof. by rewrite le_bytes_reverse, length_reverse, be_bytes_length. Qed.

Lemma encodeInt_length z : length (encodeInt z) = 32%nat.
Proof.
  unfold encodeInt. destruct (z <? 0).
  - by rewrite length_reverse, increment_length, !length_reverse, length_map, le_bytes_length.
  - unfold right_align. by rewrite length_map, length_seq.
Qed.

Lemma padLeft_length b : (length b <= 32)%nat → length (padLeftBytes b 32 0) = 32%nat.
Proof.
  intros Hb. unfold padLeftBytes, padding. rewrite length_app, length_replicate.
  destruct (Z.ltb_spec (Z.of_nat (length b)) 32); lia.
Qed.

(** A static type that is not a tuple takes one word. *)
Lemma static_leaf_length L t v : isDynamic t = false → is_tuple t = false →
  (∀ v, L t v → leaf_type t v) → sound_type t = true → typed L t v → length (encode t v) = 32%nat.
Proof.
  destruct t, v; cbn [isDynamic is_tuple typed encode sound_type]; intros Hd Ht HL Hs Hv; try done;
    try (by apply HL in Hv);
    first [apply encodeUint_length | apply encodeInt_length | apply be_bytes_length | apply padLeft_length].
  destruct b; cbn; lia.
Qed.

Definition items (ts : list abi_type) (vs : list abi_val) : list (bool * list Z) :=
  zip_with (λ t v, (isDynamic t, encode t v)) ts vs.

Lemma items_fold ts vs :
  zip_with (λ f v, f v) (map (λ t v, (isDynamic t, encode t v)) ts) vs = items ts vs.
Proof. unfold items. revert vs. induction ts as [|t ts IH]; intros [|v vs]; cbn; [done..|]. by rewrite IH. Qed.

Lemma items_replicate t vs : items (replicate (length vs) t) vs = map (λ v, (isDynamic t, encode t v)) vs.
Proof. unfold items. induction vs as [|v vs IH]; cbn; [done|]. by rewrite IH. Qed.

Lemma static_tails ts vs : existsb isDynamic ts = false → tails (items ts vs) = [].
Proof.
  unfold tails, items. revert vs. induction ts as [|t ts IH]; intros [|v vs]; cbn; try done.
  intros [-> H]%orb_false_iff. cbn. by apply IH.
Qed.

Lemma static_heads off off' ts vs : existsb isDynamic ts = false →
  heads off (items ts vs) = heads off' (items ts vs).
Proof.
  unfold items. revert vs. induction ts as [|t ts IH]; intros [|v vs]; cbn; try done.
  intros [-> H]%orb_false_iff. cbn. f_equal. by apply IH.
Qed.

Lemma concat_heads (l : list (list Z)) off : heads off (map (λ e, (false, e)) l) = concat l.
Proof. induction l as [|e l IH]; cbn; [done|]. by rewrite IH. Qed.
End encoded.

(** ** Decoding what was encoded *)

Section roundtrip.
Context {BB : BoostBits} {AC : AbiCasts}.

(** The encoding of [v] is in [B] where the decoder at [i] looks for it: in
    place, or behind an offset. *)
Definition placed (t : abi_type) (v : abi_val) (B : list Z) (i : Z) : Prop :=
  if isDynamic t then ∃ off, 0 <= off < 2 ^ 64 ∧ at_pos B i (be_bytes 32 off) ∧ at_pos B off (encode t v)
  else at_pos B i (encode t v).

Definition decodes (t : abi_type) : Prop := ∀ v B i,
  readable t v → small B → placed t v B i → decode t B i = Ret (v, i + calculateOffsetForType t).

(** The size of the head of an item is the one the offsets are computed with. *)
Definition sized (t : abi_type) : Prop := ∀ v, readable t v → isDynamic t = false →
  Z.of_nat (length (encode t v)) = calculateOffsetForType t.

Lemma items_head_size ts vs : Forall sized ts → typed_all leaf_readable ts vs →
  head_size (items ts vs) = calculateTotalOffset ts.
Proof.
  unfold items. intros Hs Ht. induction Ht as [|t v ts vs Hv Ht IH]; [done|].
  apply Forall_cons in Hs as [Hst Hs]. cbn [zip_with head_size foldr calculateTotalOffset fst snd].
  unfold head_size, calculateTotalOffset in IH. rewrite IH by done. f_equal.
  destruct (isDynamic t) eqn:E; [|by apply Hst]. unfold calculateOffsetForType. by rewrite E.
Qed.

(** Items laid out as heads [A ++ heads] and tails [T ++ tails] are decoded one
    after the other. *)
Lemma seq_decodes ts vs A T post : Forall decodes ts → Forall sized ts → typed_all leaf_readable ts vs →
  let off := Z.of_nat (length A) + head_size (items ts vs) + Z.of_nat (length T) in
  let B := A ++ heads off (items ts vs) ++ T ++ tails (items ts vs) ++ post in
  small B →
  decode_seq (map decode ts) B (Z.of_nat (length A)) = Ret (vs, Z.of_nat (length A) + calculateTotalOffset ts).
Proof.
  intros Hd Hs Ht. revert A T Hd Hs. induction Ht as [|t v ts vs Hv Ht IH]; intros A T Hd Hs off B HB.
  { cbn. do 2 f_equal. lia. }
  apply Forall_cons in Hd as [Hdt Hd]. apply Forall_cons in Hs as [Hst Hs].
  cbn [map decode_seq calculateTotalOffset foldr]. fold (calculateTotalOffset ts).
  unfold items in off, B. cbn [zip_with] in off, B. fold (items ts vs) in off, B.
  assert (Hoff : 0 <= off < 2 ^ 64).
  { subst off B. unfold small in HB. rewrite length_app, Nat2Z.inj_add in HB.
    rewrite length_app, Nat2Z.inj_add, heads_length in HB. rewrite length_app in HB.
    pose proof (heads_length 0 ((isDynamic t, encode t v) :: items ts vs)). lia. }
  destruct (isDynamic t) eqn:Edyn.
  - unfold tails in B. cbn [heads map concat fst snd] in B. fold (tails (items ts vs)) in B.
    cbn [head_size foldr fst snd] in off. fold (head_size (items ts vs)) in off.
    assert (Hp : placed t v B (Z.of_nat (length A))).
    { unfold placed. rewrite Edyn. exists off. split; [exact Hoff|]. split.
      - exists A. eexists. split; [|done]. unfold B. rewrite <- (assoc_L (++) (be_bytes 32 off)). reflexivity.
      - exists (A ++ be_bytes 32 off ++ heads (off + Z.of_nat (length (encode t v))) (items ts vs) ++ T),
          (tails (items ts vs) ++ post).
        split; [unfold B; by rewrite <- !(assoc_L (++))|].
        rewrite !length_app, be_bytes_length, !Nat2Z.inj_add, heads_length. unfold off. lia. }
    rewrite (Hdt v B _ Hv HB Hp). cbn [mbind outcome_bind fst snd].
    assert (Hc : calculateOffsetForType t = 32) by (unfold calculateOffsetForType; by rewrite Edyn).
    rewrite Hc. specialize (IH (A ++ be_bytes 32 off) (T ++ encode t v) Hd Hs).
    rewrite !length_app, be_bytes_length, !Nat2Z.inj_add in IH. change (Z.of_nat 32) with 32 in IH.
    replace (Z.of_nat (length A) + 32 + head_size (items ts vs) + (Z.of_nat (length T) + Z.of_nat (length (encode t v))))
      with (off + Z.of_nat (length (encode t v))) in IH by (unfold off; lia).
    cbn zeta in IH. rewrite <- !(assoc_L (++)) in IH.
    unfold B in HB |- *. rewrite <- !(assoc_L (++)) in HB |- *.
    rewrite (IH HB). cbn [mbind outcome_bind fst snd]. do 2 f_equal. lia.
  - unfold tails in B. cbn [heads map concat fst snd app] in B. fold (tails (items ts vs)) in B.
    cbn [head_size foldr fst snd] in off. fold (head_size (items ts vs)) in off.
    assert (Hp : placed t v B (Z.of_nat (length A))).
    { unfold placed. rewrite Edyn. exists A. eexists. split; [|done]. unfold B.
      rewrite <- (assoc_L (++) (encode t v)). reflexivity. }
    rewrite (Hdt v B _ Hv HB Hp). cbn [mbind outcome_bind fst snd].
    rewrite <- (Hst v Hv Edyn). specialize (IH (A ++ encode t v) T Hd Hs).
    rewrite !length_app, !Nat2Z.inj_add in IH.
    replace (Z.of_nat (length A) + Z.of_nat (length (encode t v)) + head_size (items ts vs) + Z.of_nat (length T))
      with off in IH by (unfold off; lia).
    cbn zeta in IH. rewrite <- !(assoc_L (++)) in IH.
    unfold B in HB |- *. rewrite <- !(assoc_L (++)) in HB |- *.
    rewrite (IH HB). cbn [mbind outcome_bind fst snd]. do 2 f_equal. lia.
Qed.

(** Reading one word. *)
Lemma word_read B i e : small B → at_pos B i e → length e = 32%nat →
  check_size B i 32 = Ret () ∧ read_at B i 32 = Ret e ∧ add64 i 32 = i + 32 ∧ add64 i 12 = i + 12 ∧ add64 i 31 = i + 31.
Proof.
  intros Hs Ha Hl. pose proof (at_pos_bounds B i e Ha). pose proof (read_at_pos B i e Ha) as Hr.
  rewrite Hl in Hr. unfold small in Hs. rewrite Hl in *.
  split_and!; [apply (check_size_pos B i e); [done|done|rewrite Hl; lia] | exact Hr | apply add64_small; lia..].
Qed.

Lemma sound_leaf_sized t : isDynamic t = false → is_tuple t = false → sound_type t = true → sized t.
Proof.
  intros Hd Ht Hs v Hv _. rewrite (static_leaf_length leaf_readable t v Hd Ht); [|by intros ? [? _]|done|done].
  unfold calculateOffsetForType. rewrite Hd. by destruct t.
Qed.

Lemma uint_decodes w : decodes (TUint w).
Proof.
  intros [z| | |] B i Hv HB Hp; cbn in Hv; try (by destruct Hv). destruct Hv as [Hw Hz].
  unfold placed in Hp. cbn [isDynamic encode] in Hp. rewrite encodeUint_be in Hp by done.
  destruct (word_read B i _ HB Hp (be_bytes_length 32 z)) as (Hc & Hr & Ha & _).
  cbn [decode]. unfold decodeUint. rewrite Hc. cbn [mbind outcome_bind]. rewrite Hr. cbn [mbind outcome_bind].
  unfold bytesToUint256. rewrite (bytesToUint_be 32 z) by done. cbn [mbind outcome_bind fst snd].
  rewrite cast_unsigned_fits by done. cbn. by rewrite Ha.
Qed.

Lemma int_decodes w : decodes (TInt w).
Proof.
  intros [z| | |] B i Hv HB Hp; cbn in Hv; try (by destruct Hv). destruct Hv as [Hw [Hz Hlow]].
  unfold placed in Hp. cbn [isDynamic encode] in Hp. rewrite encodeInt_twos in Hp by done.
  destruct (word_read B i _ HB Hp (be_bytes_length 32 _)) as (Hc & Hr & Ha & _).
  cbn [decode]. unfold decodeInt. rewrite Hc. cbn [mbind outcome_bind]. rewrite Hr. cbn [mbind outcome_bind].
  destruct (bytesToInt256_twos z Hz) as [Hb _]. rewrite (Hb Hlow). cbn [mbind outcome_bind fst snd].
  rewrite cast_signed_fits by done. cbn. by rewrite Ha.
Qed.

Lemma pad_word b : (length b <= 32)%nat → padLeftBytes b 32 0 = replicate (32 - length b) 0 ++ b.
Proof.
  intros Hb. unfold padLeftBytes, padding. f_equal. f_equal.
  destruct (Z.ltb_spec (Z.of_nat (length b)) 32); lia.
Qed.

Lemma address_decodes : decodes TAddress.
Proof.
  intros [z| | |] B i Hv HB Hp; cbn in Hv; try (by destruct Hv). destruct Hv as [Hz _].
  unfold placed in Hp. cbn [isDynamic encode] in Hp. rewrite pad_word in Hp by (rewrite be_bytes_length; lia).
  rewrite be_bytes_length in Hp.
  assert (Hlen : length (replicate (32 - 20) 0 ++ be_bytes 20 z) = 32%nat) by (rewrite length_app, be_bytes_length; done).
  destruct (word_read B i _ HB Hp Hlen) as (Hc & _ & Ha & Ha12 & _).
  apply at_pos_split in Hp as [_ Hp]. rewrite length_replicate in Hp. apply read_at_pos in Hp.
  rewrite be_bytes_length in Hp.
  cbn [decode]. rewrite Hc. cbn [mbind outcome_bind]. rewrite Ha12. change (Z.of_nat (32 - 20)) with 12 in Hp.
  change (Z.of_nat 20) with 20 in Hp. rewrite Hp. cbn [mbind outcome_bind]. rewrite be_value_bytes by done. by rewrite Ha.
Qed.

Lemma hash_decodes : decodes THash.
Proof.
  intros [z| | |] B i Hv HB Hp; cbn in Hv; try (by destruct Hv). destruct Hv as [Hz _].
  unfold placed in Hp. cbn [isDynamic encode] in Hp.
  destruct (word_read B i _ HB Hp (be_bytes_length 32 z)) as (Hc & Hr & Ha & _).
  cbn [decode]. rewrite Hc. cbn [mbind outcome_bind]. rewrite Hr. cbn [mbind outcome_bind].
  rewrite be_value_bytes by done. by rewrite Ha.
Qed.

Lemma bool_decodes : decodes TBool.
Proof.
  intros [|b| |] B i Hv HB Hp; cbn in Hv; try (by destruct Hv).
  unfold placed in Hp. cbn [isDynamic encode] in Hp. rewrite pad_word in Hp by (destruct b; cbn; lia).
  assert (Hlen : length (replicate (32 - length (if b then [1] else [0])) 0 ++ (if b then [1] else [0])) = 32%nat)
    by (by destruct b).
  destruct (word_read B i _ HB Hp Hlen) as (Hc & _ & Ha & _ & Ha31).
  apply at_pos_split in Hp as [_ Hp]. rewrite length_replicate in Hp. apply read_at_pos in Hp.
  assert (length (if b then [1] else [0]) = 1%nat) as Hl by (by destruct b). rewrite Hl in Hp.
  cbn [decode]. rewrite Hc. cbn [mbind outcome_bind]. rewrite Ha31. change (Z.of_nat (32 - 1)) with 31 in Hp.
  change (Z.of_nat 1) with 1 in Hp. rewrite Hp. cbn [mbind outcome_bind]. rewrite Ha. by destruct b.
Qed.

Lemma bytes_decode l B i off : Forall is_byte l → small B → 0 <= off < 2 ^ 64 →
  at_pos B i (be_bytes 32 off) → at_pos B off (encode_bytes l) → decode_bytes B i = Ret (VBytes l, i + 32).
Proof.
  intros Hl HB Hoff Hi He. pose proof (at_pos_bounds _ _ _ He) as [_ Hle].
  unfold encode_bytes, padRightBytes in Hle. rewrite !length_app in Hle. unfold small in HB.
  destruct (encode_bytes_eq l) as [pad Hpad]; [lia|]. rewrite Hpad in He.
  apply at_pos_split in He as [Hlen He]. rewrite be_bytes_length in He. apply at_pos_split in He as [Hdata _].
  pose proof (at_pos_bounds _ _ _ Hdata) as [_ Hdb]. change (Z.of_nat 32) with 32 in *.
  unfold decode_bytes. rewrite (read_word_pos B i off) by done. cbn [mbind outcome_bind].
  rewrite (read_word_pos B off (Z.of_nat (length l))) by (done || lia). cbn [mbind outcome_bind].
  pose proof (at_pos_bounds _ _ _ Hi) as [? Hb]. rewrite be_bytes_length in Hb. change (Z.of_nat 32) with 32 in Hb.
  rewrite (add64_small off 32), (add64_small (off + 32)), (add64_small i 32) by lia.
  destruct (Z.ltb_spec (Z.of_nat (length B)) (off + 32 + Z.of_nat (length l))); [lia|]. cbn [mbind outcome_bind].
  by rewrite read_at_pos by done.
Qed.

Lemma bytes_decodes : decodes TBytes ∧ decodes TString.
Proof.
  split; intros [| |l|] B i Hv HB Hp; cbn in Hv; try (by destruct Hv); destruct Hv as [Hl _];
    destruct Hp as (off & Hoff & Hi & He); by apply (bytes_decode l B i off).
Qed.

(** Elements in a view, as the decoder of vectors and dynamic tuples sees them. *)
Lemma view_decodes ts vs post : Forall decodes ts → Forall sized ts → typed_all leaf_readable ts vs →
  let B := (heads (head_size (items ts vs)) (items ts vs) ++ tails (items ts vs)) ++ post in
  small B → decode_seq (map decode ts) B 0 = Ret (vs, calculateTotalOffset ts).
Proof.
  intros Hd Hs Ht B HB. pose proof (seq_decodes ts vs [] [] post Hd Hs Ht) as H. cbn zeta in H.
  cbn [length app] in H. rewrite Z.add_0_l, Z.add_0_r in H. unfold B in *.
  rewrite <- (assoc_L (++)) in HB |- *. rewrite Z.add_0_l in H. by apply H.
Qed.

Lemma calc_replicate t n : calculateTotalOffset (replicate n t) = Z.of_nat n * calculateOffsetForType t.
Proof. unfold calculateTotalOffset. induction n as [|n IH]; cbn [replicate foldr]; [done|]. rewrite IH. lia. Qed.

Lemma uint256_head n : (32 <= length (uint256ToBytes n))%nat.
Proof. change (uint256ToBytes n) with (encodeUint n). by rewrite encodeUint_length. Qed.

(** The elements of a vector, dynamic or not, are laid out like a tuple's. *)
Lemma body_laid t vs B i : small B →
  let its := items (replicate (length vs) t) vs in
  let body := if isDynamic t
    then encode_items uint256ToBytes (map (λ v, (true, encode t v)) vs) (32 * Z.of_nat (length vs)) [] []
    else concat (map (encode t) vs) in
  at_pos B i body → head_size its < 2 ^ 64 ∧ body = heads (head_size its) its ++ tails its.
Proof.
  intros HB its body Ha. unfold its, body in *. clear its body. rewrite items_replicate. destruct (isDynamic t).
  - assert (Hsz : head_size (map (λ v, (true, encode t v)) vs) = 32 * Z.of_nat (length vs)).
    { clear. induction vs as [|v vs IH]; cbn [map length head_size foldr fst]; [done|]. unfold head_size in IH. lia. }
    rewrite <- Hsz in Ha |- *.
    assert (Heq := Ha). apply (encode_items_laid uint256ToBytes _ B i) in Heq; [|apply uint256_head| |done].
    2: { intros n Hn. apply encodeUint_be. unfold in_range. lia. }
    split; [|done]. apply at_pos_bounds in Ha. rewrite Heq, length_app, Nat2Z.inj_add, heads_length in Ha.
    unfold small in HB. lia.
  - rewrite <- (concat_heads (map (encode t) vs) (head_size (map (λ v, (false, encode t v)) vs))), map_map in Ha |- *.
    assert (Ht : tails (map (λ v, (false, encode t v)) vs) = []) by (clear; induction vs; [done|by cbn]).
    rewrite Ht, app_nil_r. split; [|done]. apply at_pos_bounds in Ha. rewrite heads_length in Ha.
    unfold small in HB. lia.
Qed.

Lemma readable_replicate t vs : Forall (readable t) vs → typed_all leaf_readable (replicate (length vs) t) vs.
Proof. induction 1; cbn; constructor; auto. Qed.

Lemma array_decode t vs expected B i off : decodes t → sized t → 0 < calculateOffsetForType t →
  Forall (readable t) vs → expected = None ∨ expected = Some (length vs) → small B → 0 <= off < 2 ^ 64 →
  at_pos B i (be_bytes 32 off) → at_pos B off (encode (TVector t) (VList vs)) →
  decode_array (decode t) expected B i = Ret (VList vs, i + 32).
Proof.
  intros Hd Hs Hpos Hvs Hex HB Hoff Hi He. cbn [encode] in He. apply at_pos_split in He as [Hlen He].
  pose proof (body_laid t vs B _ HB He) as [Hsz Hbody]. rewrite Hbody in He. clear Hbody.
  pose proof (readable_replicate t vs Hvs) as Hts.
  assert (Hn : Z.of_nat (length vs) < 2 ^ 64).
  { rewrite items_head_size, calc_replicate in Hsz; [nia|by apply Forall_replicate|done]. }
  rewrite word_be in Hlen, He by lia. rewrite be_bytes_length in He. change (Z.of_nat 32) with 32 in He.
  destruct (word_read B i _ HB Hi (be_bytes_length 32 _)) as (_ & _ & Ha & _).
  destruct (word_read B off _ HB Hlen (be_bytes_length 32 _)) as (Hc & _ & Ho & _).
  unfold decode_array. rewrite (read_word_pos B i off) by done. cbn [mbind outcome_bind].
  rewrite (read_word_pos B off (Z.of_nat (length vs))) by (done || lia). cbn [mbind outcome_bind].
  destruct (sub_view_pos B (off + 32) _ He) as (post & Hsub & Hle).
  pose proof (view_decodes (replicate (length vs) t) vs post) as Hv.
  assert (Hmap : map decode (replicate (length vs) t) = replicate (length vs) (decode t)).
  { clear. induction (length vs) as [|n IH]; cbn; [done|]. by rewrite IH. }
  rewrite Hmap in Hv.
  assert (Hexp : match expected with
    | Some n => if Z.of_nat (length vs) =? Z.of_nat n then Ret ()
                else Throw (length_error "Array length does not match the expected size")
    | None => Ret () end = Ret ()) by (destruct Hex as [->| ->]; [done|by rewrite Z.eqb_refl]).
  rewrite Hexp. cbn [mbind outcome_bind]. rewrite Hc. cbn [mbind outcome_bind]. rewrite Ho, Hsub. cbn [mbind outcome_bind].
  rewrite Nat2Z.id, Hv; [|by apply Forall_replicate|by apply Forall_replicate|done|unfold small in *; lia].
  cbn. by rewrite Ha.
Qed.

Lemma tuple_encode ts vs : encode (TTuple ts) (VList vs) =
  encode_items word (items ts vs) (calculateTotalOffset ts) [] [].
Proof. cbn [encode]. by rewrite items_fold. Qed.

Lemma tuple_laid ts vs B i : Forall sized ts → typed_all leaf_readable ts vs → small B →
  at_pos B i (encode (TTuple ts) (VList vs)) →
  encode (TTuple ts) (VList vs) = heads (head_size (items ts vs)) (items ts vs) ++ tails (items ts vs).
Proof.
  intros Hs Ht HB. rewrite tuple_encode, <- (items_head_size ts vs) by done.
  apply encode_items_laid; [apply word_length|apply word_be|done].
Qed.

(** Without tuples inside, the head of a static tuple has a word per element. *)
Lemma static_flat_size ts : existsb isDynamic ts = false → forallb (λ t, negb (is_tuple t)) ts = true →
  calculateTotalOffset ts = 32 * Z.of_nat (length ts).
Proof.
  unfold calculateTotalOffset. induction ts as [|t ts IH]; cbn [existsb forallb foldr length]; [done|].
  intros [Hd Hds]%orb_false_iff [Ht Hts]%andb_true_iff. rewrite IH by done.
  unfold calculateOffsetForType. rewrite Hd. destruct t; try discriminate Ht; lia.
Qed.

Lemma tuple_decodes ts : (existsb isDynamic ts || forallb (λ t, negb (is_tuple t)) ts) = true →
  Forall decodes ts → Forall sized ts → decodes (TTuple ts).
Proof.
  intros Hf Hd Hs [| | |vs] B i Hv HB Hp; try (by destruct Hv). apply typed_tuple in Hv.
  cbn [decode]. unfold placed in Hp. unfold calculateOffsetForType. cbn [isDynamic] in *. destruct (existsb isDynamic ts) eqn:E.
  - destruct Hp as (off & Hoff & Hi & He). rewrite (tuple_laid ts vs B off) in He by done.
    destruct (word_read B i _ HB Hi (be_bytes_length 32 _)) as (_ & _ & Ha & _).
    rewrite (read_word_pos B i off) by done. cbn [mbind outcome_bind].
    destruct (sub_view_pos B off _ He) as (post & Hsub & Hle). rewrite Hsub. cbn [mbind outcome_bind].
    rewrite (view_decodes ts vs post) by (done || (unfold small in *; lia)). cbn. by rewrite Ha.
  - rewrite (tuple_laid ts vs B i) in Hp by done. rewrite static_tails, app_nil_r in Hp by done.
    pose proof (static_flat_size ts E Hf) as Hsize.
    assert (Hc : check_size B i (32 * Z.of_nat (length ts)) = Ret ()).
    { eapply check_size_pos; [done|exact Hp|]. rewrite heads_length, items_head_size by done. lia. }
    rewrite Hc. cbn [mbind outcome_bind]. destruct Hp as (pre & post & -> & <-).
    pose proof (seq_decodes ts vs pre [] post Hd Hs Hv) as H. cbn zeta in H. rewrite static_tails in H by done. cbn [app] in H.
    erewrite (static_heads (head_size (items ts vs))) in HB |- * by done. rewrite H by done. cbn. by rewrite Hsize.
Qed.

Lemma static_items_length head ts vs off r : existsb isDynamic ts = false →
  Z.of_nat (length (encode_items head (items ts vs) off r [])) = Z.of_nat (length r) + head_size (items ts vs).
Proof.
  unfold items. revert vs r. induction ts as [|t ts IH]; intros [|v vs] r; cbn; rewrite ?app_nil_r; try lia.
  intros [-> H]%orb_false_iff. cbn. rewrite IH, length_app by done. unfold head_size. lia.
Qed.

Lemma tuple_sized ts : (existsb isDynamic ts || forallb (λ t, negb (is_tuple t)) ts) = true →
  Forall sized ts → sized (TTuple ts).
Proof.
  intros Hf Hs [| | |vs] Hv Hdyn; try (by destruct Hv). apply typed_tuple in Hv. cbn [isDynamic] in Hdyn.
  unfold calculateOffsetForType. cbn [isDynamic]. rewrite Hdyn in Hf |- *. cbn in Hf.
  rewrite <- static_flat_size, <- (items_head_size ts vs), tuple_encode by done.
  by rewrite static_items_length by done.
Qed.

(** Sound types are decoded at every place their encoding was put. *)
Lemma sound_decodes t : sound_type t = true → decodes t ∧ sized t ∧ 0 < calculateOffsetForType t.
Proof.
  induction t as [w|w| | | |n| | |t IH|t n IH|ts IH] using abi_type_ind'; intros Hs; cbn [sound_type] in Hs; try done;
    try (split; [by first [apply uint_decodes | apply int_decodes | apply address_decodes | apply bool_decodes
                          | apply hash_decodes | apply bytes_decodes]
                |split; [first [by apply sound_leaf_sized | by intros v _ ?] | done]]).
  - destruct (IH Hs) as (Hd & Hz & Hp). split; [|split; [by intros v _ ?|done]].
    intros [| | |vs] B i Hv HB (off & Hoff & Hi & He); try (by destruct Hv).
    apply (array_decode t vs None B i off); auto.
  - destruct (IH Hs) as (Hd & Hz & Hp). split; [|split; [by intros v _ ?|done]].
    intros [| | |vs] B i Hv HB (off & Hoff & Hi & He); try (by destruct Hv). destruct Hv as [Hl Hv].
    apply (array_decode t vs (Some n) B i off); subst; auto.
  - apply andb_true_iff in Hs as [[Hne Hall]%andb_true_iff Hf].
    assert (HF : Forall (λ t, decodes t ∧ sized t ∧ 0 < calculateOffsetForType t) ts).
    { apply Forall_forall. intros t Ht. rewrite Forall_forall in IH. apply IH; [done|].
      rewrite forallb_forall in Hall. apply Hall. by apply list_elem_of_In. }
    assert (Hd : Forall decodes ts) by (eapply Forall_impl; [exact HF|by intros ? (? & ? & ?)]).
    assert (Hz : Forall sized ts) by (eapply Forall_impl; [exact HF|by intros ? (? & ? & ?)]).
    split; [by apply tuple_decodes|split; [by apply tuple_sized|]].
    unfold calculateOffsetForType. destruct (isDynamic (TTuple ts)); [done|].
    destruct ts; [done|cbn [length]; lia].
Qed.

Lemma sound_decodes_all ts : forallb sound_type ts = true → Forall decodes ts ∧ Forall sized ts.
Proof.
  induction ts as [|t ts IH]; cbn [forallb]; [by split; constructor|]. intros [Ht Hts]%andb_true_iff.
  destruct (IH Hts), (sound_decodes t Ht) as (? & ? & _). split; by constructor.
Qed.

Lemma encodeData_tuple ts vs : encodeData ts vs = encode_items word (items ts vs) (calculateTotalOffset ts) [] [].
Proof. by destruct ts, vs. Qed.

Lemma data_decodes ts vs : forallb sound_type ts = true → typed_all leaf_readable ts vs → small (encodeData ts vs) →
  decodeData ts (encodeData ts vs) 0 = Ret vs.
Proof.
  intros Hs Hv HB. destruct (sound_decodes_all ts Hs) as [Hd Hz]. unfold decodeData.
  pose proof (tuple_laid ts vs (encodeData ts vs) 0 Hz Hv HB) as Hlay.
  rewrite encodeData_tuple, <- tuple_encode in *.
  specialize (Hlay ltac:(exists [], []; by rewrite app_nil_r)). rewrite Hlay in HB |- *.
  rewrite <- (app_nil_r (heads _ _ ++ _)) in HB |- *. by rewrite view_decodes by done.
Qed.

Lemma error_selector : hex_toBytes (String.list_ascii_of_string "0x08c379a0") = Ret [8; 195; 121; 160].
Proof. by vm_compute. Qed.

(** C19: what [ABI::Encoder::encodeData] writes for arguments of sound types
    (unsigned and signed numbers of every width, addresses, booleans, hashes,
    bytes, strings, and vectors, arrays and tuples of them, nested; no
    [FixedBytes], and no tuple inside a static tuple), the decoder reads back as
    the same values; and the reason of a revert encoded by [encodeError] is the one
    [decodeError] returns.  The numbers are in the range of their type and, when
    negative, not a multiple of 256, which the decoder reads as another number
    ([int256_bytes]); the encoding has less than 2^31 bytes. *)
Theorem abi_roundtrip ts vs reason :
  forallb sound_type ts = true → typed_all leaf_readable ts vs → small (encodeData ts vs) →
  Forall is_byte reason → small (encodeData [TString] [VBytes reason]) →
  decodeData ts (encodeData ts vs) 0 = Ret vs ∧
  (data ← encodeError reason ; decodeError data) = Ret reason.
Proof.
  intros Hs Hv HB Hr HBr. split; [by apply data_decodes|].
  unfold encodeError. rewrite error_selector. cbn [mbind outcome_bind]. unfold decodeError.
  destruct (decide _) as [Hlt|_]; [cbn in Hlt; lia|].
  rewrite take_app_length', drop_app_length' by done.
  replace (bytesToUint32 [8; 195; 121; 160]) with (@Ret Z 147028384) by (by vm_compute).
  cbn [mbind outcome_bind]. rewrite Z.eqb_refl. cbn [negb]. rewrite data_decodes; [done|done| |done].
  repeat constructor. done.
Qed.
End roundtrip.

(** ** The layout the decoder reads *)

(** The part of [n] bytes at [p], and the words of the layout: the whole word, and
    its low 64 bits where it is an offset or a length. *)
Definition inside (B : list Z) (p n : Z) : Prop := 0 <= p ∧ p + n <= Z.of_nat (length B).
Definition slice_at (B : list Z) (p n : Z) : list Z := take (Z.to_nat n) (drop (Z.to_nat p) B).
Definition word_at (B : list Z) (p : Z) : Z := be_value (slice_at B p 32).
Definition offset_at (B : list Z) (p : Z) : Z := word_at B p mod 2 ^ 64.
(** The bytes a value takes in the head. *)
Fixpoint span (t : abi_type) : Z :=
  match t with
  | TTuple ts => if existsb isDynamic ts then 32 else foldr Z.add 0 (map span ts)
  | _ => 32
  end.
Fixpoint laid_seq (ls : list ((list Z → Z → abi_val → Prop) * Z)) (B : list Z) (p : Z) (vs : list abi_val) : Prop :=
  match ls, vs with
  | [], [] => True
  | (L, n) :: ls, v :: vs => L B p v ∧ laid_seq ls B (p + n) vs
  | _, _ => False
  end.

Section decoded.
Context {BB : BoostBits} {AC : AbiCasts}.

(** The two's complement of the word; [bytesToInt256] has another result for a
    negative number whose lowest byte is zero ([int256_bytes]). *)
Definition int_at (B : list Z) (p n : Z) : Prop :=
  let s := signed 32 (word_at B p) in
  if decide (0 <= s ∨ s mod 256 ≠ 0) then n = s else bytesToInt256 (slice_at B p 32) = Ret n.

(** [laid t B p v]: the value [v] of type [t] has its head at [p] in [B].  Bytes,
    strings, vectors and arrays have an offset in their head, at the offset a
    length, and behind it their content, with its offsets counted from there; a
    dynamic tuple has an offset, and its members behind it. *)
Fixpoint laid (t : abi_type) (B : list Z) (p : Z) (v : abi_val) {struct t} : Prop :=
  let q := offset_at B p in
  let n := offset_at B q in
  match t, v with
  | TUint w, VNum z => inside B p 32 ∧ cast_unsigned w (word_at B p) = Ret z
  | TInt w, VNum z => inside B p 32 ∧ ∃ x, int_at B p x ∧ cast_signed w x = Ret z
  | TAddress, VNum z => inside B p 32 ∧ z = word_at B p mod 2 ^ 160
  | THash, VNum z => inside B p 32 ∧ z = word_at B p
  | TBool, VBool b => inside B p 32 ∧ b = bool_decide (word_at B p mod 2 ^ 8 = 1)
  | TBytes, VBytes l | TString, VBytes l =>
      inside B p 32 ∧ inside B q 32 ∧ inside B (q + 32) n ∧ l = slice_at B (q + 32) n
  | TVector t, VList vs =>
      inside B p 32 ∧ inside B q 32 ∧ Z.of_nat (length vs) = n ∧
      laid_seq (replicate (length vs) (laid t, span t)) (drop (Z.to_nat (q + 32)) B) 0 vs
  | TArray t m, VList vs =>
      inside B p 32 ∧ inside B q 32 ∧ length vs = m ∧ Z.of_nat m = n ∧
      laid_seq (replicate (length vs) (laid t, span t)) (drop (Z.to_nat (q + 32)) B) 0 vs
  | TTuple ts, VList vs =>
      if existsb isDynamic ts
      then inside B p 32 ∧ inside B q 0 ∧ laid_seq (map (λ t, (laid t, span t)) ts) (drop (Z.to_nat q) B) 0 vs
      else laid_seq (map (λ t, (laid t, span t)) ts) B p vs
  | _, _ => False
  end.
Definition lay (t : abi_type) := (laid t, span t).

(** The types the decoder advances over: no [FixedBytes], no empty tuple. *)
Fixpoint decodable (t : abi_type) : bool :=
  match t with
  | TFixedBytes _ => false
  | TVector t | TArray t _ => decodable t
  | TTuple ts => negb (bool_decide (ts = [])) && forallb decodable ts
  | _ => true
  end.
(** The types whose offsets are checked. *)
Fixpoint checked_offsets (t : abi_type) : bool :=
  match t with
  | TVector t | TArray t _ => checked_offsets t
  | TTuple ts => negb (existsb isDynamic ts) && forallb checked_offsets ts
  | _ => true
  end.
(** The data hold eight bytes which, as an offset or a length, overflow when more
    is added to them. *)
Definition hostile (B : list Z) : Prop :=
  ∃ p, (p + 8 <= length B)%nat ∧ 2 ^ 64 - 2 ^ 32 <= be_value (take 8 (drop p B)).

Lemma hostile_drop B k : hostile (drop k B) → hostile B.
Proof. intros (p & Hp & H). rewrite length_drop in Hp. rewrite drop_drop in H. exists (k + p)%nat. split; [lia|done]. Qed.
Lemma small_drop B k : small B → small (drop k B).
Proof. unfold small. rewrite length_drop. lia. Qed.

Lemma be_value_app a b : be_value (a ++ b) = be_value a * 256 ^ Z.of_nat (length b) + be_value b.
Proof.
  induction b as [|x b IH] using rev_ind; [rewrite app_nil_r; cbn; lia|].
  rewrite (assoc_L (++)), !be_value_snoc, IH, length_app, Nat.add_1_r, pow256_succ. lia.
Qed.
Lemma read_at_part B p n : 0 <= n → read_at B p n = if decide (inside B p n) then Ret (slice_at B p n) else Throw undefined_behaviour.
Proof.
  intros Hn. unfold read_at, inside, slice_at.
  destruct (Z.leb_spec 0 p), (Z.leb_spec (p + n) (Z.of_nat (length B))); case_decide; done || lia.
Qed.
Lemma part_bytes B p n : Forall is_byte B → Forall is_byte (slice_at B p n).
Proof. intros. by apply Forall_take, Forall_drop. Qed.
Lemma part_length B p n : 0 <= n → inside B p n → length (slice_at B p n) = Z.to_nat n.
Proof. unfold inside, slice_at. intros. rewrite length_take, length_drop. lia. Qed.

(** The low bytes of a word. *)
Lemma word_low B p (k : nat) : Forall is_byte B → inside B p 32 → (k <= 32)%nat →
  be_value (slice_at B (p + 32 - Z.of_nat k) (Z.of_nat k)) = word_at B p mod 256 ^ Z.of_nat k.
Proof.
  intros HB [Hp Hi] Hk. unfold word_at, slice_at. rewrite Nat2Z.id.
  assert (E : take (Z.to_nat 32) (drop (Z.to_nat p) B) =
    take (32 - k) (drop (Z.to_nat p) B) ++ take k (drop (Z.to_nat (p + 32 - Z.of_nat k)) B)).
  { replace (Z.to_nat (p + 32 - Z.of_nat k)) with (Z.to_nat p + (32 - k))%nat by lia. rewrite <- drop_drop.
    rewrite take_take_drop. f_equal. lia. }
  rewrite E, be_value_app. assert (Hl : length (take k (drop (Z.to_nat (p + 32 - Z.of_nat k)) B)) = k) by (rewrite length_take, length_drop; lia).
  rewrite Hl, (Z.add_comm (_ * _)), Z.mod_add by (apply Z.pow_nonzero; lia). symmetry. apply Z.mod_small.
  pose proof (be_value_bound (take k (drop (Z.to_nat (p + 32 - Z.of_nat k)) B)) ltac:(by apply Forall_take, Forall_drop)) as H.
  by rewrite Hl in H.
Qed.
Lemma offset_range B p : 0 <= offset_at B p < 2 ^ 64.
Proof. apply Z.mod_pos_bound. lia. Qed.
Lemma offset_hostile B p : Forall is_byte B → inside B p 32 → 2 ^ 64 - 2 ^ 32 <= offset_at B p → hostile B.
Proof.
  intros HB Hi Ho. pose proof (word_low B p 8 HB Hi ltac:(lia)) as H. destruct Hi as [Hp Hi]. exists (Z.to_nat (p + 24)). split; [lia|].
  unfold slice_at in H. replace (p + 32 - Z.of_nat 8) with (p + 24) in H by lia. change (Z.to_nat (Z.of_nat 8)) with 8%nat in H.
  rewrite H. exact Ho.
Qed.

(** The decoder reads a word when it is there, and reads outside the data only
    when the position overflows. *)
Lemma check_size_spec B p n : small B → 0 <= p < 2 ^ 64 → 0 <= n < 2 ^ 64 → check_size B p n =
  if decide (inside B p n ∨ 2 ^ 64 <= p + n ∧ p + n - 2 ^ 64 <= Z.of_nat (length B)) then Ret () else Throw too_short.
Proof.
  intros Hs Hp Hn. unfold small in Hs. unfold check_size, add64, wrap, inside. destruct (decide (p + n < 2 ^ 64)).
  - rewrite Z.mod_small by lia. destruct (Z.ltb_spec (Z.of_nat (length B)) (p + n)); case_decide; done || lia.
  - rewrite <- (Z.mod_unique_pos (p + n) (2 ^ 64) 1 (p + n - 2 ^ 64)) by lia.
    destruct (Z.ltb_spec (Z.of_nat (length B)) (p + n - 2 ^ 64)); case_decide; done || lia.
Qed.
Lemma check_word B p : small B → 0 <= p < 2 ^ 64 - 32 → check_size B p 32 = if decide (inside B p 32) then Ret () else Throw too_short.
Proof. intros Hs Hp. rewrite check_size_spec by (done || lia). unfold small, inside in *. repeat case_decide; done || lia. Qed.

Lemma read_word_spec B p : Forall is_byte B → small B → 0 <= p < 2 ^ 64 →
  match read_word B p with
  | Ret w => inside B p 32 ∧ w = offset_at B p
  | Throw e => ¬ inside B p 32 ∧ (e = undefined_behaviour → 2 ^ 64 - 32 <= p)
  end.
Proof.
  intros HB Hs Hp. unfold read_word. rewrite check_size_spec by (done || lia). unfold small in Hs.
  case_decide as Hc; cbn [mbind outcome_bind]; [|split; [tauto|done]].
  rewrite read_at_part by lia. case_decide as Hi; cbn [mbind outcome_bind].
  - split; [done|]. by apply fromBigEndian64_value, part_bytes.
  - split; [done|]. intros _. destruct Hc; [done|lia].
Qed.

Definition decode_ok (t : abi_type) : Prop := ∀ B i, Forall is_byte B → small B → 0 <= i < 2 ^ 32 →
  match decode t B i with
  | Ret (v, j) => (∀ v', laid t B i v' ↔ v' = v) ∧ j = i + span t ∧ j <= Z.of_nat (length B)
  | Throw e => (∀ v, ¬ laid t B i v) ∧ (checked_offsets t = true → e = undefined_behaviour → hostile B)
  end.

(** A static value: its word is there or the decoder throws. *)
Lemma word_decode_ok t (read : list Z → Z → outcome abi_val) :
  span t = 32 → (∀ B i v, laid t B i v → inside B i 32) →
  (∀ B i, small B → 0 <= i < 2 ^ 32 → decode t B i = (check_size B i 32 ;; v ← read B i ; Ret (v, add64 i 32))) →
  (∀ B i, Forall is_byte B → inside B i 32 → match read B i with
    | Ret v => ∀ v', laid t B i v' ↔ v' = v
    | Throw e => e ≠ undefined_behaviour ∧ ∀ v, ¬ laid t B i v
    end) → decode_ok t.
Proof.
  intros Hspan Hin Hdec Hread B i HB Hs Hi. rewrite Hdec by done. rewrite check_word by (done || lia).
  case_decide as Hw; cbn [mbind outcome_bind].
  - specialize (Hread B i HB Hw). destruct (read B i) as [v|e]; cbn [mbind outcome_bind].
    + unfold small, inside in *. rewrite Hspan, add64_small by lia. split_and!; [done|done|lia].
    + destruct Hread as [He Hn]. by split.
  - split; [|done]. intros v Hv. by apply Hw, (Hin B i v).
Qed.

Lemma bytesToUint256_word B i : Forall is_byte B → inside B i 32 → bytesToUint256 (slice_at B i 32) = Ret (word_at B i).
Proof.
  intros HB Hi. unfold bytesToUint256, bytesToUint. rewrite decide_True by (by apply part_length).
  by rewrite import_bits_value by by apply part_bytes.
Qed.
Lemma bytesToInt256_word B i : Forall is_byte B → inside B i 32 →
  ∃ n, bytesToInt256 (slice_at B i 32) = Ret n ∧ ∀ n', int_at B i n' ↔ n' = n.
Proof.
  intros HB Hi. pose proof (part_length B i 32 ltac:(lia) Hi) as Hl. pose proof (part_bytes B i 32 HB) as Hb.
  assert (Hw : slice_at B i 32 = be_bytes 32 (word_at B i)).
  { pose proof (be_bytes_value _ Hb) as E. rewrite Hl in E. by symmetry. }
  pose proof (be_value_bound _ Hb) as Hr. rewrite Hl in Hr. fold (word_at B i) in Hr. change (256 ^ Z.of_nat (Z.to_nat 32)) with (2 ^ 256) in Hr.
  assert (Hs : - 2 ^ 255 <= signed 32 (word_at B i) < 2 ^ 255 ∧ signed 32 (word_at B i) mod 2 ^ 256 = word_at B i).
  { unfold signed. change (8 * Z.of_nat 32 - 1) with 255. change (8 * Z.of_nat 32) with 256.
    destruct (Z.ltb_spec (word_at B i) (2 ^ 255)); (split; [lia|]); [apply Z.mod_small; lia|].
    symmetry. apply Z.mod_unique_pos with (q := -1); lia. }
  destruct Hs as [Hs Hm]. destruct (bytesToInt256_twos _ Hs) as [H1 H2]. rewrite Hm, <- Hw in H1, H2.
  unfold int_at. case_decide as Hc.
  - exists (signed 32 (word_at B i)). split; [by apply H1|done].
  - destruct H2 as (n & E & _); [lia|lia|]. exists n. rewrite E. split; [done|]. naive_solver.
Qed.
Lemma leaf_iff (P : abi_val → Prop) v : P v → (∀ v', P v' → v' = v) → ∀ v', P v' ↔ v' = v.
Proof. intros Hv Hu v'. split; [apply Hu|by intros ->]. Qed.

(** Both sides run the same calls. *)
Ltac binds := unfold mbind, outcome_bind; repeat (case_match; cbn [fst snd] in *; simplify_eq); done.
Lemma leaves_ok : (∀ w, decode_ok (TUint w) ∧ decode_ok (TInt w)) ∧ decode_ok TAddress ∧ decode_ok THash ∧ decode_ok TBool.
Proof.
  split_and!; [intros w; split|..].
  - apply (word_decode_ok _ (λ B i, b ← read_at B i 32 ; z ← bytesToUint256 b ; x ← cast_unsigned w z ; Ret (VNum x))); [done|by intros B i [] []|..].
    + intros B i _ _. cbn [decode]. unfold decodeUint. binds.
    + intros B i HB Hi. rewrite read_at_part, decide_True by (done || lia). cbn [mbind outcome_bind]. rewrite bytesToUint256_word by done.
      cbn [mbind outcome_bind]. destruct (cast_unsigned w (word_at B i)) as [x|e] eqn:E; cbn [mbind outcome_bind].
      * apply leaf_iff; [by split|]. intros [] []; congruence.
      * split; [by apply (cast_defined w (word_at B i) e); left|]. intros [] []; congruence.
  - apply (word_decode_ok _ (λ B i, b ← read_at B i 32 ; z ← bytesToInt256 b ; x ← cast_signed w z ; Ret (VNum x))); [done|by intros B i [] []|..].
    + intros B i _ _. cbn [decode]. unfold decodeInt. binds.
    + intros B i HB Hi. rewrite read_at_part, decide_True by (done || lia). cbn [mbind outcome_bind].
      destruct (bytesToInt256_word B i HB Hi) as (n & En & Hn). rewrite En. cbn [mbind outcome_bind].
      destruct (cast_signed w n) as [x|e] eqn:E; cbn [mbind outcome_bind].
      * apply leaf_iff; [split; [done|]; exists n; split; [by apply Hn|done]|]. intros v' Hv'; destruct v'; try done; destruct Hv' as [_ (y & ->%Hn & Hy)]; congruence.
      * split; [by apply (cast_defined w n e); right|]. intros v' Hv'; destruct v'; try done; destruct Hv' as [_ (y & ->%Hn & Hy)]; congruence.
  - apply (word_decode_ok _ (λ B i, b ← read_at B (i + 12) 20 ; Ret (VNum (be_value b)))); [done|by intros B i [] []|..].
    + intros B i _ Hi. cbn [decode]. rewrite (add64_small i 12) by lia. binds.
    + intros B i HB Hi. rewrite read_at_part by lia. unfold inside in Hi |- *. rewrite decide_True by lia. cbn [mbind outcome_bind].
      pose proof (word_low B i 20 HB Hi ltac:(lia)) as E. replace (i + 32 - Z.of_nat 20) with (i + 12) in E by lia.
      change (256 ^ Z.of_nat 20) with (2 ^ 160) in E. change (Z.of_nat 20) with 20 in E. rewrite E. apply leaf_iff; [by split|]. intros [] []; congruence.
  - apply (word_decode_ok _ (λ B i, b ← read_at B i 32 ; Ret (VNum (be_value b)))); [done|by intros B i [] []|..].
    + intros B i _ _. cbn [decode]. binds.
    + intros B i HB Hi. rewrite read_at_part, decide_True by (done || lia). cbn [mbind outcome_bind].
      fold (word_at B i). apply leaf_iff; [by split|]. intros [] []; congruence.
  - apply (word_decode_ok _ (λ B i, b ← read_at B (i + 31) 1 ; Ret (VBool (bool_decide (b = [1]))))); [done|by intros B i [] []|..].
    + intros B i _ Hi. cbn [decode]. rewrite (add64_small i 31) by lia. binds.
    + intros B i HB Hi. rewrite read_at_part by lia. pose proof Hi as Hi'. unfold inside in Hi |- *. rewrite decide_True by lia. cbn [mbind outcome_bind].
      pose proof (word_low B i 1 HB Hi' ltac:(lia)) as E. replace (i + 32 - Z.of_nat 1) with (i + 31) in E by lia.
      change (Z.of_nat 1) with 1 in E. pose proof (part_length B (i + 31) 1 ltac:(lia) ltac:(unfold inside; lia)) as Hl.
      destruct (slice_at B (i + 31) 1) as [|b [|]]; [done| |done]. assert (Eb : b = word_at B i mod 2 ^ 8) by exact E.
      assert (Ed : bool_decide (word_at B i mod 2 ^ 8 = 1) = bool_decide ([b] = [1])).
      { apply bool_decide_ext. rewrite <- Eb. split; [by intros ->|by intros [= ->]]. }
      apply leaf_iff; [by split|]. intros [] []; congruence.
Qed.

Lemma bytes_ok t : t = TBytes ∨ t = TString → decode_ok t.
Proof.
  intros Ht B i HB Hs Hi.
  assert (Hd : decode t B i = decode_bytes B i) by by destruct Ht as [-> | ->].
  assert (Hl : ∀ v, laid t B i v ↔ ∃ l, v = VBytes l ∧ inside B i 32 ∧ inside B (offset_at B i) 32 ∧
    inside B (offset_at B i + 32) (offset_at B (offset_at B i)) ∧ l = slice_at B (offset_at B i + 32) (offset_at B (offset_at B i))).
  { intros v. destruct Ht as [-> | ->], v; cbn [laid]; naive_solver. }
  assert (Hc : span t = 32) by by destruct Ht as [-> | ->].
  rewrite Hd, Hc. unfold decode_bytes. clear Hd Hc Ht.
  pose proof (read_word_spec B i HB Hs ltac:(lia)) as H1. destruct (read_word B i) as [q|e]; cbn [mbind outcome_bind].
  2: { destruct H1 as [Hn He]. split; [naive_solver|]. intros _ Hu. specialize (He Hu). lia. }
  destruct H1 as [Hi1 ->]. pose proof (offset_range B i) as Hq. pose proof (read_word_spec B _ HB Hs Hq) as H2.
  destruct (read_word B (offset_at B i)) as [n|e]; cbn [mbind outcome_bind].
  2: { destruct H2 as [Hn He]. split; [naive_solver|]. intros _ Hu. apply (offset_hostile B i HB Hi1). specialize (He Hu). lia. }
  destruct H2 as [Hi2 ->]. set (q := offset_at B i) in *. pose proof (offset_range B q) as Hn. set (n := offset_at B q) in *.
  pose proof Hi2 as [Hq0 Hq1]. pose proof Hs as Hs'. unfold small in Hs'. rewrite (add64_small q 32) by lia.
  fold (check_size B (q + 32) n). rewrite check_size_spec by (done || lia). case_decide as Hc; cbn [mbind outcome_bind].
  2: { split; [naive_solver|done]. }
  rewrite read_at_part by lia. case_decide as Hi3; cbn [mbind outcome_bind].
  - unfold inside in Hi1. rewrite add64_small by lia. split_and!; [|done|lia]. intros v. rewrite Hl. split; [by intros (l & -> & _ & _ & _ & ->)|]. intros ->. by eexists.
  - split; [naive_solver|]. intros _ _. destruct Hc as [?|Hc]; [done|]. apply (offset_hostile B q HB Hi2). fold n. lia.
Qed.

Lemma decodable_span t : decodable t = true → 32 <= span t.
Proof.
  induction t as [w|w| | | |n| | |t IH|t n IH|ts IH] using abi_type_ind'; cbn; intros Hd; try lia.
  apply andb_true_iff in Hd as [Hne Hd]. destruct (existsb isDynamic ts); [lia|].
  assert (Hs : ∀ l, Forall (λ t, decodable t = true → 32 <= span t) l → forallb decodable l = true → 32 * Z.of_nat (length l) <= foldr Z.add 0 (map span l)).
  { induction 1 as [|t l Ht _ IHl]; cbn; [lia|]. intros [Hdt Hdl]%andb_true_iff. specialize (Ht Hdt). specialize (IHl Hdl). lia. }
  specialize (Hs ts IH Hd). destruct ts; [done|]. cbn [length] in Hs. lia.
Qed.
Lemma span_sum ts : forallb decodable ts = true → 32 * Z.of_nat (length ts) <= foldr Z.add 0 (map span ts).
Proof. induction ts as [|t ts IH]; cbn; [lia|]. intros [?%decodable_span ?%IH]%andb_true_iff. lia. Qed.
Lemma laid_seq_length ls B i vs : laid_seq ls B i vs → length vs = length ls.
Proof. revert i vs. induction ls as [|[L n] ls IH]; intros i [|v vs]; cbn; try done. intros [_ H%IH]. by f_equal. Qed.

(** A sequence of values, one behind the other. *)
Definition seq_ok (ts : list abi_type) : Prop := ∀ B i, Forall is_byte B → small B → 0 <= i < 2 ^ 32 →
  match decode_seq (map decode ts) B i with
  | Ret (vs, j) => (∀ vs', laid_seq (map lay ts) B i vs' ↔ vs' = vs) ∧ j = i + foldr Z.add 0 (map span ts) ∧
      (ts ≠ [] → j <= Z.of_nat (length B))
  | Throw e => (∀ vs, ¬ laid_seq (map lay ts) B i vs) ∧ (forallb checked_offsets ts = true → e = undefined_behaviour → hostile B)
  end.
Lemma seq_decode_ok ts : forallb decodable ts = true → Forall decode_ok ts → seq_ok ts.
Proof.
  intros Hdec Hts. induction Hts as [|t ts Ht Hts IH]; intros B i HB Hs Hi; cbn [map decode_seq laid_seq lay forallb foldr].
  { split_and!; [|lia|done]. intros []; cbn; naive_solver. }
  cbn [forallb] in Hdec. apply andb_true_iff in Hdec as [Hdt Hdec]. specialize (IH Hdec).
  specialize (Ht B i HB Hs Hi). destruct (decode t B i) as [[v j]|e]; cbn [mbind outcome_bind fst snd].
  2: { destruct Ht as [Hn Hu]. split; [intros [|v vs]; naive_solver|]. intros [? _]%andb_true_iff. by apply Hu. }
  destruct Ht as (Hv & -> & Hj). assert (Hj0 : 0 <= i + span t < 2 ^ 32).
  { unfold small in Hs. split; [|lia]. pose proof (decodable_span t Hdt). lia. }
  specialize (IH B (i + span t) HB Hs Hj0). destruct (decode_seq (map decode ts) B (i + span t)) as [[vs k]|e]; cbn [mbind outcome_bind fst snd].
  - destruct IH as (Hvs & -> & Hk). split_and!; [|lia|].
    + intros [|v' vs']; [naive_solver|]. rewrite Hv, Hvs. naive_solver.
    + intros _. destruct ts; [cbn; lia|]. by apply Hk.
  - destruct IH as [Hn Hu]. split; [intros [|v' vs']; naive_solver|]. intros [_ ?]%andb_true_iff. by apply Hu.
Qed.

Lemma forallb_replicate {A} (f : A → bool) n x : f x = true → forallb f (replicate n x) = true.
Proof. intros E. induction n; cbn; [done|]. by rewrite E. Qed.
Lemma map_replicate {A B} (f : A → B) n x : map f (replicate n x) = replicate n (f x).
Proof. induction n; cbn; congruence. Qed.
Lemma drop_bytes B k : Forall is_byte B → Forall is_byte (drop k B).
Proof. apply Forall_drop. Qed.

(** Vectors and arrays; [expected] is the size of an array. *)
Lemma array_ok t u expected : decodable t = true → decode_ok t →
  (u = TVector t ∧ expected = None) ∨ (∃ m, u = TArray t m ∧ expected = Some m) → decode_ok u.
Proof.
  intros Hdt Ht Hu B i HB Hs Hi. set (q := offset_at B i). set (n := offset_at B q).
  assert (Hd : decode u B i = decode_array (decode t) expected B i) by by destruct Hu as [[-> ->]|(m & -> & ->)].
  assert (Hl : ∀ v, laid u B i v ↔ ∃ vs, v = VList vs ∧ inside B i 32 ∧ inside B q 32 ∧ (∀ m, expected = Some m → n = Z.of_nat m) ∧
    Z.of_nat (length vs) = n ∧ laid_seq (replicate (length vs) (lay t)) (drop (Z.to_nat (q + 32)) B) 0 vs).
  { intros v. destruct Hu as [[-> ->]|(m & -> & ->)], v; cbn [laid]; fold q n; try (split; [done|naive_solver]); fold (lay t).
    - naive_solver.
    - split; [intros (H1 & H2 & H3 & H4 & H5); eexists; split_and!; [done|done|done|congruence|lia|done]|].
      intros (vs' & [= <-] & H1 & H2 & H3 & H4 & H5). specialize (H3 _ eq_refl). split_and!; done || lia. }
  assert (Hc : span u = 32 ∧ (checked_offsets u = checked_offsets t)) by by destruct Hu as [[-> ->]|(m & -> & ->)].
  destruct Hc as [Hc Hk]. rewrite Hd, Hc, Hk. unfold decode_array. clear Hd Hc Hk Hu.
  pose proof (read_word_spec B i HB Hs ltac:(lia)) as H1. destruct (read_word B i) as [q'|e]; cbn [mbind outcome_bind].
  2: { destruct H1 as [Hn He]. split; [naive_solver|]. intros _ Hu. specialize (He Hu). lia. }
  destruct H1 as [Hi1 ->]. fold q. pose proof (offset_range B i : 0 <= q < _) as Hq. pose proof (read_word_spec B q HB Hs Hq) as H2.
  destruct (read_word B q) as [n'|e]; cbn [mbind outcome_bind].
  2: { destruct H2 as [Hn He]. split; [naive_solver|]. intros _ Hu. apply (offset_hostile B i HB Hi1). specialize (He Hu). fold q. lia. }
  destruct H2 as [Hi2 ->]. fold n. pose proof (offset_range B q : 0 <= n < _) as Hn.
  pose proof Hi2 as [Hq0 Hq1]. pose proof Hs as Hs'. unfold small in Hs'.
  destruct (match expected with Some m => _ | None => _ end) as [[]|e] eqn:Ee; cbn [mbind outcome_bind].
  2: { destruct expected as [m|]; [|done]. destruct (Z.eqb_spec n (Z.of_nat m)); [done|]. injection Ee as <-. split; [naive_solver|done]. }
  assert (He : ∀ m, expected = Some m → n = Z.of_nat m).
  { intros m ->. by destruct (Z.eqb_spec n (Z.of_nat m)). }
  rewrite check_word, decide_True by (done || lia). cbn [mbind outcome_bind]. rewrite (add64_small q 32) by lia.
  unfold sub_view. destruct (Z.leb_spec (q + 32) (Z.of_nat (length B))); [|lia]. cbn [mbind outcome_bind].
  set (view := drop (Z.to_nat (q + 32)) B) in *. rewrite <- map_replicate.
  pose proof (seq_decode_ok (replicate (Z.to_nat n) t) (forallb_replicate _ _ _ Hdt) (Forall_replicate _ _ _ Ht) view 0 (drop_bytes B _ HB) (small_drop B _ Hs) ltac:(lia)) as Hseq.
  assert (Hlen : ∀ vs : list abi_val, Z.of_nat (length vs) = n → replicate (length vs) (lay t) = map lay (replicate (Z.to_nat n) t)).
  { intros vs <-. by rewrite map_replicate, Nat2Z.id. }
  destruct (decode_seq _ view 0) as [[vs k]|e]; cbn [mbind outcome_bind fst].
  - destruct Hseq as (Hvs & _ & _). unfold inside in Hi1. rewrite add64_small by lia. split_and!; [|done|lia]. intros v. rewrite Hl.
    pose proof (proj2 (Hvs vs) eq_refl) as Hvs0. apply laid_seq_length in Hvs0 as Hl0. rewrite length_map, length_replicate in Hl0. split.
    + intros (vs' & -> & _ & _ & _ & E & H'). rewrite (Hlen vs' E) in H'. f_equal. by apply Hvs.
    + intros ->. exists vs. assert (E : Z.of_nat (length vs) = n) by lia. split_and!; try done. by rewrite (Hlen vs E).
  - destruct Hseq as [Hno Hu]. split.
    + intros v (vs' & -> & _ & _ & _ & E & H')%Hl. rewrite (Hlen vs' E) in H'. by apply (Hno vs').
    + intros Hk Hue. apply (hostile_drop B (Z.to_nat (q + 32))), Hu; [|done]. apply forallb_forall. intros x Hx.
      apply list_elem_of_In, elem_of_replicate in Hx as [-> _]. done.
Qed.

Lemma tuple_ok ts : ts ≠ [] → forallb decodable ts = true → Forall decode_ok ts → decode_ok (TTuple ts).
Proof.
  intros Hne Hdec Hts B i HB Hs Hi. pose proof Hs as Hs'. unfold small in Hs'. cbn [decode laid span checked_offsets].
  change (map (λ t, (laid t, span t)) ts) with (map lay ts). destruct (existsb isDynamic ts); cbn [negb andb].
  - pose proof (read_word_spec B i HB Hs ltac:(lia)) as H1. destruct (read_word B i) as [q|e]; cbn [mbind outcome_bind].
    2: { destruct H1 as [Hn _]. split; [|done]. intros [| | |vs]; [tauto..|]. tauto. }
    destruct H1 as [Hi1 ->]. pose proof (offset_range B i) as Hq. set (q := offset_at B i) in *. unfold sub_view.
    destruct (Z.leb_spec q (Z.of_nat (length B))); cbn [mbind outcome_bind].
    2: { split; [|done]. intros [| | |vs']; [tauto..|]. unfold inside. lia. }
    pose proof (seq_decode_ok ts Hdec Hts (drop (Z.to_nat q) B) 0 (drop_bytes B _ HB) (small_drop B _ Hs) ltac:(lia)) as Hseq.
    destruct (decode_seq _ _ 0) as [[vs k]|e]; cbn [mbind outcome_bind fst].
    + destruct Hseq as (Hvs & _). unfold inside in Hi1. rewrite add64_small by lia. split_and!; [|done|lia].
      intros [| | |vs']; [by split..|]. rewrite Hvs. unfold inside. naive_solver lia.
    + destruct Hseq as [Hn _]. split; [|done]. intros [| | |vs']; [tauto..|]. naive_solver.
  - pose proof (seq_decode_ok ts Hdec Hts B i HB Hs Hi) as Hseq. pose proof (span_sum ts Hdec) as Hsum.
    destruct (check_size B i (32 * Z.of_nat (length ts))) as [[]|e] eqn:Ec; cbn [mbind outcome_bind].
    + destruct (decode_seq _ B i) as [[vs k]|e]; cbn [mbind outcome_bind fst snd].
      * destruct Hseq as (Hvs & -> & Hk). split_and!; [|done|auto]. intros [| | |vs']; [by split..|]. rewrite Hvs. naive_solver.
      * destruct Hseq as [Hn Hu]. split; [|done]. intros [| | |vs']; [tauto..|]. apply Hn.
    + unfold check_size in Ec. destruct (Z.ltb_spec (Z.of_nat (length B)) (add64 i (32 * Z.of_nat (length ts)))) as [Hlt|]; [|done].
      injection Ec as <-. split; [|done]. intros [| | |vs']; [tauto..|]. intros Hlaid.
      destruct (decode_seq _ B i) as [[vs k]|e]; [|by destruct Hseq as [Hn _]; apply (Hn vs')].
      destruct Hseq as (_ & -> & Hk). specialize (Hk Hne). rewrite add64_small in Hlt by lia. lia.
Qed.

Lemma decodable_ok t : decodable t = true → decode_ok t.
Proof.
  destruct leaves_ok as (Hints & Ha & Hh & Hb). induction t as [w|w| | | |n| | |t IH|t n IH|ts IH] using abi_type_ind'; cbn [decodable]; intros Hd.
  - apply Hints.
  - apply Hints.
  - done.
  - done.
  - done.
  - done.
  - apply bytes_ok. by left.
  - apply bytes_ok. by right.
  - apply (array_ok t _ None Hd (IH Hd)). by left.
  - apply (array_ok t _ (Some n) Hd (IH Hd)). right. by exists n.
  - apply andb_true_iff in Hd as [Hne Hd]. apply negb_true_iff, bool_decide_eq_false in Hne. apply tuple_ok; [done|done|].
    rewrite Forall_forall in IH |- *. intros t Ht. apply IH; [done|]. rewrite forallb_forall in Hd. apply Hd. by apply list_elem_of_In.
Qed.

(** C20: what [ABI::Decoder::decodeData] does with any data of less than 2^31
    bytes, for all types without [FixedBytes] and empty tuples.  It returns the
    values [vs] exactly when the data lay them out from the index on: every head,
    length and content is inside the data, at the offset the data give (the low 64
    bits of its word); it throws when there are no such values.  It reads outside
    the data only when they hold eight bytes above 2^64 - 2^32, as an offset or
    length that overflows, or when a dynamic tuple is decoded, whose offset is not
    checked. *)
Theorem abi_decode_exact (ts : list abi_type) (B : list Z) (i : Z) :
  forallb decodable ts = true → Forall is_byte B → small B → 0 <= i < 2 ^ 32 →
  (∀ vs, decodeData ts B i = Ret vs ↔ laid_seq (map lay ts) B i vs) ∧
  (decodeData ts B i = Throw undefined_behaviour → forallb checked_offsets ts = true → hostile B).
Proof.
  intros Hd HB Hs Hi. assert (Hts : Forall decode_ok ts).
  { apply Forall_forall. intros t Ht. apply decodable_ok. rewrite forallb_forall in Hd. apply Hd. by apply list_elem_of_In. }
  pose proof (seq_decode_ok ts Hd Hts B i HB Hs Hi) as H. unfold decodeData.
  destruct (decode_seq _ B i) as [[vs j]|e]; cbn [mbind outcome_bind fst].
  - destruct H as (Hvs & _ & _). split; [|done]. intros vs'. rewrite Hvs. naive_solver.
  - destruct H as [Hn Hu]. split; [|intros [= ->] Hc; auto]. intros vs. split; [done|]. intros Hl. by destruct (Hn vs).
Qed.

(** ** Data that misleads the decoder *)

(** The offset a dynamic value starts with, as the decoder takes it. *)
Definition first_offset (B : list Z) : Z := be_value (take 32 B) mod 2 ^ 64.

Lemma read_first B : Forall is_byte B → small B → (32 <= length B)%nat → read_word B 0 = Ret (first_offset B).
Proof.
  intros HB Hs Hl. unfold read_word, check_size, read_at. unfold small in Hs. rewrite add64_small by lia.
  destruct (Z.ltb_spec (Z.of_nat (length B)) (0 + 32)); [lia|]. cbn [mbind outcome_bind].
  destruct (Z.leb_spec (0 + 32) (Z.of_nat (length B))); [|lia]. cbn [Z.leb andb mbind outcome_bind Z.compare].
  change (Z.to_nat 0) with 0%nat. rewrite drop_0. f_equal. apply fromBigEndian64_value. by apply Forall_take.
Qed.

(** An offset in the last word of the 64-bit range passes the check. *)
Lemma read_wrapped B k : small B → 2 ^ 64 - 32 <= k < 2 ^ 64 → (32 <= length B)%nat →
  read_word B k = Throw undefined_behaviour.
Proof.
  intros Hs Hk Hl. unfold read_word, check_size, read_at, add64, wrap. unfold small in Hs.
  rewrite <- (Z.mod_unique (k + 32) (2 ^ 64) 1 (k + 32 - 2 ^ 64)) by lia.
  destruct (Z.ltb_spec (Z.of_nat (length B)) (k + 32 - 2 ^ 64)); [lia|]. cbn [mbind outcome_bind].
  destruct (Z.leb_spec (k + 32) (Z.of_nat (length B))); [lia|]. by rewrite andb_false_r.
Qed.

(** The bounds checks of the decoder do not stop hostile data.  An offset
    between 2^64 - 32 and 2^64 overflows in [offset + 32], passes the check, and
    the decoder of bytes, strings, vectors and arrays reads outside the data; the
    offset of a dynamic tuple is not checked at all, so every offset past the end
    makes an invalid view. *)
Theorem abi_offset_unchecked B t n ts :
  Forall is_byte B → small B → (32 <= length B)%nat →
  (2 ^ 64 - 32 <= first_offset B →
   ∀ u, u ∈ [TBytes; TString; TVector t; TArray t n] → decode u B 0 = Throw undefined_behaviour) ∧
  (Z.of_nat (length B) < first_offset B → existsb isDynamic ts = true →
   decode (TTuple ts) B 0 = Throw undefined_behaviour).
Proof.
  intros HB Hs Hl. pose proof (read_first B HB Hs Hl) as Hr.
  assert (Hlt : first_offset B < 2 ^ 64) by (unfold first_offset; apply Z.mod_pos_bound; lia). split.
  - intros Hk u Hu. pose proof (read_wrapped B _ Hs (conj Hk Hlt) Hl) as Hw.
    assert (Hc : u = TBytes ∨ u = TString ∨ u = TVector t ∨ u = TArray t n) by set_solver.
    destruct Hc as [->|[->|[->| ->]]]; cbn [decode]; unfold decode_bytes, decode_array; rewrite Hr; cbn [mbind outcome_bind]; by rewrite Hw.
  - intros Hk Hd. cbn [decode]. rewrite Hd, Hr. cbn [mbind outcome_bind]. unfold sub_view.
    destruct (Z.leb_spec (first_offset B) (Z.of_nat (length B))); [lia|done].
Qed.

(** A static leaf: the check, the read and the value. *)
Ltac leaf_inv H :=
  let b := fresh "b" in let Hb := fresh "Hb" in
  cbn [decode] in H; apply outcome_bind_Ret in H as ([] & _ & H);
  apply outcome_bind_Ret in H as (b & Hb & H); injection H as <- <-.

(** The decoder of [FixedBytes] leaves the index where it was: the argument
    behind it is read from the same word. *)
Lemma fixed_bytes_stuck n ts B i vs : decodeData (TFixedBytes n :: ts) B i = Ret vs →
  ∃ l ws, vs = VBytes l :: ws ∧ decodeData ts B i = Ret ws.
Proof.
  unfold decodeData. cbn [map decode_seq]. intros H. apply outcome_bind_Ret in H as ([us k] & H & Hv).
  injection Hv as <-. apply outcome_bind_Ret in H as ([v j] & Hv & H). leaf_inv Hv.
  apply outcome_bind_Ret in H as ([ws k'] & Hw & H). injection H as <- <-. cbn [fst snd] in *. rewrite Hw. by eauto.
Qed.
End decoded.

(** Conversions that refuse what does not fit. *)
#[export] Program Instance checked_casts : AbiCasts := {|
  cast_unsigned w z := if decide (0 <= z < 2 ^ w) then Ret z else Throw boost_error;
  cast_signed w z := if decide (- 2 ^ w < z < 2 ^ w) then Ret z else Throw boost_error;
|}.
Next Obligation. intros w z Hz. cbn. by rewrite decide_True. Qed.
Next Obligation. intros w z Hz. cbn. by rewrite decide_True. Qed.
Next Obligation. intros w z e H. cbn in H. repeat case_decide; naive_solver. Qed.

(** Arguments of many types: a uint8, an int256, a vector of strings, an array of
    two booleans and a tuple of an address and bytes. *)
Definition sample_types : list abi_type :=
  [TUint 8; TInt 256; TVector TString; TArray TBool 2; TTuple [TAddress; TBytes]].
Definition sample_values : list abi_val :=
  [VNum 7; VNum (-5); VList [VBytes [72; 105]; VBytes []]; VList [VBool true; VBool false];
   VList [VNum 77; VBytes [1; 2; 3]]].

Lemma sample_readable : typed_all leaf_readable sample_types sample_values.
Proof. repeat constructor; try done; try (cbn; unfold in_range, is_byte; lia); by right. Qed.

Lemma abi_roundtrip_witness :
  decodeData sample_types (encodeData sample_types sample_values) 0 = Ret sample_values ∧
  (data ← encodeError [110; 111] ; decodeError data) = Ret [110; 111].
Proof.
  apply abi_roundtrip; [done|apply sample_readable|unfold small; by vm_compute| |unfold small; by vm_compute].
  repeat constructor; unfold is_byte; lia.
Defined.

Lemma abi_decode_exact_witness :
  laid_seq (map lay sample_types) (encodeData sample_types sample_values) 0 sample_values ∧
  (∀ vs, ¬ laid_seq (map lay [TBytes]) (be_bytes 32 (2 ^ 64 - 1)) 0 vs) ∧ hostile (be_bytes 32 (2 ^ 64 - 1)).
Proof.
  split.
  - apply (proj1 (abi_decode_exact sample_types (encodeData sample_types sample_values) 0 eq_refl
      ltac:(apply (bool_decide_unpack _); by vm_compute) ltac:(unfold small; by vm_compute) ltac:(lia)) sample_values). by vm_compute.
  - destruct (abi_decode_exact [TBytes] (be_bytes 32 (2 ^ 64 - 1)) 0 eq_refl (be_bytes_is_byte 32 _)
      ltac:(unfold small; by vm_compute) ltac:(lia)) as [Hl Hu]. split; [|apply Hu; by vm_compute].
    intros vs Hvs%Hl. by vm_compute in Hvs.
Defined.

Lemma abi_offset_unchecked_witness :
  decode (TVector (TUint 8)) (be_bytes 32 (2 ^ 64 - 1)) 0 = Throw undefined_behaviour ∧
  decode (TTuple [TString]) (be_bytes 32 33) 0 = Throw undefined_behaviour.
Proof.
  assert (Hl : ∀ z, (32 <= length (be_bytes 32 z))%nat) by (intros; rewrite be_bytes_length; lia).
  assert (Hs : ∀ z, small (be_bytes 32 z)) by (intros; unfold small; rewrite be_bytes_length; lia).
  destruct (abi_offset_unchecked (be_bytes 32 (2 ^ 64 - 1)) (TUint 8) 0 [] (be_bytes_is_byte 32 _) (Hs _) (Hl _)) as [H1 _].
  destruct (abi_offset_unchecked (be_bytes 32 33) TBool 0 [TString] (be_bytes_is_byte 32 _) (Hs _) (Hl _)) as [_ H2].
  split; [apply H1; [by vm_compute|set_solver]|apply H2; [|done]].
  rewrite be_bytes_length. by vm_compute.
Defined.

(** An indexed parameter moves the offset of the data behind it: the string of
    this event is behind one word, but its offset says two, and a reader gets an
    empty string. *)
Example event_offset_counts_indexed :
  let data := encodeEventData [(TUint 256, VNum 1, true); (TString, VBytes [65], false)] in
  read_word data 0 = Ret 64 ∧ encodeData [TString] [VBytes [65]] ≠ data ∧
  decodeData [TString] data 0 = Ret [VBytes []].
Proof. vm_compute. split_and!; congruence. Qed.

(** A static tuple in a static tuple is counted as one word of the head: the
    offset of a string behind it points at itself. *)
Example nested_static_tuple_offset :
  let ts := [TTuple [TTuple [TBool; TBool]]; TString] in
  calculateTotalOffset ts = 64 ∧
  read_word (encodeData ts [VList [VList [VBool true; VBool true]]; VBytes [65]]) 64 = Ret 64.
Proof. by vm_compute. Qed.

Example fixed_bytes_read_twice :
  decodeData [TFixedBytes 32; TUint 256]
    (encodeData [TFixedBytes 32; TUint 256] [VBytes (be_bytes 32 5); VNum 9]) 0 =
  Ret [VBytes (be_bytes 32 5); VNum 5].
Proof. by vm_compute. Qed.

(** The signatures whose hashes select functions. *)
Example transfer_signature : fullSig "transfer" [TAddress; TUint 256] = "transfer(address,uint256)".
Proof. by vm_compute. Qed.
Example nested_signature :
  fullSig "f" [TTuple [TUint 8; TVector TString]; THash] = "f((uint8,string[]),bytes32)" ∧ fullSig "g" [] = "g()".
Proof. by vm_compute. Qed.

(** An array is named and encoded like a vector, so two functions that differ in
    the size of an array have one signature. *)
Lemma array_signature f t n m ts : fullSig f (TArray t n :: ts) = fullSig f (TArray t m :: ts).
Proof. done. Qed.
