(* ===== verification/DynamicContract.v ===== *)
(** * Contract functions: registration and dispatch

    Models src/contract/dynamiccontract.h (the tables of a C++ contract, the
    registration of member functions, the dispatch of encoded calls, ERC-165)
    with the ABI of [Abi], [PointerNullifier] of utils/utils.h, and the encoded
    message [CppContractExecutor::callContract] builds.  A member function is its
    argument and return types with its body; a const one cannot change the
    contract, which is its type here.  The body runs on the contract's state
    [Run]: what it does to its variables, and nested calls, are its own. *)

From stdpp Require Import pretty.
From S2P Require Import Prelude CheckedInt ExecutionContext Bytes SafeString Conv Hex Abi.

Inductive FunctionTypes := View | NonPayable | Payable.
#[export] Instance FunctionTypes_eq : EqDecision FunctionTypes.
Proof. solve_decision. Defined.

(** The fields of an [evmc_message] the dispatch reads. *)
Record evmc_message := mkMsg { m_static : bool; m_input : list Z; m_value : Z }.

Section contract.
Context {BB : BoostBits} {AC : AbiCasts}.
(** [Utils::sha3] *)
Variable sha3 : list Z → list Z.
(** The text of an exception. *)
Variable what : exn → string.
(** The variables of the contract. *)
Context {S : Type}.

(** The part of a contract that calls change: whether [host_] points to a host,
    the flag of the nullifiers, and the variables. *)
Record Run := mkRun {
  host_ : bool;
  nullifiable_ : bool;
  supportedInterfaces_ : list Z;
  vars : S;
}.
Definition set_host (h n : bool) (r : Run) : Run := mkRun h n (supportedInterfaces_ r) (vars r).

Definition Handler : Type := evmc_message → M Run (list Z).

(** A member function; [None] stands for [void]. *)
Inductive Member :=
| ConstMember (args : list abi_type) (ret : option abi_type) (body : list abi_val → Run → outcome abi_val)
| MutMember (args : list abi_type) (ret : option abi_type) (body : list abi_val → M Run abi_val).

Definition member_args (m : Member) : list abi_type :=
  match m with ConstMember args _ _ | MutMember args _ _ => args end.
Definition member_ret (m : Member) : option abi_type :=
  match m with ConstMember _ ret _ | MutMember _ ret _ => ret end.
Definition member_run (m : Member) (args : list abi_val) : M Run abi_val :=
  match m with
  | ConstMember _ _ body => λ s, (body args s, s)
  | MutMember _ _ body => body args
  end.
Definition is_const (m : Member) : bool := match m with ConstMember _ _ _ => true | _ => false end.

Record Contract := mkContract {
  nonpayableFunctions_ : gset Z;
  payableFunctions_ : gset Z;
  viewFunctions_ : gset Z;
  evmFunctions_ : gmap Z Handler;
  (** Overrides of [receive] and [fallback]. *)
  c_receive : option (evmc_message → M Run unit);
  c_fallback : option Handler;
  run : Run;
}.
Definition with_run (r : Run) (c : Contract) : Contract :=
  mkContract (nonpayableFunctions_ c) (payableFunctions_ c) (viewFunctions_ c) (evmFunctions_ c)
    (c_receive c) (c_fallback c) r.

(** ** Registration *)

Definition registerFunction (functor : Z) (f : Handler) (type : FunctionTypes) (c : Contract) : Contract :=
  let evm := <[functor := f]> (evmFunctions_ c) in
  let np := nonpayableFunctions_ c in let p := payableFunctions_ c in let v := viewFunctions_ c in
  match type with
  | NonPayable => mkContract ({[functor]} ∪ np) p v evm (c_receive c) (c_fallback c) (run c)
  | Payable => mkContract np ({[functor]} ∪ p) v evm (c_receive c) (c_fallback c) (run c)
  | View => mkContract np p ({[functor]} ∪ v) evm (c_receive c) (c_fallback c) (run c)
  end.

(** The result of a function as return data. *)
Definition encode_result (ret : option abi_type) (v : abi_val) : list Z :=
  match ret with None => [] | Some t => encodeData [t] [v] end.

(** The function [registerMemberFunction] stores: decode, call, encode. *)
Definition member_handler (m : Member) : Handler := λ msg,
  args ← lift (decodeData (member_args m) (getFunctionArgs (m_input msg)) 0) ;
  v ← member_run m args ;
  mret (encode_result (member_ret m) v).

(** The four overloads of [registerMemberFunction]. *)
Definition registerMemberFunction (funcSignature : string) (m : Member) (mutability : FunctionTypes) (c : Contract) :
    outcome (Z * Contract) :=
  functor ← functor_encode sha3 funcSignature (member_args m) ;
  if negb (is_const m) && bool_decide (mutability = View)
  then Throw (DynamicException "View must be const because it does not modify the state.")
  else Ret (functor, registerFunction functor (member_handler m) mutability c).

Definition Method : Type := string * Member * FunctionTypes.

Fixpoint register_all (methods : list Method) (xorFunctor : Z) (c : Contract) : outcome (Z * Contract) :=
  match methods with
  | [] => Ret (xorFunctor, c)
  | (name, m, mutability) :: methods =>
      fc ← registerMemberFunction name m mutability c ;
      register_all methods (Z.lxor xorFunctor fc.1) fc.2
  end.
Definition push_interface (functor : Z) (c : Contract) : Contract :=
  let r := run c in with_run (mkRun (host_ r) (nullifiable_ r) (supportedInterfaces_ r ++ [functor]) (vars r)) c.
Definition registerMemberFunctions (methods : list Method) (c : Contract) : outcome Contract :=
  xc ← register_all methods 0 c ; Ret (push_interface xc.1 xc.2).
Definition registerInterface (functor : Z) (c : Contract) : Contract := push_interface functor c.

(** [supportsInterface], and the constructor that registers it. *)
Definition supportsInterface (interfaceId : list Z) (r : Run) : outcome bool :=
  f ← bytesToUint32 interfaceId ; Ret (existsb (λ g, g =? f) (supportedInterfaces_ r)).
Definition supportsInterface_member : Member :=
  ConstMember [TFixedBytes 4] (Some TBool) (λ args r,
    match args with
    | [VBytes id] => b ← supportsInterface id r ; Ret (VBool b)
    | _ => Throw undefined_behaviour
    end).
Definition DynamicContract_new (receive : option (evmc_message → M Run unit)) (fallback : option Handler) (s : S) :
    outcome Contract :=
  let blank := mkContract ∅ ∅ ∅ ∅ receive fallback (mkRun false true [33540519] s) in
  fc ← registerMemberFunction "supportsInterface" supportsInterface_member View blank ; Ret fc.2.

Definition isPayableFunction (functor : Z) (c : Contract) : bool := bool_decide (functor ∈ payableFunctions_ c).

(** ** Dispatch *)

(** A [PointerNullifier] around [m]: the outermost one clears [host_]. *)
Definition with_nullifier {A} (m : M Run A) : M Run A := λ r,
  if nullifiable_ r then
    let '(o, r') := m (set_host (host_ r) false r) in (o, set_host false true r')
  else m r.

Definition fallback (c : Contract) (msg : evmc_message) : M Run (list Z) :=
  match c_fallback c with
  | Some f => f msg
  | None => throw (DynamicException "Function not found for evmEthCall")
  end.
Definition receive (c : Contract) (msg : evmc_message) : M Run unit :=
  match c_receive c with Some f => f msg | None => fallback c msg ;; mret () end.

Definition find_function (c : Contract) (functor : Z) : option Handler := evmFunctions_ c !! functor.

(** The choice of the function, once the host is set. *)
Definition dispatch (c : Contract) (msg : evmc_message) : M Run (list Z) :=
  funcName ← lift (getFunctor (m_input msg)) ;
  match find_function c funcName with
  | None =>
      if m_static msg then throw (DynamicException "cannot call fallback or receive in static context")
      else if decide (length (m_input msg) = 0%nat) then receive c msg ;; mret []
      else fallback c msg
  | Some f =>
      if m_static msg then
        (if decide (funcName ∈ viewFunctions_ c) then f msg
         else throw (DynamicException "cannot call non-view function in static context"))
      else
        throw_if (bool_decide (funcName ∈ nonpayableFunctions_ c) && negb (m_value msg =? 0))
          (DynamicException "Non-payable function called with value") ;;
        f msg
  end.
Definition evmEthCall (c : Contract) (msg : evmc_message) : M Run (list Z) :=
  modify (λ r, set_host true (nullifiable_ r) r) ;; with_nullifier (dispatch c msg).

(** The wrappers of packed calls, with and without arguments: the second turns
    every exception into a [DynamicException]. *)
Definition callContractFunction {A} (body : M Run A) : M Run A :=
  with_nullifier (modify (λ r, if host_ r then r else set_host true (nullifiable_ r) r) ;; body).
Definition callContractFunction_noargs {A} (body : M Run A) : M Run A := λ r,
  let '(o, r') := if host_ r then body r else with_nullifier body (set_host true (nullifiable_ r) r) in
  (match o with Throw e => Throw (DynamicException (what e)) | Ret a => Ret a end, r').

(** The [evmc_message] [CppContractExecutor::callContract] makes of an encoded
    call: its value is always zero. *)
Definition evmcMsg (static : bool) (input : list Z) (value : Z) : evmc_message := mkMsg static input 0.

(** ** What registration leaves in the tables *)

(** A handler that changes nothing. *)
Definition pure_handler (h : Handler) : Prop := ∀ msg r, (h msg r).2 = r.

(** Every function a static call may run changes nothing. *)
Definition views_pure (c : Contract) : Prop :=
  ∀ f h, f ∈ viewFunctions_ c → evmFunctions_ c !! f = Some h → pure_handler h.

Lemma const_pure m : is_const m = true → pure_handler (member_handler m).
Proof.
  destruct m as [args ret body|]; [|done]. intros _ msg r. unfold member_handler, mbind, M_bind, lift. cbn [member_args member_run].
  destruct (decodeData args (getFunctionArgs (m_input msg)) 0) as [vs|]; [|done]. by destruct (body vs r).
Qed.

Lemma registerFunction_lookup functor h type c f :
  evmFunctions_ (registerFunction functor h type c) !! f = if decide (f = functor) then Some h else evmFunctions_ c !! f.
Proof.
  destruct type; cbn; (destruct (decide (f = functor)) as [->|]; [by rewrite lookup_insert_eq|by rewrite lookup_insert_ne]).
Qed.
Lemma registerFunction_sets functor h type c :
  viewFunctions_ (registerFunction functor h type c) = (if decide (type = View) then {[functor]} else ∅) ∪ viewFunctions_ c ∧
  nonpayableFunctions_ (registerFunction functor h type c) =
    (if decide (type = NonPayable) then {[functor]} else ∅) ∪ nonpayableFunctions_ c ∧
  run (registerFunction functor h type c) = run c.
Proof. destruct type; cbn; split_and!; try done; set_solver. Qed.

Lemma register_inv name m mutability c f c' : registerMemberFunction name m mutability c = Ret (f, c') →
  functor_encode sha3 name (member_args m) = Ret f ∧ (mutability = View → is_const m = true) ∧
  c' = registerFunction f (member_handler m) mutability c.
Proof.
  unfold registerMemberFunction. intros H. apply outcome_bind_Ret in H as (g & Hg & H).
  destruct (is_const m) eqn:Ec; cbn [negb andb] in H.
  - by injection H as <- <-.
  - case_bool_decide as Hv; [done|]. by injection H as <- <-.
Qed.

(** A function with a new selector keeps the views pure. *)
Lemma register_pure name m mutability c f c' : views_pure c → f ∉ viewFunctions_ c →
  registerMemberFunction name m mutability c = Ret (f, c') → views_pure c'.
Proof.
  intros Hp Hf H. apply register_inv in H as (_ & Hc & ->). intros g h Hg. rewrite registerFunction_lookup.
  destruct (registerFunction_sets f (member_handler m) mutability c) as (Hs & _ & _). rewrite Hs in Hg.
  destruct (decide (g = f)) as [->|Hne].
  - intros [= <-]. apply const_pure. destruct (decide (mutability = View)); [by apply Hc|]. set_solver.
  - apply Hp. destruct (decide (mutability = View)); set_solver.
Qed.

(** The contracts constructors build: functions with new selectors, interfaces. *)
Inductive built : Contract → Prop :=
| built_new rc fb s c : DynamicContract_new rc fb s = Ret c → built c
| built_function c name m mutability f c' : built c → evmFunctions_ c !! f = None →
    registerMemberFunction name m mutability c = Ret (f, c') → built c'
| built_interface c f : built c → built (push_interface f c).

Lemma built_tables c : built c → views_pure c ∧ (∀ f, f ∈ viewFunctions_ c → is_Some (evmFunctions_ c !! f)).
Proof.
  assert (Hreg : ∀ name m mutability c f c', views_pure c → (∀ f, f ∈ viewFunctions_ c → is_Some (evmFunctions_ c !! f)) →
    evmFunctions_ c !! f = None → registerMemberFunction name m mutability c = Ret (f, c') →
    views_pure c' ∧ (∀ f, f ∈ viewFunctions_ c' → is_Some (evmFunctions_ c' !! f))).
  { intros name m mutability c0 f c' Hp Hd Hf H. assert (f ∉ viewFunctions_ c0) as Hn.
    { intros Hv. apply Hd in Hv as [? ?]. congruence. }
    split; [by eapply register_pure|]. apply register_inv in H as (_ & _ & ->). intros g Hg.
    destruct (registerFunction_sets f (member_handler m) mutability c0) as (Hs & _ & _). rewrite Hs in Hg.
    rewrite registerFunction_lookup. destruct (decide (g = f)); [by eauto|]. apply Hd.
    destruct (decide (mutability = View)); set_solver. }
  induction 1 as [rc fb s c H|c name m mutability f c' Hb [IHp IHd] Hf H|c f Hb [IHp IHd]].
  - unfold DynamicContract_new in H. apply outcome_bind_Ret in H as ([f c'] & Hr & H). injection H as <-.
    eapply Hreg; [| | |exact Hr]; [intros ??; set_solver..|done].
  - by eapply Hreg.
  - done.
Qed.

(** ** The properties of the dispatch *)

(** The outermost call clears the host, a nested one leaves it. *)
Lemma nullifier_vars {A} (m : M Run A) r : (∀ r, vars (m r).2 = vars r) → vars (with_nullifier m r).2 = vars r.
Proof.
  intros Hm. unfold with_nullifier. destruct (nullifiable_ r); [|apply Hm].
  specialize (Hm (set_host (host_ r) false r)). destruct (m _) as [o r']. exact Hm.
Qed.

(** A static call changes nothing: for every contract its constructor built
    from functions with different selectors, whatever the message, an encoded
    call in a static context leaves the variables of the contract as they were,
    and it throws unless it selects a function registered as a view. *)
Theorem static_calls_pure (c : Contract) (input : list Z) (value : Z) (r : Run) : built c →
  vars (evmEthCall c (mkMsg true input value) r).2 = vars r ∧
  ∀ out, (evmEthCall c (mkMsg true input value) r).1 = Ret out →
    ∃ f, getFunctor input = Ret f ∧ f ∈ viewFunctions_ c.
Proof.
  intros Hb. destruct (built_tables c Hb) as [Hp _].
  assert (Hd : ∀ r, vars (dispatch c (mkMsg true input value) r).2 = vars r).
  { intros r'. unfold dispatch, mbind, M_bind, lift. cbn. destruct (getFunctor input) as [f|]; [|done].
    destruct (find_function c f) as [h|] eqn:Eh; [|done]. destruct (decide (f ∈ viewFunctions_ c)); [|done].
    by rewrite (Hp f h) by done. }
  split; [unfold evmEthCall, modify, mbind, M_bind; by rewrite nullifier_vars|].
  intros out H. unfold evmEthCall, modify, mbind, M_bind, with_nullifier in H.
  assert (H' : ∃ r, (dispatch c (mkMsg true input value) r).1 = Ret out).
  { destruct (nullifiable_ _); [|by eauto].
    destruct (dispatch c _ (set_host _ false _)) as [o r'] eqn:E. cbn in H. eexists. by rewrite E. }
  clear H. destruct H' as [r' H]. unfold dispatch, mbind, M_bind, lift in H. cbn in H.
  destruct (getFunctor input) as [f|]; [|done]. destruct (find_function c f) as [h|]; [|done].
  destruct (decide (f ∈ viewFunctions_ c)); [by eauto|done].
Qed.

(** ** Calls with encoded arguments *)

Definition hash_ok : Prop := ∀ l, Forall is_byte (sha3 l) ∧ length (sha3 l) = 32%nat.

Lemma functor_range name ts f : hash_ok → functor_encode sha3 name ts = Ret f → in_range 32 f.
Proof.
  intros Hh. unfold functor_encode. destruct (Hh (string_bytes (fullSig name ts))) as [Hb Hl].
  destruct (builtin_codec 4) as (_ & Hc & _).
  destruct (Hc (take 4 (sha3 (string_bytes (fullSig name ts))))) as (i & Hi & Hr & _).
  { by apply Forall_take. } { rewrite length_take, Hl. done. }
  change (bytesToUint32 (take 4 (sha3 (string_bytes (fullSig name ts)))) = Ret i) in Hi. rewrite Hi.
  intros [= <-]. exact Hr.
Qed.

Lemma functor_of_call f args : in_range 32 f →
  getFunctor (be_bytes 4 f ++ args) = Ret f ∧ getFunctionArgs (be_bytes 4 f ++ args) = args.
Proof.
  intros Hf. unfold getFunctor, getFunctionArgs. rewrite length_app, be_bytes_length.
  rewrite !decide_False by lia. rewrite take_app_length', drop_app_length' by (by rewrite be_bytes_length). split; [|done].
  destruct (builtin_codec 4) as (Hc & _ & _). destruct (Hc f Hf) as (E1 & _ & E2). by rewrite E1 in E2.
Qed.

(** The functions registered one after the other, with different selectors. *)
Lemma register_all_lookup methods x c x' c' : register_all methods x c = Ret (x', c') →
  ∀ f, (∀ name m mutability, (name, m, mutability) ∈ methods → functor_encode sha3 name (member_args m) ≠ Ret f) →
  evmFunctions_ c' !! f = evmFunctions_ c !! f ∧
  (f ∈ nonpayableFunctions_ c' ↔ f ∈ nonpayableFunctions_ c) ∧ (f ∈ viewFunctions_ c' ↔ f ∈ viewFunctions_ c).
Proof.
  revert x c. induction methods as [|[[name m] mutability] methods IH]; intros x c H f Hf; [by injection H as <- <-|].
  cbn in H. apply outcome_bind_Ret in H as ([g c1] & Hr & H). cbn [fst snd] in H.
  apply register_inv in Hr as (Hg & _ & ->).
  assert (Hne : f ≠ g) by (intros ->; by eapply Hf; [left|]).
  destruct (IH _ _ H f) as (E1 & E2 & E3); [intros; eapply Hf; by right|].
  destruct (registerFunction_sets g (member_handler m) mutability c) as (S1 & S2 & _).
  rewrite E1, E2, E3, registerFunction_lookup, decide_False, S1, S2 by done.
  split_and!; [done|repeat case_decide; set_solver..].
Qed.

Lemma register_all_member methods x c x' c' name m mutability f : register_all methods x c = Ret (x', c') →
  NoDup (map (λ me : Method, functor_encode sha3 me.1.1 (member_args me.1.2)) methods) →
  (name, m, mutability) ∈ methods → functor_encode sha3 name (member_args m) = Ret f →
  evmFunctions_ c' !! f = Some (member_handler m).
Proof.
  revert x c. induction methods as [|[[name' m'] mutability'] methods IH]; intros x c H Hnd Hin Hf; [set_solver|].
  cbn in H, Hnd. apply NoDup_cons in Hnd as [Hni Hnd]. apply outcome_bind_Ret in H as ([g c1] & Hr & H). cbn [fst snd] in H.
  apply elem_of_cons in Hin as [Heq|Hin]; [|by eapply IH].
  injection Heq as <- <- <-. apply register_inv in Hr as (Hg & _ & ->). rewrite Hf in Hg. injection Hg as <-.
  destruct (register_all_lookup _ _ _ _ _ H f) as (E & _).
  - intros name' m' mutability' Hin Hf'. apply Hni. rewrite Hf, <- Hf'.
    apply list_elem_of_In, in_map_iff. exists (name', m', mutability'). split; [done|]. by apply list_elem_of_In.
  - by rewrite E, registerFunction_lookup, decide_True by done.
Qed.

(** C35: a call finds its function and its arguments.  For a contract whose
    functions have different selectors, a message with the selector of one of
    them and the ABI encoding of arguments runs exactly that function on exactly
    these arguments, with the host set, and returns the encoding of its result,
    which the caller decodes to the result itself.  The types of the arguments and
    of the result are sound and their values readable, as for the round trip of
    the ABI: a [FixedBytes] before another argument and a negative number that is a
    multiple of 256 reach the function as other values ([fixed_bytes_stuck],
    [int256_bytes]). *)
Theorem call_runs_function (methods : list Method) (c0 c : Contract) (name : string) (m : Member)
    (mutability : FunctionTypes) (f : Z) (vs : list abi_val) (r : Run) :
  hash_ok → registerMemberFunctions methods c0 = Ret c →
  NoDup (map (λ me : Method, functor_encode sha3 me.1.1 (member_args me.1.2)) methods) →
  (name, m, mutability) ∈ methods → functor_encode sha3 name (member_args m) = Ret f →
  forallb sound_type (member_args m) = true → typed_all leaf_readable (member_args m) vs →
  small (encodeData (member_args m) vs) →
  evmEthCall c (mkMsg false (be_bytes 4 f ++ encodeData (member_args m) vs) 0) r =
    with_nullifier (v ← member_run m vs ; mret (encode_result (member_ret m) v)) (set_host true (nullifiable_ r) r) ∧
  ∀ t v, member_ret m = Some t → sound_type t = true → readable t v → small (encodeData [t] [v]) →
    decodeData [t] (encode_result (member_ret m) v) 0 = Ret [v].
Proof.
  intros Hh Hreg Hnd Hin Hf Hs Hv Hsm. split.
  - destruct (functor_of_call f (encodeData (member_args m) vs) (functor_range _ _ _ Hh Hf)) as [Hg Ha].
    unfold registerMemberFunctions in Hreg. apply outcome_bind_Ret in Hreg as ([x c'] & Hr & Hc). injection Hc as <-.
    pose proof (register_all_member _ _ _ _ _ _ _ _ f Hr Hnd Hin Hf) as Hl.
    unfold evmEthCall, modify. unfold mbind at 1, M_bind at 1.
    assert (Hd : ∀ r, dispatch (push_interface x c') (mkMsg false (be_bytes 4 f ++ encodeData (member_args m) vs) 0) r =
      (v ← member_run m vs ; mret (encode_result (member_ret m) v)) r).
    { intros r'. unfold dispatch. unfold mbind at 1, M_bind at 1. unfold lift at 1. cbn [m_input]. rewrite Hg.
      change (find_function (push_interface x c') f) with (find_function c' f).
      unfold find_function at 1. rewrite Hl. cbn [m_static m_value].
      rewrite andb_false_r. unfold throw_if. unfold mbind at 1, M_bind at 1. cbn [mret M_ret].
      unfold member_handler. cbn [m_input]. rewrite Ha, data_decodes by done. done. }
    unfold with_nullifier. by rewrite !Hd.
  - intros t v Ht Hst Hrv Hsv. rewrite Ht. cbn [encode_result]. apply data_decodes; [cbn; by rewrite Hst| |done].
    constructor; [exact Hrv|constructor].
Qed.

(** The outermost call leaves no host behind, also when it throws. *)
Lemma host_cleared c msg r : nullifiable_ r = true →
  host_ (evmEthCall c msg r).2 = false ∧ nullifiable_ (evmEthCall c msg r).2 = true.
Proof.
  intros Hn. unfold evmEthCall, modify, mbind, M_bind, with_nullifier. cbn [set_host nullifiable_]. rewrite Hn.
  by destruct (dispatch c msg _).
Qed.

(** Value sent to a non-payable function is not refused.  The dispatch throws
    when the message carries a value, but the message the executor builds for an
    encoded call always carries zero: whatever value was sent, and already moved
    to the contract, the non-payable function runs. *)
Theorem nonpayable_value_accepted (c : Contract) (input : list Z) (value : Z) (f : Z) (h : Handler) (r : Run) :
  getFunctor input = Ret f → evmFunctions_ c !! f = Some h → f ∈ nonpayableFunctions_ c → value ≠ 0 →
  (evmEthCall c (mkMsg false input value) r).1 = Throw (DynamicException "Non-payable function called with value") ∧
  evmEthCall c (evmcMsg false input value) r = with_nullifier (h (mkMsg false input 0)) (set_host true (nullifiable_ r) r).
Proof.
  intros Hf Hh Hn Hv.
  assert (Hd : ∀ v r, dispatch c (mkMsg false input v) r =
    (if v =? 0 then h (mkMsg false input v) r else (Throw (DynamicException "Non-payable function called with value"), r))).
  { intros v r'. unfold dispatch, mbind, M_bind, lift. cbn [m_input]. rewrite Hf.
    unfold find_function at 1. rewrite Hh. cbn [m_static m_value]. rewrite bool_decide_true by done.
    by destruct (v =? 0). }
  unfold evmEthCall, modify. unfold mbind, M_bind. unfold with_nullifier, evmcMsg. cbn [set_host nullifiable_].
  rewrite !Hd, (proj2 (Z.eqb_neq value 0) Hv). split; [by destruct (nullifiable_ r)|done].
Qed.

(** ERC-165: a group of functions is supported under the exclusive or of its
    selectors, and nothing is that was not registered. *)
Lemma supports_iff f r : in_range 32 f → supportsInterface (be_bytes 4 f) r = Ret (bool_decide (f ∈ supportedInterfaces_ r)).
Proof.
  intros Hf. unfold supportsInterface. destruct (builtin_codec 4) as (Hc & _ & _). destruct (Hc f Hf) as (E1 & _ & E2).
  rewrite E1 in E2. change (bytesToUint32 (be_bytes 4 f) = Ret f) in E2. rewrite E2. cbn. f_equal.
  case_bool_decide as Hin.
  - apply existsb_exists. exists f. split; [by apply list_elem_of_In|apply Z.eqb_refl].
  - apply not_true_is_false. intros (g & Hg & ->%Z.eqb_eq)%existsb_exists. by apply Hin, list_elem_of_In.
Qed.
Definition xor_of (fs : list Z) : Z := fold_left Z.lxor fs 0.
Lemma group_supported methods c0 c : registerMemberFunctions methods c0 = Ret c →
  ∃ fs, Forall2 (λ (me : Method) f, functor_encode sha3 me.1.1 (member_args me.1.2) = Ret f) methods fs ∧
    supportedInterfaces_ (run c) = supportedInterfaces_ (run c0) ++ [xor_of fs].
Proof.
  unfold registerMemberFunctions, xor_of. intros H. apply outcome_bind_Ret in H as ([x c'] & H & Hc). injection Hc as <-.
  revert H. generalize 0 as a. revert c0. induction methods as [|[[name m] mutability] methods IH]; intros c0 a H.
  - injection H as <- <-. exists []. by split; [constructor|].
  - cbn in H. apply outcome_bind_Ret in H as ([g c1] & Hr & H). apply register_inv in Hr as (Hg & _ & ->).
    destruct (IH _ _ H) as (fs & Hfs & E). exists (g :: fs). split; [by constructor|].
    rewrite E. by destruct mutability.
Qed.
End contract.
Arguments Run : clear implicits.
Arguments Member : clear implicits.
Arguments Contract : clear implicits.

(** ** A contract with a counter *)

Definition demo_sha3 (l : list Z) : list Z := be_bytes 32 (2 ^ 224 * (be_value l mod 4294967291)).
Definition demo_get : Member Z := ConstMember [] (Some (TUint 256)) (λ _ r, Ret (VNum (vars r))).
Definition demo_add : Member Z := MutMember [TUint 256; TString] (Some (TUint 256)) (λ args r,
  match args with
  | [VNum z; _] => (Ret (VNum (vars r + z)), mkRun (host_ r) (nullifiable_ r) (supportedInterfaces_ r) (vars r + z))
  | _ => (Throw undefined_behaviour, r)
  end).
Definition demo_methods : list (Method (S := Z)) := [("get", demo_get, View); ("add", demo_add, NonPayable)].
Definition demo_functor (name : string) (m : Member Z) : Z :=
  match functor_encode demo_sha3 name (member_args m) with Ret f => f | Throw _ => 0 end.
Definition demo_c0 : Contract Z := mkContract ∅ ∅ ∅ ∅ None None (mkRun false true [33540519] 10).
Definition demo_new : Contract Z :=
  registerFunction (demo_functor "supportsInterface" supportsInterface_member) (member_handler supportsInterface_member) View demo_c0.
Definition demo_c : Contract Z :=
  push_interface (Z.lxor (Z.lxor 0 (demo_functor "get" demo_get)) (demo_functor "add" demo_add))
    (registerFunction (demo_functor "add" demo_add) (member_handler demo_add) NonPayable
      (registerFunction (demo_functor "get" demo_get) (member_handler demo_get) View demo_new)).

Lemma demo_hash_ok : hash_ok demo_sha3.
Proof. intros l. unfold demo_sha3. split; [apply be_bytes_is_byte|apply be_bytes_length]. Qed.

Lemma demo_functors :
  functor_encode demo_sha3 "supportsInterface" (member_args (supportsInterface_member (S := Z))) =
    Ret (demo_functor "supportsInterface" supportsInterface_member) ∧
  functor_encode demo_sha3 "get" (member_args demo_get) = Ret (demo_functor "get" demo_get) ∧
  functor_encode demo_sha3 "add" (member_args demo_add) = Ret (demo_functor "add" demo_add).
Proof. by vm_compute. Qed.

Lemma Ret_inj {A} (a b : A) : Ret a = Ret b → a = b.
Proof. congruence. Qed.

Lemma demo_distinct :
  demo_functor "get" demo_get ≠ demo_functor "supportsInterface" supportsInterface_member ∧
  demo_functor "add" demo_add ≠ demo_functor "supportsInterface" supportsInterface_member ∧
  demo_functor "add" demo_add ≠ demo_functor "get" demo_get.
Proof. vm_compute. split_and!; congruence. Qed.

Lemma demo_registered : DynamicContract_new demo_sha3 None None 10 = Ret demo_new ∧
  registerMemberFunctions demo_sha3 demo_methods demo_new = Ret demo_c.
Proof.
  destruct demo_functors as (E0 & E1 & E2). split.
  - unfold DynamicContract_new, registerMemberFunction. by rewrite E0.
  - unfold registerMemberFunctions, demo_methods. cbn [register_all]. unfold registerMemberFunction. rewrite E1.
    cbn [mbind outcome_bind is_const demo_get negb andb fst snd]. rewrite E2. done.
Qed.

Lemma demo_built : built demo_sha3 demo_c.
Proof.
  destruct demo_functors as (E0 & E1 & E2). unfold demo_c. apply built_interface.
  eapply (built_function _ _ "add" demo_add NonPayable); [|
    |unfold registerMemberFunction; by rewrite E2].
  - eapply (built_function _ _ "get" demo_get View); [by eapply built_new, demo_registered| |
      unfold registerMemberFunction; by rewrite E1].
    unfold demo_new. by rewrite registerFunction_lookup, decide_False by apply demo_distinct.
  - unfold demo_new. by rewrite !registerFunction_lookup, !decide_False by apply demo_distinct.
Qed.

Lemma call_runs_function_witness :
  (evmEthCall demo_c (mkMsg false (be_bytes 4 (demo_functor "add" demo_add) ++
     encodeData [TUint 256; TString] [VNum 5; VBytes [104]]) 0) (run demo_c)).1 = Ret (encodeData [TUint 256] [VNum 15]).
Proof.
  destruct (call_runs_function demo_sha3 demo_methods demo_new demo_c "add" demo_add NonPayable
    (demo_functor "add" demo_add) [VNum 5; VBytes [104]] (run demo_c) demo_hash_ok) as [E _].
  - apply demo_registered.
  - unfold demo_methods. cbn [map fst snd]. destruct demo_functors as (_ & -> & ->).
    apply NoDup_cons. split; [|apply NoDup_singleton]. intros H%list_elem_of_singleton. apply Ret_inj in H. symmetry in H. revert H. apply demo_distinct.
  - right. left.
  - apply demo_functors.
  - done.
  - repeat constructor; try done; cbn; unfold in_range, is_byte; lia.
  - unfold small. by vm_compute.
  - cbn [member_args demo_add] in E. rewrite E. by vm_compute.
Defined.

Lemma static_calls_pure_witness :
  vars (evmEthCall demo_c (mkMsg true (be_bytes 4 (demo_functor "add" demo_add)) 0) (run demo_c)).2 = 10.
Proof. apply (static_calls_pure demo_sha3 demo_c (be_bytes 4 (demo_functor "add" demo_add)) 0 (run demo_c)), demo_built. Defined.

Lemma nonpayable_value_accepted_witness :
  let input := be_bytes 4 (demo_functor "add" demo_add) ++ encodeData [TUint 256; TString] [VNum 5; VBytes [104]] in
  (evmEthCall demo_c (mkMsg false input 1000) (run demo_c)).1 =
    Throw (DynamicException "Non-payable function called with value") ∧
  (evmEthCall demo_c (evmcMsg false input 1000) (run demo_c)).1 = Ret (encodeData [TUint 256] [VNum 15]).
Proof.
  cbv zeta. set (input := be_bytes 4 _ ++ _).
  destruct (nonpayable_value_accepted demo_c input 1000 (demo_functor "add" demo_add) (member_handler demo_add) (run demo_c))
    as [H1 H2].
  - by vm_compute.
  - unfold demo_c. change (evmFunctions_ (push_interface ?x ?c)) with (evmFunctions_ c).
    by rewrite registerFunction_lookup, decide_True.
  - unfold demo_c. change (nonpayableFunctions_ (push_interface ?x ?c)) with (nonpayableFunctions_ c).
    destruct (registerFunction_sets (demo_functor "add" demo_add) (member_handler demo_add) NonPayable
      (registerFunction (demo_functor "get" demo_get) (member_handler demo_get) View demo_new)) as (_ & -> & _). set_solver.
  - done.
  - split; [exact H1|]. rewrite H2. by vm_compute.
Defined.
