(* ===== verification/BlockObservers.v ===== *)
(** * Block observers

    Models src/contract/blockobservers.h and blockobservers.cpp: contracts ask to
    be called every so many blocks or microseconds; after a block the observers
    that are due are called and put back.  [std::priority_queue] is the class
    [Heap]: its top is a least element, which one of several is not specified.
    What a call does (a host over the chain state, executed and finished) is a
    parameter, a state transformer that may throw; exceptions are swallowed. *)

From stdpp Require Import sorting.
From S2P Require Import Prelude CheckedInt.

(** [BlockNumberObserver] and [BlockTimestampObserver]: the callback, the height
    or time it is due, and the period. *)
Record Observer := mkObserver { callback : nat; due : Z; step : Z }.
#[export] Instance Observer_eq : EqDecision Observer.
Proof. solve_decision. Defined.

(** [std::priority_queue] with [std::greater]. *)
Class Heap := {
  heap_top : list Observer → option (Observer * list Observer);
  heap_nil : heap_top [] = None;
  heap_least : ∀ l, l ≠ [] → ∃ o l', heap_top l = Some (o, l') ∧ l ≡ₚ o :: l' ∧ Forall (λ x, due o <= due x) l';
}.

(** The two queues. *)
Record Queues := mkQueues { blockNumberQueue_ : list Observer; blockTimestampQueue_ : list Observer }.
Definition queue_of (number : bool) (qs : Queues) : list Observer :=
  if number then blockNumberQueue_ qs else blockTimestampQueue_ qs.
Definition set_queue (number : bool) (q : list Observer) (qs : Queues) : Queues :=
  if number then mkQueues q (blockTimestampQueue_ qs) else mkQueues (blockNumberQueue_ qs) q.

Definition add (number : bool) (o : Observer) (qs : Queues) : Queues := set_queue number (o :: queue_of number qs) qs.

(** [ContractHost::addContractObservers]: the observers of a new contract. *)
Definition addContractObservers (new qs : Queues) : Queues :=
  fold_left (λ qs o, add false o qs) (blockTimestampQueue_ new)
    (fold_left (λ qs o, add true o qs) (blockNumberQueue_ new) qs).

(** [DynamicContract::registerBlockObserver], after the member function is
    registered: [now] is the height of the block, or its time, and [period] the
    number of blocks, or of microseconds ([count()] is signed). *)
Definition registerBlockObserver (callback : nat) (now blockCount : Z) (mine : Queues) : outcome Queues :=
  if blockCount =? 0 then Throw (DynamicException "Block count for block observer must be greater than 0")
  else Ret (mkQueues (blockNumberQueue_ mine ++ [mkObserver callback (wrap 64 (now + blockCount)) blockCount])
                     (blockTimestampQueue_ mine)).
Definition registerBlockObserver_period (callback : nat) (now count : Z) (mine : Queues) : outcome Queues :=
  let period := wrap 64 count in
  if period =? 0 then Throw (DynamicException "Period for block observer must be at least 1 microsecond")
  else Ret (mkQueues (blockNumberQueue_ mine)
                     (blockTimestampQueue_ mine ++ [mkObserver callback (wrap 64 (now + period)) period])).

(** The fields of the block. *)
Record Block := mkBlock { height : Z; timestamp : Z; randomness : Z; txs_size : Z }.
Definition date (number : bool) (b : Block) : Z := if number then height b else timestamp b.

Section observers.
Context {H : Heap}.
(** The chain state, and an observer called with a random seed and a transaction
    index: its outcome, the new state and the observers of the contracts it
    created, which stay also when it throws. *)
Context {W : Type}.
Variable invoke : Observer → Z → Z → W → outcome unit * W * Queues.

(** The body of the [try]: the seed is computed in 256 bits, which is checked. *)
Definition notify_one (b : Block) (o : Observer) (indexCount : Z) (w : W) : outcome unit * W * Queues :=
  if in_range_dec 256 (randomness b + indexCount)
  then invoke o (randomness b + indexCount) (if txs_size b =? 0 then 0 else wrap 64 (txs_size b + indexCount)) w
  else (Throw boost_error, w, mkQueues [] []).

(** What a notification leaves: the queues, the state, and as a log the observers
    called and those added meanwhile. *)
Record Result := mkResult { queues : Queues; world : W; called : list Observer; added : Queues }.

(** The loop over the observers of a queue that are due; [count] gives the index
    of a round from the one before. *)
Fixpoint notify_loop (fuel : nat) (number : bool) (b : Block) (count : Z → outcome unit → Z) (indexCount : Z)
    (s : Result) : outcome Result :=
  match fuel with
  | O => Throw undefined_behaviour
  | S fuel =>
      match heap_top (queue_of number (queues s)) with
      | None => Throw undefined_behaviour
      | Some (o, q') =>
          if due o <=? date number b then
            let '(r, w, new) := notify_one b o indexCount (world s) in
            let qs := addContractObservers new (set_queue number q' (queues s)) in
            let o' := mkObserver (callback o) (wrap 64 (date number b + step o)) (step o) in
            notify_loop fuel number b count (count indexCount r)
              (mkResult (add number o' qs) w (called s ++ [o]) (addContractObservers new (added s)))
          else Ret s
      end
  end.

(** [++indexCount] is reached when the call returned. *)
Definition count_up (indexCount : Z) (r : outcome unit) : Z :=
  match r with Ret _ => indexCount + 1 | Throw _ => indexCount end.

Definition start (qs : Queues) (w : W) : Result := mkResult qs w [] (mkQueues [] []).
Definition notifyNumberQueue (b : Block) (qs : Queues) (w : W) : outcome Result :=
  if decide (blockNumberQueue_ qs = []) then Ret (start qs w)
  else notify_loop (S (length (blockNumberQueue_ qs))) true b count_up 0 (start qs w).

(** [indexCount] of the timestamp queue is declared in the loop without a value:
    [garbage] is what the memory holds. *)
Definition notifyTimestampQueue (garbage : Z) (b : Block) (qs : Queues) (w : W) : outcome Result :=
  if decide (blockTimestampQueue_ qs = []) then Ret (start qs w)
  else notify_loop (S (length (blockTimestampQueue_ qs))) false b (λ _ _, garbage) garbage (start qs w).

(** [BlockObservers::notify] *)
Definition notify (garbage : Z) (b : Block) (qs : Queues) (w : W) : outcome (Queues * W) :=
  n ← notifyNumberQueue b qs w ;
  t ← notifyTimestampQueue garbage b (queues n) (world n) ;
  Ret (queues t, world t).

(** ** Every due observer is called once and put back *)

Definition is_due (now : Z) (o : Observer) : bool := due o <=? now.
Definition reschedule (now : Z) (o : Observer) : Observer :=
  if is_due now o then mkObserver (callback o) (now + step o) (step o) else o.

(** The periods of observers are positive; the next date fits in 64 bits. *)
Definition observer_ok (now : Z) (o : Observer) : Prop := 0 < step o ∧ 0 <= now + step o < 2 ^ 64.

Definition due_count (now : Z) (q : list Observer) : nat := length (filter (λ o, is_due now o = true) q).

Lemma reschedule_not_due now o : observer_ok now o → is_due now (reschedule now o) = false.
Proof.
  intros [Hs _]. unfold reschedule. destruct (is_due now o) eqn:E; [|done]. unfold is_due. cbn. apply Z.leb_gt. lia.
Qed.

Lemma none_due now q : due_count now q = 0%nat → map (reschedule now) q = q.
Proof.
  unfold due_count. induction q as [|o q IH]; [done|]. rewrite filter_cons. unfold reschedule at 1. cbn.
  destruct (is_due now o) eqn:E; case_decide; try done. intros Hq. f_equal. by apply IH.
Qed.

(** Observers that are not due yet and stay so for a period. *)
Definition fresh (now : Z) (o : Observer) : Prop := now < due o ∧ observer_ok now o.

(** What a contract registers is fresh. *)
Lemma registered_fresh callback now n mine mine' : 0 <= now → 0 <= n → now + n < 2 ^ 64 →
  registerBlockObserver callback now n mine = Ret mine' → Forall (fresh now) (blockNumberQueue_ mine) →
  Forall (fresh now) (blockNumberQueue_ mine').
Proof.
  intros Hnow Hn Hmax E Hm. unfold registerBlockObserver in E. destruct (Z.eqb_spec n 0); [done|]. injection E as <-.
  cbn. apply Forall_app. split; [done|]. constructor; [|done]. unfold fresh, observer_ok. cbn.
  unfold wrap. rewrite Z.mod_small by lia. lia.
Qed.

Lemma add_queue n n' o qs :
  queue_of n (add n' o qs) = if Bool.eqb n n' then o :: queue_of n qs else queue_of n qs.
Proof. by destruct n, n'. Qed.
Lemma add_all_queue n n' l qs : queue_of n (fold_left (λ qs o, add n' o qs) l qs) ≡ₚ
  (if Bool.eqb n n' then l else []) ++ queue_of n qs.
Proof.
  revert qs. induction l as [|o l IH]; intros qs; cbn; [by destruct (Bool.eqb n n')|].
  rewrite IH, add_queue. destruct (Bool.eqb n n'); [|done]. by rewrite <- Permutation_middle.
Qed.
Lemma add_contract_queue n new qs : queue_of n (addContractObservers new qs) ≡ₚ queue_of n new ++ queue_of n qs.
Proof.
  unfold addContractObservers. rewrite !add_all_queue. by destruct n.
Qed.
Lemma set_queue_queue n n' q qs : queue_of n (set_queue n' q qs) = if Bool.eqb n n' then q else queue_of n qs.
Proof. by destruct n, n'. Qed.

Lemma due_count_app now l k : due_count now (l ++ k) = (due_count now l + due_count now k)%nat.
Proof. unfold due_count. by rewrite filter_app, length_app. Qed.
Lemma fresh_not_due now l : Forall (fresh now) l → filter (λ o, is_due now o = true) l = [].
Proof.
  induction 1 as [|o l [Ho _] Hl IH]; [done|]. rewrite filter_cons, decide_False; [done|]. unfold is_due.
  intros E%Z.leb_le. lia.
Qed.
Lemma fresh_rescheduled now l : Forall (fresh now) l → map (reschedule now) l = l.
Proof.
  intros Hl. apply none_due. unfold due_count. by rewrite fresh_not_due.
Qed.

(** What the calls add is never due in the block that adds it. *)
Definition adds_fresh (number : bool) (b : Block) : Prop :=
  ∀ o seed i w, Forall (fresh (date number b)) (queue_of number (invoke o seed i w).2).

Lemma notify_one_fresh number b o i w : adds_fresh number b →
  Forall (fresh (date number b)) (queue_of number (notify_one b o i w).2).
Proof.
  intros Hf. unfold notify_one. destruct (in_range_dec _ _); [apply Hf|]. by destruct number.
Qed.

(** What the loop leaves for a queue [q] that it began with. *)
Definition notified (number : bool) (now : Z) (q : list Observer) (s s' : Result) : Prop :=
  ∃ new extra, queue_of number (queues s') ≡ₚ map (reschedule now) q ++ extra ∧
    called s' = called s ++ new ∧ new ≡ₚ filter (λ o, is_due now o = true) q ∧
    StronglySorted (λ x y, due x <= due y) new ∧
    queue_of number (added s') ≡ₚ extra ++ queue_of number (added s).

Lemma loop_spec number b count fuel indexCount s :
  let now := date number b in let q := queue_of number (queues s) in
  adds_fresh number b → Forall (observer_ok now) q → q ≠ [] → (due_count now q < fuel)%nat →
  ∃ s', notify_loop fuel number b count indexCount s = Ret s' ∧ notified number now q s s'.
Proof.
  intros now q Hf. revert indexCount s q. induction fuel as [|fuel IH]; intros indexCount s q Hok Hne Hlt; [lia|].
  cbn [notify_loop]. destruct (heap_least q Hne) as (o & q1 & E & Hp & Hmin). fold q. rewrite E. fold now.
  assert (Hok' : Forall (observer_ok now) (o :: q1)) by (by rewrite <- Hp).
  apply Forall_cons in Hok' as [Ho Hok1].
  destruct (due o <=? now) eqn:Hdue.
  - pose proof (notify_one_fresh number b o indexCount (world s) Hf) as Hnew. fold now in Hnew.
    destruct (notify_one b o indexCount (world s)) as [[r w1] new]. cbn [snd] in Hnew. cbv zeta.
    assert (Ho' : mkObserver (callback o) (wrap 64 (now + step o)) (step o) = reschedule now o).
    { unfold reschedule, is_due. rewrite Hdue. f_equal. unfold wrap. apply Z.mod_small, Ho. }
    rewrite Ho'. pose proof (reschedule_not_due now o Ho) as Hnd.
    set (s1 := mkResult _ w1 _ _).
    assert (Hq : queue_of number (queues s1) ≡ₚ reschedule now o :: queue_of number new ++ q1).
    { unfold s1. cbn. rewrite add_queue, eqb_reflx, add_contract_queue, set_queue_queue, eqb_reflx. done. }
    assert (Hfil : filter (λ o, is_due now o = true) (queue_of number (queues s1)) ≡ₚ
      filter (λ o, is_due now o = true) q1).
    { rewrite Hq, filter_cons, decide_False, filter_app, fresh_not_due by (done || by rewrite Hnd). done. }
    destruct (IH (count indexCount r) s1) as (s' & En & new' & extra & Hq' & Hcall & Hn' & Hsort & Hadd).
    { rewrite Hq. constructor; [unfold observer_ok, reschedule in *; by destruct (is_due now o)|].
      apply Forall_app. split; [|done]. eapply Forall_impl; [exact Hnew|]. by intros x [_ Hx]. }
    { intros Hnil. rewrite Hnil in Hq. by apply Permutation_nil_cons in Hq. }
    { unfold due_count in *. rewrite Hfil. revert Hlt. rewrite Hp, filter_cons, decide_True by exact Hdue. cbn. lia. }
    exists s'. split; [exact En|]. exists (o :: new'), (extra ++ queue_of number new). split_and!.
    + rewrite Hq', Hq, Hp. cbn. rewrite map_app, (fresh_rescheduled now _ Hnew).
      assert (reschedule now (reschedule now o) = reschedule now o) as ->
        by (unfold reschedule at 1; by rewrite Hnd).
      cbn. constructor. rewrite (Permutation_app_comm extra), <- !(assoc_L (++)), Permutation_app_swap_app. done.
    + rewrite Hcall. unfold s1. cbn. by rewrite <- (assoc_L (++)).
    + rewrite Hn', Hfil, Hp, filter_cons, decide_True by exact Hdue. done.
    + constructor; [done|]. rewrite Hn', Hfil. apply Forall_forall. intros x [_ Hx]%list_elem_of_filter.
      rewrite Forall_forall in Hmin. by apply Hmin.
    + rewrite Hadd. unfold s1. cbn. rewrite add_contract_queue. by rewrite <- (assoc_L (++)).
  - assert (Hz : filter (λ o, is_due now o = true) q = []).
    { apply Permutation_nil_r. rewrite Hp.
      assert (Hnone : Forall (λ x, is_due now x = false) (o :: q1)).
      { constructor; [done|]. eapply Forall_impl; [exact Hmin|]. cbn. intros x Hx. apply Z.leb_gt in Hdue. apply Z.leb_gt. lia. }
      revert Hnone. generalize (o :: q1). induction l as [|x l IHl]; [done|].
      intros [Hx Hl]%Forall_cons. rewrite filter_cons, decide_False by (by rewrite Hx). by apply IHl. }
    exists s. split; [done|]. exists [], []. rewrite !app_nil_r, none_due by (unfold due_count; by rewrite Hz).
    split_and!; [done|done|by rewrite Hz|constructor|done].
Qed.

(** After a block, the loop over the observers of a queue ends; every observer
    that is due, and no other, has been called exactly once, in the order of the
    dates, whatever the calls did and whether they threw; and the queue holds the
    same observers with the next date of those that were called, and what the
    contracts created meanwhile have registered. *)
Theorem observers_notified (b : Block) (qs : Queues) (w : W) (garbage : Z) :
  adds_fresh true b → adds_fresh false b →
  Forall (observer_ok (height b)) (blockNumberQueue_ qs) →
  Forall (observer_ok (timestamp b)) (blockTimestampQueue_ qs) →
  (∃ s, notifyNumberQueue b qs w = Ret s ∧ notified true (height b) (blockNumberQueue_ qs) (start qs w) s) ∧
  (∃ s, notifyTimestampQueue garbage b qs w = Ret s ∧
     notified false (timestamp b) (blockTimestampQueue_ qs) (start qs w) s).
Proof.
  intros Hn Hf Hh Ht. unfold notifyNumberQueue, notifyTimestampQueue.
  assert (Hlen : ∀ now q, (due_count now q < S (length q))%nat).
  { intros now q. unfold due_count. pose proof (length_filter (λ o, is_due now o = true) q). lia. }
  assert (Hnil : ∀ n now, queue_of n qs = [] → notified n now [] (start qs w) (start qs w)).
  { intros n now Hq. exists [], []. cbn. rewrite Hq. split_and!; try done. constructor. }
  split.
  - destruct (decide _) as [Hq|Hq]; [exists (start qs w); split; [done|]; rewrite Hq; by apply Hnil|].
    by apply loop_spec.
  - destruct (decide _) as [Hq|Hq]; [exists (start qs w); split; [done|]; rewrite Hq; by apply Hnil|].
    by apply loop_spec.
Qed.
End observers.

(** A heap that takes the first least element. *)
Fixpoint take_least (l : list Observer) : option (Observer * list Observer) :=
  match l with
  | [] => None
  | x :: l => match take_least l with
              | None => Some (x, [])
              | Some (y, l') => if due x <=? due y then Some (x, y :: l') else Some (y, x :: l')
              end
  end.
Lemma take_least_spec l : l ≠ [] →
  ∃ o l', take_least l = Some (o, l') ∧ l ≡ₚ o :: l' ∧ Forall (λ x, due o <= due x) l'.
Proof.
  induction l as [|x l IH]; [done|]. intros _. cbn. destruct l as [|y l]; [exists x, []; by repeat constructor|].
  destruct IH as (o & l' & -> & Hp & Hm); [done|]. destruct (Z.leb_spec (due x) (due o)).
  - exists x, (o :: l'). split_and!; [done|by rewrite Hp|]. constructor; [done|]. eapply Forall_impl; [exact Hm|]. cbn. lia.
  - exists o, (x :: l'). split_and!; [done|rewrite Hp; by constructor 3|]. constructor; [lia|done].
Qed.
#[export] Instance list_heap : Heap := {| heap_top := take_least; heap_nil := eq_refl; heap_least := take_least_spec |}.

(** An observer that adds its seed to a counter, one that registers an observer,
    and one that throws. *)
Definition demo_invoke (o : Observer) (seed txIndex w : Z) : outcome unit * Z * Queues :=
  match callback o with
  | 1%nat => (Ret (), w + seed, mkQueues [] [])
  | 2%nat => (Ret (), w, mkQueues [mkObserver 1 11 1] [])
  | _ => (Throw out_of_range, w, mkQueues [] [])
  end.
Definition demo_block : Block := mkBlock 10 500 1000 0.
Definition demo_queues : Queues :=
  mkQueues [mkObserver 1 10 5; mkObserver 2 8 1; mkObserver 3 9 1; mkObserver 1 12 2] [mkObserver 1 400 50].

Lemma demo_adds_fresh number : adds_fresh demo_invoke number demo_block.
Proof.
  intros o seed i w. unfold demo_invoke. destruct (callback o) as [|[|[|n]]], number; cbn; repeat constructor; cbn; lia.
Qed.

Lemma observers_notified_witness :
  ∃ s, notifyNumberQueue demo_invoke demo_block demo_queues 0 = Ret s ∧
    called s ≡ₚ [mkObserver 1 10 5; mkObserver 2 8 1; mkObserver 3 9 1] ∧
    blockNumberQueue_ (queues s) ≡ₚ
      [mkObserver 1 15 5; mkObserver 2 11 1; mkObserver 3 11 1; mkObserver 1 12 2] ++ blockNumberQueue_ (added s).
Proof.
  destruct (observers_notified demo_invoke demo_block demo_queues 0 7 (demo_adds_fresh true) (demo_adds_fresh false))
    as [(s & E & new & extra & Hq & Hc & Hn & _ & Ha) _].
  - repeat constructor; cbn; lia.
  - repeat constructor; cbn; lia.
  - exists s. split; [exact E|]. cbn in *. rewrite app_nil_r in Ha. rewrite Hc, Ha. split; [exact Hn|exact Hq].
Defined.

(** The seeds of the timestamp observers depend on the garbage: two nodes that
    process the same block can end in different states. *)
Example timestamp_seed_undefined :
  let run g := s ← notifyTimestampQueue demo_invoke g demo_block demo_queues 0 ; Ret (world s) in
  run 0 = Ret 1000 ∧ run 3 = Ret 1003.
Proof. by vm_compute. Qed.

(** A period that overflows 64 bits puts the observer back as due: the loop calls
    it again and again, for every number of rounds. *)
Example overflowing_step_never_ends fuel :
  let o := mkObserver 3 10 (2 ^ 64 - 1) in
  notify_loop demo_invoke fuel true demo_block count_up 0 (start (mkQueues [o] []) 0) = Throw undefined_behaviour.
Proof.
  cbv zeta. unfold start.
  assert (Hall : ∀ d i c, d = 10 ∨ d = 9 → notify_loop demo_invoke fuel true demo_block count_up i
    (mkResult (mkQueues [mkObserver 3 d (2 ^ 64 - 1)] []) 0 c (mkQueues [] [])) = Throw undefined_behaviour); [|by apply Hall; left].
  induction fuel as [|fuel IH]; intros d i c Hd; [done|]. destruct Hd as [->| ->]; cbn -[Z.pow in_range_dec];
    unfold notify_one; destruct (in_range_dec _ _); cbn -[Z.pow]; apply IH; by right.
Qed.
