(* ===== verification/Tx.v ===== *)
(** * Transactions and their RLP form

    Models [TxBlock] and [TxValidator] of src/utils/tx.h and src/utils/tx.cpp:
    the serialization, the parser behind the raw constructors, and the signing
    constructors.  The parser's [index] is the state of the monad [M nat];
    reading past the end of a view is undefined behaviour.  The elliptic-curve
    functions and Keccak-256 are the class [Secp256k1]. *)

From S2P Require Import Prelude CheckedInt ExecutionContext Bytes.

(** [TxBlock] *)
Record TxBlock := mkTxBlock {
  tx_to : Address;
  tx_from : Address;
  tx_data : list Z;
  tx_chainId : Z;
  tx_nonce : Z;
  tx_value : Z;
  tx_maxPriorityFeePerGas : Z;
  tx_maxFeePerGas : Z;
  tx_gasLimit : Z;
  tx_v : Z;
  tx_r : Z;
  tx_s : Z;
  tx_hash : Hash;
}.

(** [TxValidator] *)
Record TxValidator := mkTxValidator {
  tv_from : Address;
  tv_data : list Z;
  tv_chainId : Z;
  tv_nHeight : Z;
  tv_v : Z;
  tv_r : Z;
  tv_s : Z;
  tv_hash : Hash;
}.

(** What the library functions give: Keccak-256, the recovery of a public key
    (0, [UPubKey()], on failure), keys, addresses and signatures of 65 bytes. *)
Class Secp256k1 := {
  keccak256 : list Z → Hash;
  recover : list Z → Hash → Z;
  toUPub : Z → Z;
  toAddress : Z → Address;
  sign : Hash → Z → list Z;
  keccak256_range : ∀ l, in_range 256 (keccak256 l);
  sign_length : ∀ h k, length (sign h k) = 65%nat;
  sign_bytes : ∀ h k, Forall is_byte (sign h k);
}.

Definition ecConst : Z :=
  115792089237316195423570985008687907852837564279074904382605163141518161494337.

(** [Secp256k1::verifySig] *)
Definition verifySig (r s v : Z) : bool :=
  (v <=? 1) && (0 <? r) && (0 <? s) && (r <? ecConst) && (s <? ecConst).

(** [Secp256k1::makeSig] *)
Definition makeSig (r s v : Z) : list Z := be_bytes 32 r ++ be_bytes 32 s ++ [v].

(** ** Serialization *)

(** A [char] or [uint8_t] appended to the buffer. *)
Definition byte (z : Z) : list Z := [wrap 8 z].

(** The common body of [serializeChainId], [serializeNonce], ...: the empty
    string for zero, a small value as itself, else a short string. *)
Definition serialize_uint (z : Z) : list Z :=
  if z =? 0 then [0x80]
  else if z <? 0x80 then byte z
  else byte (Z.of_nat (bytesRequired z) + 0x80) ++ uintToBytes z.

Definition uint_item_size (z : Z) : Z := if z <? 0x80 then 1 else 1 + Z.of_nat (bytesRequired z).

Definition serializeChainId (tx : TxBlock) : list Z := serialize_uint (tx_chainId tx).
Definition serializeNonce (tx : TxBlock) : list Z := serialize_uint (tx_nonce tx).
Definition serializeMaxPriorityFeePerGas (tx : TxBlock) : list Z :=
  serialize_uint (tx_maxPriorityFeePerGas tx).
Definition serializeMaxFeePerGas (tx : TxBlock) : list Z := serialize_uint (tx_maxFeePerGas tx).
Definition serializeGasLimit (tx : TxBlock) : list Z := serialize_uint (tx_gasLimit tx).
Definition serializeValue (tx : TxBlock) : list Z := serialize_uint (tx_value tx).

Definition serializeTo (tx : TxBlock) : list Z :=
  if tx_to tx =? 0 then [0x80] else [0x94] ++ be_bytes 20 (tx_to tx).

(** [serializeData], the same in both classes. *)
Definition serializeData (data : list Z) : list Z :=
  let size := Z.of_nat (length data) in
  if size =? 0 then [0x80]
  else if size <=? 55 then byte (size + 0x80) ++ data
  else byte (Z.of_nat (bytesRequired size) + 0xb7) ++ uintToBytes size ++ data.

Definition data_item_size (data : list Z) : Z :=
  let size := Z.of_nat (length data) in
  if size =? 0 then 1
  else if size <=? 55 then 1 + size
  else 1 + Z.of_nat (bytesRequired size) + size.

(** [r_] and [s_] are always written as short strings. *)
Definition serialize_half (z : Z) : list Z :=
  byte (Z.of_nat (bytesRequired z) + 0x80) ++ uintToBytes z.

Definition serializeVRS (tx : TxBlock) : list Z :=
  [if tx_v tx =? 0 then 0x80 else tx_v tx] ++ serialize_half (tx_r tx) ++ serialize_half (tx_s tx).

(** The header of a list of [total_size] bytes. *)
Definition list_header (total_size : Z) : list Z :=
  if total_size <=? 55 then byte (total_size + 0xc0)
  else byte (Z.of_nat (bytesRequired total_size) + 0xf7) ++ uintToBytes total_size.

(** The size of the items of [rlpSerialize(includeSig)], a [uint64_t]. *)
Definition tx_total_size (includeSig : bool) (tx : TxBlock) : Z :=
  wrap 64 (uint_item_size (tx_chainId tx) + uint_item_size (tx_nonce tx) +
    uint_item_size (tx_maxPriorityFeePerGas tx) + uint_item_size (tx_maxFeePerGas tx) +
    uint_item_size (tx_gasLimit tx) + (if tx_to tx =? 0 then 1 else 1 + 20) +
    uint_item_size (tx_value tx) + 1 + data_item_size (tx_data tx) +
    (if includeSig
     then 1 + (1 + Z.of_nat (bytesRequired (tx_r tx))) + (1 + Z.of_nat (bytesRequired (tx_s tx)))
     else 0)).

(** [TxBlock::rlpSize] *)
Definition TxBlock_rlpSize (tx : TxBlock) : Z := tx_total_size true tx.

(** [TxBlock::rlpSerialize] *)
Definition TxBlock_rlpSerialize (includeSig : bool) (tx : TxBlock) : list Z :=
  [0x02] ++ list_header (tx_total_size includeSig tx) ++
  serializeChainId tx ++ serializeNonce tx ++ serializeMaxPriorityFeePerGas tx ++
  serializeMaxFeePerGas tx ++ serializeGasLimit tx ++ serializeTo tx ++ serializeValue tx ++
  serializeData (tx_data tx) ++ [0xc0] ++ (if includeSig then serializeVRS tx else []).

(** [TxValidator::serializeNHeight], [serializeVRS], [serializeChainId]; a zero
    [v_] or chain id is written as the byte 0. *)
Definition serializeNHeight (tx : TxValidator) : list Z := serialize_uint (tv_nHeight tx).

Definition TxValidator_serializeData (tx : TxValidator) : list Z := serializeData (tv_data tx).

Definition serialize_v (z : Z) : list Z :=
  if z <? 0x80 then byte z else byte (Z.of_nat (bytesRequired z) + 0x80) ++ uintToBytes z.

Definition TxValidator_serializeVRS (tx : TxValidator) : list Z :=
  serialize_v (tv_v tx) ++ serialize_half (tv_r tx) ++ serialize_half (tv_s tx).

Definition TxValidator_serializeChainId (tx : TxValidator) : list Z :=
  serialize_v (tv_chainId tx) ++ [0x80] ++ [0x80].

Definition tv_total_size (includeSig : bool) (tx : TxValidator) : Z :=
  wrap 64 (data_item_size (tv_data tx) + uint_item_size (tv_nHeight tx) +
    uint_item_size (if includeSig then tv_v tx else tv_chainId tx) +
    (if includeSig then 1 + Z.of_nat (bytesRequired (tv_r tx)) else 1) +
    (if includeSig then 1 + Z.of_nat (bytesRequired (tv_s tx)) else 1)).

Definition TxValidator_rlpSize (tx : TxValidator) : Z := tv_total_size true tx.

Definition TxValidator_rlpSerialize (includeSig : bool) (tx : TxValidator) : list Z :=
  list_header (tv_total_size includeSig tx) ++
  TxValidator_serializeData tx ++ serializeNHeight tx ++
  (if includeSig then TxValidator_serializeVRS tx else TxValidator_serializeChainId tx).

(** ** Parsing *)

(** [txData[index]] *)
Definition byte_at (l : list Z) : M nat Z :=
  i ← gets id;
  lift (match l !! i with Some b => Ret b | None => Throw undefined_behaviour end).

(** [txData.subspan(index, len)], or the iterator range of that length. *)
Definition view (l : list Z) (len : Z) : M nat (list Z) :=
  i ← gets id;
  if decide (Z.of_nat i + len ≤ Z.of_nat (length l)) then mret (subspan i (Z.to_nat len) l)
  else throw undefined_behaviour.

(** [index += n] *)
Definition advance (n : Z) : M nat unit := modify (λ i, (i + Z.to_nat n)%nat).

Section parse.
Context {BI : BoostInt}.

(** [Utils::fromBigEndian<T>] for a [w]-bit [T]. *)
Definition fromBigEndian_step (w : Z) (acc : outcome Z) (b : Z) : outcome Z :=
  r ← acc;
  if builtin_width w then Ret (wrap w (Z.lor (Z.shiftl r 8) b))
  else v ← bshl w r 8; mk_bits w (Z.lor v b).
Definition fromBigEndian (w : Z) (l : list Z) : outcome Z := foldl (fromBigEndian_step w) (Ret 0) l.

(** The common body of [parseChainId], [parseNonce], ...; [too_large] is the
    message for a string of more than 55 bytes, where the code checks it. *)
Definition parse_uint (w : Z) (too_large : option string) (txData : list Z) : M nat Z :=
  b ← byte_at txData;
  let len := if 0x80 <=? b then b - 0x80 else 0 in
  if negb (len =? 0) then
    match too_large with
    | Some msg => throw_if (0x37 <? len) (DynamicException msg)
    | None => mret ()
    end ;;
    advance 1 ;;
    l ← view txData len;
    z ← lift (fromBigEndian w l);
    advance len ;; mret z
  else
    z ← (if b =? 0x80 then mret 0 else l ← view txData 1; lift (fromBigEndian w l));
    advance 1 ;; mret z.

Definition parseChainId : list Z → M nat Z := parse_uint 64 (Some "ChainId is too large").
Definition parseNonce : list Z → M nat Z := parse_uint 64 (Some "Nonce is too large").
Definition parseMaxPriorityFeePerGas : list Z → M nat Z :=
  parse_uint 256 (Some "MaxPriorityFeePerGas is too large").
Definition parseMaxFeePerGas : list Z → M nat Z := parse_uint 256 (Some "MaxFeePerGas is too large").
Definition parseGasLimit : list Z → M nat Z := parse_uint 64 (Some "GasLimit is too large").
Definition parseValue : list Z → M nat Z := parse_uint 256 (Some "Value is not a small string").
Definition parseNHeight : list Z → M nat Z := parse_uint 64 None.

Definition parseTo (txData : list Z) : M nat Address :=
  b ← byte_at txData;
  let toLength := wrap 8 (b - 0x80) in
  throw_if (negb (toLength =? 20) && negb (toLength =? 0))
    (DynamicException "Receiver address (to) is not a 20 byte string (address)") ;;
  advance 1 ;;
  if toLength =? 0 then mret 0
  else l ← view txData 20; advance 20 ;; mret (be_value l).

(** [parseData]; [TxBlock] refuses a first byte from 0xc0 on. *)
Definition parse_data (bounded : bool) (txData : list Z) : M nat (list Z) :=
  b ← byte_at txData;
  if b <? 0x80 then l ← view txData 1; advance 1 ;; mret l
  else if b <? 0xb7 then
    let dataLength := b - 0x80 in
    advance 1 ;;
    if 0 <? dataLength then l ← view txData dataLength; advance dataLength ;; mret l
    else mret []
  else if negb bounded || (b <? 0xc0) then
    let dataLengthSize := b - 0xb7 in
    advance 1 ;;
    n ← view txData dataLengthSize;
    dataLength ← lift (fromBigEndian 64 n);
    advance dataLengthSize ;;
    l ← view txData dataLength;
    advance dataLength ;; mret l
  else throw (DynamicException "Data is too large").

Definition parseData : list Z → M nat (list Z) := parse_data true.
Definition TxValidator_parseData : list Z → M nat (list Z) := parse_data false.

Definition parseAccessList (txData : list Z) : M nat unit :=
  b ← byte_at txData;
  throw_if (negb (b =? 0xc0)) (DynamicException "Access list is not empty") ;;
  advance 1.

(** [r_] and [s_]: a short string, of at most [limit] bytes. *)
Definition parse_half (limit : Z) (msg : string) (txData : list Z) : M nat Z :=
  b ← byte_at txData;
  let len := wrap 8 (b - 0x80) in
  throw_if (limit <? len) (DynamicException msg) ;;
  advance 1 ;;
  l ← view txData len;
  z ← lift (fromBigEndian 256 l);
  advance len ;; mret z.

(** [v_]: always the byte itself. *)
Definition parse_v (txData : list Z) : M nat Z :=
  b ← byte_at txData;
  v ← (if b =? 0x80 then mret 0
       else l ← view txData 1; v ← lift (fromBigEndian 8 l);
            throw_if (1 <? v) (DynamicException "V is not 0 or 1") ;; mret v);
  advance 1 ;; mret v.

Definition parseVRS (txData : list Z) : M nat (Z * Z * Z) :=
  v ← parse_v txData;
  r ← parse_half 0x20 "R is bigger than 32 bytes" txData;
  s ← parse_half 0x20 "S is bigger than 32 bytes" txData;
  mret (v, r, s).

Definition TxValidator_parseVRS (txData : list Z) : M nat (Z * Z * Z) :=
  v ← parse_uint 256 (Some "V is not a small string") txData;
  r ← parse_half 0x37 "R is not a small string" txData;
  s ← parse_half 0x37 "S is not a small string" txData;
  mret (v, r, s).

(** The list header both constructors read first. *)
Definition parse_list_header (txData : list Z) : M nat unit :=
  b ← byte_at txData;
  throw_if (b <? 0xf7) (DynamicException "Tx is not a list") ;;
  let listLengthSize := b - 0xf7 in
  advance 1 ;;
  n ← view txData listLengthSize;
  listLength ← lift (fromBigEndian 64 n);
  advance listLengthSize ;;
  throw_if (negb (listLength =? wrap 64 (Z.of_nat (length txData) - listLengthSize - 1)))
    (DynamicException "Tx RLP returns different size than reported").

Context {EC : Secp256k1}.

(** The signature checks and the computed fields of the raw constructor. *)
Definition TxBlock_seal (tx : TxBlock) : outcome TxBlock :=
  if negb (verifySig (tx_r tx) (tx_s tx) (tx_v tx))
  then Throw (DynamicException "Invalid tx signature - doesn't fit elliptic curve verification")
  else
    let msgHash := keccak256 (TxBlock_rlpSerialize false tx) in
    let key := recover (makeSig (tx_r tx) (tx_s tx) (tx_v tx)) msgHash in
    if key =? 0
    then Throw (DynamicException "Invalid tx signature - cannot recover public key")
    else Ret (mkTxBlock (tx_to tx) (toAddress key) (tx_data tx) (tx_chainId tx) (tx_nonce tx)
      (tx_value tx) (tx_maxPriorityFeePerGas tx) (tx_maxFeePerGas tx) (tx_gasLimit tx)
      (tx_v tx) (tx_r tx) (tx_s tx) (keccak256 (TxBlock_rlpSerialize true tx))).

(** The fields of the raw constructor, parsed in sequence. *)
Definition TxBlock_fields (txData : list Z) : M nat TxBlock :=
  chainId ← parseChainId txData;
  nonce ← parseNonce txData;
  prio ← parseMaxPriorityFeePerGas txData;
  fee ← parseMaxFeePerGas txData;
  gas ← parseGasLimit txData;
  to ← parseTo txData;
  value ← parseValue txData;
  data ← parseData txData;
  parseAccessList txData ;;
  vrs ← parseVRS txData;
  let '(v, r, s) := vrs in
  mret (mkTxBlock to 0 data chainId nonce value prio fee gas v r s 0).

Definition TxBlock_parse (txData : list Z) : M nat TxBlock :=
  parse_list_header txData ;; TxBlock_fields txData.

(** [TxBlock::TxBlock(const View<Bytes>, const uint64_t&)] *)
Definition TxBlock_fromBytes (bytes : list Z) : outcome TxBlock :=
  match bytes with
  | [] => Throw undefined_behaviour
  | ty :: txData =>
      if negb (ty =? 0x02) then Throw (DynamicException "Tx is not type 2")
      else tx ← (TxBlock_parse txData 0%nat).1; TxBlock_seal tx
  end.

(** The signing constructor of [TxBlock]. *)
Definition TxBlock_make (to from : Address) (data : list Z)
    (chainId nonce value prio fee gas privKey : Z) : outcome TxBlock :=
  let pubKey := toUPub privKey in
  if negb (toAddress pubKey =? from)
  then Throw (DynamicException "Private key does not match sender address (from)")
  else
    let tx0 := mkTxBlock to from data chainId nonce value prio fee gas 0 0 0 0 in
    let msgHash := keccak256 (TxBlock_rlpSerialize false tx0) in
    let sig := sign msgHash privKey in
    let r := be_value (subspan 0 32 sig) in
    let s := be_value (subspan 32 32 sig) in
    let v := nth 64 sig 0 in
    if negb (pubKey =? recover sig msgHash)
    then Throw (DynamicException "Invalid tx signature - derived key doesn't match public key")
    else if negb (verifySig r s v)
    then Throw (DynamicException "Invalid tx signature - doesn't fit elliptic curve verification")
    else
      let tx := mkTxBlock to from data chainId nonce value prio fee gas v r s 0 in
      Ret (mkTxBlock to from data chainId nonce value prio fee gas v r s
        (keccak256 (TxBlock_rlpSerialize true tx))).

(** [chainId_] and the recovery id of a validator transaction, from [v_].  For
    27 and 28 the code reads a [chainId_] it never set. *)
Definition validator_chainId (v : Z) : outcome Z :=
  if 36 <? v then to_uint64 ((v - 35) / 2)
  else if negb (v =? 27) && negb (v =? 28)
  then Throw (DynamicException "Invalid tx signature - v is not 27 or 28")
  else Throw undefined_behaviour.

Definition TxValidator_seal (data : list Z) (nHeight v r s : Z) : outcome TxValidator :=
  chainId ← validator_chainId v;
  d ← usub 256 v (chainId * 2 + 35);
  recoveryId ← to_uint8 d;
  if negb (verifySig r s recoveryId)
  then Throw (DynamicException "Invalid tx signature - doesn't fit elliptic curve verification")
  else
    let tx := mkTxValidator 0 data chainId nHeight v r s 0 in
    let msgHash := keccak256 (TxValidator_rlpSerialize false tx) in
    let key := recover (makeSig r s recoveryId) msgHash in
    if key =? 0
    then Throw (DynamicException "Invalid tx signature - cannot recover public key")
    else Ret (mkTxValidator (toAddress key) data chainId nHeight v r s
      (keccak256 (TxValidator_rlpSerialize true tx))).

Definition TxValidator_parse (bytes : list Z) : M nat (list Z * Z * (Z * Z * Z)) :=
  parse_list_header bytes ;;
  data ← TxValidator_parseData bytes;
  nHeight ← parseNHeight bytes;
  vrs ← TxValidator_parseVRS bytes;
  mret (data, nHeight, vrs).

(** [TxValidator::TxValidator(const View<Bytes>, const uint64_t&)] *)
Definition TxValidator_fromBytes (bytes : list Z) : outcome TxValidator :=
  p ← (TxValidator_parse bytes 0%nat).1;
  let '(data, nHeight, (v, r, s)) := p in
  TxValidator_seal data nHeight v r s.

(** The signing constructor of [TxValidator]; [v_] is computed in 64 bits. *)
Definition TxValidator_make (from : Address) (data : list Z) (chainId nHeight privKey : Z)
    : outcome TxValidator :=
  let pubKey := toUPub privKey in
  let tx0 := mkTxValidator from data chainId nHeight 0 0 0 0 in
  let msgHash := keccak256 (TxValidator_rlpSerialize false tx0) in
  if negb (toAddress pubKey =? from)
  then Throw (DynamicException "Private key does not match sender address (from)")
  else
    let sig := sign msgHash privKey in
    let r := be_value (subspan 0 32 sig) in
    let s := be_value (subspan 32 32 sig) in
    let recoveryIds := nth 64 sig 0 in
    let v := wrap 64 (recoveryIds + (chainId * 2 + 35)) in
    if negb (verifySig r s recoveryIds)
    then Throw (DynamicException "Invalid tx signature - doesn't fit elliptic curve verification")
    else if negb (pubKey =? recover sig msgHash)
    then Throw (DynamicException "Invalid transaction signature, signature derived key doens't match public key")
    else
      let tx := mkTxValidator from data chainId nHeight v r s 0 in
      Ret (mkTxValidator from data chainId nHeight v r s
        (keccak256 (TxValidator_rlpSerialize true tx))).

(** ** A parser reads back an item *)

(** [parses p item a]: wherever [item] stands in the buffer, [p] started at its
    first byte returns [a] and stops behind it. *)
Definition parses {A} (p : list Z → M nat A) (item : list Z) (a : A) : Prop :=
  ∀ pre post, p (pre ++ item ++ post) (length pre) = (Ret a, length (pre ++ item)).

Lemma parses_bind {A B} (p : list Z → M nat A) (k : A → list Z → M nat B) i1 i2 a b :
  parses p i1 a → parses (k a) i2 b → parses (λ l, a ← p l; k a l) (i1 ++ i2) b.
Proof.
  intros Hp Hk pre post. unfold mbind, M_bind.
  rewrite <- (app_assoc i1), Hp. specialize (Hk (pre ++ i1) post).
  by rewrite <- !app_assoc in Hk.
Qed.

Lemma parses_ret {A} (a : A) : parses (λ _, mret a) [] a.
Proof. intros pre post. by rewrite app_nil_r. Qed.

Lemma byte_at_run pre b post : byte_at (pre ++ b :: post) (length pre) = (Ret b, length pre).
Proof. unfold byte_at, gets, lift, mbind, M_bind. cbn. by rewrite list_lookup_middle. Qed.

Lemma view_run pre item post n : n = Z.of_nat (length item) →
  view (pre ++ item ++ post) n (length pre) = (Ret item, length pre).
Proof.
  intros ->. unfold view, gets, mbind, M_bind. cbn.
  rewrite decide_True by (rewrite !length_app; lia). unfold subspan.
  by rewrite drop_app_length, Nat2Z.id, take_app_length.
Qed.

Lemma advance_run (pre item : list Z) n : n = Z.of_nat (length item) →
  advance n (length pre) = (Ret (), length (pre ++ item)).
Proof. intros ->. unfold advance, modify. by rewrite length_app, Nat2Z.id. Qed.

(** *** Numbers *)

Lemma lor_shift_byte r b : is_byte b → Z.lor (Z.shiftl r 8) b = r * 256 + b.
Proof.
  intros Hb. unfold is_byte in Hb.
  assert (Hd : Z.land (Z.shiftl r 8) b = 0).
  { apply Z.bits_inj'. intros n Hn. rewrite Z.land_spec, Z.bits_0.
    destruct (decide (n < 8)) as [Hlt|Hge]; [by rewrite Z.shiftl_spec_low|].
    apply andb_false_intro2. destruct (decide (b = 0)) as [->|]; [apply Z.bits_0|].
    apply Z.bits_above_log2; [lia|]. apply Z.log2_lt_pow2; [lia|].
    apply (Z.lt_le_trans _ (2 ^ 8)); [lia|]. apply Z.pow_le_mono_r; lia. }
  rewrite <- Z.lxor_lor, <- Z.add_nocarry_lxor by done. by rewrite Z.shiftl_mul_pow2.
Qed.

Lemma fromBigEndian_value w l : Forall is_byte l → in_range w (be_value l) →
  fromBigEndian w l = Ret (be_value l).
Proof.
  unfold fromBigEndian. induction l as [|b l IH] using rev_ind; intros Hl Hr; [done|].
  apply Forall_app in Hl as [Hl [Hb _]%Forall_cons]. rewrite be_value_snoc in *.
  rewrite foldl_app. cbn [foldl]. unfold in_range in *.
  pose proof (be_value_bound l Hl) as [Hpos _]. pose proof Hb as Hb'. unfold is_byte in Hb'.
  rewrite IH by (done || lia). unfold fromBigEndian_step. cbn.
  assert (Hs : Z.shiftl (be_value l) 8 = be_value l * 256) by by rewrite Z.shiftl_mul_pow2.
  destruct (builtin_width w).
  - by rewrite lor_shift_byte, wrap_id.
  - rewrite bshl_fits by (unfold in_range; lia). cbn.
    by rewrite lor_shift_byte, mk_bits_fits.
Qed.

Lemma uintToBytes_value w z : in_range w z →
  Forall is_byte (uintToBytes z) ∧ fromBigEndian w (uintToBytes z) = Ret z ∧
  length (uintToBytes z) = bytesRequired z.
Proof.
  intros Hz. pose proof Hz as Hz'. unfold in_range in Hz'.
  rewrite uintToBytes_be by lia. assert (Hv : be_value (be_bytes (bytesRequired z) z) = z).
  { apply be_value_bytes. unfold in_range. rewrite Z.pow_mul_r by lia.
    destruct (bytesRequired_spec z); [lia|]. change (2 ^ 8) with 256. lia. }
  split_and!; [apply be_bytes_is_byte| |apply be_bytes_length].
  rewrite fromBigEndian_value; [by rewrite Hv | apply be_bytes_is_byte | by rewrite Hv].
Qed.

(** A number below [256 ^ n] needs at most [n] bytes, one that is not zero at
    least one. *)
Lemma bytesRequired_le z n : 0 ≤ z < 256 ^ Z.of_nat n → (bytesRequired z ≤ n)%nat.
Proof.
  intros Hz. destruct (decide (z = 0)) as [->|Hne]; [change (0 ≤ n)%nat; lia|].
  destruct (bytesRequired_spec z) as [_ Hlo]; [lia|]. specialize (Hlo Hne).
  destruct (decide (bytesRequired z ≤ n)%nat); [done|].
  assert (256 ^ Z.of_nat n ≤ 256 ^ (Z.of_nat (bytesRequired z) - 1)) by (apply Z.pow_le_mono_r; lia).
  lia.
Qed.

Lemma bytesRequired_pos z : 0 < z → (1 ≤ bytesRequired z)%nat.
Proof.
  intros Hz. destruct (bytesRequired_spec z) as [Hlt _]; [lia|].
  destruct (bytesRequired z); [cbn in Hlt; lia|lia].
Qed.

(** The widths of the fields. *)
Lemma bytesRequired_width w z : w = 64 ∨ w = 256 → in_range w z → (bytesRequired z ≤ 32)%nat.
Proof.
  intros Hw [? Hz]. apply bytesRequired_le. split; [done|].
  apply (Z.lt_le_trans _ _ _ Hz). destruct Hw as [-> | ->]; done.
Qed.

(** *** Items *)

Lemma byte_id z : in_range 8 z → byte z = [z].
Proof. intros. unfold byte. by rewrite wrap_id. Qed.

(** The body of a string item: [advance 1; view len; ...; advance len]. *)
Lemma string_run {A B} (f : list Z → outcome A) (g : A → B) pre b item post n a :
  n = Z.of_nat (length item) → f item = Ret a →
  (advance 1 ;; l ← view (pre ++ (b :: item) ++ post) n; z ← lift (f l); advance n ;; mret (g z))
    (length pre) = (Ret (g a), length (pre ++ b :: item)).
Proof.
  intros Hn Hf. erewrite bind_run; [|by apply (advance_run pre [b])].
  replace (pre ++ (b :: item) ++ post) with ((pre ++ [b]) ++ item ++ post)
    by by rewrite <- app_assoc.
  erewrite bind_run; [|by apply view_run]. erewrite bind_run; [|unfold lift; by rewrite Hf].
  erewrite bind_run; [|by apply (advance_run _ item)]. by rewrite <- app_assoc.
Qed.

(** A byte up to 0x80 is the number itself, or zero. *)
Lemma parse_uint_byte w msg pre b post z :
  b ≤ 0x80 →
  (if b =? 0x80 then z = 0 else fromBigEndian w [b] = Ret z) →
  parse_uint w msg (pre ++ b :: post) (length pre) = (Ret z, length (pre ++ [b])).
Proof.
  intros Hb Hv. unfold parse_uint. erewrite bind_run; [|apply byte_at_run].
  replace (if 0x80 <=? b then b - 0x80 else 0) with 0 by (destruct (Z.leb_spec 0x80 b); lia).
  rewrite Z.eqb_refl. cbn [negb]. rewrite (bind_run _ _ _ z (length pre)).
  - erewrite bind_run; [|by apply (advance_run pre [b])]. done.
  - destruct (b =? 0x80); [by subst z|].
    erewrite bind_run; [|by apply (view_run pre [b])]. unfold lift. by rewrite Hv.
Qed.

Lemma parse_uint_item w msg z : w = 64 ∨ w = 256 → in_range w z →
  parses (parse_uint w msg) (serialize_uint z) z.
Proof.
  intros Hw Hz pre post. pose proof (bytesRequired_width w z Hw Hz) as Hn32.
  pose proof Hz as [Hz0 _]. unfold serialize_uint.
  destruct (Z.eqb_spec z 0) as [->|Hne]; [by apply parse_uint_byte|].
  destruct (Z.ltb_spec z 0x80) as [Hs|Hl].
  { rewrite byte_id by (unfold in_range; lia). apply parse_uint_byte; [lia|].
    rewrite (proj2 (Z.eqb_neq z 0x80)) by lia.
    apply (fromBigEndian_value w [z]); [by apply Forall_singleton; split; lia|done]. }
  unfold parse_uint. destruct (uintToBytes_value w z Hz) as (_ & Hv & Hlen).
  pose proof (bytesRequired_pos z ltac:(lia)).
  rewrite byte_id by (unfold in_range; lia). cbn [app].
  erewrite bind_run; [|apply byte_at_run].
  rewrite (proj2 (Z.leb_le 0x80 _)) by lia.
  replace (Z.of_nat (bytesRequired z) + 0x80 - 0x80) with (Z.of_nat (bytesRequired z)) by lia.
  rewrite (proj2 (Z.eqb_neq _ 0)) by lia. cbn [negb].
  erewrite bind_run; [|destruct msg; [rewrite (proj2 (Z.ltb_ge 0x37 _)) by lia|]; done].
  apply (string_run (fromBigEndian w) id); [by rewrite Hlen | done].
Qed.

Lemma parseTo_item to : in_range 160 to →
  parses parseTo (if to =? 0 then [0x80] else [0x94] ++ be_bytes 20 to) to.
Proof.
  intros Hto pre post. unfold parseTo. destruct (Z.eqb_spec to 0) as [->|Hne]; cbn [app].
  - erewrite bind_run; [|apply byte_at_run]. change (wrap 8 (0x80 - 0x80)) with 0.
    erewrite bind_run; [|done]. by erewrite bind_run; [|by apply (advance_run pre [0x80])].
  - erewrite bind_run; [|apply byte_at_run]. change (wrap 8 (0x94 - 0x80)) with 20.
    erewrite bind_run; [|done].
    pose proof (string_run Ret be_value pre 0x94 (be_bytes 20 to) post 20 _
      ltac:(by rewrite be_bytes_length) eq_refl) as Hs.
    rewrite be_value_bytes in Hs by done. exact Hs.
Qed.

Lemma parseAccessList_item : parses parseAccessList [0xc0] ().
Proof.
  intros pre post. unfold parseAccessList. erewrite bind_run; [|apply byte_at_run].
  erewrite bind_run; [|done]. by apply (advance_run pre [0xc0]).
Qed.

Lemma length_bytesRequired {A} (l : list A) :
  Z.of_nat (length l) < 2 ^ 63 → (bytesRequired (Z.of_nat (length l)) ≤ 8)%nat.
Proof. intros. apply bytesRequired_le. change (256 ^ Z.of_nat 8) with (2 ^ 64). lia. Qed.

(** Every byte string but those of 55 bytes is read back. *)
Lemma parse_data_item bounded data :
  length data ≠ 55%nat → Z.of_nat (length data) < 2 ^ 63 →
  parses (parse_data bounded) (serializeData data) data.
Proof.
  intros H55 Hmax pre post. unfold serializeData, parse_data.
  set (size := Z.of_nat (length data)) in *.
  destruct (Z.eqb_spec size 0) as [H0|Hne].
  { destruct data; [|cbn in *; lia]. erewrite bind_run; [|apply byte_at_run].
    change (0x80 <? 0x80) with false. change (0x80 <? 0xb7) with true. cbv iota.
    by erewrite bind_run; [|by apply (advance_run pre [0x80])]. }
  destruct (Z.leb_spec size 55) as [Hs|Hl].
  { rewrite byte_id by (unfold in_range; lia). cbn [app]. erewrite bind_run; [|apply byte_at_run].
    rewrite (proj2 (Z.ltb_ge _ 0x80)), (proj2 (Z.ltb_lt _ 0xb7)) by lia.
    replace (size + 0x80 - 0x80) with size by lia. rewrite (proj2 (Z.ltb_lt 0 size)) by lia.
    by apply (string_run Ret id pre (size + 0x80) data post size data). }
  pose proof (length_bytesRequired data Hmax) as Hn8. fold size in Hn8.
  pose proof (bytesRequired_pos size ltac:(lia)) as Hn1.
  destruct (uintToBytes_value 64 size) as (_ & Hv & Hlen); [unfold in_range; lia|].
  set (n := bytesRequired size) in *. set (head := uintToBytes size) in *.
  rewrite byte_id by (unfold in_range; lia). cbn [app]. erewrite bind_run; [|apply byte_at_run].
  rewrite (proj2 (Z.ltb_ge _ 0x80)), (proj2 (Z.ltb_ge _ 0xb7)), (proj2 (Z.ltb_lt _ 0xc0)) by lia.
  rewrite orb_true_r. replace (Z.of_nat n + 0xb7 - 0xb7) with (Z.of_nat n) by lia.
  set (b := Z.of_nat n + 0xb7).
  erewrite bind_run; [|by apply (advance_run pre [b])].
  replace (pre ++ b :: (head ++ data) ++ post) with ((pre ++ [b]) ++ head ++ data ++ post)
    by by rewrite <- !app_assoc.
  erewrite bind_run; [|apply view_run; lia]. erewrite bind_run; [|unfold lift; by rewrite Hv].
  erewrite bind_run; [|apply (advance_run _ head); lia].
  replace ((pre ++ [b]) ++ head ++ data ++ post) with (((pre ++ [b]) ++ head) ++ data ++ post)
    by by rewrite <- !app_assoc.
  erewrite bind_run; [|by apply view_run]. erewrite bind_run; [|by apply (advance_run _ data)].
  by rewrite <- !app_assoc.
Qed.

Lemma parse_half_item limit msg z : 32 ≤ limit → in_range 256 z →
  parses (parse_half limit msg) (serialize_half z) z.
Proof.
  intros Hlim Hz pre post. pose proof (bytesRequired_width 256 z ltac:(by right) Hz) as Hn.
  destruct (uintToBytes_value 256 z Hz) as (_ & Hv & Hlen).
  unfold serialize_half, parse_half. rewrite byte_id by (unfold in_range; lia). cbn [app].
  erewrite bind_run; [|apply byte_at_run].
  replace (Z.of_nat (bytesRequired z) + 0x80 - 0x80) with (Z.of_nat (bytesRequired z)) by lia.
  rewrite wrap_id by (unfold in_range; lia). rewrite (proj2 (Z.ltb_ge limit _)) by lia.
  erewrite bind_run; [|done]. apply (string_run (fromBigEndian 256) id); [by rewrite Hlen|done].
Qed.

(** The two numbers of a signature. *)
Lemma parse_halves {A} limit m1 m2 (g : Z → Z → A) r s :
  32 ≤ limit → in_range 256 r → in_range 256 s →
  parses (λ l, r ← parse_half limit m1 l; s ← parse_half limit m2 l; mret (g r s))
    (serialize_half r ++ serialize_half s) (g r s).
Proof.
  intros. apply (parses_bind _ (λ r l, s ← parse_half limit m2 l; mret (g r s)) _ _ r).
  { by apply parse_half_item. }
  rewrite <- (app_nil_r (serialize_half s)).
  apply (parses_bind _ (λ s _, mret (g r s)) _ _ s); [by apply parse_half_item|apply parses_ret].
Qed.

Lemma parseVRS_item v r s : 0 ≤ v ≤ 1 → in_range 256 r → in_range 256 s →
  parses parseVRS ([if v =? 0 then 0x80 else v] ++ serialize_half r ++ serialize_half s) (v, r, s).
Proof.
  intros Hv Hr Hs.
  apply (parses_bind _ (λ v l, r ← parse_half 0x20 _ l; s ← parse_half 0x20 _ l; mret (v, r, s)) _ _ v).
  2: by apply (parse_halves _ _ _ (λ r s, (v, r, s))).
  intros pre post. unfold parse_v. cbn [app]. erewrite bind_run; [|apply byte_at_run].
  set (b := if v =? 0 then 0x80 else v).
  rewrite (bind_run _ _ _ v (length pre)); [by erewrite bind_run; [|by apply (advance_run pre [b])]|].
  unfold b. destruct (decide (v = 0)) as [->|]; [done|].
  assert (v = 1) as -> by lia. change (if 1 =? 0 then 0x80 else 1) with 1.
  change (1 =? 0x80) with false. cbv iota.
  erewrite bind_run; [|by apply (view_run pre [1])]. 
  rewrite (bind_run _ _ _ 1 (length pre)); [done|]. unfold lift.
  rewrite (fromBigEndian_value 8 [1]); [done|by apply Forall_singleton|done].
Qed.

(** *** The list header *)

Lemma parse_list_header_run body :
  55 < Z.of_nat (length body) < 2 ^ 63 →
  let h := list_header (Z.of_nat (length body)) in
  parse_list_header (h ++ body) 0%nat = (Ret (), length h).
Proof.
  intros Hb. cbv zeta. unfold list_header, parse_list_header.
  set (size := Z.of_nat (length body)) in *.
  pose proof (length_bytesRequired body ltac:(lia)) as Hn8. fold size in Hn8.
  pose proof (bytesRequired_pos size ltac:(lia)) as Hn1.
  destruct (uintToBytes_value 64 size) as (_ & Hv & Hlen); [unfold in_range; lia|].
  set (n := bytesRequired size) in *. set (head := uintToBytes size) in *.
  rewrite (proj2 (Z.leb_gt size 55)), byte_id by (unfold in_range; lia). cbn [app].
  set (b := Z.of_nat n + 0xf7).
  erewrite bind_run; [|by apply (byte_at_run [])]. cbn [length].
  rewrite (proj2 (Z.ltb_ge b 0xf7)) by lia. erewrite bind_run; [|done].
  replace (b - 0xf7) with (Z.of_nat n) by lia.
  erewrite bind_run; [|by apply (advance_run [] [b])]. cbn [app length].
  erewrite bind_run; [|apply (view_run [b] head body); lia].
  erewrite bind_run; [|unfold lift; by rewrite Hv].
  erewrite bind_run; [|apply (advance_run [b] head); lia].
  rewrite length_app, (wrap_id 64) by (unfold in_range; lia).
  rewrite (proj2 (Z.eqb_eq _ _)) by lia. done.
Qed.

(** ** Sizes *)

Lemma serialize_uint_length z : 0 ≤ z → Z.of_nat (length (serialize_uint z)) = uint_item_size z.
Proof.
  intros Hz. unfold serialize_uint, uint_item_size, byte.
  destruct (Z.eqb_spec z 0) as [->|]; [done|]. destruct (z <? 0x80); [done|].
  rewrite length_app, uintToBytes_be, be_bytes_length by done. cbn [length]. lia.
Qed.

Lemma serializeData_length data : Z.of_nat (length (serializeData data)) = data_item_size data.
Proof.
  unfold serializeData, data_item_size, byte.
  destruct (_ =? 0); [done|]. destruct (_ <=? 55); [cbn; lia|].
  rewrite !length_app, uintToBytes_be, be_bytes_length by lia. cbn [length]. lia.
Qed.

Lemma serialize_half_length z : 0 ≤ z →
  Z.of_nat (length (serialize_half z)) = 1 + Z.of_nat (bytesRequired z).
Proof.
  intros Hz. unfold serialize_half, byte. rewrite length_app, uintToBytes_be, be_bytes_length by done.
  cbn [length]. lia.
Qed.

Lemma uint_item_size_bound w z : w = 64 ∨ w = 256 → in_range w z → 1 ≤ uint_item_size z ≤ 33.
Proof.
  intros Hw Hz. pose proof (bytesRequired_width w z Hw Hz). unfold uint_item_size.
  destruct (z <? 0x80); lia.
Qed.

Lemma data_item_size_bound data : Z.of_nat (length data) < 2 ^ 62 →
  1 ≤ data_item_size data ≤ 9 + Z.of_nat (length data).
Proof.
  intros Hd. pose proof (length_bytesRequired data ltac:(lia)). unfold data_item_size.
  destruct (Z.eqb_spec (Z.of_nat (length data)) 0); [lia|].
  destruct (_ <=? 55); lia.
Qed.

(** Transactions whose fields fit their types ([nonce_] and [gasLimit_] are
    256-bit fields that the parser reads with 64 bits). *)
Record tx_wf (tx : TxBlock) : Prop := {
  wf_to : in_range 160 (tx_to tx);
  wf_chainId : in_range 64 (tx_chainId tx);
  wf_nonce : in_range 64 (tx_nonce tx);
  wf_prio : in_range 256 (tx_maxPriorityFeePerGas tx);
  wf_fee : in_range 256 (tx_maxFeePerGas tx);
  wf_gas : in_range 64 (tx_gasLimit tx);
  wf_value : in_range 256 (tx_value tx);
  wf_v : 0 ≤ tx_v tx ≤ 1;
  wf_r : in_range 256 (tx_r tx);
  wf_s : in_range 256 (tx_s tx);
  wf_data : Z.of_nat (length (tx_data tx)) < 2 ^ 62;
}.

(** The items behind the list header. *)
Definition tx_items (includeSig : bool) (tx : TxBlock) : list Z :=
  serializeChainId tx ++ serializeNonce tx ++ serializeMaxPriorityFeePerGas tx ++
  serializeMaxFeePerGas tx ++ serializeGasLimit tx ++ serializeTo tx ++ serializeValue tx ++
  serializeData (tx_data tx) ++ [0xc0] ++ (if includeSig then serializeVRS tx else []).

Lemma rlpSerialize_items includeSig tx : TxBlock_rlpSerialize includeSig tx =
  0x02 :: list_header (tx_total_size includeSig tx) ++ tx_items includeSig tx.
Proof. done. Qed.

Lemma tx_items_length includeSig tx : tx_wf tx →
  Z.of_nat (length (tx_items includeSig tx)) = tx_total_size includeSig tx ∧
  tx_total_size includeSig tx < 2 ^ 63.
Proof.
  intros [Hto Hc Hn Hp Hf Hg Hv Hrec Hr Hs Hd]. unfold tx_items, tx_total_size.
  pose proof (uint_item_size_bound 64 _ ltac:(by left) Hc).
  pose proof (uint_item_size_bound 64 _ ltac:(by left) Hn).
  pose proof (uint_item_size_bound 64 _ ltac:(by left) Hg).
  pose proof (uint_item_size_bound 256 _ ltac:(by right) Hp).
  pose proof (uint_item_size_bound 256 _ ltac:(by right) Hf).
  pose proof (uint_item_size_bound 256 _ ltac:(by right) Hv).
  pose proof (bytesRequired_width 256 _ ltac:(by right) Hr).
  pose proof (bytesRequired_width 256 _ ltac:(by right) Hs).
  pose proof (data_item_size_bound _ Hd).
  unfold in_range in *. rewrite !length_app, !Nat2Z.inj_add.
  unfold serializeChainId, serializeNonce, serializeMaxPriorityFeePerGas, serializeMaxFeePerGas,
    serializeGasLimit, serializeValue, serializeTo, serializeVRS.
  rewrite !serialize_uint_length, serializeData_length by lia.
  assert (Hto' : Z.of_nat (length (if tx_to tx =? 0 then [0x80] else [0x94] ++ be_bytes 20 (tx_to tx)))
    = if tx_to tx =? 0 then 1 else 1 + 20).
  { destruct (_ =? 0); [done|]. by rewrite length_app, be_bytes_length. }
  rewrite Hto'. clear Hto'.
  assert (1 ≤ (if tx_to tx =? 0 then 1 else 1 + 20) ≤ 21) by (destruct (_ =? 0); lia).
  set (t := if tx_to tx =? 0 then 1 else 1 + 20) in *.
  destruct includeSig; [rewrite !length_app, !Nat2Z.inj_add, !serialize_half_length by lia|];
    cbn [length]; rewrite wrap_id by (unfold in_range; lia); lia.
Qed.

(** ** Round trips *)

(** The fields the parser sets before the sender and the hash are computed. *)
Definition unsealed (tx : TxBlock) : TxBlock :=
  mkTxBlock (tx_to tx) 0 (tx_data tx) (tx_chainId tx) (tx_nonce tx) (tx_value tx)
    (tx_maxPriorityFeePerGas tx) (tx_maxFeePerGas tx) (tx_gasLimit tx) (tx_v tx) (tx_r tx) (tx_s tx) 0.

Lemma TxBlock_fields_item tx : tx_wf tx → length (tx_data tx) ≠ 55%nat →
  parses TxBlock_fields (tx_items true tx) (unsealed tx).
Proof.
  intros [Hto Hc Hn Hp Hf Hg Hv Hrec Hr Hs Hd] H55. unfold TxBlock_fields, tx_items.
  eapply parses_bind; [apply (parse_uint_item 64); [by left|exact Hc]|].
  eapply parses_bind; [apply (parse_uint_item 64); [by left|exact Hn]|].
  eapply parses_bind; [apply (parse_uint_item 256); [by right|exact Hp]|].
  eapply parses_bind; [apply (parse_uint_item 256); [by right|exact Hf]|].
  eapply parses_bind; [apply (parse_uint_item 64); [by left|exact Hg]|].
  eapply parses_bind; [apply (parseTo_item _ Hto)|].
  eapply parses_bind; [apply (parse_uint_item 256); [by right|exact Hv]|].
  eapply parses_bind; [apply parse_data_item; [done|lia]|].
  eapply parses_bind; [apply parseAccessList_item|].
  rewrite <- (app_nil_r (serializeVRS tx)).
  eapply parses_bind; [by apply parseVRS_item|]. apply parses_ret.
Qed.

Lemma TxBlock_parse_items tx : tx_wf tx → length (tx_data tx) ≠ 55%nat →
  55 < TxBlock_rlpSize tx →
  (TxBlock_parse (list_header (tx_total_size true tx) ++ tx_items true tx) 0%nat).1 =
    Ret (unsealed tx).
Proof.
  intros Hwf H55 Hsize. destruct (tx_items_length true tx Hwf) as [Hlen Hmax].
  unfold TxBlock_rlpSize in Hsize. rewrite <- Hlen in *. unfold TxBlock_parse.
  erewrite bind_run; [|apply parse_list_header_run; lia].
  pose proof (TxBlock_fields_item tx Hwf H55
    (list_header (Z.of_nat (length (tx_items true tx)))) []) as Hp.
  rewrite app_nil_r in Hp. by rewrite Hp.
Qed.

(** *** A string of 55 bytes

    [serializeData] gives it the header 0xb7, which [parseData] takes for a long
    string with a length of no bytes. *)

(** [fails p item e]: [p], started at [item], throws [e]. *)
Definition fails {A} (p : list Z → M nat A) (item : list Z) (e : exn) : Prop :=
  ∀ pre post, (p (pre ++ item ++ post) (length pre)).1 = Throw e.

Lemma fails_bind {A B} (p : list Z → M nat A) (k : A → list Z → M nat B) i1 i2 a e :
  parses p i1 a → fails (k a) i2 e → fails (λ l, a ← p l; k a l) (i1 ++ i2) e.
Proof.
  intros Hp Hk pre post. rewrite <- (app_assoc i1). erewrite bind_run; [|apply Hp].
  specialize (Hk (pre ++ i1) post). by rewrite <- !app_assoc in Hk.
Qed.

Lemma parse_data_b7 bounded : parses (parse_data bounded) [0xb7] [].
Proof.
  intros pre post. unfold parse_data. cbn [app]. erewrite bind_run; [|apply byte_at_run].
  change (0xb7 <? 0x80) with false. change (0xb7 <? 0xb7) with false.
  change (0xb7 <? 0xc0) with true. rewrite orb_true_r. cbv iota. change (0xb7 - 0xb7) with 0.
  erewrite bind_run; [|by apply (advance_run pre [0xb7])].
  replace (pre ++ 0xb7 :: post) with ((pre ++ [0xb7]) ++ [] ++ post) by by rewrite <- app_assoc.
  erewrite bind_run; [|by apply (view_run _ [])]. erewrite bind_run; [|done].
  erewrite bind_run; [|by apply (advance_run (pre ++ [0xb7]) [])]. rewrite app_nil_r.
  erewrite bind_run; [|by apply (view_run _ [])].
  erewrite bind_run; [|by apply (advance_run (pre ++ [0xb7]) [])]. by rewrite app_nil_r.
Qed.

Lemma parseAccessList_fails {A} (k : unit → list Z → M nat A) b l : b ≠ 0xc0 →
  fails (λ l, u ← parseAccessList l; k u l) (b :: l) (DynamicException "Access list is not empty").
Proof.
  intros Hb pre post. unfold parseAccessList. unfold mbind, M_bind. cbn [app].
  rewrite byte_at_run. by rewrite (proj2 (Z.eqb_neq _ _) Hb).
Qed.

Lemma TxBlock_fields_fail tx b rest : tx_wf tx → tx_data tx = b :: rest →
  length (tx_data tx) = 55%nat → b ≠ 0xc0 →
  fails TxBlock_fields (tx_items true tx) (DynamicException "Access list is not empty").
Proof.
  intros [Hto Hc Hn Hp Hf Hg Hv Hrec Hr Hs Hd] Hdata H55 Hb. unfold TxBlock_fields, tx_items.
  eapply fails_bind; [apply (parse_uint_item 64); [by left|exact Hc]|].
  eapply fails_bind; [apply (parse_uint_item 64); [by left|exact Hn]|].
  eapply fails_bind; [apply (parse_uint_item 256); [by right|exact Hp]|].
  eapply fails_bind; [apply (parse_uint_item 256); [by right|exact Hf]|].
  eapply fails_bind; [apply (parse_uint_item 64); [by left|exact Hg]|].
  eapply fails_bind; [apply (parseTo_item _ Hto)|].
  eapply fails_bind; [apply (parse_uint_item 256); [by right|exact Hv]|].
  assert (Hsd : serializeData (tx_data tx) = [0xb7] ++ tx_data tx).
  { unfold serializeData. by rewrite H55. }
  rewrite Hsd, <- app_assoc. eapply fails_bind; [apply parse_data_b7|].
  rewrite Hdata. by apply parseAccessList_fails.
Qed.

(** A signature is its three parts. *)
Lemma makeSig_parts sig : length sig = 65%nat → Forall is_byte sig →
  makeSig (be_value (subspan 0 32 sig)) (be_value (subspan 32 32 sig)) (nth 64 sig 0) = sig.
Proof.
  intros Hl Hb. unfold makeSig, subspan. rewrite drop_0.
  assert (Hd : length (take 32 (drop 32 sig)) = 32%nat) by (rewrite length_take, length_drop; lia).
  assert (Ht : length (take 32 sig) = 32%nat) by (rewrite length_take; lia).
  pose proof (be_bytes_value (take 32 (drop 32 sig)) ltac:(by apply Forall_take, Forall_drop)) as E2.
  pose proof (be_bytes_value (take 32 sig) ltac:(by apply Forall_take)) as E1.
  rewrite Hd in E2. rewrite Ht in E1. rewrite E1, E2.
  assert (He : [nth 64 sig 0] = drop 32 (drop 32 sig)).
  { rewrite drop_drop. change (32 + 32)%nat with 64%nat.
    destruct (nth_lookup_or_length sig 64 0) as [E|]; [|lia].
    rewrite (drop_S sig _ 64 E). by rewrite (drop_ge sig 65) by lia. }
  by rewrite He, take_drop, take_drop.
Qed.

Lemma verifySig_ranges r s v : verifySig r s v = true →
  v ≤ 1 ∧ 0 < r < 2 ^ 256 ∧ 0 < s < 2 ^ 256.
Proof. unfold verifySig, ecConst. rewrite !andb_true_iff, !Z.leb_le, !Z.ltb_lt. lia. Qed.

Lemma nth_byte l n : Forall is_byte l → 0 ≤ nth n l 0 < 256.
Proof.
  intros Hl. destruct (nth_lookup_or_length l n 0) as [E|E].
  - by apply (proj1 (Forall_lookup _ l) Hl) in E.
  - rewrite nth_overflow by done. lia.
Qed.

(** What a signed transaction satisfies. *)
Lemma TxBlock_make_spec to from data chainId nonce value prio fee gas key tx :
  TxBlock_make to from data chainId nonce value prio fee gas key = Ret tx →
  verifySig (tx_r tx) (tx_s tx) (tx_v tx) = true ∧ 0 ≤ tx_v tx ∧
  recover (makeSig (tx_r tx) (tx_s tx) (tx_v tx)) (keccak256 (TxBlock_rlpSerialize false tx)) =
    toUPub key ∧
  toAddress (toUPub key) = from ∧ tx_hash tx = keccak256 (TxBlock_rlpSerialize true tx) ∧
  tx = mkTxBlock to from data chainId nonce value prio fee gas (tx_v tx) (tx_r tx) (tx_s tx) (tx_hash tx).
Proof.
  unfold TxBlock_make. intros H.
  set (h := keccak256 _) in H. set (sig := sign h key) in *.
  destruct (Z.eqb_spec (toAddress (toUPub key)) from) as [Ha|]; [cbn [negb] in H|done].
  destruct (Z.eqb_spec (toUPub key) (recover sig h)) as [Hr|]; [cbn [negb] in H|done].
  destruct (verifySig _ _ _) eqn:Hv in H; [cbn [negb] in H|done].
  injection H as <-. cbn [tx_v tx_r tx_s tx_hash].
  split_and!; [done| |by rewrite makeSig_parts by (apply sign_length || apply sign_bytes)|done..].
  apply nth_byte, sign_bytes.
Qed.

(** A transaction with a signature of its sender and its own hash: what both
    constructors make. *)
Record tx_signed (tx : TxBlock) : Prop := {
  ts_wf : tx_wf tx;
  ts_verified : verifySig (tx_r tx) (tx_s tx) (tx_v tx) = true;
  ts_key : recover (makeSig (tx_r tx) (tx_s tx) (tx_v tx)) (keccak256 (TxBlock_rlpSerialize false tx)) ≠ 0;
  ts_from : toAddress (recover (makeSig (tx_r tx) (tx_s tx) (tx_v tx)) (keccak256 (TxBlock_rlpSerialize false tx))) = tx_from tx;
  ts_hash : tx_hash tx = keccak256 (TxBlock_rlpSerialize true tx);
}.

Lemma TxBlock_made_signed to from data chainId nonce value prio fee gas key tx :
  in_range 160 to → in_range 64 chainId → in_range 64 nonce → in_range 256 value →
  in_range 256 prio → in_range 256 fee → in_range 64 gas → Z.of_nat (length data) < 2 ^ 62 → toUPub key ≠ 0 →
  TxBlock_make to from data chainId nonce value prio fee gas key = Ret tx → tx_signed tx ∧ tx_data tx = data.
Proof.
  intros Hto Hc Hn Hv Hp Hf Hg Hd Hkey Hmake.
  destruct (TxBlock_make_spec _ _ _ _ _ _ _ _ _ _ _ Hmake) as (Hver & Hv0 & Hrec & Ha & Hh & Htx).
  pose proof (verifySig_ranges _ _ _ Hver) as (Hv1 & Hr & Hs).
  split; [|by rewrite Htx]. split; [rewrite Htx; split; cbn; unfold in_range in *; lia || done|done| | |done].
  - by rewrite Hrec.
  - rewrite Hrec, Ha, Htx. done.
Qed.

(** It is read back. *)
Lemma TxBlock_signed_reads tx : tx_signed tx → length (tx_data tx) ≠ 55%nat → 55 < TxBlock_rlpSize tx →
  TxBlock_fromBytes (TxBlock_rlpSerialize true tx) = Ret tx.
Proof.
  intros [Hwf Hver Hkey Hfrom Hh] H55 Hsize.
  rewrite rlpSerialize_items. unfold TxBlock_fromBytes. rewrite Z.eqb_refl. cbn [negb].
  rewrite TxBlock_parse_items by done.
  unfold mbind, outcome_bind, TxBlock_seal. cbn [unsealed tx_r tx_s tx_v]. rewrite Hver. cbn [negb].
  change (TxBlock_rlpSerialize false (unsealed tx)) with (TxBlock_rlpSerialize false tx).
  change (TxBlock_rlpSerialize true (unsealed tx)) with (TxBlock_rlpSerialize true tx).
  rewrite (proj2 (Z.eqb_neq _ 0) Hkey), <- Hh, Hfrom. by destruct tx.
Qed.
End parse.

(** ** The properties of transactions *)

(** C12: a transaction signed by the node is read back from its own RLP bytes
    exactly: every field, the sender recovered from the signature and the hash.
    The nonce and the gas limit are below 2^64 (the parser takes no more, the
    creator does), the other fields in the ranges of their types, the data is not
    55 bytes long and shorter than 2^62, and the items take more than 55 bytes. *)
Theorem TxBlock_roundtrip {BI : BoostInt} {EC : Secp256k1} (to from : Address) (data : list Z)
    (chainId nonce value prio fee gas key : Z) (tx : TxBlock) :
  in_range 160 to → in_range 64 chainId → in_range 64 nonce → in_range 256 value →
  in_range 256 prio → in_range 256 fee → in_range 64 gas →
  Z.of_nat (length data) < 2 ^ 62 → length data ≠ 55%nat → toUPub key ≠ 0 →
  TxBlock_make to from data chainId nonce value prio fee gas key = Ret tx →
  55 < TxBlock_rlpSize tx →
  TxBlock_fromBytes (TxBlock_rlpSerialize true tx) = Ret tx.
Proof.
  intros Hto Hc Hn Hv Hp Hf Hg Hd H55 Hkey Hmake Hsize.
  destruct (TxBlock_made_signed _ _ _ _ _ _ _ _ _ _ _ Hto Hc Hn Hv Hp Hf Hg Hd Hkey Hmake) as [Hs Hdata].
  apply TxBlock_signed_reads; [done|by rewrite Hdata|done].
Qed.

(** A transaction whose data is exactly 55 bytes long is serialized to bytes
    that the node itself refuses to read: [parseData] treats the header 0xb7 as a
    long string of length zero, and the first data byte is then taken for the
    access list. *)
Theorem TxBlock_55_bytes_refused {BI : BoostInt} {EC : Secp256k1} (tx : TxBlock) (b : Z) (rest : list Z) :
  tx_wf tx → tx_data tx = b :: rest → length (tx_data tx) = 55%nat → b ≠ 0xc0 →
  TxBlock_fromBytes (TxBlock_rlpSerialize true tx) = Throw (DynamicException "Access list is not empty").
Proof.
  intros Hwf Hdata H55 Hb. destruct (tx_items_length true tx Hwf) as [Hlen Hmax].
  rewrite rlpSerialize_items. unfold TxBlock_fromBytes. rewrite Z.eqb_refl. cbn [negb].
  rewrite <- Hlen in *. unfold TxBlock_parse.
  erewrite (bind_run (parse_list_header _)); [|apply parse_list_header_run].
  - pose proof (TxBlock_fields_fail tx b rest Hwf Hdata H55 Hb
      (list_header (Z.of_nat (length (tx_items true tx)))) []) as Hp.
    rewrite app_nil_r in Hp. cbv beta. by rewrite Hp.
  - split; [|done]. unfold tx_items. rewrite !length_app.
    assert (length (serializeData (tx_data tx)) = 56%nat)
      by (unfold serializeData; rewrite H55; by change (S (length (tx_data tx)) = 56%nat); rewrite H55).
    lia.
Qed.

(** ** Validator transactions *)

Section validator.
Context {BI : BoostInt} {EC : Secp256k1}.

Record tv_wf (tx : TxValidator) : Prop := {
  tvwf_nHeight : in_range 64 (tv_nHeight tx);
  tvwf_v : 36 < tv_v tx < 2 ^ 256;
  tvwf_r : in_range 256 (tv_r tx);
  tvwf_s : in_range 256 (tv_s tx);
  tvwf_data : Z.of_nat (length (tv_data tx)) < 2 ^ 62;
}.

Definition tv_items (tx : TxValidator) : list Z :=
  TxValidator_serializeData tx ++ serializeNHeight tx ++ TxValidator_serializeVRS tx.

(** A [v_] other than zero has the form of the other numbers. *)
Lemma serialize_v_uint z : z ≠ 0 → serialize_v z = serialize_uint z.
Proof. intros Hz. unfold serialize_v, serialize_uint. by rewrite (proj2 (Z.eqb_neq z 0) Hz). Qed.

Lemma tv_items_length tx : tv_wf tx →
  Z.of_nat (length (tv_items tx)) = TxValidator_rlpSize tx ∧ TxValidator_rlpSize tx < 2 ^ 63.
Proof.
  intros [Hh Hv Hr Hs Hd]. unfold tv_items, TxValidator_rlpSize, tv_total_size.
  assert (Hv256 : in_range 256 (tv_v tx)) by (unfold in_range; lia).
  pose proof (uint_item_size_bound 64 _ ltac:(by left) Hh).
  pose proof (uint_item_size_bound 256 _ ltac:(by right) Hv256).
  pose proof (bytesRequired_width 256 _ ltac:(by right) Hr).
  pose proof (bytesRequired_width 256 _ ltac:(by right) Hs).
  pose proof (data_item_size_bound _ Hd). unfold in_range in *.
  unfold TxValidator_serializeData, serializeNHeight, TxValidator_serializeVRS.
  rewrite serialize_v_uint by lia.
  rewrite !length_app, !Nat2Z.inj_add, !serialize_uint_length, !serialize_half_length,
    serializeData_length by lia.
  rewrite wrap_id by (unfold in_range; lia). lia.
Qed.

Lemma TxValidator_parse_items tx : tv_wf tx → length (tv_data tx) ≠ 55%nat →
  55 < TxValidator_rlpSize tx →
  (TxValidator_parse (TxValidator_rlpSerialize true tx) 0%nat).1 =
    Ret (tv_data tx, tv_nHeight tx, (tv_v tx, tv_r tx, tv_s tx)).
Proof.
  intros Hwf H55 Hsize. destruct (tv_items_length tx Hwf) as [Hlen Hmax].
  unfold TxValidator_rlpSerialize. fold (tv_items tx). unfold TxValidator_rlpSize in *.
  rewrite <- Hlen in *. unfold TxValidator_parse.
  erewrite bind_run; [|apply parse_list_header_run; lia].
  assert (Hp : parses (λ l, data ← TxValidator_parseData l; nHeight ← parseNHeight l;
      vrs ← TxValidator_parseVRS l; mret (data, nHeight, vrs)) (tv_items tx)
    (tv_data tx, tv_nHeight tx, (tv_v tx, tv_r tx, tv_s tx))).
  { destruct Hwf as [Hh Hv Hr Hs Hd]. unfold tv_items.
    eapply parses_bind; [apply parse_data_item; [done|lia]|].
    eapply parses_bind; [apply (parse_uint_item 64); [by left|exact Hh]|].
    rewrite <- (app_nil_r (TxValidator_serializeVRS tx)).
    eapply parses_bind; [|apply parses_ret].
    unfold TxValidator_parseVRS, TxValidator_serializeVRS. rewrite serialize_v_uint by lia.
    eapply parses_bind; [apply (parse_uint_item 256); [by right|unfold in_range; lia]|].
    by apply (parse_halves _ _ _ (λ r s, (tv_v tx, r, s))). }
  specialize (Hp (list_header (Z.of_nat (length (tv_items tx)))) []).
  rewrite app_nil_r in Hp. cbv beta in *. by rewrite Hp.
Qed.

(** What a signed validator transaction satisfies. *)
Lemma TxValidator_make_spec from data chainId nHeight key tx :
  0 ≤ chainId → chainId * 2 + 36 < 2 ^ 64 →
  TxValidator_make from data chainId nHeight key = Ret tx →
  let rec := tv_v tx - (chainId * 2 + 35) in
  verifySig (tv_r tx) (tv_s tx) rec = true ∧ 0 ≤ rec ∧
  recover (makeSig (tv_r tx) (tv_s tx) rec) (keccak256 (TxValidator_rlpSerialize false tx)) =
    toUPub key ∧
  toAddress (toUPub key) = from ∧ tv_hash tx = keccak256 (TxValidator_rlpSerialize true tx) ∧
  tx = mkTxValidator from data chainId nHeight (tv_v tx) (tv_r tx) (tv_s tx) (tv_hash tx).
Proof.
  intros Hc0 Hc. unfold TxValidator_make. intros H.
  set (h := keccak256 _) in H. set (sig := sign h key) in *.
  destruct (Z.eqb_spec (toAddress (toUPub key)) from) as [Ha|]; [cbn [negb] in H|done].
  destruct (verifySig _ _ _) eqn:Hv in H; [cbn [negb] in H|done].
  destruct (Z.eqb_spec (toUPub key) (recover sig h)) as [Hr|]; [cbn [negb] in H|done].
  pose proof (nth_byte sig 64 (sign_bytes _ _)) as Hb.
  pose proof (verifySig_ranges _ _ _ Hv) as [Hv1 _].
  injection H as <-. cbn [tv_v tv_r tv_s tv_hash]. rewrite wrap_id by (unfold in_range; lia).
  replace (nth 64 sig 0 + (chainId * 2 + 35) - (chainId * 2 + 35)) with (nth 64 sig 0) by lia.
  cbv zeta. split_and!; [done|lia|by rewrite makeSig_parts by (apply sign_length || apply sign_bytes)|done..].
Qed.

(** A validator transaction with a signature of its sender and its own hash; the
    recovery id is in [v_]. *)
Record tv_signed (tx : TxValidator) : Prop := {
  tvs_wf : tv_wf tx;
  tvs_chain : 0 < tv_chainId tx ∧ tv_chainId tx * 2 + 36 < 2 ^ 64;
  tvs_verified : verifySig (tv_r tx) (tv_s tx) (tv_v tx - (tv_chainId tx * 2 + 35)) = true;
  tvs_rec : 0 ≤ tv_v tx - (tv_chainId tx * 2 + 35);
  tvs_key : recover (makeSig (tv_r tx) (tv_s tx) (tv_v tx - (tv_chainId tx * 2 + 35))) (keccak256 (TxValidator_rlpSerialize false tx)) ≠ 0;
  tvs_from : toAddress (recover (makeSig (tv_r tx) (tv_s tx) (tv_v tx - (tv_chainId tx * 2 + 35))) (keccak256 (TxValidator_rlpSerialize false tx))) = tv_from tx;
  tvs_hash : tv_hash tx = keccak256 (TxValidator_rlpSerialize true tx);
}.

Lemma TxValidator_made_signed from data chainId nHeight key tx :
  0 < chainId → chainId * 2 + 36 < 2 ^ 64 → in_range 64 nHeight →
  Z.of_nat (length data) < 2 ^ 62 → toUPub key ≠ 0 →
  TxValidator_make from data chainId nHeight key = Ret tx → tv_signed tx ∧ tv_data tx = data.
Proof.
  intros Hc0 Hc Hh Hd Hkey Hmake.
  destruct (TxValidator_make_spec _ _ _ _ _ _ (Z.lt_le_incl _ _ Hc0) Hc Hmake)
    as (Hver & Hr0 & Hrec & Ha & Hhash & Htx).
  pose proof (verifySig_ranges _ _ _ Hver) as (Hv1 & Hr & Hs).
  assert (Hch : tv_chainId tx = chainId) by by rewrite Htx.
  split; [|by rewrite Htx].
  split; rewrite ?Hch; try done; [rewrite Htx; split; cbn; unfold in_range in *; lia || done|by rewrite Hrec|].
  rewrite Hrec, Ha, Htx. done.
Qed.

Lemma TxValidator_signed_reads tx : tv_signed tx → length (tv_data tx) ≠ 55%nat → 55 < TxValidator_rlpSize tx →
  TxValidator_fromBytes (TxValidator_rlpSerialize true tx) = Ret tx.
Proof.
  intros [Hwf [Hc0 Hc] Hver Hr0 Hkey Hfrom Hhash] H55 Hsize.
  pose proof (verifySig_ranges _ _ _ Hver) as (Hv1 & Hr & Hs).
  unfold TxValidator_fromBytes. rewrite TxValidator_parse_items by done.
  unfold mbind, outcome_bind, TxValidator_seal, validator_chainId.
  rewrite (proj2 (Z.ltb_lt 36 _)) by apply Hwf.
  assert (Hq : (tv_v tx - 35) / 2 = tv_chainId tx)
    by (symmetry; apply (Z.div_unique _ 2 _ (tv_v tx - (tv_chainId tx * 2 + 35))); lia).
  rewrite Hq, to_uint64_fits by (unfold in_range; lia). unfold mbind, outcome_bind.
  unfold usub. rewrite mk_unsigned_fits, to_uint8_fits by (unfold in_range; lia).
  unfold mbind, outcome_bind. rewrite Hver. cbn [negb].
  set (tx0 := mkTxValidator 0 _ _ _ _ _ _ 0).
  assert (Hser : ∀ b, TxValidator_rlpSerialize b tx0 = TxValidator_rlpSerialize b tx) by done.
  rewrite !Hser, (proj2 (Z.eqb_neq _ 0) Hkey), <- Hhash, Hfrom. by destruct tx.
Qed.
End validator.

(** A validator transaction signed by the node is read back from its RLP
    bytes exactly: data, height, chain id and recovery id (from [v_]), signature,
    sender and hash. *)
Theorem TxValidator_roundtrip {BI : BoostInt} {EC : Secp256k1} (from : Address) (data : list Z)
    (chainId nHeight key : Z) (tx : TxValidator) :
  0 < chainId → chainId * 2 + 36 < 2 ^ 64 → in_range 64 nHeight →
  Z.of_nat (length data) < 2 ^ 62 → length data ≠ 55%nat → toUPub key ≠ 0 →
  TxValidator_make from data chainId nHeight key = Ret tx →
  55 < TxValidator_rlpSize tx →
  TxValidator_fromBytes (TxValidator_rlpSerialize true tx) = Ret tx.
Proof.
  intros Hc0 Hc Hh Hd H55 Hkey Hmake Hsize.
  destruct (TxValidator_made_signed _ _ _ _ _ _ Hc0 Hc Hh Hd Hkey Hmake) as [Hs Hdata].
  apply TxValidator_signed_reads; [done|by rewrite Hdata|done].
Qed.

(** [rlpSize] is the size of the list items only: the serialized bytes are
    longer by the type byte and the list header, by two to ten bytes, although
    [rlpSize] is documented as the size of the serialized transaction. *)
Theorem TxBlock_rlpSize_misses_header (tx : TxBlock) :
  tx_wf tx →
  Z.of_nat (length (TxBlock_rlpSerialize true tx)) =
    1 + Z.of_nat (length (list_header (TxBlock_rlpSize tx))) + TxBlock_rlpSize tx ∧
  2 ≤ 1 + Z.of_nat (length (list_header (TxBlock_rlpSize tx))) ≤ 10.
Proof.
  intros Hwf. destruct (tx_items_length true tx Hwf) as [Hlen Hmax].
  rewrite rlpSerialize_items. cbn [length]. rewrite length_app. unfold TxBlock_rlpSize.
  split; [lia|]. unfold list_header, byte. destruct (_ <=? 55); [cbn; lia|].
  rewrite length_app, uintToBytes_be, be_bytes_length by lia. cbn [length].
  pose proof (length_bytesRequired (tx_items true tx)) as Hb. rewrite Hlen in Hb. lia.
Qed.

(** ** A concrete instance *)

(** A toy signature scheme: one key, the same signature for every message. *)
#[refine] Definition demo_ec : Secp256k1 := {|
  keccak256 l := be_value l mod 2 ^ 256;
  recover _ _ := 7;
  toUPub _ := 7;
  toAddress k := k;
  sign _ _ := be_bytes 32 (2 ^ 250) ++ be_bytes 32 (2 ^ 250 + 1) ++ [1]
|}.
Proof.
  - intros l. apply Z.mod_pos_bound. lia.
  - intros. by vm_compute.
  - intros. apply Forall_app. split; [apply be_bytes_is_byte|].
    apply Forall_app. split; [apply be_bytes_is_byte|]. by apply Forall_singleton.
Defined.

Lemma TxBlock_roundtrip_witness :
  ∃ tx, TxBlock_make (EC := demo_ec) 5 7 [1; 2; 3] 8080 300 1000 1 (10 ^ 9) 21000 99 = Ret tx ∧
    TxBlock_fromBytes (BI := boost_ref) (EC := demo_ec) (TxBlock_rlpSerialize true tx) = Ret tx.
Proof.
  eexists. split; [vm_compute; reflexivity|].
  apply (TxBlock_roundtrip (BI := boost_ref) (EC := demo_ec) 5 7 [1; 2; 3] 8080 300 1000 1 (10 ^ 9) 21000 99);
    first [done | vm_compute; reflexivity | vm_compute; split; congruence].
Defined.

Lemma TxBlock_55_bytes_refused_witness :
  TxBlock_fromBytes (BI := boost_ref) (EC := demo_ec) (TxBlock_rlpSerialize true
    (mkTxBlock 5 7 (repeat 1 55) 8080 0 0 0 0 21000 1 3 4 0)) =
  Throw (DynamicException "Access list is not empty").
Proof.
  apply (TxBlock_55_bytes_refused (BI := boost_ref) (EC := demo_ec) _ 1 (repeat 1 54)); [|done..].
  split; vm_compute; split; congruence.
Defined.

Lemma TxValidator_roundtrip_witness :
  ∃ tx, TxValidator_make (EC := demo_ec) 7 (repeat 1 36) 8080 12 99 = Ret tx ∧
    TxValidator_fromBytes (BI := boost_ref) (EC := demo_ec) (TxValidator_rlpSerialize true tx) = Ret tx.
Proof.
  eexists. split; [vm_compute; reflexivity|].
  apply (TxValidator_roundtrip (BI := boost_ref) (EC := demo_ec) 7 (repeat 1 36) 8080 12 99);
    first [done | vm_compute; reflexivity | vm_compute; split; congruence].
Defined.

Lemma TxBlock_rlpSize_misses_header_witness :
  let tx := mkTxBlock 5 7 (repeat 1 55) 8080 0 0 0 0 21000 1 3 4 0 in
  TxBlock_rlpSize tx = 93 ∧ Z.of_nat (length (TxBlock_rlpSerialize true tx)) = 1 + 2 + 93.
Proof.
  intros tx. split; [vm_compute; reflexivity|].
  apply (TxBlock_rlpSize_misses_header tx). split; vm_compute; split; congruence.
Defined.
