(* ===== verification/Precompiles.v ===== *)
(** * The precompiled contracts

    Models src/contract/precompiles/modexp.cpp, ecrecover.cpp, sha256.cpp and the
    wrapper of ripemd160.cpp, and puts them together with [Blake2] and [Ripemd160]
    as the parameter [precompile] of the message model.  SHA-256 (OpenSSL) is a
    parameter, the elliptic curve is the class [Secp256k1].  Boost's unbounded
    integers are [Z]; a division by zero throws. *)

From S2P Require Import Prelude CheckedInt Bytes Conv Abi Tx Blake2 Ripemd160.

Section precompiles.
Context {BI : BoostInt} {BB : BoostBits} {AC : AbiCasts} {EC : Secp256k1}.
Variable SHA256 : list Z → list Z.

(** ** modexp *)

(** [bitLength]: the loop shifts until nothing is left. *)
Fixpoint bits (p : positive) : Z := match p with xH => 1 | xO p | xI p => 1 + bits p end.
Definition bitLength (value : Z) : Z := match value with Zpos p => bits p | _ => 0 end.

Definition multiplicationComplexity (bSize mSize : Z) : Z :=
  let maxSize := Z.max bSize mSize in
  let words := maxSize / 8 + (if maxSize mod 8 =? 0 then 0 else 1) in
  wrap 32 (words * words).
Definition iterationCount (eSize exp : Z) : Z :=
  let count :=
    if (eSize <=? 32) && (exp =? 0) then 0
    else if eSize <=? 32 then bitLength exp - 1
    else wrap 32 (8 * (eSize - 32) + (bitLength (Z.land exp (2 ^ 256 - 1)) - 1)) in
  Z.max count 1.
Definition gasRequired (bSize mSize eSize exp : Z) : Z :=
  Z.max 200 (wrap 64 (multiplicationComplexity bSize mSize * iterationCount eSize exp) / 3).

Definition decodeSizes (input : list Z) : outcome (Z * Z * Z) :=
  vs ← decodeData [TUint 256; TUint 256; TUint 256] input 0 ;
  match vs with
  | [VNum baseSize; VNum expSize; VNum modSize] =>
      s ← uadd 256 (32 * 3) baseSize ; s ← uadd 256 s expSize ; expectedSize ← uadd 256 s modSize ;
      let size := Z.of_nat (length input) in
      if size <? expectedSize then Throw (invalid_argument "not enough bytes given")
      else if expectedSize <? size then Throw (invalid_argument "too much bytes given")
      else if 2 ^ 16 - 1 <? baseSize then Throw (invalid_argument "base size is too big")
      else if 2 ^ 16 - 1 <? expSize then Throw (invalid_argument "exp size is too big")
      else if 2 ^ 16 - 1 <? modSize then Throw (invalid_argument "mod size is too big")
      else Ret (baseSize, expSize, modSize)
  | _ => Throw undefined_behaviour
  end.

(** [while (exp > 0)], on the bits of [exp] from the lowest. *)
Fixpoint power_loop (exp : positive) (base mod_ result : Z) : Z :=
  match exp with
  | xH => (result * base) mod mod_
  | xO exp => power_loop exp ((base * base) mod mod_) mod_ result
  | xI exp => power_loop exp ((base * base) mod mod_) mod_ ((result * base) mod mod_)
  end.
Definition power (base exp mod_ : Z) : Z :=
  match exp with Zpos p => power_loop p base mod_ 1 | _ => 1 end.

(** [export_bits(result, output.begin(), 8)]: the bytes of the number over the
    first bytes of the output; more bytes than the output has are written
    outside. *)
Definition write_front (bytes output : list Z) : outcome (list Z) :=
  if decide (length bytes <= length output)%nat then Ret (bytes ++ drop (length bytes) output) else Throw undefined_behaviour.

Definition part (input : list Z) (from size : Z) : list Z := take (Z.to_nat size) (drop (Z.to_nat from) input).
(** A number of [size] bytes; none is zero. *)
Definition import_part (input : list Z) (from size : Z) : Z := if 0 <? size then import_bits (part input from size) else 0.
Definition modexp (input : list Z) : M Z (list Z) :=
  sizes ← lift (decodeSizes input) ;
  let '(baseSize, expSize, modSize) := sizes in
  let base := import_part input 96 baseSize in
  let exp := import_part input (96 + baseSize) expSize in
  let mod_ := import_part input (96 + baseSize + expSize) modSize in
  use (gasRequired baseSize modSize expSize exp) ;;
  let output := replicate (Z.to_nat modSize) 0 in
  if mod_ =? 1 then mret output
  else if mod_ =? 0 then throw boost_error
  else lift (write_front (export_bits (power (base mod mod_) exp mod_)) output).

(** ** The others *)

(** [ecrecover] of a hash and a signature: the zero address where none is found. *)
Definition ecrecover_sig (hash v r s : Z) : Address :=
  if negb ((v =? 27) || (v =? 28)) then 0
  else
    let key := recover (be_bytes 32 r ++ be_bytes 32 s ++ [if v =? 27 then 0 else 1]) hash in
    if key =? 0 then 0 else toAddress key.
Definition ecrecover (input : list Z) : M Z (list Z) :=
  use 3000 ;;
  mret (encodeData [TAddress] [VNum
    match decodeData [THash; TUint 8; THash; THash] input 0 with
    | Ret [VNum hash; VNum v; VNum r; VNum s] => ecrecover_sig hash v r s
    | _ => 0
    end]).
Definition words32 (input : list Z) : Z := (Z.of_nat (length input) + 31) / 32.
Definition sha256 (input : list Z) : M Z (list Z) := use (words32 input * 12 + 60) ;; mret (SHA256 input).
(** The executor encodes the twenty bytes as an address. *)
Definition ripemd160_contract (input : list Z) : M Z (list Z) :=
  use (words32 input * 120 + 600) ;; mret (encodeData [TAddress] [VNum (be_value (ripemd160 input))]).

(** The cases of the executor that call these contracts. *)
Definition precompiles (k : Z) (input : list Z) (gas : Z) : outcome (list Z) * Z :=
  if k =? 1 then ecrecover input gas
  else if k =? 2 then sha256 input gas
  else if k =? 3 then ripemd160_contract input gas
  else if k =? 5 then modexp input gas
  else if k =? 9 then blake2f input gas
  else (Throw (DynamicException "Precompiled contract not found"), gas).

(** ** Gas *)

(** The gas of a contract stays between zero and what it was. *)
Definition gas_down (g g' : Z) : Prop := 0 <= g → 0 <= g' <= g.
#[local] Instance gas_down_preorder : PreOrder gas_down.
Proof. split; [intros g; unfold gas_down; lia|]. intros g1 g2 g3. unfold gas_down. lia. Qed.
Lemma use_down amount : 0 <= amount → preserves gas_down (use amount).
Proof. intros Ha g. unfold use, gas_down. destruct (Z.ltb_spec g amount); cbn; lia. Qed.
Lemma be_value_nonneg l : Forall is_byte l → 0 <= be_value l.
Proof. intros H. rewrite <- le_value_reverse. apply le_value_bound. by apply Forall_reverse. Qed.
Lemma precompiles_gas k input gas : Forall is_byte input → 0 <= gas → 0 <= (precompiles k input gas).2 <= gas.
Proof.
  intros Hb. enough (H : gas_down gas (precompiles k input gas).2) by (by apply H). unfold precompiles.
  assert (Hw : 0 <= words32 input) by (unfold words32; apply Z.div_pos; lia).
  destruct (k =? 1); [apply (preserves_bind gas_down); [by apply use_down|intros; apply preserves_ret; apply _]|].
  destruct (k =? 2); [apply (preserves_bind gas_down); [apply use_down; lia|intros; apply preserves_ret; apply _]|].
  destruct (k =? 3); [apply (preserves_bind gas_down); [apply use_down; lia|intros; apply preserves_ret; apply _]|].
  destruct (k =? 5).
  { revert gas. change (preserves gas_down (modexp input)). apply (preserves_bind gas_down); [apply preserves_lift; apply _|].
    intros [[b e] m]. apply (preserves_bind gas_down); [apply use_down; unfold gasRequired; lia|].
    intros _. destruct (_ =? 1); [apply preserves_ret; apply _|]. destruct (_ =? 0); [apply preserves_throw; apply _|].
    apply preserves_lift; apply _. }
  destruct (k =? 9); [|reflexivity]. revert gas. change (preserves gas_down (blake2f input)).
  apply (preserves_bind gas_down); [apply preserves_throw_if; apply _|]. intros _.
  apply (preserves_bind gas_down); [apply use_down; rewrite le_value_reverse; apply be_value_nonneg; by apply Forall_take|].
  intros _. apply preserves_ret; apply _.
Qed.
End precompiles.

(** ** The value of modexp *)
Section modexp.
Context {BI : BoostInt} {BB : BoostBits} {AC : AbiCasts}.

Lemma power_loop_value p base m result : 0 < m → power_loop p base m result mod m = (result * base ^ Zpos p) mod m.
Proof.
  intros Hm. revert base result. induction p as [p IH|p IH|]; intros base result; cbn [power_loop].
  - rewrite IH. change (Zpos p~1) with (2 * Zpos p + 1). rewrite Z.pow_add_r, Z.pow_mul_r, Z.pow_1_r by lia.
    rewrite Z.mul_mod_idemp_l by lia. rewrite <- Z.mul_mod_idemp_r by lia. rewrite Z.mod_pow_l.
    rewrite Z.mul_mod_idemp_r by lia. rewrite Z.pow_2_r. f_equal. lia.
  - rewrite IH. change (Zpos p~0) with (2 * Zpos p). rewrite Z.pow_mul_r by lia.
    rewrite <- Z.mul_mod_idemp_r by lia. rewrite Z.mod_pow_l. rewrite Z.mul_mod_idemp_r by lia. by rewrite Z.pow_2_r.
  - rewrite Z.mod_mod by lia. by rewrite Z.pow_1_r.
Qed.
Lemma power_loop_reduced p base m result : 0 < m → 0 <= power_loop p base m result < m.
Proof.
  intros Hm. revert base result. induction p as [p IH|p IH|]; intros base result; cbn [power_loop]; [apply IH|apply IH|].
  by apply Z.mod_pos_bound.
Qed.
Lemma power_value base e m : 1 < m → 0 <= e → power (base mod m) e m = base ^ e mod m.
Proof.
  intros Hm He. unfold power. destruct e as [|p|p]; [by rewrite Z.pow_0_r, Z.mod_small by lia| |lia].
  rewrite <- (Z.mod_small (power_loop p (base mod m) m 1) m) by (apply power_loop_reduced; lia).
  rewrite power_loop_value by lia. rewrite Z.mul_1_l. apply Z.mod_pow_l.
Qed.

(** The layout of the input. *)
Definition modexp_input (base exp mod_ : list Z) : list Z :=
  be_bytes 32 (Z.of_nat (length base)) ++ be_bytes 32 (Z.of_nat (length exp)) ++ be_bytes 32 (Z.of_nat (length mod_)) ++
  base ++ exp ++ mod_.
Definition short (l : list Z) : Prop := Z.of_nat (length l) < 2 ^ 16.

Lemma uint_word z B i rest : in_range 256 z → small B → at_pos B i (be_bytes 32 z ++ rest) →
  decode (TUint 256) B i = Ret (VNum z, i + 32) ∧ at_pos B (i + 32) rest.
Proof.
  intros Hz HB Hp. apply at_pos_split in Hp as [Hp Hrest]. rewrite be_bytes_length in Hrest. split; [|done].
  apply (uint_decodes 256 (VNum z) B i); [by split|done|]. unfold placed. cbn [isDynamic encode]. by rewrite encodeUint_be.
Qed.
Lemma decodeSizes_run base exp mod_ : short base → short exp → short mod_ →
  decodeSizes (modexp_input base exp mod_) = Ret (Z.of_nat (length base), Z.of_nat (length exp), Z.of_nat (length mod_)).
Proof.
  unfold short. intros Hb He Hm. set (B := modexp_input base exp mod_).
  assert (HBl : Z.of_nat (length B) = 96 + Z.of_nat (length base) + Z.of_nat (length exp) + Z.of_nat (length mod_)).
  { unfold B, modexp_input. rewrite !length_app, !be_bytes_length. lia. }
  assert (HB : small B) by (unfold small; lia).
  assert (Hp : at_pos B 0 (be_bytes 32 (Z.of_nat (length base)) ++ be_bytes 32 (Z.of_nat (length exp)) ++
    be_bytes 32 (Z.of_nat (length mod_)) ++ base ++ exp ++ mod_)) by (exists [], []; split; [by rewrite app_nil_r|done]).
  destruct (uint_word (Z.of_nat (length base)) B _ _ ltac:(unfold in_range; lia) HB Hp) as [D1 Hp1].
  destruct (uint_word (Z.of_nat (length exp)) B _ _ ltac:(unfold in_range; lia) HB Hp1) as [D2 Hp2].
  destruct (uint_word (Z.of_nat (length mod_)) B _ _ ltac:(unfold in_range; lia) HB Hp2) as [D3 _].
  unfold decodeSizes, decodeData. cbn [map decode_seq]. rewrite D1. cbn [mbind outcome_bind fst snd]. rewrite D2.
  cbn [mbind outcome_bind fst snd]. rewrite D3. cbn [mbind outcome_bind fst snd].
  unfold uadd. rewrite !mk_unsigned_fits by (unfold in_range; lia). cbn [mbind outcome_bind].
  rewrite mk_unsigned_fits by (unfold in_range; lia). cbn [mbind outcome_bind].
  rewrite mk_unsigned_fits by (unfold in_range; lia). cbn [mbind outcome_bind]. rewrite HBl.
  repeat match goal with |- context [Z.ltb ?x ?y] => destruct (Z.ltb_spec x y); [lia|] end. done.
Qed.

(** The parts of the input. *)
Lemma import_part_value pre l post : Forall is_byte l →
  import_part (pre ++ l ++ post) (Z.of_nat (length pre)) (Z.of_nat (length l)) = be_value l.
Proof.
  intros Hl. unfold import_part, part. rewrite !Nat2Z.id, drop_app_length, take_app_length.
  destruct (Z.ltb_spec 0 (Z.of_nat (length l))); [by apply import_bits_value|]. by destruct l; [|cbn in *; lia].
Qed.
Lemma modexp_parts base exp mod_ : Forall is_byte base → Forall is_byte exp → Forall is_byte mod_ →
  let input := modexp_input base exp mod_ in
  import_part input 96 (Z.of_nat (length base)) = be_value base ∧
  import_part input (96 + Z.of_nat (length base)) (Z.of_nat (length exp)) = be_value exp ∧
  import_part input (96 + Z.of_nat (length base) + Z.of_nat (length exp)) (Z.of_nat (length mod_)) = be_value mod_.
Proof.
  intros Hb He Hm. cbv zeta. unfold modexp_input.
  set (h := be_bytes 32 (Z.of_nat (length base)) ++ be_bytes 32 (Z.of_nat (length exp)) ++ be_bytes 32 (Z.of_nat (length mod_))).
  assert (Hh : Z.of_nat (length h) = 96) by (unfold h; rewrite !length_app, !be_bytes_length; done).
  replace (be_bytes 32 (Z.of_nat (length base)) ++ be_bytes 32 (Z.of_nat (length exp)) ++ be_bytes 32 (Z.of_nat (length mod_)) ++
    base ++ exp ++ mod_) with (h ++ base ++ exp ++ mod_) by (unfold h; by rewrite <- !(assoc_L (++))).
  split_and!.
  - rewrite <- Hh. by apply import_part_value.
  - replace (96 + Z.of_nat (length base)) with (Z.of_nat (length (h ++ base))) by (rewrite length_app; lia).
    rewrite (assoc_L (++) h base). by apply import_part_value.
  - replace (96 + Z.of_nat (length base) + Z.of_nat (length exp)) with (Z.of_nat (length (h ++ base ++ exp))) by (rewrite !length_app; lia).
    replace (h ++ base ++ exp ++ mod_) with ((h ++ base ++ exp) ++ mod_ ++ []) by (rewrite app_nil_r; by rewrite <- !(assoc_L (++))).
    by apply import_part_value.
Qed.

(** The bytes of a number written to the front of the output. *)
Lemma export_front r k : 0 <= r < 256 ^ Z.of_nat k → (1 <= k)%nat →
  ∃ n, (1 <= n <= k)%nat ∧ (r = 0 ∧ n = 1%nat ∨ 256 ^ (Z.of_nat n - 1) <= r < 256 ^ Z.of_nat n) ∧
    write_front (export_bits r) (replicate k 0) = Ret (be_bytes n r ++ replicate (k - n) 0).
Proof.
  intros Hr Hk. assert (Hn : ∃ n, (1 <= n <= k)%nat ∧ (r = 0 ∧ n = 1%nat ∨ 256 ^ (Z.of_nat n - 1) <= r < 256 ^ Z.of_nat n) ∧ export_bits r = be_bytes n r).
  { destruct (decide (r = 0)) as [->|Hne]; [exists 1%nat; split_and!; [lia|lia|by left|apply export_bits_zero]|].
    destruct (export_bits_shortest r) as (n & Hb & E); [lia|]. exists n. split_and!; [| |by right|done].
    - destruct n; [|lia]. cbn in Hb. lia.
    - destruct (decide (n <= k)%nat); [done|]. assert (256 ^ Z.of_nat k <= 256 ^ (Z.of_nat n - 1)) by (apply Z.pow_le_mono_r; lia). lia. }
  destruct Hn as (n & Hnk & Hcase & E). exists n. split_and!; [lia|lia|done|]. unfold write_front. rewrite E, be_bytes_length, length_replicate.
  rewrite decide_True by lia. by rewrite drop_replicate.
Qed.
Lemma be_bytes_zero n : be_bytes n 0 = replicate n 0.
Proof. induction n as [|n IH]; [done|]. rewrite replicate_S_end. cbn [be_bytes]. by rewrite <- IH. Qed.
Lemma be_value_zeros l k : be_value (l ++ replicate k 0) = be_value l * 256 ^ Z.of_nat k.
Proof.
  induction k as [|k IH]; [by rewrite app_nil_r, Z.mul_1_r|]. rewrite replicate_S_end, (assoc_L (++)), be_value_snoc, IH.
  rewrite Nat2Z.inj_succ, Z.pow_succ_r by lia. lia.
Qed.
End modexp.

(** Precompiled contract 5 computes modular powers, but writes them to the
    wrong end of its output.  For operands of less than 2^16 bytes and enough gas
    it takes the gas of EIP-2565 and returns as many bytes as the modulus has.
    They begin with the bytes of base ^ exponent mod modulus and are filled up
    with zeros behind them, so they are the big-endian number the contract is
    meant to return only if the result is zero or as long as the modulus.  A
    modulus of zero throws, where the contract is meant to return zeros. *)
Theorem modexp_left_aligned {BI : BoostInt} {BB : BoostBits} {AC : AbiCasts} (base exp mod_ : list Z) (gas : Z) :
  Forall is_byte base → Forall is_byte exp → Forall is_byte mod_ → short base → short exp → short mod_ →
  let b := be_value base in let e := be_value exp in let m := be_value mod_ in
  let k := length mod_ in let r := b ^ e mod m in
  let cost := gasRequired (Z.of_nat (length base)) (Z.of_nat k) (Z.of_nat (length exp)) e in
  cost <= gas →
  let '(result, gas') := modexp (modexp_input base exp mod_) gas in
  gas' = gas - cost ∧
  (m = 0 → result = Throw boost_error) ∧ (m = 1 → result = Ret (replicate k 0)) ∧
  (1 < m → ∃ n, (1 <= n <= k)%nat ∧ (r = 0 ∧ n = 1%nat ∨ 256 ^ (Z.of_nat n - 1) <= r < 256 ^ Z.of_nat n) ∧
     result = Ret (be_bytes n r ++ replicate (k - n) 0) ∧
     (result = Ret (be_bytes k r) ↔ r = 0 ∨ n = k)).
Proof.
  intros Hb He Hm Sb Se Sm. cbv zeta. intros Hgas. unfold modexp. rewrite decodeSizes_run by done.
  unfold mbind at 1, M_bind at 1. unfold lift. cbv beta iota zeta. destruct (modexp_parts base exp mod_ Hb He Hm) as (-> & -> & ->).
  unfold use. unfold mbind at 1, M_bind at 1. destruct (Z.ltb_spec gas (gasRequired (Z.of_nat (length base)) (Z.of_nat (length mod_))
    (Z.of_nat (length exp)) (be_value exp))); [lia|]. rewrite Nat2Z.id. set (g' := gas - _).
  pose proof (be_value_nonneg mod_ Hm) as Hm0. pose proof (be_value_nonneg exp He) as He0.
  destruct (Z.eqb_spec (be_value mod_) 1) as [Em|Hn1]; [split_and!; [done|lia|done|lia]|].
  destruct (Z.eqb_spec (be_value mod_) 0) as [Em|Hn0]; [split_and!; [done|done|lia|lia]|]. rewrite power_value by lia.
  set (r := be_value base ^ be_value exp mod be_value mod_).
  assert (Hr : 0 <= r < be_value mod_) by (apply Z.mod_pos_bound; lia).
  assert (Hmax : be_value mod_ < 256 ^ Z.of_nat (length mod_)).
  { rewrite <- le_value_reverse, <- (length_reverse mod_). apply le_value_bound. by apply Forall_reverse. }
  assert (Hk : (1 <= length mod_)%nat) by (destruct mod_; [cbn in *; lia|cbn; lia]).
  destruct (export_front r (length mod_) ltac:(lia) Hk) as (n & Hn & Hcase & ->).
  split_and!; [done|lia|lia|]. intros _. exists n. split_and!; [lia|lia|done|done|].
  assert (Hin : ∀ q, (n <= q)%nat → in_range (8 * Z.of_nat q) r).
  { intros q Hq. unfold in_range. rewrite Z.pow_mul_r by lia. change (2 ^ 8) with 256.
    assert (256 ^ Z.of_nat n <= 256 ^ Z.of_nat q) by (apply Z.pow_le_mono_r; lia). destruct Hcase as [[-> _]|]; lia. }
  split.
  - intros [= E]. apply (f_equal be_value) in E. rewrite be_value_zeros, !be_value_bytes in E by (apply Hin; lia).
    destruct (decide (n = length mod_)) as [|Hne]; [by right|left].
    assert (1 < 256 ^ Z.of_nat (length mod_ - n)) by (apply Z.pow_gt_1; lia). nia.
  - intros [E| ->]; [|by rewrite Nat.sub_diag, app_nil_r]. f_equal. rewrite E. clear -Hn.
    rewrite be_bytes_zero, <- replicate_add, be_bytes_zero. f_equal. lia.
Qed.
Lemma modexp_left_aligned_witness :
  let '(result, gas') := modexp (BI := boost_ref) (BB := boost_bits_ref) (AC := checked_casts) (modexp_input [3] [1] [1; 0]) 1000 in
  result = Ret [3; 0] ∧ gas' = 800 ∧ result ≠ Ret (be_bytes 2 3).
Proof.
  assert (Hb : ∀ l, forallb (λ b, (0 <=? b) && (b <? 256)) l = true → Forall is_byte l).
  { intros l H. apply Forall_forall. intros b Hin. apply list_elem_of_In in Hin. rewrite forallb_forall in H.
    apply H in Hin. unfold is_byte. lia. }
  pose proof (modexp_left_aligned (BI := boost_ref) (BB := boost_bits_ref) (AC := checked_casts) [3] [1] [1; 0] 1000
    (Hb [3] eq_refl) (Hb [1] eq_refl) (Hb [1; 0] eq_refl)
    ltac:(unfold short; cbn; lia) ltac:(unfold short; cbn; lia) ltac:(unfold short; cbn; lia) ltac:(vm_compute; discriminate)) as H.
  revert H. destruct (modexp _ _) as [result gas']. intros (Hg & _ & _ & Hpow).
  destruct Hpow as (n & Hn & Hcase & Hr & Hiff); [vm_compute; done|].
  change (be_value [3] ^ be_value [1] mod be_value [1; 0]) with 3 in *. cbn [length] in *.
  assert (n = 1%nat) as -> by (destruct n as [|[|[|n]]]; [lia|done|change (256 ^ (Z.of_nat 2 - 1)) with 256 in Hcase; lia|lia]).
  split_and!; [by rewrite Hr|by rewrite Hg|]. rewrite Hiff. lia.
Defined.
