(* ===== verification/Merkle.v ===== *)
(** * Merkle trees

    Models src/utils/merkle.h and src/utils/merkle.cpp: the layers of the tree,
    its root, the proof of a leaf and its verification.  A hash is a 256-bit
    number; comparing hashes byte by byte is comparing those numbers.  Keccak-256
    is a parameter. *)

From S2P Require Import Prelude.

Section merkle.
Context (sha3 : list Z → Hash).

(** [sha3(join(min(a, b), max(a, b)))] *)
Definition hash_pair (a b : Hash) : Hash :=
  sha3 (be_bytes 32 (Z.min a b) ++ be_bytes 32 (Z.max a b)).

(** [Merkle::newLayer]: neighbours are hashed together, a last hash without
    neighbour is kept. *)
Fixpoint newLayer (layer : list Hash) : list Hash :=
  match layer with
  | a :: b :: rest => hash_pair a b :: newLayer rest
  | [a] => [a]
  | [] => []
  end.

(** [while (tree_.back().size() > 1) tree_.emplace_back(newLayer(tree_.back()))];
    each pass halves the layer, so the size of the layer is enough fuel. *)
Fixpoint layers (fuel : nat) (layer : list Hash) : list (list Hash) :=
  match fuel with
  | O => [layer]
  | S fuel => if decide (1 < length layer)%nat then layer :: layers fuel (newLayer layer) else [layer]
  end.

(** The constructors [Merkle(leaves)] and [Merkle(txs)], which hash each leaf
    (the hash of the transaction) first. *)
Definition Merkle (leaves : list Hash) : list (list Hash) :=
  let tmp := (λ leaf, sha3 (be_bytes 32 leaf)) <$> leaves in
  layers (length tmp) tmp.

(** [getRoot]: the first hash of the last layer. *)
Definition getRoot (tree : list (list Hash)) : Hash :=
  match last tree with Some (h :: _) => h | _ => 0 end.

(** [pos % 2 == 0 ? pos + 1 : pos - 1] *)
Definition sibling (pos : nat) : nat := if Nat.even pos then S pos else pred pos.

Fixpoint proof_loop (pos : nat) (tree : list (list Hash)) : outcome (list Hash) :=
  match tree with
  | [] => Ret []
  | layer :: rest =>
      if decide (length layer = 1%nat) then Ret []
      else
        h ← match layer !! sibling pos with Some h => Ret h | None => Throw undefined_behaviour end;
        p ← proof_loop (sibling pos / 2) rest;
        Ret (h :: p)
  end.

(** [getProof]; for an empty layer [size() - 1] is the largest [uint64_t]. *)
Definition getProof (leafIndex : nat) (tree : list (list Hash)) : outcome (list Hash) :=
  match tree with
  | [] => Throw undefined_behaviour
  | front :: _ =>
      if decide (front ≠ [] ∧ length front - 1 < leafIndex)%nat then Ret []
      else proof_loop leafIndex tree
  end.

(** [Merkle::verify] *)
Definition verify (proof : list Hash) (leaf root : Hash) : bool := foldl hash_pair leaf proof =? root.

(** ** Lemmas *)

Lemma pair_ind (P : list Hash → Prop) :
  P [] → (∀ a, P [a]) → (∀ a b l, P l → P (a :: b :: l)) → ∀ l, P l.
Proof.
  intros H0 H1 H2. fix IH 1. intros [|a [|b l]]; [exact H0 | apply H1 | apply H2, IH].
Qed.

Lemma hash_pair_comm a b : hash_pair a b = hash_pair b a.
Proof. unfold hash_pair. by rewrite Z.min_comm, Z.max_comm. Qed.

Lemma newLayer_length l : length (newLayer l) = ((length l + 1) / 2)%nat.
Proof.
  induction l as [|a|a b l IH] using pair_ind; [done..|]. cbn [newLayer length]. rewrite IH.
  replace (S (S (length l)) + 1)%nat with (length l + 1 + 1 * 2)%nat by lia.
  rewrite Nat.div_add by lia. lia.
Qed.

Lemma even_half n : (if Nat.even n then n = 2 * (n / 2) else n = 2 * (n / 2) + 1)%nat.
Proof.
  pose proof (Nat.div_mod_eq n 2). destruct (Nat.even n) eqn:E.
  - apply Nat.even_spec in E as [k ->]. rewrite Nat.mul_comm, Nat.div_mul by lia. lia.
  - rewrite <- Nat.negb_odd in E. apply negb_false_iff, Nat.odd_spec in E as [k ->].
    replace (2 * k + 1)%nat with (1 + k * 2)%nat by lia. rewrite Nat.div_add by lia. cbn. lia.
Qed.

Lemma sibling_half n : (sibling n / 2 = n / 2)%nat.
Proof.
  pose proof (even_half n) as H. unfold sibling. destruct (Nat.even n).
  - rewrite H at 1. replace (S (2 * (n / 2))) with (1 + (n / 2) * 2)%nat by lia.
    rewrite Nat.div_add by lia. done.
  - rewrite H at 1. replace (pred (2 * (n / 2) + 1)) with ((n / 2) * 2)%nat by lia.
    by rewrite Nat.div_mul by lia.
Qed.

(** The parent of two neighbours is the hash of both. *)
Lemma newLayer_lookup l i a b :
  l !! i = Some a → l !! sibling i = Some b → newLayer l !! (i / 2)%nat = Some (hash_pair a b).
Proof.
  revert i. induction l as [|c|c d l IH] using pair_ind; intros i Ha Hb; [done| |].
  { destruct i; [done|]. by destruct i. }
  destruct i as [|[|i]]; cbn in Ha, Hb.
  - simplify_eq. done.
  - simplify_eq. cbn. by rewrite hash_pair_comm.
  - replace (S (S i) / 2)%nat with (S (i / 2))
      by (replace (S (S i)) with (i + 1 * 2)%nat by lia; rewrite Nat.div_add by lia; lia).
    cbn [newLayer]. apply IH; [done|]. unfold sibling in *.
    change (Nat.even (S (S i))) with (Nat.even i) in Hb.
    destruct (Nat.even i) eqn:E; [done|]. destruct i; [done|]. done.
Qed.

(** On the way up from leaf [i] of [n], every node has a neighbour. *)
Fixpoint paired (fuel n i : nat) : bool :=
  match fuel with
  | O => true
  | S fuel => (n =? 1)%nat || ((sibling i <? n)%nat && paired fuel ((n + 1) / 2) (i / 2))
  end.

Lemma layers_cons fuel l : layers fuel l ≠ [].
Proof. destruct fuel; cbn [layers]; [done|]. by case_decide. Qed.

Lemma getRoot_cons l t : t ≠ [] → getRoot (l :: t) = getRoot t.
Proof. intros Ht. unfold getRoot. by destruct t. Qed.

Lemma half_lt n : (2 ≤ n → (n + 1) / 2 ≤ n - 1)%nat.
Proof.
  intros Hn. pose proof (even_half (n + 1)) as H. destruct (Nat.even (n + 1)); lia.
Qed.

Lemma proof_loop_spec fuel l i h :
  l !! i = Some h → (length l ≤ fuel)%nat →
  match proof_loop i (layers fuel l) with
  | Ret p => paired fuel (length l) i = true ∧ foldl hash_pair h p = getRoot (layers fuel l)
  | Throw e => paired fuel (length l) i = false ∧ e = undefined_behaviour
  end.
Proof.
  revert l i h. induction fuel as [|fuel IH]; intros l i h Hi Hl.
  { apply lookup_lt_Some in Hi. lia. }
  pose proof (lookup_lt_Some _ _ _ Hi) as Hlt. cbn [layers paired].
  destruct (decide (1 < length l)%nat) as [Hn|Hn].
  2: { destruct l as [|a [|]]; [done| |cbn in Hn; lia]. destruct i; [|done].
       cbn in Hi. by simplify_eq. }
  cbn [proof_loop]. rewrite decide_False by lia. rewrite (proj2 (Nat.eqb_neq _ 1)) by lia. cbn [orb].
  unfold mbind, outcome_bind.
  destruct (l !! sibling i) as [b|] eqn:Hb.
  2: { apply lookup_ge_None in Hb. by rewrite (proj2 (Nat.ltb_ge _ _) Hb). }
  pose proof (lookup_lt_Some _ _ _ Hb) as Hb'. rewrite (proj2 (Nat.ltb_lt _ _) Hb').
  specialize (IH (newLayer l) (i / 2)%nat _ (newLayer_lookup l i h b Hi Hb)).
  rewrite newLayer_length in IH. rewrite sibling_half.
  rewrite getRoot_cons by apply layers_cons. pose proof (half_lt (length l)).
  specialize (IH ltac:(lia)). destruct (proof_loop _ _); exact IH.
Qed.

(** The loop that builds the tree ends with a single root. *)
Lemma layers_end fuel l : (1 ≤ length l ≤ fuel)%nat → ∃ r, last (layers fuel l) = Some [r].
Proof.
  revert l. induction fuel as [|fuel IH]; intros l Hl; cbn [layers]; [lia|].
  destruct (decide (1 < length l)%nat) as [Hn|Hn].
  - destruct (IH (newLayer l)) as [r Hr].
    { rewrite newLayer_length. pose proof (half_lt (length l)).
      pose proof (Nat.Div0.div_le_mono 2 (length l + 1) 2). cbn in *. lia. }
    exists r. pose proof (layers_cons fuel (newLayer l)).
    destruct (layers fuel (newLayer l)); [done|exact Hr].
  - destruct l as [|r [|]]; cbn in *; [lia|by exists r|lia].
Qed.

(** In a tree with a power of two of leaves every node has a neighbour. *)
Lemma paired_pow2 fuel k i : (i < 2 ^ k)%nat → paired fuel (2 ^ k) i = true.
Proof.
  revert k i. induction fuel as [|fuel IH]; intros k i Hi; [done|]. cbn [paired].
  destruct k as [|k]; [done|]. apply orb_true_intro. right.
  rewrite Nat.pow_succ_r' in *. pose proof (even_half i) as He.
  replace ((2 * 2 ^ k + 1) / 2)%nat with (2 ^ k)%nat
    by (rewrite Nat.add_comm, (Nat.mul_comm 2), Nat.div_add by lia; done).
  apply andb_true_intro. split.
  - apply Nat.ltb_lt. unfold sibling. destruct (Nat.even i); lia.
  - apply IH. destruct (Nat.even i); lia.
Qed.
End merkle.

(** For every leaf of a tree, [getProof] returns a proof that [verify]
    accepts against the root, exactly when each node on the way to the root has a
    neighbour; for the other leaves (a last leaf of an odd layer) it reads past
    the end of a layer.  Building the tree ends with a single root, and in a tree with a power of two of leaves every
    leaf has its proof. *)
Theorem getProof_correct (sha3 : list Z → Hash) (leaves : list Hash) (i : nat) (leaf : Hash) :
  leaves !! i = Some leaf →
  let tree := Merkle sha3 leaves in
  (if paired (length leaves) (length leaves) i
   then ∃ p, getProof i tree = Ret p ∧ verify sha3 p (sha3 (be_bytes 32 leaf)) (getRoot tree) = true
   else getProof i tree = Throw undefined_behaviour) ∧
  (∃ r, last tree = Some [r]) ∧
  (∀ k, length leaves = 2 ^ k → paired (length leaves) (length leaves) i = true)%nat.
Proof.
  intros Hi tree. pose proof (lookup_lt_Some _ _ _ Hi) as Hlt. split_and!.
  2: { apply layers_end. rewrite length_fmap. lia. }
  2: { intros k Hk. rewrite Hk in *. by apply paired_pow2. }
  unfold tree, Merkle. rewrite length_fmap. set (l := _ <$> leaves).
  assert (Hll : length l = length leaves) by apply length_fmap.
  assert (Hl : l !! i = Some (sha3 (be_bytes 32 leaf))) by (unfold l; by rewrite list_lookup_fmap, Hi).
  assert (Hg : getProof i (layers sha3 (length leaves) l) = proof_loop i (layers sha3 (length leaves) l)).
  { destruct (length leaves) as [|n] eqn:E; [lia|]. cbn [layers getProof].
    case_decide; cbn [getProof]; case_decide; [lia|done|lia|done]. }
  rewrite Hg. pose proof (proof_loop_spec sha3 (length leaves) l i _ Hl ltac:(lia)) as Hp.
  rewrite Hll in Hp. destruct (proof_loop _ _) as [p|e]; destruct Hp as [-> Hp].
  - exists p. split; [done|]. apply Z.eqb_eq, Hp.
  - by subst e.
Qed.

Lemma getProof_correct_witness :
  let h l := be_value l mod 1000003 in
  let tree := Merkle h [10; 20; 30; 40] in
  (∃ p, getProof 2 tree = Ret p ∧ verify h p (h (be_bytes 32 30)) (getRoot tree) = true) ∧
  getProof 2 (Merkle h [10; 20; 30]) = Throw undefined_behaviour.
Proof.
  intros h tree. split.
  - apply (getProof_correct h [10; 20; 30; 40] 2 30). reflexivity.
  - apply (getProof_correct h [10; 20; 30] 2 30). reflexivity.
Defined.
