(* ===== verification/Messages.v ===== *)
(** * Contract calls: gas, executors and the message dispatcher

    Models src/contract/gas.h, costs.h, common.cpp (addresses of new contracts),
    messagedispatcher.h, cppcontractexecutor.h, precompiledcontractexecutor.cpp
    and the EVM executor with its host callbacks (evmcontractexecutor.cpp).

    The code a contract runs is not fixed: the EVM interpreter (evmone, outside
    the repository) is any [VmProg], a finite strategy that asks the host for its
    callbacks, and a C++ contract is any [CppProg] over its safe variables, the
    context and calls to other contracts.  Nested calls go back to [onMessage];
    [fuel] bounds their depth, and running out of it stands for the exhaustion
    of the call stack ([undefined_behaviour]). *)

From S2P Require Import Prelude CheckedInt SafeBase ExecutionContext Bytes.

(** The operations a contract makes on its safe variables: what the host needs
    is that each keeps the committed value. *)
Class VarOps (V T : Type) `{SafeVar V T} := {
  VarOp : Type;
  VarRes : Type;
  var_op : VarOp → M V VarRes;
  var_op_safe : ∀ o, safe_op (var_op o);
}.

(** The messages: [Encoded*Message] carry bytes, [Packed*Message] a method of a
    C++ contract (its arguments included). *)
Inductive Message :=
| EncodedCall (from to : Address) (value : Z) (input : list Z)
| EncodedStaticCall (from to : Address) (input : list Z)
| EncodedDelegateCall (from to : Address) (value : Z) (input : list Z) (codeAddress : Address)
| EncodedCreate (from : Address) (value : Z) (bytecode : list Z)
| EncodedSaltCreate (from : Address) (value : Z) (bytecode : list Z) (salt : Hash)
| PackedCall (from to : Address) (value : Z) (method : nat)
| PackedStaticCall (from to : Address) (method : nat)
| PackedCreate (from : Address) (value : Z) (contract : nat).

Definition msg_from (m : Message) : Address :=
  match m with
  | EncodedCall f _ _ _ | EncodedStaticCall f _ _ | EncodedDelegateCall f _ _ _ _
  | EncodedCreate f _ _ | EncodedSaltCreate f _ _ _
  | PackedCall f _ _ _ | PackedStaticCall f _ _ | PackedCreate f _ _ => f
  end.

(** [messageRecipientOrDefault] *)
Definition msg_to (m : Message) : Address :=
  match m with
  | EncodedCall _ t _ _ | EncodedStaticCall _ t _ | EncodedDelegateCall _ t _ _ _
  | PackedCall _ t _ _ | PackedStaticCall _ t _ => t
  | _ => 0
  end.

(** [messageValueOrZero] *)
Definition messageValueOrZero (m : Message) : Z :=
  match m with
  | EncodedCall _ _ v _ | EncodedDelegateCall _ _ v _ _ | EncodedCreate _ v _
  | EncodedSaltCreate _ v _ _ | PackedCall _ _ v _ | PackedCreate _ v _ => v
  | _ => 0
  end.

(** [messageCodeAddress] *)
Definition messageCodeAddress (m : Message) : Address :=
  match m with EncodedDelegateCall _ _ _ _ a => a | _ => msg_to m end.

Definition is_delegate (m : Message) : bool :=
  match m with EncodedDelegateCall _ _ _ _ _ => true | _ => false end.

(** [isPayment]: an encoded message without input. *)
Definition isPayment (m : Message) : bool :=
  match m with
  | EncodedCall _ _ _ i | EncodedStaticCall _ _ i | EncodedDelegateCall _ _ _ i _ =>
      bool_decide (i = [])
  | _ => false
  end.

(** costs.h *)
Definition CONTRACT_EXECUTION_COST : Z := 21000.
Definition EVM_CONTRACT_CREATION_COST : Z := 100000.
Definition CPP_CONTRACT_CREATION_COST : Z := 50000.
Definition CPP_CONTRACT_CALL_COST : Z := 1000.

(** The addresses of the ContractManager and of the random generator. *)
Definition ContractManager : Address := 0x0001cb47ea6d8b55fe44fdd6b1bdb579efb43e61.
Definition RANDOM_GENERATOR_ADDRESS : Address := 0x1000000000000000000000000000100000000001.

(** [PrecompiledContractExecutor::isPrecompiled]: the first 19 bytes are zero
    and the last one is at most 5, or 9. *)
Definition isPrecompiled (a : Address) : bool :=
  (a =? RANDOM_GENERATOR_ADDRESS) ||
  ((a / 256 =? 0) && ((a mod 256 <=? 5) || (a mod 256 =? 9))).

(** ** What runs inside the host *)

(** The callbacks of [evmc::Host]; [vm_callcode] is a call with the kind
    [EVMC_CALLCODE], [access_*] answer that the access is warm. *)
Inductive VmOp :=
| account_exists (a : Address)
| get_storage (a : Address) (k : Hash)
| set_storage (a : Address) (k v : Hash)
| get_balance (a : Address)
| get_code_size (a : Address)
| get_code_hash (a : Address)
| copy_code (a : Address) (code_offset buffer_size : Z)
| selfdestruct (a beneficiary : Address)
| get_block_hash (number : Z)
| emit_log (a : Address) (data : list Z) (topics : list Hash)
| get_transient_storage (a : Address) (k : Hash)
| set_transient_storage (a : Address) (k v : Hash)
| get_tx_context
| access_account (a : Address)
| access_storage (a : Address) (k : Hash)
| vm_call (m : Message) (gas : Z)
| vm_callcode (m : Message) (gas : Z).

(** The status codes the executor tells apart; [EVMC_REVERT] stands for every
    other failure too. *)
Inductive VmStatus := EVMC_SUCCESS | EVMC_OUT_OF_GAS | EVMC_REVERT.

Inductive Reply :=
| RUnit
| RBool (b : bool)
| RWord (z : Z)
| RBytes (l : list Z)
| RTxContext (tx_gas_price : Z) (tx_origin block_coinbase : Address)
    (block_number block_timestamp block_gas_limit chain_id : Z)
| RAccessWarm
| RCall (status : VmStatus) (gas_left : Z) (output : list Z) (create_address : Address).

(** A run of the EVM interpreter. *)
Inductive VmProg :=
| VmDone (status : VmStatus) (gas_left : Z) (output : list Z)
| VmAsk (o : VmOp) (k : Reply → VmProg).

(** What a message returns: bytes, or the address of a new contract. *)
Inductive Result := RData (l : list Z) | RAddress (a : Address).

Definition result_bytes (r : Result) : list Z :=
  match r with RData l => l | RAddress a => be_bytes 20 a end.

(** ** Contract calls *)

Section messages.
Context {BI : BoostInt} {V T : Type} {SV : SafeVar V T} {VO : VarOps V T}.

(** The body of a C++ contract function. *)
Inductive CppProg :=
| CppReturn (out : list Z)
| CppThrow (e : exn)
| CppVar (x : nat) (o : VarOp) (k : outcome VarRes → CppProg)
| CppContext (o : CtxOp) (k : outcome unit → CppProg)
| CppRead (k : World → CppProg)
| CppCall (m : Message) (k : outcome Result → CppProg)
| CppRandom (k : Z → CppProg).

(** The state of an execution: the context, the safe variables and the stack
    of the used ones, the [Gas] of the message in flight,
    [MessageDispatcher::cppContractReverted_], the members [depth_],
    [transientStorage_] and [deepestError_] (the data of the stored
    [VMExecutionError]; its message is text for the client) of
    [EvmContractExecutor], the seed of the random generator, and [caller_] and
    [value_] of the contract objects.  The other local member of a contract,
    [reentrancyLock_], is set and cleared by the contract's own functions (a
    guard object in [nonReentrant]); it belongs to the code of the contract. *)
Record Exec := mkExec {
  x_ctx : Ctx;
  x_vars : HostVars V;
  x_gas : Z;
  cppContractReverted_ : bool;
  depth_ : Z;
  transientStorage_ : gmap (Z * Z) Hash;
  x_seed : Hash;
  x_locals : gmap nat (Address * Z);
  deepestError_ : option (list Z);
}.

Definition with_ctx v x := mkExec v (x_vars x) (x_gas x) (cppContractReverted_ x) (depth_ x) (transientStorage_ x) (x_seed x) (x_locals x) (deepestError_ x).
Definition with_vars v x := mkExec (x_ctx x) v (x_gas x) (cppContractReverted_ x) (depth_ x) (transientStorage_ x) (x_seed x) (x_locals x) (deepestError_ x).
Definition with_gas v x := mkExec (x_ctx x) (x_vars x) v (cppContractReverted_ x) (depth_ x) (transientStorage_ x) (x_seed x) (x_locals x) (deepestError_ x).
Definition with_reverted v x := mkExec (x_ctx x) (x_vars x) (x_gas x) v (depth_ x) (transientStorage_ x) (x_seed x) (x_locals x) (deepestError_ x).
Definition with_depth v x := mkExec (x_ctx x) (x_vars x) (x_gas x) (cppContractReverted_ x) v (transientStorage_ x) (x_seed x) (x_locals x) (deepestError_ x).
Definition with_transient v x := mkExec (x_ctx x) (x_vars x) (x_gas x) (cppContractReverted_ x) (depth_ x) v (x_seed x) (x_locals x) (deepestError_ x).
Definition with_seed v x := mkExec (x_ctx x) (x_vars x) (x_gas x) (cppContractReverted_ x) (depth_ x) (transientStorage_ x) v (x_locals x) (deepestError_ x).
Definition with_locals v x := mkExec (x_ctx x) (x_vars x) (x_gas x) (cppContractReverted_ x) (depth_ x) (transientStorage_ x) (x_seed x) v (deepestError_ x).
Definition with_deepestError v x := mkExec (x_ctx x) (x_vars x) (x_gas x) (cppContractReverted_ x) (depth_ x) (transientStorage_ x) (x_seed x) (x_locals x) v.

Definition in_ctx {A} (m : M Ctx A) : M Exec A := zoom x_ctx with_ctx m.

(** [try { m } catch (...) { h }]; undefined behaviour is not an exception. *)
Definition try_catch {A} (m : M Exec A) (h : exn → M Exec A) : M Exec A := λ x,
  match m x with
  | (Ret a, x') => (Ret a, x')
  | (Throw undefined_behaviour, x') => (Throw undefined_behaviour, x')
  | (Throw e, x') => h e x'
  end.

(** Run [m] with a guard object whose destructor is [restore], which runs
    whether [m] returns or throws; [save] is what the guard remembers. *)
Definition guarded {A B} (save : Exec → B) (restore : B → Exec → Exec) (m : M Exec A) : M Exec A :=
  λ x, let '(r, x') := m x in (r, restore (save x) x').

(** An exception that leaves a [noexcept] function ends the program. *)
Definition or_terminate {A} (o : outcome A) : outcome A :=
  match o with Ret a => Ret a | Throw _ => Throw undefined_behaviour end.

(** [int64_t] of a checked number: a value that does not fit throws. *)
Definition to_int64 (z : Z) : outcome Z :=
  if bool_decide (- 2 ^ 63 ≤ z < 2 ^ 63) then Ret z else Throw boost_error.

Lemma to_int64_Ret z v : to_int64 z = Ret v → v = z.
Proof. unfold to_int64. case_bool_decide; congruence. Qed.

(** [Gas::use] *)
Definition gas_use (amount : Z) : M Exec unit :=
  g ← gets x_gas;
  if g <? amount then modify (with_gas 0) ;; throw OutOfGas
  else modify (with_gas (g - amount)).

(** The parameters: the EVM interpreter, the code of the C++ contracts, whether
    [dynamic_cast] to the class of a packed method succeeds, their names,
    Keccak-256, the cryptographic precompiles, the ABI encoding of a packed method
    and its arguments, [ABI::Encoder::encodeError] of the text of a caught
    exception, [ABI::Decoder::decodeError] ([decodeError] of [Abi]) and whether
    indexing is [RPC_TRACE]. *)
Class Externals := {
  vm : Z → Message → Z → list Z → VmProg;
  cpp_code : nat → Message → CppProg;
  cpp_is : nat → Message → bool;
  contractName : nat → list Z;
  sha3 : list Z → Hash;
  precompile : Z → list Z → Z → outcome (list Z) * Z;
  packed_input : nat → list Z;
  error_data : exn → list Z;
  decode_error : list Z → outcome (list Z);
  rpc_trace : bool;
}.
Context {EX : Externals}.

(** *** Addresses of new contracts *)

(** The RLP encoding of [address, nonce] that is hashed. *)
Definition create_payload (nonce : Z) (a : Address) : list Z :=
  [0x94] ++ be_bytes 20 a ++
  (if nonce =? 0 then [0x80]
   else if nonce <? 0x80 then [nonce]
   else [0x80 + Z.of_nat (length (uintToBytes nonce))] ++ uintToBytes nonce).

Definition generateContractAddress (nonce : Z) (a : Address) : Address :=
  let payload := create_payload nonce a in
  sha3 ([0xc0 + Z.of_nat (length payload)] ++ payload) mod 2 ^ 160.

Definition generateContractAddress2 (from : Address) (salt : Hash) (bytecode : list Z) : Address :=
  sha3 ([0xff] ++ be_bytes 20 from ++ be_bytes 32 salt ++ be_bytes 32 (sha3 bytecode)) mod 2 ^ 160.

(** [RandomGen::operator()] *)
Definition random : M Exec Z :=
  x ← gets id;
  modify (with_seed (sha3 (be_bytes 32 (x_seed x)))) ;; gets x_seed.

(** *** EVM host callbacks *)

Definition PrecompileContract_ : list Z :=
  [80; 114; 101; 99; 111; 109; 112; 105; 108; 101; 67; 111; 110; 116; 114; 97; 99; 116; 45].

(** The pseudo code of a C++ contract. *)
Definition cpp_pseudo_code (p : nat) : list Z := PrecompileContract_ ++ contractName p.

(** [std::copy_n] of the bytes from [off] that fit. *)
Definition code_slice (off size : Z) (l : list Z) : list Z :=
  if off <? Z.of_nat (length l)
  then take (Z.to_nat (Z.min size (Z.of_nat (length l) - off))) (drop (Z.to_nat off) l)
  else [].

Definition get_code_size_cb (a : Address) : M Exec Z :=
  try_catch
    (p ← in_ctx (getAccount a);
     t ← in_ctx (getContractType p);
     if decide (t = CPP) then
       c ← in_ctx (getContract a);
       mret (19 + Z.of_nat (length (contractName c)))
     else l ← in_ctx (getCode p); mret (Z.of_nat (length l)))
    (λ _, mret 0).

Definition get_code_hash_cb (a : Address) : M Exec Hash :=
  try_catch
    (p ← in_ctx (getAccount a);
     t ← in_ctx (getContractType p);
     if decide (t = CPP) then
       c ← in_ctx (getContract a);
       mret (sha3 (cpp_pseudo_code c))
     else in_ctx (getCodeHash p))
    (λ _, mret 0).

(** [copy_code]: the test in the source is on [ContractType::EVM]. *)
Definition copy_code_cb (a : Address) (off size : Z) : M Exec (list Z) :=
  try_catch
    (p ← in_ctx (getAccount a);
     t ← in_ctx (getContractType p);
     pre ← (if decide (t = EVM) then
              c ← in_ctx (getContract a);
              let l := cpp_pseudo_code c in
              mret (if off <? Z.of_nat (length l) then Some (code_slice off size l) else None)
            else mret None);
     match pre with
     | Some l => mret l
     | None =>
         p' ← in_ctx (getAccount a);
         l ← in_ctx (getCode p');
         mret (code_slice off size l)
     end)
    (λ _, mret []).

(** [set_transient_storage]: [emplace] keeps a value that is already there. *)
Definition set_transient_storage_cb (a : Address) (k v : Hash) : M Exec unit :=
  modify (λ x, with_transient
    (match transientStorage_ x !! (a, k) with
     | Some _ => transientStorage_ x
     | None => <[(a, k) := v]> (transientStorage_ x)
     end) x).

(** [EvmContractExecutor::call]: a [Gas] of its own (the one of the calling
    message is not touched), every exception turned into a result.  The first
    [VMExecutionError] is kept as the deepest one. *)
Definition gas_left_of (conv : outcome Z → outcome Z) : M Exec Z :=
  g ← gets x_gas; lift (conv (to_int64 g)).

Definition vm_call_cb (handler : Message → M Exec Result) (m : Message) (gas : Z) : M Exec Reply :=
  guarded x_gas with_gas (
    g0 ← lift (or_terminate (mk_unsigned 256 gas));
    modify (with_gas g0) ;;
    try_catch
      (o ← handler m;
       g ← gas_left_of id;
       mret (match o with
             | RData l => RCall EVMC_SUCCESS g l 0
             | RAddress a => RCall EVMC_SUCCESS g [] a
             end))
      (λ e, match e with
            | OutOfGas => mret (RCall EVMC_OUT_OF_GAS 0 [] 0)
            | VMExecutionError data =>
                modify (λ x, with_deepestError (Some (default data (deepestError_ x))) x) ;;
                g ← gas_left_of or_terminate; mret (RCall EVMC_REVERT g data 0)
            | _ => g ← gas_left_of or_terminate; mret (RCall EVMC_REVERT g (error_data e) 0)
            end)).

Definition vm_op (handler : Message → M Exec Result) (o : VmOp) : M Exec Reply :=
  match o with
  | account_exists a => b ← in_ctx (accountExists a); mret (RBool b)
  | get_storage a k => z ← in_ctx (retrieve a k); mret (RWord z)
  | set_storage a k v => in_ctx (store a k v) ;; mret RUnit
  | get_balance a => p ← in_ctx (getAccount a); z ← in_ctx (getBalance p); mret (RWord z)
  | get_code_size a => z ← get_code_size_cb a; mret (RWord z)
  | get_code_hash a => z ← get_code_hash_cb a; mret (RWord z)
  | copy_code a off size => l ← copy_code_cb a off size; mret (RBytes l)
  | selfdestruct _ _ => mret (RBool false)
  | get_block_hash n => mret (RWord n)
  | emit_log a data topics =>
      if rpc_trace then in_ctx (addEvent_evm a data topics) ;; mret RUnit else mret RUnit
  | get_transient_storage a k =>
      z ← gets (λ x, default 0 (transientStorage_ x !! (a, k))); mret (RWord z)
  | set_transient_storage a k v => set_transient_storage_cb a k v ;; mret RUnit
  | get_tx_context =>
      e ← gets (λ x, env (x_ctx x));
      mret (RTxContext (txGasPrice_ e) (txOrigin_ e) (blockCoinbase_ e) (blockNumber_ e)
              (blockTimestamp_ e) (blockGasLimit_ e) (chainId_ e))
  | access_account _ | access_storage _ _ => mret RAccessWarm
  | vm_call m gas => vm_call_cb handler m gas
  | vm_callcode _ _ => throw undefined_behaviour (* [std::unreachable] *)
  end.

(** The end of [executeEvmcMessage].  A failure throws the deepest error that
    is known; a failure without output becomes the deepest error itself. *)
Definition vm_status (status : VmStatus) (output : list Z) : M Exec (list Z) :=
  match status with
  | EVMC_SUCCESS => mret output
  | EVMC_OUT_OF_GAS => throw OutOfGas
  | EVMC_REVERT =>
      deepest ← gets deepestError_;
      match output, deepest with
      | _ :: _, Some data => throw (VMExecutionError data)
      | _ :: _, None =>
          lift (decode_error output) ;;
          modify (with_deepestError (Some output)) ;;
          throw (VMExecutionError output)
      | [], _ =>
          modify (with_deepestError (Some [])) ;;
          throw (VMExecutionError [])
      end
  end.

(** Keep the interpreter's gas, map its status. *)
Definition vm_result (status : VmStatus) (gas_left : Z) (output : list Z) : M Exec (list Z) :=
  g ← lift (mk_unsigned 256 gas_left);
  modify (with_gas g) ;; vm_status status output.

Fixpoint vm_run (handler : Message → M Exec Result) (p : VmProg) : M Exec (list Z) :=
  match p with
  | VmDone status gas_left output => vm_result status gas_left output
  | VmAsk o k => r ← vm_op handler o; vm_run handler (k r)
  end.

(** [makeEvmcMessage] and [executeEvmcMessage] *)
Definition executeEvmcMessage (handler : Message → M Exec Result)
    (m : Message) (bytecode : list Z) : M Exec (list Z) :=
  x ← gets id;
  g ← lift (to_int64 (x_gas x));
  vm_run handler (vm (depth_ x) m g bytecode).

(** [auto depthGuard = transactional::copy(depth_); ++depth_;] *)
Definition with_depthGuard {A} (m : M Exec A) : M Exec A :=
  guarded depth_ with_depth (modify (λ x, with_depth (depth_ x + 1) x) ;; m).

(** [context.notifyNewContract(contractAddress, nullptr)] *)
Definition notifyEvmContract (a : Address) : M Exec unit := in_ctx (notifyContractAt a None).

Definition createContractImpl (handler : Message → M Exec Result)
    (m : Message) (bytecode : list Z) (a : Address) : M Exec unit :=
  out ← executeEvmcMessage handler m bytecode;
  acc ← in_ctx (getAccount a);
  let h := sha3 out in
  contract ← in_ctx (checkEVMContract h out);
  in_ctx (setNonce acc 1) ;;
  in_ctx (setCode acc (Some contract) h) ;;
  in_ctx (setContractType acc EVM) ;;
  b ← in_ctx (getBalance acc);
  b' ← lift (uadd 256 b (messageValueOrZero m));
  in_ctx (setBalance acc b') ;;
  notifyEvmContract a.

(** The [execute] overloads of [EvmContractExecutor]. *)
Definition evm_execute (handler : Message → M Exec Result) (m : Message) : M Exec Result :=
  match m with
  | EncodedCreate from _ bytecode =>
      gas_use EVM_CONTRACT_CREATION_COST ;;
      with_depthGuard (
        acc ← in_ctx (getAccount from);
        n ← in_ctx (getNonce acc);
        let a := generateContractAddress n from in
        createContractImpl handler m bytecode a ;;
        t ← in_ctx (getContractType acc);
        (if decide (t = NOT_A_CONTRACT) then mret ()
         else n' ← in_ctx (getNonce acc); in_ctx (setNonce acc (wrap 64 (n' + 1)))) ;;
        mret (RAddress a))
  | EncodedSaltCreate from _ bytecode salt =>
      gas_use EVM_CONTRACT_CREATION_COST ;;
      with_depthGuard (
        let a := generateContractAddress2 from salt bytecode in
        createContractImpl handler m bytecode a ;;
        mret (RAddress a))
  | _ =>
      with_depthGuard (
        p ← in_ctx (getAccount (messageCodeAddress m));
        bytecode ← in_ctx (getCode p);
        out ← executeEvmcMessage handler m bytecode;
        mret (RData out))
  end.

(** *** C++ contracts *)

(** The outcome of a step as the contract sees it: exceptions can be caught,
    undefined behaviour cannot. *)
Definition observe {A B} (m : M Exec A) (k : outcome A → M Exec B) : M Exec B := λ x,
  match m x with
  | (Throw undefined_behaviour, x') => (Throw undefined_behaviour, x')
  | (r, x') => k r x'
  end.

Fixpoint cpp_run (handler : Message → M Exec Result) (p : CppProg) : M Exec (list Z) :=
  match p with
  | CppReturn out => mret out
  | CppThrow e => throw e
  | CppVar x o k => observe (zoom x_vars with_vars (on_var x (var_op o))) (λ r, cpp_run handler (k r))
  | CppContext o k => observe (in_ctx (ctx_op o)) (λ r, cpp_run handler (k r))
  | CppRead k => w ← gets (λ x, world (x_ctx x)); cpp_run handler (k w)
  | CppCall m k => observe (handler m) (λ r, cpp_run handler (k r))
  | CppRandom k => z ← random; cpp_run handler (k z)
  end.

(** [contract.caller_] and [contract.value_] *)
Definition local (x : Exec) (p : nat) : Address * Z := default (0, 0) (x_locals x !! p).
Definition set_local (p : nat) (l : Address * Z) (x : Exec) : Exec :=
  with_locals (<[p := l]> (x_locals x)) x.

(** The [transactional::Group] of the two checkpoints around a call. *)
Definition with_local {A} (p : nat) (l : Address * Z) (m : M Exec A) : M Exec A :=
  guarded (λ x, local x p) (set_local p) (modify (set_local p l) ;; m).

(** [evmEthCall], errors rethrown as [VMExecutionError]. *)
Definition evmEthCall (handler : Message → M Exec Result) (p : nat) (m : Message) : M Exec (list Z) :=
  try_catch (cpp_run handler (cpp_code p m))
    (λ e, match e with
          | VMExecutionError _ => throw e
          | _ => throw (VMExecutionError (error_data e))
          end).

Definition callContract (handler : Message → M Exec Result) (m : Message) : M Exec Result :=
  match m with
  | PackedCall _ _ _ _ | PackedStaticCall _ _ _ =>
      gas_use CPP_CONTRACT_CALL_COST ;;
      p ← in_ctx (getContract (msg_to m));
      throw_if (negb (cpp_is p m)) (DynamicException "Wrong contract type") ;;
      out ← with_local p (msg_from m, messageValueOrZero m) (cpp_run handler (cpp_code p m));
      mret (RData out)
  | _ =>
      gas_use (if msg_to m =? ContractManager then CPP_CONTRACT_CREATION_COST
               else CPP_CONTRACT_CALL_COST) ;;
      p ← in_ctx (getContract (msg_to m));
      out ← with_local p (msg_from m, messageValueOrZero m) (evmEthCall handler p m);
      mret (RData out)
  end.

Definition createContract (handler : Message → M Exec Result) (m : Message) : M Exec Result :=
  gas_use CPP_CONTRACT_CREATION_COST ;;
  p ← in_ctx (getContract ContractManager);
  with_local p (msg_from m, 0) (
    acc ← in_ctx (getAccount (msg_from m));
    n ← in_ctx (getNonce acc);
    let a := generateContractAddress n (msg_from m) in
    evmEthCall handler p m ;;
    t ← in_ctx (getContractType acc);
    (if decide (t = NOT_A_CONTRACT) then mret ()
     else n' ← in_ctx (getNonce acc); in_ctx (setNonce acc (wrap 64 (n' + 1)))) ;;
    mret (RAddress a)).

(** [CppContractExecutor::execute] *)
Definition cpp_execute (handler : Message → M Exec Result) (m : Message) : M Exec Result :=
  match m with
  | EncodedDelegateCall _ _ _ _ _ =>
      throw (DynamicException "Delegate call not supported for C++ contracts")
  | PackedCreate _ _ _ => createContract handler m
  | _ => callContract handler m
  end.

(** *** Precompiled contracts *)

Definition msg_input (m : Message) : list Z :=
  match m with
  | EncodedCall _ _ _ i | EncodedStaticCall _ _ i | EncodedDelegateCall _ _ _ i _ => i
  | PackedCall _ _ _ f | PackedStaticCall _ _ f => packed_input f
  | _ => []
  end.

(** [PrecompiledContractExecutor::execute(EncodedStaticCallMessage&)] *)
Definition precompiled_static (to : Address) (input : list Z) : M Exec (list Z) :=
  if to =? RANDOM_GENERATOR_ADDRESS then z ← random; mret (be_bytes 32 z)
  else
    let k := to mod 256 in
    if k =? 4 then
      gas_use (15 + (Z.of_nat (length input) + 31) / 32 * 3) ;; mret input
    else if (k =? 1) || (k =? 2) || (k =? 3) || (k =? 5) || (k =? 9) then
      g ← gets x_gas;
      let '(r, g') := precompile k input g in
      modify (with_gas g') ;; lift r
    else throw (DynamicException "Precompiled contract not found").

Definition precompiled_execute (m : Message) : M Exec Result :=
  match m with
  | EncodedDelegateCall _ _ _ _ _ =>
      throw (DynamicException "Delegate calls not allowed for precompiled contracts")
  | EncodedStaticCall _ to input => out ← precompiled_static to input; mret (RData out)
  | _ =>
      gas_use CPP_CONTRACT_CALL_COST ;;
      out ← precompiled_static (msg_to m) (msg_input m);
      mret (RData out)
  end.

(** *** The dispatcher *)

Definition transferFunds (m : Message) : M Exec unit :=
  let value := messageValueOrZero m in
  if 0 <? value then in_ctx (transferBalance (msg_from m) (msg_to m) value) else mret ().

(** A C++ call that throws marks the whole execution. *)
Definition dispatchCppCall (handler : Message → M Exec Result) (m : Message) : M Exec Result :=
  try_catch (cpp_execute handler m) (λ e, modify (with_reverted true) ;; throw e).

Definition dispatchMessage (handler : Message → M Exec Result) (m : Message) : M Exec Result :=
  match m with
  | EncodedCreate _ _ _ | EncodedSaltCreate _ _ _ _ => evm_execute handler m
  | PackedCreate _ _ _ => cpp_execute handler m
  | _ =>
      (if is_delegate m then mret () else transferFunds m) ;;
      if isPrecompiled (msg_to m) then precompiled_execute m
      else
        acc ← in_ctx (getAccount (messageCodeAddress m));
        t ← in_ctx (getContractType acc);
        match t with
        | CPP => dispatchCppCall handler m
        | EVM => evm_execute handler m
        | NOT_A_CONTRACT =>
            if isPayment m then mret (RData [])
            else throw (DynamicException "Attempt to invoke non-contract or inexistent address")
        end
  end.

Definition checkCppContractReverted : M Exec unit :=
  b ← gets cppContractReverted_;
  throw_if b (DynamicException "Reverted due to C++ call failure").

(** [MessageDispatcher::onMessage]: the checkpoint is committed last, and its
    destructor reverts it otherwise. *)
Fixpoint onMessage (fuel : nat) (m : Message) : M Exec Result :=
  match fuel with
  | O => throw undefined_behaviour
  | S fuel => λ x,
      let cp := mkCheckpoint true (length (transactions_ (x_ctx x))) in
      match (r ← dispatchMessage (onMessage fuel) m; checkCppContractReverted ;; mret r) x with
      | (Ret r, x') => (Ret r, x')
      | (Throw e, x') =>
          match in_ctx (Checkpoint_revert cp) x' with
          | (Ret _, x2) => (Throw e, x2)
          | (Throw e', x2) => (Throw e', x2)
          end
      end
  end.

(** ** What every message keeps *)

(** Entries of the journal are only added, committed values of the variables
    are kept, [caller_], [value_] and [depth_] are put back, a failed C++ call
    and the deepest error are not forgotten. *)
Definition exec_le (x x' : Exec) : Prop :=
  (cppContractReverted_ x = true → cppContractReverted_ x' = true) ∧
  depth_ x' = depth_ x ∧ (∀ p, local x' p = local x p) ∧
  host_le (x_vars x) (x_vars x') ∧ ctx_le (x_ctx x) (x_ctx x').

#[export] Instance exec_le_preorder : PreOrder exec_le.
Proof.
  split.
  - intros x. unfold exec_le. split_and!; [done..|reflexivity|reflexivity].
  - intros x y z (A1&B1&C1&D1&E1) (A2&B2&C2&D2&E2). unfold exec_le.
    split_and!; [auto|congruence|intros p; by rewrite C2|by etrans..].
Qed.

Lemma in_ctx_le {A} (m : M Ctx A) : preserves ctx_le m → preserves exec_le (in_ctx m).
Proof.
  intros Hm x. specialize (Hm (x_ctx x)). unfold in_ctx, zoom.
  destruct (m (x_ctx x)) as [r c]. cbn in *. unfold exec_le; cbn. split_and!; try done; reflexivity.
Qed.

Lemma modify_le (f : Exec → Exec) :
  (∀ x, cppContractReverted_ (f x) = cppContractReverted_ x ∧ depth_ (f x) = depth_ x ∧
        x_locals (f x) = x_locals x ∧ x_vars (f x) = x_vars x ∧ x_ctx (f x) = x_ctx x) →
  preserves exec_le (modify f).
Proof.
  intros Hf x. destruct (Hf x) as (A&B&C&D&E). cbn. unfold exec_le, local.
  rewrite A, B, C, D, E. split_and!; [done..|reflexivity|reflexivity].
Qed.

Lemma with_gas_le g : preserves exec_le (modify (with_gas g)).
Proof. by apply modify_le. Qed.

Lemma try_catch_le {A} (m : M Exec A) h :
  preserves exec_le m → (∀ e, preserves exec_le (h e)) → preserves exec_le (try_catch m h).
Proof.
  intros Hm Hh x. specialize (Hm x). unfold try_catch.
  destruct (m x) as [[a|e] x']; [done|]. cbn in Hm.
  destruct e; try done; (etrans; [exact Hm|apply Hh]).
Qed.

Lemma observe_le {A B} (m : M Exec A) (k : outcome A → M Exec B) :
  preserves exec_le m → (∀ r, preserves exec_le (k r)) → preserves exec_le (observe m k).
Proof.
  intros Hm Hk x. specialize (Hm x). unfold observe. destruct (m x) as [r x']. cbn in Hm.
  assert (exec_le x (k r x').2) by (etrans; [exact Hm|apply Hk]).
  destruct r as [a|[]]; done.
Qed.

Lemma with_depthGuard_le {A} (m : M Exec A) :
  preserves exec_le m → preserves exec_le (with_depthGuard m).
Proof.
  intros Hm x. unfold with_depthGuard, guarded, modify, mbind, M_bind.
  specialize (Hm (with_depth (depth_ x + 1) x)).
  destruct (m (with_depth (depth_ x + 1) x)) as [r x']. cbn in *.
  destruct Hm as (A1&B1&C1&D1&E1). unfold exec_le in *. cbn in *. done.
Qed.

Lemma guarded_gas_le {A} (m : M Exec A) :
  preserves exec_le m → preserves exec_le (guarded x_gas with_gas m).
Proof. intros Hm x. specialize (Hm x). unfold guarded. by destruct (m x). Qed.

Lemma local_set_local p l x q :
  local (set_local p l x) q = if decide (p = q) then l else local x q.
Proof. unfold local. cbn. rewrite lookup_insert. by case_decide. Qed.

Lemma with_local_le {A} p l (m : M Exec A) :
  preserves exec_le m → preserves exec_le (with_local p l m).
Proof.
  intros Hm x. unfold with_local, guarded, modify, mbind, M_bind.
  specialize (Hm (set_local p l x)). destruct (m (set_local p l x)) as [r x'].
  destruct Hm as (A1&B1&C1&D1&E1). unfold exec_le. cbn [snd].
  split_and!; [done|done| |done|done].
  intros q. rewrite local_set_local. case_decide as Hq; [by subst|].
  rewrite C1, local_set_local. by rewrite decide_False.
Qed.

Lemma var_le {A} y (m : M V A) :
  safe_op m → preserves exec_le (zoom x_vars with_vars (on_var y m)).
Proof.
  intros Hm x. pose proof (on_var_preserves y m Hm (x_vars x)) as H. unfold zoom.
  destruct (on_var y m (x_vars x)) as [r v]. cbn in *. unfold exec_le; cbn.
  split_and!; [done..|reflexivity].
Qed.

Lemma notify_le a : preserves exec_le (notifyEvmContract a).
Proof. apply in_ctx_le, notifyContractAt_le. Qed.

Ltac pres :=
  repeat match goal with
  | |- preserves exec_le (notifyEvmContract _) => apply notify_le
  | |- preserves _ (mbind _ _) => apply preserves_bind; [apply _| |intros ?]
  | |- preserves _ (if ?b then _ else _) => destruct b
  | |- preserves _ (match ?x with _ => _ end) => destruct x
  | |- preserves _ (try_catch _ _) => apply try_catch_le; [|intros ?]
  | |- preserves _ (observe _ _) => apply observe_le; [|intros ?]
  | |- preserves _ (with_depthGuard _) => apply with_depthGuard_le
  | |- preserves _ (with_local _ _ _) => apply with_local_le
  | |- preserves exec_le (in_ctx _) => apply in_ctx_le
  | |- preserves exec_le (modify (with_gas _)) => apply with_gas_le
  | |- preserves exec_le (modify _) => by apply modify_le
  | |- preserves _ _ => solve [auto with bdk]
  end.

Lemma gas_use_le n : preserves exec_le (gas_use n).
Proof. unfold gas_use. pres. Qed.

Lemma random_le : preserves exec_le random.
Proof. unfold random. pres. Qed.

Lemma getters_le p a :
  preserves ctx_le (getBalance p) ∧ preserves ctx_le (getNonce p) ∧
  preserves ctx_le (getCodeHash p) ∧ preserves ctx_le (getCode p) ∧
  preserves ctx_le (getContractType p) ∧ preserves ctx_le (getContract a) ∧
  preserves ctx_le (accountExists a).
Proof.
  unfold getBalance, getNonce, getCodeHash, getCode, getContractType, getContract,
    accountExists, deref.
  split_and!; pres.
Qed.

Lemma getBalance_le p : preserves ctx_le (getBalance p).
Proof. apply (getters_le p 0). Qed.
Lemma getNonce_le p : preserves ctx_le (getNonce p).
Proof. apply (getters_le p 0). Qed.
Lemma getCodeHash_le p : preserves ctx_le (getCodeHash p).
Proof. apply (getters_le p 0). Qed.
Lemma getCode_le p : preserves ctx_le (getCode p).
Proof. apply (getters_le p 0). Qed.
Lemma getContractType_le p : preserves ctx_le (getContractType p).
Proof. apply (getters_le p 0). Qed.
Lemma getContract_le a : preserves ctx_le (getContract a).
Proof. apply (getters_le (mkAccountPointer 0) a). Qed.
Lemma accountExists_le a : preserves ctx_le (accountExists a).
Proof. apply (getters_le (mkAccountPointer 0) a). Qed.
Lemma retrieve_le a k : preserves ctx_le (retrieve a k).
Proof. unfold retrieve. pres. Qed.

#[local] Hint Resolve gas_use_le random_le getBalance_le getNonce_le getCodeHash_le getCode_le
  getContractType_le getContract_le accountExists_le retrieve_le : bdk.

(** Code that calls back the dispatcher, given that the dispatcher behaves. *)
Section handler.
Context (handler : Message → M Exec Result).
Context (handler_le : ∀ m, preserves exec_le (handler m)).

Lemma vm_call_cb_le m g : preserves exec_le (vm_call_cb handler m g).
Proof. unfold vm_call_cb, gas_left_of. apply guarded_gas_le. pres. Qed.

Lemma vm_op_le o : preserves exec_le (vm_op handler o).
Proof.
  destruct o; cbn [vm_op]; try apply vm_call_cb_le;
    unfold get_code_size_cb, get_code_hash_cb, copy_code_cb, set_transient_storage_cb; pres.
Qed.

Lemma vm_run_le p : preserves exec_le (vm_run handler p).
Proof.
  induction p as [st g out|o k IH]; cbn [vm_run]; unfold vm_result, vm_status; pres. apply vm_op_le.
Qed.

Lemma executeEvmcMessage_le m b : preserves exec_le (executeEvmcMessage handler m b).
Proof. unfold executeEvmcMessage. pres. apply vm_run_le. Qed.

Lemma createContractImpl_le m b a : preserves exec_le (createContractImpl handler m b a).
Proof.
  unfold createContractImpl. pres. apply executeEvmcMessage_le.
Qed.

Lemma evm_execute_le m : preserves exec_le (evm_execute handler m).
Proof.
  destruct m; cbn [evm_execute]; pres;
    first [apply executeEvmcMessage_le | apply createContractImpl_le].
Qed.

Lemma cpp_run_le p : preserves exec_le (cpp_run handler p).
Proof.
  induction p as [out|e|y o k IH|o k IH|k IH|m k IH|k IH]; cbn [cpp_run]; pres;
    apply var_le, var_op_safe.
Qed.

Lemma evmEthCall_le p m : preserves exec_le (evmEthCall handler p m).
Proof. unfold evmEthCall. pres. apply cpp_run_le. Qed.

Lemma callContract_le m : preserves exec_le (callContract handler m).
Proof.
  destruct m; cbn [callContract]; pres; first [apply cpp_run_le | apply evmEthCall_le].
Qed.

Lemma createContract_le m : preserves exec_le (createContract handler m).
Proof. unfold createContract. pres. apply evmEthCall_le. Qed.

Lemma cpp_execute_le m : preserves exec_le (cpp_execute handler m).
Proof.
  destruct m; cbn [cpp_execute];
    first [apply callContract_le | apply createContract_le | apply preserves_throw, _].
Qed.

Lemma precompiled_static_le a i : preserves exec_le (precompiled_static a i).
Proof. unfold precompiled_static. pres. Qed.

Lemma precompiled_execute_le m : preserves exec_le (precompiled_execute m).
Proof. destruct m; cbn [precompiled_execute]; pres; apply precompiled_static_le. Qed.

Lemma dispatchCppCall_le m : preserves exec_le (dispatchCppCall handler m).
Proof.
  unfold dispatchCppCall. pres; [apply cpp_execute_le|].
  intros x. unfold exec_le. cbn. split_and!; done || reflexivity.
Qed.

Lemma dispatchMessage_le m : preserves exec_le (dispatchMessage handler m).
Proof.
  destruct m; cbn [dispatchMessage]; unfold transferFunds; pres;
    first [apply evm_execute_le | apply cpp_execute_le | apply dispatchCppCall_le
          | apply precompiled_execute_le].
Qed.
End handler.

Lemma in_ctx_Checkpoint_revert x x' :
  ctx_le (x_ctx x) (x_ctx x') → ∃ cp c2,
    in_ctx (Checkpoint_revert (mkCheckpoint true (length (transactions_ (x_ctx x))))) x'
      = (Ret cp, with_ctx c2 x') ∧
    overwritten_ c2 = overwritten_ (x_ctx x') ∧ restored (x_ctx x) c2.
Proof.
  intros H. destruct (Checkpoint_revert_le _ _ H) as (cp & c2 & Hr & ?).
  exists cp, c2. split; [|done]. unfold in_ctx, zoom. by rewrite Hr.
Qed.

Lemma in_ctx_with_ctx {A} (m : M Ctx A) x : (in_ctx m x).2 = with_ctx (m (x_ctx x)).2 x.
Proof. unfold in_ctx, zoom. by destruct (m (x_ctx x)). Qed.

(** Reverting a checkpoint taken in [x]. *)
Lemma revert_checkpoint_le x x' cp :
  cp = mkCheckpoint true (length (transactions_ (x_ctx x))) →
  exec_le x x' → exec_le x (in_ctx (Checkpoint_revert cp) x').2.
Proof.
  intros -> (A&B&C&D&E). rewrite in_ctx_with_ctx. unfold exec_le. cbn -[Checkpoint_revert].
  split_and!; [done..|].
  destruct (Checkpoint_revert_le _ _ E) as (cp & c2 & -> & _ & ?). by apply ctx_le_restored.
Qed.

Definition message_body fuel (m : Message) : M Exec Result :=
  r ← dispatchMessage (onMessage fuel) m; checkCppContractReverted ;; mret r.

Lemma onMessage_S fuel m x :
  onMessage (S fuel) m x =
  match message_body fuel m x with
  | (Ret r, x') => (Ret r, x')
  | (Throw e, x') =>
      match in_ctx (Checkpoint_revert (mkCheckpoint true (length (transactions_ (x_ctx x))))) x' with
      | (Ret _, x2) => (Throw e, x2)
      | (Throw e', x2) => (Throw e', x2)
      end
  end.
Proof. done. Qed.

Lemma onMessage_le fuel m : preserves exec_le (onMessage fuel m).
Proof.
  revert m. induction fuel as [|fuel IH]; intros m; [apply preserves_throw, _|].
  intros x. rewrite onMessage_S.
  assert (Hb : preserves exec_le (message_body fuel m)).
  { unfold message_body, checkCppContractReverted. pres. by apply dispatchMessage_le. }
  specialize (Hb x). destruct (message_body fuel m x) as [[r|e] x']; [done|]. cbn in Hb.
  pose proof (revert_checkpoint_le x x' _ eq_refl Hb) as Hr.
  destruct (in_ctx _ x') as [[]]; exact Hr.
Qed.

Lemma message_body_le fuel m : preserves exec_le (message_body fuel m).
Proof.
  unfold message_body, checkCppContractReverted. pres. apply dispatchMessage_le, onMessage_le.
Qed.

(** A C++ call that throws sets the mark, and a message that returns ends
    without it. *)
Lemma dispatchCppCall_marks h m x e x1 :
  dispatchCppCall h m x = (Throw e, x1) → e ≠ undefined_behaviour → cppContractReverted_ x1 = true.
Proof.
  unfold dispatchCppCall, try_catch. destruct (cpp_execute h m x) as [[r|e'] x2]; [done|].
  by destruct e'; intros [= <- <-].
Qed.

Lemma onMessage_Ret_unmarked fuel m x r x' :
  onMessage fuel m x = (Ret r, x') → cppContractReverted_ x' = false.
Proof.
  destruct fuel as [|fuel]; [done|]. rewrite onMessage_S.
  destruct (message_body fuel m x) as [[r1|e1] x1] eqn:Hb.
  2: { by destruct (in_ctx _ x1) as [[]]. }
  intros [= -> <-]. unfold message_body, checkCppContractReverted in Hb. by inv_run.
Qed.

(** ** Theorems *)

(** C4: a message that throws leaves the journal and the chain state of its
    start, whatever the EVM code, the C++ contracts and the nested calls did
    before: accounts (up to accounts that are all zero), storage, code, events
    and contracts, the depth of the EVM executor and the [caller_] and [value_]
    of the contracts.  A C++ contract is only lost where an EVM contract was
    deployed over it. *)
Theorem onMessage_throw_restores (fuel : nat) (m : Message) (x : Exec) (e : exn) (x' : Exec) :
  onMessage (S fuel) m x = (Throw e, x') →
  transactions_ (x_ctx x') = transactions_ (x_ctx x) ∧
  world_upto (overwritten_ (x_ctx x')) (world (x_ctx x)) (world (x_ctx x')) ∧
  depth_ x' = depth_ x ∧ ∀ p, local x' p = local x p.
Proof.
  intros Hr. pose proof (onMessage_le (S fuel) m x) as Hle. rewrite Hr in Hle. cbn in Hle.
  rewrite onMessage_S in Hr. pose proof (message_body_le fuel m x) as Hb.
  destruct (message_body fuel m x) as [[r|e1] x1]; [done|]. cbn in Hb.
  destruct Hb as (_&_&_&_&E).
  destruct (in_ctx_Checkpoint_revert x x1 E) as (cp & c2 & Hc & HD & (_ & Ht & _ & [Hw _])).
  rewrite Hc in Hr. injection Hr as -> <-. cbn. destruct Hle as (_&?&?&_).
  split_and!; done.
Qed.

(** C11: a failed C++ call cannot be hidden.  Let a call that was dispatched
    to a C++ contract throw.  Whatever runs next, an EVM interpreter or the
    contract code of a caller that caught the exception, keeps the mark; every
    message sent from then on throws; and no message in flight, whose execution
    ends after the failure, returns: so [execute] reverts all changes to safe
    variables. *)
Theorem cpp_failure_sticks (fuel : nat) (m : Message) (x : Exec) (e : exn) (x1 : Exec) :
  dispatchCppCall (onMessage fuel) m x = (Throw e, x1) → e ≠ undefined_behaviour →
  (∀ p, cppContractReverted_ (vm_run (onMessage fuel) p x1).2 = true) ∧
  (∀ p, cppContractReverted_ (cpp_run (onMessage fuel) p x1).2 = true) ∧
  (∀ f m', ∃ e' x2, onMessage f m' x1 = (Throw e', x2) ∧ cppContractReverted_ x2 = true) ∧
  (∀ f m' y r y', exec_le x1 y' → onMessage f m' y ≠ (Ret r, y')).
Proof.
  intros Hd Hub. assert (Hx1 : cppContractReverted_ x1 = true) by by eapply dispatchCppCall_marks.
  split_and!.
  - intros p. by apply (vm_run_le (onMessage fuel) (onMessage_le fuel) p x1).
  - intros p. by apply (cpp_run_le (onMessage fuel) (onMessage_le fuel) p x1).
  - intros f m'. pose proof (proj1 (onMessage_le f m' x1) Hx1) as Hx2.
    destruct (onMessage f m' x1) as [[r|e'] x2] eqn:E; cbn [snd] in Hx2; [|by eauto].
    by rewrite (onMessage_Ret_unmarked _ _ _ _ _ E) in Hx2.
  - intros f m' y r y' Hle Hr. apply onMessage_Ret_unmarked in Hr.
    by rewrite (proj1 Hle Hx1) in Hr.
Qed.

(** [copy_code] of an EVM contract copies nothing, whatever its code: the
    branch meant for C++ contracts is taken for EVM ones and looks up a C++
    contract that does not exist. *)
Theorem copy_code_of_evm_contract_is_empty (a : Address) (off size : Z) (x : Exec) :
  contractType (account (world (x_ctx x)) a) = EVM →
  contracts_ (world (x_ctx x)) !! a = None →
  (copy_code_cb a off size x).1 = Ret [].
Proof.
  intros Ht Hc. unfold copy_code_cb, try_catch, in_ctx, zoom, getAccount, getContractType, getContract.
  unfold deref, write, modify, gets, mbind, M_bind, mret, M_ret. cbn.
  rewrite decide_True by (by rewrite account_insert, decide_True). cbn. by rewrite Hc.
Qed.

(** The first value stored in a transient slot stays for the rest of the
    execution: later stores to the slot are ignored. *)
Theorem transient_store_ignored (h : Message → M Exec Result) (a : Address) (k v : Hash) (x : Exec) (u : Hash) :
  transientStorage_ x !! (a, k) = Some u →
  (vm_op h (set_transient_storage a k v) ;; vm_op h (get_transient_storage a k)) x = (Ret (RWord u), x).
Proof.
  intros Hu. unfold vm_op, set_transient_storage_cb, modify, gets, mbind, M_bind, mret, M_ret. cbn.
  rewrite Hu. cbn. rewrite Hu. by destruct x.
Qed.

(** Balances through the writes of [createContractImpl]. *)
Lemma total_set_balance w a b :
  total (with_accounts (<[a := set_balance b (account w a)]>) w) = total w - balance (account w a) + b.
Proof. apply total_insert. Qed.

Lemma total_same_balance w a acc :
  balance acc = balance (account w a) → total (with_accounts (<[a := acc]>) w) = total w.
Proof. intros E. rewrite total_insert, E. lia. Qed.

(** [keeps_total m]: [m] does not change the sum of the balances. *)
Definition keeps_total {A} (m : M Ctx A) : Prop :=
  preserves (λ c c', total (world c') = total (world c) ∧
    ∀ a, balance (account (world c') a) = balance (account (world c) a)) m.

#[local] Instance keeps_total_preorder : PreOrder (λ c c', total (world c') = total (world c) ∧
    ∀ a, balance (account (world c') a) = balance (account (world c) a)).
Proof. split; [by intros c|]. intros c1 c2 c3 [A B] [C D]. split; [congruence|]. intros a. by rewrite D. Qed.

Lemma keeps_total_write a acc c :
  balance acc = balance (account (world c) a) →
  total (world (with_world (with_accounts (<[a := acc]>)) c)) = total (world c) ∧
  ∀ b, balance (account (world (with_world (with_accounts (<[a := acc]>)) c)) b) =
       balance (account (world c) b).
Proof.
  intros E. split; [by apply total_same_balance|].
  intros b. cbn. rewrite account_insert. by case_decide; subst.
Qed.

Lemma getAccount_total a : keeps_total (getAccount a).
Proof. intros c. by apply keeps_total_write. Qed.
Lemma setNonce_total p n : keeps_total (setNonce p n).
Proof. intros c. apply (keeps_total_write _ _ c). done. Qed.
Lemma setContractType_total p t : keeps_total (setContractType p t).
Proof. intros c. apply (keeps_total_write _ _ c). done. Qed.
Lemma setCode_total p b h : keeps_total (setCode p b h).
Proof.
  intros c. unfold setCode. run_ops. split.
  - rewrite !total_same_balance; [done|done|]. by rewrite account_insert, decide_True.
  - intros a. rewrite !account_insert. by repeat case_decide; subst.
Qed.
Lemma checkEVMContract_total h b : keeps_total (checkEVMContract h b).
Proof.
  intros c. unfold checkEVMContract, gets, mbind, M_bind. by destruct (evmContracts_ _ !! h).
Qed.

Lemma notifyContractAt_total a p : keeps_total (notifyContractAt a p).
Proof.
  intros c. unfold notifyContractAt, gets, mbind, M_bind. by destruct (decide _).
Qed.

Lemma in_ctx_total {A} (m : M Ctx A) x r x' :
  keeps_total m → in_ctx m x = (r, x') →
  total (world (x_ctx x')) = total (world (x_ctx x)) ∧
  ∀ a, balance (account (world (x_ctx x')) a) = balance (account (world (x_ctx x)) a).
Proof.
  intros Hm Hr. specialize (Hm (x_ctx x)). unfold in_ctx in Hr. inv_run.
  rewrite H in Hm. exact Hm.
Qed.

Lemma getContractType_total p : keeps_total (getContractType p).
Proof. by intros c. Qed.
Lemma getNonce_total p : keeps_total (getNonce p).
Proof. by intros c. Qed.

Lemma gas_use_Ret n x x' u : gas_use n x = (Ret u, x') → n ≤ x_gas x ∧ x' = with_gas (x_gas x - n) x.
Proof.
  unfold gas_use, gets, modify, mbind, M_bind, throw. cbn. destruct (Z.ltb_spec (x_gas x) n); [done|].
  by intros [= _ <-].
Qed.

Lemma getAccount_ptr a x r x' : in_ctx (getAccount a) x = (Ret r, x') → r = mkAccountPointer a.
Proof. intros H. unfold in_ctx, getAccount, write in H. by inv_run. Qed.
Lemma getBalance_Ret p x r x' :
  in_ctx (getBalance p) x = (Ret r, x') → r = balance (account (world (x_ctx x)) (account_ p)) ∧ x' = x.
Proof.
  intros H. unfold in_ctx, getBalance, deref in H. inv_run. split; [done|]. by destruct x.
Qed.
Lemma setBalance_Ret p b x r x' :
  in_ctx (setBalance p b) x = (Ret r, x') →
  total (world (x_ctx x')) =
    total (world (x_ctx x)) - balance (account (world (x_ctx x)) (account_ p)) + b ∧
  ∀ c, balance (account (world (x_ctx x')) c) =
    if decide (account_ p = c) then b else balance (account (world (x_ctx x)) c).
Proof.
  intros H. unfold in_ctx, setBalance, deref, assign, write, push in H. inv_run. cbn.
  split; [apply total_insert|]. intros c. rewrite account_insert. by case_decide.
Qed.
(** Deploying: the balance of the new account grows by the value of the message. *)
Lemma createContractImpl_total h m b a x u x' g out :
  vm (depth_ x) m (x_gas x) b = VmDone EVMC_SUCCESS g out →
  createContractImpl h m b a x = (Ret u, x') →
  total (world (x_ctx x')) = total (world (x_ctx x)) + messageValueOrZero m ∧
  ∀ c, c ≠ a → balance (account (world (x_ctx x')) c) = balance (account (world (x_ctx x)) c).
Proof.
  intros Hvm Hr. unfold createContractImpl, executeEvmcMessage in Hr.
  cbv zeta in Hr. inv_run.
  match goal with H : to_int64 _ = _ |- _ => apply to_int64_Ret in H as -> end.
  rewrite Hvm in *. cbn [vm_run] in *. unfold vm_result, vm_status in *. inv_run.
  repeat match goal with
  | H : in_ctx (getAccount _) _ = _ |- _ =>
      let Hp := fresh in pose proof (getAccount_ptr _ _ _ _ H) as Hp;
      apply (in_ctx_total _ _ _ _ (getAccount_total _)) in H as [? ?]
  | H : in_ctx (checkEVMContract _ _) _ = _ |- _ =>
      apply (in_ctx_total _ _ _ _ (checkEVMContract_total _ _)) in H as [? ?]
  | H : in_ctx (setNonce _ _) _ = _ |- _ =>
      apply (in_ctx_total _ _ _ _ (setNonce_total _ _)) in H as [? ?]
  | H : in_ctx (setCode _ _ _) _ = _ |- _ =>
      apply (in_ctx_total _ _ _ _ (setCode_total _ _ _)) in H as [? ?]
  | H : in_ctx (setContractType _ _) _ = _ |- _ =>
      apply (in_ctx_total _ _ _ _ (setContractType_total _ _)) in H as [? ?]
  | H : in_ctx (getBalance _) _ = _ |- _ => apply getBalance_Ret in H as [-> ->]
  | H : in_ctx (setBalance _ _) _ = _ |- _ => apply setBalance_Ret in H as [? ?]
  | H : notifyEvmContract _ _ = _ |- _ =>
      apply (in_ctx_total _ _ _ _ (notifyContractAt_total _ _)) in H as [? ?]
  end; inv_checked; subst. cbn [account_] in *.
  split; [cbn in *; lia|]. intros c Hc.
  repeat match goal with H : ∀ c, balance _ = _ |- _ => rewrite !H; clear H end.
  by rewrite decide_False.
Qed.

Lemma with_depthGuard_Ret {A} (m : M Exec A) x r x' :
  with_depthGuard m x = (Ret r, x') →
  ∃ x2, m (with_depth (depth_ x + 1) x) = (Ret r, x2) ∧ x' = with_depth (depth_ x) x2.
Proof.
  unfold with_depthGuard, guarded, modify, mbind, M_bind.
  destruct (m _) as [r2 x2] eqn:E. intros [= -> <-]. eauto.
Qed.

Lemma in_ctx_frame {A} (m : M Ctx A) x r x' :
  in_ctx m x = (r, x') → depth_ x' = depth_ x ∧ x_gas x' = x_gas x.
Proof. intros H. unfold in_ctx in H. by inv_run. Qed.

(** The nonce of a creator that is a contract goes up; balances stay. *)
Lemma bump_nonce_total p t x u x' :
  (if decide (t = NOT_A_CONTRACT) then mret ()
   else n' ← in_ctx (getNonce p); in_ctx (setNonce p (wrap 64 (n' + 1)))) x = (Ret u, x') →
  total (world (x_ctx x')) = total (world (x_ctx x)) ∧
  ∀ a, balance (account (world (x_ctx x')) a) = balance (account (world (x_ctx x)) a).
Proof.
  intros H. destruct (decide _) as [Ht|Ht]; inv_run; [done|].
  match goal with H1 : in_ctx (getNonce _) _ = _ |- _ =>
    apply (in_ctx_total _ _ _ _ (getNonce_total _)) in H1 as [A B] end.
  apply (in_ctx_total _ _ _ _ (setNonce_total _ _)) in H as [C D].
  split; [congruence|]. intros a. by rewrite D.
Qed.

(** Deploying an EVM contract with a value creates money: the value is
    credited to the new account and debited from nobody, so the sum of all
    native balances grows by it (init code that calls nothing). *)
Theorem evm_create_mints_value (fuel : nat) (from : Address) (v : Z) (b : list Z)
    (x x' : Exec) (r : Result) (g : Z) (out : list Z) :
  vm (depth_ x + 1) (EncodedCreate from v b) (x_gas x - EVM_CONTRACT_CREATION_COST) b =
    VmDone EVMC_SUCCESS g out →
  onMessage (S fuel) (EncodedCreate from v b) x = (Ret r, x') →
  total (world (x_ctx x')) = total (world (x_ctx x)) + v ∧
  (r ≠ RAddress from →
   balance (account (world (x_ctx x')) from) = balance (account (world (x_ctx x)) from)).
Proof.
  intros Hvm. rewrite onMessage_S.
  destruct (message_body fuel _ x) as [[r1|e1] x1] eqn:Hb.
  2: { by destruct (in_ctx _ x1) as [[]]. }
  intros [= -> <-]. unfold message_body, checkCppContractReverted in Hb. cbn [dispatchMessage evm_execute] in Hb.
  inv_run. apply gas_use_Ret in H2 as [_ ->]. apply with_depthGuard_Ret in H as (x2 & H & ->).
  inv_run.
  repeat match goal with
  | H : in_ctx _ ?x = (_, ?y) |- _ =>
      let E := fresh "E" in pose proof (in_ctx_frame _ _ _ _ H) as E;
      let m := lazymatch type of H with in_ctx ?m _ = _ => m end in
      assert (keeps_total m) as Hk by
        (first [apply getAccount_total | apply getNonce_total | apply getContractType_total
               | apply setNonce_total]);
      apply (in_ctx_total _ _ _ _ Hk) in H as [? ?]; clear Hk
  end.
  match goal with H : createContractImpl _ _ _ _ _ = _ |- _ =>
    apply createContractImpl_total with (g := g) (out := out) in H as [Htot Hbal] end.
  2: { destruct_and!. cbn in *. replace (depth_ x5) with (depth_ x + 1) by congruence.
       replace (x_gas x5) with (x_gas x - EVM_CONTRACT_CREATION_COST) by congruence. done. }
  match goal with H : (if _ then _ else _) _ = _ |- _ =>
    apply bump_nonce_total in H as [Htot2 Hbal2] end.
  cbn in *. split; [lia|]. intros Hne.
  rewrite Hbal2.
  repeat match goal with H : ∀ a, balance (account (world (x_ctx ?y)) a) = _
    |- balance (account (world (x_ctx ?y)) _) = _ => rewrite H; clear H end; try done.
  rewrite Hbal by (intros E'; by rewrite <- E' in Hne).
  repeat match goal with H : ∀ a, balance (account (world (x_ctx ?y)) a) = _
    |- balance (account (world (x_ctx ?y)) _) = _ => rewrite H; clear H end; done.
Qed.
End messages.
