(* ===== verification/AnyVar.v ===== *)
(** * The variables of a contract, of any type

    A contract mixes safe variables of several classes, and
    [ContractStack::usedVars_] holds references to their common base.  [AnyVar]
    is that mix; its [SafeVar] and [VarOps] instances collect the ones of the
    variable files, so that the host's theorems apply to contracts that use all
    of them.  What does not keep the committed value is left out, because the
    host's theorems are false of it: [SafeTuple] ([tuple_revert_last_only]), the
    hinted insertions of a map ([map_insert_hint_revert_deletes]) and the swap of
    a multiset ([mset_swap_unregistered]). *)

From S2P Require Import Prelude CheckedInt SafeBase SafeScalars SafeUint SafeInt.
From S2P Require Import SafeMap SafeVector SafeArray SafeString SafeMultiSet ExecutionContext Messages.

(** A variable: the width is the template argument [Size]. *)
Inductive AnyVar :=
| AUint (w : Z) (x : Scalar Z)
| AInt (w : Z) (x : Scalar Z)
| ABool (x : SafeBool)
| AAddress (x : SafeAddress)
| AMap (x : SafeMap Z Z)
| AVector (x : SafeVector Z)
| AArray (x : SafeArray Z)
| AString (x : SafeString)
| AMultiSet (x : SafeMultiSet Z).

Inductive AnyVal :=
| VUintVal (w : Z) (z : Z)
| VIntVal (w : Z) (z : Z)
| VBoolVal (b : bool)
| VAddressVal (a : Address)
| VMapVal (m : gmap Z Z)
| VVectorVal (l : list Z)
| VArrayVal (l : list Z)
| VStringVal (s : list Ascii.ascii)
| VMultiSetVal (l : list Z).

(** An operation of a class, on a variable of that class. *)
Inductive AnyOp :=
| OpUint (o : UintOp)
| OpInt (o : IntOp)
| OpBool (b : bool)
| OpAddress (a : Address)
| OpMap (o : MapOp Z Z)
| OpVector (o : VecOp Z)
| OpArray (o : ArrOp (T := Z))
| OpString (m : M SafeString unit) (Hm : str_mutator m)
| OpMultiSet (cmp : Z → Z → bool) (o : MsetOp Z).

(** Split off the equality of widths of the integer classes. *)
Ltac open_width :=
  match goal with H : _ = _ ∧ sv_rel _ _ |- _ => destruct H as [<- H] | _ => idtac end.

Section any.
Context {BI : BoostInt}.

(** Run code of one class under its constructor. *)
Definition wrapped {V A} (mk : V → AnyVar) (m : M V A) (x : V) : outcome A * AnyVar :=
  let '(r, x') := m x in (r, mk x').

Definition any_base (v : AnyVar) : SafeBase :=
  match v with
  | AUint _ x | AInt _ x => sv_base x
  | ABool x => sv_base x
  | AAddress x => sv_base x
  | AMap x => sv_base x
  | AVector x => sv_base x
  | AArray x => sv_base x
  | AString x => sv_base x
  | AMultiSet x => sv_base x
  end.

Definition any_get (v : AnyVar) : AnyVal :=
  match v with
  | AUint w x => VUintVal w (sv_get x)
  | AInt w x => VIntVal w (sv_get x)
  | ABool x => VBoolVal (sv_get x)
  | AAddress x => VAddressVal (sv_get x)
  | AMap x => VMapVal (sv_get x)
  | AVector x => VVectorVal (sv_get x)
  | AArray x => VArrayVal (sv_get x)
  | AString x => VStringVal (sv_get x)
  | AMultiSet x => VMultiSetVal (sv_get x)
  end.

(** The virtual [commit] and [revert] of [SafeBase]. *)
Definition any_commit : M AnyVar unit := λ v,
  match v with
  | AUint w x => wrapped (AUint w) sv_commit x
  | AInt w x => wrapped (AInt w) sv_commit x
  | ABool x => wrapped ABool sv_commit x
  | AAddress x => wrapped AAddress sv_commit x
  | AMap x => wrapped AMap sv_commit x
  | AVector x => wrapped AVector sv_commit x
  | AArray x => wrapped AArray sv_commit x
  | AString x => wrapped AString sv_commit x
  | AMultiSet x => wrapped AMultiSet sv_commit x
  end.
Definition any_revert : M AnyVar unit := λ v,
  match v with
  | AUint w x => wrapped (AUint w) sv_revert x
  | AInt w x => wrapped (AInt w) sv_revert x
  | ABool x => wrapped ABool sv_revert x
  | AAddress x => wrapped AAddress sv_revert x
  | AMap x => wrapped AMap sv_revert x
  | AVector x => wrapped AVector sv_revert x
  | AArray x => wrapped AArray sv_revert x
  | AString x => wrapped AString sv_revert x
  | AMultiSet x => wrapped AMultiSet sv_revert x
  end.

Definition any_rel (o : AnyVal) (v : AnyVar) : Prop :=
  match o, v with
  | VUintVal w z, AUint w' x => w = w' ∧ sv_rel z x
  | VIntVal w z, AInt w' x => w = w' ∧ sv_rel z x
  | VBoolVal b, ABool x => sv_rel b x
  | VAddressVal a, AAddress x => sv_rel a x
  | VMapVal m, AMap x => sv_rel m x
  | VVectorVal l, AVector x => sv_rel l x
  | VArrayVal l, AArray x => sv_rel l x
  | VStringVal s, AString x => sv_rel s x
  | VMultiSetVal l, AMultiSet x => sv_rel l x
  | _, _ => False
  end.

Lemma any_revert_ok o v : any_rel o v → ∃ v',
  any_revert v = (Ret (), v') ∧ any_get v' = o ∧ any_rel o v' ∧
  any_base v' = unregister (any_base v).
Proof.
  destruct o, v; cbn -[sv_rel sv_revert sv_get sv_base]; intros H; try done;
    open_width;
    destruct (sv_revert_ok _ _ H) as (x' & Hr & Hg & Hrel & Hb);
    eexists; unfold wrapped; rewrite Hr;
    (split; [reflexivity|]); cbn -[sv_rel sv_get sv_base]; rewrite Hg, Hb; auto.
Qed.

Lemma any_commit_ok o v : any_rel o v → ∃ v',
  any_commit v = (Ret (), v') ∧ any_get v' = any_get v ∧ any_rel (any_get v) v' ∧
  any_base v' = unregister (any_base v).
Proof.
  destruct o, v; cbn -[sv_rel sv_commit sv_get sv_base]; intros H; try done;
    open_width;
    destruct (sv_commit_ok _ _ H) as (x' & Hr & Hg & Hrel & Hb);
    eexists; unfold wrapped; rewrite Hr;
    (split; [reflexivity|]); cbn -[sv_rel sv_get sv_base]; rewrite Hg, Hb; auto.
Qed.

Lemma any_unregistered o v : any_rel o v → tracked (any_base v) = true →
  registered_ (any_base v) = false → any_get v = o.
Proof.
  destruct o, v; cbn -[sv_rel sv_get sv_base]; intros H Ht Hr; try done;
    open_width; f_equal; by apply sv_unregistered.
Qed.

#[export] Instance any_var : SafeVar AnyVar AnyVal := {|
  sv_base := any_base;
  sv_get := any_get;
  sv_commit := any_commit;
  sv_revert := any_revert;
  sv_rel := any_rel;
  sv_revert_ok := any_revert_ok;
  sv_commit_ok := any_commit_ok;
  sv_unregistered := any_unregistered;
|}.

(** An operation on a variable of another class is not a C++ program. *)
Definition any_run (o : AnyOp) : M AnyVar unit := λ v,
  match o, v with
  | OpUint o, AUint w x => wrapped (AUint w) (uint_run w o) x
  | OpInt o, AInt w x => wrapped (AInt w) (int_run w o) x
  | OpBool b, ABool x => wrapped ABool (bool_assign b) x
  | OpAddress a, AAddress x => wrapped AAddress (address_assign a) x
  | OpMap o, AMap x => wrapped AMap (map_run o) x
  | OpVector o, AVector x => wrapped AVector (vec_run o) x
  | OpArray o, AArray x => wrapped AArray (arr_run o) x
  | OpString m _, AString x => wrapped AString m x
  | OpMultiSet cmp o, AMultiSet x => wrapped AMultiSet (mset_run cmp o) x
  | _, v => (Throw undefined_behaviour, v)
  end.

Lemma int_run_safe w o : safe_op (int_run w o).
Proof.
  destruct o; cbn [int_run]; apply checked_assign_safe.
Qed.

(** A class whose operations are safe is safe under its constructor. *)
Lemma wrapped_safe {V T} {SV : SafeVar V T} (mk : V → AnyVar) (m : M V unit) x :
  (∀ x, any_base (mk x) = sv_base x) →
  (∀ o x', sv_le x x' → any_rel o (mk x) → any_rel o (mk x')) →
  safe_op m → sv_le (mk x) (wrapped mk m x).2.
Proof.
  intros Hb Hr Hm. specialize (Hm x). unfold wrapped. destruct (m x) as [r x']. split.
  - intros o. cbn. by apply Hr.
  - cbn. rewrite !Hb. apply Hm.
Qed.

Lemma any_run_safe o : safe_op (any_run o).
Proof.
  intros v. unfold any_run.
  destruct o as [o|o|b|a|o|o|o|m Hm|cmp o], v as [w x|w x|x|x|x|x|x|x|x]; try reflexivity;
    (apply wrapped_safe; [done | intros [] x' [Hx _]; cbn; try done; (apply Hx || (intros [-> ?]; split; [done|]; by apply Hx)) | ]).
  - apply uint_run_safe.
  - apply int_run_safe.
  - apply mark_assign_safe.
  - apply mark_assign_safe.
  - apply map_run_safe.
  - apply vec_run_safe.
  - apply arr_run_safe.
  - by apply str_mutator_ok.
  - apply mset_run_safe.
Qed.

#[export] Instance any_ops : VarOps AnyVar AnyVal := {|
  VarOp := AnyOp;
  VarRes := unit;
  var_op := any_run;
  var_op_safe := any_run_safe;
|}.
End any.
