(* ===== verification/ContractHost.v ===== *)
(** * The contract host: one transaction as a unit

    Models [ContractHost] (src/contract/contracthost.{h,cpp}): [execute] and
    [simulate], and the destructor that commits or reverts the used variables
    and the execution context, hands new contracts to the dump manager and
    events to the event database. *)

From S2P Require Import Prelude CheckedInt SafeBase SafeScalars SafeUint.
From S2P Require Import ExecutionContext Messages AnyVar.

Section host.
Context {BI : BoostInt} {V T : Type} {SV : SafeVar V T} {VO : VarOps V T} {EX : Externals}.

(** The members of [ContractHost] that change: the execution it owns,
    [mustRevert_], the contracts pushed to [manager_] and the events put in
    [storage_.events()]. *)
Record Host := mkHost {
  h_exec : Exec (V := V);
  mustRevert_ : bool;
  h_dumpables : list nat;
  h_events : list Event;
}.

Definition with_exec x h := mkHost x (mustRevert_ h) (h_dumpables h) (h_events h).
Definition with_mustRevert b h := mkHost (h_exec h) b (h_dumpables h) (h_events h).

Definition in_exec {A} (m : M (Exec (V := V)) A) : M Host A := zoom h_exec with_exec m.

(** The body of the [try] of [execute]. *)
Definition execute_body (fuel : nat) (m : Message) : M (Exec (V := V)) Result :=
  gas_use CONTRACT_EXECUTION_COST ;; onMessage fuel m.

Definition execute (fuel : nat) (m : Message) : M Host Result := λ h,
  match in_exec (execute_body fuel m) (with_mustRevert false h) with
  | (Ret r, h') => (Ret r, h')
  | (Throw e, h') => (Throw e, with_mustRevert true h')
  end.

Definition simulate (fuel : nat) (m : Message) : M Host Result :=
  r ← execute fuel m; modify (with_mustRevert true) ;; mret r.

Definition in_vars {A} (m : M (HostVars V) A) : M Host A := in_exec (zoom x_vars with_vars m).

(** The loops over [getNewContracts()] and [getEvents()]. *)
Definition publish (h : Host) : Host :=
  let w := world (x_ctx (h_exec h)) in
  mkHost (h_exec h) (mustRevert_ h)
    (h_dumpables h ++ omap snd (newContracts_ w))
    (h_events h ++ events_ w).

(** [~ContractHost()] *)
Definition finish : M Host unit :=
  b ← gets mustRevert_;
  if (b : bool) then
    in_vars (finish_vars true) ;;
    in_exec (in_ctx revert)
  else
    in_vars (finish_vars false) ;;
    modify publish ;;
    in_exec (in_ctx commit).

(** A host that has just been built, on variables without uncommitted changes. *)
Definition host_fresh (h : Host) : Prop :=
  host_clean (x_vars (h_exec h)) ∧ transactions_ (x_ctx (h_exec h)) = [] ∧
  events_ (world (x_ctx (h_exec h))) = [] ∧ newContracts_ (world (x_ctx (h_exec h))) = [].

(** ** Lemmas *)

Lemma execute_body_le fuel m : preserves exec_le (execute_body fuel m).
Proof. apply preserves_bind; [apply _|apply gas_use_le|intros _; apply onMessage_le]. Qed.

Lemma execute_run fuel m h :
  let '(r, x') := execute_body fuel m (h_exec h) in
  execute fuel m h = (r, mkHost x' (negb (returns r)) (h_dumpables h) (h_events h)).
Proof.
  unfold execute, in_exec, zoom. cbn. by destruct (execute_body fuel m (h_exec h)) as [[] ?].
Qed.

(** The destructor of a host that must revert. *)
Lemma finish_reverts h x' ds es :
  host_fresh h → exec_le (h_exec h) x' →
  ∃ h2, finish (mkHost x' true ds es) = (Ret (), h2) ∧
    values (x_vars (h_exec h2)) = values (x_vars (h_exec h)) ∧
    world_upto (overwritten_ (x_ctx x')) (world (x_ctx (h_exec h))) (world (x_ctx (h_exec h2))) ∧
    transactions_ (x_ctx (h_exec h2)) = [] ∧
    h_dumpables h2 = ds ∧ h_events h2 = es ∧
    host_clean (mkHostVars (vars (x_vars (h_exec h2))) []).
Proof.
  intros (Hc & Ht & He & Hn) (_&_&_&Hv&Hle).
  destruct (finish_revert _ _ (Hv _ (host_clean_inv _ Hc))) as (v' & Hfin & Hvals & Hclean).
  destruct (revert_le _ _ Ht Hle) as (c2 & Hrev & Ht2 & Hw).
  eexists. split.
  { unfold finish, in_vars, in_exec, in_ctx, zoom, gets, mbind, M_bind. cbn.
    rewrite Hfin. cbn. rewrite Hrev. done. }
  cbn. split_and!; try done.
  destruct (world (x_ctx (h_exec h))); cbn in *; subst. exact Hw.
Qed.

(** The destructor of a host that commits. *)
Lemma finish_commits h x' ds es :
  host_fresh h → exec_le (h_exec h) x' →
  ∃ h2, finish (mkHost x' false ds es) = (Ret (), h2) ∧
    values (x_vars (h_exec h2)) = values (x_vars x') ∧
    host_clean (mkHostVars (vars (x_vars (h_exec h2))) []) ∧
    world (x_ctx (h_exec h2)) = clear_vectors (world (x_ctx x')) ∧
    transactions_ (x_ctx (h_exec h2)) = [] ∧
    h_dumpables h2 = ds ++ omap snd (newContracts_ (world (x_ctx x'))) ∧
    h_events h2 = es ++ events_ (world (x_ctx x')).
Proof.
  intros (Hc & Ht & He & Hn) (_&_&_&Hv&_).
  destruct (finish_commit _ _ (Hv _ (host_clean_inv _ Hc))) as (v' & Hfin & Hvals & Hclean).
  eexists. split.
  { unfold finish, in_vars, in_exec, in_ctx, zoom, gets, mbind, M_bind. cbn.
    rewrite Hfin. cbn. done. }
  cbn. done.
Qed.

(** ** Theorems *)


(** [simulate] (used for [eth_call] and gas estimation) changes nothing:
    variables, chain state, published contracts and events are as before,
    whether the simulated message returns or throws (but a C++ contract over
    which the message deployed an EVM contract is lost). *)
Theorem simulate_changes_nothing (fuel : nat) (m : Message) (h : Host) :
  host_fresh h →
  ∃ h2, finish (simulate fuel m h).2 = (Ret (), h2) ∧
    values (x_vars (h_exec h2)) = values (x_vars (h_exec h)) ∧
    world_upto (overwritten_ (x_ctx (h_exec (simulate fuel m h).2))) (world (x_ctx (h_exec h))) (world (x_ctx (h_exec h2))) ∧
    h_dumpables h2 = h_dumpables h ∧ h_events h2 = h_events h.
Proof.
  intros Hf. pose proof (execute_run fuel m h) as Hr. pose proof (execute_body_le fuel m (h_exec h)) as Hle.
  destruct (execute_body fuel m (h_exec h)) as [r x']. cbn in Hle.
  assert (Hs : (simulate fuel m h).2 = mkHost x' true (h_dumpables h) (h_events h)).
  { unfold simulate, mbind, M_bind. rewrite Hr. by destruct r. }
  rewrite Hs. cbn.
  destruct (finish_reverts h x' (h_dumpables h) (h_events h) Hf Hle) as (h2 & ?&?&?&?&?&?&?).
  exists h2. done.
Qed.
End host.

(** ** A concrete chain for the examples

    Contract object 1 lives at address 100 and owns the 256-bit variable 0; a
    call with input [1] changes the variable, moves coins and throws, any other
    call changes it and returns.  Init code uses half of its gas and returns the
    code [254]. *)
Definition demo : Externals (V := AnyVar) (VO := any_ops (BI := boost_ref)) := {|
  vm _ _ g _ := VmDone EVMC_SUCCESS (g / 2) [254];
  cpp_code _ m := CppVar (VO := any_ops (BI := boost_ref)) 0 (OpUint (UAdd 5)) (λ _,
    CppContext (OTransferBalance 5 100 3) (λ _,
      match m with
      | EncodedCall _ _ _ [1] => CppThrow (DynamicException "boom")
      | _ => CppReturn [42]
      end));
  cpp_is _ _ := true;
  contractName _ := [];
  sha3 l := be_value l mod 2 ^ 256;
  precompile _ _ g := (Ret [], g);
  packed_input _ := [];
  error_data _ := [];
  decode_error _ := Ret [];
  rpc_trace := true;
|}.

Definition demo_world : World :=
  mkWorld {[ 5 := mkAccount 1000 0 0 None NOT_A_CONTRACT; 100 := mkAccount 0 1 0 None CPP ]} ∅
    {[ 100 := Some 1%nat ]} ∅ [] [].
Definition demo_exec : Exec (V := AnyVar) :=
  mkExec (mkCtx (mkEnv 0 0 0 0 0 0 0 0 0 0 true) demo_world [] ∅)
    (mkHostVars {[ 0%nat := AUint 256 (mkScalar (mkSafeBase true false true) 7 7) ]} [])
    1000000 false 0 ∅ 0 ∅ None.
Definition demo_host : Host (V := AnyVar) := mkHost demo_exec true [] [].

Lemma demo_host_fresh : host_fresh demo_host.
Proof.
  split; [split; [done|]|done]. intros x v.
  cbn. intros [<- <-]%lookup_singleton_Some. split_and!; done.
Qed.


Lemma simulate_changes_nothing_witness :
  ∃ h2, finish
      (simulate (EX := demo) (BI := boost_ref) 2 (EncodedCall 5 100 0 [2]) demo_host).2 = (Ret (), h2) ∧
    values (x_vars (h_exec h2)) = {[ 0%nat := VUintVal 256 7 ]}.
Proof.
  destruct (simulate_changes_nothing (EX := demo) (BI := boost_ref) 2 (EncodedCall 5 100 0 [2])
    demo_host demo_host_fresh) as (h2 & Hf & Hv & _).
  exists h2. split; [exact Hf|]. rewrite Hv. vm_compute. reflexivity.
Defined.

(** The theorems of the dispatcher on the same chain. *)
Lemma onMessage_throw_restores_witness :
  let r := onMessage (EX := demo) (BI := boost_ref) 1 (EncodedCall 5 100 10 [1]) demo_exec in
  r.1 = Throw (VMExecutionError []) ∧ world (x_ctx r.2) ≡ demo_world.
Proof.
  intros r. assert (E : r.1 = Throw (VMExecutionError [])) by (vm_compute; reflexivity).
  assert (D : overwritten_ (x_ctx r.2) = ∅) by (vm_compute; reflexivity).
  split; [exact E|]. symmetry. apply world_upto_empty. rewrite <- D.
  apply (onMessage_throw_restores (EX := demo) (BI := boost_ref) 0 (EncodedCall 5 100 10 [1])
    demo_exec (VMExecutionError []) r.2).
  rewrite <- E. apply surjective_pairing.
Defined.

Lemma cpp_failure_sticks_witness :
  let r := dispatchCppCall (EX := demo) (BI := boost_ref) (onMessage (EX := demo) (BI := boost_ref) 1)
    (EncodedCall 5 100 10 [1]) demo_exec in
  r.1 = Throw (VMExecutionError []) ∧
  ∃ e x2, onMessage (EX := demo) (BI := boost_ref) 1 (EncodedCall 5 100 10 [2]) r.2 = (Throw e, x2) ∧
    cppContractReverted_ x2 = true.
Proof.
  intros r. assert (E : r.1 = Throw (VMExecutionError [])) by (vm_compute; reflexivity).
  split; [exact E|].
  apply (cpp_failure_sticks (EX := demo) (BI := boost_ref) 1 (EncodedCall 5 100 10 [1])
    demo_exec (VMExecutionError []) r.2); [|done].
  rewrite <- E. apply surjective_pairing.
Defined.

Lemma evm_create_mints_value_witness :
  let r := onMessage (EX := demo) (BI := boost_ref) 1 (EncodedCreate 5 77 [1; 2; 3]) demo_exec in
  total (world (x_ctx r.2)) = total demo_world + 77.
Proof.
  intros r.
  assert (E : ∃ a, r.1 = Ret (RAddress a)) by (eexists; vm_compute; reflexivity).
  destruct E as [a E].
  apply (evm_create_mints_value (EX := demo) (BI := boost_ref) 0 5 77 [1; 2; 3] demo_exec r.2
    (RAddress a) 450000 [254] eq_refl).
  rewrite <- E. apply surjective_pairing.
Defined.

Lemma copy_code_of_evm_contract_is_empty_witness :
  let w := mkWorld {[ 9 := mkAccount 0 1 3 (Some [1; 2; 3]) EVM ]} ∅ ∅ ∅ [] [] in
  let x := with_ctx (mkCtx (mkEnv 0 0 0 0 0 0 0 0 0 0 true) w [] ∅) demo_exec in
  (copy_code_cb (EX := demo) 9 0 3 x).1 = Ret [].
Proof. apply (copy_code_of_evm_contract_is_empty (EX := demo) 9 0 3); vm_compute; reflexivity. Defined.

Lemma transient_store_ignored_witness :
  let x := with_transient {[ (9, 1) := 10 ]} demo_exec in
  (vm_op (EX := demo) (BI := boost_ref) (λ _, throw OutOfGas) (set_transient_storage 9 1 20) ;;
   vm_op (EX := demo) (BI := boost_ref) (λ _, throw OutOfGas) (get_transient_storage 9 1)) x
  = (Ret (RWord 10), x).
Proof. apply (transient_store_ignored (EX := demo) (BI := boost_ref)). vm_compute. reflexivity. Defined.
