(* ===== verification/Gas.v ===== *)
(** * Gas accounting

    [Gas::use] (src/contract/gas.h) only takes gas away, nested EVM calls work on
    a [Gas] object of their own, and the interpreter reports what it left.  This
    file shows that a message never ends with more gas than it had, which the
    fee computation of [State::processTransaction] relies on. *)

From S2P Require Import Prelude CheckedInt SafeBase ExecutionContext Messages AnyVar ContractHost.

(** The EVMC contract of an interpreter run with [g] gas: it does not report
    more gas left than it was given, nor a negative amount. *)
Fixpoint vm_gas_ok (g : Z) (p : VmProg) : Prop :=
  match p with
  | VmDone _ gas_left _ => 0 ≤ gas_left ≤ g
  | VmAsk _ k => ∀ r, vm_gas_ok g (k r)
  end.

Section gas.
Context {BI : BoostInt} {V T : Type} {SV : SafeVar V T} {VO : VarOps V T} {EX : Externals}.

(** What is assumed of evmone and of the cryptographic precompiles. *)
Class GasOk := {
  vm_ok : ∀ d m g b, 0 ≤ g → vm_gas_ok g (vm d m g b);
  precompile_ok : ∀ k i g, 0 ≤ g → 0 ≤ (precompile k i g).2 ≤ g;
}.
Context {GO : GasOk}.

Definition gas_le (x x' : Exec (V := V)) : Prop := 0 ≤ x_gas x → 0 ≤ x_gas x' ≤ x_gas x.

#[export] Instance gas_le_preorder : PreOrder gas_le.
Proof.
  split; [intros x; unfold gas_le; lia|]. intros x y z Hxy Hyz Hx. unfold gas_le in *.
  specialize (Hxy Hx). lia.
Qed.

(** Code that does not touch the gas. *)
Definition same_gas {A} (m : M (Exec (V := V)) A) : Prop := ∀ x, x_gas (m x).2 = x_gas x.

Lemma same_gas_le {A} (m : M (Exec (V := V)) A) : same_gas m → preserves gas_le m.
Proof. intros Hm x. unfold gas_le. rewrite Hm. lia. Qed.

Lemma in_ctx_same {A} (m : M Ctx A) : same_gas (in_ctx m).
Proof. intros x. unfold in_ctx, zoom. by destruct (m (x_ctx x)). Qed.

Lemma gas_bind {A B} (m : M (Exec (V := V)) A) (k : A → M Exec B) :
  preserves gas_le m → (∀ a, preserves gas_le (k a)) → preserves gas_le (m ≫= k).
Proof. apply preserves_bind, _. Qed.

Lemma same_bind {A B} (m : M (Exec (V := V)) A) (k : A → M Exec B) :
  same_gas m → (∀ a, same_gas (k a)) → same_gas (m ≫= k).
Proof.
  intros Hm Hk x. specialize (Hm x). unfold mbind, M_bind.
  destruct (m x) as [[a|e] x1]; cbn in *; [|done]. by rewrite Hk.
Qed.

Lemma same_try {A} (m : M (Exec (V := V)) A) h :
  same_gas m → (∀ e, same_gas (h e)) → same_gas (try_catch m h).
Proof.
  intros Hm Hh x. specialize (Hm x). unfold try_catch. destruct (m x) as [[a|e] x']; [done|].
  cbn in Hm. destruct e; try done; by rewrite Hh.
Qed.

Lemma gas_try {A} (m : M (Exec (V := V)) A) h :
  preserves gas_le m → (∀ e, preserves gas_le (h e)) → preserves gas_le (try_catch m h).
Proof.
  intros Hm Hh x. specialize (Hm x). unfold try_catch.
  destruct (m x) as [[a|e] x']; [done|]. cbn in Hm.
  destruct e; try done; (etrans; [exact Hm|apply Hh]).
Qed.

Lemma gas_observe {A B} (m : M (Exec (V := V)) A) (k : outcome A → M Exec B) :
  preserves gas_le m → (∀ r, preserves gas_le (k r)) → preserves gas_le (observe m k).
Proof.
  intros Hm Hk x. specialize (Hm x). unfold observe. destruct (m x) as [r x']. cbn in Hm.
  assert (gas_le x (k r x').2) by (etrans; [exact Hm|apply Hk]).
  destruct r as [a|[]]; done.
Qed.

(** A guard object that restores something else than the gas. *)
Lemma gas_guarded {A B} (save : Exec (V := V) → B) restore (m : M Exec A) :
  (∀ b x, x_gas (restore b x) = x_gas x) → preserves gas_le m →
  preserves gas_le (guarded save restore m).
Proof.
  intros Hr Hm x. specialize (Hm x). unfold guarded. destruct (m x) as [r x']. cbn in *.
  unfold gas_le in *. by rewrite Hr.
Qed.

Lemma gas_gas_use n : 0 ≤ n → preserves gas_le (gas_use n).
Proof.
  intros Hn x Hx. unfold gas_use, gets, modify, mbind, M_bind, throw. cbn.
  destruct (Z.ltb_spec (x_gas x) n); cbn; lia.
Qed.

Lemma random_same : same_gas random.
Proof. by intros x. Qed.

End gas.

(** Split code into steps whose effect on the gas is known. *)
Ltac gas :=
  repeat match goal with
  | |- preserves gas_le (mbind _ _) => apply gas_bind; [|intros ?]
  | |- same_gas (mbind _ _) => apply same_bind; [|intros ?]
  | |- preserves gas_le (in_ctx _) => apply same_gas_le, in_ctx_same
  | |- same_gas (in_ctx _) => apply in_ctx_same
  | |- same_gas (try_catch _ _) => apply same_try; [|intros ?]
  | |- preserves gas_le (try_catch _ _) => apply gas_try; [|intros ?]
  | |- preserves gas_le (observe _ _) => apply gas_observe; [|intros ?]
  | |- preserves gas_le (with_depthGuard _) => apply gas_guarded; [done|]
  | |- preserves gas_le (with_local _ _ _) => apply gas_guarded; [done|]
  | |- preserves gas_le (gas_use _) => apply gas_gas_use
  | |- preserves gas_le random => apply same_gas_le, random_same
  | |- preserves gas_le (gets _) => apply same_gas_le; done
  | |- preserves gas_le (lift _) => apply same_gas_le; done
  | |- preserves gas_le (mret _) => apply same_gas_le; done
  | |- preserves gas_le (throw _) => apply same_gas_le; done
  | |- preserves gas_le (throw_if _ _) => apply preserves_throw_if, _
  | |- preserves gas_le (notifyEvmContract _) => apply same_gas_le, in_ctx_same
  | |- preserves gas_le (modify (with_reverted _)) => apply same_gas_le; done
  | |- preserves gas_le (modify (with_depth _)) => apply same_gas_le; done
  | |- same_gas (modify (with_deepestError _)) => done
  | |- same_gas (lift _) => done
  | |- preserves gas_le (modify (set_local _ _)) => apply same_gas_le; done
  | |- same_gas (mret _) => done
  | |- same_gas (throw _) => done
  | |- same_gas (gets _) => done
  | |- same_gas (set_transient_storage_cb _ _ _) => done
  | |- preserves gas_le (if ?b then _ else _) => destruct b
  | |- same_gas (if ?b then _ else _) => destruct b
  | |- preserves gas_le (match ?x with _ => _ end) => destruct x
  | |- same_gas (match ?x with _ => _ end) => destruct x
  end.

Section executors.
Context {BI : BoostInt} {V T : Type} {SV : SafeVar V T} {VO : VarOps V T} {EX : Externals}.
Context {GO : GasOk}.

Section handler.
Context (handler : Message → M (Exec (V := V)) Result).
Context (handler_gas : ∀ m, preserves gas_le (handler m)).

(** The interpreter's own callbacks leave the gas of its message alone. *)
Lemma vm_call_cb_same m g : same_gas (vm_call_cb handler m g).
Proof. intros x. unfold vm_call_cb, guarded. by case_match. Qed.

Lemma vm_op_same o : same_gas (vm_op handler o).
Proof.
  destruct o; cbn [vm_op]; try apply vm_call_cb_same;
    unfold get_code_size_cb, get_code_hash_cb, copy_code_cb; gas.
Qed.

Lemma vm_status_same st out : same_gas (vm_status st out).
Proof. unfold vm_status. destruct st; gas. Qed.

Lemma vm_result_gas g st gl out x :
  0 ≤ gl ≤ g → x_gas x = g → gas_le x (vm_result st gl out x).2.
Proof.
  intros Hgl Hx Hp. unfold vm_result, modify, mbind, M_bind, lift.
  destruct (mk_unsigned 256 gl) as [v|e] eqn:E; cbn [snd]; [|lia].
  apply mk_unsigned_Ret in E as [-> _]. rewrite vm_status_same. cbn. lia.
Qed.

Lemma vm_run_gas g p x :
  vm_gas_ok g p → x_gas x = g → gas_le x (vm_run handler p x).2.
Proof.
  revert x. induction p as [st gl out|o k IH]; intros x Hok Hx; cbn [vm_run].
  - by apply (vm_result_gas g).
  - pose proof (vm_op_same o x) as Hs. unfold mbind, M_bind.
    destruct (vm_op handler o x) as [[r|e] x']; cbn in *; [|by unfold gas_le; rewrite Hs; lia].
    etrans; [|apply IH; [apply Hok|congruence]]. unfold gas_le. lia.
Qed.

Lemma executeEvmcMessage_gas m b : preserves gas_le (executeEvmcMessage handler m b).
Proof.
  intros x Hx. unfold executeEvmcMessage, gets, lift, mbind, M_bind, id.
  destruct (to_int64 (x_gas x)) as [g|e] eqn:E; [|cbn; lia]. apply to_int64_Ret in E as ->.
  apply (vm_run_gas (x_gas x)); [by apply vm_ok|done|done].
Qed.

Lemma createContractImpl_gas m b a : preserves gas_le (createContractImpl handler m b a).
Proof. unfold createContractImpl. gas. apply executeEvmcMessage_gas. Qed.

Lemma evm_execute_gas m : preserves gas_le (evm_execute handler m).
Proof.
  destruct m; cbn [evm_execute]; gas;
    first [done | apply same_gas_le; done | apply executeEvmcMessage_gas | apply createContractImpl_gas].
Qed.

Lemma cpp_run_gas p : preserves gas_le (cpp_run handler p).
Proof.
  induction p as [out|e|y o k IH|o k IH|k IH|m k IH|k IH]; cbn [cpp_run]; gas; auto.
  apply same_gas_le. intros x. unfold zoom. by destruct (on_var y (var_op o) (x_vars x)).
Qed.

Lemma evmEthCall_gas p m : preserves gas_le (evmEthCall handler p m).
Proof. unfold evmEthCall. gas. apply cpp_run_gas. Qed.

Lemma cpp_execute_gas m : preserves gas_le (cpp_execute handler m).
Proof.
  destruct m; cbn [cpp_execute]; unfold createContract, callContract; gas;
    first [done | apply cpp_run_gas | apply evmEthCall_gas | by destruct (_ =? _)].
Qed.

Lemma precompiled_static_gas a i : preserves gas_le (precompiled_static a i).
Proof.
  unfold precompiled_static. destruct (_ =? _); [gas|]. destruct (_ =? _).
  { gas. pose proof (Z.div_pos (Z.of_nat (length i) + 31) 32). lia. }
  destruct (_ || _); [|gas]. intros x Hx. unfold gets, mbind, M_bind.
  pose proof (precompile_ok (a mod 256) i (x_gas x) Hx) as Hp.
  destruct (precompile _ _ _) as [r g]. cbn in *. done.
Qed.

Lemma dispatchMessage_gas m : preserves gas_le (dispatchMessage handler m).
Proof.
  destruct m; cbn [dispatchMessage is_delegate precompiled_execute];
    unfold transferFunds, dispatchCppCall; gas;
    first [done | apply evm_execute_gas | apply cpp_execute_gas | apply precompiled_static_gas].
Qed.
End handler.

Lemma onMessage_gas fuel m : preserves gas_le (onMessage fuel m).
Proof.
  revert m. induction fuel as [|fuel IH]; intros m; [by intros x Hx; cbn; lia|].
  intros x. rewrite onMessage_S.
  assert (Hb : preserves gas_le (message_body fuel m)).
  { unfold message_body, checkCppContractReverted. gas. by apply dispatchMessage_gas. }
  specialize (Hb x). destruct (message_body fuel m x) as [[r|e] x']; [done|]. cbn in Hb.
  pose proof (in_ctx_same (Checkpoint_revert
    (mkCheckpoint true (length (transactions_ (x_ctx x))))) x') as Hs.
  unfold gas_le in *. destruct (in_ctx _ x') as [[]]; cbn in *; by rewrite Hs.
Qed.

End executors.

(** C9: gas is never created: if the interpreter and the precompiles do not
    report more gas than they were given, a message ends, normally or with an
    exception, with at most the gas it started with and never a negative
    amount. *)
Theorem gas_never_increases {BI : BoostInt} {V T : Type} {SV : SafeVar V T} {VO : VarOps V T}
    {EX : Externals} {GO : GasOk} (fuel : nat) (m : Message) (x : Exec (V := V)) :
  0 ≤ x_gas x → 0 ≤ x_gas (onMessage fuel m x).2 ≤ x_gas x.
Proof. apply (onMessage_gas (GO := GO)). Qed.

#[export] Instance demo_gas_ok : GasOk (EX := demo).
Proof.
  split; cbn.
  - intros _ _ g _ Hg. split; [apply Z.div_pos; lia|apply Z.div_le_upper_bound; lia].
  - lia.
Qed.

Lemma gas_never_increases_witness :
  x_gas (onMessage (EX := demo) (BI := boost_ref) 1 (EncodedCall 5 100 10 [2]) demo_exec).2 = 999000 ∧
  0 ≤ x_gas (onMessage (EX := demo) (BI := boost_ref) 1 (EncodedCall 5 100 10 [2]) demo_exec).2 ≤ 1000000.
Proof.
  split; [vm_compute; reflexivity|].
  apply (gas_never_increases (EX := demo) (BI := boost_ref) 1 (EncodedCall 5 100 10 [2]) demo_exec).
  cbn. lia.
Defined.
