(* ===== verification/Fuel.v ===== *)
(** * Enough fuel

    [onMessage] recurses through the executors: the EVM interpreter and the C++
    contracts call back into the dispatcher.  The model bounds the nesting with
    fuel.  A nested message starts with less gas than the message that makes it
    (a C++ call or creation pays first, the interpreter keeps the cost of the
    call instruction), so a fuel above the gas is enough: this file shows that
    more fuel then changes nothing. *)

From S2P Require Import Prelude CheckedInt SafeBase ExecutionContext Messages AnyVar ContractHost Gas.

(** The interpreter, run with [g] gas, hands a nested call less than [g]. *)
Fixpoint vm_nest_ok (g : Z) (p : VmProg) : Prop :=
  match p with
  | VmDone _ _ _ => True
  | VmAsk o k =>
      match o with vm_call _ g' => 0 ≤ g' < g | _ => True end ∧ ∀ r, vm_nest_ok g (k r)
  end.

Section fuel.
Context {BI : BoostInt} {V T : Type} {SV : SafeVar V T} {VO : VarOps V T} {EX : Externals}.
Context {GO : GasOk}.

(** What is assumed of evmone: a call instruction costs gas (EIP-150 and
    EIP-2929: at least 100, and a value transfer costs more than its stipend). *)
Class NestOk := { vm_nest : ∀ d m g b, 0 ≤ g → vm_nest_ok g (vm d m g b) }.
Context {NO : NestOk}.

#[local] Abbreviation Prog A := (M (Exec (V := V)) A).

(** Two programs that do the same from every state with at most [g] gas; the
    second one never gains gas. *)
Definition agree {A} (g : Z) (m1 m2 : Prog A) : Prop :=
  (∀ x, 0 ≤ x_gas x ≤ g → m1 x = m2 x) ∧ preserves gas_le m2.

Lemma agree_refl {A} g (m : Prog A) : preserves gas_le m → agree g m m.
Proof. by split. Qed.

Lemma agree_le {A} g g' (m1 m2 : Prog A) : g' ≤ g → agree g m1 m2 → agree g' m1 m2.
Proof. intros Hle [He Hp]. split; [|done]. intros x Hx. apply He. lia. Qed.

Lemma agree_step {A} g (m1 m2 : Prog A) x :
  agree g m1 m2 → 0 ≤ x_gas x ≤ g → m1 x = m2 x ∧ 0 ≤ x_gas (m2 x).2 ≤ g.
Proof. intros [He Hp] Hx. split; [by apply He|]. specialize (Hp x ltac:(lia)). lia. Qed.

Lemma agree_bind {A B} g (m1 m2 : Prog A) (k1 k2 : A → Prog B) :
  agree g m1 m2 → (∀ a, agree g (k1 a) (k2 a)) → agree g (m1 ≫= k1) (m2 ≫= k2).
Proof.
  intros Hm Hk. split; [|apply gas_bind; [apply Hm|intros a; apply Hk]].
  intros x Hx. destruct (agree_step g _ _ x Hm Hx) as [He Hg]. unfold mbind, M_bind.
  rewrite He. destruct (m2 x) as [[a|e] x']; [|done]. by apply Hk.
Qed.

Lemma agree_try {A} g (m1 m2 : Prog A) (h1 h2 : exn → Prog A) :
  agree g m1 m2 → (∀ e, agree g (h1 e) (h2 e)) → agree g (try_catch m1 h1) (try_catch m2 h2).
Proof.
  intros Hm Hh. split; [|apply gas_try; [apply Hm|intros e; apply Hh]].
  intros x Hx. destruct (agree_step g _ _ x Hm Hx) as [He Hg]. unfold try_catch.
  rewrite He. destruct (m2 x) as [[a|e] x']; [done|]. cbn in Hg.
  destruct e; try done; by apply Hh.
Qed.

Lemma agree_observe {A B} g (m1 m2 : Prog A) (k1 k2 : outcome A → Prog B) :
  agree g m1 m2 → (∀ r, agree g (k1 r) (k2 r)) → agree g (observe m1 k1) (observe m2 k2).
Proof.
  intros Hm Hk. split; [|apply gas_observe; [apply Hm|intros r; apply Hk]].
  intros x Hx. destruct (agree_step g _ _ x Hm Hx) as [He Hg]. unfold observe.
  rewrite He. destruct (m2 x) as [r x']. cbn in Hg.
  destruct r as [a|[]]; try done; by apply Hk.
Qed.

(** A guard object that leaves the gas alone. *)
Lemma agree_guarded {A B} g (save : Exec → B) restore (m1 m2 : Prog A) :
  (∀ b x, x_gas (restore b x) = x_gas x) → agree g m1 m2 →
  agree g (guarded save restore m1) (guarded save restore m2).
Proof.
  intros Hr Hm. split; [|apply gas_guarded; [done|apply Hm]].
  intros x Hx. unfold guarded. by rewrite (proj1 Hm x Hx).
Qed.

(** Paying first leaves less gas for what follows. *)
Lemma agree_pay {A} g n (m1 m2 : Prog A) :
  0 < n → agree (g - 1) m1 m2 → preserves gas_le m2 →
  agree g (gas_use n ;; m1) (gas_use n ;; m2).
Proof.
  intros Hn Hm Hp. split; [|apply gas_bind; [apply gas_gas_use; lia|done]].
  intros x Hx. unfold gas_use, gets, modify, throw, mbind, M_bind.
  destruct (Z.ltb_spec (x_gas x) n); [done|]. apply Hm. cbn. lia.
Qed.

(** ** The executors, with two handlers that agree below the gas of the message *)

Section handlers.
Context (h1 h2 : Message → Prog Result).
Context (h1_gas : ∀ m, preserves gas_le (h1 m)) (h2_gas : ∀ m, preserves gas_le (h2 m)).

#[local] Abbreviation below g := (∀ m, agree (g - 1) (h1 m) (h2 m)).

Lemma vm_call_cb_agree g m g' x : below g → 0 ≤ g' < g →
  vm_call_cb h1 m g' x = vm_call_cb h2 m g' x.
Proof.
  intros Hh Hg. unfold vm_call_cb, guarded, lift, modify, try_catch, mbind, M_bind.
  destruct (or_terminate (mk_unsigned 256 g')) as [v|e] eqn:E; [|done].
  assert (v = g') as ->.
  { unfold or_terminate in E. destruct (mk_unsigned 256 g') eqn:E2; [|done].
    apply mk_unsigned_Ret in E2 as [-> _]. congruence. }
  rewrite (proj1 (Hh m)) by (cbn; lia). done.
Qed.

Lemma vm_run_agree g p x : below g → vm_nest_ok g p →
  vm_run h1 p x = vm_run h2 p x.
Proof.
  intros Hh. revert x. induction p as [st gl out|o k IH]; intros x Hok; [done|].
  cbn [vm_run]. destruct Hok as [Ho Hk]. unfold mbind, M_bind.
  assert (vm_op h1 o x = vm_op h2 o x) as ->.
  { destruct o; try done. by apply (vm_call_cb_agree g). }
  destruct (vm_op h2 o x) as [[r|e] x']; [|done]. apply IH, Hk.
Qed.

Lemma executeEvmcMessage_agree g m b : below g →
  agree g (executeEvmcMessage h1 m b) (executeEvmcMessage h2 m b).
Proof.
  intros Hh. split; [|by apply executeEvmcMessage_gas].
  intros x Hx. unfold executeEvmcMessage, gets, lift, mbind, M_bind, id.
  destruct (to_int64 (x_gas x)) as [g'|e] eqn:E; [|done]. apply to_int64_Ret in E as ->.
  apply (vm_run_agree (x_gas x)); [|apply vm_nest; lia].
  intros m'. apply (agree_le (g - 1)); [lia|apply Hh].
Qed.

Lemma cpp_run_agree g p : (∀ m, agree g (h1 m) (h2 m)) → agree g (cpp_run h1 p) (cpp_run h2 p).
Proof.
  intros Hh. induction p as [out|e|y o k IH|o k IH|k IH|m k IH|k IH]; cbn [cpp_run].
  - by apply agree_refl, same_gas_le.
  - by apply agree_refl, same_gas_le.
  - apply agree_observe; [|done]. apply agree_refl, same_gas_le. intros x. unfold zoom.
    by destruct (on_var y (var_op o) (x_vars x)).
  - apply agree_observe; [|done]. apply agree_refl, same_gas_le, in_ctx_same.
  - apply agree_bind; [by apply agree_refl, same_gas_le|done].
  - by apply agree_observe.
  - apply agree_bind; [apply agree_refl, same_gas_le, random_same|done].
Qed.

Ltac refl := apply agree_refl; gas; done.

Lemma evmEthCall_agree g p m : (∀ m, agree g (h1 m) (h2 m)) →
  agree g (evmEthCall h1 p m) (evmEthCall h2 p m).
Proof.
  intros Hh. apply agree_try; [by apply cpp_run_agree|]. intros e. refl.
Qed.

Ltac agree_code :=
  repeat match goal with
  | |- agree _ ?m ?m => refl
  | |- agree _ (mbind _ _) (mbind _ _) => apply agree_bind; [|intros ?]
  | |- agree _ (with_depthGuard _) (with_depthGuard _) => apply agree_guarded; [done|]
  | |- agree _ (with_local _ _ _) (with_local _ _ _) => apply agree_guarded; [done|]
  | |- agree _ (cpp_run _ _) (cpp_run _ _) => apply cpp_run_agree
  | |- agree _ (evmEthCall _ _ _) (evmEthCall _ _ _) => apply evmEthCall_agree
  | |- agree _ (executeEvmcMessage _ _ _) (executeEvmcMessage _ _ _) => apply executeEvmcMessage_agree
  end.

Lemma createContractImpl_agree g m b a : below g →
  agree g (createContractImpl h1 m b a) (createContractImpl h2 m b a).
Proof. intros Hh. unfold createContractImpl. agree_code; done. Qed.

Lemma evm_execute_agree g m : below g → agree g (evm_execute h1 m) (evm_execute h2 m).
Proof.
  intros Hh. destruct m; cbn [evm_execute]; agree_code;
    first [done | by apply createContractImpl_agree | idtac].
Qed.

Lemma cpp_execute_agree g m : below g → agree g (cpp_execute h1 m) (cpp_execute h2 m).
Proof.
  intros Hh. destruct m; cbn [cpp_execute]; unfold createContract, callContract;
    first [refl | apply agree_pay; [first [done | by destruct (_ =? _)]| |]].
  all: first [by agree_code | gas; first [done | by apply cpp_run_gas | by apply evmEthCall_gas]].
Qed.

Lemma dispatchMessage_agree g m : below g → agree g (dispatchMessage h1 m) (dispatchMessage h2 m).
Proof.
  intros Hh. destruct m; cbn [dispatchMessage is_delegate]; try by apply evm_execute_agree.
  all: try by apply cpp_execute_agree.
  all: apply agree_bind; [unfold transferFunds; refl|intros _].
  all: destruct (isPrecompiled _);
    [apply agree_refl; cbn [precompiled_execute]; gas; first [done | apply precompiled_static_gas]|].
  all: apply agree_bind; [refl|intros p]; apply agree_bind; [refl|intros t]; destruct t;
    [refl | by apply evm_execute_agree |].
  all: apply agree_try; [by apply cpp_execute_agree|intros e; refl].
Qed.
End handlers.

Lemma onMessage_agree f1 f2 g m :
  (Z.to_nat g < f1)%nat → (Z.to_nat g < f2)%nat → 0 ≤ g →
  agree g (onMessage f1 m) (onMessage f2 m).
Proof.
  revert f2 g m. induction f1 as [|f1 IH]; intros f2 g m H1 H2 Hg; [lia|].
  destruct f2 as [|f2]; [lia|]. split; [|apply onMessage_gas].
  intros x Hx. rewrite !onMessage_S.
  assert (agree g (message_body f1 m) (message_body f2 m)) as Hb.
  { apply agree_bind; [|intros r; apply agree_refl; unfold checkCppContractReverted; by gas].
    apply dispatchMessage_agree; [apply onMessage_gas..|]. intros m'.
    destruct (decide (g = 0)) as [->|]; [|apply IH; lia].
    split; [|apply onMessage_gas]. intros y Hy. lia. }
  by rewrite (proj1 Hb x Hx).
Qed.
End fuel.

(** C10: a fuel above the gas of the message is enough: with any two such fuels
    [onMessage] does exactly the same, whatever the EVM code and the C++
    contracts do and however they call each other.  The nesting of messages, and
    with it the recursion of the dispatcher, is bounded by the gas. *)
Theorem onMessage_fuel_enough {BI : BoostInt} {V T : Type} {SV : SafeVar V T} {VO : VarOps V T}
    {EX : Externals} {GO : GasOk} {NO : NestOk} (f1 f2 : nat) (m : Message) (x : Exec (V := V)) :
  0 ≤ x_gas x → (Z.to_nat (x_gas x) < f1)%nat → (Z.to_nat (x_gas x) < f2)%nat →
  onMessage f1 m x = onMessage f2 m x.
Proof.
  intros Hx H1 H2. apply (proj1 (onMessage_agree f1 f2 (x_gas x) m H1 H2 Hx) x). lia.
Qed.

(** An interpreter that calls the same contract again with half its gas, until
    the gas runs low. *)
Definition nesting : Externals (V := AnyVar) (VO := any_ops (BI := boost_ref)) := {|
  vm _ m g _ := if g <? 200 then VmDone EVMC_SUCCESS g [g]
                else VmAsk (vm_call m (g / 2)) (λ r, VmDone EVMC_SUCCESS (g / 2)
                       (match r with RCall _ _ out _ => g :: out | _ => [] end));
  cpp_code := cpp_code (Externals := demo);
  cpp_is _ _ := true;
  contractName _ := [];
  sha3 := sha3 (Externals := demo);
  precompile := precompile (Externals := demo);
  packed_input _ := [];
  error_data _ := [];
  decode_error _ := Ret [];
  rpc_trace := true;
|}.

#[export] Instance nesting_gas_ok : GasOk (EX := nesting).
Proof.
  split; cbn; [|lia]. intros _ m g _ Hg. destruct (Z.ltb_spec g 200); cbn; [lia|].
  intros _. split; [apply Z.div_pos; lia|apply Z.div_le_upper_bound; lia].
Qed.

#[export] Instance nesting_nest_ok : NestOk (EX := nesting).
Proof.
  split; cbn. intros _ m g _ Hg. destruct (Z.ltb_spec g 200); cbn; [done|].
  split; [|done]. split; [apply Z.div_pos; lia|apply Z.div_lt_upper_bound; lia].
Qed.

Lemma onMessage_fuel_enough_witness :
  let w := mkWorld {[ 4096 := mkAccount 0 1 3 (Some [1; 2; 3]) EVM ]} ∅ ∅ ∅ [] [] in
  let x := with_gas 1000 (with_ctx (mkCtx (mkEnv 0 0 0 0 0 0 0 0 0 0 true) w [] ∅) demo_exec) in
  let call fuel := onMessage (EX := nesting) (BI := boost_ref) fuel (EncodedStaticCall 5 4096 [7]) x in
  (call 4%nat).1 = Ret (RData [1000; 500; 250; 125]) ∧ call 1001%nat = call 2000%nat.
Proof.
  cbn zeta. split; [vm_compute; reflexivity|].
  apply (onMessage_fuel_enough (EX := nesting) (BI := boost_ref)); cbn; lia.
Defined.
