(* ===== verification/RdPoS.v ===== *)
(** * rdPoS: validator selection and block randomness

    Models src/core/rdpos.{h,cpp} (class [rdPoS]: the validator list, the
    shuffled list of the current round, the validator mempool, validation of the
    randomness transactions of a block) and the generator of
    src/utils/randomgen.h.  Keccak-256 is a parameter. *)

From S2P Require Import Prelude CheckedInt ExecutionContext Bytes Tx.

(** [TxValidator::getFunctor]: the first four bytes, or the default functor. *)
Definition getFunctor (tx : TxValidator) : Z :=
  if decide (length (tv_data tx) < 4)%nat then 0 else be_value (take 4 (tv_data tx)).

Inductive TxValidatorFunction := INVALID | RANDOMHASH | RANDOMSEED.

#[export] Instance TxValidatorFunction_eq_dec : EqDecision TxValidatorFunction.
Proof. solve_decision. Defined.

Definition getTxValidatorFunction (tx : TxValidator) : TxValidatorFunction :=
  if decide (length (tv_data tx) ≠ 36%nat) then INVALID
  else if getFunctor tx =? 3489654598 then RANDOMHASH
  else if getFunctor tx =? 1875223254 then RANDOMSEED
  else INVALID.

(** [enum class TxStatus]; [isTxStatusValid] compares with the order of the
    enumeration. *)
Inductive TxStatus :=
| ValidNew | ValidExisting | InvalidNonce | InvalidBalance | InvalidUnexpected
| InvalidDuplicate | InvalidRedundant.

#[export] Instance TxStatus_eq_dec : EqDecision TxStatus.
Proof. solve_decision. Defined.

Definition isTxStatusValid (s : TxStatus) : bool :=
  match s with ValidNew | ValidExisting => true | _ => false end.

(** The parts of a [FinalizedBlock] that rdPoS and the state read; the
    validator is the address of its public key. *)
Record BlockRdPoS := mkBlockRdPoS {
  b_nHeight : Z;
  b_validator : Address;
  b_txValidators : list TxValidator;
  b_randomness : Hash;
}.

(** The members of [rdPoS]; [validators_] is the ordered set. *)
Record rdPoS := mkRdPoS {
  validators_ : list Address;
  randomList_ : list Address;
  validatorMempool_ : gmap Z TxValidator;
  seed_ : Hash;
  bestRandomSeed_ : Hash;
  minValidators_ : nat;
}.

(** [v[i]] on a vector: undefined beyond the end. *)
Definition index {A} (l : list A) (i : nat) : outcome A :=
  match l !! i with Some x => Ret x | None => Throw undefined_behaviour end.

Section rdpos.
Context (sha3 : list Z → Hash).

(** ** [RandomGen] *)

(** [std::swap(v[n], v[i])] *)
Definition swap {A} (n i : nat) (v : list A) : list A :=
  match v !! n, v !! i with
  | Some a, Some b => <[i := a]> (<[n := b]> v)
  | _, _ => v
  end.

(** The loop of [RandomGen::shuffle] from position [i], [k] positions to go. *)
Fixpoint shuffle_loop {A} (k i : nat) (seed : Hash) (v : list A) : Hash * list A :=
  match k with
  | O => (seed, v)
  | S k =>
      let seed' := sha3 (be_bytes 32 seed) in
      let n := Z.to_nat (Z.of_nat i + seed' mod (Z.of_nat (length v) - Z.of_nat i)) in
      shuffle_loop k (S i) seed' (swap n i v)
  end.

Definition shuffle {A} (seed : Hash) (v : list A) : Hash * list A :=
  shuffle_loop (length v) 0 seed v.

(** ** The rounds *)

(** [rdPoS::processBlock] *)
Definition processBlock (b : BlockRdPoS) (r : rdPoS) : Hash * rdPoS :=
  let '(seed, l) := shuffle (b_randomness b) (validators_ r) in
  (b_randomness b,
   mkRdPoS (validators_ r) l ∅ seed (b_randomness b) (minValidators_ r)).

(** [rdPoS::parseTxSeedList] *)
Definition parseTxSeedList (txs : list TxValidator) : Hash :=
  match txs with
  | [] => 0
  | _ =>
      sha3 (concat (map (λ tx, if decide (getTxValidatorFunction tx = RANDOMSEED)
                               then drop 4 (tv_data tx) else []) txs))
  end.

(** [rdPoS::validateBlockTxSanityCheck] *)
Definition validateBlockTxSanityCheck (hashTx seedTx : TxValidator) : bool :=
  let hashTxFunction := getTxValidatorFunction hashTx in
  let seedTxFunction := getTxValidatorFunction seedTx in
  if decide (hashTxFunction = INVALID) then false
  else if decide (seedTxFunction = INVALID) then false
  else if negb (tv_from hashTx =? tv_from seedTx) then false
  else if decide (hashTxFunction ≠ RANDOMHASH) then false
  else if decide (seedTxFunction ≠ RANDOMSEED) then false
  else
    let hash := drop 4 (tv_data hashTx) in
    let random := drop 4 (tv_data seedTx) in
    if decide (length hash ≠ 32%nat) then false
    else if decide (length random ≠ 32%nat) then false
    else sha3 random =? be_value hash.

(** The loop of [validateBlock] that checks the signers and pairs the
    transactions in [txHashToSeedMap] ([emplace] by the hash of the first):
    [None] is the early [return false]. *)
Fixpoint pair_loop (k i : nat) (min : nat) (rl : list Address) (txs : list TxValidator)
    (acc : gmap Z (TxValidator * TxValidator)) : outcome (option (gmap Z (TxValidator * TxValidator))) :=
  match k with
  | O => Ret (Some acc)
  | S k =>
      h ← index txs i;
      v ← index rl (i + 1)%nat;
      if negb (tv_from h =? v) then Ret None
      else
        s ← index txs (i + min)%nat;
        if negb (tv_from s =? v) then Ret None
        else
          pair_loop k (S i) min rl txs
            (match acc !! tv_hash h with
             | Some _ => acc
             | None => <[tv_hash h := (h, s)]> acc
             end)
  end.

(** [rdPoS::validateBlock] *)
Definition validateBlock (b : BlockRdPoS) (r : rdPoS) : outcome bool :=
  first ← index (randomList_ r) 0;
  let txs := b_txValidators b in
  let min := minValidators_ r in
  if negb (b_validator b =? first) then Ret false
  else if negb (length txs =? min * 2)%nat then Ret false
  else if negb (forallb (λ tx, tv_nHeight tx =? b_nHeight b) txs) then Ret false
  else
    m ← pair_loop min 0 min (randomList_ r) txs ∅;
    match m with
    | None => Ret false
    | Some m =>
        if negb (size m =? min)%nat then Ret false
        else Ret (forallb (λ p, validateBlockTxSanityCheck p.1 p.2) (map_to_list m).*2)
    end.

(** The search for the sender among [randomList_[1]] to [randomList_[min]]. *)
Fixpoint participates (k i : nat) (from : Address) (rl : list Address) : outcome bool :=
  match k with
  | O => Ret false
  | S k =>
      v ← index rl i;
      if from =? v then Ret true else participates k (S i) from rl
  end.

(** The transactions of a sender in the validator mempool. *)
Definition txs_from (from : Address) (m : gmap Z TxValidator) : list TxValidator :=
  filter (λ tx, tv_from tx = from) (map_to_list m).*2.

Definition mempool_insert (tx : TxValidator) (r : rdPoS) : rdPoS :=
  mkRdPoS (validators_ r) (randomList_ r) (<[tv_hash tx := tx]> (validatorMempool_ r))
    (seed_ r) (bestRandomSeed_ r) (minValidators_ r).

(** [rdPoS::addValidatorTx]; [latest] is the height of the latest block. *)
Definition addValidatorTx (latest : Z) (tx : TxValidator) : M rdPoS TxStatus := λ r,
  match validatorMempool_ r !! tv_hash tx with
  | Some _ => (Ret ValidExisting, r)
  | None =>
      if negb (tv_nHeight tx =? latest + 1) then (Ret InvalidUnexpected, r)
      else
        match participates (minValidators_ r) 1 (tv_from tx) (randomList_ r) with
        | Throw e => (Throw e, r)
        | Ret false => (Ret InvalidUnexpected, r)
        | Ret true =>
            match txs_from (tv_from tx) (validatorMempool_ r) with
            | [] => (Ret ValidNew, mempool_insert tx r)
            | [tx0] =>
                if getFunctor tx0 =? getFunctor tx then (Ret InvalidRedundant, r)
                else (Ret ValidNew, mempool_insert tx r)
            | _ => (Ret InvalidRedundant, r)
            end
        end
  end.

(** ** Lemmas *)

Lemma swap_length {A} n i (v : list A) : length (swap n i v) = length v.
Proof. unfold swap. repeat case_match; rewrite ?length_insert; done. Qed.

Lemma swap_Permutation {A} n i (v : list A) : swap n i v ≡ₚ v.
Proof.
  unfold swap. destruct (v !! n) as [a|] eqn:Hn; [|done]. destruct (v !! i) as [b|] eqn:Hi; [|done].
  apply Permutation_inj. split; [by rewrite !length_insert|].
  exists (λ k, if decide (k = i) then n else if decide (k = n) then i else k). split.
  - intros x y. repeat case_decide; congruence.
  - intros k. pose proof (lookup_lt_Some _ _ _ Hn). pose proof (lookup_lt_Some _ _ _ Hi).
    destruct (decide (k = i)) as [->|Hki].
    { rewrite list_lookup_insert_eq by (rewrite length_insert; done). done. }
    rewrite list_lookup_insert_ne by done. destruct (decide (k = n)) as [->|Hkn].
    + by rewrite list_lookup_insert_eq.
    + by rewrite list_lookup_insert_ne.
Qed.

Lemma shuffle_loop_Permutation {A} k : ∀ i seed (v : list A), (shuffle_loop k i seed v).2 ≡ₚ v.
Proof.
  induction k as [|k IH]; intros i seed v; cbn; [done|]. rewrite IH. apply swap_Permutation.
Qed.

Lemma index_Ret {A} (l : list A) i x : index l i = Ret x ↔ l !! i = Some x.
Proof. unfold index. destruct (l !! i); naive_solver. Qed.

(** [txHashToSeedMap.emplace(h, s)] *)
Definition emplace (m : gmap Z (TxValidator * TxValidator)) (p : TxValidator * TxValidator) :=
  match m !! tv_hash p.1 with
  | Some _ => m
  | None => <[tv_hash p.1 := p]> m
  end.

(** The map has as many entries as pairs exactly when the hashes differ, and
    then it holds the pairs. *)
Lemma emplace_all_size l : ∀ m,
  (size (foldl emplace m l) ≤ size m + length l)%nat ∧
  (size (foldl emplace m l) = size m + length l →
    NoDup (map (tv_hash ∘ fst) l) ∧ ∀ p, p ∈ l → m !! tv_hash p.1 = None)%nat.
Proof.
  induction l as [|p l IH]; intros m; cbn; [split; [lia|]; intros _; split; [constructor|set_solver]|].
  destruct (IH (emplace m p)) as [Hle Heq]. unfold emplace in *.
  destruct (m !! tv_hash p.1) as [q|] eqn:Hp; [split; lia|].
  rewrite map_size_insert_None in * by done. split; [lia|].
  intros Hs. destruct Heq as [Hn Hd]; [lia|]. split.
  - constructor; [|done]. intros (q & Hq & Hin)%list_elem_of_fmap.
    specialize (Hd q Hin). cbn in Hq. rewrite <- Hq, lookup_insert_eq in Hd. done.
  - intros q [->|Hq]%elem_of_cons; [done|]. specialize (Hd q Hq).
    by apply lookup_insert_None in Hd as [? _].
Qed.

Lemma emplace_all_lookup l : ∀ m,
  NoDup (map (tv_hash ∘ fst) l) → (∀ p, p ∈ l → m !! tv_hash p.1 = None) →
  (∀ k q, foldl emplace m l !! k = Some q ↔ m !! k = Some q ∨ (q ∈ l ∧ tv_hash q.1 = k)) ∧
  size (foldl emplace m l) = (size m + length l)%nat.
Proof.
  induction l as [|p l IH]; intros m Hn Hd; cbn [foldl].
  { split; [set_solver|cbn; lia]. }
  apply NoDup_cons in Hn as [Hp Hn].
  assert (Hpm : m !! tv_hash p.1 = None) by (apply Hd; set_solver).
  assert (E : emplace m p = <[tv_hash p.1 := p]> m) by (unfold emplace; by rewrite Hpm).
  rewrite E. destruct (IH (<[tv_hash p.1 := p]> m)) as [Hl Hs]; [done| |].
  - intros q Hq. rewrite lookup_insert_ne; [apply Hd; set_solver|].
    intros Heq. apply Hp. apply list_elem_of_fmap. exists q. done.
  - split; [|rewrite Hs, map_size_insert_None by done; cbn; lia].
    intros k q. rewrite Hl. destruct (decide (tv_hash p.1 = k)) as [<-|Hne].
    + rewrite lookup_insert_eq, Hpm. split.
      * intros [[= <-]|[Hq Hk]]; right; (split; [|done]); set_solver.
      * intros [?|[Hq Hk]]; [done|]. apply elem_of_cons in Hq as [->|Hq]; [by left|by right].
    + rewrite lookup_insert_ne by done. set_solver.
Qed.

(** The signers of position [j] are the [j]-th participant of the round. *)
Definition signer_ok (min : nat) (rl : list Address) (txs : list TxValidator) (j : nat) : Prop :=
  ∃ h s v, txs !! j = Some h ∧ txs !! (j + min)%nat = Some s ∧ rl !! (j + 1)%nat = Some v ∧
    tv_from h = v ∧ tv_from s = v.

Lemma pair_loop_spec min rl txs k : ∀ i acc,
  (k + i = min)%nat → length txs = (min * 2)%nat → (min < length rl)%nat →
  (∃ j, (i ≤ j < min)%nat ∧ ¬ signer_ok min rl txs j) ∧ pair_loop k i min rl txs acc = Ret None ∨
  (∀ j, (i ≤ j < min)%nat → signer_ok min rl txs j) ∧
    pair_loop k i min rl txs acc =
      Ret (Some (foldl emplace acc (drop i (zip (take min txs) (drop min txs))))).
Proof.
  induction k as [|k IH]; intros i acc Hk Hl Hrl; cbn [pair_loop].
  { right. split; [lia|]. rewrite drop_ge; [done|].
    rewrite length_zip_with, length_take, length_drop. lia. }
  destruct (lookup_lt_is_Some_2 txs i) as [h Hh]; [lia|].
  destruct (lookup_lt_is_Some_2 txs (i + min)) as [s Hs]; [lia|].
  destruct (lookup_lt_is_Some_2 rl (i + 1)) as [v Hv]; [lia|].
  unfold index. rewrite Hh, Hv, Hs. cbn.
  assert (Hno : tv_from h ≠ v ∨ tv_from s ≠ v → ¬ signer_ok min rl txs i).
  { intros Hor (h' & s' & v' & ?&?&?&?&?). simplify_eq. tauto. }
  destruct (Z.eqb_spec (tv_from h) v) as [E1|E1]; cbn.
  2: { left. split; [|done]. exists i. split; [lia|auto]. }
  destruct (Z.eqb_spec (tv_from s) v) as [E2|E2]; cbn.
  2: { left. split; [|done]. exists i. split; [lia|auto]. }
  assert (Hz : zip (take min txs) (drop min txs) !! i = Some (h, s)).
  { apply lookup_zip_with_Some. exists h, s. split_and!; [done| |].
    - by rewrite lookup_take_lt by lia.
    - rewrite lookup_drop. by rewrite Nat.add_comm. }
  rewrite (drop_S _ _ _ Hz). cbn [foldl].
  destruct (IH (S i) (emplace acc (h, s))) as [[(j & Hj & Hn) Hr]|[Ha Hr]]; [lia|done|done| |].
  - left. split; [|exact Hr]. exists j. split; [lia|done].
  - right. split; [|exact Hr]. intros j Hj. destruct (decide (j = i)) as [->|]; [|apply Ha; lia].
    by exists h, s, v.
Qed.

(** ** The rules for the randomness of a block *)

(** The participant [v] committed to a seed in [h] and reveals it in [s]. *)
Definition reveals (v : Address) (h s : TxValidator) : Prop :=
  tv_from h = v ∧ tv_from s = v ∧
  getTxValidatorFunction h = RANDOMHASH ∧ getTxValidatorFunction s = RANDOMSEED ∧
  sha3 (drop 4 (tv_data s)) = be_value (drop 4 (tv_data h)).

(** What the comment of [validateBlock] asks of a block: it is signed by the
    first of the round, holds two transactions of the block's height for each
    of the next [minValidators_], the commitments first, both in the order of
    the round, and the commitments are different transactions. *)
Definition block_ok (b : BlockRdPoS) (r : rdPoS) : Prop :=
  let txs := b_txValidators b in
  let min := minValidators_ r in
  randomList_ r !! 0%nat = Some (b_validator b) ∧
  length txs = (min * 2)%nat ∧
  (∀ tx, tx ∈ txs → tv_nHeight tx = b_nHeight b) ∧
  (∀ j, (j < min)%nat → ∃ h s v,
    txs !! j = Some h ∧ txs !! (j + min)%nat = Some s ∧ randomList_ r !! (j + 1)%nat = Some v ∧
    reveals v h s) ∧
  NoDup (map tv_hash (take min txs)).

Lemma sanity_check_spec h s :
  validateBlockTxSanityCheck h s = true ↔
    tv_from h = tv_from s ∧ getTxValidatorFunction h = RANDOMHASH ∧
    getTxValidatorFunction s = RANDOMSEED ∧
    sha3 (drop 4 (tv_data s)) = be_value (drop 4 (tv_data h)).
Proof.
  assert (H36 : ∀ t, getTxValidatorFunction t ≠ INVALID → length (drop 4 (tv_data t)) = 32%nat).
  { intros t. unfold getTxValidatorFunction. rewrite length_drop. case_decide; [done|].
    intros _. lia. }
  unfold validateBlockTxSanityCheck. pose proof (H36 h) as Hh. pose proof (H36 s) as Hs.
  destruct (Z.eqb_spec (tv_from h) (tv_from s)) as [E|E];
    destruct (getTxValidatorFunction h), (getTxValidatorFunction s); cbn;
    try (split; [done|]; intros (?&?&?&?); done).
  rewrite Hh, Hs by done. rewrite !decide_False by (done || tauto). rewrite Z.eqb_eq. tauto.
Qed.

Lemma fst_zip_halves (txs : list TxValidator) min :
  length txs = (min * 2)%nat →
  map (tv_hash ∘ fst) (zip (take min txs) (drop min txs)) = map tv_hash (take min txs).
Proof.
  intros Hl. transitivity (map tv_hash (map fst (zip (take min txs) (drop min txs)))).
  { symmetry. apply map_map. }
  f_equal. apply (fst_zip (take min txs) (drop min txs)). rewrite length_take, length_drop. lia.
Qed.

Lemma zip_halves_elem (txs : list TxValidator) min h s :
  length txs = (min * 2)%nat →
  (h, s) ∈ zip (take min txs) (drop min txs) ↔
    ∃ j, (j < min)%nat ∧ txs !! j = Some h ∧ txs !! (j + min)%nat = Some s.
Proof.
  intros Hl. rewrite list_elem_of_lookup. split.
  - intros [j (h' & s' & E & Hh & Hs)%lookup_zip_with_Some]. injection E as -> ->.
    apply lookup_take_Some in Hh as [Hh Hj]. rewrite lookup_drop in Hs.
    exists j. rewrite Nat.add_comm in Hs. done.
  - intros (j & Hj & Hh & Hs). exists j. apply lookup_zip_with_Some. exists h, s.
    split_and!; [done| |]; [by rewrite lookup_take_lt|by rewrite lookup_drop, Nat.add_comm].
Qed.

Lemma validateBlock_returns b r :
  (minValidators_ r < length (randomList_ r))%nat → ∃ v, validateBlock b r = Ret v ∧ (v = true ↔ block_ok b r).
Proof.
  intros Hmin. unfold validateBlock, block_ok.
  destruct (lookup_lt_is_Some_2 (randomList_ r) 0) as [p0 Hp]; [lia|].
  unfold index at 1. rewrite Hp. cbn.
  destruct (Z.eqb_spec (b_validator b) p0) as [->|Hne]; cbn; [|eexists; split; [done|naive_solver]].
  destruct (Nat.eqb_spec (length (b_txValidators b)) (minValidators_ r * 2)) as [Hl|Hl]; cbn;
    [|eexists; split; [done|naive_solver]].
  destruct (forallb _ _) eqn:Hh; cbn.
  2: { eexists; split; [done|]. split; [done|]. intros (_&_&Hall&_).
       apply not_true_iff_false in Hh. exfalso. apply Hh, forallb_forall. intros t Ht.
       apply Z.eqb_eq, Hall. by apply list_elem_of_In. }
  assert (Hall : ∀ tx, tx ∈ b_txValidators b → tv_nHeight tx = b_nHeight b).
  { intros t Ht%list_elem_of_In. rewrite forallb_forall in Hh. by apply Z.eqb_eq, Hh. }
  destruct (pair_loop_spec (minValidators_ r) (randomList_ r) (b_txValidators b)
    (minValidators_ r) 0 ∅) as [[(j & Hj & Hn) ->]|[Ha ->]]; [lia|done|done| |].
  { eexists; split; [done|]. split; [done|]. intros (_&_&_&Hs&_). exfalso. apply Hn.
    destruct (Hs j) as (h & s & v & ?&?&?&?&?&_); [lia|]. by exists h, s, v. }
  rewrite drop_0. cbn. set (ps := zip _ _) in *.
  assert (Hlen : length ps = minValidators_ r).
  { unfold ps. rewrite length_zip_with, length_take, length_drop. lia. }
  destruct (Nat.eqb_spec (size (foldl emplace ∅ ps)) (minValidators_ r)) as [Hsz|Hsz]; cbn.
  - destruct (emplace_all_size ps ∅) as [_ Hnd]. rewrite map_size_empty in Hnd. cbn in Hnd.
    destruct Hnd as [Hnd _]; [congruence|].
    destruct (emplace_all_lookup ps ∅ Hnd) as [Hlk _]; [intros; apply lookup_empty|].
    eexists; split; [done|]. rewrite forallb_forall. split.
    + intros Hc. split_and!; [done|done|done| |by rewrite <- fst_zip_halves].
      intros j Hj. destruct (Ha j) as (h & s & v & Eh & Es & Ev & Fh & Fs); [lia|].
      exists h, s, v. split_and!; [done..|]. split; [done|]. split; [done|].
      apply (sanity_check_spec h s), (Hc (h, s)). apply list_elem_of_In, list_elem_of_fmap.
      exists (tv_hash h, (h, s)). split; [done|]. apply elem_of_map_to_list, Hlk. right.
      split; [|done]. apply zip_halves_elem; [done|]. eauto.
    + intros (_&_&_&Hs&_) q0 Hin%list_elem_of_In%list_elem_of_fmap.
      destruct Hin as ([k q] & -> & Hq%elem_of_map_to_list). cbn.
      apply Hlk in Hq as [Hq|[Hq _]]; [by rewrite lookup_empty in Hq|].
      destruct q as [h s]. apply zip_halves_elem in Hq as (j & Hj & Eh & Es); [|done].
      destruct (Hs j Hj) as (h' & s' & v & Eh' & Es' & _ & Fh & Fs & ?&?&?). simplify_eq.
      apply (sanity_check_spec h s). split_and!; congruence.
  - eexists; split; [done|]. split; [done|]. intros (_&_&_&_&Hnd).
    destruct (emplace_all_lookup ps ∅) as [_ Hsize].
    { unfold ps. by rewrite fst_zip_halves. }
    { intros; apply lookup_empty. }
    rewrite map_size_empty in Hsize. cbn in Hsize. congruence.
Qed.

(** ** The validator mempool *)

(** Every transaction is for the next block and from a participant of the
    round; a participant has at most two, for different functions. *)
Record mempool_ok (latest : Z) (r : rdPoS) : Prop := mkMempoolOk {
  mo_key : ∀ k tx, validatorMempool_ r !! k = Some tx → k = tv_hash tx;
  mo_height : ∀ k tx, validatorMempool_ r !! k = Some tx → tv_nHeight tx = latest + 1;
  mo_member : ∀ k tx, validatorMempool_ r !! k = Some tx →
    ∃ j, (1 ≤ j ≤ minValidators_ r)%nat ∧ randomList_ r !! j = Some (tv_from tx);
  mo_count : ∀ a, (length (txs_from a (validatorMempool_ r)) ≤ 2)%nat;
  mo_functor : ∀ a, NoDup (map getFunctor (txs_from a (validatorMempool_ r)));
}.

Lemma participates_spec k : ∀ i from rl,
  participates k i from rl = Ret true → ∃ j, (i ≤ j < i + k)%nat ∧ rl !! j = Some from.
Proof.
  induction k as [|k IH]; intros i from rl; cbn; [done|].
  intros (v & Hv%index_Ret & H)%bind_outcome_Ret. destruct (Z.eqb_spec from v) as [->|].
  - exists i. split; [lia|done].
  - destruct (IH _ _ _ H) as (j & ? & ?). exists j. split; [lia|done].
Qed.

Lemma txs_from_insert a tx m :
  m !! tv_hash tx = None →
  txs_from a (<[tv_hash tx := tx]> m) ≡ₚ
    (if decide (tv_from tx = a) then [tx] else []) ++ txs_from a m.
Proof.
  intros Hm. unfold txs_from. rewrite map_to_list_insert by done.
  rewrite fmap_cons, filter_cons. cbn [snd]. by case_decide.
Qed.

Lemma mempool_insert_ok latest tx r :
  mempool_ok latest r → validatorMempool_ r !! tv_hash tx = None →
  tv_nHeight tx = latest + 1 →
  (∃ j, (1 ≤ j ≤ minValidators_ r)%nat ∧ randomList_ r !! j = Some (tv_from tx)) →
  (length (txs_from (tv_from tx) (validatorMempool_ r)) ≤ 1)%nat →
  (∀ t, t ∈ txs_from (tv_from tx) (validatorMempool_ r) → getFunctor t ≠ getFunctor tx) →
  mempool_ok latest (mempool_insert tx r).
Proof.
  intros [Hk Hh Hm Hc Hf] Hn Hheight Hmem Hlen Hfun. split; cbn.
  - intros k t. rewrite lookup_insert_Some. naive_solver.
  - intros k t. rewrite lookup_insert_Some. naive_solver.
  - intros k t. rewrite lookup_insert_Some. naive_solver.
  - intros a. rewrite txs_from_insert by done. rewrite length_app.
    case_decide; subst; cbn; [lia|apply Hc].
  - intros a. eapply (NoDup_Permutation_proper _).
    { apply (fmap_Permutation getFunctor), txs_from_insert; done. }
    case_decide; subst; cbn; [|apply Hf].
    constructor; [|apply Hf]. intros (t & Ht & Hin)%list_elem_of_fmap.
    by apply (Hfun t Hin).
Qed.

Lemma addValidatorTx_ok latest tx r :
  mempool_ok latest r → mempool_ok latest (addValidatorTx latest tx r).2.
Proof.
  intros Hok. unfold addValidatorTx.
  destruct (validatorMempool_ r !! tv_hash tx) as [t|] eqn:Hn; [done|].
  destruct (Z.eqb_spec (tv_nHeight tx) (latest + 1)) as [Hh|]; cbn; [|done].
  destruct (participates _ _ _ _) as [[]|] eqn:Hp; cbn; [|done..].
  apply participates_spec in Hp as (j & Hj & Hl).
  assert (Hm : ∃ j, (1 ≤ j ≤ minValidators_ r)%nat ∧ randomList_ r !! j = Some (tv_from tx)).
  { exists j. split; [lia|done]. }
  destruct (txs_from (tv_from tx) (validatorMempool_ r)) as [|t0 [|]] eqn:Ht; cbn.
  - apply mempool_insert_ok; rewrite ?Ht; cbn; (done || lia || set_solver).
  - destruct (Z.eqb_spec (getFunctor t0) (getFunctor tx)); cbn; [done|].
    apply mempool_insert_ok; rewrite ?Ht; cbn; (done || lia || set_solver).
  - done.
Qed.

(** ** Theorems *)

(** C7: when the round has more members than [minValidators_], [validateBlock]
    returns, without reading past a vector, and accepts exactly the blocks that
    follow the rdPoS rules: signer, number, height and order of the validator
    transactions, one commitment and its preimage per participant. *)
Theorem validateBlock_correct (b : BlockRdPoS) (r : rdPoS) :
  (minValidators_ r < length (randomList_ r))%nat →
  ∃ v, validateBlock b r = Ret v ∧ (v = true ↔ block_ok b r).
Proof. apply validateBlock_returns. Qed.

(** After a block, the round is a permutation of the validators, whatever
    the randomness; the validator mempool is empty and obeys its rules for
    every height. *)
Theorem processBlock_round (b : BlockRdPoS) (r : rdPoS) (latest : Z) :
  let '(seed, r') := processBlock b r in
  seed = b_randomness b ∧ bestRandomSeed_ r' = b_randomness b ∧
  randomList_ r' ≡ₚ validators_ r ∧ validators_ r' = validators_ r ∧ mempool_ok latest r'.
Proof.
  unfold processBlock. pose proof (shuffle_loop_Permutation (length (validators_ r)) 0
    (b_randomness b) (validators_ r)) as Hp.
  unfold shuffle. destruct (shuffle_loop _ _ _ _) as [s l]. cbn in *.
  split_and!; [done..|]. split; cbn; try done.
  - intros a. unfold txs_from. rewrite map_to_list_empty. cbn. lia.
  - intros a. unfold txs_from. rewrite map_to_list_empty. constructor.
Qed.

(** Whatever validator transactions arrive, in any order, each participant
    of the round has at most two in the mempool, for different functions, all
    for the next block. *)
Theorem addValidatorTx_invariant (latest : Z) (txs : list TxValidator) (r : rdPoS) :
  mempool_ok latest r →
  mempool_ok latest (foldl (λ r tx, (addValidatorTx latest tx r).2) r txs).
Proof.
  revert r. induction txs as [|tx txs IH]; intros r Hok; [done|].
  cbn. by apply IH, addValidatorTx_ok.
Qed.
End rdpos.

(** A round of two validators with one participant. *)
Definition demo_rdPoS : rdPoS := mkRdPoS [1; 2] [1; 2] ∅ 0 0 1.
Definition demo_commit : TxValidator := mkTxValidator 2 (be_bytes 4 3489654598 ++ be_bytes 32 9) 1 5 0 0 0 100.
Definition demo_reveal : TxValidator := mkTxValidator 2 (be_bytes 4 1875223254 ++ be_bytes 32 9) 1 5 0 0 0 101.

Lemma validateBlock_correct_witness :
  validateBlock be_value (mkBlockRdPoS 5 1 [demo_commit; demo_reveal] 0) demo_rdPoS = Ret true ∧
  block_ok be_value (mkBlockRdPoS 5 1 [demo_commit; demo_reveal] 0) demo_rdPoS.
Proof.
  assert (E : validateBlock be_value (mkBlockRdPoS 5 1 [demo_commit; demo_reveal] 0) demo_rdPoS
    = Ret true) by (vm_compute; reflexivity).
  split; [exact E|].
  destruct (validateBlock_correct be_value (mkBlockRdPoS 5 1 [demo_commit; demo_reveal] 0) demo_rdPoS)
    as (v & Hv & Hok); [cbn; lia|].
  apply Hok. rewrite E in Hv. by injection Hv as <-.
Defined.

Lemma addValidatorTx_invariant_witness :
  let r := foldl (λ r tx, (addValidatorTx 4 tx r).2) demo_rdPoS
             [demo_commit; demo_reveal; mkTxValidator 2 [1; 2; 3; 4] 1 5 0 0 0 102] in
  mempool_ok 4 r ∧ size (validatorMempool_ r) = 2%nat.
Proof.
  intros r. split; [|vm_compute; reflexivity].
  apply addValidatorTx_invariant. split; try done.
  - intros a. vm_compute. lia.
  - intros a. constructor.
Defined.
