(* ===== verification/FinalizedBlock.v ===== *)
(** * Blocks and their bytes

    Models src/utils/finalizedblock.h and src/utils/finalizedblock.cpp: creation
    of a signed block, its serialization, and the parser, sequential and split
    over threads.  A block is 65 bytes of signature, 144 of header, 8 with the
    position of the validator transactions, and the transactions, each behind its
    size in 4 bytes. *)

From S2P Require Import Prelude CheckedInt ExecutionContext Bytes Tx Merkle RdPoS.

Record FinalizedBlock := mkFinalizedBlock {
  validatorSig_ : list Z;
  validatorPubKey_ : Z;
  prevBlockHash_ : Hash;
  blockRandomness_ : Hash;
  validatorMerkleRoot_ : Hash;
  txMerkleRoot_ : Hash;
  timestamp_ : Z;
  nHeight_ : Z;
  txValidators_ : list TxValidator;
  txs_ : list TxBlock;
  hash_ : Hash;
  size_ : Z;
}.

Section block.
Context {BI : BoostInt} {EC : Secp256k1}.

(** ** Serialization *)

(** [serializeHeader] *)
Definition header (prev rand vroot troot timestamp nHeight : Z) : list Z :=
  be_bytes 32 prev ++ be_bytes 32 rand ++ be_bytes 32 vroot ++ be_bytes 32 troot ++
  be_bytes 8 timestamp ++ be_bytes 8 nHeight.

Definition serializeHeader (b : FinalizedBlock) : list Z :=
  header (prevBlockHash_ b) (blockRandomness_ b) (validatorMerkleRoot_ b) (txMerkleRoot_ b)
    (timestamp_ b) (nHeight_ b).

(** Each transaction behind its size. *)
Definition frame (txBytes : list Z) : list Z :=
  be_bytes 4 (Z.of_nat (length txBytes)) ++ txBytes.
Definition frames (l : list (list Z)) : list Z := concat (frame <$> l).

Definition serializeBlock (b : FinalizedBlock) : list Z :=
  let txs := frames (TxBlock_rlpSerialize true <$> txs_ b) in
  let head := validatorSig_ b ++ serializeHeader b in
  let txValidatorStart := (length head + 8 + length txs)%nat in
  head ++ be_bytes 8 (Z.of_nat txValidatorStart) ++ txs ++
  frames (TxValidator_rlpSerialize true <$> txValidators_ b).

(** [createNewValidBlock] *)
Definition createNewValidBlock (txs : list TxBlock) (txValidators : list TxValidator)
    (prevBlockHash : Hash) (timestamp nHeight validatorPrivKey : Z) : FinalizedBlock :=
  let blockRandomness := parseTxSeedList keccak256 txValidators in
  let validatorMerkleRoot := getRoot (Merkle keccak256 (tv_hash <$> txValidators)) in
  let txMerkleRoot := getRoot (Merkle keccak256 (tx_hash <$> txs)) in
  let headerHash := keccak256
    (header prevBlockHash blockRandomness validatorMerkleRoot txMerkleRoot timestamp nHeight) in
  let signature := sign headerHash validatorPrivKey in
  mkFinalizedBlock signature (recover signature headerHash) prevBlockHash blockRandomness
    validatorMerkleRoot txMerkleRoot timestamp nHeight txValidators txs headerHash
    (wrap 64 (foldl (λ n tx, n + (TxValidator_rlpSize tx + 4))
      (foldl (λ n tx, n + (TxBlock_rlpSize tx + 4)) 217 txs) txValidators)).

(** ** Parsing *)

(** [bytes.subspan(index, len)] *)
Definition sub (bytes : list Z) (index len : Z) : outcome (list Z) :=
  if decide (0 ≤ index ∧ index + len ≤ Z.of_nat (length bytes))
  then Ret (subspan (Z.to_nat index) (Z.to_nat len) bytes)
  else Throw undefined_behaviour.

Definition read_size (bytes : list Z) (index : Z) : outcome Z :=
  l ← sub bytes index 4; Ret (be_value l).

(** The loops that count the transactions between [index] and [stop].  Each pass
    reads 4 bytes of the buffer and moves on, so the length of the buffer is
    enough fuel. *)
Fixpoint count_txs (fuel : nat) (bytes : list Z) (index stop : Z) : outcome nat :=
  match fuel with
  | O => Throw undefined_behaviour
  | S fuel =>
      if index <? stop then
        txSize ← read_size bytes index;
        n ← count_txs fuel bytes (index + (txSize + 4)) stop;
        Ret (S n)
      else Ret O
  end.

(** Parse [n] transactions from [index] on. *)
Fixpoint read_txs {T} (f : list Z → outcome T) (n : nat) (bytes : list Z) (index : Z) : outcome (list T) :=
  match n with
  | O => Ret []
  | S n =>
      txSize ← read_size bytes index;
      l ← sub bytes (index + 4) txSize;
      tx ← f l;
      rest ← read_txs f n bytes (index + 4 + txSize);
      Ret (tx :: rest)
  end.

(** The offset behind [n] transactions. *)
Fixpoint skip_txs (n : nat) (bytes : list Z) (index : Z) : outcome Z :=
  match n with
  | O => Ret index
  | S n => len ← read_size bytes index; skip_txs n bytes (index + (len + 4))
  end.

(** [txsPerThr]: an equal share for each thread, the rest for the last one. *)
Definition txsPerThr (thrNum txCount : nat) : list nat :=
  repeat (txCount / thrNum)%nat (thrNum - 1) ++ [txCount / thrNum + txCount mod thrNum]%nat.

(** The start offset of each thread; the last one is not moved past. *)
Fixpoint thread_starts (shares : list nat) (bytes : list Z) (thrOff : Z) : outcome (list Z) :=
  match shares with
  | [] => Ret []
  | [_] => Ret [thrOff]
  | n :: shares =>
      next ← skip_txs n bytes thrOff;
      rest ← thread_starts shares bytes next;
      Ret (thrOff :: rest)
  end.

(** Waiting for the threads in order; [get] rethrows the exception of a thread. *)
Fixpoint gather {T} (f : list Z → outcome T) (jobs : list (nat * Z)) (bytes : list Z) : outcome (list T) :=
  match jobs with
  | [] => Ret []
  | (n, start) :: jobs =>
      txs ← read_txs f n bytes start;
      rest ← gather f jobs bytes;
      Ret (txs ++ rest)
  end.

Definition read_parallel {T} (f : list Z → outcome T) (thrNum txCount : nat) (bytes : list Z)
    (index : Z) : outcome (list T) :=
  let shares := txsPerThr thrNum txCount in
  starts ← thread_starts shares bytes index;
  gather f (zip shares starts) bytes.

(** A validator transaction has the height of its block. *)
Definition parse_validator (nHeight : Z) (l : list Z) : outcome TxValidator :=
  tx ← TxValidator_fromBytes l;
  if negb (tv_nHeight tx =? nHeight) then Throw (DynamicException "Invalid validator tx height")
  else Ret tx.

(** The body of [fromBytes]; [thrNum] is [std::thread::hardware_concurrency()]. *)
Definition fromBytes_body (thrNum : nat) (bytes : list Z) : outcome FinalizedBlock :=
  if Z.of_nat (length bytes) <? 217 then Throw (length_error "Invalid block size - too short")
  else
    let field i n := subspan i n bytes in
    let num i n := be_value (field i n) in
    let nHeight := num 201%nat 8%nat in
    let txValidatorStart := num 209%nat 8%nat in
    let size := Z.of_nat (length bytes) in
    txCount ← count_txs (S (length bytes)) bytes 217 txValidatorStart;
    valTxCount ← count_txs (S (length bytes)) bytes txValidatorStart size;
    txs ← (if decide (thrNum ≤ 1 ∨ txCount ≤ 2000)%nat
           then read_txs TxBlock_fromBytes txCount bytes 217
           else read_parallel TxBlock_fromBytes thrNum txCount bytes 217);
    txValidators ← read_txs (parse_validator nHeight) valTxCount bytes txValidatorStart;
    if negb (getRoot (Merkle keccak256 (tx_hash <$> txs)) =? num 161%nat 32%nat)
    then Throw (invalid_argument "Invalid tx merkle root")
    else if negb (getRoot (Merkle keccak256 (tv_hash <$> txValidators)) =? num 129%nat 32%nat)
    then Throw (invalid_argument "Invalid validator merkle root")
    else if negb (parseTxSeedList keccak256 txValidators =? num 97%nat 32%nat)
    then Throw (invalid_argument "Invalid block randomness")
    else
      let hash := keccak256 (field 65%nat 144%nat) in
      let validatorSig := field 0%nat 65%nat in
      Ret (mkFinalizedBlock validatorSig (recover validatorSig hash) (num 65%nat 32%nat)
        (num 97%nat 32%nat) (num 129%nat 32%nat) (num 161%nat 32%nat) (num 193%nat 8%nat) nHeight
        txValidators txs hash size).

(** [FinalizedBlock::fromBytes]: every exception leaves as a [domain_error]. *)
Definition fromBytes (thrNum : nat) (bytes : list Z) : outcome FinalizedBlock :=
  match fromBytes_body thrNum bytes with
  | Ret b => Ret b
  | Throw undefined_behaviour => Throw undefined_behaviour
  | Throw _ => Throw (domain_error "Error when deserializing a FinalizedBlock")
  end.

(** ** Threads *)

Lemma skip_txs_add n m bytes index :
  skip_txs (n + m) bytes index = (e ← skip_txs n bytes index; skip_txs m bytes e).
Proof.
  revert index. induction n as [|n IH]; intros index; [done|]. cbn [Nat.add skip_txs].
  unfold mbind, outcome_bind in *. destruct (read_size bytes index); [apply IH|done].
Qed.

Lemma read_txs_add {T} (f : list Z → outcome T) n m bytes index e :
  skip_txs n bytes index = Ret e →
  read_txs f (n + m) bytes index =
    (l1 ← read_txs f n bytes index; l2 ← read_txs f m bytes e; Ret (l1 ++ l2)).
Proof.
  revert index. induction n as [|n IH]; intros index Hs; cbn [Nat.add read_txs skip_txs] in *.
  { injection Hs as <-. unfold mbind, outcome_bind. by destruct (read_txs f m bytes index). }
  unfold mbind, outcome_bind in *. destruct (read_size bytes index) as [len|]; [|done].
  destruct (sub _ _ _) as [l|]; [|done]. destruct (f l) as [tx|]; [|done].
  replace (index + 4 + len) with (index + (len + 4)) by lia. rewrite IH by done.
  destruct (read_txs f n _ _) as [l1|]; [|done]. by destruct (read_txs f m bytes e).
Qed.

Lemma count_skip fuel bytes index stop n :
  count_txs fuel bytes index stop = Ret n → ∃ e, skip_txs n bytes index = Ret e.
Proof.
  revert index n. induction fuel as [|fuel IH]; intros index n Hc; cbn [count_txs] in Hc; [done|].
  destruct (index <? stop); [|injection Hc as <-; by eexists].
  unfold mbind, outcome_bind in Hc. destruct (read_size bytes index) as [len|] eqn:Hr; [|done].
  destruct (count_txs fuel _ _ _) as [k|] eqn:Hk; [|done]. injection Hc as <-.
  cbn [skip_txs]. unfold mbind, outcome_bind. rewrite Hr. by apply (IH _ _ Hk).
Qed.

Lemma thread_starts_Ret shares bytes index e :
  skip_txs (sum_list shares) bytes index = Ret e → ∃ st, thread_starts shares bytes index = Ret st.
Proof.
  revert index. induction shares as [|n shares IH]; intros index Hs; [by eexists|].
  destruct shares as [|m shares]; [by eexists|].
  change (sum_list (n :: m :: shares)) with (n + sum_list (m :: shares))%nat in Hs.
  rewrite skip_txs_add in Hs. unfold mbind, outcome_bind in Hs.
  destruct (skip_txs n bytes index) as [e1|] eqn:H1; [|done].
  destruct (IH e1 Hs) as [st Hst]. exists (index :: st).
  change (thread_starts (n :: m :: shares) bytes index) with
    (next ← skip_txs n bytes index; rest ← thread_starts (m :: shares) bytes next;
     Ret (index :: rest)).
  unfold mbind, outcome_bind. by rewrite H1, Hst.
Qed.

Lemma gather_read {T} (f : list Z → outcome T) shares bytes index e :
  shares ≠ [] → skip_txs (sum_list shares) bytes index = Ret e →
  (starts ← thread_starts shares bytes index; gather f (zip shares starts) bytes) =
    read_txs f (sum_list shares) bytes index.
Proof.
  revert index. induction shares as [|n shares IH]; intros index Hne Hs; [done|].
  destruct shares as [|m shares].
  { cbn [thread_starts sum_list sum_list_with] in *. rewrite Nat.add_0_r. cbn.
    destruct (read_txs f n bytes index); [|done]. cbn. by rewrite app_nil_r. }
  change (sum_list (n :: m :: shares)) with (n + sum_list (m :: shares))%nat in *.
  rewrite skip_txs_add in Hs. unfold mbind, outcome_bind in Hs.
  destruct (skip_txs n bytes index) as [e1|] eqn:H1; [|done].
  rewrite (read_txs_add f n _ bytes index e1 H1), <- (IH e1) by done.
  change (thread_starts (n :: m :: shares) bytes index) with
    (next ← skip_txs n bytes index; rest ← thread_starts (m :: shares) bytes next;
     Ret (index :: rest)).
  unfold mbind, outcome_bind. rewrite H1.
  destruct (thread_starts_Ret (m :: shares) bytes e1 e Hs) as [starts ->].
  change (zip (n :: m :: shares) (index :: starts)) with ((n, index) :: zip (m :: shares) starts).
  done.
Qed.

Lemma txsPerThr_sum thrNum txCount : (1 ≤ thrNum)%nat →
  sum_list (txsPerThr thrNum txCount) = txCount ∧ txsPerThr thrNum txCount ≠ [].
Proof.
  intros Ht. unfold txsPerThr. split; [|by destruct (repeat _ _)].
  assert (Hr : ∀ n k l, sum_list (repeat k n ++ l) = (n * k + sum_list l)%nat)
    by (induction n as [|n IH]; intros k l; cbn in *; [done|rewrite IH; lia]).
  rewrite Hr. cbn. pose proof (Nat.div_mod_eq txCount thrNum) as Hd.
  destruct thrNum as [|t]; [lia|]. cbn [Nat.sub]. rewrite Nat.sub_0_r. lia.
Qed.

(** Splitting the work over threads gives what the sequential loop gives. *)
Lemma read_parallel_read {T} (f : list Z → outcome T) thrNum fuel bytes index stop n :
  (1 ≤ thrNum)%nat → count_txs fuel bytes index stop = Ret n →
  read_parallel f thrNum n bytes index = read_txs f n bytes index.
Proof.
  intros Ht Hc. destruct (count_skip _ _ _ _ _ Hc) as [e He].
  destruct (txsPerThr_sum thrNum n Ht) as [Hsum Hne]. rewrite <- Hsum in He.
  unfold read_parallel. rewrite (gather_read f _ _ _ e Hne He). by rewrite Hsum.
Qed.

Lemma fromBytes_body_threads thrNum bytes : fromBytes_body thrNum bytes = fromBytes_body 1 bytes.
Proof.
  unfold fromBytes_body. destruct (_ <? 217); [done|].
  unfold mbind, outcome_bind. destruct (count_txs _ bytes 217 _) as [n|] eqn:Hc; [|done].
  destruct (count_txs _ bytes (be_value _) _) as [k|]; [|done].
  rewrite (decide_True (P := (1 ≤ 1 ∨ n ≤ 2000)%nat)) by lia.
  case_decide; [done|]. rewrite (read_parallel_read _ thrNum _ _ _ _ _ ltac:(lia) Hc). done.
Qed.

(** ** Reading back a block *)

Lemma sub_at pre item post : 
  sub (pre ++ item ++ post) (Z.of_nat (length pre)) (Z.of_nat (length item)) = Ret item.
Proof.
  unfold sub. rewrite decide_True by (rewrite !length_app; lia).
  unfold subspan. by rewrite !Nat2Z.id, drop_app_length, take_app_length.
Qed.

Lemma field_at bytes pre item post i n :
  bytes = pre ++ item ++ post → i = length pre → n = length item → subspan i n bytes = item.
Proof. intros -> -> ->. unfold subspan. by rewrite drop_app_length, take_app_length. Qed.

Definition small (l : list Z) : Prop := Z.of_nat (length l) < 2 ^ 32.

Lemma read_size_frame pre l post : small l →
  read_size (pre ++ frame l ++ post) (Z.of_nat (length pre)) = Ret (Z.of_nat (length l)).
Proof.
  intros Hl. unfold read_size, frame. rewrite <- app_assoc.
  pose proof (sub_at pre (be_bytes 4 (Z.of_nat (length l))) (l ++ post)) as Hs.
  rewrite be_bytes_length in Hs. change (Z.of_nat 4) with 4 in Hs. rewrite Hs. cbn [mbind outcome_bind].
  by rewrite be_value_bytes by (unfold in_range, small in *; change (2 ^ (8 * Z.of_nat 4)) with (2 ^ 32); lia).
Qed.

Lemma frame_length l : Z.of_nat (length (frame l)) = Z.of_nat (length l) + 4.
Proof. unfold frame. rewrite length_app, be_bytes_length. lia. Qed.

Lemma frames_cons l ls : frames (l :: ls) = frame l ++ frames ls.
Proof. done. Qed.

Lemma count_frames ls pre post fuel : Forall small ls → (length ls < fuel)%nat →
  count_txs fuel (pre ++ frames ls ++ post) (Z.of_nat (length pre))
    (Z.of_nat (length pre) + Z.of_nat (length (frames ls))) = Ret (length ls).
Proof.
  intros Hls. revert pre fuel. induction Hls as [|l ls Hl Hls IH]; intros pre fuel Hf;
    (destruct fuel as [|fuel]; [lia|]); cbn [count_txs].
  { by rewrite (proj2 (Z.ltb_ge _ _)) by (cbn; lia). }
  rewrite frames_cons, <- app_assoc, length_app, Nat2Z.inj_add.
  rewrite (proj2 (Z.ltb_lt _ _)) by (rewrite frame_length; lia).
  rewrite read_size_frame by done. cbn [mbind outcome_bind].
  replace (Z.of_nat (length pre) + (Z.of_nat (length l) + 4)) with (Z.of_nat (length (pre ++ frame l)))
    by (rewrite length_app, Nat2Z.inj_add, frame_length; lia).
  rewrite (app_assoc pre).
  replace (Z.of_nat (length pre) + (Z.of_nat (length (frame l)) + Z.of_nat (length (frames ls)))) with
    (Z.of_nat (length (pre ++ frame l)) + Z.of_nat (length (frames ls)))
    by (rewrite length_app, Nat2Z.inj_add; lia).
  rewrite IH by (cbn in Hf; lia). done.
Qed.

Lemma read_frames {T} (f : list Z → outcome T) (ser : T → list Z) txs pre post :
  Forall (λ tx, small (ser tx) ∧ f (ser tx) = Ret tx) txs →
  read_txs f (length txs) (pre ++ frames (ser <$> txs) ++ post) (Z.of_nat (length pre)) = Ret txs.
Proof.
  intros Htxs. revert pre. induction Htxs as [|tx txs [Hs Hf] Htxs IH]; intros pre; [done|].
  rewrite fmap_cons, frames_cons, <- app_assoc. cbn [read_txs length].
  rewrite read_size_frame by done. cbn [mbind outcome_bind].
  set (l := ser tx) in *.
  pose proof (sub_at (pre ++ be_bytes 4 (Z.of_nat (length l))) l (frames (ser <$> txs) ++ post)) as Hsub.
  rewrite length_app, be_bytes_length, Nat2Z.inj_add in Hsub. change (Z.of_nat 4) with 4 in Hsub.
  replace ((pre ++ be_bytes 4 (Z.of_nat (length l))) ++ l ++ frames (ser <$> txs) ++ post)
    with (pre ++ frame l ++ frames (ser <$> txs) ++ post) in Hsub
    by (unfold frame; by rewrite <- !app_assoc).
  rewrite Hsub. cbn [mbind outcome_bind]. rewrite Hf. cbn [mbind outcome_bind].
  replace (Z.of_nat (length pre) + 4 + Z.of_nat (length l)) with (Z.of_nat (length (pre ++ frame l)))
    by (rewrite length_app, Nat2Z.inj_add, frame_length; lia).
  rewrite (app_assoc pre), IH. done.
Qed.

Lemma num_at bytes pre k z post i n :
  bytes = pre ++ be_bytes k z ++ post → i = length pre → n = k → in_range (8 * Z.of_nat k) z →
  be_value (subspan i n bytes) = z.
Proof.
  intros Hb Hi -> Hz.
  rewrite (field_at bytes pre (be_bytes k z) post i k Hb Hi) by by rewrite be_bytes_length.
  by apply be_value_bytes.
Qed.

(** The fixed-size fields are read back. *)
Lemma fixed_fields bytes sig p r v t ts h st rest :
  bytes = sig ++ header p r v t ts h ++ be_bytes 8 st ++ rest → length sig = 65%nat →
  in_range 256 p → in_range 256 r → in_range 256 v → in_range 256 t →
  in_range 64 ts → in_range 64 h → in_range 64 st →
  subspan 0 65 bytes = sig ∧ subspan 65 144 bytes = header p r v t ts h ∧
  be_value (subspan 65 32 bytes) = p ∧ be_value (subspan 97 32 bytes) = r ∧
  be_value (subspan 129 32 bytes) = v ∧ be_value (subspan 161 32 bytes) = t ∧
  be_value (subspan 193 8 bytes) = ts ∧ be_value (subspan 201 8 bytes) = h ∧
  be_value (subspan 209 8 bytes) = st.
Proof.
  intros Hb Hs Hp Hr Hv Ht Hts Hh Hst. pose proof Hb as Hb'. unfold header in Hb'.
  rewrite <- !app_assoc in Hb'. split_and!.
  - by apply (field_at _ [] sig _ _ _ Hb).
  - apply (field_at _ sig _ _ _ _ Hb); [done|]. unfold header. by rewrite !length_app, !be_bytes_length.
  - by apply (num_at _ sig 32 _ _ _ _ Hb').
  - eapply (num_at _ (sig ++ be_bytes 32 p) 32); [by rewrite <- !app_assoc| |done..].
    by rewrite !length_app, !be_bytes_length, Hs.
  - eapply (num_at _ (sig ++ be_bytes 32 p ++ be_bytes 32 r) 32); [by rewrite <- !app_assoc| |done..].
    by rewrite !length_app, !be_bytes_length, Hs.
  - eapply (num_at _ (sig ++ be_bytes 32 p ++ be_bytes 32 r ++ be_bytes 32 v) 32);
      [by rewrite <- !app_assoc| |done..].
    by rewrite !length_app, !be_bytes_length, Hs.
  - eapply (num_at _ (sig ++ be_bytes 32 p ++ be_bytes 32 r ++ be_bytes 32 v ++ be_bytes 32 t) 8);
      [by rewrite <- !app_assoc| |done..].
    by rewrite !length_app, !be_bytes_length, Hs.
  - eapply (num_at _ (sig ++ be_bytes 32 p ++ be_bytes 32 r ++ be_bytes 32 v ++ be_bytes 32 t ++
      be_bytes 8 ts) 8); [by rewrite <- !app_assoc| |done..].
    by rewrite !length_app, !be_bytes_length, Hs.
  - eapply (num_at _ (sig ++ header p r v t ts h) 8); [by rewrite <- !app_assoc| |done..].
    unfold header. by rewrite !length_app, !be_bytes_length, Hs.
Qed.

(** Every hash of a tree is a hash of [keccak256]. *)
Lemma newLayer_range l : Forall (in_range 256) l → Forall (in_range 256) (newLayer keccak256 l).
Proof.
  induction l as [|a|a b l IH] using pair_ind; intros Hl; [done..|].
  apply Forall_cons in Hl as [_ [_ Hl]%Forall_cons]. cbn [newLayer].
  constructor; [apply keccak256_range|auto].
Qed.

Lemma layers_root_range fuel l : Forall (in_range 256) l → in_range 256 (getRoot (layers keccak256 fuel l)).
Proof.
  assert (Hone : ∀ l, Forall (in_range 256) l → in_range 256 (getRoot [l])).
  { intros [|h l'] Hl; [done|]. by apply Forall_cons in Hl as [Hh _]. }
  revert l. induction fuel as [|fuel IH]; intros l Hl; cbn [layers]; [by apply Hone|].
  case_decide; [|by apply Hone]. rewrite getRoot_cons by apply layers_cons.
  by apply IH, newLayer_range.
Qed.

Lemma Merkle_root_range leaves : in_range 256 (getRoot (Merkle keccak256 leaves)).
Proof.
  apply layers_root_range, Forall_fmap, Forall_forall. intros x _. apply keccak256_range.
Qed.

Lemma seed_range txs : in_range 256 (parseTxSeedList keccak256 txs).
Proof. destruct txs; [done|]. apply keccak256_range. Qed.

(** Transactions that their constructors read back, of less than 4 GiB. *)
Definition txs_readable (txs : list TxBlock) : Prop :=
  Forall (λ tx, small (TxBlock_rlpSerialize true tx) ∧
    TxBlock_fromBytes (TxBlock_rlpSerialize true tx) = Ret tx) txs.
Definition validators_readable (nHeight : Z) (txs : list TxValidator) : Prop :=
  Forall (λ tx, small (TxValidator_rlpSerialize true tx) ∧
    TxValidator_fromBytes (TxValidator_rlpSerialize true tx) = Ret tx ∧ tv_nHeight tx = nHeight) txs.

Definition with_size (n : Z) (b : FinalizedBlock) : FinalizedBlock :=
  mkFinalizedBlock (validatorSig_ b) (validatorPubKey_ b) (prevBlockHash_ b) (blockRandomness_ b)
    (validatorMerkleRoot_ b) (txMerkleRoot_ b) (timestamp_ b) (nHeight_ b) (txValidators_ b) (txs_ b)
    (hash_ b) n.

Lemma validators_read nHeight txs : validators_readable nHeight txs →
  Forall (λ tx, small (TxValidator_rlpSerialize true tx) ∧
    parse_validator nHeight (TxValidator_rlpSerialize true tx) = Ret tx) txs.
Proof.
  intros H. eapply Forall_impl; [exact H|]. intros tx (Hs & Hf & Hh). split; [done|]. unfold parse_validator.
  rewrite Hf. cbn [mbind outcome_bind]. by rewrite Hh, Z.eqb_refl.
Qed.

Lemma Forall_small {T} (ser : T → list Z) (P : T → Prop) (txs : list T) :
  Forall (λ tx, small (ser tx) ∧ P tx) txs → Forall small (ser <$> txs).
Proof. intros H. apply Forall_fmap. eapply Forall_impl; [exact H|]. by intros tx [? _]. Qed.

(** The frames of a list are at least four bytes each. *)
Lemma frames_length ls : (length ls ≤ length (frames ls))%nat.
Proof.
  induction ls as [|l ls IH]; [done|]. rewrite frames_cons, length_app. cbn [length].
  pose proof (frame_length l). lia.
Qed.

Lemma serializeBlock_read b : 
  length (validatorSig_ b) = 65%nat → Z.of_nat (length (serializeBlock b)) < 2 ^ 64 →
  txs_readable (txs_ b) → validators_readable (nHeight_ b) (txValidators_ b) →
  let bytes := serializeBlock b in
  let start := Z.of_nat (217 + length (frames (TxBlock_rlpSerialize true <$> txs_ b))) in
  in_range 64 start ∧ 217 ≤ Z.of_nat (length bytes) ∧
  bytes = validatorSig_ b ++ serializeHeader b ++ be_bytes 8 start ++
    frames (TxBlock_rlpSerialize true <$> txs_ b) ++
    frames (TxValidator_rlpSerialize true <$> txValidators_ b) ∧
  count_txs (S (length bytes)) bytes 217 start = Ret (length (txs_ b)) ∧
  count_txs (S (length bytes)) bytes start (Z.of_nat (length bytes)) = Ret (length (txValidators_ b)) ∧
  read_txs TxBlock_fromBytes (length (txs_ b)) bytes 217 = Ret (txs_ b) ∧
  read_txs (parse_validator (nHeight_ b)) (length (txValidators_ b)) bytes start = Ret (txValidators_ b).
Proof.
  intros Hsig Hmax Htxs Htvs. cbv zeta. unfold serializeBlock in *. cbv zeta in *.
  set (F1 := frames (TxBlock_rlpSerialize true <$> txs_ b)) in *.
  set (F2 := frames (TxValidator_rlpSerialize true <$> txValidators_ b)) in *.
  assert (Hh : length (serializeHeader b) = 144%nat)
    by (unfold serializeHeader, header; by rewrite !length_app, !be_bytes_length).
  assert (Hhead : length (validatorSig_ b ++ serializeHeader b) = 209%nat)
    by by rewrite length_app, Hsig, Hh.
  rewrite Hhead in Hmax |- *. change (209 + 8)%nat with 217%nat in *.
  set (start := (217 + length F1)%nat) in *.
  set (pre := (validatorSig_ b ++ serializeHeader b) ++ be_bytes 8 (Z.of_nat start)).
  assert (Hpre : Z.of_nat (length pre) = 217)
    by (unfold pre; by rewrite length_app, be_bytes_length, Hhead).
  assert (Hbytes : (validatorSig_ b ++ serializeHeader b) ++ be_bytes 8 (Z.of_nat start) ++ F1 ++ F2 =
    pre ++ F1 ++ F2) by (unfold pre; by rewrite <- !app_assoc).
  rewrite Hbytes in Hmax |- *. rewrite !length_app in Hmax |- *.
  assert (Hst : Z.of_nat start = Z.of_nat (length (pre ++ F1))) by (rewrite length_app; lia).
  pose proof (frames_length (TxBlock_rlpSerialize true <$> txs_ b)) as L1. fold F1 in L1.
  pose proof (frames_length (TxValidator_rlpSerialize true <$> txValidators_ b)) as L2. fold F2 in L2.
  rewrite length_fmap in L1. rewrite length_fmap in L2.
  pose proof (Forall_small _ _ _ Htxs) as S1. pose proof (Forall_small _ _ _ Htvs) as S2.
  split_and!.
  - unfold in_range. lia.
  - lia.
  - unfold pre. by rewrite <- !app_assoc.
  - rewrite <- Hpre. replace (Z.of_nat start) with (Z.of_nat (length pre) + Z.of_nat (length F1)) by lia.
    pose proof (count_frames (TxBlock_rlpSerialize true <$> txs_ b) pre F2
      (S (length pre + (length F1 + length F2))) S1 ltac:(rewrite length_fmap; lia)) as Hc.
    rewrite length_fmap in Hc. exact Hc.
  - rewrite Hst, (app_assoc pre).
    replace (Z.of_nat (length pre + (length F1 + length F2)))
      with (Z.of_nat (length (pre ++ F1)) + Z.of_nat (length F2)) by (rewrite length_app; lia).
    pose proof (count_frames (TxValidator_rlpSerialize true <$> txValidators_ b) (pre ++ F1) []
      (S (length pre + (length F1 + length F2))) S2 ltac:(rewrite length_fmap; lia)) as Hc.
    rewrite app_nil_r, length_fmap in Hc. exact Hc.
  - rewrite <- Hpre. by apply read_frames.
  - rewrite Hst, (app_assoc pre). pose proof (read_frames (parse_validator (nHeight_ b))
      (TxValidator_rlpSerialize true) (txValidators_ b) (pre ++ F1) []
      (validators_read _ _ Htvs)) as Hr.
    rewrite app_nil_r in Hr. exact Hr.
Qed.
End block.

(** ** The properties of blocks *)

(** Reading a block does not depend on the machine: with any number of
    hardware threads [fromBytes] gives the same block, or the same exception, for
    every byte string. *)
Theorem fromBytes_thread_independent {BI : BoostInt} {EC : Secp256k1} (thr1 thr2 : nat) (bytes : list Z) :
  fromBytes thr1 bytes = fromBytes thr2 bytes.
Proof.
  unfold fromBytes. by rewrite (fromBytes_body_threads thr1), (fromBytes_body_threads thr2).
Qed.

(** A created block is read back. *)
Lemma block_reads {BI : BoostInt} {EC : Secp256k1} (thrNum : nat) (txs : list TxBlock)
    (txValidators : list TxValidator) (prev : Hash) (timestamp nHeight key : Z) :
  let b := createNewValidBlock txs txValidators prev timestamp nHeight key in
  in_range 256 prev → in_range 64 timestamp → in_range 64 nHeight →
  txs_readable txs → validators_readable nHeight txValidators →
  Z.of_nat (length (serializeBlock b)) < 2 ^ 64 →
  fromBytes thrNum (serializeBlock b) = Ret (with_size (Z.of_nat (length (serializeBlock b))) b).
Proof.
  intros b Hp Hts Hh Htxs Htvs Hmax.
  destruct (serializeBlock_read b (sign_length _ _) Hmax Htxs Htvs)
    as (Hst & Hlen & Hb & Hc1 & Hc2 & Hr1 & Hr2).
  destruct (fixed_fields _ _ _ _ _ _ _ _ _ _ Hb (sign_length _ _) Hp (seed_range _)
    (Merkle_root_range _) (Merkle_root_range _) Hts Hh Hst)
    as (Fs & Fh & Fp & Fr & Fv & Ft & Fts & Fn & Fst).
  clear Hb. set (bytes := serializeBlock b) in *.
  unfold fromBytes. rewrite fromBytes_body_threads. unfold fromBytes_body.
  rewrite (proj2 (Z.ltb_ge _ 217)) by done. cbv zeta.
  rewrite Fs, Fh, Fp, Fr, Fv, Ft, Fts, Fn, Fst, Hc1. cbn [mbind outcome_bind]. rewrite Hc2.
  cbn [mbind outcome_bind]. rewrite decide_True by lia. rewrite Hr1. cbn [mbind outcome_bind].
  rewrite Hr2. cbn [mbind outcome_bind]. by rewrite !Z.eqb_refl.
Qed.

Section created.
Context {BI : BoostInt} {EC : Secp256k1}.

(** Blocks made by a node, as [block_reads] takes them. *)
Definition created (b : FinalizedBlock) : Prop :=
  ∃ txs txValidators prev timestamp nHeight key,
    b = createNewValidBlock txs txValidators prev timestamp nHeight key ∧
    in_range 256 prev ∧ in_range 64 timestamp ∧ in_range 64 nHeight ∧
    txs_readable txs ∧ validators_readable nHeight txValidators ∧
    Z.of_nat (length (serializeBlock b)) < 2 ^ 64.
Definition received (b : FinalizedBlock) : FinalizedBlock := with_size (Z.of_nat (length (serializeBlock b))) b.

Lemma created_read thr b : created b → Z.of_nat (length (serializeBlock b)) < 2 ^ 64 ∧
  fromBytes thr (serializeBlock b) = Ret (received b).
Proof. intros (? & ? & ? & ? & ? & ? & -> & ? & ? & ? & ? & ? & ?). split; [done|]. by apply block_reads. Qed.
End created.

(** Signed transactions as a block takes them: signed, of less than 4 GiB, and
    not with the 55 bytes of data that no constructor reads. *)
Definition tx_fit {BI : BoostInt} {EC : Secp256k1} (tx : TxBlock) : Prop :=
  tx_signed tx ∧ length (tx_data tx) ≠ 55%nat ∧ 55 < TxBlock_rlpSize tx ∧ small (TxBlock_rlpSerialize true tx).
Definition tv_fit {BI : BoostInt} {EC : Secp256k1} (nHeight : Z) (tx : TxValidator) : Prop :=
  tv_signed tx ∧ tv_nHeight tx = nHeight ∧ length (tv_data tx) ≠ 55%nat ∧ 55 < TxValidator_rlpSize tx ∧
  small (TxValidator_rlpSerialize true tx).

Lemma txs_fit_readable {BI : BoostInt} {EC : Secp256k1} txs : Forall tx_fit txs → txs_readable txs.
Proof.
  intros H. eapply Forall_impl; [exact H|]. intros tx (Hs & H55 & Hz & Hl). split; [done|]. by apply TxBlock_signed_reads.
Qed.
Lemma tvs_fit_readable {BI : BoostInt} {EC : Secp256k1} nHeight txs : Forall (tv_fit nHeight) txs → validators_readable nHeight txs.
Proof.
  intros H. eapply Forall_impl; [exact H|]. intros tx (Hs & Hh & H55 & Hz & Hl).
  split_and!; [done|by apply TxValidator_signed_reads|done].
Qed.

(** C13: a block created by the node is read back from its bytes: signature,
    signer, hashes, Merkle roots, randomness, timestamp, height and all
    transactions.  Only the cached size differs: the reader has the number of
    bytes, the creator an estimate without the transactions' list headers.  The
    transactions carry valid signatures (as both constructors make them), none
    has 55 bytes of data, and the block has less than 2^64 bytes. *)
Theorem block_roundtrip {BI : BoostInt} {EC : Secp256k1} (thrNum : nat) (txs : list TxBlock)
    (txValidators : list TxValidator) (prev : Hash) (timestamp nHeight key : Z) :
  let b := createNewValidBlock txs txValidators prev timestamp nHeight key in
  in_range 256 prev → in_range 64 timestamp → in_range 64 nHeight →
  Forall tx_fit txs → Forall (tv_fit nHeight) txValidators →
  Z.of_nat (length (serializeBlock b)) < 2 ^ 64 →
  fromBytes thrNum (serializeBlock b) = Ret (with_size (Z.of_nat (length (serializeBlock b))) b).
Proof. intros b Hp Ht Hh Htxs Htvs. apply block_reads; auto using txs_fit_readable, tvs_fit_readable. Qed.

Definition demo_txs : list TxBlock := Eval vm_compute in
  match TxBlock_make (EC := demo_ec) 5 7 [1; 2; 3] 8080 300 1000 1 (10 ^ 9) 21000 99 with
  | Ret tx => [tx; tx]
  | Throw _ => []
  end.
Definition demo_validators : list TxValidator := Eval vm_compute in
  match TxValidator_make (EC := demo_ec) 7 (repeat 1 36) 8080 12 99 with
  | Ret tx => [tx]
  | Throw _ => []
  end.

Lemma demo_txs_fit : Forall (tx_fit (BI := boost_ref) (EC := demo_ec)) demo_txs.
Proof.
  set (tx := nth 0 demo_txs (mkTxBlock 0 0 [] 0 0 0 0 0 0 0 0 0 0)).
  assert (Hm : TxBlock_make (EC := demo_ec) 5 7 [1; 2; 3] 8080 300 1000 1 (10 ^ 9) 21000 99 = Ret tx) by (vm_compute; reflexivity).
  assert (Ht : tx_fit (BI := boost_ref) (EC := demo_ec) tx); [|by repeat constructor].
  assert (Hs : tx_signed (EC := demo_ec) tx).
  { eapply (TxBlock_made_signed (EC := demo_ec)); [..|exact Hm]; clear; vm_compute; first [split; congruence | congruence]. }
  split; [exact Hs|]. clear. split_and!; vm_compute; congruence.
Qed.
Lemma demo_validators_fit : Forall (tv_fit (BI := boost_ref) (EC := demo_ec) 12) demo_validators.
Proof.
  set (tx := nth 0 demo_validators (mkTxValidator 0 [] 0 0 0 0 0 0)).
  assert (Hm : TxValidator_make (EC := demo_ec) 7 (repeat 1 36) 8080 12 99 = Ret tx) by (vm_compute; reflexivity).
  assert (Ht : tv_fit (BI := boost_ref) (EC := demo_ec) 12 tx); [|by repeat constructor].
  assert (Hs : tv_signed (EC := demo_ec) tx).
  { eapply (TxValidator_made_signed (EC := demo_ec)); [..|exact Hm]; clear; vm_compute; first [split; congruence | congruence]. }
  split; [exact Hs|]. clear. split_and!; vm_compute; congruence.
Qed.
Lemma demo_txs_readable : txs_readable (BI := boost_ref) (EC := demo_ec) demo_txs.
Proof. apply txs_fit_readable, demo_txs_fit. Qed.
Lemma demo_validators_readable : validators_readable (BI := boost_ref) (EC := demo_ec) 12 demo_validators.
Proof. apply tvs_fit_readable, demo_validators_fit. Qed.

Lemma block_roundtrip_witness :
  let b := createNewValidBlock (EC := demo_ec) demo_txs demo_validators 5 1000 12 99 in
  size_ b = 558 ∧ Z.of_nat (length (serializeBlock b)) = 566 ∧
  fromBytes (BI := boost_ref) (EC := demo_ec) 8 (serializeBlock b) =
    Ret (with_size (Z.of_nat (length (serializeBlock b))) b).
Proof.
  intros b. split; [vm_compute; reflexivity|]. split; [vm_compute; reflexivity|].
  apply (block_roundtrip (BI := boost_ref) (EC := demo_ec) 8 demo_txs demo_validators 5 1000 12 99
    ltac:(done) ltac:(done) ltac:(done) demo_txs_fit demo_validators_fit).
  vm_compute. reflexivity.
Defined.
