(* ===== verification/P2PEncoding.v ===== *)
(** * The messages between nodes

    Models src/net/p2p/encoding.h and encoding.cpp: the layout of messages, the
    encoders and decoders of requests, answers, broadcasts and notifications.
    Enumerations are the numbers they are transmitted as, because the decoders
    can produce values that are not enumerators.  Random ids and the clock are
    arguments; the order in which a hash map is walked is the order of a list.
    [Utils::makeBytes], [bytes::join] and [appendBytes] are concatenation. *)

From S2P Require Import Prelude CheckedInt ExecutionContext Bytes Conv Tx FinalizedBlock.

(** [RequestType] and [CommandType] *)
Definition Requesting : Z := 0.
Definition Answering : Z := 1.
Definition Broadcasting : Z := 2.
Definition Notifying : Z := 3.
Definition Ping : Z := 0.
Definition Info : Z := 1.
Definition RequestNodes : Z := 2.
Definition RequestValidatorTxs : Z := 3.
Definition BroadcastValidatorTx : Z := 4.
Definition BroadcastTx : Z := 5.
Definition BroadcastBlock : Z := 6.
Definition RequestTxs : Z := 7.
Definition NotifyInfo : Z := 8.
Definition RequestBlock : Z := 9.

(** [typePrefixes], [commandPrefixes]: one entry per enumerator. *)
Definition typePrefixes : list (list Z) := map (λ i, [Z.of_nat i]) (seq 0 4).
Definition commandPrefixes : list (list Z) := map (λ i, [0; Z.of_nat i]) (seq 0 10).
Definition getRequestTypePrefix (type : Z) : list Z := nth (Z.to_nat type) typePrefixes [].
Definition getCommandPrefix (command : Z) : list Z := nth (Z.to_nat command) commandPrefixes [].

(** [span::subspan]: outside of the data is undefined. *)
Definition subspan (data : list Z) (off n : nat) : outcome (list Z) :=
  if decide (off + n <= length data)%nat then Ret (take n (drop off data)) else Throw undefined_behaviour.
Definition subspan_from (data : list Z) (off : nat) : outcome (list Z) :=
  if decide (off <= length data)%nat then Ret (drop off data) else Throw undefined_behaviour.

Definition getRequestType (message : list Z) : outcome Z :=
  if decide (length message = 1%nat) then
    t ← bytesToUint8 message ;
    if Z.of_nat (length typePrefixes) <? t then Throw (DynamicException "Invalid request type.") else Ret t
  else Throw (DynamicException "Invalid Request Type size. ").
Definition getCommandType (message : list Z) : outcome Z :=
  if decide (length message = 2%nat) then
    t ← bytesToUint16 message ;
    if Z.of_nat (length commandPrefixes) <? t then Throw (DynamicException "Invalid command type.") else Ret t
  else Throw (DynamicException "Invalid Command Type size.").

(** ** Messages *)

(** [Message(Bytes&&)]: a message is its raw bytes, at least 11 of them. *)
Definition Message_make (raw : list Z) : outcome (list Z) :=
  if decide (length raw < 11)%nat then Throw (DynamicException "Invalid message size.") else Ret raw.
Definition msg_type (m : list Z) : outcome Z := b ← subspan m 0 1 ; getRequestType b.
Definition msg_id (m : list Z) : outcome (list Z) := subspan m 1 8.
Definition msg_command (m : list Z) : outcome Z := b ← subspan m 9 2 ; getCommandType b.
Definition msg_message (m : list Z) : outcome (list Z) := subspan_from m 11.

Definition encode_message (type : Z) (id : list Z) (command : Z) (data : list Z) : outcome (list Z) :=
  Message_make (getRequestTypePrefix type ++ id ++ getCommandPrefix command ++ data).

(** [FNVHash] on a 64-bit [size_t] *)
Definition FNVHash (s : list Z) : Z :=
  fold_left (λ result b, Z.lxor (wrap 64 (16777619 * result)) b) s 2166136261.

(** ** Nodes *)

(** [boost::asio::ip::address] and [NodeID] *)
Inductive ip_address := V4 (bytes : list Z) | V6 (bytes : list Z).
#[export] Instance ip_eq : EqDecision ip_address.
Proof. solve_decision. Defined.
#[export] Program Instance ip_countable : Countable ip_address :=
  inj_countable' (λ a, match a with V4 b => (true, b) | V6 b => (false, b) end)
    (λ p : bool * list Z, if p.1 then V4 p.2 else V6 p.2) _.
Next Obligation. by intros []. Qed.
Definition NodeID : Type := ip_address * Z.

(** The checks and reads of one node, and the rest of the data. *)
Definition node_from (data : list Z) : outcome ((NodeID * Z) * list Z) :=
  if decide (length data < 2)%nat then Throw (DynamicException "Invalid data size (message too small)") else
  nodeType ← bytesToUint8 (take 1 data) ;
  ipVersion ← bytesToUint8 (take 1 (drop 1 data)) ;
  let rest := drop 2 data in
  ar ← (if ipVersion =? 0 then
          if decide (length rest < 4)%nat then Throw (DynamicException "Invalid data size (IPv4 too small)")
          else Ret (V4 (take 4 rest), drop 4 rest)
        else if ipVersion =? 1 then
          if decide (length rest < 16)%nat then Throw (DynamicException "Invalid data size (IPv6 too small)")
          else Ret (V6 (take 16 rest), drop 16 rest)
        else Throw (DynamicException "Invalid IP version (not v4 or v6)")) ;
  if decide (length ar.2 < 2)%nat then Throw (DynamicException "Invalid data size (missing port)") else
  port ← bytesToUint16 (take 2 ar.2) ;
  Ret ((ar.1, port, nodeType), drop 2 ar.2).

(** [while (index < data.size())]; [insert] keeps the first entry of a node. *)
Fixpoint nodes_loop (fuel : nat) (data : list Z) (nodes : gmap NodeID Z) : outcome (gmap NodeID Z) :=
  match data, fuel with
  | [], _ => Ret nodes
  | _, O => Throw undefined_behaviour
  | _, S fuel =>
      nr ← node_from data ;
      nodes_loop fuel nr.2 (match nodes !! nr.1.1 with Some _ => nodes | None => <[nr.1.1 := nr.1.2]> nodes end)
  end.
Definition nodesFromMessage (data : list Z) : outcome (gmap NodeID Z) := nodes_loop (length data) data ∅.

Definition node_to (n : NodeID * Z) : list Z :=
  let '((address, port), nodeType) := n in
  uint8ToBytes nodeType ++ uint8ToBytes (match address with V4 _ => 0 | V6 _ => 1 end) ++
  (match address with V4 b | V6 b => b end) ++ uint16ToBytes port.
Definition nodesToMessage (nodes : list (NodeID * Z)) : list Z := concat (map node_to nodes).

(** [NodeInfo]: version, the node's time, our time, the difference, height, hash
    and peers. *)
Record NodeInfo := mkNodeInfo {
  nodeVersion_ : Z;
  currentNodeTimestamp_ : Z;
  currentTimestamp_ : Z;
  timeDifference_ : Z;
  latestBlockHeight_ : Z;
  latestBlockHash_ : Hash;
  peers_ : list NodeID;
}.

(** [int64_t diff = currentEpoch - nodeEpoch] *)
Definition to_int64 (z : Z) : Z := signed 8 (wrap 64 z).
Definition nodeInfoFromMessage (now : Z) (data : list Z) : outcome NodeInfo :=
  v ← subspan data 0 8 ; nodeVersion ← bytesToUint64 v ;
  e ← subspan data 8 8 ; nodeEpoch ← bytesToUint64 e ;
  h ← subspan data 16 8 ; nodeHeight ← bytesToUint64 h ;
  hash ← subspan data 24 32 ;
  p ← subspan_from data 56 ;
  peers ← nodesFromMessage p ;
  Ret (mkNodeInfo nodeVersion nodeEpoch now (to_int64 (now - nodeEpoch)) nodeHeight (be_value hash)
    (map fst (map_to_list peers))).
Definition nodeInfoToMessage (now version height : Z) (hash : Hash) (nodes : list (NodeID * Z)) : list Z :=
  uint64ToBytes version ++ uint64ToBytes now ++ uint64ToBytes height ++ be_bytes 32 hash ++ nodesToMessage nodes.

(** ** Blocks and transactions *)

(** The loops of [blocksFromMessage] and [txsFromMessage]: a size of [w] bytes,
    read with [size_of], and an item. *)
Fixpoint items_loop {A} (small short : string) (w : nat) (size_of : list Z → outcome Z)
    (parse : list Z → outcome A) (fuel : nat) (data : list Z) : outcome (list A) :=
  match data, fuel with
  | [], _ => Ret []
  | _, O => Throw undefined_behaviour
  | _, S fuel =>
      if decide (length data < w)%nat then Throw (DynamicException small) else
      size ← size_of (take w data) ;
      let rest := drop w data in
      if Z.of_nat (length rest) <? size then Throw (DynamicException short) else
      x ← parse (take (Z.to_nat size) rest) ;
      xs ← items_loop small short w size_of parse fuel (drop (Z.to_nat size) rest) ;
      Ret (x :: xs)
  end.
Definition items_to (size_to : Z → list Z) (items : list (list Z)) : list Z :=
  concat (map (λ b, size_to (Z.of_nat (length b)) ++ b) items).

Section encoders.
Context {BI : BoostInt} {EC : Secp256k1}.
(** The number of hardware threads a block is read with. *)
Variable thr : nat.

Definition blocksFromMessage (data : list Z) : outcome (list FinalizedBlock) :=
  items_loop "Invalid data size (data too small)" "Invalid data size (block too small)" 8 bytesToUint64 (fromBytes thr)
    (length data) data.
Definition blocksToMessage (blocks : list FinalizedBlock) : list Z := items_to uint64ToBytes (map serializeBlock blocks).
Definition txsFromMessage {A} (parse : list Z → outcome A) (data : list Z) : outcome (list A) :=
  items_loop "Invalid data size (msg too small)" "Invalid data size (tx too small)" 4 bytesToUint32 parse
    (length data) data.
Definition txsToMessage {A} (rlpSerialize : A → list Z) (txs : list A) : list Z := items_to uint32ToBytes (map rlpSerialize txs).

(** *** Requests *)
Definition req_ping (id : list Z) := encode_message Requesting id Ping [].
Definition req_info (id : list Z) (now version height : Z) (hash : Hash) (nodes : list (NodeID * Z)) :=
  encode_message Requesting id Info (nodeInfoToMessage now version height hash nodes).
Definition req_requestNodes (id : list Z) := encode_message Requesting id RequestNodes [].
Definition req_requestValidatorTxs (id : list Z) := encode_message Requesting id RequestValidatorTxs [].
Definition req_requestTxs (id : list Z) := encode_message Requesting id RequestTxs [].
Definition req_requestBlock (id : list Z) (height heightEnd bytesLimit : Z) :=
  encode_message Requesting id RequestBlock
    (uint64ToBytes height ++ uint64ToBytes heightEnd ++ uint64ToBytes bytesLimit).

(** [RequestDecoder]: requests without data are 11 bytes. *)
Definition is_plain (command : Z) (m : list Z) : outcome bool :=
  if decide (length m = 11%nat) then c ← msg_command m ; Ret (c =? command) else Ret false.
Definition dec_req_ping (m : list Z) := is_plain Ping m.
Definition dec_req_requestNodes (m : list Z) := is_plain RequestNodes m.
Definition dec_req_requestValidatorTxs (m : list Z) := is_plain RequestValidatorTxs m.
Definition dec_req_requestTxs (m : list Z) := is_plain RequestTxs m.
Definition dec_req_info (now : Z) (m : list Z) : outcome NodeInfo :=
  c ← msg_command m ;
  if negb (c =? Info) then Throw (DynamicException "Invalid Info message command.")
  else d ← msg_message m ; nodeInfoFromMessage now d.
Definition dec_req_requestBlock (m : list Z) : outcome (Z * Z * Z) :=
  if negb (bool_decide (length m = 35%nat)) then Throw (DynamicException "Invalid RequestBlock message size.") else
  c ← msg_command m ;
  if negb (c =? RequestBlock) then Throw (DynamicException "Invalid RequestBlock message command.") else
  d ← msg_message m ;
  a ← subspan d 0 8 ; height ← bytesToUint64 a ;
  b ← subspan d 8 8 ; heightEnd ← bytesToUint64 b ;
  e ← subspan d 16 8 ; bytesLimit ← bytesToUint64 e ;
  Ret (height, heightEnd, bytesLimit).

(** *** Answers: the id is the request's *)
Definition answer (request : list Z) (command : Z) (data : list Z) : outcome (list Z) :=
  id ← msg_id request ; encode_message Answering id command data.
Definition ans_ping (request : list Z) := answer request Ping [].
Definition ans_info (request : list Z) (now version height : Z) (hash : Hash) (nodes : list (NodeID * Z)) :=
  answer request Info (nodeInfoToMessage now version height hash nodes).
Definition ans_requestNodes (request : list Z) (nodes : list (NodeID * Z)) :=
  answer request RequestNodes (nodesToMessage nodes).
Definition ans_requestValidatorTxs (request : list Z) (txs : list TxValidator) :=
  answer request RequestValidatorTxs (txsToMessage (TxValidator_rlpSerialize true) txs).
Definition ans_requestTxs (request : list Z) (txs : list TxBlock) :=
  answer request RequestTxs (txsToMessage (TxBlock_rlpSerialize true) txs).
Definition ans_requestBlock (request : list Z) (blocks : list FinalizedBlock) :=
  answer request RequestBlock (blocksToMessage blocks).

(** The type and command of a message, then its data. *)
Definition data_of (type command : Z) (m : list Z) : outcome (list Z) :=
  t ← msg_type m ;
  if negb (t =? type) then Throw (DynamicException "Invalid message type.") else
  c ← msg_command m ;
  if negb (c =? command) then Throw (DynamicException "Invalid command.") else msg_message m.
Definition dec_ans_ping (m : list Z) : outcome bool :=
  if negb (bool_decide (length m = 11%nat)) then Ret false else
  t ← msg_type m ; if negb (t =? Answering) then Ret false else c ← msg_command m ; Ret (c =? Ping).
Definition dec_ans_info (now : Z) (m : list Z) := d ← data_of Answering Info m ; nodeInfoFromMessage now d.
Definition dec_ans_requestNodes (m : list Z) := d ← data_of Answering RequestNodes m ; nodesFromMessage d.
Definition dec_ans_requestValidatorTxs (m : list Z) :=
  d ← data_of Answering RequestValidatorTxs m ; txsFromMessage TxValidator_fromBytes d.
Definition dec_ans_requestTxs (m : list Z) := d ← data_of Answering RequestTxs m ; txsFromMessage TxBlock_fromBytes d.
Definition dec_ans_requestBlock (m : list Z) := d ← data_of Answering RequestBlock m ; blocksFromMessage d.

(** *** Broadcasts: the id is the hash of the data *)
Definition broadcast (command : Z) (data : list Z) : outcome (list Z) :=
  encode_message Broadcasting (uint64ToBytes (FNVHash data)) command data.
Definition broadcastValidatorTx (tx : TxValidator) := broadcast BroadcastValidatorTx (TxValidator_rlpSerialize true tx).
Definition broadcastTx (tx : TxBlock) := broadcast BroadcastTx (TxBlock_rlpSerialize true tx).
Definition broadcastBlock (b : FinalizedBlock) := broadcast BroadcastBlock (serializeBlock b).

Definition broadcast_data (bad_id : string) (command : Z) (m : list Z) : outcome (list Z) :=
  t ← msg_type m ;
  if negb (t =? Broadcasting) then Throw (DynamicException "Invalid message type.") else
  i ← msg_id m ; id ← bytesToUint64 i ; d ← msg_message m ;
  if negb (id =? FNVHash d) then Throw (DynamicException bad_id) else
  c ← msg_command m ;
  if negb (c =? command) then Throw (DynamicException "Invalid command.") else Ret d.
Definition dec_broadcastValidatorTx (m : list Z) := d ← broadcast_data "Invalid message id." BroadcastValidatorTx m ; TxValidator_fromBytes d.
Definition dec_broadcastTx (m : list Z) := d ← broadcast_data "Invalid message id." BroadcastTx m ; TxBlock_fromBytes d.
Definition dec_broadcastBlock (m : list Z) := d ← broadcast_data "Invalid message id. " BroadcastBlock m ; fromBytes thr d.

(** *** Notifications *)
Definition notifyInfo (id : list Z) (now version height : Z) (hash : Hash) (nodes : list (NodeID * Z)) :=
  encode_message Notifying id NotifyInfo (nodeInfoToMessage now version height hash nodes).
Definition dec_notifyInfo (now : Z) (m : list Z) := d ← data_of Notifying NotifyInfo m ; nodeInfoFromMessage now d.
End encoders.

(** ** Lemmas *)

(** Reading the fields of a concatenation. *)
Lemma subspan_app a b c n : length a = n → subspan (a ++ b ++ c) n (length b) = Ret b.
Proof.
  intros <-. unfold subspan. rewrite decide_True by (rewrite !length_app; lia).
  by rewrite drop_app_length, take_app_length.
Qed.
Lemma subspan_from_app a b n : length a = n → subspan_from (a ++ b) n = Ret b.
Proof. intros <-. unfold subspan_from. rewrite decide_True by (rewrite length_app; lia). by rewrite drop_app_length. Qed.

Lemma type_prefix t : 0 <= t < 4 → getRequestTypePrefix t = [t] ∧ getRequestType [t] = Ret t.
Proof. intros Ht. assert (t = 0 ∨ t = 1 ∨ t = 2 ∨ t = 3) as [->|[->|[->| ->]]] by lia; by vm_compute. Qed.
Lemma command_prefix c : 0 <= c < 10 → ∃ b, getCommandPrefix c = b ∧ length b = 2%nat ∧ getCommandType b = Ret c.
Proof.
  intros Hc. assert (c = 0 ∨ c = 1 ∨ c = 2 ∨ c = 3 ∨ c = 4 ∨ c = 5 ∨ c = 6 ∨ c = 7 ∨ c = 8 ∨ c = 9) as Hcase by lia.
  eexists. split; [done|]. repeat (destruct Hcase as [->|Hcase]; [by vm_compute|]). subst c. by vm_compute.
Qed.

(** A message says what it was made of. *)
Lemma message_layout type id command data : 0 <= type < 4 → 0 <= command < 10 → length id = 8%nat →
  ∃ m, encode_message type id command data = Ret m ∧ length m = (11 + length data)%nat ∧
    msg_type m = Ret type ∧ msg_id m = Ret id ∧ msg_command m = Ret command ∧ msg_message m = Ret data.
Proof.
  intros Ht Hc Hid. destruct (type_prefix type Ht) as [Tp Tg]. destruct (command_prefix command Hc) as (b & Cp & Cl & Cg).
  unfold encode_message, Message_make. rewrite Tp, Cp. eexists.
  rewrite decide_False by (rewrite !length_app, Hid, Cl; cbn; lia). split; [done|]. split_and!.
  - rewrite !length_app, Hid, Cl. cbn. lia.
  - unfold msg_type. pose proof (subspan_app [] [type] (id ++ b ++ data) 0 eq_refl) as E.
    change (subspan ([type] ++ id ++ b ++ data) 0 1 = Ret [type]) in E. by rewrite E.
  - unfold msg_id. pose proof (subspan_app [type] id (b ++ data) 1 eq_refl) as E. by rewrite Hid in E.
  - unfold msg_command. pose proof (subspan_app ([type] ++ id) b data 9) as E. rewrite Cl, length_app, Hid in E.
    rewrite <- (assoc_L (++)) in E. by rewrite E.
  - unfold msg_message. rewrite !(assoc_L (++)), subspan_from_app by (rewrite !length_app, Hid, Cl; done). done.
Qed.

Lemma items_read {A} small short w size_to size_of (parse : list Z → outcome A) (bs : list (list Z)) xs fuel :
  (0 < w)%nat → (∀ n, in_range (8 * Z.of_nat w) n → size_to n = be_bytes w n ∧ size_of (be_bytes w n) = Ret n) →
  Forall2 (λ b x, in_range (8 * Z.of_nat w) (Z.of_nat (length b)) ∧ parse b = Ret x) bs xs →
  (length bs <= fuel)%nat → items_loop small short w size_of parse fuel (items_to size_to bs) = Ret xs.
Proof.
  intros Hw Hsz Hall. revert fuel. induction Hall as [|b x bs xs [Hb Hx] Hall IH]; intros fuel Hf; [by destruct fuel|].
  destruct fuel as [|fuel]; [cbn in Hf; lia|]. unfold items_to. cbn [map concat]. fold (items_to size_to bs).
  destruct (Hsz _ Hb) as [Et Eo]. rewrite Et.
  set (data := (be_bytes w (Z.of_nat (length b)) ++ b) ++ items_to size_to bs).
  assert (Hd : data = be_bytes w (Z.of_nat (length b)) ++ b ++ items_to size_to bs) by (unfold data; by rewrite <- (assoc_L (++))).
  assert (Hlen : (w <= length data)%nat) by (rewrite Hd, length_app, be_bytes_length; lia).
  destruct data as [|z data'] eqn:Hdata; [cbn in Hlen; lia|]. rewrite <- Hdata in *. cbn [items_loop].
  destruct data as [|z' data''] eqn:Hdata2; [done|]. rewrite <- Hdata2 in *.
  rewrite decide_False by lia. rewrite Hd.
  rewrite take_app_length', drop_app_length' by (by rewrite be_bytes_length). rewrite Eo. cbn [mbind outcome_bind].
  destruct (Z.ltb_spec (Z.of_nat (length (b ++ items_to size_to bs))) (Z.of_nat (length b))) as [Hlt|_];
    [rewrite length_app in Hlt; lia|].
  rewrite Nat2Z.id, take_app_length, drop_app_length, Hx. cbn [mbind outcome_bind]. rewrite IH by (cbn in Hf; lia). done.
Qed.

(** ** Nodes *)

Definition node_ok (n : NodeID * Z) : Prop :=
  in_range 8 n.2 ∧ in_range 16 n.1.2 ∧ match n.1.1 with V4 b => length b = 4%nat | V6 b => length b = 16%nat end.

Lemma node_read n rest : node_ok n → node_from (node_to n ++ rest) = Ret (n, rest).
Proof.
  destruct n as [[a port] t]. intros (Ht & Hp & Ha). cbn [fst snd] in *.
  destruct (u16_bytes port Hp) as [Ep Rp].
  assert (Hbody : ∀ (v : Z) (b : list Z), length b = (if (v =? 0)%Z then 4%nat else 16%nat) → v = 0 ∨ v = 1 →
    node_from ((uint8ToBytes t ++ uint8ToBytes v ++ b ++ uint16ToBytes port) ++ rest) =
      Ret (((if v =? 0 then V4 b else V6 b), port, t), rest)).
  { intros v b Hb Hv. rewrite (u8_bytes t Ht), (u8_bytes v), Ep by (unfold in_range; lia).
    cbn [app]. rewrite <- !(assoc_L (++)). unfold node_from. rewrite decide_False by (cbn; lia).
    cbn [take drop]. assert (E8 : ∀ z, bytesToUint8 [z] = Ret z) by done. rewrite !E8. cbn [mbind outcome_bind].
    destruct Hv as [->| ->]; cbn [Z.eqb Pos.eqb] in Hb |- *; rewrite ?drop_0;
      (rewrite decide_False by (rewrite length_app; lia)); cbn [mbind outcome_bind fst snd];
      rewrite take_app_length', drop_app_length' by done; cbn [fst snd];
      (rewrite decide_False by (rewrite length_app, be_bytes_length; lia));
      rewrite take_app_length', drop_app_length' by (by rewrite be_bytes_length); rewrite Rp; done. }
  destruct a as [b|b]; cbn [node_to]; [apply (Hbody 0)|apply (Hbody 1)]; auto.
Qed.

Definition insert_first (m : gmap NodeID Z) (n : NodeID * Z) : gmap NodeID Z :=
  match m !! n.1 with Some _ => m | None => <[n.1 := n.2]> m end.

Lemma nodes_read l m fuel : Forall node_ok l → (length l <= fuel)%nat →
  nodes_loop fuel (nodesToMessage l) m = Ret (fold_left insert_first l m).
Proof.
  intros Hl. revert m fuel. induction Hl as [|n l Hn Hl IH]; intros m fuel Hf; [by destruct fuel|].
  destruct fuel as [|fuel]; [cbn in Hf; lia|]. unfold nodesToMessage. cbn [map concat]. fold (nodesToMessage l).
  pose proof (node_read n (nodesToMessage l) Hn) as Hr.
  destruct (node_to n ++ nodesToMessage l) as [|z d] eqn:E; [by destruct n as [[[] ?] ?]|].
  cbn [nodes_loop]. rewrite Hr. cbn [mbind outcome_bind fst snd]. rewrite IH by (cbn in Hf; lia). done.
Qed.

Lemma insert_first_all l m : NoDup l.*1 → (∀ k, k ∈ l.*1 → m !! k = None) →
  fold_left insert_first l m = list_to_map l ∪ m.
Proof.
  revert m. induction l as [|[k v] l IH]; intros m Hnd Hm; cbn [fold_left]; [cbn; by rewrite (left_id_L ∅ (∪))|].
  cbn in Hnd. apply NoDup_cons in Hnd as [Hk Hnd]. unfold insert_first at 2. cbn [fst snd].
  rewrite (Hm k) by (cbn; left). rewrite IH; [|done|].
  - cbn. rewrite <- insert_union_l, insert_union_r; [done|]. by apply not_elem_of_list_to_map_1.
  - intros j Hj. rewrite lookup_insert_ne by (intros ->; done). apply Hm. cbn. by right.
Qed.

Lemma nodes_roundtrip l : Forall node_ok l → NoDup l.*1 → nodesFromMessage (nodesToMessage l) = Ret (list_to_map l).
Proof.
  intros Hl Hnd. unfold nodesFromMessage. rewrite nodes_read; [|done|].
  - rewrite insert_first_all; [by rewrite (right_id_L ∅ (∪))|done|]. intros k _. apply lookup_empty.
  - clear. unfold nodesToMessage. induction l as [|n l IH]; [done|]. cbn [map concat length].
    rewrite length_app. destruct n as [[a p] t]. cbn [node_to]. rewrite !length_app. cbn. lia.
Qed.

Lemma info_roundtrip now now' version height hash l :
  Forall node_ok l → NoDup l.*1 → in_range 64 version → in_range 64 now → in_range 64 height → in_range 256 hash →
  ∃ ps, nodeInfoFromMessage now' (nodeInfoToMessage now version height hash l) =
      Ret (mkNodeInfo version now now' (to_int64 (now' - now)) height hash ps) ∧ ps ≡ₚ l.*1.
Proof.
  intros Hl Hnd Hv Hn Hh Hx. exists ((map_to_list (list_to_map l : gmap NodeID Z)).*1). split.
  - destruct (u64_bytes version Hv) as [E1 R1], (u64_bytes now Hn) as [E2 R2], (u64_bytes height Hh) as [E3 R3].
    unfold nodeInfoFromMessage, nodeInfoToMessage. rewrite E1, E2, E3.
    set (a := be_bytes 8 version) in *. set (b := be_bytes 8 now) in *. set (c := be_bytes 8 height) in *.
    set (d := be_bytes 32 hash). set (e := nodesToMessage l).
    assert (La : length a = 8%nat ∧ length b = 8%nat ∧ length c = 8%nat ∧ length d = 32%nat)
      by (unfold a, b, c, d; rewrite !be_bytes_length; done). destruct La as (La & Lb & Lc & Ld).
    pose proof (subspan_app [] a (b ++ c ++ d ++ e) 0 eq_refl) as S1. rewrite La in S1. cbn [app] in S1. rewrite S1.
    cbn [mbind outcome_bind]. rewrite R1. cbn [mbind outcome_bind].
    pose proof (subspan_app a b (c ++ d ++ e) 8 La) as S2. rewrite Lb in S2. rewrite S2. cbn [mbind outcome_bind].
    rewrite R2. cbn [mbind outcome_bind].
    pose proof (subspan_app (a ++ b) c (d ++ e) 16 ltac:(rewrite length_app; lia)) as S3.
    rewrite Lc, <- (assoc_L (++)) in S3. rewrite S3. cbn [mbind outcome_bind]. rewrite R3. cbn [mbind outcome_bind].
    pose proof (subspan_app (a ++ b ++ c) d e 24 ltac:(rewrite !length_app; lia)) as S4.
    rewrite Ld, <- !(assoc_L (++)) in S4. rewrite S4. cbn [mbind outcome_bind].
    pose proof (subspan_from_app (a ++ b ++ c ++ d) e 56 ltac:(rewrite !length_app; lia)) as S5.
    rewrite <- !(assoc_L (++)) in S5. rewrite S5. cbn [mbind outcome_bind].
    unfold e at 1. rewrite nodes_roundtrip by done. cbn [mbind outcome_bind]. unfold d. by rewrite be_value_bytes.
  - rewrite map_to_list_to_map by done. done.
Qed.

(** ** Answers and broadcasts *)

Lemma answer_sent request command data : (11 <= length request)%nat → 0 <= command < 10 →
  ∃ m, answer request command data = Ret m ∧ msg_id m = msg_id request ∧
    length m = (11 + length data)%nat ∧ data_of Answering command m = Ret data.
Proof.
  intros Hr Hc. unfold answer.
  assert (Hid : ∃ id, msg_id request = Ret id ∧ length id = 8%nat).
  { unfold msg_id, subspan. rewrite decide_True by lia. eexists. split; [done|]. rewrite length_take, length_drop. lia. }
  destruct Hid as (id & -> & Hl). cbn [mbind outcome_bind].
  destruct (message_layout Answering id command data) as (m & -> & Hlen & Ht & Hi & Hcm & Hd); [done|done|done|].
  exists m. split_and!; [done|done|done|]. unfold data_of. rewrite Ht. cbn [mbind outcome_bind]. rewrite Z.eqb_refl.
  cbn [negb]. rewrite Hcm. cbn [mbind outcome_bind]. by rewrite Z.eqb_refl.
Qed.

Lemma in_range_lxor w a b : 0 < w → in_range w a → in_range w b → in_range w (Z.lxor a b).
Proof.
  intros Hw Ha Hb. unfold in_range in *.
  assert (H0 : 0 <= Z.lxor a b) by (apply Z.lxor_nonneg; lia). split; [done|].
  destruct (Z.eq_dec (Z.lxor a b) 0) as [->|Hne]; [lia|]. apply Z.log2_lt_pow2; [lia|].
  pose proof (Z.log2_lxor a b ltac:(lia) ltac:(lia)) as Hl.
  assert (Hlog : ∀ z, 0 <= z < 2 ^ w → Z.log2 z < w).
  { intros z Hz. destruct (Z.eq_dec z 0) as [->|]; [cbn; lia|]. apply Z.log2_lt_pow2; lia. }
  pose proof (Hlog a Ha). pose proof (Hlog b Hb). lia.
Qed.
Lemma FNVHash_range s : Forall is_byte s → in_range 64 (FNVHash s).
Proof.
  intros Hs. unfold FNVHash. assert (H0 : in_range 64 2166136261) by done. revert H0. generalize 2166136261.
  induction Hs as [|b s Hb Hs IH]; intros r Hr; [done|]. cbn [fold_left]. apply IH.
  apply in_range_lxor; [lia|by apply wrap_in_range|]. unfold is_byte in Hb. unfold in_range. lia.
Qed.

Lemma broadcast_sent bad command data : Forall is_byte data → 0 <= command < 10 →
  ∃ m, broadcast command data = Ret m ∧ broadcast_data bad command m = Ret data.
Proof.
  intros Hb Hc. unfold broadcast. destruct (u64_bytes _ (FNVHash_range data Hb)) as [Eh Rh]. rewrite Eh.
  destruct (message_layout Broadcasting (be_bytes 8 (FNVHash data)) command data) as (m & -> & _ & Ht & Hi & Hcm & Hd);
    [done|done|by rewrite be_bytes_length|].
  exists m. split; [done|]. unfold broadcast_data. rewrite Ht. cbn [mbind outcome_bind]. rewrite Z.eqb_refl. cbn [negb].
  rewrite Hi. cbn [mbind outcome_bind]. rewrite Rh. cbn [mbind outcome_bind]. rewrite Hd. cbn [mbind outcome_bind].
  rewrite Z.eqb_refl. cbn [negb]. rewrite Hcm. cbn [mbind outcome_bind]. by rewrite Z.eqb_refl.
Qed.

Section roundtrip.
Context {BI : BoostInt} {EC : Secp256k1}.

(** The message exists and its decoder gives back what was sent. *)
Definition sent {A} (enc : outcome (list Z)) (dec : list Z → outcome A) (a : A) : Prop :=
  ∃ m, enc = Ret m ∧ dec m = Ret a.
(** The same for an answer, which also carries the request's id. *)
Definition answered {A} (request : list Z) (enc : outcome (list Z)) (dec : list Z → outcome A) (a : A) : Prop :=
  ∃ m, enc = Ret m ∧ msg_id m = msg_id request ∧ dec m = Ret a.

Lemma answered_data {A} request command data (k : list Z → outcome A) a :
  (11 <= length request)%nat → 0 <= command < 10 → k data = Ret a →
  answered request (answer request command data) (λ m, d ← data_of Answering command m ; k d) a.
Proof.
  intros Hr Hc Hk. destruct (answer_sent request command data Hr Hc) as (m & E & Hid & _ & Hd).
  exists m. split_and!; [done|done|]. rewrite Hd. done.
Qed.
Lemma broadcast_decoded {A} bad command data (k : list Z → outcome A) a :
  Forall is_byte data → 0 <= command < 10 → k data = Ret a →
  sent (broadcast command data) (λ m, d ← broadcast_data bad command m ; k d) a.
Proof.
  intros Hb Hc Hk. destruct (broadcast_sent bad command data Hb Hc) as (m & E & Hd). exists m. split; [done|].
  rewrite Hd. done.
Qed.

(** Each item is at least its size field. *)
Lemma items_to_length size_to items : (∀ n, (1 <= length (size_to n))%nat) →
  (length items <= length (items_to size_to items))%nat.
Proof.
  intros Hs. unfold items_to. induction items as [|b l IH]; [done|]. cbn [map concat length]. rewrite !length_app.
  pose proof (Hs (Z.of_nat (length b))). lia.
Qed.

Lemma txs_read {A} (ser : A → list Z) (parse : list Z → outcome A) (l : list A) :
  Forall (λ tx, FinalizedBlock.small (ser tx) ∧ parse (ser tx) = Ret tx) l →
  txsFromMessage parse (txsToMessage ser l) = Ret l.
Proof.
  intros Hl. unfold txsFromMessage, txsToMessage. apply items_read; [lia|apply u32_bytes| |].
  - apply Forall2_fmap_l, Forall_Forall2_diag. eapply Forall_impl; [exact Hl|]. intros tx [Hs Hp].
    split; [|done]. unfold FinalizedBlock.small in Hs. unfold in_range. cbn. lia.
  - apply items_to_length. intros n. unfold uint32ToBytes. rewrite length_reverse. cbn. lia.
Qed.

Lemma blocks_read thr l : Forall created l → blocksFromMessage thr (blocksToMessage l) = Ret (map received l).
Proof.
  intros Hl. unfold blocksFromMessage, blocksToMessage. apply items_read; [lia|apply u64_bytes| |].
  - apply Forall2_fmap_l, Forall2_fmap_r, Forall_Forall2_diag. eapply Forall_impl; [exact Hl|]. intros b Hb.
    destruct (created_read thr b Hb) as [Hlen Hr]. split; [|done]. unfold in_range. cbn in Hlen |- *. lia.
  - apply items_to_length. intros n. unfold uint64ToBytes. rewrite length_reverse. cbn. lia.
Qed.
End roundtrip.

Lemma requestBlock_read id h e l : length id = 8%nat → in_range 64 h → in_range 64 e → in_range 64 l →
  sent (req_requestBlock id h e l) dec_req_requestBlock (h, e, l).
Proof.
  intros Hid Hh He Hl. unfold req_requestBlock.
  destruct (u64_bytes h Hh) as [E1 R1], (u64_bytes e He) as [E2 R2], (u64_bytes l Hl) as [E3 R3]. rewrite E1, E2, E3.
  set (a := be_bytes 8 h) in *. set (b := be_bytes 8 e) in *. set (c := be_bytes 8 l) in *.
  assert (La : length a = 8%nat ∧ length b = 8%nat ∧ length c = 8%nat)
    by (unfold a, b, c; rewrite !be_bytes_length; done). destruct La as (La & Lb & Lc).
  destruct (message_layout Requesting id RequestBlock (a ++ b ++ c)) as (m & -> & Hm & _ & _ & Hcm & Hd); [done|done|done|].
  exists m. split; [done|]. unfold dec_req_requestBlock.
  rewrite bool_decide_true by (rewrite Hm, !length_app; lia). cbn [negb]. rewrite Hcm. cbn [mbind outcome_bind].
  rewrite Z.eqb_refl. cbn [negb]. rewrite Hd. cbn [mbind outcome_bind].
  pose proof (subspan_app [] a (b ++ c) 0 eq_refl) as S1. rewrite La in S1. cbn [app] in S1. rewrite S1.
  cbn [mbind outcome_bind]. rewrite R1. cbn [mbind outcome_bind].
  pose proof (subspan_app a b c 8 La) as S2. rewrite Lb in S2. rewrite S2. cbn [mbind outcome_bind]. rewrite R2.
  cbn [mbind outcome_bind].
  pose proof (subspan_app (a ++ b) c [] 16 ltac:(rewrite length_app; lia)) as S3.
  rewrite Lc, (right_id_L [] (++)), <- (assoc_L (++)) in S3. rewrite S3. cbn [mbind outcome_bind]. by rewrite R3.
Qed.

(** What a node sends is what its peer decodes.  Answers with nodes, node
    information, transactions, validator transactions and blocks are decoded to
    what was encoded and carry the id of the request (blocks get the size of
    their bytes); a block request keeps its three numbers; broadcast transactions
    and blocks pass the check of their hash and are decoded to what was sent. *)
Theorem p2p_messages_roundtrip {BI : BoostInt} {EC : Secp256k1} (thr : nat) (request id : list Z)
    (now now' version height heightEnd bytesLimit nHeight : Z) (hash : Hash) (nodes : list (NodeID * Z))
    (txs : list TxBlock) (tvs : list TxValidator) (blocks : list FinalizedBlock) :
  (11 <= length request)%nat → length id = 8%nat → Forall node_ok nodes → NoDup nodes.*1 →
  in_range 64 version → in_range 64 now → in_range 64 height → in_range 64 heightEnd → in_range 64 bytesLimit →
  in_range 256 hash → txs_readable txs → validators_readable nHeight tvs → Forall created blocks →
  Forall (λ tx, Forall is_byte (TxBlock_rlpSerialize true tx)) txs →
  Forall (λ tx, Forall is_byte (TxValidator_rlpSerialize true tx)) tvs →
  Forall (λ b, Forall is_byte (serializeBlock b)) blocks →
  answered request (ans_requestNodes request nodes) dec_ans_requestNodes (list_to_map nodes) ∧
  (∃ ps, ps ≡ₚ nodes.*1 ∧ answered request (ans_info request now version height hash nodes) (dec_ans_info now')
    (mkNodeInfo version now now' (to_int64 (now' - now)) height hash ps)) ∧
  answered request (ans_requestTxs request txs) dec_ans_requestTxs txs ∧
  answered request (ans_requestValidatorTxs request tvs) dec_ans_requestValidatorTxs tvs ∧
  answered request (ans_requestBlock request blocks) (dec_ans_requestBlock thr) (map received blocks) ∧
  sent (req_requestBlock id height heightEnd bytesLimit) dec_req_requestBlock (height, heightEnd, bytesLimit) ∧
  (∀ tx, tx ∈ txs → sent (broadcastTx tx) dec_broadcastTx tx) ∧
  (∀ tx, tx ∈ tvs → sent (broadcastValidatorTx tx) dec_broadcastValidatorTx tx) ∧
  (∀ b, b ∈ blocks → sent (broadcastBlock b) (dec_broadcastBlock thr) (received b)).
Proof.
  intros Hr Hid Hn Hnd Hv Hnow Hh He Hl Hx Htxs Htvs Hbs Btx Btv Bb.
  destruct (info_roundtrip now now' version height hash nodes) as (ps & Hinfo & Hps); try done.
  assert (Htvs' : Forall (λ tx, FinalizedBlock.small (TxValidator_rlpSerialize true tx) ∧
    TxValidator_fromBytes (TxValidator_rlpSerialize true tx) = Ret tx) tvs).
  { eapply Forall_impl; [exact Htvs|]. by intros tx (? & ? & _). }
  split_and!.
  - apply answered_data; [done|done|]. by apply nodes_roundtrip.
  - exists ps. split; [done|]. by apply answered_data.
  - apply answered_data; [done|done|]. by apply txs_read.
  - apply answered_data; [done|done|]. by apply txs_read.
  - apply answered_data; [done|done|]. by apply blocks_read.
  - by apply requestBlock_read.
  - intros tx Ht. unfold txs_readable in Htxs. rewrite Forall_forall in Btx, Htxs. apply broadcast_decoded; [by apply Btx|done|].
    by apply (Htxs tx).
  - intros tx Ht. rewrite Forall_forall in Btv, Htvs'. apply broadcast_decoded; [by apply Btv|done|].
    by apply (Htvs' tx).
  - intros b Hb. rewrite Forall_forall in Bb, Hbs. apply broadcast_decoded; [by apply Bb|done|].
    by apply (created_read thr b), Hbs.
Qed.

(** [commandType > commandPrefixes.size()] lets one number past the enumerators
    through, and a type likewise. *)
Lemma one_past_accepted : getCommandType [0; 10] = Ret 10 ∧ getRequestType [4] = Ret 4 ∧
  getCommandType [0; 11] = Throw (DynamicException "Invalid command type.").
Proof. done. Qed.

(** Node information of a peer that sends fewer than 56 bytes is read outside of
    the message. *)
Lemma short_info_read_outside now data : (length data < 56)%nat → nodeInfoFromMessage now data = Throw undefined_behaviour.
Proof.
  intros Hl. unfold nodeInfoFromMessage.
  assert (Hs : ∀ o n, subspan data o n = Throw undefined_behaviour ∨ ∃ b, subspan data o n = Ret b ∧ length b = n).
  { intros o n. unfold subspan. case_decide; [right|by left]. eexists. split; [done|]. rewrite length_take, length_drop. lia. }
  assert (H64 : ∀ b, length b = 8%nat → ∃ z, bytesToUint64 b = Ret z).
  { intros b Hb. unfold bytesToUint64. rewrite decide_True by done. eauto. }
  destruct (Hs 0%nat 8%nat) as [->|(v & -> & Hv)]; [done|]. cbn [mbind outcome_bind].
  destruct (H64 v Hv) as [? ->]. cbn [mbind outcome_bind].
  destruct (Hs 8%nat 8%nat) as [->|(e & -> & He)]; [done|]. cbn [mbind outcome_bind].
  destruct (H64 e He) as [? ->]. cbn [mbind outcome_bind].
  destruct (Hs 16%nat 8%nat) as [->|(h & -> & Hh)]; [done|]. cbn [mbind outcome_bind].
  destruct (H64 h Hh) as [? ->]. cbn [mbind outcome_bind].
  unfold subspan. rewrite decide_False by lia. done.
Qed.

(** ** Witness *)

Definition demo_nodes : list (NodeID * Z) := [((V4 [127; 0; 0; 1], 8080), 0); ((V6 (repeat 1 16), 9999), 1)].

Lemma p2p_messages_roundtrip_witness :
  let b := createNewValidBlock (EC := demo_ec) demo_txs demo_validators 5 1000 12 99 in
  answered (repeat 7 11) (ans_requestNodes (repeat 7 11) demo_nodes) dec_ans_requestNodes (list_to_map demo_nodes) ∧
  answered (repeat 7 11) (ans_requestBlock (repeat 7 11) [b]) (dec_ans_requestBlock (BI := boost_ref) (EC := demo_ec) 8)
    [received b].
Proof.
  intros b.
  destruct (p2p_messages_roundtrip (BI := boost_ref) (EC := demo_ec) 8 (repeat 7 11) (repeat 1 8) 1000 2000 10 12 20 4096 12 5
    demo_nodes demo_txs demo_validators [b]) as (H1 & _ & _ & _ & H2 & _).
  - by vm_compute.
  - done.
  - repeat constructor; by vm_compute.
  - by apply (bool_decide_unpack _); vm_compute.
  - done.
  - done.
  - done.
  - done.
  - done.
  - done.
  - apply demo_txs_readable.
  - apply demo_validators_readable.
  - apply Forall_singleton. exists demo_txs, demo_validators, 5, 1000, 12, 99. split_and!; try done; [apply demo_txs_readable|apply demo_validators_readable].
  - apply (bool_decide_unpack _). by vm_compute.
  - apply (bool_decide_unpack _). by vm_compute.
  - apply (bool_decide_unpack _). by vm_compute.
  - done.
Defined.
