(* ===== verification/Sessions.v ===== *)
(** * Connections between nodes

    Models the sessions of the peer-to-peer network: the state of [Session]
    (src/net/p2p/session.cpp) and the registry of sessions and requests of
    [ManagerBase] (src/net/p2p/managerbase.cpp).  Sessions are shared objects:
    the manager keeps a map from node ids to them, and handlers hold pointers, so
    they live in a list and a pointer is a position.  Sockets, threads and timers
    are not modelled; what their handlers do are the operations, in any order.
    [sessionHandshaked] releases its lock in the middle, so it is split there. *)

From S2P Require Import Prelude CheckedInt ExecutionContext Bytes Conv Tx FinalizedBlock P2PEncoding.

Inductive ConnectionType := INBOUND | OUTBOUND.
#[export] Instance ConnectionType_eq_dec : EqDecision ConnectionType.
Proof. solve_decision. Defined.

(** [NodeType], as the number it is transmitted as *)
Definition NORMAL_NODE : Z := 0.
Definition DISCOVERY_NODE : Z := 1.

(** [operator<] on pairs of an address and a port: a strict total order. *)
Class NodeOrder := {
  node_lt : NodeID → NodeID → bool;
  node_lt_asym : ∀ a b, node_lt a b = true → node_lt b a = false;
  node_lt_total : ∀ a b, a ≠ b → node_lt a b = true ∨ node_lt b a = true;
}.

(** A session.  [type_] is not initialised before the handshake; [written_] are
    the messages passed to the socket, in order. *)
Record Session := mkSession {
  connectionType_ : ConnectionType;
  address_ : ip_address;
  port_ : Z;
  nodeId_ : NodeID;
  type_ : option Z;
  doneHandshake_ : bool;
  registered_ : bool;
  unregistered_ : bool;
  closed_ : bool;
  written_ : list (list Z);
}.
Definition set_handshake (n : NodeID) (t : Z) (s : Session) : Session :=
  mkSession (connectionType_ s) (address_ s) (port_ s) n (Some t) true (registered_ s) (unregistered_ s) (closed_ s) (written_ s).
Definition set_registered (r : bool) (s : Session) : Session :=
  mkSession (connectionType_ s) (address_ s) (port_ s) (nodeId_ s) (type_ s) (doneHandshake_ s) r (unregistered_ s) (closed_ s) (written_ s).
Definition set_unregistered (s : Session) : Session :=
  mkSession (connectionType_ s) (address_ s) (port_ s) (nodeId_ s) (type_ s) (doneHandshake_ s) false true (closed_ s) (written_ s).
Definition set_closed (s : Session) : Session :=
  mkSession (connectionType_ s) (address_ s) (port_ s) (nodeId_ s) (type_ s) (doneHandshake_ s) (registered_ s) (unregistered_ s) true (written_ s).
Definition add_written (message : list Z) (s : Session) : Session :=
  mkSession (connectionType_ s) (address_ s) (port_ s) (nodeId_ s) (type_ s) (doneHandshake_ s) (registered_ s) (unregistered_ s) (closed_ s) (written_ s ++ [message]).

(** [Request]; the requester keeps a pointer to it. *)
Record Request := mkRequest {
  rq_command : Z;
  rq_id : list Z;
  rq_nodeId : NodeID;
  rq_answer : option (list Z);
}.

(** [ManagerBase]; [requests_ true] and [requests_ false] are the two buckets. *)
Record ManagerBase := mkManager {
  started_ : bool;
  self_ : NodeID;
  nodeType_ : Z;
  sessions_ : gmap NodeID nat;
  session_objects : list Session;
  requests_0 : gmap (list Z) nat;
  requests_1 : gmap (list Z) nat;
  activeRequests_ : bool;
  request_objects : list Request;
}.
Definition with_started b m := mkManager b (self_ m) (nodeType_ m) (sessions_ m) (session_objects m) (requests_0 m) (requests_1 m) (activeRequests_ m) (request_objects m).
Definition with_sessions (f : gmap NodeID nat → gmap NodeID nat) m := mkManager (started_ m) (self_ m) (nodeType_ m) (f (sessions_ m)) (session_objects m) (requests_0 m) (requests_1 m) (activeRequests_ m) (request_objects m).
Definition with_objects (f : list Session → list Session) m := mkManager (started_ m) (self_ m) (nodeType_ m) (sessions_ m) (f (session_objects m)) (requests_0 m) (requests_1 m) (activeRequests_ m) (request_objects m).
Definition with_bucket (b : bool) (f : gmap (list Z) nat → gmap (list Z) nat) m := mkManager (started_ m) (self_ m) (nodeType_ m) (sessions_ m) (session_objects m) (if b then requests_0 m else f (requests_0 m)) (if b then f (requests_1 m) else requests_1 m) (activeRequests_ m) (request_objects m).
Definition with_active b m := mkManager (started_ m) (self_ m) (nodeType_ m) (sessions_ m) (session_objects m) (requests_0 m) (requests_1 m) b (request_objects m).
Definition with_requests (f : list Request → list Request) m := mkManager (started_ m) (self_ m) (nodeType_ m) (sessions_ m) (session_objects m) (requests_0 m) (requests_1 m) (activeRequests_ m) (f (request_objects m)).
Definition requests_ (b : bool) m := if b then requests_1 m else requests_0 m.

(** A manager that was just started. *)
Definition manager_new (self : NodeID) (nodeType : Z) : ManagerBase := mkManager true self nodeType ∅ [] ∅ ∅ false [].

(** *** Access through a pointer *)
Definition session_at (sid : nat) : M ManagerBase Session :=
  objs ← gets session_objects;
  match objs !! sid with Some s => mret s | None => throw undefined_behaviour end.
Definition update_session (sid : nat) (f : Session → Session) : M ManagerBase unit := modify (with_objects (alter f sid)).
Definition new_session (s : Session) : M ManagerBase nat :=
  sid ← gets (λ m, length (session_objects m)); modify (with_objects (λ l, l ++ [s])) ;; mret sid.

Section sessions.
Context {NO : NodeOrder}.

(** ** Sessions *)

(** [ManagerBase::sessionClosed] *)
Definition sessionClosed (n : NodeID) : M ManagerBase unit := modify (with_sessions (delete n)).
(** [Session::do_close] *)
Definition do_close (sid : nat) : M ManagerBase unit :=
  s ← session_at sid;
  if closed_ s then mret ()
  else
    update_session sid set_closed ;;
    if registered_ s then sessionClosed (nodeId_ s) ;; update_session sid (set_registered false) else mret ().
(** [Session::notifyUnregistered]; the closing it asks for is a later [do_close]. *)
Definition notifyUnregistered (sid : nat) : M ManagerBase bool :=
  s ← session_at sid; update_session sid set_unregistered ;; mret (doneHandshake_ s).
(** [Session::write] *)
Definition write (sid : nat) (message : list Z) : M ManagerBase bool :=
  s ← session_at sid;
  if doneHandshake_ s then update_session sid (add_written message) ;; mret true else mret false.

(** [write_handshake]: the three bytes this node sends. *)
Definition write_handshake (m : ManagerBase) : list Z :=
  (if nodeType_ m =? NORMAL_NODE then 0 else 1) :: uint16ToBytes (self_ m).2.

(** [ManagerBase::sessionHandshaked] up to the point where it lets go of the lock:
    the result, or the session to replace. *)
Inductive Verdict := Done (ok : bool) | Replace (old : nat).
Definition sessionHandshaked (sid : nat) : M ManagerBase Verdict :=
  m ← gets id;
  if negb (started_ m) then mret (Done false)
  else
    s ← session_at sid;
    match connectionType_ s with
    | OUTBOUND => mret (Done true)
    | INBOUND =>
        match sessions_ m !! nodeId_ s with
        | Some old =>
            o ← session_at old;
            if node_lt (nodeId_ s) (self_ m) && bool_decide (connectionType_ o = OUTBOUND)
            then mret (Replace old) else mret (Done false)
        | None => modify (with_sessions <[nodeId_ s := sid]>) ;; mret (Done true)
        end
    end.
(** The rest, with the lock again: [try_emplace] after [erase]. *)
Definition replace_session (sid : nat) : M ManagerBase bool :=
  s ← session_at sid;
  modify (with_sessions (delete (nodeId_ s))) ;;
  started ← gets started_;
  if (started : bool) then modify (with_sessions <[nodeId_ s := sid]>) ;; mret true else mret false.

(** [Session::finish_handshake] up to the call of [sessionHandshaked], whose result
    it then gives; [None] when the session was closed before. *)
Definition begin_handshake (sid : nat) (inboundHandshake : list Z) : M ManagerBase (option Verdict) :=
  s ← session_at sid;
  serverPort ← lift (bytesToUint16 (drop 1 inboundHandshake));
  if bool_decide (connectionType_ s = OUTBOUND) && negb (port_ s =? serverPort) then do_close sid ;; mret None
  else
    let type := if nth 0 inboundHandshake 0 =? 0 then NORMAL_NODE else DISCOVERY_NODE in
    let node : NodeID := match connectionType_ s with INBOUND => (address_ s, serverPort) | OUTBOUND => nodeId_ s end in
    update_session sid (set_handshake node type) ;;
    if unregistered_ s then do_close sid ;; mret None
    else v ← sessionHandshaked sid; mret (Some v).
(** What [finish_handshake] does with the result; an inbound session that was not
    registered stays open and is ignored. *)
Definition end_handshake (sid : nat) (ok : bool) : M ManagerBase unit :=
  s ← session_at sid;
  if ok then update_session sid (set_registered true)
  else match connectionType_ s with OUTBOUND => do_close sid | INBOUND => mret () end.

(** The whole of [finish_handshake] when nothing happens in between. *)
Definition finish_handshake (sid : nat) (inboundHandshake : list Z) : M ManagerBase unit :=
  v ← begin_handshake sid inboundHandshake;
  match v with
  | None => mret ()
  | Some (Done ok) => end_handshake sid ok
  | Some (Replace old) => notifyUnregistered old ;; ok ← replace_session sid; end_handshake sid ok
  end.

(** ** The manager *)

Definition trySpawnOutboundSession (n : NodeID) : M ManagerBase unit :=
  m ← gets id;
  if negb (started_ m) then mret ()
  else if bool_decide (is_Some (sessions_ m !! n)) then mret ()
  else
    sid ← new_session (mkSession OUTBOUND n.1 n.2 n None false true false false []);
    modify (with_sessions <[n := sid]>).
(** [address] and [port] are the remote end of the socket; [NodeID()] is the id
    until the handshake. *)
Definition no_node : NodeID := (V4 [0; 0; 0; 0], 0).
Definition trySpawnInboundSession (address : ip_address) (port : Z) : M ManagerBase unit :=
  m ← gets id;
  if negb (started_ m) then mret ()
  else sid ← new_session (mkSession INBOUND address port no_node None false false false false []); mret ().

(** [connectToServer]: whether an outbound session is asked for, which is a later
    [trySpawnOutboundSession]; [unspecified] tells whether the address is. *)
Definition connectToServer (unspecified : bool) (n : NodeID) (m : ManagerBase) : bool :=
  if bool_decide (n = self_ m) then false
  else if negb (started_ m) then false
  else if unspecified || (n.2 =? 0) then false
  else negb (bool_decide (is_Some (sessions_ m !! n))).

(** [disconnectSession]: the session whose closing is posted. *)
Definition disconnectSession (n : NodeID) : M ManagerBase (option nat) :=
  m ← gets id; mret (if started_ m then sessions_ m !! n else None).

Definition getPeerCount (m : ManagerBase) : nat := size (sessions_ m).
Definition hostType (s : Session) : outcome Z :=
  match type_ s with Some t => Ret t | None => Throw undefined_behaviour end.

(** [stop]: no session is registered any more; what is left after some time is
    cleared. *)
Definition stop_sessions : M ManagerBase unit := modify (with_started false).
Definition clear_sessions : M ManagerBase unit := modify (with_sessions (λ _, ∅)).

(** *** Requests *)

Definition REQUEST_BUCKET_SIZE_LIMIT : Z := 100000.

Definition insertRequest (id : list Z) (request : nat) : M ManagerBase unit :=
  m ← gets (λ m, m);
  (if REQUEST_BUCKET_SIZE_LIMIT <=? Z.of_nat (size (requests_ (activeRequests_ m) m))
   then modify (with_active (negb (activeRequests_ m))) ;; modify (with_bucket (negb (activeRequests_ m)) (λ _, ∅))
   else mret ()) ;;
  active ← gets activeRequests_;
  modify (with_bucket active <[id := request]>).

Definition new_request (r : Request) : M ManagerBase nat :=
  i ← gets (λ m, length (request_objects m)); modify (with_requests (λ l, l ++ [r])) ;; mret i.

(** [sendRequestTo]; [message] starts with type, id and command. *)
Definition sendRequestTo (n : NodeID) (message : list Z) : M ManagerBase (option nat) :=
  m ← gets (λ m, m);
  if negb (started_ m) then mret None
  else
    match sessions_ m !! n with
    | None => mret None
    | Some sid =>
        s ← session_at sid;
        type ← lift (hostType s);
        command ← lift (msg_command message);
        if (type =? DISCOVERY_NODE) && ((command =? Info) || (command =? RequestValidatorTxs)) then mret None
        else
          id ← lift (msg_id message);
          request ← new_request (mkRequest command id (nodeId_ s) None);
          insertRequest id request ;;
          ok ← write sid message;
          if (ok : bool) then mret (Some request)
          else active ← gets activeRequests_; modify (with_bucket active (delete id)) ;; mret None
    end.

Definition answerSession (n : NodeID) (message : list Z) : M ManagerBase unit :=
  m ← gets (λ m, m);
  if negb (started_ m) then mret ()
  else match sessions_ m !! n with None => mret () | Some sid => write sid message ;; mret () end.

(** [setAnswer]: a promise can be kept only once ([std::future_error]). *)
Definition setAnswer (request : nat) (message : list Z) : M ManagerBase unit :=
  rs ← gets request_objects;
  match rs !! request with
  | None => throw undefined_behaviour
  | Some r =>
      match rq_answer r with
      | Some _ => throw (runtime_error "std::future_error: Promise already satisfied")
      | None => modify (with_requests (alter (λ r, mkRequest (rq_command r) (rq_id r) (rq_nodeId r) (Some message)) request))
      end
  end.

(** [handleRequestAnswer]: the active bucket first; an answer to nothing closes the
    session of its sender. *)
Definition handleRequestAnswer (n : NodeID) (message : list Z) : M ManagerBase (option nat) :=
  id ← lift (msg_id message);
  m ← gets (λ m, m);
  match requests_ (activeRequests_ m) m !! id with
  | Some r => setAnswer r message ;; mret None
  | None =>
      match requests_ (negb (activeRequests_ m)) m !! id with
      | Some r => setAnswer r message ;; mret None
      | None => disconnectSession n
      end
  end.
End sessions.

(** ** The registry *)

Section registry.
Context {NO : NodeOrder}.

(** What callers rely on: an entry of the map is a registered session with that
    id, and a registered session is open and is the entry of its id (after the
    final clearing there are no entries). *)
Record consistent (m : ManagerBase) : Prop := mkConsistent {
  cs_entry : ∀ n sid, sessions_ m !! n = Some sid →
    ∃ s, session_objects m !! sid = Some s ∧ nodeId_ s = n ∧ registered_ s = true;
  cs_registered : ∀ sid s, session_objects m !! sid = Some s → registered_ s = true →
    closed_ s = false ∧ (sessions_ m !! nodeId_ s = Some sid ∨ started_ m = false ∧ sessions_ m !! nodeId_ s = None);
  cs_inbound : ∀ sid s, session_objects m !! sid = Some s → connectionType_ s = INBOUND → registered_ s = true → doneHandshake_ s = true;
  cs_outbound : ∀ sid s, session_objects m !! sid = Some s → connectionType_ s = OUTBOUND →
    closed_ s = false → unregistered_ s = false → registered_ s = true;
}.

(** The operations, each at once: no other handler runs inside a handshake. *)
Inductive change (m : ManagerBase) : ManagerBase → Prop :=
| change_outbound n : change m (trySpawnOutboundSession n m).2
| change_inbound address port : change m (trySpawnInboundSession address port m).2
| change_handshake sid s b : session_objects m !! sid = Some s → closed_ s = false → doneHandshake_ s = false →
    change m (finish_handshake sid b m).2
| change_close sid : change m (do_close sid m).2
| change_write sid message : change m (write sid message m).2
| change_stop : change m (stop_sessions m).2
| change_clear : started_ m = false → change m (clear_sessions m).2.

Lemma alter_Some (f : Session → Session) (i j : nat) (l : list Session) s :
  alter f i l !! j = Some s ↔ ∃ s0, l !! j = Some s0 ∧ s = (if decide (i = j) then f s0 else s0).
Proof.
  destruct (decide (i = j)) as [<-|Hne].
  - rewrite list_lookup_alter_eq. destruct (l !! i); cbn; naive_solver.
  - rewrite list_lookup_alter_ne by done. naive_solver.
Qed.

(** An update of a session that keeps its place in the registry. *)
Lemma update_consistent m sid s f : consistent m → session_objects m !! sid = Some s →
  (registered_ s = true ∨ registered_ (f s) = true → registered_ (f s) = registered_ s ∧ nodeId_ (f s) = nodeId_ s ∧ closed_ (f s) = closed_ s) →
  connectionType_ (f s) = connectionType_ s → (doneHandshake_ s = true → doneHandshake_ (f s) = true) →
  (closed_ (f s) = false → closed_ s = false) → (unregistered_ (f s) = false → unregistered_ s = false) →
  consistent (with_objects (alter f sid) m).
Proof.
  intros [H1 H2 H3 H4] Hs Hr Hc Hd Hcl Hu.
  split; cbn.
  - intros n i Hn. destruct (H1 n i Hn) as (s0 & E & Hn0 & Hr0). destruct (decide (sid = i)) as [<-|Hne].
    + rewrite Hs in E. injection E as <-. exists (f s). destruct Hr as (Er & En & _); [by left|].
      split_and!; [by rewrite list_lookup_alter_eq, Hs|congruence|congruence].
    + exists s0. by rewrite list_lookup_alter_ne.
  - intros i s' (s0 & E & ->)%alter_Some. destruct (decide (sid = i)) as [<-|Hne]; [|by apply H2].
    rewrite Hs in E. injection E as <-. intros Hf. destruct Hr as (Er & En & Ec); [by right|]. rewrite En, Ec. apply H2; [done|congruence].
  - intros i s' (s0 & E & ->)%alter_Some. destruct (decide (sid = i)) as [<-|Hne]; [|by eapply H3].
    rewrite Hs in E. injection E as <-. rewrite Hc. intros Hi Hf. apply Hd. destruct Hr as (Er & _); [by right|]. apply (H3 sid); congruence.
  - intros i s' (s0 & E & ->)%alter_Some. destruct (decide (sid = i)) as [<-|Hne]; [|by eapply H4].
    rewrite Hs in E. injection E as <-. rewrite Hc. intros Ho Hf Hun.
    assert (Hs1 : registered_ s = true) by (apply (H4 sid); auto). destruct Hr as (Er & _); [by left|]. congruence.
Qed.

(** A new session that registers itself, or is not registered. *)
Lemma new_consistent m s : consistent m → registered_ s = false → closed_ s = false →
  connectionType_ s = INBOUND → consistent (with_objects (λ l, l ++ [s]) m).
Proof.
  intros [H1 H2 H3 H4] Hr Hc Hi. split; cbn.
  - intros n i Hn. destruct (H1 n i Hn) as (s0 & E & ?). exists s0. split; [by apply lookup_app_l_Some|done].
  - intros i s' [E|[_ [_ <-]%list_lookup_singleton_Some]]%lookup_app_Some Hf; [by apply H2|congruence].
  - intros i s' [E|[_ [_ <-]%list_lookup_singleton_Some]]%lookup_app_Some ? Hf; [by eapply H3|congruence].
  - intros i s' [E|[_ [_ <-]%list_lookup_singleton_Some]]%lookup_app_Some ?; [by eapply H4|congruence].
Qed.
Lemma outbound_consistent m (n : NodeID) : consistent m → started_ m = true → sessions_ m !! n = None →
  consistent (with_sessions <[n := length (session_objects m)]>
    (with_objects (λ l, l ++ [mkSession OUTBOUND n.1 n.2 n None false true false false []]) m)).
Proof.
  intros [H1 H2 H3 H4] Hst Hn. split; cbn.
  - intros n' i. rewrite lookup_insert_Some. intros [[<- <-]|[Hne Hn']].
    + eexists. split; [by rewrite lookup_app_r, Nat.sub_diag by done|done].
    + destruct (H1 n' i Hn') as (s0 & E & ?). exists s0. split; [by apply lookup_app_l_Some|done].
  - intros i s' [E|[Hge [Hi <-]%list_lookup_singleton_Some]]%lookup_app_Some Hf.
    + destruct (H2 i s' E Hf) as [Hcl [Hin|[Hf' _]]]; [|congruence]. split; [done|]. left.
      rewrite lookup_insert_ne; [done|]. intros Heq. rewrite Heq in Hn. congruence.
    + split; [done|]. left. cbn. rewrite lookup_insert_eq. f_equal. lia.
  - intros i s' [E|[_ [_ <-]%list_lookup_singleton_Some]]%lookup_app_Some ? Hf; [by eapply H3|done].
  - intros i s' [E|[_ [_ <-]%list_lookup_singleton_Some]]%lookup_app_Some ??; [by eapply H4|done].
Qed.

(** Taking a registered session out of the registry. *)
Lemma unregister_consistent m sid s f : consistent m → session_objects m !! sid = Some s → registered_ s = true →
  connectionType_ (f s) = connectionType_ s → registered_ (f s) = false → (closed_ (f s) = true ∨ unregistered_ (f s) = true) →
  consistent (with_sessions (delete (nodeId_ s)) (with_objects (alter f sid) m)).
Proof.
  intros [H1 H2 H3 H4] Hs Hr Hc Hf Hcu. destruct (H2 sid s Hs Hr) as [_ Hreg].
  assert (Hdel : ∀ i s0, session_objects m !! i = Some s0 → registered_ s0 = true → sid ≠ i →
    sessions_ m !! nodeId_ s0 = Some i → nodeId_ s ≠ nodeId_ s0).
  { intros i s0 E Hr0 Hne Hin Heq. rewrite Heq in Hreg. destruct Hreg as [Hreg|[_ Hreg]]; congruence. }
  split; cbn.
  - intros n i. rewrite lookup_delete_Some. intros [Hne Hn]. destruct (H1 n i Hn) as (s0 & E & Hn0 & Hr0). exists s0.
    destruct (decide (sid = i)) as [<-|]; [rewrite Hs in E; injection E as <-; congruence|]. by rewrite list_lookup_alter_ne.
  - intros i s' (s0 & E & ->)%alter_Some. destruct (decide (sid = i)) as [<-|Hne].
    + rewrite Hs in E. injection E as <-. congruence.
    + intros Hr0. destruct (H2 i s0 E Hr0) as [Hcl [Hin|[Hst Hin]]]; (split; [done|]).
      * left. rewrite lookup_delete_ne; [done|]. by apply (Hdel i).
      * right. split; [done|]. apply lookup_delete_None. by right.
  - intros i s' (s0 & E & ->)%alter_Some. destruct (decide (sid = i)) as [<-|Hne]; [|by eapply H3].
    rewrite Hs in E. injection E as <-. congruence.
  - intros i s' (s0 & E & ->)%alter_Some. destruct (decide (sid = i)) as [<-|Hne]; [|by eapply H4].
    rewrite Hs in E. injection E as <-. destruct Hcu; congruence.
Qed.
(** Registering an inbound session under a free id. *)
Lemma register_consistent m sid s : consistent m → session_objects m !! sid = Some s → connectionType_ s = INBOUND →
  doneHandshake_ s = true → closed_ s = false → registered_ s = false → started_ m = true → sessions_ m !! nodeId_ s = None →
  consistent (with_objects (alter (set_registered true) sid) (with_sessions <[nodeId_ s := sid]> m)).
Proof.
  intros [H1 H2 H3 H4] Hs Hi Hd Hc Hr Hst Hn. split; cbn.
  - intros n i. rewrite lookup_insert_Some. intros [[<- <-]|[Hne Hn']].
    + exists (set_registered true s). by rewrite list_lookup_alter_eq, Hs.
    + destruct (H1 n i Hn') as (s0 & E & ? & Hr0). exists s0.
      destruct (decide (sid = i)) as [<-|]; [rewrite Hs in E; injection E as <-; congruence|]. by rewrite list_lookup_alter_ne.
  - intros i s' (s0 & E & ->)%alter_Some. destruct (decide (sid = i)) as [<-|Hne].
    + rewrite Hs in E. injection E as <-. intros _. split; [done|]. left. apply lookup_insert_eq.
    + intros Hr0. destruct (H2 i s0 E Hr0) as [Hcl [Hin|[Hst' _]]]; [|congruence]. split; [done|]. left.
      rewrite lookup_insert_ne; [done|]. intros Heq. congruence.
  - intros i s' (s0 & E & ->)%alter_Some. destruct (decide (sid = i)) as [<-|Hne]; [|by eapply H3].
    rewrite Hs in E. injection E as <-. done.
  - intros i s' (s0 & E & ->)%alter_Some. destruct (decide (sid = i)) as [<-|Hne]; [|by eapply H4].
    done.
Qed.

Lemma session_at_run sid m s : session_objects m !! sid = Some s → session_at sid m = (Ret s, m).
Proof. intros E. unfold session_at, gets, mbind, M_bind. by rewrite E. Qed.

Lemma do_close_consistent m sid : consistent m → consistent (do_close sid m).2.
Proof.
  intros Hm. unfold do_close. destruct (session_objects m !! sid) as [s|] eqn:Hs.
  2: { unfold session_at, gets, mbind, M_bind. by rewrite Hs. }
  erewrite bind_run by (by apply session_at_run). destruct (closed_ s) eqn:Hc; [done|].
  unfold update_session at 1. erewrite bind_run by reflexivity. destruct (registered_ s) eqn:Hr.
  - unfold sessionClosed, update_session, modify, mbind, M_bind. cbn.
    pose proof (unregister_consistent m sid s (set_registered false ∘ set_closed) Hm Hs Hr eq_refl eq_refl ltac:(by left)) as H.
    unfold with_sessions, with_objects in *. cbn in *. by rewrite list_alter_alter_eq.
  - apply (update_consistent m sid s); try done; cbn. by rewrite Hr; intros [|].
Qed.
Lemma write_consistent m sid message : consistent m → consistent (write sid message m).2.
Proof.
  intros Hm. unfold write. destruct (session_objects m !! sid) as [s|] eqn:Hs.
  2: { unfold session_at, gets, mbind, M_bind. by rewrite Hs. }
  erewrite bind_run by (by apply session_at_run). destruct (doneHandshake_ s); [|done].
  by apply (update_consistent m sid s).
Qed.

(** The end of a handshake that registers an inbound session under a free id. *)
Lemma handshake_consistent m sid s b : consistent m → session_objects m !! sid = Some s →
  closed_ s = false → doneHandshake_ s = false → consistent (finish_handshake sid b m).2.
Proof.
  intros Hm Hs Hc Hd. unfold finish_handshake, begin_handshake.
  unfold mbind at 1, M_bind at 1. erewrite bind_run by (by apply session_at_run).
  unfold mbind at 1, M_bind at 1, lift at 1. destruct (bytesToUint16 (drop 1 b)) as [port|e]; [|done].
  destruct (bool_decide (connectionType_ s = OUTBOUND) && negb (port_ s =? port)).
  { pose proof (do_close_consistent m sid Hm) as H. unfold mbind, M_bind. by destruct (do_close sid m) as [[[]|] m']. }
  cbv zeta. set (t := if _ =? 0 then NORMAL_NODE else DISCOVERY_NODE).
  set (node := match connectionType_ s with INBOUND => _ | OUTBOUND => _ end : NodeID).
  set (m1 := with_objects (alter (set_handshake node t) sid) m). set (s1 := set_handshake node t s).
  assert (Hs1 : session_objects m1 !! sid = Some s1) by (cbn; by rewrite list_lookup_alter_eq, Hs).
  assert (Hin : connectionType_ s = INBOUND → registered_ s = false).
  { intros Hi. destruct (registered_ s) eqn:Hr; [|done]. pose proof (cs_inbound m Hm sid s Hs Hi Hr). congruence. }
  assert (Hm1 : consistent m1).
  { apply (update_consistent m sid s); try done. cbn. intros Hor. split_and!; [done| |done]. subst node.
    destruct (connectionType_ s); [|done]. specialize (Hin eq_refl). rewrite Hin in Hor. by destruct Hor. }
  erewrite bind_run by reflexivity. change (with_objects _ m) with m1.
  destruct (unregistered_ s) eqn:Hu.
  { pose proof (do_close_consistent m1 sid Hm1) as H. unfold mbind, M_bind. by destruct (do_close sid m1) as [[[]|] m']. }
  unfold sessionHandshaked. unfold mbind at 1, M_bind at 1. unfold mbind at 1, M_bind at 1. unfold gets at 1.
  change (id m1) with m1. change (started_ m1) with (started_ m). destruct (started_ m) eqn:Hst; cbn [negb].
  2: { cbn. unfold end_handshake. erewrite bind_run by (by apply session_at_run). change (connectionType_ s1) with (connectionType_ s).
       destruct (connectionType_ s); [done|by apply do_close_consistent]. }
  erewrite bind_run by (by apply session_at_run). change (connectionType_ s1) with (connectionType_ s).
  destruct (connectionType_ s) eqn:Hct.
  2: { cbn. unfold end_handshake. erewrite bind_run by (by apply session_at_run). apply (update_consistent m1 sid s1); try done.
       cbn. intros _. split_and!; [|done|done]. symmetry. by apply (cs_outbound m Hm sid s). }
  specialize (Hin eq_refl). change (nodeId_ s1) with node. change (sessions_ m1) with (sessions_ m).
  destruct (sessions_ m !! node) as [old|] eqn:Hold.
  - destruct (cs_entry m1 Hm1 node old Hold) as (o & Ho & Hno & Hro). erewrite bind_run by (by apply session_at_run).
    assert (Hne : old ≠ sid) by (intros ->; rewrite Hs1 in Ho; injection Ho as <-; cbn in Hro; congruence).
    destruct (node_lt _ _ && _).
    2: { cbn. unfold end_handshake. erewrite bind_run by (by apply session_at_run). change (connectionType_ s1) with (connectionType_ s). by rewrite Hct. }
    set (m2 := with_objects (alter set_unregistered old) m1). set (m3 := with_sessions (delete node) m2).
    assert (Hs2 : session_objects m2 !! sid = Some s1) by (cbn; rewrite list_lookup_alter_ne by done; exact Hs1).
    assert (En : notifyUnregistered old m1 = (Ret (doneHandshake_ o), m2)).
    { unfold notifyUnregistered. erewrite bind_run by (by apply session_at_run). done. }
    assert (Er : replace_session sid m2 = (Ret true, with_sessions <[node := sid]> m3)).
    { unfold replace_session. erewrite bind_run by (by apply session_at_run). erewrite bind_run by reflexivity. erewrite bind_run by reflexivity.
      change (started_ (with_sessions _ m2)) with (started_ m). by rewrite Hst. }
    assert (Hm3 : consistent m3).
    { pose proof (unregister_consistent m1 old o set_unregistered Hm1 Ho Hro eq_refl eq_refl ltac:(by right)) as H. by rewrite Hno in H. }
    unfold mret, M_ret. rewrite (bind_run _ _ _ _ _ En), (bind_run _ _ _ _ _ Er). unfold end_handshake. erewrite bind_run by (by apply session_at_run).
    apply (register_consistent m3 sid s1); try done. apply lookup_delete_eq.
  - erewrite bind_run by reflexivity. unfold mret, M_ret. unfold end_handshake. erewrite bind_run by (by apply session_at_run).
    apply (register_consistent m1 sid s1); try done.
Qed.

Lemma change_consistent m m' : change m m' → consistent m → consistent m'.
Proof.
  intros [n|address port|sid s b Hs Hc Hd|sid|sid message| |Hst] Hm.
  - unfold trySpawnOutboundSession, gets. unfold mbind at 1, M_bind at 1. change (id m) with m.
    destruct (started_ m) eqn:Hst; cbn [negb]; [|done]. case_bool_decide as Hn; [done|]. apply outbound_consistent; [done|done|].
    by apply eq_None_not_Some.
  - unfold trySpawnInboundSession, gets. unfold mbind at 1, M_bind at 1. change (id m) with m.
    destruct (started_ m); cbn [negb]; [|done]. by apply new_consistent.
  - by apply (handshake_consistent m sid s).
  - by apply do_close_consistent.
  - by apply write_consistent.
  - destruct Hm as [H1 H2 H3 H4]. split; cbn; try done. intros sid s E Hr. destruct (H2 sid s E Hr) as [Hc [Hn|[_ Hn]]]; auto.
  - destruct Hm as [H1 H2 H3 H4]. split; cbn; try done. intros sid s E Hr. destruct (H2 sid s E Hr) as [Hc _]; auto.
Qed.
Lemma new_manager_consistent self t : consistent (manager_new self t).
Proof. split; done. Qed.
End registry.

(** ** Two nodes connecting to each other *)

Section meeting.
Context {NO : NodeOrder}.

(** A node that connected to [n] accepts a connection from [n], whose handshake
    says the port [n] listens on. *)
Definition meet (n : NodeID) (type port : Z) : M ManagerBase unit :=
  trySpawnOutboundSession n ;;
  trySpawnInboundSession n.1 port ;;
  sid ← gets (λ m, pred (length (session_objects m)));
  finish_handshake sid (type :: uint16ToBytes n.2).

Lemma meet_run (n : NodeID) (type port : Z) (m : ManagerBase) :
  started_ m = true → sessions_ m !! n = None → in_range 16 n.2 →
  let sid := length (session_objects m) in
  ∃ m', meet n type port m = (Ret (), m') ∧ sessions_ m' !! n = Some (if node_lt n (self_ m) then S sid else sid).
Proof.
  intros Hst Hn Hp sid. destruct m as [st self nt ss objs r0 r1 ar ro]. cbn in Hst, Hn, sid. subst st. cbn [self_].
  set (o := mkSession OUTBOUND n.1 n.2 n None false true false false []).
  set (i := mkSession INBOUND n.1 port no_node None false false false false []).
  set (m2 := mkManager true self nt (<[n := sid]> ss) ((objs ++ [o]) ++ [i]) r0 r1 ar ro).
  assert (E2 : ∀ k : unit → M ManagerBase unit, (trySpawnOutboundSession n ;; (trySpawnInboundSession n.1 port ≫= k)) (mkManager true self nt ss objs r0 r1 ar ro) = k () m2).
  { intros k. unfold trySpawnOutboundSession, trySpawnInboundSession, gets, new_session, modify, mbind, M_bind. cbn. rewrite Hn. done. }
  unfold meet. rewrite E2. clear E2. erewrite bind_run by reflexivity.
  assert (Hl : pred (length (session_objects m2)) = S sid) by (cbn; rewrite !length_app; cbn; lia). rewrite Hl.
  assert (Hi : session_objects m2 !! S sid = Some i).
  { cbn. rewrite lookup_app_r by (rewrite length_app; cbn; lia). rewrite length_app. cbn. by replace (S sid - (length objs + 1))%nat with 0%nat by lia. }
  assert (Ho : session_objects m2 !! sid = Some o).
  { cbn. apply lookup_app_l_Some. rewrite lookup_app_r by lia. by replace (sid - length objs)%nat with 0%nat by lia. }
  destruct (u16_bytes n.2 Hp) as [Eb Er]. unfold finish_handshake, begin_handshake.
  unfold mbind at 1, M_bind at 1. erewrite bind_run by (by apply session_at_run).
  unfold mbind at 1, M_bind at 1, lift at 1. change (drop 1 (type :: uint16ToBytes n.2)) with (uint16ToBytes n.2). rewrite Eb, Er. cbn [connectionType_ i]. rewrite bool_decide_false by done. cbn [andb].
  cbv zeta. change (address_ i, n.2) with (n.1, n.2). rewrite <- (surjective_pairing n).
  set (t := if _ =? 0 then NORMAL_NODE else DISCOVERY_NODE). set (i1 := set_handshake n t i).
  erewrite bind_run by reflexivity. set (m3 := with_objects _ m2). cbn [unregistered_ i].
  assert (Hi3 : session_objects m3 !! S sid = Some i1) by (cbn; by rewrite list_lookup_alter_eq; cbn in Hi; rewrite Hi).
  assert (Ho3 : session_objects m3 !! sid = Some o) by (cbn; rewrite list_lookup_alter_ne by lia; exact Ho).
  assert (Hv : sessionHandshaked (S sid) m3 = (Ret (if node_lt n self then Replace sid else Done false), m3)).
  { unfold sessionHandshaked. erewrite bind_run by reflexivity. cbn [started_ m3 with_objects m2 negb id].
    erewrite bind_run by (by apply session_at_run). cbn [connectionType_ i1 set_handshake i nodeId_ sessions_ m3 with_objects m2].
    change (sessions_ _ !! _) with (<[n := sid]> ss !! n). rewrite lookup_insert_eq.
    erewrite bind_run by (by apply session_at_run). cbn. rewrite andb_true_r. by destruct (node_lt n self). }
  erewrite bind_run by exact Hv. destruct (node_lt n self) eqn:Hlt; unfold mret, M_ret.
  - assert (En : notifyUnregistered sid m3 = (Ret (doneHandshake_ o), with_objects (alter set_unregistered sid) m3))
      by (unfold notifyUnregistered; by erewrite bind_run by (by apply session_at_run)).
    set (m4 := with_objects (alter set_unregistered sid) m3) in *.
    assert (Hi4 : session_objects m4 !! S sid = Some i1) by (cbn; rewrite list_lookup_alter_ne by lia; exact Hi3).
    assert (Ep : replace_session (S sid) m4 = (Ret true, with_sessions <[n := S sid]> (with_sessions (delete n) m4))).
    { unfold replace_session. by erewrite bind_run by (by apply session_at_run). }
    rewrite (bind_run _ _ _ _ _ En), (bind_run _ _ _ _ _ Ep). unfold end_handshake. erewrite bind_run by (by apply session_at_run).
    eexists. split; [reflexivity|]. cbn. apply lookup_insert_eq.
  - unfold end_handshake. erewrite bind_run by (by apply session_at_run). eexists. split; [reflexivity|]. cbn. apply lookup_insert_eq.
Qed.
End meeting.

(** ** Requests *)

Section requests.
(** Where a request is after [k] more were sent. *)
Definition tracked_request (id : list Z) (r k : nat) (m : ManagerBase) : Prop :=
  let a := activeRequests_ m in
  requests_ a m !! id = Some r ∨
  (requests_ a m !! id = None ∧ requests_ (negb a) m !! id = Some r ∧ (size (requests_ a m) <= k)%nat).

Lemma insertRequest_run id r m : ∃ m', insertRequest id r m = (Ret (), m') ∧ request_objects m' = request_objects m ∧
  ((activeRequests_ m' = activeRequests_ m ∧ requests_ (activeRequests_ m) m' = <[id := r]> (requests_ (activeRequests_ m) m) ∧
     requests_ (negb (activeRequests_ m)) m' = requests_ (negb (activeRequests_ m)) m ∧
     Z.of_nat (size (requests_ (activeRequests_ m) m)) < REQUEST_BUCKET_SIZE_LIMIT) ∨
   (activeRequests_ m' = negb (activeRequests_ m) ∧ requests_ (negb (activeRequests_ m)) m' = <[id := r]> ∅ ∧
     requests_ (activeRequests_ m) m' = requests_ (activeRequests_ m) m ∧
     REQUEST_BUCKET_SIZE_LIMIT <= Z.of_nat (size (requests_ (activeRequests_ m) m)))).
Proof.
  unfold insertRequest. erewrite bind_run by reflexivity. destruct (Z.leb_spec REQUEST_BUCKET_SIZE_LIMIT (Z.of_nat (size (requests_ (activeRequests_ m) m)))) as [Hl|Hl].
  - eexists. split; [by repeat (erewrite bind_run; [|by reflexivity])|].
    destruct m as [? ? ? ? ? r0 r1 [|] ?]; cbn in *; (split; [done|]); right; done.
  - eexists. split; [by repeat (erewrite bind_run; [|by reflexivity])|].
    destruct m as [? ? ? ? ? r0 r1 [|] ?]; cbn in *; (split; [done|]); left; done.
Qed.

Lemma inserted_tracked id r m : ∃ m', insertRequest id r m = (Ret (), m') ∧ tracked_request id r 0 m' ∧ request_objects m' = request_objects m.
Proof.
  destruct (insertRequest_run id r m) as (m' & E & Hr & [(Ha & Hi & _)|(Ha & Hi & _)]); exists m'; (split_and!; [done| |done]);
    left; rewrite Ha, Hi; apply lookup_insert_eq.
Qed.
Lemma insert_tracks id r k id' r' m : id ≠ id' → Z.of_nat k < REQUEST_BUCKET_SIZE_LIMIT → tracked_request id r k m →
  ∃ m', insertRequest id' r' m = (Ret (), m') ∧ tracked_request id r (S k) m' ∧ request_objects m' = request_objects m.
Proof.
  intros Hne Hk Ht. destruct (insertRequest_run id' r' m) as (m' & E & Hr & [(Ha & Hi & Ho & Hs)|(Ha & Hi & Ho & Hs)]); exists m'; (split_and!; [done| |done]); unfold tracked_request in *; rewrite Ha.
  - destruct Ht as [Hin|(Hn & Hin & Hsz)]; [left; by rewrite Hi, lookup_insert_ne|]. right.
    rewrite Hi, Ho, lookup_insert_ne by done. split_and!; [done|done|]. rewrite map_size_insert. case_match; unfold Datatypes.id; lia.
  - destruct Ht as [Hin|(Hn & Hin & Hsz)]; [|lia]. right. rewrite negb_involutive, Hi, Ho, lookup_insert_ne by done.
    split_and!; [by rewrite lookup_empty|done|]. rewrite map_size_insert, lookup_empty, map_size_empty. lia.
Qed.
Lemma inserts_track id r l : ∀ k m, (∀ e, e ∈ l → e.1 ≠ id) → Z.of_nat (k + length l) <= REQUEST_BUCKET_SIZE_LIMIT → tracked_request id r k m →
  ∃ m', for_each (λ e : list Z * nat, insertRequest e.1 e.2) l m = (Ret (), m') ∧ tracked_request id r (k + length l) m' ∧ request_objects m' = request_objects m.
Proof.
  induction l as [|[id' r'] l IH]; intros k m Hl Hk Ht; cbn [for_each length]; [exists m; by rewrite Nat.add_0_r|].
  destruct (insert_tracks id r k id' r' m) as (m1 & E1 & Ht1 & Hr1); [symmetry; apply (Hl (id', r')); set_solver|cbn in Hk; lia|done|].
  rewrite (bind_run _ _ _ _ _ E1). destruct (IH (S k) m1) as (m' & E & Ht' & Hr'); [set_solver|cbn in Hk |- *; lia|done|].
  exists m'. rewrite <- Nat.add_succ_comm. split_and!; [done|done|congruence].
Qed.
End requests.

(** ** Handlers in between *)

Section interleaving.
Context {NO : NodeOrder}.

(** A handshake in the middle of [sessionHandshaked], which let go of the lock:
    before or after the old session was told. *)
Inductive Stage := Found (old : nat) | Told.
Definition Config : Type := ManagerBase * gmap nat Stage.

(** One handler at a time, but a replacement takes three moves.  The strand of a
    session keeps its own handlers apart. *)
Inductive move : Config → Config → Prop :=
| move_outbound n m p : move (m, p) ((trySpawnOutboundSession n m).2, p)
| move_inbound address port m p : move (m, p) ((trySpawnInboundSession address port m).2, p)
| move_write sid message m p : move (m, p) ((write sid message m).2, p)
| move_stop m p : move (m, p) ((stop_sessions m).2, p)
| move_clear m p : started_ m = false → move (m, p) ((clear_sessions m).2, p)
| move_close sid m p : p !! sid = None → move (m, p) ((do_close sid m).2, p)
| move_handshake sid s b v m m' p : p !! sid = None → session_objects m !! sid = Some s →
    closed_ s = false → doneHandshake_ s = false → begin_handshake sid b m = (Ret v, m') →
    move (m, p) (match v with
                 | None => (m', p)
                 | Some (Done ok) => ((end_handshake sid ok m').2, p)
                 | Some (Replace old) => (m', <[sid := Found old]> p)
                 end)
| move_tell sid old m p : p !! sid = Some (Found old) →
    move (m, p) ((notifyUnregistered old m).2, <[sid := Told]> p)
| move_replace sid ok m m' p : p !! sid = Some Told → replace_session sid m = (Ret ok, m') →
    move (m, p) ((end_handshake sid ok m').2, delete sid p).

(** What holds in every interleaving. *)
Definition pending_for (m : ManagerBase) (p : gmap nat Stage) (n : NodeID) : Prop :=
  ∃ i x, p !! i = Some Told ∧ session_objects m !! i = Some x ∧ nodeId_ x = n.
Record valid (m : ManagerBase) (p : gmap nat Stage) : Prop := mkValid {
  va_entry : ∀ n sid, sessions_ m !! n = Some sid → ∃ s, session_objects m !! sid = Some s ∧ nodeId_ s = n ∧
    (registered_ s = true ∨ unregistered_ s = true ∧ pending_for m p n);
  va_registered : ∀ sid s, session_objects m !! sid = Some s → registered_ s = true →
    closed_ s = false ∧ (connectionType_ s = INBOUND → doneHandshake_ s = true);
  va_outbound : ∀ sid s, session_objects m !! sid = Some s → connectionType_ s = OUTBOUND →
    closed_ s = false → unregistered_ s = false → registered_ s = true;
  va_inbound : ∀ sid s, session_objects m !! sid = Some s → connectionType_ s = INBOUND → unregistered_ s = false;
  va_pending : ∀ sid st, p !! sid = Some st → ∃ s, session_objects m !! sid = Some s ∧ connectionType_ s = INBOUND ∧
    doneHandshake_ s = true ∧ closed_ s = false ∧ registered_ s = false ∧
    ∀ old, st = Found old → ∃ o, session_objects m !! old = Some o ∧ connectionType_ o = OUTBOUND ∧ nodeId_ o = nodeId_ s;
}.

(** A change of one session that leaves it where it is, or closes one that is not
    registered. *)
Lemma alter_valid m p sid s f : valid m p → session_objects m !! sid = Some s →
  connectionType_ (f s) = connectionType_ s → registered_ (f s) = registered_ s → unregistered_ (f s) = unregistered_ s →
  (doneHandshake_ s = true → doneHandshake_ (f s) = true) →
  (nodeId_ (f s) = nodeId_ s ∨ connectionType_ s = INBOUND ∧ doneHandshake_ s = false) →
  (closed_ (f s) = closed_ s ∨ closed_ (f s) = true ∧ registered_ s = false ∧ p !! sid = None) →
  valid (with_objects (alter f sid) m) p.
Proof.
  intros [H1 H2 H3 H4 H5] Hs Hc Hr Hu Hd Hn Hcl.
  assert (Hp : ∀ st, p !! sid = Some st → nodeId_ (f s) = nodeId_ s ∧ closed_ (f s) = closed_ s).
  { intros st Hst. destruct (H5 sid st Hst) as (s0 & E & _ & Ed & _). rewrite Hs in E. injection E as <-.
    split; [destruct Hn as [?|[_ ?]]; congruence|destruct Hcl as [?|(_ & _ & ?)]; congruence]. }
  assert (Hreg : registered_ s = true → nodeId_ (f s) = nodeId_ s ∧ closed_ (f s) = closed_ s).
  { intros E. split; [|destruct Hcl as [?|(_ & ? & _)]; congruence]. destruct Hn as [?|[Hi Hf]]; [done|].
    destruct (H2 sid s Hs E) as [_ Hdone]. rewrite Hdone in Hf by done. done. }
  assert (Hlook : ∀ i x, session_objects m !! i = Some x → ∃ y, alter f sid (session_objects m) !! i = Some y ∧
    y = (if decide (sid = i) then f x else x)) by (intros i x E; eexists; split; [apply alter_Some; by exists x|done]).
  split; cbn.
  - intros n i Hi. destruct (H1 n i Hi) as (s0 & E & En & Hor). destruct (Hlook i s0 E) as (y & Ey & ->). eexists. split; [exact Ey|].
    assert (Hpend : pending_for m p n → pending_for (with_objects (alter f sid) m) p n).
    { intros (j & x & Ej & Ex & En'). destruct (Hlook j x Ex) as (y & Ey' & ->). eexists j, _. split_and!; [done|exact Ey'|].
      destruct (decide (sid = j)) as [<-|]; [|done]. rewrite Hs in Ex. injection Ex as <-. destruct (Hp _ Ej). congruence. }
    destruct (decide (sid = i)) as [<-|]; [|naive_solver]. rewrite Hs in E. injection E as <-. destruct Hor as [E|[E Hpe]].
    + destruct (Hreg E). split; [congruence|]. left. congruence.
    + split; [|right; split; [congruence|auto]]. destruct Hn as [?|[Hi' _]]; [congruence|]. rewrite (H4 sid s Hs Hi') in E. done.
  - intros i s' (s0 & E & ->)%alter_Some. destruct (decide (sid = i)) as [<-|]; [|by apply (H2 i)]. rewrite Hs in E. injection E as <-.
    intros Hf. rewrite Hr in Hf. destruct (H2 sid s Hs Hf) as [Hc0 Hd0]. destruct (Hreg Hf) as [_ ->]. rewrite Hc. auto.
  - intros i s' (s0 & E & ->)%alter_Some. destruct (decide (sid = i)) as [<-|]; [|by eapply H3]. rewrite Hs in E. injection E as <-.
    rewrite Hc, Hr, Hu. intros Ho Hf. destruct Hcl as [Hcl|(Hcl & _)]; [|congruence]. apply (H3 sid); congruence.
  - intros i s' (s0 & E & ->)%alter_Some. destruct (decide (sid = i)) as [<-|]; [|by eapply H4]. rewrite Hs in E. injection E as <-.
    rewrite Hc, Hu. by apply (H4 sid).
  - intros i st Hi. destruct (H5 i st Hi) as (x & Ex & Ei & Ed & Ec & Er & Ho). destruct (Hlook i x Ex) as (y & Ey & ->).
    assert (Ho' : ∀ old, st = Found old → ∃ o, alter f sid (session_objects m) !! old = Some o ∧ connectionType_ o = OUTBOUND ∧ nodeId_ o = nodeId_ x).
    { intros old Hold. destruct (Ho old Hold) as (o & Eo & Eob & Eno). destruct (Hlook old o Eo) as (y' & Ey' & ->). eexists. split; [exact Ey'|].
      destruct (decide (sid = old)) as [<-|]; [|done]. rewrite Hs in Eo. injection Eo as <-. split; [congruence|].
      destruct Hn as [->|[? _]]; [done|congruence]. }
    eexists. split; [exact Ey|]. destruct (decide (sid = i)) as [<-|]; [|naive_solver]. rewrite Hs in Ex. injection Ex as <-.
    destruct (Hp st Hi) as [E1 E2]. rewrite E1. split_and!; try congruence; auto.
Qed.

(** Closing a registered session takes the entry of its node away. *)
Lemma close_valid m p sid s : valid m p → session_objects m !! sid = Some s → registered_ s = true →
  valid (with_sessions (delete (nodeId_ s)) (with_objects (alter (set_registered false ∘ set_closed) sid) m)) p.
Proof.
  intros [H1 H2 H3 H4 H5] Hs Hr. split; cbn.
  - intros n i [Hne Hi]%lookup_delete_Some. destruct (H1 n i Hi) as (s0 & E & En & Hor).
    assert (sid ≠ i) by (intros <-; rewrite Hs in E; injection E as <-; congruence). exists s0. rewrite list_lookup_alter_ne by done.
    split_and!; [done|done|]. destruct Hor as [?|[Hu (j & x & Ej & Ex & En')]]; [by left|]. right. split; [done|].
    destruct (H5 j _ Ej) as (x' & Ex' & _ & _ & _ & Er & _). rewrite Ex in Ex'. injection Ex' as <-.
    assert (sid ≠ j) by (intros <-; rewrite Hs in Ex; injection Ex as <-; congruence).
    exists j, x. cbn. by rewrite list_lookup_alter_ne.
  - intros i s' (s0 & E & ->)%alter_Some. by destruct (decide (sid = i)); [|apply (H2 i)].
  - intros i s' (s0 & E & ->)%alter_Some. by destruct (decide (sid = i)); [|apply (H3 i)].
  - intros i s' (s0 & E & ->)%alter_Some. destruct (decide (sid = i)); [|by apply (H4 i)]. by apply (H4 i s0).
  - intros i st Hi. destruct (H5 i st Hi) as (x & Ex & Ei & Ed & Ec & Er & Ho).
    assert (sid ≠ i) by (intros <-; rewrite Hs in Ex; injection Ex as <-; congruence). exists x. rewrite list_lookup_alter_ne by done.
    split_and!; try done. intros old Hold. destruct (Ho old Hold) as (o & Eo & Eob & Eno). destruct (decide (sid = old)) as [<-|].
    + rewrite Hs in Eo. injection Eo as <-. eexists. split; [by rewrite list_lookup_alter_eq, Hs|done].
    + exists o. by rewrite list_lookup_alter_ne.
Qed.

(** A session that waits to replace another is done: it takes the entry of its
    node, whoever has it, or leaves it empty. *)
Lemma drop_valid m p sid s : valid m p → session_objects m !! sid = Some s → valid (with_sessions (delete (nodeId_ s)) m) (delete sid p).
Proof.
  intros [H1 H2 H3 H4 H5] Hs. split; cbn; try done.
  - intros n i [Hne Hi]%lookup_delete_Some. destruct (H1 n i Hi) as (s0 & E & En & Hor). exists s0. split_and!; [done|done|].
    destruct Hor as [?|[Hu (j & x & Ej & Ex & En')]]; [by left|]. right. split; [done|]. exists j, x. split_and!; [|done|done].
    rewrite lookup_delete_ne; [done|]. intros ->. congruence.
  - intros i st [_ Hi]%lookup_delete_Some. by apply H5.
Qed.
Lemma enter_valid m p sid s : valid m p → session_objects m !! sid = Some s → connectionType_ s = INBOUND → doneHandshake_ s = true →
  closed_ s = false → p !! sid = None →
  valid (with_objects (alter (set_registered true) sid) (with_sessions <[nodeId_ s := sid]> m)) p.
Proof.
  intros [H1 H2 H3 H4 H5] Hs Hi Hd Hc Hp.
  assert (Hlook : ∀ i x, session_objects m !! i = Some x → ∃ y, alter (set_registered true) sid (session_objects m) !! i = Some y ∧
    nodeId_ y = nodeId_ x ∧ connectionType_ y = connectionType_ x ∧ unregistered_ y = unregistered_ x ∧
    (registered_ x = true → registered_ y = true)).
  { intros i x E. eexists. split; [apply alter_Some; by exists x|]. by destruct (decide (sid = i)). }
  split; cbn.
  - intros n i [[<- <-]|[Hne Hn]]%lookup_insert_Some.
    + eexists. split; [by rewrite list_lookup_alter_eq, Hs|]. split; [done|by left].
    + destruct (H1 n i Hn) as (s0 & E & En & Hor). destruct (Hlook i s0 E) as (y & Ey & E1 & E2 & E3 & E4). exists y.
      split_and!; [done|congruence|]. destruct Hor as [?|[Hu (j & x & Ej & Ex & En')]]; [left; auto|]. right. split; [congruence|].
      destruct (Hlook j x Ex) as (y' & Ey' & E1' & _). exists j, y'. split_and!; [done|done|congruence].
  - intros i s' (s0 & E & ->)%alter_Some. destruct (decide (sid = i)) as [<-|]; [|by apply (H2 i)]. rewrite Hs in E. by injection E as <-.
  - intros i s' (s0 & E & ->)%alter_Some. destruct (decide (sid = i)) as [<-|]; [done|by apply (H3 i)].
  - intros i s' (s0 & E & ->)%alter_Some. destruct (decide (sid = i)); [|by apply (H4 i)]. by apply (H4 i s0).
  - intros i st Hst. destruct (H5 i st Hst) as (x & Ex & Ei & Ed & Ec & Er & Ho). assert (sid ≠ i) by congruence.
    exists x. rewrite list_lookup_alter_ne by done. split_and!; try done. intros old Hold. destruct (Ho old Hold) as (o & Eo & Eob & Eno).
    destruct (Hlook old o Eo) as (y & Ey & E1 & E2 & _). exists y. split_and!; [done|congruence|congruence].
Qed.

(** A new session at the end of the list. *)
Lemma append_valid m p s : valid m p → (registered_ s = true → closed_ s = false) → connectionType_ s = OUTBOUND ∨ registered_ s = false →
  (connectionType_ s = OUTBOUND → registered_ s = true) → unregistered_ s = false → valid (with_objects (λ l, l ++ [s]) m) p.
Proof.
  intros [H1 H2 H3 H4 H5] Hr Hi Ho Hu.
  assert (Hmon : ∀ i x, session_objects m !! i = Some x → (session_objects m ++ [s]) !! i = Some x) by (intros; by apply lookup_app_l_Some).
  split; cbn.
  - intros n i Hn. destruct (H1 n i Hn) as (s0 & E & En & Hor). exists s0. split_and!; [auto|done|].
    destruct Hor as [?|[? (j & x & ? & ? & ?)]]; [by left|]. right. split; [done|]. exists j, x. cbn. auto.
  - intros i s' [E|[_ [_ <-]%list_lookup_singleton_Some]]%lookup_app_Some Hf; [by apply (H2 i)|]. split; [auto|]. intros. destruct Hi; congruence.
  - intros i s' [E|[_ [_ <-]%list_lookup_singleton_Some]]%lookup_app_Some; [by apply (H3 i)|auto].
  - intros i s' [E|[_ [_ <-]%list_lookup_singleton_Some]]%lookup_app_Some; [by apply (H4 i)|auto].
  - intros i st Hst. destruct (H5 i st Hst) as (x & Ex & ? & ? & ? & ? & Hold). exists x. split_and!; auto. intros old E.
    destruct (Hold old E) as (o & Eo & ?). exists o. auto.
Qed.
(** The session to replace is told, and waits for its replacement in the map. *)
Lemma tell_valid m p sid old s o : valid m p → p !! sid = Some (Found old) → session_objects m !! sid = Some s →
  session_objects m !! old = Some o → connectionType_ o = OUTBOUND → nodeId_ o = nodeId_ s →
  valid (with_objects (alter set_unregistered old) m) (<[sid := Told]> p).
Proof.
  intros [H1 H2 H3 H4 H5] Hp Hs Ho Hob Hno.
  assert (Hlook : ∀ i x, session_objects m !! i = Some x → ∃ y, alter set_unregistered old (session_objects m) !! i = Some y ∧
    nodeId_ y = nodeId_ x ∧ connectionType_ y = connectionType_ x ∧ (connectionType_ x = INBOUND → y = x) ∧ (i ≠ old → y = x)).
  { intros i x E. eexists. split; [apply alter_Some; by exists x|]. destruct (decide (old = i)) as [<-|]; split_and!; try done; intros; congruence. }
  assert (Hpend : ∀ i st x, p !! i = Some st → session_objects m !! i = Some x → alter set_unregistered old (session_objects m) !! i = Some x).
  { intros i st x Hi Hx. destruct (H5 i st Hi) as (x' & Ex & Ei & _). rewrite Hx in Ex. injection Ex as <-.
    destruct (Hlook i x Hx) as (y & Ey & _ & _ & E & _). by rewrite <- E. }
  split; cbn.
  - intros n i Hn. destruct (H1 n i Hn) as (s0 & E & En & Hor). destruct (decide (old = i)) as [<-|Hne].
    + rewrite Ho in E. injection E as <-. exists (set_unregistered o). rewrite list_lookup_alter_eq, Ho. split_and!; [done|done|]. right. split; [done|].
      exists sid, s. rewrite lookup_insert_eq. split_and!; [done|by apply (Hpend sid (Found old))|congruence].
    + destruct (Hlook i s0 E) as (y & Ey & _ & _ & _ & E5). rewrite (E5 ltac:(done)) in Ey. exists s0. split_and!; [done|done|].
      destruct Hor as [?|[? (j & x & Ej & Ex & ?)]]; [by left|]. right. split; [done|]. exists j, x.
      split_and!; [|by apply (Hpend j Told)|done]. destruct (decide (sid = j)) as [<-|]; [apply lookup_insert_eq|by rewrite lookup_insert_ne].
  - intros i s' (s0 & E & ->)%alter_Some. by destruct (decide (old = i)); [|apply (H2 i)].
  - intros i s' (s0 & E & ->)%alter_Some. by destruct (decide (old = i)); [|apply (H3 i)].
  - intros i s' (s0 & E & ->)%alter_Some. destruct (decide (old = i)) as [<-|]; [|by apply (H4 i)]. rewrite Ho in E. injection E as <-. cbn. congruence.
  - intros i st Hi. assert (Hst : ∃ st0, p !! i = Some st0 ∧ (∀ old', st = Found old' → st0 = Found old')).
    { apply lookup_insert_Some in Hi as [[<- <-]|[_ Hi]]; [by exists (Found old)|by exists st]. }
    destruct Hst as (st0 & Hi0 & Hst). destruct (H5 i st0 Hi0) as (x & Ex & Ei & Ed & Ec & Er & Hold). exists x.
    split_and!; [by apply (Hpend i st0)|done..|]. intros old' E. destruct (Hold old' (Hst old' E)) as (o' & Eo' & ? & ?).
    destruct (Hlook old' o' Eo') as (y & Ey & E1 & E2 & _). exists y. split_and!; [done|congruence|congruence].
Qed.
Lemma entry_valid m p (n : NodeID) sid s : valid m p → session_objects m !! sid = Some s → nodeId_ s = n → registered_ s = true →
  valid (with_sessions <[n := sid]> m) p.
Proof.
  intros [H1 H2 H3 H4 H5] Hs Hn Hr. split; cbn; try done.
  intros n' i [[<- <-]|[Hne Hn']]%lookup_insert_Some; [exists s; auto|]. destruct (H1 n' i Hn') as (s0 & E & En & Hor). exists s0. auto.
Qed.

Lemma do_close_valid m p sid : valid m p → p !! sid = None → valid (do_close sid m).2 p.
Proof.
  intros Hm Hp. unfold do_close. destruct (session_objects m !! sid) as [s|] eqn:Hs.
  2: { unfold session_at, gets, mbind, M_bind. by rewrite Hs. }
  erewrite bind_run by (by apply session_at_run). destruct (closed_ s) eqn:Hc; [done|].
  unfold update_session at 1. erewrite bind_run by reflexivity. destruct (registered_ s) eqn:Hr.
  - unfold sessionClosed, update_session, modify, mbind, M_bind. cbn.
    pose proof (close_valid m p sid s Hm Hs Hr) as H.
    unfold with_sessions, with_objects in *. cbn in *. by rewrite list_alter_alter_eq.
  - apply (alter_valid m p sid s); try done; [by left|by right].
Qed.

Lemma begin_handshake_valid m p sid s b v m' : valid m p → p !! sid = None → session_objects m !! sid = Some s →
  closed_ s = false → doneHandshake_ s = false → begin_handshake sid b m = (Ret v, m') →
  match v with
  | None => valid m' p
  | Some (Done ok) => valid (end_handshake sid ok m').2 p
  | Some (Replace old) => valid m' (<[sid := Found old]> p)
  end.
Proof.
  intros Hm Hp Hs Hc Hd. unfold begin_handshake. erewrite bind_run by (by apply session_at_run).
  unfold mbind at 1, M_bind at 1, lift at 1. destruct (bytesToUint16 (drop 1 b)) as [port|e]; [|done].
  destruct (bool_decide (connectionType_ s = OUTBOUND) && negb (port_ s =? port)).
  { pose proof (do_close_valid m p sid Hm Hp) as H. unfold mbind, M_bind. destruct (do_close sid m) as [[[]|] m1]; by intros [= <- <-]. }
  cbv zeta. set (t := if _ =? 0 then NORMAL_NODE else DISCOVERY_NODE).
  set (node := match connectionType_ s with INBOUND => _ | OUTBOUND => _ end : NodeID).
  set (m1 := with_objects (alter (set_handshake node t) sid) m). set (s1 := set_handshake node t s).
  assert (Hs1 : session_objects m1 !! sid = Some s1) by (cbn; by rewrite list_lookup_alter_eq, Hs).
  assert (Hm1 : valid m1 p).
  { apply (alter_valid m p sid s); try done; [|by left]. cbn. subst node. destruct (connectionType_ s); [by right|by left]. }
  erewrite bind_run by reflexivity. change (with_objects _ m) with m1.
  destruct (unregistered_ s) eqn:Hu.
  { pose proof (do_close_valid m1 p sid Hm1 Hp) as H. unfold mbind, M_bind. destruct (do_close sid m1) as [[[]|] m2]; by intros [= <- <-]. }
  unfold sessionHandshaked. unfold mbind at 1, M_bind at 1. unfold mbind at 1, M_bind at 1. unfold gets at 1. change (id m1) with m1.
  destruct (started_ m1) eqn:Hst; cbn [negb].
  2: { intros [= <- <-]. unfold end_handshake. erewrite bind_run by (by apply session_at_run).
       destruct (connectionType_ s1); [done|by apply do_close_valid]. }
  erewrite bind_run by (by apply session_at_run). destruct (connectionType_ s1) eqn:Hct.
  2: { intros [= <- <-]. unfold end_handshake. erewrite bind_run by (by apply session_at_run).
       apply (alter_valid m1 p sid s1); try done; [|by left..]. cbn. symmetry. by apply (va_outbound m p Hm sid s). }
  destruct (sessions_ m1 !! nodeId_ s1) as [old|] eqn:Hold.
  - destruct (va_entry m1 p Hm1 _ old Hold) as (o & Ho & Hno & _). erewrite bind_run by (by apply session_at_run).
    destruct (node_lt _ _ && bool_decide (connectionType_ o = OUTBOUND)) eqn:Eo; intros [= <- <-].
    + apply andb_true_iff in Eo as [_ Eo%bool_decide_eq_true]. destruct Hm1 as [H1 H2 H3 H4 H5].
      assert (Hr1 : registered_ s1 = false).
      { destruct (registered_ s1) eqn:Hr1; [|done]. destruct (va_registered m p Hm sid s Hs Hr1) as [_ Hdone]. specialize (Hdone Hct). congruence. }
      split; try done.
      * intros n i Hi. destruct (H1 n i Hi) as (s0 & E & En & Hor). exists s0. split_and!; [done|done|].
        destruct Hor as [?|[? (j & x & Ej & ?)]]; [by left|]. right. split; [done|]. exists j, x. rewrite lookup_insert_ne by congruence. done.
      * intros i st [[<- <-]|[Hne Hi]]%lookup_insert_Some; [|by apply H5]. exists s1. split_and!; try done. intros old' [= <-]. by exists o.
    + unfold end_handshake. erewrite bind_run by (by apply session_at_run). by rewrite Hct.
  - erewrite bind_run by reflexivity. intros [= <- <-]. unfold end_handshake. erewrite bind_run by (by apply session_at_run).
    by apply (enter_valid m1 p sid s1).
Qed.

Lemma replace_valid m p sid ok m' : valid m p → p !! sid = Some Told → replace_session sid m = (Ret ok, m') →
  valid (end_handshake sid ok m').2 (delete sid p).
Proof.
  intros Hm Hp. destruct (va_pending m p Hm sid Told Hp) as (s & Hs & Hi & Hd & Hc & Hr & _).
  unfold replace_session. erewrite bind_run by (by apply session_at_run). erewrite bind_run by reflexivity. erewrite bind_run by reflexivity.
  pose proof (drop_valid m p sid s Hm Hs) as Hdrop. destruct (started_ (with_sessions (delete (nodeId_ s)) m)).
  - erewrite bind_run by reflexivity. intros [= <- <-]. unfold end_handshake. erewrite bind_run by (by apply session_at_run).
    apply (enter_valid _ (delete sid p) sid s Hdrop Hs); try done. apply lookup_delete_eq.
  - intros [= <- <-]. unfold end_handshake. erewrite bind_run by (by apply session_at_run). by rewrite Hi.
Qed.

Lemma move_valid c c' : move c c' → valid c.1 c.2 → valid c'.1 c'.2.
Proof.
  intros [n m p|address port m p|sid message m p|m p|m p Hst|sid m p Hp|sid s b v m m' p Hp Hs Hc Hd E|sid old m p Hp|sid ok m m' p Hp E]; cbn [fst snd]; intros Hm.
  - unfold trySpawnOutboundSession, gets. unfold mbind at 1, M_bind at 1. change (id m) with m.
    destruct (started_ m); cbn [negb]; [|done]. case_bool_decide as Hn; [done|]. unfold new_session, gets, modify, mbind, M_bind, mret, M_ret. cbn [snd].
    set (s := mkSession OUTBOUND n.1 n.2 n None false true false false []).
    assert (Ha : valid (with_objects (λ l, l ++ [s]) m) p) by (apply append_valid; try done; by left).
    refine (entry_valid _ p n (length (session_objects m)) s Ha _ eq_refl eq_refl). cbn. by rewrite lookup_app_r, Nat.sub_diag.
  - unfold trySpawnInboundSession, gets. unfold mbind at 1, M_bind at 1. change (id m) with m.
    destruct (started_ m); cbn [negb]; [|done]. apply append_valid; try done. by right.
  - unfold write. destruct (session_objects m !! sid) as [s|] eqn:Hs.
    2: { unfold session_at, gets, mbind, M_bind. by rewrite Hs. }
    erewrite bind_run by (by apply session_at_run). destruct (doneHandshake_ s) eqn:Hd; [|done].
    apply (alter_valid m p sid s); try done; by left.
  - by destruct Hm.
  - by destruct Hm.
  - by apply do_close_valid.
  - pose proof (begin_handshake_valid m p sid s b v m' Hm Hp Hs Hc Hd E) as H. by destruct v as [[|]|].
  - destruct (va_pending m p Hm sid _ Hp) as (s & Hs & Hi & Hd & Hc & Hr & Ho). destruct (Ho old eq_refl) as (o & Eo & Eob & Eno).
    unfold notifyUnregistered. erewrite bind_run by (by apply session_at_run). unfold update_session. erewrite bind_run by reflexivity. cbn [snd mret M_ret].
    by apply (tell_valid m p sid old s o).
  - by apply (replace_valid m p sid ok m').
Qed.
End interleaving.

(** ** The properties of connections *)

(** C32: the registry of sessions.  Whatever handlers run in between the parts of a
    handshake that replaces a session, every entry of the manager's map is a
    session of its node, open and registered, or one that was told that it is being
    replaced by a handshake that is still to finish; a registered session is open,
    and an outbound session is registered until it is closed or told.  When no
    handler runs inside a handshake, the registered sessions and the entries of
    the map correspond one to one (until the map is cleared at the end), so that
    closing a session removes its own entry, as the comments of [sessionClosed]
    demand; with handlers in between this fails ([replacement_race]). *)
Theorem sessions_consistent {NO : NodeOrder} (self : NodeID) (type : Z) :
  (∀ m p, rtc move (manager_new self type, ∅) (m, p) →
    (∀ n sid, sessions_ m !! n = Some sid → ∃ s, session_objects m !! sid = Some s ∧ nodeId_ s = n ∧
       (registered_ s = true ∧ closed_ s = false ∨ unregistered_ s = true ∧ pending_for m p n)) ∧
    (∀ sid s, session_objects m !! sid = Some s → registered_ s = true → closed_ s = false) ∧
    (∀ sid s, session_objects m !! sid = Some s → connectionType_ s = OUTBOUND → closed_ s = false → unregistered_ s = false → registered_ s = true)) ∧
  (∀ m, rtc change (manager_new self type) m →
    (∀ n sid, sessions_ m !! n = Some sid → ∃ s, session_objects m !! sid = Some s ∧ nodeId_ s = n ∧ registered_ s = true) ∧
    (∀ sid s, session_objects m !! sid = Some s → registered_ s = true → closed_ s = false ∧
       (sessions_ m !! nodeId_ s = Some sid ∨ started_ m = false ∧ sessions_ m !! nodeId_ s = None))).
Proof.
  split.
  - intros m p Hr. assert (Hm : valid m p).
    { assert (Hn : valid (manager_new self type, ∅ : gmap nat Stage).1 (manager_new self type, ∅).2) by by split.
      change (valid (m, p).1 (m, p).2). clear -Hr Hn. revert Hr Hn. generalize (manager_new self type, ∅ : gmap nat Stage) as c. intros c Hr Hn.
      induction Hr as [|x y z Hxy _ IH]; [done|]. by apply IH, (move_valid x y). }
    split_and!; [|intros; by eapply va_registered|intros; by eapply va_outbound]. intros n sid Hn.
    destruct (va_entry m p Hm n sid Hn) as (s & Hs & En & [E|E]); exists s; (split_and!; [done|done|]); [left; split; [done|]|by right].
    by eapply va_registered.
  - intros m Hr. assert (Hm : consistent m).
    { pose proof (new_manager_consistent self type) as H0. clear -Hr H0.
      induction Hr as [|m1 m2 m3 Hs _ IH]; [done|]. by apply IH, (change_consistent m1). }
    split; [apply (cs_entry m Hm)|apply (cs_registered m Hm)].
Qed.

(** C33: two nodes that connect to each other at the same time keep the same one of
    the two connections.  When both registered their outgoing session and then
    complete the handshake of the incoming one, both maps hold the connection that
    the node with the lower id opened: the outgoing session at that node and the
    incoming one at the other. *)
Theorem simultaneous_connect_agrees {NO : NodeOrder} (a b : ManagerBase) (ta tb pa pb : Z) :
  started_ a = true → started_ b = true → self_ a ≠ self_ b →
  sessions_ a !! self_ b = None → sessions_ b !! self_ a = None →
  in_range 16 (self_ a).2 → in_range 16 (self_ b).2 →
  let outA := length (session_objects a) in let outB := length (session_objects b) in
  ∃ a' b', meet (self_ b) tb pb a = (Ret (), a') ∧ meet (self_ a) ta pa b = (Ret (), b') ∧
    if node_lt (self_ a) (self_ b)
    then sessions_ a' !! self_ b = Some outA ∧ sessions_ b' !! self_ a = Some (S outB)
    else sessions_ a' !! self_ b = Some (S outA) ∧ sessions_ b' !! self_ a = Some outB.
Proof.
  intros Ha Hb Hne Hab Hba Hpa Hpb outA outB.
  destruct (meet_run (self_ b) tb pb a Ha Hab Hpb) as (a' & Ea & La). destruct (meet_run (self_ a) ta pa b Hb Hba Hpa) as (b' & Eb & Lb).
  exists a', b'. split_and!; [done|done|]. rewrite La, Lb.
  destruct (node_lt_total _ _ Hne) as [H|H]; rewrite H, (node_lt_asym _ _ H); auto.
Qed.

(** An answer finds its request.  After a request was entered, up to 100000
    further requests may be sent: the two buckets still hold it, and an answer
    with its id keeps its promise, whoever sends it. *)
Theorem request_answered {NO : NodeOrder} (id : list Z) (r : nat) (q : Request) (l : list (list Z * nat)) (n : NodeID) (message : list Z) (m : ManagerBase) :
  request_objects m !! r = Some q → rq_answer q = None → msg_id message = Ret id →
  (∀ e, e ∈ l → e.1 ≠ id) → Z.of_nat (length l) <= REQUEST_BUCKET_SIZE_LIMIT →
  ∃ m' m'', (insertRequest id r ;; for_each (λ e : list Z * nat, insertRequest e.1 e.2) l) m = (Ret (), m') ∧
    handleRequestAnswer n message m' = (Ret None, m'') ∧
    request_objects m'' !! r = Some (mkRequest (rq_command q) (rq_id q) (rq_nodeId q) (Some message)).
Proof.
  intros Hq Ha Hid Hl Hlen. destruct (inserted_tracked id r m) as (m1 & E1 & Ht1 & Hr1).
  destruct (inserts_track id r l 0 m1 Hl) as (m2 & E2 & Ht2 & Hr2); [cbn; lia|done|].
  assert (Hq2 : request_objects m2 !! r = Some q) by congruence.
  assert (Es : setAnswer r message m2 = (Ret (), with_requests (alter (λ q, mkRequest (rq_command q) (rq_id q) (rq_nodeId q) (Some message)) r) m2)).
  { unfold setAnswer. erewrite bind_run by reflexivity. by rewrite Hq2, Ha. }
  exists m2. eexists. split_and!; [by rewrite (bind_run _ _ _ _ _ E1)| |].
  - unfold handleRequestAnswer. erewrite bind_run by (unfold lift; by rewrite Hid). erewrite bind_run by reflexivity.
    destruct Ht2 as [-> |(-> & -> & _)]; by rewrite (bind_run _ _ _ _ _ Es).
  - cbn. by rewrite list_lookup_alter_eq, Hq2.
Qed.

(** A total order of node ids, by their codes. *)
#[refine] Definition code_order : NodeOrder := {| node_lt a b := bool_decide (encode a < encode b)%positive |}.
Proof.
  - intros a b. rewrite bool_decide_eq_true, bool_decide_eq_false. lia.
  - intros a b Hne. rewrite !bool_decide_eq_true. assert (encode a ≠ encode b) by (intros E; by apply encode_inj in E). lia.
Defined.

Section demo.
#[local] Existing Instance code_order.

Definition low : NodeID := (V4 [1], 5).
Definition high : NodeID := (V4 [1; 1; 1; 1], 7).

Lemma low_high : node_lt low high = true.
Proof. vm_compute. reflexivity. Qed.

(** The state after some operations. *)
Definition after (l : list (ManagerBase → ManagerBase)) (m : ManagerBase) : ManagerBase := foldl (λ m f, f m) m l.
Definition shake (sid : nat) (m : ManagerBase) : ManagerBase := (begin_handshake sid (0 :: uint16ToBytes 5) m).2.
Definition swap_in (sid : nat) (m : ManagerBase) : ManagerBase := (end_handshake sid true (replace_session sid m).2).2.
Definition tell (m : ManagerBase) : ManagerBase := (notifyUnregistered 0 m).2.
(** The node with the high id connected to the low one, which connected twice. *)
Definition three_sessions : ManagerBase :=
  after [λ m, (trySpawnOutboundSession low m).2; λ m, (trySpawnInboundSession low.1 1000 m).2; λ m, (trySpawnInboundSession low.1 1001 m).2]
    (manager_new high 0).

Lemma three_sessions_moves : rtc move (manager_new high 0, ∅) (three_sessions, ∅).
Proof.
  eapply rtc_l; [apply (move_outbound low)|]. eapply rtc_l; [apply (move_inbound low.1 1000)|].
  eapply rtc_l; [apply (move_inbound low.1 1001)|]. apply rtc_refl.
Qed.

(** Both handshakes find the outgoing session before either replaces it. *)
Definition both_found : Config := (after [shake 1; shake 2] three_sessions, <[2%nat := Found 0]> (<[1%nat := Found 0]> ∅)).
Definition first_in : Config := (after [tell; swap_in 1] both_found.1, delete 1%nat both_found.2).
Definition second_in : Config := (after [tell; swap_in 2] first_in.1, delete 2%nat first_in.2).

Lemma handshake_found sid m m' s p : p !! sid = None → session_objects m !! sid = Some s → closed_ s = false → doneHandshake_ s = false →
  begin_handshake sid (0 :: uint16ToBytes 5) m = (Ret (Some (Replace 0)), m') → move (m, p) (m', <[sid := Found 0]> p).
Proof. intros. by apply (move_handshake sid s (0 :: uint16ToBytes 5) (Some (Replace 0))). Qed.
Lemma replace_moves sid m p : p !! sid = Some (Found 0) → (replace_session sid (tell m)).1 = Ret true →
  rtc move (m, p) (after [tell; swap_in sid] m, delete sid p).
Proof.
  intros Hp Hr. eapply rtc_l; [by apply (move_tell sid 0)|]. destruct (replace_session sid (tell m)) as [r m'] eqn:E. cbn in Hr. subst r.
  eapply rtc_l; [apply (move_replace sid true (tell m) m'); [by rewrite lookup_insert_eq|done]|].
  rewrite delete_insert_eq. cbn [after foldl]. unfold swap_in. rewrite E. apply rtc_refl.
Qed.

(** A replacement is not atomic, and two at once break the registry.  When two
    connections of a peer complete their handshakes while the outgoing one is
    replaced, both are registered sessions, one of which the map has lost; when
    the lost one closes it removes the entry of the other, which stays open and
    registered but is no longer found: the node neither sends to that peer nor
    sees it as connected, against the comment of [sessionClosed]. *)
Theorem replacement_race :
  ∃ m p x y, rtc move (manager_new high 0, ∅) (m, p) ∧
    session_objects m !! 1%nat = Some x ∧ session_objects m !! 2%nat = Some y ∧
    registered_ x = true ∧ registered_ y = true ∧ nodeId_ x = low ∧ nodeId_ y = low ∧ sessions_ m !! low = Some 2%nat ∧
    move (m, p) ((do_close 1 m).2, p) ∧ sessions_ (do_close 1 m).2 !! low = None ∧
    session_objects (do_close 1 m).2 !! 2%nat = Some y ∧ closed_ y = false.
Proof.
  assert (H1 : rtc move (manager_new high 0, ∅) both_found).
  { etrans; [apply three_sessions_moves|]. unfold both_found. cbn [after foldl]. eapply rtc_l.
    { apply (handshake_found 1 three_sessions (shake 1 three_sessions) (mkSession INBOUND low.1 1000 no_node None false false false false [])); vm_compute; reflexivity. }
    eapply rtc_l.
    { apply (handshake_found 2 (shake 1 three_sessions) (shake 2 (shake 1 three_sessions)) (mkSession INBOUND low.1 1001 no_node None false false false false [])); vm_compute; reflexivity. }
    apply rtc_refl. }
  assert (H2 : rtc move both_found first_in) by (apply (replace_moves 1 both_found.1 both_found.2); vm_compute; reflexivity).
  assert (H3 : rtc move first_in second_in) by (apply (replace_moves 2 first_in.1 first_in.2); vm_compute; reflexivity).
  exists second_in.1, second_in.2. do 2 eexists. split; [etrans; [exact H1|]; etrans; [exact H2|exact H3]|].
  split; [vm_compute; reflexivity|]. split; [vm_compute; reflexivity|]. split; [reflexivity|]. split; [reflexivity|].
  split; [reflexivity|]. split; [reflexivity|]. split; [vm_compute; reflexivity|]. split; [apply move_close; vm_compute; reflexivity|].
  split; [vm_compute; reflexivity|]. split; [vm_compute; reflexivity|reflexivity].
Qed.

Lemma sessions_consistent_witness :
  (∃ m, rtc change (manager_new high 0) m ∧ sessions_ m !! low = Some 0%nat ∧
    ∃ s, session_objects m !! 0%nat = Some s ∧ nodeId_ s = low ∧ registered_ s = true) ∧
  (rtc move (manager_new high 0, ∅) (three_sessions, ∅) ∧ ∃ s, session_objects three_sessions !! 0%nat = Some s ∧ nodeId_ s = low).
Proof.
  split.
  - set (m := (trySpawnOutboundSession low (manager_new high 0)).2).
    assert (Hr : rtc change (manager_new high 0) m) by (apply rtc_once, change_outbound).
    assert (Hs : sessions_ m !! low = Some 0%nat) by (vm_compute; reflexivity).
    exists m. split; [exact Hr|]. split; [exact Hs|]. exact (proj1 (proj2 (sessions_consistent high 0) m Hr) low 0%nat Hs).
  - split; [exact three_sessions_moves|]. assert (Hs : sessions_ three_sessions !! low = Some 0%nat) by (vm_compute; reflexivity).
    destruct (proj1 (proj1 (sessions_consistent high 0) three_sessions ∅ three_sessions_moves) low 0%nat Hs) as (s & E & En & _).
    exists s. split; [exact E|exact En].
Defined.

Lemma simultaneous_connect_agrees_witness :
  ∃ a' b', meet high 0 1000 (manager_new low 0) = (Ret (), a') ∧ meet low 0 2000 (manager_new high 0) = (Ret (), b') ∧
    sessions_ a' !! high = Some 0%nat ∧ sessions_ b' !! low = Some 1%nat.
Proof.
  change (∃ a' b', meet high 0 1000 (manager_new low 0) = (Ret (), a') ∧ meet low 0 2000 (manager_new high 0) = (Ret (), b') ∧
    if true then sessions_ a' !! high = Some 0%nat ∧ sessions_ b' !! low = Some 1%nat
    else sessions_ a' !! high = Some 1%nat ∧ sessions_ b' !! low = Some 0%nat).
  rewrite <- low_high.
  apply (simultaneous_connect_agrees (manager_new low 0) (manager_new high 0) 0 0 2000 1000);
    first [reflexivity|vm_compute; split; congruence|vm_compute; discriminate].
Defined.

Lemma request_answered_witness :
  let q := mkRequest Ping (repeat 7 8) low None in
  let answer := [1] ++ repeat 7 8 ++ [0; 0] in
  ∃ m' m'', (insertRequest (repeat 7 8) 0 ;; for_each (λ e : list Z * nat, insertRequest e.1 e.2) [(repeat 8 8, 1%nat)])
      (with_requests (λ _, [q]) (manager_new high 0)) = (Ret (), m') ∧
    handleRequestAnswer high answer m' = (Ret None, m'') ∧
    request_objects m'' !! 0%nat = Some (mkRequest Ping (repeat 7 8) low (Some answer)).
Proof.
  intros q answer. apply (request_answered (repeat 7 8) 0 q [(repeat 8 8, 1%nat)] high answer (with_requests (λ _, [q]) (manager_new high 0))).
  - reflexivity.
  - reflexivity.
  - vm_compute. reflexivity.
  - intros e He. apply list_elem_of_singleton in He as ->. vm_compute. discriminate.
  - vm_compute. discriminate.
Defined.
End demo.
