(* ===== verification/DB.v ===== *)
(** * The database

    Models src/utils/db.h and db.cpp: prefixed keys, batches and the three scans.
    The storage engine (RocksDB) is the class [RocksDB]: a map from byte strings
    to byte strings whose iterators walk the keys in bytewise order.  Opening,
    closing, locks and input/output errors are not modelled: a write succeeds. *)

From stdpp Require Import sorting.
From S2P Require Import Prelude CheckedInt Bytes.

(** ** Keys *)

(** [rocksdb::BytewiseComparator] *)
Fixpoint key_lt (a b : list Z) : bool :=
  match a, b with
  | _, [] => false
  | [], _ :: _ => true
  | x :: a, y :: b => (x <? y) || ((x =? y) && key_lt a b)
  end.
(** [Slice::starts_with] *)
Fixpoint starts_with (p k : list Z) : bool :=
  match p, k with
  | [], _ => true
  | _ :: _, [] => false
  | x :: p, y :: k => (x =? y) && starts_with p k
  end.

Lemma key_lt_irrefl a : key_lt a a = false.
Proof. induction a as [|x a IH]; [done|]. cbn. by rewrite Z.ltb_irrefl, Z.eqb_refl. Qed.
Lemma key_lt_trans a b c : key_lt a b = true → key_lt b c = true → key_lt a c = true.
Proof.
  revert b c. induction a as [|x a IH]; intros [|y b] [|z c]; cbn; try done.
  intros [Hxy|[Hxy Hab]%andb_prop]%orb_prop [Hyz|[Hyz Hbc]%andb_prop]%orb_prop; apply orb_true_iff;
    rewrite ?Z.ltb_lt, ?Z.eqb_eq in *; try (left; lia).
  right. rewrite (IH b c) by done. apply andb_true_iff. split; [apply Z.eqb_eq; lia|done].
Qed.
Lemma key_lt_total a b : key_lt a b = false → key_lt b a = false → a = b.
Proof.
  revert b. induction a as [|x a IH]; intros [|y b]; cbn; try done.
  intros [Hxy Ha]%orb_false_iff [Hyx Hb]%orb_false_iff. apply Z.ltb_ge in Hxy, Hyx. assert (x = y) as -> by lia.
  rewrite Z.eqb_refl in Ha, Hb. f_equal. by apply IH.
Qed.
Lemma key_lt_asym a b : key_lt a b = true → key_lt b a = false.
Proof.
  intros Hab. destruct (key_lt b a) eqn:Hba; [|done]. pose proof (key_lt_trans a b a Hab Hba) as H.
  by rewrite key_lt_irrefl in H.
Qed.
Lemma key_lt_le_trans a b c : key_lt b a = false → key_lt b c = true → key_lt a c = true.
Proof.
  intros Hba Hbc. destruct (key_lt a b) eqn:Hab; [by eapply key_lt_trans|]. by rewrite (key_lt_total a b).
Qed.
Lemma key_lt_app p a b : key_lt (p ++ a) (p ++ b) = key_lt a b.
Proof. induction p as [|x p IH]; [done|]. cbn. by rewrite Z.ltb_irrefl, Z.eqb_refl, IH. Qed.

Lemma starts_with_spec p k : starts_with p k = true ↔ ∃ s, k = p ++ s.
Proof.
  revert k. induction p as [|x p IH]; intros k; cbn; [split; [by exists k|done]|].
  destruct k as [|y k]; [split; [done|by intros [s ?]]|]. rewrite andb_true_iff, Z.eqb_eq, IH. split.
  - intros [-> [s ->]]. by exists s.
  - intros [s [= -> ->]]. eauto.
Qed.
Lemma starts_with_app p k : starts_with p (p ++ k) = true.
Proof. apply starts_with_spec. eauto. Qed.
Lemma prefix_le p k : starts_with p k = true → key_lt k p = false.
Proof.
  intros [s ->]%starts_with_spec. induction p as [|x p IH]; cbn; [by destruct s|].
  by rewrite Z.ltb_irrefl, Z.eqb_refl, IH.
Qed.
(** The keys with a prefix are an interval that begins at the prefix. *)
Lemma prefix_interval p x y : key_lt x p = false → key_lt x y = true → starts_with p y = true →
  starts_with p x = true.
Proof.
  revert x y. induction p as [|z p IH]; intros [|a x] [|b y]; cbn; try done.
  intros [Hap Hxp]%orb_false_iff Hxy [Hzb Hpy]%andb_prop. apply Z.ltb_ge in Hap. apply Z.eqb_eq in Hzb as ->.
  apply orb_prop in Hxy as [Hab|[Hab Hxy]%andb_prop]; [apply Z.ltb_lt in Hab; lia|]. apply Z.eqb_eq in Hab as ->.
  rewrite Z.eqb_refl in *. cbn in *. by apply (IH x y).
Qed.

(** ** The storage engine *)

Definition Entry : Type := list Z * list Z.
Definition entry_lt (e e' : Entry) : Prop := key_lt e.1 e'.1 = true.

Class RocksDB := {
  rocks : Type;
  (** What an iterator from the first key walks. *)
  entries : rocks → list Entry;
  Get : list Z → rocks → option (list Z);
  Put : list Z → list Z → rocks → rocks;
  Delete : list Z → rocks → rocks;
  entries_sorted : ∀ d, StronglySorted entry_lt (entries d);
  entries_Get : ∀ k v d, (k, v) ∈ entries d ↔ Get k d = Some v;
  Get_Put : ∀ k v k' d, Get k' (Put k v d) = if decide (k' = k) then Some v else Get k' d;
  Get_Delete : ∀ k k' d, Get k' (Delete k d) = if decide (k' = k) then None else Get k' d;
}.

(** The loops [for (it->Seek(k); it->Valid() && cond; it->Next())]. *)
Fixpoint skip_while (f : Entry → bool) (l : list Entry) : list Entry :=
  match l with [] => [] | e :: l' => if f e then skip_while f l' else l end.
Fixpoint take_while (f : Entry → bool) (l : list Entry) : list Entry :=
  match l with [] => [] | e :: l => if f e then e :: take_while f l else [] end.

(** Batches: the puts and the deletions. *)
Record DBBatch := mkBatch { puts_ : list Entry; dels_ : list (list Z) }.
Definition batch_nil : DBBatch := mkBatch [] [].
Definition push_back (key value prefix : list Z) (b : DBBatch) : DBBatch :=
  mkBatch (puts_ b ++ [(prefix ++ key, value)]) (dels_ b).
Definition push_entry (e : Entry) (b : DBBatch) : DBBatch := mkBatch (puts_ b ++ [e]) (dels_ b).
Definition delete_key (key prefix : list Z) (b : DBBatch) : DBBatch :=
  mkBatch (puts_ b) (dels_ b ++ [prefix ++ key]).

(** [DBPrefix] *)
Definition pfx_blocks : list Z := [0; 1].
Definition pfx_heightToBlock : list Z := [0; 2].
Definition pfx_nativeAccounts : list Z := [0; 3].
Definition pfx_txToBlock : list Z := [0; 4].
Definition pfx_rdPoS : list Z := [0; 5].
Definition pfx_contracts : list Z := [0; 6].
Definition pfx_contractManager : list Z := [0; 7].
Definition pfx_events : list Z := [0; 8].
Definition pfx_vmStorage : list Z := [0; 9].
Definition pfx_txToAdditionalData : list Z := [0; 10].
Definition pfx_txToCallTrace : list Z := [0; 11].
Definition pfx_evmContracts : list Z := [0; 12].

Definition makeNewPrefix (prefix newPrefix : list Z) : list Z := prefix ++ newPrefix.

Section db.
Context {R : RocksDB}.

Definition Seek (k : list Z) (d : rocks) : list Entry := skip_while (λ e, key_lt e.1 k) (entries d).
(** [SeekForPrev]: the last entry at or before [k]. *)
Definition SeekForPrev (k : list Z) (d : rocks) : option Entry := last (take_while (λ e, negb (key_lt k e.1)) (entries d)).
Definition SeekToLast (d : rocks) : option Entry := last (entries d).

Definition db_has (key pfx : list Z) (d : rocks) : bool :=
  match Seek (pfx ++ key) d with [] => false | e :: _ => bool_decide (e.1 = pfx ++ key) end.
Definition hasPrefix (pfx : list Z) (d : rocks) : bool :=
  match Seek pfx d with [] => false | e :: _ => starts_with pfx e.1 end.
(** [get]: nothing when the key is absent. *)
Definition db_get (key pfx : list Z) (d : rocks) : list Z := default [] (Get (pfx ++ key) d).
Definition db_put (key value pfx : list Z) (d : rocks) : rocks := Put (pfx ++ key) value d.
Definition db_del (key pfx : list Z) (d : rocks) : rocks := Delete (pfx ++ key) d.

Definition putBatch (b : DBBatch) (d : rocks) : rocks :=
  fold_left (λ d e, Put e.1 e.2 d) (puts_ b) (fold_left (λ d k, Delete k d) (dels_ b) d).

(** The entries of a prefix, without it. *)
Definition scan (pfx : list Z) (d : rocks) : list Entry :=
  map (λ e, (drop (length pfx) e.1, e.2)) (take_while (λ e, starts_with pfx e.1) (Seek pfx d)).
Definition getBatch (pfx : list Z) (keys : list (list Z)) (d : rocks) : list Entry :=
  match keys with
  | [] => scan pfx d
  | _ => concat (map (λ key, scan (pfx ++ key) d) keys)
  end.

Definition getKeys (pfx start stop : list Z) (d : rocks) : list (list Z) :=
  let startBytes := pfx ++ start in
  let endBytes := pfx ++ stop in
  map (λ e, drop (length pfx) e.1)
    (take_while (λ e, negb (key_lt endBytes e.1 && negb (starts_with endBytes e.1))) (Seek startBytes d)).

(** [++nextPfx[i--]] from the last byte while it overflows: the bytes in reverse,
    and whether the first one overflowed. *)
Fixpoint bump (rb : list Z) : list Z * bool :=
  match rb with
  | [] => ([], true)
  | b :: rb => if wrap 8 (b + 1) =? 0 then let '(r, o) := bump rb in (0 :: r, o) else (wrap 8 (b + 1) :: rb, false)
  end.
Definition getLastByPrefix (pfx : list Z) (d : rocks) : outcome (list Z) :=
  if decide (pfx = []) then Throw undefined_behaviour else
  let '(rb, overflow) := bump (reverse pfx) in
  let it := if overflow then SeekToLast d else SeekForPrev (reverse rb) d in
  Ret (match it with
       | None => []
       | Some e => if starts_with pfx e.1 then e.2 else []
       end).

(** ** Iteration over sorted entries *)


(** On a list sorted by [entry_lt] a loop that stops at the first failure of a
    test that earlier entries pass as well is a filter. *)
Definition down_closed (f : Entry → bool) (l : list Entry) : Prop :=
  ∀ e e', e ∈ l → e' ∈ l → entry_lt e e' → f e' = true → f e = true.

Lemma down_closed_tail f e l : down_closed f (e :: l) → down_closed f l.
Proof. intros Hf x y Hx Hy. apply Hf; by right. Qed.
Lemma closed_none f e l : StronglySorted entry_lt (e :: l) → down_closed f (e :: l) → f e = false →
  ∀ x, x ∈ l → f x = false.
Proof.
  intros [_ Hall]%StronglySorted_inv Hf He x Hx. destruct (f x) eqn:Efx; [|done]. rewrite Forall_forall in Hall.
  by rewrite (Hf e x (list_elem_of_here _ _) (list_elem_of_further _ _ _ Hx) (Hall x Hx) Efx) in He.
Qed.
Lemma take_while_filter f l : StronglySorted entry_lt l → down_closed f l → take_while f l = filter (λ e, f e = true) l.
Proof.
  induction l as [|e l IH]; intros Hs Hf; [done|]. cbn [take_while]. rewrite filter_cons.
  destruct (f e) eqn:He; case_decide; try done.
  - f_equal. apply IH; [by apply StronglySorted_inv in Hs as [? _]|by eapply down_closed_tail].
  - symmetry. apply filter_none, Forall_forall. intros x Hx. by rewrite (closed_none f e l Hs Hf He x Hx).
Qed.
Lemma skip_while_filter f l : StronglySorted entry_lt l → down_closed f l → skip_while f l = filter (λ e, f e = false) l.
Proof.
  induction l as [|e l IH]; intros Hs Hf; [done|]. cbn [skip_while]. rewrite filter_cons.
  destruct (f e) eqn:He; case_decide; try done.
  - apply IH; [by apply StronglySorted_inv in Hs as [? _]|by eapply down_closed_tail].
  - f_equal. symmetry. apply filter_all, Forall_forall. by apply (closed_none f e l).
Qed.

Lemma Seek_filter k d : Seek k d = filter (λ e, key_lt e.1 k = false) (entries d).
Proof.
  unfold Seek. apply (skip_while_filter (λ e, key_lt e.1 k)); [apply entries_sorted|].
  intros e e' _ _ Hlt He'. by eapply key_lt_trans.
Qed.
Lemma Seek_sorted k d : StronglySorted entry_lt (Seek k d).
Proof. rewrite Seek_filter. apply filter_sorted, entries_sorted. Qed.
Lemma elem_of_Seek k e d : e ∈ Seek k d ↔ key_lt e.1 k = false ∧ Get e.1 d = Some e.2.
Proof. rewrite Seek_filter, list_elem_of_filter. by rewrite <- entries_Get, <- surjective_pairing. Qed.

Lemma scan_entries pfx d :
  take_while (λ e, starts_with pfx e.1) (Seek pfx d) = filter (λ e, starts_with pfx e.1 = true) (Seek pfx d).
Proof.
  apply (take_while_filter (λ e, starts_with pfx e.1)); [apply Seek_sorted|].
  intros e e' [He _]%elem_of_Seek _ Hlt He'. by eapply prefix_interval.
Qed.

(** Removing a prefix keeps the order. *)
Lemma strip_sorted pfx l : StronglySorted entry_lt l → Forall (λ e, starts_with pfx e.1 = true) l →
  StronglySorted entry_lt (map (λ e, (drop (length pfx) e.1, e.2)) l).
Proof.
  induction 1 as [|e l _ IH Hall]; intros Hp; cbn; [constructor|]. apply Forall_cons in Hp as [He Hl].
  constructor; [by apply IH|].
  apply Forall_forall. intros x (y & -> & Hy)%list_elem_of_fmap. rewrite Forall_forall in Hall, Hl.
  specialize (Hall y Hy). specialize (Hl y Hy). apply starts_with_spec in He as [s Hs], Hl as [t Ht].
  unfold entry_lt in *. cbn. rewrite Hs, Ht, key_lt_app in Hall. by rewrite Hs, Ht, !drop_app_length.
Qed.

Lemma scan_sorted pfx d : StronglySorted entry_lt (scan pfx d).
Proof.
  unfold scan. rewrite scan_entries. apply strip_sorted; [apply filter_sorted, Seek_sorted|].
  apply Forall_forall. by intros e [He _]%list_elem_of_filter.
Qed.
Lemma sorted_keys_nodup (l : list Entry) : StronglySorted entry_lt l → NoDup l.*1.
Proof.
  induction 1 as [|e l Hs IH Hall]; cbn; constructor; [|done]. intros Hin. apply list_elem_of_fmap in Hin as (e' & E & Hin).
  rewrite Forall_forall in Hall. specialize (Hall e' Hin). unfold entry_lt in Hall. by rewrite <- E, key_lt_irrefl in Hall.
Qed.
Lemma elem_of_scan pfx k v d : (k, v) ∈ scan pfx d ↔ Get (pfx ++ k) d = Some v.
Proof.
  unfold scan. rewrite scan_entries, list_elem_of_fmap. split.
  - intros ([k' v'] & [= -> ->] & [Hp [_ Hk]%elem_of_Seek]%list_elem_of_filter). cbn in *.
    apply starts_with_spec in Hp as [s ->]. by rewrite drop_app_length.
  - intros Hg. exists (pfx ++ k, v). cbn. rewrite drop_app_length. split; [done|].
    apply list_elem_of_filter. cbn. split; [apply starts_with_app|]. apply elem_of_Seek. cbn.
    split; [|done]. apply prefix_le, starts_with_app.
Qed.

(** What begins between two keys with a prefix has the prefix. *)
Lemma range_prefix p a b k : key_lt k (p ++ a) = false → key_lt (p ++ b) k = false ∨ starts_with (p ++ b) k = true →
  starts_with p k = true.
Proof.
  intros Hlo Hhi. assert (Hp : key_lt k p = false).
  { destruct (key_lt k p) eqn:E; [|done]. pose proof (prefix_le p (p ++ a) (starts_with_app p a)) as Hpa.
    destruct (key_lt p (p ++ a)) eqn:E2; [by rewrite (key_lt_trans k p (p ++ a)) in Hlo|].
    rewrite <- (key_lt_total p (p ++ a)) in Hlo by done. by rewrite E in Hlo. }
  destruct Hhi as [Hhi|Hhi].
  - destruct (key_lt k (p ++ b)) eqn:E; [by apply (prefix_interval p k (p ++ b)); [|..|apply starts_with_app]|].
    rewrite (key_lt_total k (p ++ b)) by done. apply starts_with_app.
  - apply starts_with_spec in Hhi as [s ->]. rewrite <- (assoc_L (++)). apply starts_with_app.
Qed.

Lemma getKeys_entries pfx start stop d :
  let ok e := negb (key_lt (pfx ++ stop) e.1 && negb (starts_with (pfx ++ stop) e.1)) in
  take_while ok (Seek (pfx ++ start) d) = filter (λ e, ok e = true) (Seek (pfx ++ start) d).
Proof.
  intros ok. apply take_while_filter; [apply Seek_sorted|]. intros e e' _ _ Hlt. unfold ok, entry_lt in *.
  rewrite !negb_true_iff, !andb_false_iff, !negb_false_iff.
  destruct (key_lt (pfx ++ stop) e.1) eqn:He; [|by left]. intros [He'|He'].
  - by rewrite (key_lt_trans _ _ _ He Hlt) in He'.
  - right. by apply (prefix_interval _ e.1 e'.1); [apply key_lt_asym| |].
Qed.

Lemma elem_of_getKeys pfx start stop k d :
  k ∈ getKeys pfx start stop d ↔
    is_Some (Get (pfx ++ k) d) ∧ key_lt k start = false ∧ (key_lt stop k = false ∨ starts_with stop k = true).
Proof.
  assert (Hsw : ∀ s, starts_with (pfx ++ stop) (pfx ++ s) = starts_with stop s).
  { intros s. induction pfx as [|z q IH]; [done|]. cbn. by rewrite Z.eqb_refl. }
  unfold getKeys. cbv zeta. rewrite getKeys_entries, list_elem_of_fmap. split.
  - intros ([k' v] & -> & [Hok [Hlo Hg]%elem_of_Seek]%list_elem_of_filter). cbn in *.
    rewrite negb_true_iff, andb_false_iff, negb_false_iff in Hok.
    destruct (proj1 (starts_with_spec pfx k') (range_prefix pfx start stop k' Hlo Hok)) as [s ->].
    rewrite drop_app_length. rewrite key_lt_app in Hlo, Hok. rewrite Hsw in Hok. by split_and!.
  - intros ([v Hg] & Hlo & Hok). exists (pfx ++ k, v). cbn. rewrite drop_app_length. split; [done|].
    apply list_elem_of_filter. cbn. rewrite negb_true_iff, andb_false_iff, negb_false_iff, key_lt_app, Hsw.
    split; [done|]. apply elem_of_Seek. cbn. by rewrite key_lt_app.
Qed.

(** The last entry of sorted ones is the greatest. *)
Lemma last_greatest l e : StronglySorted entry_lt l → last l = Some e → ∀ x, x ∈ l → x = e ∨ entry_lt x e.
Proof.
  intros Hs (l' & ->)%last_Some x Hx. apply elem_of_app in Hx as [Hx|Hx%list_elem_of_singleton]; [right|by left].
  clear -Hs Hx. induction l' as [|y l' IH]; [by apply not_elem_of_nil in Hx|]. cbn in Hs.
  apply StronglySorted_inv in Hs as [Hs Hall]. apply elem_of_cons in Hx as [->|Hx]; [|by apply IH].
  rewrite Forall_forall in Hall. apply Hall. set_solver.
Qed.

Lemma bump_last p b : 0 <= b < 255 → bump (reverse (p ++ [b])) = (reverse (p ++ [b + 1]), false).
Proof.
  intros Hb. rewrite !reverse_snoc. cbn [bump]. unfold wrap. rewrite Z.mod_small by (cbn; lia).
  destruct (Z.eqb_spec (b + 1) 0); [lia|done].
Qed.
Lemma below_next p b k : key_lt k (p ++ [b]) = false → key_lt (p ++ [b + 1]) k = false → k ≠ p ++ [b + 1] →
  starts_with (p ++ [b]) k = true.
Proof.
  revert k. induction p as [|x p IH]; intros [|y k]; cbn; try done.
  - rewrite !orb_false_iff, !andb_false_iff. intros [H1 H2] [H3 H4] Hne. apply Z.ltb_ge in H1, H3.
    destruct (Z.eqb_spec b y); [done|]. assert (y = b + 1) as -> by lia.
    rewrite Z.eqb_refl in H4. destruct H4 as [|H4]; [done|]. destruct k; [done|done].
  - rewrite !orb_false_iff, !andb_false_iff. intros [H1 H2] [H3 H4] Hne. apply Z.ltb_ge in H1, H3.
    assert (y = x) as -> by lia. rewrite Z.eqb_refl in *. cbn. apply IH; [by destruct H2|by destruct H4|]. intros ->. by apply Hne.
Qed.

(** The value of the last entry of the prefix. *)
Lemma last_by_prefix p b d : 0 <= b < 255 → Get (p ++ [b + 1]) d = None →
  getLastByPrefix (p ++ [b]) d = Ret (match last (scan (p ++ [b]) d) with Some e => e.2 | None => [] end).
Proof.
  intros Hb Hnext. unfold getLastByPrefix. rewrite decide_False by (by destruct p).
  rewrite bump_last, reverse_involutive by done. f_equal. unfold SeekForPrev.
  set (pfx := p ++ [b]). set (next := p ++ [b + 1]) in *.
  rewrite (take_while_filter (λ e, negb (key_lt next e.1))); [|apply entries_sorted|].
  2:{ intros e e' _ _ Hlt He'. apply negb_true_iff in He'. apply negb_true_iff.
      destruct (key_lt next e.1) eqn:E; [|done]. by rewrite (key_lt_trans _ _ _ E Hlt) in He'. }
  set (L := filter _ (entries d)).
  assert (HL : ∀ e, e ∈ L → Get e.1 d = Some e.2 ∧ key_lt next e.1 = false ∧ e.1 ≠ next).
  { intros [k v] [Hk Hkv]%list_elem_of_filter. apply entries_Get in Hkv. cbn in *. apply negb_true_iff in Hk.
    split_and!; [done|done|]. intros ->. by rewrite Hnext in Hkv. }
  assert (Hin : ∀ e, e ∈ L → starts_with pfx e.1 = true → ∃ s, e.1 = pfx ++ s ∧ (s, e.2) ∈ scan pfx d).
  { intros e He [s Hs]%starts_with_spec. exists s. split; [done|]. apply elem_of_scan. rewrite <- Hs. by apply HL. }
  assert (Hout : ∀ s v, (s, v) ∈ scan pfx d → (pfx ++ s, v) ∈ L).
  { intros s v Hsv%elem_of_scan. apply list_elem_of_filter. split; [|by apply entries_Get]. apply negb_true_iff. cbn.
    unfold next, pfx. rewrite <- (assoc_L (++)), key_lt_app. cbn. rewrite orb_false_iff, andb_false_iff.
    split; [apply Z.ltb_ge; lia|left; apply Z.eqb_neq; lia]. }
  destruct (last (scan pfx d)) as [[s v]|] eqn:Hlast.
  - assert (Hs : (s, v) ∈ scan pfx d) by (apply last_Some in Hlast as [l' ->]; set_solver).
    destruct (last L) as [e|] eqn:HlastL; [|apply last_None in HlastL; apply Hout in Hs; rewrite HlastL in Hs; by apply not_elem_of_nil in Hs].
    assert (HeL : e ∈ L) by (apply last_Some in HlastL as [l' El]; rewrite El; set_solver).
    assert (Hsorted : StronglySorted entry_lt L) by apply filter_sorted, entries_sorted.
    destruct (last_greatest L e Hsorted HlastL _ (Hout s v Hs)) as [<-|Hlt]; cbn; [by rewrite starts_with_app|].
    exfalso. destruct (HL e HeL) as (He & Hle & Hne). unfold entry_lt in Hlt. cbn in Hlt.
    assert (Hpe : starts_with pfx e.1 = true).
    { apply below_next; [|done|done]. apply key_lt_asym. destruct (key_lt pfx (pfx ++ s)) eqn:E; [by eapply key_lt_trans|].
      rewrite <- (key_lt_total pfx (pfx ++ s)) in Hlt; [done|done|]. apply prefix_le, starts_with_app. }
    destruct (Hin e HeL Hpe) as (t & Et & Ht). rewrite Et, key_lt_app in Hlt.
    destruct (last_greatest _ _ (scan_sorted pfx d) Hlast _ Ht) as [[= -> _]|Hts]; [by rewrite key_lt_irrefl in Hlt|].
    unfold entry_lt in Hts. cbn in Hts. by rewrite (key_lt_asym _ _ Hlt) in Hts.
  - apply last_None in Hlast. destruct (last L) as [e|] eqn:HlastL; [|done].
    destruct (starts_with pfx e.1) eqn:Hpe; [|done].
    destruct (Hin e) as (t & _ & Ht); [apply last_Some in HlastL as [l' El]; rewrite El; set_solver|done|].
    rewrite Hlast in Ht. by apply not_elem_of_nil in Ht.
Qed.

Lemma Seek_head k d e l : Seek k d = e :: l → ∀ x, x ∈ Seek k d → x = e ∨ entry_lt e x.
Proof.
  intros E x Hx. pose proof (Seek_sorted k d) as Hs. rewrite E in Hx, Hs. apply StronglySorted_inv in Hs as [_ Hall].
  apply elem_of_cons in Hx as [->|Hx]; [by left|right]. rewrite Forall_forall in Hall. by apply Hall.
Qed.
Lemma db_has_spec key pfx d : db_has key pfx d = true ↔ is_Some (Get (pfx ++ key) d).
Proof.
  unfold db_has. set (k := pfx ++ key). destruct (Seek k d) as [|e l] eqn:E.
  - split; [done|]. intros [v Hv]. assert (Hin : (k, v) ∈ Seek k d) by (apply elem_of_Seek; cbn; by rewrite key_lt_irrefl).
    rewrite E in Hin. by apply not_elem_of_nil in Hin.
  - assert (He : e ∈ Seek k d) by (rewrite E; left). apply elem_of_Seek in He as [Hge He].
    rewrite bool_decide_eq_true. split; [intros <-; by exists e.2|]. intros [v Hv].
    destruct (Seek_head k d e l E (k, v)) as [<-|Hlt]; [apply elem_of_Seek; cbn; by rewrite key_lt_irrefl|done|].
    unfold entry_lt in Hlt. cbn in Hlt. by rewrite Hlt in Hge.
Qed.
Lemma hasPrefix_spec pfx d : hasPrefix pfx d = true ↔ ∃ k, is_Some (Get (pfx ++ k) d).
Proof.
  unfold hasPrefix. destruct (Seek pfx d) as [|e l] eqn:E.
  - split; [done|]. intros (k & v & Hv). assert (Hin : (pfx ++ k, v) ∈ Seek pfx d).
    { apply elem_of_Seek. cbn. split; [apply prefix_le, starts_with_app|done]. }
    rewrite E in Hin. by apply not_elem_of_nil in Hin.
  - assert (He : e ∈ Seek pfx d) by (rewrite E; left). apply elem_of_Seek in He as [Hge He]. split.
    + intros [s Hs]%starts_with_spec. exists s. rewrite <- Hs. by exists e.2.
    + intros (k & v & Hv). destruct (Seek_head pfx d e l E (pfx ++ k, v)) as [<-|Hlt];
        [apply elem_of_Seek; cbn; split; [apply prefix_le, starts_with_app|done]|apply starts_with_app|].
      by eapply prefix_interval; [|exact Hlt|apply starts_with_app].
Qed.

(** The value a list of entries gives a key: the last one. *)
Definition assoc_last (k : list Z) (l : list Entry) : option (list Z) :=
  fold_left (λ acc e, if decide (e.1 = k) then Some e.2 else acc) l None.
Lemma assoc_last_app k l l' : assoc_last k (l ++ l') =
  match assoc_last k l' with Some v => Some v | None => assoc_last k l end.
Proof.
  unfold assoc_last. rewrite fold_left_app. generalize (fold_left (λ acc (e : Entry), if decide (e.1 = k) then Some e.2 else acc) l None).
  intros o. induction l' as [|e l' IH] using rev_ind; [done|]. rewrite !fold_left_app. cbn. case_decide; [done|]. apply IH.
Qed.
Lemma assoc_last_elem k v l : assoc_last k l = Some v → (k, v) ∈ l.
Proof.
  induction l as [|[k' v'] l IH] using rev_ind; [done|]. rewrite assoc_last_app. cbn. rewrite elem_of_app, list_elem_of_singleton.
  case_decide; [intros [= ->]; right; by subst|]. intros Hl. left. by apply IH.
Qed.
Lemma assoc_last_unique k v l : (k, v) ∈ l → (∀ v', (k, v') ∈ l → v' = v) → assoc_last k l = Some v.
Proof.
  intros Hin Hu. destruct (assoc_last k l) as [v'|] eqn:E; [by rewrite (Hu v' (assoc_last_elem _ _ _ E))|]. exfalso.
  clear Hu. induction l as [|[k' v'] l IH] using rev_ind; [by apply not_elem_of_nil in Hin|]. rewrite assoc_last_app in E. cbn in E.
  apply elem_of_app in Hin as [Hin|Hin%list_elem_of_singleton]; [|simplify_eq; by rewrite decide_True in E].
  case_decide; [done|]. by apply IH.
Qed.

Lemma Get_puts l k d : Get k (fold_left (λ d e, Put e.1 e.2 d) l d) =
  match assoc_last k l with Some v => Some v | None => Get k d end.
Proof.
  induction l as [|e l IH] using rev_ind; [done|]. rewrite fold_left_app, assoc_last_app. cbn.
  rewrite Get_Put, IH. repeat case_decide; subst; done.
Qed.
Lemma Get_dels l k d : Get k (fold_left (λ d k, Delete k d) l d) = if decide (k ∈ l) then None else Get k d.
Proof.
  revert d. induction l as [|x l IH]; intros d; [done|]. cbn. rewrite IH, Get_Delete.
  repeat case_decide; subst; set_solver.
Qed.
(** A batch: its puts, then its deletions, then what was there. *)
Lemma Get_putBatch b k d : Get k (putBatch b d) =
  match assoc_last k (puts_ b) with Some v => Some v | None => if decide (k ∈ dels_ b) then None else Get k d end.
Proof. unfold putBatch. by rewrite Get_puts, Get_dels. Qed.

(** The queries of the database are exact.  A key or prefix is found when it is
    there; [getBatch] gives the entries of a prefix, each once, without it and in
    the order of the keys; [getKeys] the keys of a range, bounds included and with
    every key that begins with the upper bound; [getLastByPrefix] the value of the
    greatest key of a prefix, unless another key is exactly the following prefix;
    after a batch a key has its last value of the batch, or none when it was
    deleted, or the old one. *)
Theorem db_queries_correct (d : rocks) (pfx : list Z) (p : list Z) (b : Z) (batch : DBBatch) :
  0 <= b < 255 → Get (p ++ [b + 1]) d = None →
  (∀ key, db_has key pfx d = true ↔ is_Some (Get (pfx ++ key) d)) ∧
  (hasPrefix pfx d = true ↔ ∃ k, is_Some (Get (pfx ++ k) d)) ∧
  (∀ k v, (k, v) ∈ getBatch pfx [] d ↔ Get (pfx ++ k) d = Some v) ∧
  StronglySorted entry_lt (getBatch pfx [] d) ∧
  (∀ start stop k, k ∈ getKeys pfx start stop d ↔
     is_Some (Get (pfx ++ k) d) ∧ key_lt k start = false ∧ (key_lt stop k = false ∨ starts_with stop k = true)) ∧
  getLastByPrefix (p ++ [b]) d =
    Ret (match last (getBatch (p ++ [b]) [] d) with Some e => e.2 | None => [] end) ∧
  (∀ k, Get k (putBatch batch d) =
     match assoc_last k (puts_ batch) with
     | Some v => Some v
     | None => if decide (k ∈ dels_ batch) then None else Get k d
     end).
Proof.
  intros Hb Hn. split_and!.
  - intros key. apply db_has_spec.
  - apply hasPrefix_spec.
  - intros k v. apply elem_of_scan.
  - apply scan_sorted.
  - intros start stop k. apply elem_of_getKeys.
  - by apply last_by_prefix.
  - intros k. apply Get_putBatch.
Qed.
End db.

(** ** A storage engine: the list of entries in order *)

Fixpoint sl_put (k v : list Z) (l : list Entry) : list Entry :=
  match l with
  | [] => [(k, v)]
  | (k', v') :: l' =>
      if key_lt k k' then (k, v) :: l
      else if key_lt k' k then (k', v') :: sl_put k v l'
      else (k, v) :: l'
  end.
Definition sl_delete (k : list Z) (l : list Entry) : list Entry := filter (λ e, e.1 ≠ k) l.
Definition sl_get (k : list Z) (l : list Entry) : option (list Z) :=
  head (map snd (filter (λ e : Entry, e.1 = k) l)).

Record SortedStore := mkStore { sl : list Entry; sl_sorted : StronglySorted entry_lt sl }.

Lemma sl_put_elem k v l k' v' : StronglySorted entry_lt l →
  (k', v') ∈ sl_put k v l ↔ (if decide (k' = k) then v' = v else (k', v') ∈ l).
Proof.
  induction 1 as [|[a w] l Hs IH Hall]; cbn [sl_put].
  - rewrite list_elem_of_singleton. case_decide as Hk; [|split; [by intros [=]|by intros ?%not_elem_of_nil]].
    subst. split; [by intros [= ->]|by intros ->].
  - rewrite Forall_forall in Hall. destruct (key_lt k a) eqn:Hka; [|destruct (key_lt a k) eqn:Hak].
    + rewrite elem_of_cons. case_decide as Hk; [subst|split; [intros [?|?]; [by simplify_eq|done]|by right]].
      split; [|intros ->; by left]. intros [[= ->]|Hin]; [done|]. exfalso.
      apply elem_of_cons in Hin as [[= -> ->]|Hin]; [by rewrite key_lt_irrefl in Hka|].
      specialize (Hall _ Hin). unfold entry_lt in Hall. cbn in Hall. by rewrite (key_lt_asym _ _ Hall) in Hka.
    + rewrite elem_of_cons, IH. case_decide as Hk; [|by rewrite elem_of_cons]. subst.
      split; [|by right]. intros [[= -> ->]|?]; [by rewrite key_lt_irrefl in Hak|done].
    + pose proof (key_lt_total k a Hka Hak) as ->. rewrite !elem_of_cons. case_decide as Hk.
      * subst. split; [|intros ->; by left]. intros [[= ->]|Hin]; [done|]. exfalso. specialize (Hall _ Hin).
        unfold entry_lt in Hall. cbn in Hall. by rewrite key_lt_irrefl in Hall.
      * rewrite elem_of_cons. split; (intros [?|?]; [by simplify_eq|by right]).
Qed.
Lemma sl_put_sorted k v l : StronglySorted entry_lt l → StronglySorted entry_lt (sl_put k v l).
Proof.
  induction 1 as [|[a w] l Hs IH Hall]; cbn [sl_put]; [repeat constructor|].
  destruct (key_lt k a) eqn:Hka; [|destruct (key_lt a k) eqn:Hak].
  - constructor; [by constructor|]. constructor; [done|]. eapply Forall_impl; [exact Hall|]. intros x Hx.
    unfold entry_lt in *. cbn in *. by eapply key_lt_trans.
  - constructor; [done|]. apply Forall_forall. intros [k' v'] Hx. apply sl_put_elem in Hx; [|done].
    rewrite Forall_forall in Hall. case_decide; [by subst|by apply (Hall (k', v'))].
  - pose proof (key_lt_total k a Hka Hak) as ->. by constructor.
Qed.
Lemma sl_get_elem k v l : StronglySorted entry_lt l → (k, v) ∈ l ↔ sl_get k l = Some v.
Proof.
  unfold sl_get. induction 1 as [|[a w] l Hs IH Hall]; [cbn; split; [by intros ?%not_elem_of_nil|done]|].
  rewrite elem_of_cons, filter_cons. case_decide as Ha; cbn in Ha |- *.
  - subst a. split; [|intros [= ->]; by left]. intros [[= ->]|Hin]; [done|]. rewrite Forall_forall in Hall.
    specialize (Hall _ Hin). unfold entry_lt in Hall. cbn in Hall. by rewrite key_lt_irrefl in Hall.
  - rewrite <- IH. split; [intros [[= -> ->]|?]; done|by right].
Qed.

Definition store_put (k v : list Z) (d : SortedStore) : SortedStore := mkStore _ (sl_put_sorted k v _ (sl_sorted d)).
Definition store_delete (k : list Z) (d : SortedStore) : SortedStore :=
  mkStore (sl_delete k (sl d)) (filter_sorted _ _ _ (sl_sorted d)).

Lemma store_Get_Put k v k' d : sl_get k' (sl (store_put k v d)) = if decide (k' = k) then Some v else sl_get k' (sl d).
Proof.
  apply option_eq. intros v'. rewrite <- sl_get_elem by apply sl_sorted. cbn. rewrite sl_put_elem by apply sl_sorted.
  case_decide; [split; congruence|]. apply sl_get_elem, sl_sorted.
Qed.
Lemma store_Get_Delete k k' d : sl_get k' (sl (store_delete k d)) = if decide (k' = k) then None else sl_get k' (sl d).
Proof.
  apply option_eq. intros v'. rewrite <- sl_get_elem by apply sl_sorted. cbn. unfold sl_delete.
  rewrite list_elem_of_filter. cbn. case_decide; [split; [by intros []|done]|].
  rewrite <- sl_get_elem by apply sl_sorted. split; [by intros []|done].
Qed.
#[export] Instance sorted_store : RocksDB := {|
  rocks := SortedStore; entries := sl; Get k d := sl_get k (sl d); Put := store_put; Delete := store_delete;
  entries_sorted := sl_sorted; entries_Get k v d := sl_get_elem k v (sl d) (sl_sorted d);
  Get_Put := store_Get_Put; Get_Delete := store_Get_Delete |}.

Definition empty_store : SortedStore := mkStore [] (SSorted_nil _).
Definition demo_db : rocks :=
  putBatch (push_back [1] [10] [0; 2] (push_back [3; 1] [31] [0; 2] (push_back [3] [30] [0; 2]
    (push_back [2] [20] [0; 1] batch_nil)))) empty_store.

Lemma db_queries_correct_witness :
  getLastByPrefix [0; 2] demo_db = Ret [31] ∧ getKeys [0; 2] [2] [3] demo_db = [[3]; [3; 1]].
Proof.
  destruct (db_queries_correct demo_db [0; 2] [0] 2 batch_nil ltac:(lia) ltac:(by vm_compute))
    as (_ & _ & _ & _ & _ & Hl & _).
  split; [|by vm_compute]. etrans; [exact Hl|]. by vm_compute.
Defined.

(** A key that is exactly the following prefix hides the entries of the prefix. *)
Example last_by_prefix_hidden :
  getLastByPrefix [0; 2] (db_put [] [7] [0; 3] demo_db) = Ret [] ∧
  getBatch [0; 2] [] (db_put [] [7] [0; 3] demo_db) = [([1], [10]); ([3], [30]); ([3; 1], [31])].
Proof. by vm_compute. Qed.
