(* ===== verification/Storage.v ===== *)
(** * The block storage

    Models src/core/storage.cpp over [DB]: storing blocks with their indexes by
    height and by transaction, the lookups, and opening the storage (with the
    genesis block of the options, which also tell whether transactions are
    indexed).  The migration of the old event database, call traces and the
    additional data of transactions (serialised by zpp) are not modelled.  The
    number of hardware threads is that of [fromBytes]. *)

From stdpp Require Import sorting.
From S2P Require Import Prelude CheckedInt ExecutionContext Bytes Conv Tx FinalizedBlock DB.

(** [Hash(const bytes::Range auto&)] *)
Definition Hash_make (b : list Z) : outcome Hash :=
  if decide (length b = 32%nat) then Ret (be_value b)
  else Throw (invalid_argument "Given bytes range is not suitable for initializing a FixedBytes").
Definition hash_bytes (h : Hash) : list Z := be_bytes 32 h.

Section storage.
Context {BI : BoostInt} {EC : Secp256k1} {R : RocksDB}.
Variable thr : nat.
(** [options_.getGenesisBlock()], [getIndexingMode() != IndexingMode::DISABLED] *)
Variable genesis : FinalizedBlock.
Variable indexing : bool.

Record Storage := mkStorage { latest_ : FinalizedBlock; blocksDb_ : rocks }.

(** The index entry of a transaction: block hash, position and height. *)
Definition tx_location (b : FinalizedBlock) (i : nat) : list Z :=
  hash_bytes (hash_ b) ++ uint32ToBytes (Z.of_nat i) ++ uint64ToBytes (nHeight_ b).
Fixpoint index_from (b : FinalizedBlock) (i : nat) (txs : list TxBlock) (batch : DBBatch) : DBBatch :=
  match txs with
  | [] => batch
  | tx :: txs => index_from b (S i) txs (push_back (hash_bytes (tx_hash tx)) (tx_location b i) pfx_txToBlock batch)
  end.
Definition reindexTransactions (b : FinalizedBlock) (batch : DBBatch) : DBBatch := index_from b 0 (txs_ b) batch.

Definition storeBlock (d : rocks) (b : FinalizedBlock) : rocks :=
  let batch := push_back (hash_bytes (hash_ b)) (serializeBlock b) pfx_blocks batch_nil in
  let batch := push_back (uint64ToBytes (nHeight_ b)) (hash_bytes (hash_ b)) pfx_heightToBlock batch in
  putBatch (if indexing then reindexTransactions b batch else batch) d.

(** [operator==] of blocks *)
Definition block_eq (a b : FinalizedBlock) : bool :=
  (hash_ a =? hash_ b) && bool_decide (validatorSig_ a = validatorSig_ b).

Definition initializeBlockchain (d : rocks) : outcome rocks :=
  latestBlockHash ← getLastByPrefix pfx_heightToBlock d ;
  d ← (if decide (latestBlockHash = []) then
         if negb (nHeight_ genesis =? 0) then Throw (DynamicException "Genesis block height is not 0")
         else Ret (storeBlock d genesis)
       else Ret d) ;
  genesisInDBHash ← Hash_make (db_get (uint64ToBytes 0) pfx_heightToBlock d) ;
  genesisInDB ← fromBytes thr (db_get (hash_bytes genesisInDBHash) pfx_blocks d) ;
  if negb (block_eq genesis genesisInDB)
  then Throw (DynamicException "Sanity Check! Genesis block in DB does not match genesis block in Options")
  else Ret d.

(** The constructor, on the database it opens. *)
Definition Storage_new (d : rocks) : outcome Storage :=
  d ← initializeBlockchain d ;
  latestBlockHash ← getLastByPrefix pfx_heightToBlock d ;
  if decide (latestBlockHash = []) then Throw (DynamicException "Latest block hash not found in DB") else
  let latestBlockBytes := db_get latestBlockHash pfx_blocks d in
  if decide (latestBlockBytes = []) then Throw (DynamicException "Latest block bytes not found in DB") else
  b ← fromBytes thr latestBlockBytes ;
  Ret (mkStorage b d).

Definition pushBlock (b : FinalizedBlock) (s : Storage) : outcome Storage :=
  if negb (hash_ (latest_ s) =? prevBlockHash_ b)
  then Throw (DynamicException "previous hash of new block does not match the latest block hash")
  else Ret (mkStorage b (storeBlock (blocksDb_ s) b)).

Definition blockExists (h : Hash) (s : Storage) : bool := db_has (hash_bytes h) pfx_blocks (blocksDb_ s).
Definition blockExists_height (height : Z) (s : Storage) : bool :=
  db_has (uint64ToBytes height) pfx_heightToBlock (blocksDb_ s).
Definition txExists (tx : Hash) (s : Storage) : bool := db_has (hash_bytes tx) pfx_txToBlock (blocksDb_ s).

Definition getBlock (h : Hash) (s : Storage) : outcome (option FinalizedBlock) :=
  let blockBytes := db_get (hash_bytes h) pfx_blocks (blocksDb_ s) in
  if decide (blockBytes = []) then Ret None else b ← fromBytes thr blockBytes ; Ret (Some b).
Definition getBlock_height (height : Z) (s : Storage) : outcome (option FinalizedBlock) :=
  let blockHash := db_get (uint64ToBytes height) pfx_heightToBlock (blocksDb_ s) in
  if decide (blockHash = []) then Ret None
  else b ← fromBytes thr (db_get blockHash pfx_blocks (blocksDb_ s)) ; Ret (Some b).

(** [index += txSize + 4] is computed in 32 bits. *)
Fixpoint skip_to (n : nat) (bytes : list Z) (index : Z) : outcome Z :=
  match n with
  | O => Ret index
  | S n => txSize ← read_size bytes index ; skip_to n bytes (index + wrap 32 (txSize + 4))
  end.
Definition getTxFromBlockWithIndex (blockData : list Z) (txIndex : nat) : outcome TxBlock :=
  index ← skip_to txIndex blockData 217 ;
  txSize ← read_size blockData index ;
  l ← sub blockData (index + 4) txSize ;
  TxBlock_fromBytes l.

(** A transaction with the hash of its block, its position and its height. *)
Definition Found : Type := option TxBlock * Hash * Z * Z.
Definition not_found : Found := (None, 0, 0, 0).

Definition getTx (tx : Hash) (s : Storage) : outcome Found :=
  let txData := db_get (hash_bytes tx) pfx_txToBlock (blocksDb_ s) in
  if decide (txData = []) then Ret not_found else
  h ← sub txData 0 32 ; blockHash ← Hash_make h ;
  i ← sub txData 32 4 ; blockIndex ← bytesToUint32 i ;
  n ← sub txData 36 8 ; blockHeight ← bytesToUint64 n ;
  t ← getTxFromBlockWithIndex (db_get (hash_bytes blockHash) pfx_blocks (blocksDb_ s)) (Z.to_nat blockIndex) ;
  Ret (Some t, blockHash, blockIndex, blockHeight).

(** The test for an absent block has no [return]. *)
Definition getTxByBlockHashAndIndex (blockHash : Hash) (blockIndex : Z) (s : Storage) : outcome Found :=
  let blockData := db_get (hash_bytes blockHash) pfx_blocks (blocksDb_ s) in
  n ← sub blockData 201 8 ; blockHeight ← bytesToUint64 n ;
  t ← getTxFromBlockWithIndex blockData (Z.to_nat blockIndex) ;
  Ret (Some t, blockHash, blockIndex, blockHeight).

Definition getTxByBlockNumberAndIndex (blockHeight blockIndex : Z) (s : Storage) : outcome Found :=
  let blockHash := db_get (uint64ToBytes blockHeight) pfx_heightToBlock (blocksDb_ s) in
  if decide (blockHash = []) then Ret not_found else
  let blockData := db_get blockHash pfx_blocks (blocksDb_ s) in
  if decide (blockData = []) then Ret not_found else
  t ← getTxFromBlockWithIndex blockData (Z.to_nat blockIndex) ;
  h ← Hash_make blockHash ;
  Ret (Some t, h, blockIndex, blockHeight).

Definition currentChainSize (s : Storage) : Z := wrap 64 (nHeight_ (latest_ s) + 1).

(** Blocks pushed one after the other. *)
Fixpoint pushBlocks (bs : list FinalizedBlock) (s : Storage) : outcome Storage :=
  match bs with
  | [] => Ret s
  | b :: bs => s ← pushBlock b s ; pushBlocks bs s
  end.

(** ** What the database holds *)

#[local] Arguments hash_bytes : simpl never.
#[local] Arguments uint64ToBytes : simpl never.
#[local] Arguments tx_location : simpl never.

(** The entries a block leaves. *)
Definition tx_entries (b : FinalizedBlock) (i : nat) (txs : list TxBlock) : list Entry :=
  imap (λ j tx, (pfx_txToBlock ++ hash_bytes (tx_hash tx), tx_location b (i + j))) txs.
Definition block_entries (b : FinalizedBlock) : list Entry :=
  [(pfx_blocks ++ hash_bytes (hash_ b), serializeBlock b);
   (pfx_heightToBlock ++ uint64ToBytes (nHeight_ b), hash_bytes (hash_ b))] ++
  if indexing then tx_entries b 0 (txs_ b) else [].
Definition chain_entries (bs : list FinalizedBlock) : list Entry := concat (map block_entries bs).
Definition holds (bs : list FinalizedBlock) (d : rocks) : Prop := ∀ k, Get k d = assoc_last k (chain_entries bs).

Lemma index_from_puts b i txs batch :
  index_from b i txs batch = mkBatch (puts_ batch ++ tx_entries b i txs) (dels_ batch).
Proof.
  revert i batch. induction txs as [|tx txs IH]; intros i batch; cbn [index_from].
  - unfold tx_entries. cbn. rewrite app_nil_r. by destruct batch.
  - rewrite IH. cbn. f_equal. unfold tx_entries. cbn. rewrite <- (assoc_L (++)), Nat.add_0_r. cbn. do 2 f_equal.
    apply imap_ext. intros j tx' _. cbn. do 2 f_equal. lia.
Qed.
Lemma storeBlock_holds bs b d : holds bs d → holds (bs ++ [b]) (storeBlock d b).
Proof.
  intros Hd k. unfold chain_entries. rewrite map_app, concat_app, assoc_last_app. cbn [map concat]. rewrite app_nil_r.
  unfold storeBlock, reindexTransactions. cbv zeta. rewrite Get_putBatch, Hd.
  assert (E : puts_ (if indexing then index_from b 0 (txs_ b) (push_back (uint64ToBytes (nHeight_ b)) (hash_bytes (hash_ b))
      pfx_heightToBlock (push_back (hash_bytes (hash_ b)) (serializeBlock b) pfx_blocks batch_nil))
    else push_back (uint64ToBytes (nHeight_ b)) (hash_bytes (hash_ b)) pfx_heightToBlock
      (push_back (hash_bytes (hash_ b)) (serializeBlock b) pfx_blocks batch_nil)) = block_entries b).
  { unfold block_entries. destruct indexing; [by rewrite index_from_puts|done]. }
  rewrite E. destruct (assoc_last k (block_entries b)); [done|].
  rewrite decide_False; [done|]. destruct indexing; rewrite ?index_from_puts; cbn; apply not_elem_of_nil.
Qed.

(** The three families of keys. *)
Lemma elem_of_chain k v bs : (k, v) ∈ chain_entries bs ↔
  ∃ i b, bs !! i = Some b ∧
    ((k = pfx_blocks ++ hash_bytes (hash_ b) ∧ v = serializeBlock b) ∨
     (k = pfx_heightToBlock ++ uint64ToBytes (nHeight_ b) ∧ v = hash_bytes (hash_ b)) ∨
     (indexing = true ∧ ∃ j tx, txs_ b !! j = Some tx ∧ k = pfx_txToBlock ++ hash_bytes (tx_hash tx) ∧ v = tx_location b j)).
Proof.
  assert (Htx : ∀ b, (k, v) ∈ tx_entries b 0 (txs_ b) ↔
    ∃ j tx, txs_ b !! j = Some tx ∧ k = pfx_txToBlock ++ hash_bytes (tx_hash tx) ∧ v = tx_location b j).
  { intros b. unfold tx_entries. rewrite elem_of_lookup_imap. split.
    - intros (j & tx & [= -> ->] & Hj). by exists j, tx.
    - intros (j & tx & Hj & -> & ->). by exists j, tx. }
  unfold chain_entries. rewrite list_elem_of_In, in_concat. setoid_rewrite <- list_elem_of_In. split.
  - intros (l & (b & -> & Hb)%list_elem_of_fmap & Hkv). apply list_elem_of_lookup in Hb as [i Hi]. exists i, b. split; [done|].
    unfold block_entries in Hkv. apply elem_of_app in Hkv as [Hkv|Hkv].
    + rewrite !elem_of_cons in Hkv. destruct Hkv as [[= -> ->]|[[= -> ->]|Hkv%not_elem_of_nil]]; [by left|by right; left|done].
    + right. right. destruct indexing; [|by apply not_elem_of_nil in Hkv]. split; [done|]. by apply Htx.
  - intros (i & b & Hi & Hkv). exists (block_entries b). split; [|unfold block_entries].
    + apply list_elem_of_fmap. exists b. split; [done|]. by eapply list_elem_of_lookup_2.
    + apply elem_of_app. rewrite !elem_of_cons.
      destruct Hkv as [[-> ->]|[[-> ->]|[-> Hkv]]]; [by left; left|by left; right; left|right]. by apply Htx.
Qed.

(** ** A chain of blocks *)

(** Blocks as nodes make them, one per height, whose hashes and transaction hashes
    do not repeat. *)
Record chain_ok (bs : list FinalizedBlock) : Prop := mkChainOk {
  chain_created : ∀ i b, bs !! i = Some b → created b ∧ nHeight_ b = Z.of_nat i;
  chain_hashes : ∀ i j a b, bs !! i = Some a → bs !! j = Some b → hash_bytes (hash_ a) = hash_bytes (hash_ b) → i = j;
  chain_txs : ∀ i j a b k l t u, bs !! i = Some a → bs !! j = Some b → txs_ a !! k = Some t → txs_ b !! l = Some u →
    hash_bytes (tx_hash t) = hash_bytes (tx_hash u) → i = j ∧ k = l;
  chain_small : ∀ i b, bs !! i = Some b → Z.of_nat (length (serializeBlock b)) < 2 ^ 32;
}.

Lemma created_ranges b : created b → in_range 256 (hash_ b) ∧ in_range 64 (nHeight_ b).
Proof. intros (? & ? & ? & ? & ? & ? & -> & ? & ? & ? & _). split; [apply keccak256_range|done]. Qed.
Lemma created_height_bytes b : created b → uint64ToBytes (nHeight_ b) = be_bytes 8 (nHeight_ b).
Proof. intros [_ Hh]%created_ranges. by apply u64_bytes. Qed.
Lemma hash_roundtrip b : created b → Hash_make (hash_bytes (hash_ b)) = Ret (hash_ b).
Proof.
  intros [Hh _]%created_ranges. unfold Hash_make, hash_bytes. rewrite decide_True by (by rewrite be_bytes_length).
  by rewrite be_value_bytes.
Qed.

(** *** Transactions inside a block *)

Lemma frames_app ls ks : frames (ls ++ ks) = frames ls ++ frames ks.
Proof. unfold frames. by rewrite fmap_app, concat_app. Qed.

Lemma skip_to_frames j ls pre post : (j <= length ls)%nat → Forall (λ l, Z.of_nat (length l) + 4 < 2 ^ 32) ls →
  skip_to j (pre ++ frames ls ++ post) (Z.of_nat (length pre)) = Ret (Z.of_nat (length (pre ++ frames (take j ls)))).
Proof.
  revert ls pre. induction j as [|j IH]; intros [|l ls] pre Hj Hls; cbn in Hj; try lia; cbn [skip_to];
    [by rewrite app_nil_r|cbn; by rewrite app_nil_r|].
  apply Forall_cons in Hls as [Hl Hls]. rewrite frames_cons, <- (assoc_L (++)), read_size_frame by (unfold FinalizedBlock.small; lia).
  cbn [mbind outcome_bind]. unfold wrap. rewrite Z.mod_small by lia.
  replace (Z.of_nat (length pre) + (Z.of_nat (length l) + 4)) with (Z.of_nat (length (pre ++ frame l)))
    by (rewrite length_app, Nat2Z.inj_add, frame_length; lia).
  rewrite (assoc_L (++) pre). rewrite IH by (done || lia). cbn [take]. by rewrite frames_cons, (assoc_L (++) pre).
Qed.

Lemma tx_in_frames pre post (txs : list TxBlock) j tx : txs !! j = Some tx → length pre = 217%nat →
  txs_readable txs → Forall (λ l, Z.of_nat (length l) + 4 < 2 ^ 32) (TxBlock_rlpSerialize true <$> txs) →
  getTxFromBlockWithIndex (pre ++ frames (TxBlock_rlpSerialize true <$> txs) ++ post) j = Ret tx.
Proof.
  intros Hj Hpre Htxs Hls. set (ls := TxBlock_rlpSerialize true <$> txs) in *. set (l := TxBlock_rlpSerialize true tx).
  unfold getTxFromBlockWithIndex. replace 217 with (Z.of_nat (length pre)) by lia.
  assert (Hl : ls !! j = Some l) by (unfold ls; by rewrite list_lookup_fmap, Hj).
  assert (Hlt : (j < length ls)%nat) by (by eapply lookup_lt_Some).
  rewrite skip_to_frames by (done || lia). cbn [mbind outcome_bind].
  assert (Hsplit : pre ++ frames ls ++ post =
    (pre ++ frames (take j ls)) ++ frame l ++ (frames (drop (S j) ls) ++ post)).
  { rewrite <- (take_drop_middle ls j l Hl) at 1. rewrite frames_app, frames_cons. by rewrite <- !(assoc_L (++)). }
  assert (Hread : txs_readable [tx]).
  { unfold txs_readable in *. rewrite Forall_forall in Htxs. apply Forall_singleton. apply Htxs. by eapply list_elem_of_lookup_2. }
  apply Forall_cons in Hread as [[Hs Hp] _]. rewrite Hsplit. set (pre' := pre ++ frames (take j ls)).
  rewrite read_size_frame by done. cbn [mbind outcome_bind].
  pose proof (sub_at (pre' ++ be_bytes 4 (Z.of_nat (length l))) l (frames (drop (S j) ls) ++ post)) as E.
  rewrite length_app, be_bytes_length, Nat2Z.inj_add in E. change (Z.of_nat 4) with 4 in E.
  unfold frame. rewrite <- !(assoc_L (++)) in E |- *. rewrite E. cbn [mbind outcome_bind]. exact Hp.
Qed.

Lemma frame_le l ls : l ∈ ls → (length l + 4 <= length (frames ls))%nat.
Proof.
  induction ls as [|x ls IH]; [by intros ?%not_elem_of_nil|]. rewrite frames_cons, length_app. pose proof (frame_length x).
  intros [->|Hin]%elem_of_cons; [lia|]. specialize (IH Hin). lia.
Qed.

Lemma block_tx b j tx : created b → Z.of_nat (length (serializeBlock b)) < 2 ^ 32 → txs_ b !! j = Some tx →
  getTxFromBlockWithIndex (serializeBlock b) j = Ret tx ∧
  (n ← sub (serializeBlock b) 201 8 ; bytesToUint64 n) = Ret (nHeight_ b).
Proof.
  intros Hc Hmax Hj. pose proof (created_ranges b Hc) as [_ Hh].
  destruct Hc as (txs & tvs & prev & ts & h & key & Hb & Hp & Hts & Hh' & Htxs & Htvs & Hlen).
  assert (Et : txs_ b = txs) by (by subst b). assert (Ev : txValidators_ b = tvs) by (by subst b).
  assert (Eh : nHeight_ b = h) by (by subst b).
  assert (Hsig : length (validatorSig_ b) = 65%nat) by (subst b; apply sign_length).
  rewrite <- Et in Htxs. rewrite <- Ev, <- Eh in Htvs.
  destruct (serializeBlock_read b Hsig Hlen Htxs Htvs) as (Hst & _ & Hbytes & _).
  assert (Hhead : length (serializeHeader b) = 144%nat) by (unfold serializeHeader, header; by rewrite !length_app, !be_bytes_length).
  set (start := Z.of_nat (217 + _)) in *. split.
  - rewrite Hbytes, !(assoc_L (++)). rewrite <- (assoc_L (++) _ (frames _)). apply tx_in_frames; [done| |done|].
    + by rewrite !length_app, Hsig, Hhead, be_bytes_length.
    + apply Forall_forall. intros l Hl. apply frame_le in Hl. rewrite Hbytes, !length_app in Hmax. lia.
  - unfold serializeHeader, header in Hbytes. rewrite Hbytes.
    set (post := be_bytes 8 start ++ _). rewrite <- !(assoc_L (++)).
    pose proof (sub_at (validatorSig_ b ++ be_bytes 32 (prevBlockHash_ b) ++ be_bytes 32 (blockRandomness_ b) ++
      be_bytes 32 (validatorMerkleRoot_ b) ++ be_bytes 32 (txMerkleRoot_ b) ++ be_bytes 8 (timestamp_ b))
      (be_bytes 8 (nHeight_ b)) post) as E.
    rewrite !length_app, !be_bytes_length, Hsig in E. rewrite <- !(assoc_L (++)) in E. change (Z.of_nat (65 + _)) with 201 in E.
    change (Z.of_nat 8) with 8 in E. rewrite E. cbn [mbind outcome_bind]. by apply u64_bytes.
Qed.

(** A lookup through given bytes. *)
Lemma number_index_run (s : Storage) n (j : nat) hb sb tx h :
  db_get (uint64ToBytes n) pfx_heightToBlock (blocksDb_ s) = hb → hb ≠ [] →
  db_get hb pfx_blocks (blocksDb_ s) = sb → sb ≠ [] → getTxFromBlockWithIndex sb j = Ret tx →
  Hash_make hb = Ret h → getTxByBlockNumberAndIndex n (Z.of_nat j) s = Ret (Some tx, h, Z.of_nat j, n).
Proof.
  intros H1 N1 H2 N2 H3 H4. unfold getTxByBlockNumberAndIndex. rewrite H1. cbv zeta. rewrite H2.
  rewrite (decide_False (P := hb = [])) by done. rewrite (decide_False (P := sb = [])) by done.
  rewrite Nat2Z.id, H3. cbn [mbind outcome_bind]. by rewrite H4.
Qed.
Lemma getTx_run (s : Storage) t (j : nat) l sb tx h n :
  db_get (hash_bytes t) pfx_txToBlock (blocksDb_ s) = l → l ≠ [] → (x ← sub l 0 32 ; Hash_make x) = Ret h →
  (x ← sub l 32 4 ; bytesToUint32 x) = Ret (Z.of_nat j) → (x ← sub l 36 8 ; bytesToUint64 x) = Ret n →
  db_get (hash_bytes h) pfx_blocks (blocksDb_ s) = sb → getTxFromBlockWithIndex sb j = Ret tx →
  getTx t s = Ret (Some tx, h, Z.of_nat j, n).
Proof.
  intros H1 N1 (x1 & E1 & E1')%outcome_bind_Ret (x2 & E2 & E2')%outcome_bind_Ret (x3 & E3 & E3')%outcome_bind_Ret H2 H3.
  unfold getTx. rewrite H1. cbv zeta. rewrite (decide_False (P := l = [])) by done.
  rewrite E1. cbn [mbind outcome_bind]. rewrite E1'. cbn [mbind outcome_bind].
  rewrite E2. cbn [mbind outcome_bind]. rewrite E2'. cbn [mbind outcome_bind].
  rewrite E3. cbn [mbind outcome_bind]. rewrite E3'. cbn [mbind outcome_bind].
  rewrite H2, Nat2Z.id, H3. done.
Qed.

Section chain.
Variables (bs : list FinalizedBlock) (d : rocks).
Hypothesis Hchain : chain_ok bs.
Hypothesis Hd : holds bs d.

Lemma height_bytes_inj i j a b : bs !! i = Some a → bs !! j = Some b →
  uint64ToBytes (nHeight_ a) = uint64ToBytes (nHeight_ b) → i = j.
Proof.
  intros Ha Hb. destruct (chain_created bs Hchain i a Ha) as [Ca Ea], (chain_created bs Hchain j b Hb) as [Cb Eb].
  rewrite (created_height_bytes a Ca), (created_height_bytes b Cb). intros E%(f_equal be_value).
  rewrite !be_value_bytes in E by apply created_ranges, Ca || apply created_ranges, Cb. lia.
Qed.

(** What the database says of each key of the chain. *)
Lemma block_bytes i b : bs !! i = Some b → db_get (hash_bytes (hash_ b)) pfx_blocks d = serializeBlock b.
Proof.
  intros Hi. unfold db_get. rewrite Hd, (assoc_last_unique _ (serializeBlock b)); [done| |].
  - apply elem_of_chain. exists i, b. split; [done|]. by left.
  - intros v' (j & b' & Hj & [[E ->]|[[E _]|(_ & ? & ? & _ & E & _)]])%elem_of_chain; [|done..].
    apply app_inv_head in E. pose proof (chain_hashes bs Hchain i j b b' Hi Hj E) as <-. rewrite Hi in Hj. by injection Hj as ->.
Qed.
Lemma height_bytes i b : bs !! i = Some b →
  db_get (uint64ToBytes (nHeight_ b)) pfx_heightToBlock d = hash_bytes (hash_ b).
Proof.
  intros Hi. unfold db_get. rewrite Hd, (assoc_last_unique _ (hash_bytes (hash_ b))); [done| |].
  - apply elem_of_chain. exists i, b. split; [done|]. right. by left.
  - intros v' (j & b' & Hj & [[E _]|[[E ->]|(_ & ? & ? & _ & E & _)]])%elem_of_chain; [done| |done].
    apply app_inv_head in E. pose proof (height_bytes_inj i j b b' Hi Hj E) as <-. rewrite Hi in Hj. by injection Hj as ->.
Qed.
Lemma tx_bytes i b j tx : indexing = true → bs !! i = Some b → txs_ b !! j = Some tx →
  db_get (hash_bytes (tx_hash tx)) pfx_txToBlock d = tx_location b j.
Proof.
  intros Hix Hi Hj. unfold db_get. rewrite Hd, (assoc_last_unique _ (tx_location b j)); [done| |].
  - apply elem_of_chain. exists i, b. split; [done|]. right. right. split; [done|]. by exists j, tx.
  - intros v' (i' & b' & Hi' & [[E _]|[[E _]|(_ & j' & tx' & Hj' & E & ->)]])%elem_of_chain; [done|done|].
    apply app_inv_head in E. destruct (chain_txs bs Hchain i i' b b' j j' tx tx' Hi Hi' Hj Hj' E) as [<- <-].
    rewrite Hi in Hi'. by injection Hi' as ->.
Qed.
Lemma no_height n : in_range 64 n → (length bs <= Z.to_nat n)%nat → Get (pfx_heightToBlock ++ uint64ToBytes n) d = None.
Proof.
  intros Hn Hlen. rewrite Hd. destruct (assoc_last _ _) as [v|] eqn:E; [|done]. exfalso.
  apply assoc_last_elem, elem_of_chain in E as (j & b & Hj & [[E _]|[[E _]|(_ & ? & ? & _ & E & _)]]); [done| |done].
  apply app_inv_head in E. destruct (chain_created bs Hchain j b Hj) as [Cb Eb].
  rewrite (created_height_bytes b Cb), (proj1 (u64_bytes n Hn)) in E. apply (f_equal be_value) in E.
  rewrite !be_value_bytes in E by (done || apply created_ranges, Cb). apply lookup_lt_Some in Hj. lia.
Qed.

(** The order of the keys is the order of the heights. *)
Lemma key_lt_value (a b : list Z) : length a = length b → Forall is_byte a → Forall is_byte b →
  key_lt a b = true → be_value a < be_value b.
Proof.
  assert (Hcons : ∀ x l, be_value (x :: l) = x * 256 ^ Z.of_nat (length l) + be_value l).
  { intros x l. induction l as [|y l IH] using rev_ind; [cbn; lia|]. rewrite app_comm_cons, !be_value_snoc, IH, length_app.
    cbn [length]. rewrite Nat2Z.inj_add, Z.pow_add_r by lia. change (256 ^ Z.of_nat 1) with 256. lia. }
  revert b. induction a as [|x a IH]; intros [|y b] Hl Ha Hb Hlt; cbn in Hl, Hlt; try done.
  apply Forall_cons in Ha as [_ Ha], Hb as [_ Hb]. rewrite !Hcons.
  assert (Hlen : length a = length b) by lia. rewrite Hlen.
  pose proof (be_value_bound a Ha) as Ba. pose proof (be_value_bound b Hb) as Bb. rewrite Hlen in Ba.
  apply orb_prop in Hlt as [Hxy|[Hxy Hab]%andb_prop].
  - apply Z.ltb_lt in Hxy. nia.
  - apply Z.eqb_eq in Hxy as ->. specialize (IH b Hlen Ha Hb Hab). lia.
Qed.

Lemma last_height b : last bs = Some b → getLastByPrefix pfx_heightToBlock d = Ret (hash_bytes (hash_ b)).
Proof.
  intros Hlast. assert (Hi : bs !! pred (length bs) = Some b) by (by rewrite <- last_lookup).
  assert (Hscan : ∀ k v, (k, v) ∈ scan pfx_heightToBlock d →
    ∃ i c, bs !! i = Some c ∧ k = be_bytes 8 (Z.of_nat i) ∧ v = hash_bytes (hash_ c)).
  { intros k v Hkv%elem_of_scan. rewrite Hd in Hkv.
    apply assoc_last_elem, elem_of_chain in Hkv as (i & c & Hc & [[E _]|[[E ->]|(_ & ? & ? & _ & E & _)]]); [done| |done].
    apply app_inv_head in E as ->. destruct (chain_created bs Hchain i c Hc) as [Cc Ec].
    exists i, c. rewrite (created_height_bytes c Cc), Ec. done. }
  destruct (chain_created bs Hchain _ b Hi) as [Cb Eb].
  assert (Hin : (be_bytes 8 (nHeight_ b), hash_bytes (hash_ b)) ∈ scan pfx_heightToBlock d).
  { apply elem_of_scan. pose proof (height_bytes _ b Hi) as E. unfold db_get in E. rewrite (created_height_bytes b Cb) in E.
    destruct (Get _ d) as [v|]; cbn in E; [by subst|]. apply (f_equal length) in E. unfold hash_bytes in E.
    by rewrite be_bytes_length in E. }
  change pfx_heightToBlock with ([0] ++ [2]). rewrite last_by_prefix; [|lia|].
  - change ([0] ++ [2]) with pfx_heightToBlock. f_equal. destruct (last (scan pfx_heightToBlock d)) as [[k v]|] eqn:E;
      [|apply last_None in E; rewrite E in Hin; by apply not_elem_of_nil in Hin].
    destruct (last_greatest _ _ (scan_sorted _ d) E _ Hin) as [[= _ ->]|Hlt]; [done|]. exfalso.
    destruct (Hscan k v) as (i & c & Hc & -> & ->); [apply last_Some in E as [l' ->]; set_solver|].
    unfold entry_lt in Hlt. cbn [fst] in Hlt. apply key_lt_value in Hlt; [|by rewrite !be_bytes_length|apply be_bytes_is_byte..].
    destruct (chain_created bs Hchain i c Hc) as [Cc Ec]. rewrite <- Ec in Hlt.
    rewrite !be_value_bytes in Hlt by (apply created_ranges, Cb || apply created_ranges, Cc).
    apply lookup_lt_Some in Hc. lia.
  - rewrite Hd. destruct (assoc_last _ _) as [v|] eqn:E; [|done]. exfalso.
    apply assoc_last_elem, elem_of_chain in E as (i & c & _ & [[E _]|[[E _]|(_ & ? & ? & _ & E & _)]]); done.
Qed.

(** *** Lookups *)

Lemma serialize_nonempty b : created b → serializeBlock b ≠ [].
Proof.
  intros Hc E. destruct (created_read thr b Hc) as [_ Hr]. rewrite E in Hr.
  change (fromBytes thr []) with (@Throw FinalizedBlock (domain_error "Error when deserializing a FinalizedBlock")) in Hr. done.
Qed.
Lemma hash_bytes_nonempty h : hash_bytes h ≠ [].
Proof. intros E%(f_equal length). unfold hash_bytes in E. by rewrite be_bytes_length in E. Qed.

Variable s : Storage.
Hypothesis Hs : blocksDb_ s = d.

Lemma block_found i b : bs !! i = Some b →
  getBlock_height (Z.of_nat i) s = Ret (Some (received b)) ∧ getBlock (hash_ b) s = Ret (Some (received b)) ∧
  blockExists_height (Z.of_nat i) s = true ∧ blockExists (hash_ b) s = true.
Proof.
  intros Hi. destruct (chain_created bs Hchain i b Hi) as [Cb Eb]. destruct (created_read thr b Cb) as [_ Hr].
  pose proof (block_bytes i b Hi) as B1. pose proof (height_bytes i b Hi) as B2. rewrite Eb in B2.
  unfold getBlock_height, getBlock, blockExists_height, blockExists. rewrite Hs. split_and!.
  - rewrite B2. rewrite decide_False by apply hash_bytes_nonempty. by rewrite B1, Hr.
  - rewrite B1. rewrite decide_False by (by apply serialize_nonempty). by rewrite Hr.
  - apply db_has_spec. unfold db_get in B2. destruct (Get _ d) eqn:E; [done|]. by destruct (hash_bytes_nonempty (hash_ b)).
  - apply db_has_spec. unfold db_get in B1. destruct (Get _ d) eqn:E; [done|]. cbn in B1. by destruct (serialize_nonempty b Cb).
Qed.
Lemma block_absent n : in_range 64 n → (length bs <= Z.to_nat n)%nat →
  getBlock_height n s = Ret None ∧ blockExists_height n s = false.
Proof.
  intros Hn Hlen. pose proof (no_height n Hn Hlen) as E. unfold getBlock_height, blockExists_height. rewrite Hs. split.
  - unfold db_get. by rewrite E.
  - apply not_true_is_false. rewrite db_has_spec, E. by intros [? ?].
Qed.

Lemma location_read b i l : created b → in_range 32 (Z.of_nat i) → l = tx_location b i →
  l ≠ [] ∧ (h ← sub l 0 32 ; Hash_make h) = Ret (hash_ b) ∧ (n ← sub l 32 4 ; bytesToUint32 n) = Ret (Z.of_nat i) ∧
  (n ← sub l 36 8 ; bytesToUint64 n) = Ret (nHeight_ b).
Proof.
  intros Cb Hi ->. unfold tx_location. rewrite (created_height_bytes b Cb), (proj1 (u32_bytes _ Hi)).
  pose proof (sub_at [] (hash_bytes (hash_ b)) (be_bytes 4 (Z.of_nat i) ++ be_bytes 8 (nHeight_ b))) as S1.
  pose proof (sub_at (hash_bytes (hash_ b)) (be_bytes 4 (Z.of_nat i)) (be_bytes 8 (nHeight_ b))) as S2.
  pose proof (sub_at (hash_bytes (hash_ b) ++ be_bytes 4 (Z.of_nat i)) (be_bytes 8 (nHeight_ b)) []) as S3.
  assert (Hl : length (hash_bytes (hash_ b)) = 32%nat) by (unfold hash_bytes; by rewrite be_bytes_length).
  rewrite Hl in S1. rewrite Hl, be_bytes_length in S2. rewrite length_app, Hl, !be_bytes_length, app_nil_r, <- (assoc_L (++)) in S3.
  split_and!.
  - intros E%(f_equal length). by rewrite length_app, Hl in E.
  - change (sub (hash_bytes (hash_ b) ++ be_bytes 4 (Z.of_nat i) ++ be_bytes 8 (nHeight_ b)) 0 32 = Ret (hash_bytes (hash_ b))) in S1.
    rewrite S1. by apply hash_roundtrip.
  - change (Z.of_nat 32) with 32 in S2. change (Z.of_nat 4) with 4 in S2. rewrite S2. by apply u32_bytes.
  - change (Z.of_nat (32 + 4)) with 36 in S3. change (Z.of_nat 8) with 8 in S3. rewrite S3. apply u64_bytes. by apply created_ranges.
Qed.

Lemma tx_by_block i b j tx : bs !! i = Some b → txs_ b !! j = Some tx →
  getTxByBlockHashAndIndex (hash_ b) (Z.of_nat j) s = Ret (Some tx, hash_ b, Z.of_nat j, Z.of_nat i) ∧
  getTxByBlockNumberAndIndex (Z.of_nat i) (Z.of_nat j) s = Ret (Some tx, hash_ b, Z.of_nat j, Z.of_nat i).
Proof.
  intros Hi Hj. destruct (chain_created bs Hchain i b Hi) as [Cb Eb].
  destruct (block_tx b j tx Cb (chain_small bs Hchain i b Hi) Hj) as [Ht Hn]. rewrite Eb in Hn.
  pose proof (block_bytes i b Hi) as B1. pose proof (height_bytes i b Hi) as B2. rewrite Eb in B2.
  rewrite <- Hs in B1, B2. split.
  - unfold getTxByBlockHashAndIndex. rewrite B1, !Nat2Z.id. cbv zeta. apply outcome_bind_Ret in Hn as (n & E1 & E2).
    rewrite E1. cbn [mbind outcome_bind]. rewrite E2. cbn [mbind outcome_bind]. by rewrite Ht.
  - exact (number_index_run s _ j _ _ _ _ B2 (hash_bytes_nonempty _) B1 (serialize_nonempty b Cb) Ht (hash_roundtrip b Cb)).
Qed.

Lemma tx_by_hash i b j tx : indexing = true → bs !! i = Some b → txs_ b !! j = Some tx →
  getTx (tx_hash tx) s = Ret (Some tx, hash_ b, Z.of_nat j, Z.of_nat i) ∧ txExists (tx_hash tx) s = true.
Proof.
  intros Hix Hi Hj. destruct (chain_created bs Hchain i b Hi) as [Cb Eb].
  pose proof (chain_small bs Hchain i b Hi) as Hmax. destruct (block_tx b j tx Cb Hmax Hj) as [Ht _].
  pose proof (block_bytes i b Hi) as B1. pose proof (tx_bytes i b j tx Hix Hi Hj) as B3.
  assert (Hj32 : in_range 32 (Z.of_nat j)).
  { apply lookup_lt_Some in Hj. unfold in_range. pose proof (frames_length (TxBlock_rlpSerialize true <$> txs_ b)) as Hf.
    rewrite length_fmap in Hf. unfold serializeBlock in Hmax. cbv zeta in Hmax. rewrite !length_app in Hmax. lia. }
  destruct (location_read b j _ Cb Hj32 B3) as (Hne & L1 & L2 & L3).
  rewrite Eb in L3. rewrite <- Hs in B1, Hne, L1, L2, L3. split.
  - exact (getTx_run s _ j _ _ tx _ _ eq_refl Hne L1 L2 L3 B1 Ht).
  - unfold txExists. apply db_has_spec. unfold db_get in Hne. destruct (Get _ (blocksDb_ s)) eqn:E; [done|]. by destruct Hne.
Qed.
End chain.

(** ** Opening and pushing *)

(** The answers of a storage that holds the chain [bs]. *)
Definition serves (bs : list FinalizedBlock) (s : Storage) : Prop :=
  (∀ i b, bs !! i = Some b →
     getBlock_height (Z.of_nat i) s = Ret (Some (received b)) ∧ getBlock (hash_ b) s = Ret (Some (received b)) ∧
     blockExists_height (Z.of_nat i) s = true ∧ blockExists (hash_ b) s = true) ∧
  (∀ n, in_range 64 n → (length bs <= Z.to_nat n)%nat → getBlock_height n s = Ret None ∧ blockExists_height n s = false) ∧
  (∀ i b j tx, bs !! i = Some b → txs_ b !! j = Some tx →
     let found := Ret (Some tx, hash_ b, Z.of_nat j, Z.of_nat i) in
     getTxByBlockHashAndIndex (hash_ b) (Z.of_nat j) s = found ∧
     getTxByBlockNumberAndIndex (Z.of_nat i) (Z.of_nat j) s = found ∧
     (indexing = true → getTx (tx_hash tx) s = found ∧ txExists (tx_hash tx) s = true)).

(** Each block names the one before it. *)
Definition linked (bs : list FinalizedBlock) : Prop :=
  ∀ i a b, bs !! i = Some a → bs !! S i = Some b → prevBlockHash_ b = hash_ a.

Lemma holds_serves bs s : chain_ok bs → holds bs (blocksDb_ s) → serves bs s.
Proof.
  intros Hc Hh. split_and!.
  - intros i b. by apply (block_found bs _ Hc Hh s eq_refl).
  - intros n. by apply (block_absent bs _ Hc Hh s eq_refl).
  - intros i b j tx Hi Hj. destruct (tx_by_block bs _ Hc Hh s eq_refl i b j tx Hi Hj) as [E1 E2]. split_and!; [done|done|].
    intros Hix. by apply (tx_by_hash bs _ Hc Hh s eq_refl i b).
Qed.

Lemma chain_ok_prefix bs cs : chain_ok (bs ++ cs) → chain_ok bs.
Proof.
  intros [H1 H2 H3 H4]. split; intros.
  - by apply H1, lookup_app_l_Some.
  - by eapply (H2 i j a b); first [apply lookup_app_l_Some; done|done].
  - by eapply (H3 i j a b k l t u); first [apply lookup_app_l_Some; done|done].
  - by eapply H4, lookup_app_l_Some.
Qed.

Lemma received_received b : received (received b) = received b.
Proof. done. Qed.

(** The genesis block of the options is the one in the database. *)
Lemma genesis_checked bs d : chain_ok bs → holds bs d → bs !! 0%nat = Some genesis →
  Hash_make (db_get (uint64ToBytes 0) pfx_heightToBlock d) = Ret (hash_ genesis) ∧
  fromBytes thr (db_get (hash_bytes (hash_ genesis)) pfx_blocks d) = Ret (received genesis).
Proof.
  intros Hc Hh H0. destruct (chain_created bs Hc 0 genesis H0) as [Cg Eg].
  pose proof (height_bytes bs d Hc Hh 0 genesis H0) as B2. rewrite Eg in B2. change (Z.of_nat 0) with 0 in B2.
  rewrite B2, (block_bytes bs d Hc Hh 0 genesis H0). split; [by apply hash_roundtrip|by apply created_read].
Qed.
Lemma block_eq_received b : block_eq b (received b) = true.
Proof. unfold block_eq. rewrite Z.eqb_refl. by rewrite bool_decide_true. Qed.

(** Opening a database with a chain ends at its last block. *)
Lemma opened bs d b l : chain_ok bs → holds bs d → bs !! 0%nat = Some genesis → last bs = Some b →
  getLastByPrefix pfx_heightToBlock d = Ret l →
  (h ← Hash_make (db_get (uint64ToBytes 0) pfx_heightToBlock d) ;
   g ← fromBytes thr (db_get (hash_bytes h) pfx_blocks d) ;
   if negb (block_eq genesis g)
   then Throw (DynamicException "Sanity Check! Genesis block in DB does not match genesis block in Options")
   else Ret d) = Ret d ∧
  l ≠ [] ∧ db_get l pfx_blocks d = serializeBlock b.
Proof.
  intros Hc Hh H0 Hl El. destruct (genesis_checked bs d Hc Hh H0) as [E1 E2]. rewrite (last_height bs d Hc Hh b Hl) in El.
  injection El as <-. rewrite last_lookup in Hl. split_and!.
  - rewrite E1. cbn [mbind outcome_bind]. rewrite E2. cbn [mbind outcome_bind]. by rewrite block_eq_received.
  - apply hash_bytes_nonempty.
  - by apply (block_bytes bs d Hc Hh _ b Hl).
Qed.

Lemma reopen bs d b : chain_ok bs → holds bs d → bs !! 0%nat = Some genesis → last bs = Some b →
  Storage_new d = Ret (mkStorage (received b) d).
Proof.
  intros Hc Hh H0 Hl. pose proof (last_height bs d Hc Hh b Hl) as El.
  destruct (opened bs d b _ Hc Hh H0 Hl El) as (E1 & N1 & E2).
  assert (Cb : created b) by (rewrite last_lookup in Hl; by apply (chain_created bs Hc _ b Hl)).
  unfold Storage_new, initializeBlockchain. rewrite El. cbn [mbind outcome_bind].
  rewrite decide_False by done. cbn [mbind outcome_bind]. setoid_rewrite E1. cbn [mbind outcome_bind].
  rewrite El. cbn [mbind outcome_bind]. rewrite decide_False by done.
  rewrite E2, decide_False by (by apply (serialize_nonempty b)). rewrite (proj2 (created_read thr b Cb)). done.
Qed.

Lemma first_open d : (∀ k, Get k d = None) → chain_ok [genesis] →
  Storage_new d = Ret (mkStorage (received genesis) (storeBlock d genesis)).
Proof.
  intros Hd Hc. assert (Hh : holds [genesis] (storeBlock d genesis)) by (apply (storeBlock_holds []); intros k; by rewrite Hd).
  assert (El : getLastByPrefix pfx_heightToBlock d = Ret []).
  { change pfx_heightToBlock with ([0] ++ [2]). rewrite last_by_prefix by (lia || apply Hd).
    destruct (last (scan _ d)) as [[k v]|] eqn:E; [|done]. apply last_Some in E as [l' E].
    assert (Hin : (k, v) ∈ scan ([0] ++ [2]) d) by (rewrite E; set_solver). apply elem_of_scan in Hin. by rewrite Hd in Hin. }
  pose proof (reopen [genesis] _ genesis Hc Hh eq_refl eq_refl) as Hr. unfold Storage_new, initializeBlockchain in *.
  pose proof (last_height [genesis] _ Hc Hh genesis eq_refl) as El'. rewrite El' in Hr. cbn [mbind outcome_bind] in Hr.
  rewrite decide_False in Hr by apply hash_bytes_nonempty.
  rewrite El. cbn [mbind outcome_bind]. rewrite decide_True by done.
  destruct (chain_created _ Hc 0 genesis eq_refl) as [_ ->]. cbn [negb]. exact Hr.
Qed.

Lemma pushBlocks_run cs bs b s : chain_ok (bs ++ cs) → linked (bs ++ cs) → last bs = Some b →
  holds bs (blocksDb_ s) → received (latest_ s) = received b →
  ∃ s' b', pushBlocks cs s = Ret s' ∧ holds (bs ++ cs) (blocksDb_ s') ∧ last (bs ++ cs) = Some b' ∧
    received (latest_ s') = received b'.
Proof.
  revert bs b s. induction cs as [|c cs IH]; intros bs b s Hc Hl Hb Hh Hlat.
  { exists s, b. by rewrite app_nil_r in *. }
  assert (Hprev : prevBlockHash_ c = hash_ (latest_ s)).
  { rewrite last_lookup in Hb. pose proof (lookup_lt_Some _ _ _ Hb) as Hlt.
    rewrite (Hl (pred (length bs)) b c); [by apply (f_equal hash_) in Hlat| |].
    - by apply lookup_app_l_Some.
    - rewrite lookup_app_r by lia. by replace (S (pred (length bs)) - length bs)%nat with 0%nat by lia. }
  cbn [pushBlocks]. unfold pushBlock. rewrite Hprev, Z.eqb_refl. cbn [negb mbind outcome_bind].
  replace (bs ++ c :: cs) with ((bs ++ [c]) ++ cs) in * by (by rewrite <- (assoc_L (++))).
  apply (IH (bs ++ [c]) c); [done|done|by rewrite last_snoc|by apply storeBlock_holds|done].
Qed.
End storage.

(** C24: the storage keeps the chain.  On an empty database it starts with the
    genesis block; every block pushed behind its predecessor is stored; every
    block is found by its height and by its hash, every transaction by the hash
    or the height of its block and, when transactions are indexed, by its own
    hash; no other height is found; and opening the database again gives the same
    latest block and the same answers.  The blocks are readable, so no transaction
    has 55 bytes of data, and their hashes and those of their transactions differ
    ([chain_ok]). *)
Theorem storage_keeps_chain {BI : BoostInt} {EC : Secp256k1} {R : RocksDB} (thr : nat) (genesis : FinalizedBlock)
    (indexing : bool) (d : rocks) (bs : list FinalizedBlock) :
  (∀ k, Get k d = None) → chain_ok (genesis :: bs) → linked (genesis :: bs) →
  ∃ s s' b, (s ← Storage_new thr genesis indexing d ; pushBlocks indexing bs s) = Ret s ∧
    Storage_new thr genesis indexing (blocksDb_ s) = Ret s' ∧
    last (genesis :: bs) = Some b ∧ received (latest_ s) = received b ∧ latest_ s' = received b ∧
    serves thr indexing (genesis :: bs) s ∧ serves thr indexing (genesis :: bs) s'.
Proof.
  intros Hd Hc Hl. assert (Hg : chain_ok [genesis]) by (by apply (chain_ok_prefix [genesis] bs)).
  rewrite (first_open thr genesis indexing d Hd Hg). cbn [mbind outcome_bind].
  destruct (pushBlocks_run indexing bs [genesis] genesis (mkStorage (received genesis) (storeBlock indexing d genesis)))
    as (s & b & E & Hh & Hb & Hlat); [done|done|done|apply (storeBlock_holds indexing []); intros k; by rewrite Hd|done|].
  exists s, (mkStorage (received b) (blocksDb_ s)), b. split_and!; [done| |done|done|done| |].
  - by apply (reopen thr genesis indexing (genesis :: bs)).
  - by apply holds_serves.
  - by apply holds_serves.
Qed.

(** ** Witness: a genesis block and one with a transaction *)

Definition demo_genesis : FinalizedBlock := createNewValidBlock (EC := demo_ec) [] [] 0 1000 0 99.
Definition demo_block : FinalizedBlock := createNewValidBlock (EC := demo_ec) (take 1 demo_txs) [] (hash_ demo_genesis) 2000 1 99.

Lemma demo_chain_ok : chain_ok (BI := boost_ref) (EC := demo_ec) [demo_genesis; demo_block].
Proof.
  assert (Hd : hash_bytes (hash_ demo_genesis) ≠ hash_bytes (hash_ demo_block)) by (by vm_compute).
  split.
  - intros [|[|i]] b; [intros [= <-]|intros [= <-]|done]; (split; [|done]).
    + exists [], [], 0, 1000, 0, 99. split_and!;
        first [apply Forall_nil_2|reflexivity|by vm_compute].
    + exists (take 1 demo_txs), [], (hash_ demo_genesis), 2000, 1, 99. split_and!;
        first [apply Forall_nil_2|apply Forall_take, demo_txs_readable|reflexivity|by vm_compute].
  - intros [|[|i]] [|[|j]] a b Ha Hb E; try reflexivity; try discriminate Ha; try discriminate Hb;
      injection Ha as <-; injection Hb as <-; exfalso.
    + exact (Hd E).
    + exact (Hd (eq_sym E)).
  - intros [|[|i]] [|[|j]] a b k l t u Ha Hb Hk Hl _; try discriminate Ha; try discriminate Hb;
      injection Ha as <-; injection Hb as <-; try discriminate Hk; try discriminate Hl.
    destruct k as [|k], l as [|l]; [done|discriminate Hl|discriminate Hk|discriminate Hk].
  - intros [|[|i]] b; [intros [= <-]|intros [= <-]|done]; by vm_compute.
Qed.

Lemma storage_keeps_chain_witness :
  ∃ s s', (s ← Storage_new (BI := boost_ref) (EC := demo_ec) (R := sorted_store) 8 demo_genesis true empty_store ;
           pushBlocks (R := sorted_store) true [demo_block] s) = Ret s ∧
    Storage_new (BI := boost_ref) (EC := demo_ec) 8 demo_genesis true (blocksDb_ s) = Ret s' ∧
    latest_ s' = received demo_block ∧
    ∀ tx, txs_ demo_block !! 0%nat = Some tx →
      getTx (BI := boost_ref) (EC := demo_ec) (tx_hash tx) s' = Ret (Some tx, hash_ demo_block, 0, 1).
Proof.
  destruct (storage_keeps_chain (BI := boost_ref) (EC := demo_ec) (R := sorted_store) 8 demo_genesis true empty_store [demo_block])
    as (s & s' & b & E & E' & Hb & _ & Hl & _ & (_ & _ & Ht)).
  - intros k. reflexivity.
  - apply demo_chain_ok.
  - intros [|[|i]] a c; [intros [= <-] [= <-]; reflexivity|done..].
  - exists s, s'. injection Hb as <-. split_and!; [done|done|done|]. intros tx Htx.
    by apply (Ht 1%nat demo_block 0%nat tx).
Defined.

(** A transaction of an unknown block is looked up outside of its (empty) bytes. *)
Example absent_block_read_outside :
  getTxByBlockHashAndIndex (BI := boost_ref) (EC := demo_ec) (R := sorted_store) 7 0
    (mkStorage demo_genesis empty_store) = Throw undefined_behaviour.
Proof. done. Qed.
