(* ===== verification/EventsDB.v ===== *)
(** * The event database

    Models src/utils/eventsdb.h and eventsdb.cpp: a table of events in SQLite,
    filled when an execution is committed and queried by [eth_getLogs] and for
    receipts.  The statement the code builds is modelled by what it selects; the
    class [SqlOrder] is SQLite's [ORDER BY block_number, event_index], which does
    not say how rows with equal keys are ordered.  Integers are stored in 64 bits
    with sign; [Column::getUInt] gives back the lower 32. *)

From stdpp Require Import sorting.
From S2P Require Import Prelude CheckedInt ExecutionContext.

(** A row; the columns [topic_0] to [topic_3] that are not NULL are a prefix. *)
Record Row := mkRow {
  row_address : Address;
  row_index : Z;
  row_block : Z;
  row_blockHash : Hash;
  row_txIndex : Z;
  row_txHash : Hash;
  row_data : list Z;
  row_topics : list Hash;
}.

(** [static_cast<int64_t>] of an unsigned number. *)
Definition to_int64 (z : Z) : Z := if z <? 2 ^ 63 then z else z - 2 ^ 64.

(** [SELECT MAX(event_index), COUNT() FROM events WHERE block_number = ?]: NULL is
    read as zero. *)
Definition max_index (l : list Row) : Z := fold_right (λ r m, Z.max (row_index r) m) 0 l.
Definition getLogIndex (blockNumber : Z) (rows : list Row) : Z :=
  let l := filter (λ r, row_block r = blockNumber) rows in
  if 0 <? wrap 32 (Z.of_nat (length l)) then wrap 32 (wrap 32 (max_index l) + 1) else 0.

Definition putEvent (e : Event) (rows : list Row) : list Row :=
  rows ++ [mkRow (ev_address e) (getLogIndex (to_int64 (ev_blockIndex e)) rows) (to_int64 (ev_blockIndex e)) (ev_blockHash e)
    (to_int64 (ev_txIndex e)) (ev_txHash e) (ev_data e) (take 4 (ev_topics e))].

(** [EventsDB::Filters] *)
Record Filters := mkFilters {
  fromBlock : option Z;
  toBlock : option Z;
  f_blockHash : option Hash;
  f_address : option Address;
  f_txIndex : option Z;
  f_topics : list (list Hash);
}.

(** A condition that is in the statement when its filter has a value. *)
Definition when {A} (o : option A) (p : A → bool) : bool := match o with None => true | Some a => p a end.
(** [topic_i IN (...)] for the lists that are not empty; NULL is in no list. *)
Fixpoint topics_in (topics : list (list Hash)) (row : list Hash) : bool :=
  match topics with
  | [] => true
  | l :: topics =>
      (bool_decide (l = []) || match row with [] => false | t :: _ => bool_decide (t ∈ l) end) && topics_in topics (tail row)
  end.
Definition row_matches (f : Filters) (r : Row) : bool :=
  when (f_address f) (λ a, row_address r =? a) && when (fromBlock f) (λ b, b <=? row_block r) &&
  when (toBlock f) (λ b, row_block r <=? b) && when (f_blockHash f) (λ h, row_blockHash r =? h) &&
  when (f_txIndex f) (λ i, row_txIndex r =? i) && topics_in (f_topics f) (row_topics r).

(** The event built from a row. *)
Definition row_event (r : Row) : Event :=
  mkEvent (wrap 32 (row_index r)) (row_txHash r) (wrap 32 (row_txIndex r)) (row_blockHash r) (wrap 32 (row_block r))
    (row_address r) (row_data r) (row_topics r) false.

Definition row_le (r r' : Row) : Prop := row_block r < row_block r' ∨ row_block r = row_block r' ∧ row_index r <= row_index r'.
Class SqlOrder := {
  order_by : list Row → list Row;
  order_perm : ∀ l, order_by l ≡ₚ l;
  order_sorted : ∀ l, StronglySorted row_le (order_by l);
}.

(** [LIMIT ?]: a negative limit is none. *)
Definition limited {A} (limit : Z) (l : list A) : list A := if limit <? 0 then l else take (Z.to_nat limit) l.

(** A topic that has no column is an error of the statement. *)
Definition getEvents {SO : SqlOrder} (f : Filters) (limit : Z) (rows : list Row) : outcome (list Event) :=
  if decide (Exists (λ l, l ≠ []) (drop 4 (f_topics f))) then Throw (runtime_error "no such column")
  else Ret (map row_event (limited limit (order_by (filter (λ r, row_matches f r = true) rows)))).

(** ** What a query finds *)

(** The events as the database gives them back: numbered within their block. *)
Definition stored_as (i : nat) (e : Event) : Event :=
  mkEvent (Z.of_nat i) (ev_txHash e) (ev_txIndex e) (ev_blockHash e) (ev_blockIndex e) (ev_address e) (ev_data e)
    (take 4 (ev_topics e)) false.
Definition in_block (b : Z) (l : list Event) : list Event := filter (λ e, ev_blockIndex e = b) l.
Fixpoint numbered (before evs : list Event) : list Event :=
  match evs with
  | [] => []
  | e :: evs => stored_as (length (in_block (ev_blockIndex e) before)) e :: numbered (before ++ [e]) evs
  end.
(** The condition of a filter on events. *)
Definition selects (f : Filters) (e : Event) : Prop :=
  (∀ a, f_address f = Some a → ev_address e = a) ∧ (∀ b, fromBlock f = Some b → b <= ev_blockIndex e) ∧
  (∀ b, toBlock f = Some b → ev_blockIndex e <= b) ∧ (∀ h, f_blockHash f = Some h → ev_blockHash e = h) ∧
  (∀ i, f_txIndex f = Some i → ev_txIndex e = i) ∧
  (∀ i l, f_topics f !! i = Some l → l ≠ [] → ∃ t, ev_topics e !! i = Some t ∧ t ∈ l).
Definition event_before (e e' : Event) : Prop :=
  ev_blockIndex e < ev_blockIndex e' ∨ ev_blockIndex e = ev_blockIndex e' ∧ logIndex e < logIndex e'.
Definition event_fits (e : Event) : Prop := in_range 32 (ev_blockIndex e) ∧ in_range 32 (ev_txIndex e).

(** The row of an event of the list. *)
Definition event_row (e : Event) : Row :=
  mkRow (ev_address e) (logIndex e) (ev_blockIndex e) (ev_blockHash e) (ev_txIndex e) (ev_txHash e) (ev_data e) (ev_topics e).

Lemma topics_in_spec ts row : topics_in ts row = true ↔ ∀ i l, ts !! i = Some l → l ≠ [] → ∃ t, row !! i = Some t ∧ t ∈ l.
Proof.
  revert row. induction ts as [|l ts IH]; intros row; cbn [topics_in]; [by split|].
  rewrite andb_true_iff, orb_true_iff, IH, bool_decide_eq_true. split.
  - intros [Hl Hts] [|i] l'; cbn.
    + intros [= <-] Hne. destruct Hl as [?|Hl]; [done|]. destruct row as [|t row]; [done|]. apply bool_decide_eq_true in Hl. eauto.
    + intros Hi Hne. destruct (Hts i l' Hi Hne) as (t & Ht & Hin). exists t. split; [|done]. by destruct row.
  - intros H. split.
    + destruct (decide (l = [])) as [->|Hne]; [by left|right]. destruct (H 0%nat l eq_refl Hne) as (t & Ht & Hin).
      destruct row as [|t' row]; [done|]. injection Ht as ->. by apply bool_decide_eq_true.
    + intros i l' Hi Hne. destruct (H (S i) l' Hi Hne) as (t & Ht & Hin). exists t. split; [|done]. by destruct row.
Qed.
Lemma when_spec {A} (o : option A) p : when o p = true ↔ ∀ a, o = Some a → p a = true.
Proof. destruct o as [a|]; cbn; [|by split]. split; [by intros H a' [= <-]|auto]. Qed.
Lemma matches_selects f e : row_matches f (event_row e) = true ↔ selects f e.
Proof.
  unfold row_matches, selects. rewrite !andb_true_iff, !when_spec, topics_in_spec. cbn.
  setoid_rewrite Z.eqb_eq. setoid_rewrite Z.leb_le. tauto.
Qed.
#[export] Instance selects_dec f e : Decision (selects f e).
Proof. refine (cast_if (decide (row_matches f (event_row e) = true))); by rewrite <- matches_selects. Defined.

(** *** Numbers within a block *)

Lemma numbered_snoc before l e : numbered before (l ++ [e]) =
  numbered before l ++ [stored_as (length (in_block (ev_blockIndex e) (before ++ l))) e].
Proof.
  revert before. induction l as [|x l IH]; intros before; cbn; [by rewrite app_nil_r|].
  rewrite IH, <- (assoc_L (++)). done.
Qed.
Lemma max_index_snoc l r : 0 <= row_index r → max_index (l ++ [r]) = Z.max (max_index l) (row_index r).
Proof. intros Hr. unfold max_index. induction l as [|x l IH]; cbn in *; [lia|]. rewrite IH. lia. Qed.

Lemma in_block_snoc b l e : in_block b (l ++ [e]) = in_block b l ++ if decide (ev_blockIndex e = b) then [e] else [].
Proof. unfold in_block. by rewrite filter_app, filter_cons, filter_nil. Qed.
(** The rows of a block: as many as events, the last number one less. *)
Lemma block_rows b l : let rows := filter (λ r, row_block r = b) (map event_row (numbered [] l)) in
  length rows = length (in_block b l) ∧ max_index rows = Z.max 0 (Z.of_nat (length (in_block b l)) - 1).
Proof.
  cbv zeta. induction l as [|e l [IHn IHm]] using rev_ind; [done|].
  rewrite numbered_snoc, map_app, filter_app, !in_block_snoc. cbn [app map].
  rewrite !filter_cons, !filter_nil. cbn [row_block event_row stored_as ev_blockIndex]. destruct (decide (ev_blockIndex e = b)) as [<-|Hne].
  - rewrite !length_app, IHn, max_index_snoc, IHm by (cbn [row_index event_row logIndex stored_as]; lia).
    cbn [row_index event_row logIndex stored_as length]. lia.
  - rewrite !app_nil_r. done.
Qed.

(** [putEvent] on the rows of the events so far. *)
Definition put_all (evs : list Event) (rows : list Row) : list Row := fold_left (λ rows e, putEvent e rows) evs rows.
Lemma to_int64_id z : in_range 32 z → to_int64 z = z.
Proof. unfold in_range, to_int64. intros H. destruct (Z.ltb_spec z (2 ^ 63)); [done|lia]. Qed.
Lemma in_block_length b l : (length (in_block b l) <= length l)%nat.
Proof. unfold in_block. apply length_filter. Qed.
Lemma put_all_rows evs : Forall event_fits evs → Z.of_nat (length evs) < 2 ^ 32 →
  put_all evs [] = map event_row (numbered [] evs).
Proof.
  induction evs as [|e l IH] using rev_ind; [done|]. intros [Hl [[Hb Ht] _]%Forall_cons]%Forall_app Hn. rewrite length_app in Hn. cbn in Hn.
  unfold put_all in *. rewrite fold_left_app, IH by (done || lia). cbn [fold_left]. rewrite numbered_snoc, map_app. unfold putEvent.
  f_equal. cbn [map app]. rewrite !to_int64_id by done. f_equal. unfold event_row at 2, stored_as.
  cbn [ev_address logIndex ev_blockIndex ev_blockHash ev_txIndex ev_txHash ev_data ev_topics]. f_equal.
  unfold getLogIndex. cbv zeta. destruct (block_rows (ev_blockIndex e) l) as [-> ->]. pose proof (in_block_length (ev_blockIndex e) l).
  set (n := length (in_block (ev_blockIndex e) l)) in *. rewrite (wrap_id 32 (Z.of_nat n)) by (unfold in_range; lia).
  destruct (Z.ltb_spec 0 (Z.of_nat n)); [|lia]. rewrite !wrap_id by (unfold in_range; rewrite ?wrap_id by (unfold in_range; lia); lia). lia.
Qed.

(** Two events of a block have different numbers. *)
Definition key (e : Event) : Z * Z := (ev_blockIndex e, logIndex e).
Lemma numbered_keys evs : NoDup (map key (numbered [] evs)) ∧
  Forall (λ e, 0 <= logIndex e < Z.of_nat (length (in_block (ev_blockIndex e) evs))) (numbered [] evs).
Proof.
  induction evs as [|e l [IHn IHf]] using rev_ind; [by split; constructor|]. rewrite numbered_snoc, map_app. cbn [map app].
  assert (Hf : Forall (λ x, 0 <= logIndex x < Z.of_nat (length (in_block (ev_blockIndex x) (l ++ [e])))) (numbered [] l)).
  { eapply Forall_impl; [exact IHf|]. intros x Hx. cbn in *. rewrite in_block_snoc, length_app. lia. }
  split.
  - apply NoDup_app. split_and!; [done| |apply NoDup_singleton]. intros k (x & -> & Hx)%list_elem_of_fmap Hk%list_elem_of_singleton.
    rewrite Forall_forall in IHf. specialize (IHf x Hx). unfold key, stored_as in Hk. cbn in Hk. injection Hk as E1 E2.
    rewrite E1, E2 in IHf. lia.
  - apply Forall_app. split; [done|]. apply Forall_singleton. cbn [logIndex stored_as ev_blockIndex app]. rewrite in_block_snoc, length_app, decide_True by done.
    cbn. lia.
Qed.
Lemma numbered_fits before evs : Forall event_fits evs → Forall event_fits (numbered before evs).
Proof. intros H. revert before. induction H as [|e l He _ IH]; intros before; cbn; constructor; [done|apply IH]. Qed.

Lemma row_event_row e : event_fits e → in_range 32 (logIndex e) → ev_anonymous e = false → row_event (event_row e) = e.
Proof. intros [Hb Ht] Hi Ha. unfold row_event, event_row. cbn. rewrite !wrap_id by done. destruct e; cbn in *. by subst. Qed.
Lemma numbered_named before evs : Forall (λ e, ev_anonymous e = false) (numbered before evs).
Proof. revert before. induction evs as [|e l IH]; intros before; cbn; constructor; [done|apply IH]. Qed.

(** *** Selection and order *)

Lemma filter_rows f l : filter (λ r, row_matches f r = true) (map event_row l) = map event_row (filter (selects f) l).
Proof.
  induction l as [|e l IH]; [done|]. cbn [map]. rewrite !filter_cons. destruct (decide (selects f e)) as [Hs|Hs].
  - rewrite decide_True by (by apply matches_selects). cbn [map]. by rewrite IH.
  - rewrite decide_False by (by rewrite matches_selects). done.
Qed.
Lemma map_row_event l : Forall (λ e, event_fits e ∧ in_range 32 (logIndex e) ∧ ev_anonymous e = false) l →
  map row_event (map event_row l) = l.
Proof. induction 1 as [|e l (H1 & H2 & H3) _ IH]; [done|]. cbn [map]. by rewrite IH, row_event_row. Qed.

(** Rows in order, with different keys, give events in strict order. *)
Definition row_small (r : Row) : Prop := in_range 32 (row_block r) ∧ in_range 32 (row_index r).
Lemma rows_strict l : StronglySorted row_le l → Forall row_small l → NoDup (map key (map row_event l)) →
  StronglySorted event_before (map row_event l).
Proof.
  induction 1 as [|r l Hs IH Hle]; cbn [map]; [constructor|]. intros [[Hb Hi] Hl]%Forall_cons [Hni Hnd]%NoDup_cons.
  constructor; [by apply IH|]. apply Forall_forall. intros e (r' & -> & Hr')%list_elem_of_fmap. rewrite Forall_forall in Hle, Hl.
  specialize (Hle r' Hr'). destruct (Hl r' Hr') as [Hb' Hi']. unfold event_before, row_event. cbn. rewrite !wrap_id by done.
  destruct Hle as [?|[E Hle]]; [by left|]. right. split; [done|]. destruct (decide (row_index r = row_index r')) as [Ei|]; [|lia].
  exfalso. apply Hni. apply list_elem_of_fmap. exists (row_event r'). split; [|apply list_elem_of_fmap; eauto].
  unfold key, row_event. cbn. by rewrite E, Ei.
Qed.
Lemma map_limited {A B} (g : A → B) limit l : map g (limited limit l) = limited limit (map g l).
Proof. unfold limited. destruct (limit <? 0); [done|]. symmetry. apply firstn_map. Qed.

(** A query of the event database returns exactly the stored events that
    satisfy its filters, in the order of their blocks and of their numbers within
    the block, cut at the limit.  Whatever the order in which events are put, each
    one gets as its number how many events of its block were there before, so no
    two have the same place; of its topics the first four are kept.  A filter on a
    fifth topic is an error, whatever it selects. *)
Theorem events_found {SO : SqlOrder} (evs : list Event) (f : Filters) (limit : Z) :
  Forall event_fits evs → Z.of_nat (length evs) < 2 ^ 32 →
  (Exists (λ l, l ≠ []) (drop 4 (f_topics f)) → returns (getEvents f limit (put_all evs [])) = false) ∧
  (Forall (λ l, l = []) (drop 4 (f_topics f)) →
   ∃ l, getEvents f limit (put_all evs []) = Ret (limited limit l) ∧
     l ≡ₚ filter (selects f) (numbered [] evs) ∧ StronglySorted event_before l).
Proof.
  intros Hev Hn. unfold getEvents. split; [intros He; by rewrite decide_True|].
  intros Ht. rewrite decide_False by (intros He; apply Exists_not_Forall in He; apply He; eapply Forall_impl; [exact Ht|]; cbn; naive_solver).
  rewrite put_all_rows, filter_rows by done. set (sel := filter (selects f) (numbered [] evs)).
  destruct (numbered_keys evs) as [Hnd Hidx].
  assert (Hok : Forall (λ e, event_fits e ∧ in_range 32 (logIndex e) ∧ ev_anonymous e = false) (numbered [] evs)).
  { pose proof (numbered_fits [] evs Hev) as Hf. pose proof (numbered_named [] evs) as Ha. rewrite Forall_forall in Hf, Hidx, Ha |- *.
    intros e He. split_and!; [by apply Hf| |by apply Ha]. specialize (Hidx e He). cbn in Hidx.
    pose proof (in_block_length (ev_blockIndex e) evs). unfold in_range. lia. }
  assert (Hsel : Forall (λ e, event_fits e ∧ in_range 32 (logIndex e) ∧ ev_anonymous e = false) sel).
  { rewrite Forall_forall in Hok |- *. intros e [_ He]%list_elem_of_filter. by apply Hok. }
  set (rows := order_by (map event_row sel)). assert (Hp : map row_event rows ≡ₚ sel).
  { unfold rows. rewrite order_perm. by rewrite map_row_event. }
  exists (map row_event rows). split_and!; [by rewrite map_limited|exact Hp|]. apply rows_strict.
  - apply order_sorted.
  - unfold rows. rewrite order_perm. apply Forall_map. eapply Forall_impl; [exact Hsel|]. cbn. intros e ((Hb & _) & Hi & _). by split.
  - rewrite Hp. eapply sublist_NoDup; [exact Hnd|]. apply fmap_sublist, sublist_filter.
Qed.

(** ** An implementation of the order *)
#[export] Instance row_le_dec : RelDecision row_le.
Proof. intros r r'. unfold row_le. apply _. Defined.
#[export] Instance row_le_total : Total row_le.
Proof. intros r r'. unfold row_le. lia. Qed.
#[export] Instance row_le_trans : Transitive row_le.
Proof. intros r1 r2 r3. unfold row_le. lia. Qed.
#[export, program] Instance merge_order : SqlOrder := {| order_by := merge_sort row_le |}.
Next Obligation. intros. apply merge_sort_Permutation. Qed.
Next Obligation. intros. apply (StronglySorted_merge_sort row_le). Qed.

Lemma events_found_witness :
  let e b t := mkEvent 0 7 0 9 b 5 [1] t false in
  ∃ l, getEvents (mkFilters (Some 3) None None (Some 5) None [[]; [11; 12]]) 10 (put_all [e 4 [10; 11]; e 3 [10; 12]; e 3 [10]; e 4 [13; 11; 14]] []) =
    Ret (limited 10 l) ∧ map key l = [(3, 0); (4, 0); (4, 1)].
Proof.
  intros e. destruct (events_found [e 4 [10; 11]; e 3 [10; 12]; e 3 [10]; e 4 [13; 11; 14]]
    (mkFilters (Some 3) None None (Some 5) None [[]; [11; 12]]) 10) as [_ H].
  - repeat constructor; by vm_compute.
  - by vm_compute.
  - destruct H as (l & E & _ & _); [constructor|]. exists l. split; [exact E|].
    assert (E' : getEvents (mkFilters (Some 3) None None (Some 5) None [[]; [11; 12]]) 10
      (put_all [e 4 [10; 11]; e 3 [10; 12]; e 3 [10]; e 4 [13; 11; 14]] []) =
      Ret [mkEvent 0 7 0 9 3 5 [1] [10; 12] false; mkEvent 0 7 0 9 4 5 [1] [10; 11] false; mkEvent 1 7 0 9 4 5 [1] [13; 11; 14] false])
      by (vm_compute; reflexivity).
    rewrite E' in E. injection E as E. unfold limited in E. cbn [Z.ltb Z.compare] in E.
    destruct l as [|e1 [|e2 [|e3 [|e4 l]]]]; try discriminate E. injection E as <- <- <-. reflexivity.
Defined.
