(* ===== verification/BaseContract.v ===== *)
(** * The base class of contracts and its database form

    Models [BaseContract] (src/contract/contract.h): the fields that identify a
    contract, the prefix of its keys, what [dump] writes and what the loading
    constructor reads.  A [std::string] is its bytes.  The second half is the
    common part of all contracts that are kept in the database: the class
    [StoredContract] says what [dump] and the loading constructor of a contract
    type promise to the manager that stores and loads them, and [load_map] is the
    loop that fills a map from the entries of a prefix. *)

From S2P Require Import Prelude CheckedInt ExecutionContext Bytes SafeBase SafeMap Conv Abi Tx DB.

(** [Address(const bytes::Range auto&)] *)
Definition Address_make (b : list Z) : outcome Address :=
  if decide (length b = 20%nat) then Ret (be_value b)
  else Throw (invalid_argument "Given bytes range is not suitable for initializing a FixedBytes").
Definition address_bytes (a : Address) : list Z := be_bytes 20 a.
#[global] Arguments address_bytes : simpl never.

Record BaseContract := mkBase {
  contractAddress_ : Address;
  contractName_ : list Z;
  contractCreator_ : Address;
  contractChainId_ : Z;
}.

Definition prefix_of (a : Address) : list Z := pfx_contracts ++ address_bytes a.
Definition getDBPrefix (b : BaseContract) : list Z := prefix_of (contractAddress_ b).
Definition getNewPrefix (newPrefix : string) (b : BaseContract) : list Z := getDBPrefix b ++ string_bytes newPrefix.

Definition base_dump (b : BaseContract) : DBBatch :=
  let p := getDBPrefix b in
  push_back (string_bytes "contractChainId_") (uint64ToBytes (contractChainId_ b)) p
  (push_back (string_bytes "contractCreator_") (address_bytes (contractCreator_ b)) p
  (push_back (string_bytes "contractAddress_") (address_bytes (contractAddress_ b)) p
  (push_back (string_bytes "contractName_") (contractName_ b) p batch_nil))).

Definition base_ok (b : BaseContract) : Prop :=
  in_range 160 (contractAddress_ b) ∧ in_range 160 (contractCreator_ b) ∧ in_range 64 (contractChainId_ b).

Section base.
Context {R : RocksDB}.

Definition base_load (address : Address) (d : rocks) : outcome BaseContract :=
  let p := prefix_of address in
  let name := db_get (string_bytes "contractName_") p d in
  creator ← Address_make (db_get (string_bytes "contractCreator_") p d) ;
  chainId ← bytesToUint64 (db_get (string_bytes "contractChainId_") p d) ;
  Ret (mkBase address name creator chainId).

(** ** Entries of a dump *)

(** A list of entries in which a key has one value only. *)
Definition functional (l : list Entry) : Prop := ∀ k v v', (k, v) ∈ l → (k, v') ∈ l → v = v'.

(** The database has exactly the entries of a dump under a prefix. *)
Definition stored (p : list Z) (l : list Entry) (d : rocks) : Prop :=
  ∀ k v, Get (p ++ k) d = Some v ↔ (p ++ k, v) ∈ l.

Lemma assoc_last_functional k v l : functional l → assoc_last k l = Some v ↔ (k, v) ∈ l.
Proof.
  intros Hf. split; [apply assoc_last_elem|]. intros Hin. apply assoc_last_unique; [done|].
  intros v' Hv'. by apply (Hf k v' v).
Qed.

Lemma stored_get p l d k v : stored p l d → (p ++ k, v) ∈ l → db_get k p d = v.
Proof. intros Hs Hin. unfold db_get. by rewrite (proj2 (Hs k v) Hin). Qed.

Lemma stored_scan p q l d k v : stored p l d → (k, v) ∈ getBatch (p ++ q) [] d ↔ (p ++ q ++ k, v) ∈ l.
Proof.
  intros Hs. change (getBatch (p ++ q) [] d) with (scan (p ++ q) d). rewrite elem_of_scan, <- (assoc_L (++)).
  apply (Hs (q ++ k) v).
Qed.

Lemma address_bytes_read a : in_range 160 a → Address_make (address_bytes a) = Ret a.
Proof.
  intros Ha. unfold Address_make, address_bytes. rewrite decide_True by apply be_bytes_length.
  by rewrite be_value_bytes.
Qed.
Lemma address_bytes_inj a b : in_range 160 a → in_range 160 b → address_bytes a = address_bytes b → a = b.
Proof. intros Ha Hb E%(f_equal be_value). unfold address_bytes in E. by rewrite !be_value_bytes in E. Qed.
End base.

(** ** Iteration over unordered maps *)

(** The order in which [boost::unordered_flat_map] is walked is not specified. *)
Class Walk := {
  walk : ∀ {K V : Type} `{Countable K}, gmap K V → list (K * V);
  elem_of_walk : ∀ {K V : Type} `{Countable K} (m : gmap K V) k v, (k, v) ∈ walk m ↔ m !! k = Some v;
  walk_nodup : ∀ {K V : Type} `{Countable K} (m : gmap K V), NoDup (walk m);
}.
#[global, program] Instance walk_sorted : Walk := {| walk := λ K V _ _ m, map_to_list m |}.
Next Obligation. intros. apply elem_of_map_to_list. Qed.
Next Obligation. intros. apply NoDup_map_to_list. Qed.
Lemma walk_perm {WK : Walk} {K V : Type} `{Countable K} (m : gmap K V) : walk m ≡ₚ map_to_list m.
Proof.
  apply NoDup_Permutation; [apply walk_nodup|apply NoDup_map_to_list|]. intros [k v]. by rewrite elem_of_walk, elem_of_map_to_list.
Qed.

(** ** Dumps by groups *)

(** A dump writes groups of entries, each under a tag behind the prefix of the
    contract: one entry for a field, several for a map. *)
Definition push_all (l : list Entry) (p : list Z) (b : DBBatch) : DBBatch :=
  fold_left (λ b e, push_back e.1 e.2 p b) l b.
(** [for (item : other.getPuts()) push_back(item)], and the same for the deletions. *)
Definition append_batch (b other : DBBatch) : DBBatch :=
  mkBatch (puts_ (fold_left (λ b e, push_entry e b) (puts_ other) b)) (dels_ b ++ dels_ other).
Lemma append_batch_puts b other : append_batch b other = mkBatch (puts_ b ++ puts_ other) (dels_ b ++ dels_ other).
Proof.
  unfold append_batch. f_equal. generalize (puts_ other) as l. intros l. revert b.
  induction l as [|e l IH]; intros b; cbn; [by rewrite app_nil_r|]. rewrite IH. cbn. by rewrite <- (assoc_L (++)).
Qed.
Definition Group : Type := string * list Entry.
Definition group_entries (p : list Z) (g : Group) : list Entry :=
  map (λ e, (p ++ string_bytes g.1 ++ e.1, e.2)) g.2.
Definition field (tag : string) (v : list Z) : Group := (tag, [([], v)]).
Definition base_groups (b : BaseContract) : list Group :=
  [field "contractName_" (contractName_ b); field "contractAddress_" (address_bytes (contractAddress_ b));
   field "contractCreator_" (address_bytes (contractCreator_ b));
   field "contractChainId_" (uint64ToBytes (contractChainId_ b))].

(** No tag begins with another. *)
Definition prefix_free (ts : list string) : bool :=
  forallb (λ a, forallb (λ b, bool_decide (a = b) || negb (starts_with (string_bytes a) (string_bytes b))) ts) ts.
Definition grouped (p : list Z) (gs : list Group) (l : list Entry) : Prop :=
  prefix_free gs.*1 = true ∧ NoDup gs.*1 ∧ ∀ e, e ∈ l ↔ ∃ g, g ∈ gs ∧ e ∈ group_entries p g.

Lemma push_all_batch l p b : push_all l p b = mkBatch (puts_ b ++ map (λ e, (p ++ e.1, e.2)) l) (dels_ b).
Proof.
  revert b. induction l as [|e l IH]; intros b; cbn; [rewrite app_nil_r; by destruct b|]. unfold push_all in IH. rewrite IH.
  cbn. by rewrite <- (assoc_L (++)).
Qed.

Lemma tags_split ts a b s s' : prefix_free ts = true → a ∈ ts → b ∈ ts →
  string_bytes a ++ s = string_bytes b ++ s' → a = b ∧ s = s'.
Proof.
  intros Hp Ha Hb E.
  assert (Hno : ∀ a b, a ∈ ts → b ∈ ts → (∃ r, string_bytes b = string_bytes a ++ r) → a = b).
  { clear -Hp. intros a b Ha Hb Hr. unfold prefix_free in Hp. rewrite forallb_forall in Hp.
    specialize (Hp a (proj1 (list_elem_of_In _ _) Ha)). rewrite forallb_forall in Hp.
    specialize (Hp b (proj1 (list_elem_of_In _ _) Hb)). apply orb_prop in Hp as [Hp%bool_decide_eq_true|Hp]; [done|].
    by rewrite (proj2 (starts_with_spec _ _) Hr) in Hp. }
  assert (Heq : a = b).
  { apply app_eq_inv in E as [(r & Hr & _)|(r & Hr & _)]; [symmetry|]; eapply Hno; eauto. }
  subst b. split; [done|]. by apply app_inv_head in E.
Qed.

Lemma tag_in t es (gs : list Group) : (t, es) ∈ gs → t ∈ gs.*1.
Proof. intros Hg. apply list_elem_of_fmap. by exists (t, es). Qed.
Lemma grouped_elem p gs l t es k v : grouped p gs l → (t, es) ∈ gs → (p ++ string_bytes t ++ k, v) ∈ l ↔ (k, v) ∈ es.
Proof.
  intros (Hp & Hnd & Hl) Hg. rewrite Hl. split.
  - intros ([t' es'] & Hg' & He). unfold group_entries in He. cbn in He.
    apply list_elem_of_fmap in He as ([k' v'] & E & He). injection E as E ->. apply app_inv_head in E.
    apply (tags_split gs.*1) in E as [<- ->]; [|done|by eapply tag_in|by eapply tag_in].
    assert (es = es') as ->; [|done]. clear -Hnd Hg Hg'. revert Hnd Hg Hg'.
    induction gs as [|[t0 es0] gs IH]; [set_solver|]. cbn. rewrite NoDup_cons, !elem_of_cons. intros [Hni Hnd] [E|Hg] [E'|Hg'].
    + congruence.
    + injection E as -> ->. exfalso. apply Hni. by eapply tag_in.
    + injection E' as -> ->. exfalso. apply Hni. by eapply tag_in.
    + by apply IH.
  - intros He. exists (t, es). split; [done|]. unfold group_entries. apply list_elem_of_fmap. by exists (k, v).
Qed.

Lemma grouped_functional p gs l : grouped p gs l → Forall (λ g, functional g.2) gs → functional l.
Proof.
  intros Hgr Hf k v v' Hv Hv'. pose proof Hgr as (_ & _ & Hl). apply Hl in Hv as ([t es] & Hg & Hin).
  apply list_elem_of_fmap in Hin as ([s v0] & [= -> ->] & Hin). apply (grouped_elem _ _ _ _ _ _ _ Hgr Hg) in Hv'.
  rewrite Forall_forall in Hf. by apply (Hf _ Hg s v0 v').
Qed.

Lemma elem_of_groups p gs e : e ∈ concat (map (group_entries p) gs) ↔ ∃ g, g ∈ gs ∧ e ∈ group_entries p g.
Proof.
  rewrite list_elem_of_In, in_concat. split.
  - intros (es & Hes & He). apply in_map_iff in Hes as (g & <- & Hg). exists g. by rewrite !list_elem_of_In.
  - intros (g & Hg & He). exists (group_entries p g). split; [apply in_map|]; by apply list_elem_of_In.
Qed.
Lemma grouped_intro p gs l : prefix_free gs.*1 = true → bool_decide (NoDup gs.*1) = true →
  l = concat (map (group_entries p) gs) → grouped p gs l.
Proof. intros Hp Hn%bool_decide_eq_true ->. split_and!; [done|done|]. apply elem_of_groups. Qed.
Lemma grouped_prefix p gs l k v : grouped p gs l → (k, v) ∈ l → ∃ s, k = p ++ s.
Proof.
  intros (_ & _ & Hl) (g & _ & He)%Hl. apply list_elem_of_fmap in He as (e & [= -> _] & _). by eexists.
Qed.
Lemma push_all_group es p t b :
  push_all es (p ++ string_bytes t) b = mkBatch (puts_ b ++ group_entries p (t, es)) (dels_ b).
Proof.
  rewrite push_all_batch. f_equal. f_equal. unfold group_entries. apply map_ext. intros e. by rewrite <- (assoc_L (++)).
Qed.

(** Entries that repeat groups. *)
Lemma grouped_app p gs gs' l l' : grouped p gs l → gs' ⊆ gs → l' = concat (map (group_entries p) gs') → grouped p gs (l ++ l').
Proof.
  intros (Hp & Hn & Hl) Hsub ->. split_and!; [done|done|]. intros e. rewrite elem_of_app, Hl, elem_of_groups. split; [|by left].
  intros [?|(g & Hg & He)]; [done|]. exists g. split; [by apply Hsub|done].
Qed.

Lemma field_functional t v : functional (field t v).2.
Proof. intros k a b Ha Hb. apply list_elem_of_singleton in Ha, Hb. congruence. Qed.

(** Membership in a list that is written out. *)
Ltac in_list := repeat first [apply list_elem_of_here | apply list_elem_of_further].

Section grouped_db.
Context {R : RocksDB}.
Lemma grouped_get p gs l d t v : grouped p gs l → stored p l d → field t v ∈ gs → db_get (string_bytes t) p d = v.
Proof.
  intros Hgr Hs Hg. apply (stored_get p l); [done|]. rewrite <- (app_nil_r (string_bytes t)).
  apply (grouped_elem _ _ _ _ _ _ _ Hgr Hg), list_elem_of_singleton. done.
Qed.
Lemma grouped_batch p gs l d t es e : grouped p gs l → stored p l d → (t, es) ∈ gs →
  e ∈ getBatch (p ++ string_bytes t) [] d ↔ e ∈ es.
Proof. intros Hgr Hs Hg. destruct e as [k v]. rewrite (stored_scan p _ l) by done. by apply (grouped_elem _ gs). Qed.

Lemma base_load_groups gs l d b : base_ok b → base_groups b ⊆ gs → grouped (getDBPrefix b) gs l →
  stored (getDBPrefix b) l d → base_load (contractAddress_ b) d = Ret b.
Proof.
  intros (Ha & Hc & Hi) Hsub Hgr Hs. unfold base_load. change (prefix_of (contractAddress_ b)) with (getDBPrefix b).
  assert (Hg : ∀ t v, field t v ∈ base_groups b → db_get (string_bytes t) (getDBPrefix b) d = v).
  { intros t v Hg. apply (grouped_get _ gs l); [done|done|by apply Hsub]. }
  rewrite (Hg "contractName_" (contractName_ b)), (Hg "contractCreator_" (address_bytes (contractCreator_ b))),
    (Hg "contractChainId_" (uint64ToBytes (contractChainId_ b)))
    by in_list.
  rewrite address_bytes_read by done. destruct (u64_bytes (contractChainId_ b) Hi) as [-> E].
  cbn [mbind outcome_bind]. rewrite E. by destruct b.
Qed.
End grouped_db.

(** ** What a stored contract type promises *)

(** [c_same c c']: a contract and the one loaded from its dump answer alike. *)
Class StoredContract {R : RocksDB} (C : Type) := {
  c_base : C → BaseContract;
  c_dump : C → DBBatch;
  c_load : Address → rocks → outcome C;
  c_ok : C → Prop;
  c_same : C → C → Prop;
  c_ok_base : ∀ c, c_ok c → base_ok (c_base c);
  c_dump_dels : ∀ c, dels_ (c_dump c) = [];
  c_dump_prefix : ∀ c k v, (k, v) ∈ puts_ (c_dump c) → ∃ s, k = getDBPrefix (c_base c) ++ s;
  c_dump_functional : ∀ c, c_ok c → functional (puts_ (c_dump c));
  c_load_dump : ∀ c d, c_ok c → stored (getDBPrefix (c_base c)) (puts_ (c_dump c)) d →
    ∃ c', c_load (contractAddress_ (c_base c)) d = Ret c' ∧ c_base c' = c_base c ∧ c_same c c';
}.

(** A dump put into a database without keys of the contract is stored there. *)
Lemma stored_putBatch {R : RocksDB} {C} {SC : StoredContract C} (c : C) d : c_ok c →
  (∀ k, Get (getDBPrefix (c_base c) ++ k) d = None) →
  stored (getDBPrefix (c_base c)) (puts_ (c_dump c)) (putBatch (c_dump c) d).
Proof.
  intros Hok Hd k v. rewrite Get_putBatch, c_dump_dels. rewrite <- (assoc_last_functional _ _ _ (c_dump_functional c Hok)).
  destruct (assoc_last _ _) as [w|]; [done|]. rewrite decide_False by apply not_elem_of_nil. by rewrite Hd.
Qed.

(** ** Filling a map from entries *)

Section load_map.
Context {K V : Type} `{Countable K}.

(** [for (const auto& dbEntry : db.getBatch(p)) m[key] = value;]: [dec] computes
    the key and what is written (the right-hand side is evaluated first), then
    [operator[]] inserts [dflt] where the key is absent. *)
Definition load_map (dflt : V) (dec : Entry → outcome (K * (V → V))) (l : list Entry) : M (SafeMap K V) unit :=
  for_each (λ e, u ← lift (dec e) ; old ← map_index dflt u.1 ; map_write u.1 (u.2 old)) l.

(** The commit and [enableRegister] that end a constructor. *)
Definition committed (x : SafeMap K V) : SafeMap K V :=
  mkSafeMap (enableRegister (unregister (sm_base x))) (sm_value x) ∅.

Fixpoint filled (dflt : V) (upd : list (K * (V → V))) (m : gmap K V) : gmap K V :=
  match upd with [] => m | (k, f) :: upd => filled dflt upd (<[k := f (default dflt (m !! k))]> m) end.

Lemma load_map_run dflt dec l upd x :
  Forall2 (λ e u, dec e = Ret u) l upd →
  ∃ x', load_map dflt dec l x = (Ret (), x') ∧ sm_value x' = filled dflt upd (sm_value x).
Proof.
  intros Hl. revert x. induction Hl as [|e [k f] l upd Hk _ IH]; intros x; [by exists x|].
  unfold load_map. cbn [for_each]. unfold mbind at 1, M_bind at 1.
  unfold mbind at 1, M_bind at 1. unfold lift at 1. rewrite Hk. cbn [fst snd].
  unfold mbind at 1, M_bind at 1. rewrite map_index_touch, map_write_touch.
  destruct (IH (touch k (f (default dflt (sm_value x !! k))) x)) as (x' & Hx' & Hval).
  exists x'. split; [exact Hx'|]. rewrite Hval. unfold touch, set_map. done.
Qed.

(** Assignments of plain values: a map is read back from any list of its
    entries. *)
Lemma filled_lookup dflt (l : list (K * V)) m k :
  (∀ v v', (k, v) ∈ l → (k, v') ∈ l → v = v') →
  ∀ v, filled dflt (map (λ e, (e.1, λ _, e.2)) l) m !! k = Some v ↔ (k, v) ∈ l ∨ (m !! k = Some v ∧ k ∉ l.*1).
Proof.
  revert m. induction l as [|[k' v'] l IH]; intros m Hf v; cbn [map filled fst snd].
  { set_solver. }
  rewrite IH by set_solver. cbn. rewrite not_elem_of_cons, elem_of_cons. destruct (decide (k = k')) as [->|Hk].
  - rewrite lookup_insert_eq. split.
    + intros [Hin|[[= ->] _]]; [by left; right|by left; left].
    + intros [[[= ->]|Hin]|[_ [[] _]]]; [|by left|done]. destruct (decide (k' ∈ l.*1)) as [Hin|Hni]; [|by right].
      left. apply list_elem_of_fmap in Hin as ([k2 v2] & -> & Hin). cbn in *. by rewrite (Hf v' v2) by set_solver.
  - rewrite lookup_insert_ne by done. naive_solver.
Qed.

Lemma load_map_values dflt (enc : K → V → Entry) (dec : Entry → outcome (K * (V → V))) (l : list Entry) (m : gmap K V) x :
  (∀ e, e ∈ l ↔ ∃ k v, m !! k = Some v ∧ e = enc k v) →
  (∀ k v, m !! k = Some v → dec (enc k v) = Ret (k, λ _, v)) → sm_value x = ∅ →
  ∃ x', load_map dflt dec l x = (Ret (), x') ∧ sm_value x' = m.
Proof.
  intros Hl Hd Hx.
  assert (∃ kvs : list (K * V), Forall2 (λ e kv, e = enc kv.1 kv.2 ∧ m !! kv.1 = Some kv.2) l kvs) as [kvs Hk].
  { assert (Hl' : ∀ e, e ∈ l → ∃ k v, m !! k = Some v ∧ e = enc k v) by (intros e He; by apply Hl). clear Hl.
    induction l as [|e l IH]; [by exists []|]. destruct IH as [kvs Hk]; [set_solver|].
    destruct (Hl' e) as (k & v & Hm & ->); [set_solver|]. exists ((k, v) :: kvs). by constructor. }
  destruct (load_map_run dflt dec l (map (λ e, (e.1, λ _, e.2)) kvs) x) as (x' & Hr & Hv).
  { clear Hl Hx. induction Hk as [|e [k v] l kvs [-> Hm] _ IH]; constructor; [by apply Hd|done]. }
  exists x'. split; [done|]. rewrite Hv, Hx.
  assert (Hin : ∀ k v, (k, v) ∈ kvs ↔ m !! k = Some v).
  { intros k v. split.
    - intros Hi. apply list_elem_of_lookup in Hi as [i Hi]. destruct (Forall2_lookup_r _ _ _ _ _ Hk Hi) as (e & _ & _ & Hm). done.
    - intros Hm. assert (He : enc k v ∈ l) by (apply Hl; eauto). apply list_elem_of_lookup in He as [i Hi].
      destruct (Forall2_lookup_l _ _ _ _ _ Hk Hi) as ([k' v'] & Hi' & E & Hm').
      assert (Heq : Ret (A := K * (V → V)) (k, λ _, v) = Ret (k', λ _, v')) by (rewrite <- (Hd k v Hm), <- (Hd k' v' Hm'), E; done).
      injection Heq as -> Hvv. apply (f_equal (λ f, f v)) in Hvv. subst. by eapply list_elem_of_lookup_2. }
  apply map_eq. intros k. apply option_eq. intros v. rewrite filled_lookup, lookup_empty, Hin.
  - naive_solver.
  - intros v1 v2. rewrite !Hin. congruence.
Qed.
End load_map.

(** A map of maps, one entry for each pair of keys: it is read back up to inner
    maps that are empty. *)
Section load_nested.
Context {K K' V : Type} `{Countable K} `{Countable K'}.
Implicit Types m : gmap K (gmap K' V).

Definition at2 m (k : K) (k' : K') : option V := default ∅ (m !! k) !! k'.

Lemma filled_nested (l : list (K * K' * V)) m k k' :
  (∀ v v', (k, k', v) ∈ l → (k, k', v') ∈ l → v = v') →
  ∀ v, at2 (filled ∅ (map (λ t, (t.1.1, λ inner, <[t.1.2 := t.2]> inner)) l) m) k k' = Some v ↔
    (k, k', v) ∈ l ∨ (at2 m k k' = Some v ∧ (k, k') ∉ l.*1).
Proof.
  revert m. induction l as [|[[k0 k0'] v0] l IH]; intros m Hf v; cbn [map filled fst snd].
  { set_solver. }
  rewrite IH by set_solver. cbn. rewrite not_elem_of_cons, elem_of_cons. unfold at2 at 1.
  destruct (decide ((k, k') = (k0, k0'))) as [[= <- <-]|Hk].
  - rewrite lookup_insert_eq. cbn. rewrite lookup_insert_eq. split.
    + intros [Hin|[[= ->] _]]; [by left; right|by left; left].
    + intros [[[= ->]|Hin]|[_ [[] _]]]; [|by left|done].
      destruct (decide ((k, k') ∈ l.*1)) as [Hin|Hni]; [|by right].
      left. apply list_elem_of_fmap in Hin as ([[k2 k2'] v2] & [= -> ->] & Hin). by rewrite (Hf v0 v2) by set_solver.
  - assert (E : default ∅ (<[k0:=<[k0':=v0]> (default ∅ (m !! k0))]> m !! k) !! k' = at2 m k k').
    { unfold at2. destruct (decide (k = k0)) as [->|]; [|by rewrite lookup_insert_ne].
      rewrite lookup_insert_eq. cbn. by rewrite lookup_insert_ne by congruence. }
    rewrite E. naive_solver.
Qed.

Lemma load_nested_values (enc : K → K' → V → Entry) (dec : Entry → outcome (K * (gmap K' V → gmap K' V)))
    (l : list Entry) m x :
  (∀ e, e ∈ l ↔ ∃ k k' v, at2 m k k' = Some v ∧ e = enc k k' v) →
  (∀ k k' v, at2 m k k' = Some v → dec (enc k k' v) = Ret (k, λ inner, <[k' := v]> inner)) → sm_value x = ∅ →
  ∃ x', load_map ∅ dec l x = (Ret (), x') ∧ ∀ k k', at2 (sm_value x') k k' = at2 m k k'.
Proof.
  intros Hl Hd Hx.
  assert (∃ ts : list (K * K' * V), Forall2 (λ e t, e = enc t.1.1 t.1.2 t.2 ∧ at2 m t.1.1 t.1.2 = Some t.2) l ts) as [ts Hk].
  { assert (Hl' : ∀ e, e ∈ l → ∃ k k' v, at2 m k k' = Some v ∧ e = enc k k' v) by (intros e He; by apply Hl). clear Hl.
    induction l as [|e l IH]; [by exists []|]. destruct IH as [ts Hk]; [set_solver|].
    destruct (Hl' e) as (k & k' & v & Hm & ->); [set_solver|]. exists ((k, k', v) :: ts). by constructor. }
  destruct (load_map_run ∅ dec l (map (λ t, (t.1.1, λ inner, <[t.1.2 := t.2]> inner)) ts) x) as (x' & Hr & Hv).
  { clear Hl Hx. induction Hk as [|e [[k k'] v] l ts [-> Hm] _ IH]; constructor; [by apply Hd|done]. }
  exists x'. split; [done|]. rewrite Hv, Hx.
  assert (Hin : ∀ k k' v, (k, k', v) ∈ ts ↔ at2 m k k' = Some v).
  { intros k k' v. split.
    - intros Hi. apply list_elem_of_lookup in Hi as [i Hi]. destruct (Forall2_lookup_r _ _ _ _ _ Hk Hi) as (e & _ & _ & Hm). done.
    - intros Hm. assert (He : enc k k' v ∈ l) by (apply Hl; eauto). apply list_elem_of_lookup in He as [i Hi].
      destruct (Forall2_lookup_l _ _ _ _ _ Hk Hi) as ([[k2 k2'] v2] & Hi' & E & Hm'). cbn in *.
      pose proof (Hd k k' v Hm) as E1. rewrite E, (Hd k2 k2' v2 Hm') in E1. injection E1 as -> Hf.
      apply (f_equal (λ f, f ∅ !! k')) in Hf. rewrite lookup_insert_eq in Hf.
      apply lookup_insert_Some in Hf as [[<- ->]|[_ Hf]]; [by eapply list_elem_of_lookup_2|]. by rewrite lookup_empty in Hf. }
  intros k k'. apply option_eq. intros v. rewrite filled_nested, Hin.
  - unfold at2 at 2. rewrite lookup_empty. cbn. rewrite lookup_empty. naive_solver.
  - intros v1 v2. rewrite !Hin. congruence.
Qed.
End load_nested.

(** The map a loading constructor ends with. *)
Definition loaded {K V} `{Countable K} (m : M (SafeMap K V) unit) : outcome (SafeMap K V) :=
  match m (map_owned ∅) with (Ret _, x) => Ret (committed x) | (Throw e, _) => Throw e end.
