(* ===== verification/Ownable.v ===== *)
(** * Ownable contracts

    Models src/contract/templates/ownable.h and ownable.cpp: the owner of a
    contract, the guard [onlyOwner], transfer and renunciation, and the database
    form.  The loading constructor is the one outside of the test network.
    [Ownable] is the first contract type that keeps the promises of
    [StoredContract]. *)

From S2P Require Import Prelude CheckedInt ExecutionContext Bytes SafeBase SafeScalars SafeMap Conv Abi DB BaseContract.

Record Ownable := mkOwnable {
  own_base : BaseContract;
  owner_ : SafeAddress;
  own_events : list (Address * Address);
}.
Definition set_owner v s := mkOwnable (own_base s) v (own_events s).

(** [ownershipTransferred] *)
Definition ownershipTransferred (previousOwner newOwner : Address) : M Ownable unit :=
  modify (λ s, mkOwnable (own_base s) (owner_ s) (own_events s ++ [(previousOwner, newOwner)])).

Definition checkOwner_ (caller : Address) : M Ownable unit :=
  s ← gets id ;
  throw_if (negb (address_eq (owner_ s) caller)) (DynamicException "Ownable: caller is not the owner").
Definition transferOwnership_ (newOwner : Address) : M Ownable unit :=
  prevOwner ← gets (λ s, value_ (owner_ s)) ;
  zoom owner_ set_owner (address_assign newOwner) ;;
  ownershipTransferred prevOwner newOwner.

Definition onlyOwner (caller : Address) : M Ownable unit := checkOwner_ caller.
Definition owner (s : Ownable) : Address := value_ (owner_ s).
Definition renounceOwnership (caller : Address) : M Ownable unit :=
  onlyOwner caller ;; transferOwnership_ 0.
Definition transferOwnership (caller newOwner : Address) : M Ownable unit :=
  onlyOwner caller ;;
  throw_if (newOwner =? 0) (DynamicException "Ownable: new owner is the zero address") ;;
  transferOwnership_ newOwner.

(** A scalar variable as the constructors leave it. *)
Definition scalar_made {T} (v : T) : Scalar T := mkScalar (enableRegister (unregister (mkSafeBase true false false))) v v.

Definition Ownable_new (derivedTypeName : string) (initialOwner address creator : Address) (chainId : Z) : Ownable :=
  mkOwnable (mkBase address (string_bytes derivedTypeName) creator chainId) (scalar_made initialOwner) [].

(** ** Calls *)

Inductive OwnableOp := ORenounce (caller : Address) | OTransferOwnership (caller newOwner : Address) | OOnlyOwner (caller : Address).
Definition own_op (o : OwnableOp) : M Ownable unit :=
  match o with
  | ORenounce caller => renounceOwnership caller
  | OTransferOwnership caller newOwner => transferOwnership caller newOwner
  | OOnlyOwner caller => onlyOwner caller
  end.
(** A call as the host runs it. *)
Definition own_call (o : OwnableOp) : M Ownable unit := λ s,
  match own_op o s with
  | (Ret _, s') => zoom owner_ set_owner scalar_commit s'
  | (Throw e, s') => let '(r, s2) := zoom owner_ set_owner scalar_revert s' in
      (r ;; Throw e, mkOwnable (own_base s2) (owner_ s2) (own_events s))
  end.
Definition own_run (ops : list OwnableOp) (s : Ownable) : Ownable := fold_left (λ s o, (own_call o s).2) ops s.

(** ** The owner *)

(** Who owns the contract after a call: the specification. *)
Definition next_owner (o : OwnableOp) (current : Address) : Address :=
  match o with
  | ORenounce caller => if caller =? current then 0 else current
  | OTransferOwnership caller newOwner =>
      if (caller =? current) && negb (newOwner =? 0) then newOwner else current
  | OOnlyOwner _ => current
  end.
Definition own_clean (s : Ownable) : Prop := copy_ (owner_ s) = value_ (owner_ s).

Lemma own_call_spec o s : own_clean s →
  own_clean (own_call o s).2 ∧ own_base (own_call o s).2 = own_base s ∧ owner (own_call o s).2 = next_owner o (owner s) ∧
  ((own_call o s).1 = Ret () ∨ owner (own_call o s).2 = owner s ∧ own_events (own_call o s).2 = own_events s).
Proof.
  unfold own_clean, owner. intros Hc. destruct s as [b [sb v c] ev]. cbn in Hc. subst c.
  destruct o as [caller|caller newOwner|caller]; unfold own_call, own_op, renounceOwnership, transferOwnership, onlyOwner,
    checkOwner_, transferOwnership_, ownershipTransferred, address_eq, address_assign, mark_assign, zoom, throw_if, next_owner;
    cbv [mbind M_bind gets modify throw mret M_ret id lift]; cbn; rewrite (Z.eqb_sym v caller).
  - destruct (caller =? v); cbn; split_and!; auto.
  - destruct (caller =? v); cbn; [|split_and!; auto]. destruct (newOwner =? 0); cbn; split_and!; auto.
  - destruct (caller =? v); cbn; split_and!; auto.
Qed.

(** The owner of a contract is changed by its owner only.  After any calls by
    anybody the owner is the one the specification [next_owner] gives, which
    takes a call into account only if the owner of that moment made it; a call
    that throws changes neither the owner nor the events; and once a contract is
    without an owner only the zero address could take it. *)
Theorem ownership_moves_by_owner (ops : list OwnableOp) (name : string) (initialOwner address creator : Address) (chainId : Z) :
  let s := own_run ops (Ownable_new name initialOwner address creator chainId) in
  owner s = fold_left (λ a o, next_owner o a) ops initialOwner ∧
  (∀ o, (own_call o s).1 ≠ Ret () → owner (own_call o s).2 = owner s ∧ own_events (own_call o s).2 = own_events s) ∧
  (∀ o, owner (own_call o s).2 ≠ owner s →
     match o with ORenounce c | OTransferOwnership c _ => c = owner s | OOnlyOwner _ => False end).
Proof.
  assert (Hrun : ∀ ops s, own_clean s → own_clean (own_run ops s) ∧
    owner (own_run ops s) = fold_left (λ a o, next_owner o a) ops (owner s)).
  { induction ops0 as [|o ops0 IH]; intros s Hs; [done|]. destruct (own_call_spec o s Hs) as (Hc & _ & Ho & _).
    destruct (IH _ Hc) as [Hc' Ho']. split; [exact Hc'|]. cbn. unfold own_run in *. cbn. by rewrite Ho', Ho. }
  destruct (Hrun ops (Ownable_new name initialOwner address creator chainId)) as [Hc Ho]; [done|].
  cbn zeta. split_and!; [exact Ho| |]; intros o Hne;
    destruct (own_call_spec o _ Hc) as (_ & _ & Hn & [Hr|Hr]); try done.
  - rewrite Hn in Hne. destruct o as [c|c n|c]; unfold next_owner in Hne; [| |done].
    + by destruct (Z.eqb_spec c (owner (own_run ops (Ownable_new name initialOwner address creator chainId)))).
    + by destruct (Z.eqb_spec c (owner (own_run ops (Ownable_new name initialOwner address creator chainId)))).
  - by destruct Hr as [Hr _].
Qed.

(** ** The database form *)

Definition Ownable_dump (s : Ownable) : DBBatch :=
  push_back (string_bytes "owner_") (address_bytes (value_ (owner_ s))) (getDBPrefix (own_base s)) (base_dump (own_base s)).

Definition own_groups (s : Ownable) : list Group :=
  base_groups (own_base s) ++ [field "owner_" (address_bytes (value_ (owner_ s)))].

Section store.
Context {R : RocksDB}.

Definition Ownable_load (address : Address) (d : rocks) : outcome Ownable :=
  b ← base_load address d ;
  o ← Address_make (db_get (string_bytes "owner_") (getDBPrefix b) d) ;
  Ret (mkOwnable b (scalar_made o) []).

Definition own_ok (s : Ownable) : Prop := base_ok (own_base s) ∧ in_range 160 (value_ (owner_ s)).

Lemma Ownable_grouped s : grouped (getDBPrefix (own_base s)) (own_groups s) (puts_ (Ownable_dump s)).
Proof. by apply grouped_intro. Qed.

#[export, program] Instance Ownable_stored : StoredContract Ownable := {|
  c_base := own_base;
  c_dump := Ownable_dump;
  c_load := Ownable_load;
  c_ok := own_ok;
  c_same := λ s s', owner s' = owner s;
|}.
Next Obligation. by intros s [Hb _]. Qed.
Next Obligation. done. Qed.
Next Obligation. intros s k v. apply (grouped_prefix _ _ _ _ _ (Ownable_grouped s)). Qed.
Next Obligation.
  intros s _. eapply grouped_functional; [apply Ownable_grouped|]. repeat constructor; apply field_functional.
Qed.
Next Obligation.
  intros s d [Hb Ho] Hs. pose proof (Ownable_grouped s) as Hg. unfold Ownable_load.
  rewrite (base_load_groups (own_groups s) (puts_ (Ownable_dump s))); [|done|unfold own_groups; set_solver|done|done].
  cbn [mbind outcome_bind]. rewrite (grouped_get _ _ _ _ _ (address_bytes (value_ (owner_ s))) Hg Hs) by in_list.
  rewrite address_bytes_read by done. cbn. by eexists.
Qed.
End store.
