(* ===== verification/TokenStore.v ===== *)
(** * ERC-20 tokens in the database

    Models [dump] and the loading constructor of src/contract/templates/standards/
    erc20.cpp, mintableerc20.cpp and nativewrapper.cpp on the tokens of [ERC20].
    Name, symbol and decimals are plain values: no operation changes them.  The
    members of the test helpers [generate] and [addall] are not stored. *)

From S2P Require Import Prelude CheckedInt ExecutionContext Bytes SafeBase SafeScalars SafeUint SafeMap Conv Abi Tx DB.
From S2P Require Import BaseContract Ownable ERC20.

Record ERC20Contract := mkToken {
  tok_base : BaseContract;
  name_ : list Z;
  symbol_ : list Z;
  decimals_ : Z;
  token : ERC20;
}.
Definition balances_of (c : ERC20Contract) : gmap Address Z := sm_value (balances_ (token c)).
Definition allowed_of (c : ERC20Contract) : gmap Address (gmap Address Z) := sm_value (allowed_ (token c)).

(** The view [key.subspan(0, 20)] and [key.subspan(20)] of a pair of addresses. *)
Definition split20 (k : list Z) : outcome (Address * Address) :=
  if decide (length k < 20)%nat then Throw undefined_behaviour
  else a ← Address_make (take 20 k) ; b ← Address_make (drop 20 k) ; Ret (a, b).
Lemma split20_pair a b : in_range 160 a → in_range 160 b → split20 (address_bytes a ++ address_bytes b) = Ret (a, b).
Proof.
  intros Ha Hb. unfold split20. assert (Hl : ∀ x, length (address_bytes x) = 20%nat) by (intros; apply be_bytes_length).
  rewrite decide_False by (rewrite length_app, !Hl; lia). rewrite (take_app_length' _ _ 20), (drop_app_length' _ _ 20) by done.
  by rewrite !address_bytes_read by done.
Qed.

Section token.
Context {BI : BoostInt} {BB : BoostBits} {WK : Walk}.

(** The entries of the two maps. *)
Definition balance_entries (m : gmap Address Z) : list Entry :=
  map (λ kv, (address_bytes kv.1, uintToBytes kv.2)) (walk m).
Definition allowed_entries (m : gmap Address (gmap Address Z)) : list Entry :=
  flat_map (λ i, map (λ j, (address_bytes i.1 ++ address_bytes j.1, uint256ToBytes j.2)) (walk i.2)) (walk m).

Definition ERC20_dump (c : ERC20Contract) : DBBatch :=
  let b := tok_base c in let p := getDBPrefix b in
  push_all (allowed_entries (allowed_of c)) (getNewPrefix "allowed_" b)
  (push_all (balance_entries (balances_of c)) (getNewPrefix "balances_" b)
  (push_back (string_bytes "totalSupply_") (uint256ToBytes (totalSupply (token c))) p
  (push_back (string_bytes "decimals_") (uint8ToBytes (decimals_ c)) p
  (push_back (string_bytes "symbol_") (symbol_ c) p
  (push_back (string_bytes "name_") (name_ c) p (base_dump b)))))).

(** The loops of the loading constructor. *)
Definition dec_balance (e : Entry) : outcome (Address * (Z → Z)) :=
  v ← fromBigEndian 256 e.2 ; a ← Address_make e.1 ; Ret (a, λ _, v).
Definition dec_allowed (e : Entry) : outcome (Address * (gmap Address Z → gmap Address Z)) :=
  k ← split20 e.1 ; v ← bytesToUint256 e.2 ; Ret (k.1, λ inner, <[k.2 := v]> inner).

Context {R : RocksDB}.

Definition ERC20_load (address : Address) (d : rocks) : outcome ERC20Contract :=
  b ← base_load address d ;
  let p := getDBPrefix b in
  let name := db_get (string_bytes "name_") p d in
  let symbol := db_get (string_bytes "symbol_") p d in
  decimals ← bytesToUint8 (db_get (string_bytes "decimals_") p d) ;
  supply ← bytesToUint256 (db_get (string_bytes "totalSupply_") p d) ;
  balances ← loaded (load_map 0 dec_balance (getBatch (getNewPrefix "balances_" b) [] d)) ;
  allowed ← loaded (load_map ∅ dec_allowed (getBatch (getNewPrefix "allowed_" b) [] d)) ;
  Ret (mkToken b name symbol decimals (mkERC20 (scalar_made supply) balances allowed [])).

(** ** Round trip *)

Definition tok_groups (c : ERC20Contract) : list Group :=
  base_groups (tok_base c) ++
  [field "name_" (name_ c); field "symbol_" (symbol_ c); field "decimals_" (uint8ToBytes (decimals_ c));
   field "totalSupply_" (uint256ToBytes (totalSupply (token c))); ("balances_", balance_entries (balances_of c));
   ("allowed_", allowed_entries (allowed_of c))].

Definition tok_ok (c : ERC20Contract) : Prop :=
  base_ok (tok_base c) ∧ in_range 8 (decimals_ c) ∧ in_range 256 (totalSupply (token c)) ∧
  map_Forall (λ a v, in_range 160 a ∧ in_range 256 v) (balances_of c) ∧
  map_Forall (λ a m, in_range 160 a ∧ map_Forall (λ b v, in_range 160 b ∧ in_range 256 v) m) (allowed_of c).

(** Two tokens that answer alike. *)
Definition tok_same (c c' : ERC20Contract) : Prop :=
  name_ c' = name_ c ∧ symbol_ c' = symbol_ c ∧ decimals_ c' = decimals_ c ∧
  totalSupply (token c') = totalSupply (token c) ∧ (∀ a, balanceOf a (token c') = balanceOf a (token c)) ∧
  (∀ a b, allowance a b (token c') = allowance a b (token c)).

Lemma ERC20_dump_puts c : puts_ (ERC20_dump c) = concat (map (group_entries (getDBPrefix (tok_base c))) (tok_groups c)) ∧
  dels_ (ERC20_dump c) = [].
Proof.
  unfold ERC20_dump, getNewPrefix. rewrite !push_all_group. split; [|done]. cbn [puts_].
  unfold tok_groups. rewrite map_app, concat_app. cbn [map concat]. rewrite app_nil_r, !(assoc_L (++)). done.
Qed.
Lemma ERC20_grouped c : grouped (getDBPrefix (tok_base c)) (tok_groups c) (puts_ (ERC20_dump c)).
Proof. apply grouped_intro; [done|done|apply ERC20_dump_puts]. Qed.

Lemma elem_of_balances m e : e ∈ balance_entries m ↔ ∃ a v, m !! a = Some v ∧ e = (address_bytes a, uintToBytes v).
Proof.
  unfold balance_entries. rewrite list_elem_of_fmap. split.
  - intros ([a v] & -> & Hin%elem_of_walk). eauto.
  - intros (a & v & Hm%elem_of_walk & ->). by exists (a, v).
Qed.
Lemma elem_of_allowed m e : e ∈ allowed_entries m ↔
  ∃ a b v, at2 m a b = Some v ∧ e = (address_bytes a ++ address_bytes b, uint256ToBytes v).
Proof.
  unfold allowed_entries. rewrite list_elem_of_In, in_flat_map. split.
  - intros ([a i] & Hi & He). apply list_elem_of_In, elem_of_walk in Hi.
    apply list_elem_of_In, list_elem_of_fmap in He as ([b v] & -> & Hj%elem_of_walk).
    exists a, b, v. unfold at2. by rewrite Hi.
  - intros (a & b & v & Hm & ->). unfold at2 in Hm. destruct (m !! a) as [i|] eqn:Hi; [|cbn in Hm; by rewrite lookup_empty in Hm].
    exists (a, i). rewrite <- list_elem_of_In, elem_of_walk. split; [done|].
    apply list_elem_of_In, list_elem_of_fmap. exists (b, v). by rewrite elem_of_walk.
Qed.
Lemma at2_ok (m : gmap Address (gmap Address Z)) a b v :
  map_Forall (λ a m, in_range 160 a ∧ map_Forall (λ b v, in_range 160 b ∧ in_range 256 v) m) m →
  at2 m a b = Some v → in_range 160 a ∧ in_range 160 b ∧ in_range 256 v.
Proof.
  unfold at2. intros Hm Ha. destruct (m !! a) as [i|] eqn:Hi; [|cbn in Ha; by rewrite lookup_empty in Ha].
  destruct (Hm a i Hi) as [Hra Hmi]. by destruct (Hmi b v Ha).
Qed.

Lemma dec_balance_run k l a v : fromBigEndian 256 l = Ret v → Address_make k = Ret a → dec_balance (k, l) = Ret (a, λ _, v).
Proof. intros E1 E2. unfold dec_balance. cbn [fst snd]. by rewrite E1; cbn [mbind outcome_bind]; rewrite E2. Qed.
Lemma dec_allowed_run k l a b v : split20 k = Ret (a, b) → bytesToUint256 l = Ret v →
  dec_allowed (k, l) = Ret (a, λ inner, <[b := v]> inner).
Proof. intros E1 E2. unfold dec_allowed. cbn [fst snd]. by rewrite E1; cbn [mbind outcome_bind]; rewrite E2. Qed.
Lemma balance_read a v : in_range 160 a → in_range 256 v →
  dec_balance (address_bytes a, uintToBytes v) = Ret (a, λ _, v).
Proof. intros Ha Hv. apply dec_balance_run; [apply (uintToBytes_value 256 v Hv)|by apply address_bytes_read]. Qed.
Lemma allowed_read a b v : in_range 160 a → in_range 160 b → in_range 256 v →
  dec_allowed (address_bytes a ++ address_bytes b, uint256ToBytes v) = Ret (a, λ inner, <[b := v]> inner).
Proof. intros Ha Hb Hv. apply dec_allowed_run; [by apply split20_pair|apply (u256_bytes v Hv)]. Qed.

Lemma balances_functional m : map_Forall (λ a v, in_range 160 a ∧ in_range 256 v) m → functional (balance_entries m).
Proof.
  intros Hm k v v' (a & x & Ha & [-> ->]%pair_eq)%elem_of_balances (b & y & Hb & [E ->]%pair_eq)%elem_of_balances.
  destruct (Hm a x Ha), (Hm b y Hb). apply address_bytes_inj in E as ->; [|done|done]. congruence.
Qed.
Lemma allowed_functional m :
  map_Forall (λ a m, in_range 160 a ∧ map_Forall (λ b v, in_range 160 b ∧ in_range 256 v) m) m →
  functional (allowed_entries m).
Proof.
  intros Hm k v v' (a & b & x & Ha & [-> ->]%pair_eq)%elem_of_allowed (a' & b' & y & Hb & [E ->]%pair_eq)%elem_of_allowed.
  destruct (at2_ok _ _ _ _ Hm Ha) as (? & ? & _), (at2_ok _ _ _ _ Hm Hb) as (? & ? & _).
  apply (f_equal split20) in E. rewrite !split20_pair in E by done. injection E as -> ->. congruence.
Qed.

Lemma tok_groups_functional c : tok_ok c → Forall (λ g, functional g.2) (tok_groups c).
Proof.
  intros (_ & _ & _ & Hb & Ha). repeat (apply Forall_cons; split; [first [apply field_functional|by apply balances_functional|by apply allowed_functional]|]).
  constructor.
Qed.

Lemma load_balances c d : tok_ok c → (∀ e, e ∈ getBatch (getNewPrefix "balances_" (tok_base c)) [] d ↔ e ∈ balance_entries (balances_of c)) →
  ∃ x, loaded (load_map 0 dec_balance (getBatch (getNewPrefix "balances_" (tok_base c)) [] d)) = Ret x ∧ sm_value x = balances_of c.
Proof.
  intros (_ & _ & _ & Hb & _) Hl.
  destruct (load_map_values 0 (λ a v, (address_bytes a, uintToBytes v)) dec_balance
    (getBatch (getNewPrefix "balances_" (tok_base c)) [] d) (balances_of c) (map_owned ∅)) as (x & Hx & Hv); [|
    intros a v Hm; destruct (Hb a v Hm); by apply balance_read|done|].
  - intros e. by rewrite Hl, elem_of_balances.
  - unfold loaded. rewrite Hx. by eexists.
Qed.
Lemma load_allowed c d : tok_ok c → (∀ e, e ∈ getBatch (getNewPrefix "allowed_" (tok_base c)) [] d ↔ e ∈ allowed_entries (allowed_of c)) →
  ∃ x, loaded (load_map ∅ dec_allowed (getBatch (getNewPrefix "allowed_" (tok_base c)) [] d)) = Ret x ∧
    ∀ a b, at2 (sm_value x) a b = at2 (allowed_of c) a b.
Proof.
  intros (_ & _ & _ & _ & Ha) Hl.
  destruct (load_nested_values (λ a b v, (address_bytes a ++ address_bytes b, uint256ToBytes v)) dec_allowed
    (getBatch (getNewPrefix "allowed_" (tok_base c)) [] d) (allowed_of c) (map_owned ∅)) as (x & Hx & Hv); [|
    intros a b v Hm; destruct (at2_ok _ _ _ _ Ha Hm) as (? & ? & ?); by apply allowed_read|done|].
  - intros e. by rewrite Hl, elem_of_allowed.
  - unfold loaded. rewrite Hx. by eexists.
Qed.

(** What the constructor reads from any database that holds the groups. *)
Lemma ERC20_load_groups c gs l d : tok_ok c → tok_groups c ⊆ gs → grouped (getDBPrefix (tok_base c)) gs l →
  stored (getDBPrefix (tok_base c)) l d →
  ∃ c', ERC20_load (contractAddress_ (tok_base c)) d = Ret c' ∧ tok_base c' = tok_base c ∧ tok_same c c'.
Proof.
  intros Hok Hsub Hg Hs. pose proof Hok as (Hb & Hd & Hs' & _ & _). unfold ERC20_load.
  rewrite (base_load_groups gs l) by (done || (etrans; [|exact Hsub]; unfold tok_groups; set_solver)).
  cbn [mbind outcome_bind]. assert (Hget : ∀ t v, field t v ∈ tok_groups c → db_get (string_bytes t) (getDBPrefix (tok_base c)) d = v).
  { intros t v Ht. apply (grouped_get _ gs l); [done|done|by apply Hsub]. }
  rewrite (Hget "name_" (name_ c)), (Hget "symbol_" (symbol_ c)), (Hget "decimals_" (uint8ToBytes (decimals_ c))),
    (Hget "totalSupply_" (uint256ToBytes (totalSupply (token c)))) by in_list.
  destruct byte_codec as (Hc & _ & _). destruct (Hc (decimals_ c) Hd) as (_ & _ & ->). cbn [mbind outcome_bind].
  destruct (u256_bytes _ Hs') as [_ ->]. cbn [mbind outcome_bind].
  destruct (load_balances c d Hok) as (xb & -> & Hxb).
  { intros e. apply (grouped_batch _ gs l); [done|done|]. apply Hsub. in_list. }
  cbn [mbind outcome_bind]. destruct (load_allowed c d Hok) as (xa & -> & Hxa).
  { intros e. apply (grouped_batch _ gs l); [done|done|]. apply Hsub. in_list. }
  cbn [mbind outcome_bind]. eexists. split_and!; [done|done|]. unfold tok_same, totalSupply, balanceOf, allowance. cbn.
  split_and!; try done.
  - intros a. by rewrite Hxb.
  - intros a b. pose proof (Hxa a b) as E. unfold at2, allowed_of in E. by rewrite E.
Qed.

#[export, program] Instance ERC20_stored : StoredContract ERC20Contract := {|
  c_base := tok_base;
  c_dump := ERC20_dump;
  c_load := ERC20_load;
  c_ok := tok_ok;
  c_same := tok_same;
|}.
Next Obligation. by intros c [Hb _]. Qed.
Next Obligation. intros c. apply ERC20_dump_puts. Qed.
Next Obligation. intros c k v. apply (grouped_prefix _ _ _ _ _ (ERC20_grouped c)). Qed.
Next Obligation.
  intros c Hok. eapply grouped_functional; [apply ERC20_grouped|by apply tok_groups_functional].
Qed.
Next Obligation. intros c d Hok Hs. by apply (ERC20_load_groups c (tok_groups c) (puts_ (ERC20_dump c)) d Hok); [|apply ERC20_grouped|]. Qed.
End token.

(** ** Contracts built on the token *)

(** [NativeWrapper] adds no member and dumps the base class twice; [ERC20Mintable]
    is a token with an owner.  The virtual base class is one object. *)
Record NativeWrapper := mkNative { nw_token : ERC20Contract }.
Record ERC20Mintable := mkMintable { em_token : ERC20Contract; em_owner_ : SafeAddress }.
Definition em_owner (c : ERC20Mintable) : Ownable := mkOwnable (tok_base (em_token c)) (em_owner_ c) [].

Section derived.
Context {BI : BoostInt} {BB : BoostBits} {WK : Walk} {R : RocksDB}.

Definition NativeWrapper_dump (c : NativeWrapper) : DBBatch :=
  append_batch (ERC20_dump (nw_token c)) (base_dump (tok_base (nw_token c))).
Definition NativeWrapper_load (address : Address) (d : rocks) : outcome NativeWrapper :=
  t ← ERC20_load address d ; Ret (mkNative t).

Definition ERC20Mintable_dump (c : ERC20Mintable) : DBBatch :=
  append_batch (ERC20_dump (em_token c)) (Ownable_dump (em_owner c)).
Definition ERC20Mintable_load (address : Address) (d : rocks) : outcome ERC20Mintable :=
  t ← ERC20_load address d ; o ← Ownable_load address d ; Ret (mkMintable t (owner_ o)).

Lemma base_dump_puts b : puts_ (base_dump b) = concat (map (group_entries (getDBPrefix b)) (base_groups b)).
Proof. done. Qed.
Lemma Native_grouped c : grouped (getDBPrefix (tok_base (nw_token c))) (tok_groups (nw_token c)) (puts_ (NativeWrapper_dump c)).
Proof.
  unfold NativeWrapper_dump. rewrite append_batch_puts.
  apply (grouped_app _ _ (base_groups (tok_base (nw_token c)))); [apply ERC20_grouped|unfold tok_groups; set_solver|apply base_dump_puts].
Qed.

#[export, program] Instance Native_stored : StoredContract NativeWrapper := {|
  c_base := λ c, tok_base (nw_token c);
  c_dump := NativeWrapper_dump;
  c_load := NativeWrapper_load;
  c_ok := λ c, tok_ok (nw_token c);
  c_same := λ c c', tok_same (nw_token c) (nw_token c');
|}.
Next Obligation. by intros c [Hb _]. Qed.
Next Obligation. intros c. unfold NativeWrapper_dump. rewrite append_batch_puts. cbn [dels_]. by rewrite (proj2 (ERC20_dump_puts _)). Qed.
Next Obligation. intros c k v. apply (grouped_prefix _ _ _ _ _ (Native_grouped c)). Qed.
Next Obligation.
  intros c Hok. eapply grouped_functional; [apply Native_grouped|by apply tok_groups_functional].
Qed.
Next Obligation.
  intros c d Hok Hs. destruct (ERC20_load_groups (nw_token c) (tok_groups (nw_token c)) (puts_ (NativeWrapper_dump c)) d Hok)
    as (t & Ht & Hb & Hsame); [done|apply Native_grouped|done|].
  exists (mkNative t). unfold NativeWrapper_load. by rewrite Ht.
Qed.

Definition em_groups (c : ERC20Mintable) : list Group :=
  tok_groups (em_token c) ++ [field "owner_" (address_bytes (value_ (owner_ (em_owner c))))].
Definition em_ok (c : ERC20Mintable) : Prop :=
  tok_ok (em_token c) ∧ own_ok (em_owner c).
(** The puts of the owner's part repeat those of the base class. *)
Lemma Mintable_grouped c : grouped (getDBPrefix (tok_base (em_token c))) (em_groups c) (puts_ (ERC20Mintable_dump c)).
Proof.
  unfold ERC20Mintable_dump. rewrite append_batch_puts. cbn [puts_].
  split_and!; [done|apply (bool_decide_eq_true_1 _); done|].
  intros e. rewrite elem_of_app. destruct (ERC20_grouped (em_token c)) as (_ & _ & Hl). rewrite Hl.
  destruct (Ownable_grouped (em_owner c)) as (_ & _ & Hl'). rewrite Hl'. unfold em_groups, own_groups.
  setoid_rewrite elem_of_app. split.
  - intros [(g & Hg & He)|(g & [Hg|Hg] & He)]; exists g; (split; [|done]); [left; by apply elem_of_app| |by right].
    left. apply elem_of_app. by left.
  - intros (g & [Hg|Hg] & He); [left|right]; exists g; [apply elem_of_app in Hg|]; eauto.
Qed.

#[export, program] Instance Mintable_stored : StoredContract ERC20Mintable := {|
  c_base := λ c, tok_base (em_token c);
  c_dump := ERC20Mintable_dump;
  c_load := ERC20Mintable_load;
  c_ok := em_ok;
  c_same := λ c c', tok_same (em_token c) (em_token c') ∧ value_ (em_owner_ c') = value_ (em_owner_ c);
|}.
Next Obligation. by intros c ([Hb _] & _). Qed.
Next Obligation. intros c. unfold ERC20Mintable_dump. rewrite append_batch_puts. cbn [dels_]. by rewrite (proj2 (ERC20_dump_puts _)). Qed.
Next Obligation. intros c k v. apply (grouped_prefix _ _ _ _ _ (Mintable_grouped c)). Qed.
Next Obligation.
  intros c [Hok _]. eapply grouped_functional; [apply Mintable_grouped|]. unfold em_groups. apply Forall_app.
  split; [by apply tok_groups_functional|]. repeat constructor. apply field_functional.
Qed.
Next Obligation.
  intros c d [Hok [Hb Ho]] Hs. pose proof (Mintable_grouped c) as Hg.
  destruct (ERC20_load_groups (em_token c) (em_groups c) (puts_ (ERC20Mintable_dump c)) d Hok)
    as (t & Ht & Hb' & Hsame); [intros g Hg'; apply elem_of_app; by left|done|done|].
  unfold ERC20Mintable_load, Ownable_load. rewrite Ht. cbn [mbind outcome_bind].
  rewrite (base_load_groups (em_groups c) (puts_ (ERC20Mintable_dump c))) by (done || (intros g Hg'; do 2 (apply elem_of_app; left); done)).
  cbn [mbind outcome_bind]. rewrite (grouped_get _ _ _ _ "owner_" (address_bytes (value_ (em_owner_ c))) Hg Hs).
  - rewrite address_bytes_read by done. cbn. by eexists.
  - unfold em_groups. apply elem_of_app. right. in_list.
Qed.
End derived.

(** ** Tokens in use *)

(** The keys of the maps are addresses: [dom_ok] is kept by every operation whose
    arguments are addresses. *)
Definition dom_ok (s : ERC20) : Prop :=
  map_Forall (λ a _, in_range 160 a) (sm_value (balances_ s)) ∧
  map_Forall (λ a m, in_range 160 a ∧ map_Forall (λ b _, in_range 160 b) m) (sm_value (allowed_ s)).
Definition op_addresses (o : ERC20Op) : list Address :=
  match o with
  | OTransfer c t _ | OApprove c t _ => [c; t]
  | OTransferFrom c f t _ => [c; f; t]
  | OMint _ c t _ => [c; t]
  | OBurn c _ | ODeposit c _ | OWithdraw c _ => [c]
  end.
Definition call_ok (o : ERC20Op) : Prop := in_range 256 (op_value o) ∧ Forall (in_range 160) (op_addresses o).

Section dom.
Context {BI : BoostInt}.
Definition dom_rel (s s' : ERC20) : Prop := dom_ok s → dom_ok s'.
#[local] Instance dom_rel_preorder : PreOrder dom_rel.
Proof. split; [intros s Hs; exact Hs|]. intros s1 s2 s3 H1 H2 H. apply H2, H1, H. Qed.

Lemma inner_dom s a : dom_ok s → map_Forall (λ b _, in_range 160 b) (default ∅ (sm_value (allowed_ s) !! a)).
Proof.
  intros [_ Ha]. destruct (sm_value (allowed_ s) !! a) as [i|] eqn:E; [by destruct (Ha a i E)|]. apply map_Forall_empty.
Qed.
Lemma balance_dom f a : in_range 160 a → preserves dom_rel (balance_update f a).
Proof.
  intros Ha s [Hb Hal]. rewrite balance_update_run.
  destruct (f _); (split; [|exact Hal]); apply map_Forall_insert_2; done.
Qed.
Lemma allowed_dom s a i : in_range 160 a → map_Forall (λ b _, in_range 160 b) i → dom_rel s (set_allowed (touch a i (allowed_ s)) s).
Proof. intros Ha Hi [Hb Hal]. split; [exact Hb|]. by apply map_Forall_insert_2. Qed.
Lemma spend_dom a b v : in_range 160 a → in_range 160 b → preserves dom_rel (spend_allowance a b v).
Proof.
  intros Ha Hb s Hs. rewrite spend_allowance_run. destruct (usub _ _ _); apply allowed_dom; try done;
    apply map_Forall_insert_2; try done; by apply inner_dom.
Qed.
Lemma approve_dom a b v : in_range 160 a → in_range 160 b → preserves dom_rel (approve a b v).
Proof.
  intros Ha Hb s Hs. rewrite approve_run. apply (allowed_dom s a); try done.
  apply map_Forall_insert_2; [done|by apply inner_dom].
Qed.
Lemma supply_dom (m : M SafeUint_t unit) : preserves dom_rel (zoom totalSupply_ set_supply m).
Proof. intros s Hs. unfold zoom. by destruct (m (totalSupply_ s)). Qed.
Lemma emit_dom e : preserves dom_rel (emit e).
Proof. intros s Hs. exact Hs. Qed.

#[local] Ltac solve_dom :=
  repeat first
    [ apply balance_dom; done | apply spend_dom; done | apply approve_dom; done | apply emit_dom | apply supply_dom
    | apply preserves_ret; apply _ | apply preserves_gets; apply _ | apply preserves_throw_if; apply _
    | apply preserves_bind; [apply _| |intros ?] ].

Lemma erc_op_dom o : Forall (in_range 160) (op_addresses o) → preserves dom_rel (erc_op o).
Proof.
  intros Ho. destruct o; cbn [erc_op op_addresses] in *; repeat (apply Forall_cons in Ho as [? Ho]);
    unfold transfer, transferFrom, mintable_mint, mintable_burn, mint_, burnValue_, balance_add, balance_sub, supply_add, supply_sub;
    solve_dom.
Qed.

Lemma erc_call_dom o s : call_ok o → erc_inv s → dom_ok s → dom_ok (erc_call (erc_op o) s).2.
Proof.
  intros [_ Ho] (Hc & _ & _) Hd. destruct (erc_call_spec (erc_op o) s (erc_op_le o) Hc) as (s2 & -> & _ & _ & Hs).
  cbv zeta in Hs. pose proof (erc_op_dom o Ho s Hd) as H1. unfold dom_ok in *.
  destruct (erc_op o s) as [[[]|e] s1]; cbn [fst snd] in *; destruct Hs as [(_ & Hb & Hal) _]; by rewrite Hb, Hal.
Qed.

Lemma erc_run_ok ops s : Forall call_ok ops → erc_inv s → dom_ok s → erc_inv (erc_run ops s) ∧ dom_ok (erc_run ops s).
Proof.
  revert s. induction ops as [|o ops IH]; intros s Hops Hi Hd; [done|]. apply Forall_cons in Hops as [Ho Hops].
  apply (IH (erc_call (erc_op o) s).2); [done|apply erc_call_inv; [apply Ho|done]|by apply erc_call_dom].
Qed.

(** A token in use can be stored. *)
Lemma token_ok b name symbol decimals s : base_ok b → in_range 8 decimals → erc_inv s → dom_ok s →
  tok_ok (mkToken b name symbol decimals s).
Proof.
  intros Hb Hdec (_ & Hi & Ha) [Hdb Hda].
  assert (Hbal : ∀ a, in_range 256 (balanceOf a s)).
  { intros a. pose proof (balance_le_supply a s Hi). destruct Hi as (_ & _ & Hmax). unfold in_range. lia. }
  unfold tok_ok, balances_of, allowed_of. cbn. split_and!; [done|done| | |].
  - pose proof (balance_le_supply 0 s Hi). destruct Hi as (_ & _ & Hmax). unfold in_range. lia.
  - intros a v Hv. split; [by eapply Hdb|]. specialize (Hbal a). unfold balanceOf in Hbal. by rewrite Hv in Hbal.
  - intros a m Hm. destruct (Hda a m Hm) as [Hra Hrm]. split; [done|]. intros c v Hv. split; [by eapply Hrm|].
    specialize (Ha a c). unfold allowance in Ha. rewrite Hm in Ha. cbn in Ha. by rewrite Hv in Ha.
Qed.
End dom.

(** Tokens survive a restart.  A token that was created and called in any
    way, by any callers, succeeding or failing, is written to the database by
    [dump], and the loading constructor builds from it, in whatever order the
    maps are walked and whatever else the database holds outside of the prefix of
    the contract, a token with the same name, symbol, decimals, supply, balances
    and allowances. *)
Theorem token_survives_restart {BI : BoostInt} {BB : BoostBits} {WK : Walk} {R : RocksDB}
    (b : BaseContract) (name symbol : list Z) (decimals value : Z) (ops : list ERC20Op) (d : rocks) :
  base_ok b → in_range 8 decimals → in_range 256 value → Forall call_ok ops →
  (∀ k, Get (getDBPrefix b ++ k) d = None) →
  ∃ s0 c', ERC20_new (contractCreator_ b) value = Ret s0 ∧
    let c := mkToken b name symbol decimals (erc_run ops s0) in
    ERC20_load (contractAddress_ b) (putBatch (ERC20_dump c) d) = Ret c' ∧ tok_base c' = b ∧ tok_same c c'.
Proof.
  intros Hb Hdec Hv Hops Hd. exists (new_token (contractCreator_ b) value).
  destruct (erc_run_ok ops (new_token (contractCreator_ b) value) Hops) as [Hi Hdom].
  { by apply new_token_inv. }
  { split; [apply map_Forall_singleton, Hb|apply map_Forall_empty]. }
  set (c := mkToken b name symbol decimals (erc_run ops (new_token (contractCreator_ b) value))).
  pose proof (token_ok b name symbol decimals _ Hb Hdec Hi Hdom) as Hok. fold c in Hok.
  destruct (c_load_dump (StoredContract := ERC20_stored) c (putBatch (ERC20_dump c) d) Hok) as (c' & Hl & Hbase & Hsame).
  { by apply (stored_putBatch (SC := ERC20_stored)). }
  exists c'. split; [by apply ERC20_new_run|]. done.
Qed.

Lemma token_survives_restart_witness :
  ∃ s0 c', ERC20_new (BI := boost_ref) 5 1000 = Ret s0 ∧
    ERC20_load (BI := boost_ref) (R := sorted_store) 77 (putBatch (ERC20_dump
      (mkToken (mkBase 77 [65] 5 8080) [84] [84] 18 (erc_run (BI := boost_ref) [OTransfer 5 6 300; OApprove 5 7 40; OTransfer 6 5 301] s0)))
      empty_store) = Ret c' ∧ balanceOf 6 (token c') = 300 ∧ allowance 5 7 (token c') = 40.
Proof.
  destruct (token_survives_restart (BI := boost_ref) (R := sorted_store) (mkBase 77 [65] 5 8080) [84] [84] 18 1000
    [OTransfer 5 6 300; OApprove 5 7 40; OTransfer 6 5 301] empty_store) as (s0 & c' & E & Hl & _ & Hsame).
  - by vm_compute.
  - by vm_compute.
  - by vm_compute.
  - repeat (apply Forall_cons; split; [split; [by vm_compute|repeat constructor; by vm_compute]|]). apply Forall_nil_2.
  - done.
  - exists s0, c'. split; [exact E|]. split; [exact Hl|]. clear Hl. rewrite ERC20_new_run in E by (by vm_compute).
    injection E as <-. destruct Hsame as (_ & _ & _ & _ & Hb & Ha). rewrite Hb, Ha. split; reflexivity.
Defined.
