(* ===== verification/NftStore.v ===== *)
(** * ERC-721 tokens in the database

    Models [dump] and the loading constructor of src/contract/templates/standards/
    erc721.cpp on the collections of [ERC721].  Name and symbol are plain values:
    no operation changes them.  [dump] computes the entries of the operator
    approvals and does not write them, so these do not survive a restart. *)

From S2P Require Import Prelude CheckedInt ExecutionContext Bytes SafeBase SafeScalars SafeMap Conv Abi Tx DB.
From S2P Require Import BaseContract ERC721 TokenStore.

Record ERC721Contract := mkCollection {
  nft_base : BaseContract;
  nft_name : list Z;
  nft_symbol : list Z;
  nft : ERC721;
}.
Definition owners_of (c : ERC721Contract) : gmap Z Address := sm_value (owners_ (nft c)).
Definition counts_of (c : ERC721Contract) : gmap Address Z := sm_value (ERC721.balances_ (nft c)).
Definition approvals_of (c : ERC721Contract) : gmap Z Address := sm_value (tokenApprovals_ (nft c)).

Section store.
Context {BI : BoostInt} {WK : Walk}.

Definition id_entries (m : gmap Z Address) : list Entry := map (λ kv, (uintToBytes kv.1, address_bytes kv.2)) (walk m).
Definition count_entries (m : gmap Address Z) : list Entry := map (λ kv, (address_bytes kv.1, uintToBytes kv.2)) (walk m).

(** The local map [data]. *)
Definition nft_data (c : ERC721Contract) : gmap (list Z) (list Z) :=
  <[string_bytes "symbol_" := nft_symbol c]> {[ string_bytes "name_" := nft_name c ]}.

Definition ERC721_dump (c : ERC721Contract) : DBBatch :=
  let b := nft_base c in
  push_all (id_entries (approvals_of c)) (getNewPrefix "tokenApprovals_" b)
  (push_all (count_entries (counts_of c)) (getNewPrefix "balances_" b)
  (push_all (id_entries (owners_of c)) (getNewPrefix "owners_" b)
  (push_all (walk (nft_data c)) (getDBPrefix b) (base_dump b)))).

(** The loops of the loading constructor. *)
Definition dec_owner (e : Entry) : outcome (Z * (Address → Address)) :=
  a ← (if decide (length e.2 < 20)%nat then Throw undefined_behaviour else Address_make (take 20 e.2)) ;
  k ← fromBigEndian 64 e.1 ; Ret (k, λ _, a).
Definition dec_count (e : Entry) : outcome (Address * (Z → Z)) :=
  v ← fromBigEndian 64 e.2 ; a ← Address_make e.1 ; Ret (a, λ _, v).
Definition dec_approval (e : Entry) : outcome (Z * (Address → Address)) :=
  a ← Address_make e.2 ; k ← fromBigEndian 64 e.1 ; Ret (k, λ _, a).
Definition dec_operator (e : Entry) : outcome (Address * (gmap Address bool → gmap Address bool)) :=
  k ← split20 e.1 ;
  v ← (match e.2 with [] => Throw undefined_behaviour | x :: _ => Ret (negb (x =? 0)) end) ;
  Ret (k.1, λ inner, <[k.2 := v]> inner).

Context {R : RocksDB}.

Definition ERC721_load (address : Address) (d : rocks) : outcome ERC721Contract :=
  b ← base_load address d ;
  let p := getDBPrefix b in
  let name := db_get (string_bytes "name_") p d in
  let symbol := db_get (string_bytes "symbol_") p d in
  owners ← loaded (load_map 0 dec_owner (getBatch (getNewPrefix "owners_" b) [] d)) ;
  balances ← loaded (load_map 0 dec_count (getBatch (getNewPrefix "balances_" b) [] d)) ;
  approvals ← loaded (load_map 0 dec_approval (getBatch (getNewPrefix "tokenApprovals_" b) [] d)) ;
  operators ← loaded (load_map ∅ dec_operator (getBatch (getNewPrefix "operatorAddressApprovals_" b) [] d)) ;
  Ret (mkCollection b name symbol (mkERC721 owners balances approvals operators [])).

(** ** Round trip *)

Definition nft_groups (c : ERC721Contract) : list Group :=
  base_groups (nft_base c) ++
  [field "name_" (nft_name c); field "symbol_" (nft_symbol c); ("owners_", id_entries (owners_of c));
   ("balances_", count_entries (counts_of c)); ("tokenApprovals_", id_entries (approvals_of c));
   ("operatorAddressApprovals_", [])].

Definition ids_ok (m : gmap Z Address) : Prop := map_Forall (λ k a, in_range 64 k ∧ in_range 160 a) m.
Definition counts_ok (m : gmap Address Z) : Prop := map_Forall (λ a v, in_range 160 a ∧ in_range 64 v) m.
Definition nft_ok (c : ERC721Contract) : Prop :=
  base_ok (nft_base c) ∧ ids_ok (owners_of c) ∧ counts_ok (counts_of c) ∧ ids_ok (approvals_of c).

Definition nft_same (c c' : ERC721Contract) : Prop :=
  nft_name c' = nft_name c ∧ nft_symbol c' = nft_symbol c ∧ owners_of c' = owners_of c ∧
  counts_of c' = counts_of c ∧ approvals_of c' = approvals_of c ∧
  ∀ owner operator, isApprovedForAll owner operator (nft c') = false.

Lemma elem_of_ids m e : e ∈ id_entries m ↔ ∃ k a, m !! k = Some a ∧ e = (uintToBytes k, address_bytes a).
Proof.
  unfold id_entries. rewrite list_elem_of_fmap. split.
  - intros ([k a] & -> & Hin%elem_of_walk). eauto.
  - intros (k & a & Hm%elem_of_walk & ->). by exists (k, a).
Qed.
Lemma elem_of_counts m e : e ∈ count_entries m ↔ ∃ a v, m !! a = Some v ∧ e = (address_bytes a, uintToBytes v).
Proof. apply elem_of_balances. Qed.
Lemma elem_of_data c e : e ∈ walk (nft_data c) ↔
  e = (string_bytes "name_", nft_name c) ∨ e = (string_bytes "symbol_", nft_symbol c).
Proof.
  destruct e as [k v]. rewrite elem_of_walk. unfold nft_data. rewrite lookup_insert_Some, lookup_singleton_Some. split.
  - intros [[<- <-]|[_ [<- <-]]]; auto.
  - intros [[-> ->]%pair_eq|[-> ->]%pair_eq]; [right|left]; done.
Qed.

Lemma ERC721_dump_puts c : dels_ (ERC721_dump c) = [] ∧ puts_ (ERC721_dump c) =
  puts_ (base_dump (nft_base c)) ++ map (λ e, (getDBPrefix (nft_base c) ++ e.1, e.2)) (walk (nft_data c)) ++
  concat (map (group_entries (getDBPrefix (nft_base c))) [("owners_", id_entries (owners_of c));
   ("balances_", count_entries (counts_of c)); ("tokenApprovals_", id_entries (approvals_of c))]).
Proof.
  unfold ERC721_dump, getNewPrefix. rewrite !push_all_group, push_all_batch. split; [done|]. cbn [puts_ map concat].
  by rewrite app_nil_r, !(assoc_L (++)).
Qed.
Lemma ERC721_grouped c : grouped (getDBPrefix (nft_base c)) (nft_groups c) (puts_ (ERC721_dump c)).
Proof.
  split_and!; [done|apply (bool_decide_eq_true_1 _); done|]. intros e. rewrite (proj2 (ERC721_dump_puts c)), !elem_of_app.
  unfold nft_groups. rewrite base_dump_puts.
  rewrite !elem_of_groups. split.
  - intros [(g & Hg & He)|[Hd|(g & Hg & He)]].
    + exists g. split; [|done]. apply elem_of_app. by left.
    + apply list_elem_of_fmap in Hd as (e0 & -> & [->| ->]%elem_of_data).
      * exists (field "name_" (nft_name c)). split; [apply elem_of_app; right; in_list|by apply list_elem_of_singleton].
      * exists (field "symbol_" (nft_symbol c)). split; [apply elem_of_app; right; in_list|by apply list_elem_of_singleton].
    + exists g. split; [|done]. apply elem_of_app. right. set_solver.
  - intros (g & [Hg|Hg]%elem_of_app & He); [left; eauto|]. right.
    repeat (apply elem_of_cons in Hg as [->|Hg]); [left|left|right|right|right| |by apply not_elem_of_nil in Hg].
    + apply list_elem_of_singleton in He as ->. apply list_elem_of_fmap. exists (string_bytes "name_", nft_name c).
      split; [done|]. apply elem_of_data. by left.
    + apply list_elem_of_singleton in He as ->. apply list_elem_of_fmap. exists (string_bytes "symbol_", nft_symbol c).
      split; [done|]. apply elem_of_data. by right.
    + eexists. split; [|exact He]. in_list.
    + eexists. split; [|exact He]. in_list.
    + eexists. split; [|exact He]. in_list.
    + by apply not_elem_of_nil in He.
Qed.

Lemma dec_owner_run k l i a : length l = 20%nat → Address_make l = Ret a → fromBigEndian 64 k = Ret i → dec_owner (k, l) = Ret (i, λ _, a).
Proof.
  intros Hl E1 E2. unfold dec_owner. cbn [fst snd]. rewrite decide_False, take_ge by lia.
  by rewrite E1; cbn [mbind outcome_bind]; rewrite E2.
Qed.
Lemma dec_approval_run k l i a : Address_make l = Ret a → fromBigEndian 64 k = Ret i → dec_approval (k, l) = Ret (i, λ _, a).
Proof. intros E1 E2. unfold dec_approval. cbn [fst snd]. by rewrite E1; cbn [mbind outcome_bind]; rewrite E2. Qed.
Lemma dec_count_run k l a v : fromBigEndian 64 l = Ret v → Address_make k = Ret a → dec_count (k, l) = Ret (a, λ _, v).
Proof. intros E1 E2. unfold dec_count. cbn [fst snd]. by rewrite E1; cbn [mbind outcome_bind]; rewrite E2. Qed.

Lemma ids_functional m : ids_ok m → functional (id_entries m).
Proof.
  intros Hm k v v' (i & a & Hi & [-> ->]%pair_eq)%elem_of_ids (j & b & Hj & [E ->]%pair_eq)%elem_of_ids.
  destruct (Hm i a Hi) as [Ri _], (Hm j b Hj) as [Rj _]. apply (f_equal (fromBigEndian 64)) in E.
  destruct (uintToBytes_value 64 i Ri) as (_ & Ei & _), (uintToBytes_value 64 j Rj) as (_ & Ej & _).
  rewrite Ei, Ej in E. injection E as ->. congruence.
Qed.
Lemma counts_functional m : counts_ok m → functional (count_entries m).
Proof.
  intros Hm. apply balances_functional. intros a v Hv. destruct (Hm a v Hv) as [Ha Hr]. split; [done|]. unfold in_range in *. lia.
Qed.

(** One map of the constructor. *)
Lemma load_ids dec m l : ids_ok m → (∀ e, e ∈ l ↔ e ∈ id_entries m) →
  (∀ k a, in_range 64 k → in_range 160 a → dec (uintToBytes k, address_bytes a) = Ret (k, λ _, a)) →
  ∃ x, loaded (load_map 0 dec l) = Ret x ∧ sm_value x = m.
Proof.
  intros Hm Hl Hd. destruct (load_map_values 0 (λ k a, (uintToBytes k, address_bytes a)) dec l m (map_owned ∅))
    as (x & Hx & Hv); [|intros k a Hk; destruct (Hm k a Hk); by apply Hd|done|].
  - intros e. by rewrite Hl, elem_of_ids.
  - unfold loaded. rewrite Hx. by eexists.
Qed.
Lemma load_counts m l : counts_ok m → (∀ e, e ∈ l ↔ e ∈ count_entries m) →
  ∃ x, loaded (load_map 0 dec_count l) = Ret x ∧ sm_value x = m.
Proof.
  intros Hm Hl. destruct (load_map_values 0 (λ a v, (address_bytes a, uintToBytes v)) dec_count l m (map_owned ∅))
    as (x & Hx & Hv); [| |done|].
  - intros e. by rewrite Hl, elem_of_counts.
  - intros a v Hk. destruct (Hm a v Hk) as [Ha Hr]. apply dec_count_run; [apply (uintToBytes_value 64 v Hr)|by apply address_bytes_read].
  - unfold loaded. rewrite Hx. by eexists.
Qed.

#[export, program] Instance ERC721_stored : StoredContract ERC721Contract := {|
  c_base := nft_base;
  c_dump := ERC721_dump;
  c_load := ERC721_load;
  c_ok := nft_ok;
  c_same := nft_same;
|}.
Next Obligation. by intros c [Hb _]. Qed.
Next Obligation. intros c. apply ERC721_dump_puts. Qed.
Next Obligation. intros c k v. apply (grouped_prefix _ _ _ _ _ (ERC721_grouped c)). Qed.
Next Obligation.
  intros c (_ & Ho & Hc & Ha). eapply grouped_functional; [apply ERC721_grouped|].
  repeat (apply Forall_cons; split; [first [apply field_functional|by apply ids_functional|by apply counts_functional]|]).
  apply Forall_cons; split; [|constructor]. intros k v v' H. by apply not_elem_of_nil in H.
Qed.
Next Obligation.
  intros c d (Hb & Ho & Hc & Ha) Hs. pose proof (ERC721_grouped c) as Hg. unfold ERC721_load.
  rewrite (base_load_groups (nft_groups c) (puts_ (ERC721_dump c))) by (done || (unfold nft_groups; set_solver)).
  cbn [mbind outcome_bind].
  assert (Hget : ∀ t v, field t v ∈ nft_groups c → db_get (string_bytes t) (getDBPrefix (nft_base c)) d = v).
  { intros t v Ht. by apply (grouped_get _ (nft_groups c) (puts_ (ERC721_dump c))). }
  rewrite (Hget "name_" (nft_name c)), (Hget "symbol_" (nft_symbol c)) by in_list.
  assert (Hbatch : ∀ t es, (t, es) ∈ nft_groups c → ∀ e, e ∈ getBatch (getNewPrefix t (nft_base c)) [] d ↔ e ∈ es).
  { intros t es Ht e. by apply (grouped_batch _ (nft_groups c) (puts_ (ERC721_dump c))). }
  destruct (load_ids dec_owner (owners_of c) _ Ho (Hbatch "owners_" (id_entries (owners_of c)) ltac:(in_list))) as (xo & -> & Vo).
  { intros k a Hk Hra. apply dec_owner_run; [apply be_bytes_length|by apply address_bytes_read|apply (uintToBytes_value 64 k Hk)]. }
  cbn [mbind outcome_bind].
  destruct (load_counts (counts_of c) _ Hc (Hbatch "balances_" _ ltac:(in_list))) as (xb & -> & Vb). cbn [mbind outcome_bind].
  destruct (load_ids dec_approval (approvals_of c) _ Ha (Hbatch "tokenApprovals_" (id_entries (approvals_of c)) ltac:(in_list)))
    as (xa & -> & Va).
  { intros k a Hk Hra. apply dec_approval_run; [by apply address_bytes_read|apply (uintToBytes_value 64 k Hk)]. }
  cbn [mbind outcome_bind].
  assert (getBatch (getNewPrefix "operatorAddressApprovals_" (nft_base c)) [] d = []) as ->.
  { apply elem_of_nil_inv. intros e He. apply (Hbatch "operatorAddressApprovals_" [] ltac:(in_list)) in He. by apply not_elem_of_nil in He. }
  cbn. eexists. split_and!; [done|done|]. unfold nft_same, owners_of, counts_of, approvals_of, isApprovedForAll in *. cbn.
  split_and!; try done.
Qed.
End store.

(** ** Collections in use *)

(** The keys and values of the maps fit their types: kept by every operation
    whose arguments are addresses. *)
Definition nft_dom (s : ERC721) : Prop :=
  ids_ok (sm_value (owners_ s)) ∧ counts_ok (sm_value (ERC721.balances_ s)) ∧ ids_ok (sm_value (tokenApprovals_ s)).
Fixpoint receivers_ok (o : ERC721Op) : Prop :=
  match o with
  | OTransferFrom _ _ to _ | ERC721.OApprove _ to _ | ERC721.OMint to _ => in_range 160 to
  | OSafeTransferFrom _ _ to _ reply =>
      in_range 160 to ∧
      match reply with
      | None => True
      | Some (calls, _) => (fix all l := match l with [] => True | c :: l => receivers_ok c ∧ all l end) calls
      end
  | OSetApprovalForAll _ _ _ | ERC721.OBurn _ _ => True
  end.

Section dom.
Context {NC : NarrowCast}.
Definition nft_dom_rel (s s' : ERC721) : Prop := nft_dom s → nft_dom s'.
#[local] Instance nft_dom_preorder : PreOrder nft_dom_rel.
Proof. split; [intros s Hs; exact Hs|]. intros s1 s2 s3 H1 H2 H. apply H2, H1, H. Qed.

Lemma owner_dom k s : nft_dom s → in_range 160 (owner_at k s).
Proof.
  intros (Ho & _). unfold owner_at. destruct (sm_value (owners_ s) !! k) as [a|] eqn:E; [|done]. by destruct (Ho k a E).
Qed.
Lemma put_owner_dom k v s : in_range 64 k → in_range 160 v → nft_dom_rel s (put_owner k v s).
Proof. intros Hk Hv (Ho & Hb & Ha). split_and!; [|done|done]. by apply map_Forall_insert_2. Qed.
Lemma put_approval_dom k v s : in_range 64 k → in_range 160 v → nft_dom_rel s (put_approval k v s).
Proof. intros Hk Hv (Ho & Hb & Ha). split_and!; [done|done|]. by apply map_Forall_insert_2. Qed.
Lemma step_balance_dom d a s : in_range 160 a → nft_dom_rel s (step_balance d a s).
Proof.
  intros Hd (Ho & Hb & Ha). split_and!; [done| |done]. apply map_Forall_insert_2; [|done]. split; [done|].
  unfold wrap, in_range. apply Z.mod_pos_bound. lia.
Qed.
Lemma moved_dom k to tokenId s : in_range 64 k → in_range 160 to → nft_dom_rel s (moved k to tokenId s).
Proof.
  intros Hk Ht Hs. unfold moved. cbv zeta. pose proof (owner_dom k s Hs) as Hf.
  apply (put_owner_dom k to); [done|done|].
  assert (H1 : nft_dom (if owner_at k s =? 0 then s else step_balance (-1) (owner_at k s) (put_approval k 0 s))).
  { destruct (_ =? _); [done|]. apply step_balance_dom; [done|]. by apply put_approval_dom. }
  destruct (to =? 0); [done|]. by apply step_balance_dom.
Qed.
Lemma update_dom to tokenId auth : in_range 160 to → preserves nft_dom_rel (update_ to tokenId auth).
Proof.
  intros Ht s. rewrite update_run. destruct (to_u64 tokenId) as [k|] eqn:Ek; [|intros H; exact H].
  destruct (may_move _ _ _); [|intros H; exact H]. apply moved_dom; [by eapply to_u64_range|done].
Qed.
Lemma approve_dom' to tokenId auth : in_range 160 to → preserves nft_dom_rel (approve_ to tokenId auth).
Proof.
  intros Ht. unfold approve_. apply preserves_bind; [apply _|intros s H; exact H|intros owner].
  apply preserves_bind; [apply _|apply preserves_gets; apply _|intros s0].
  apply preserves_bind; [apply _|apply preserves_throw_if; apply _|intros _].
  intros s. unfold mbind, M_bind, lift. destruct (to_u64 tokenId) as [k|] eqn:Ek; [|intros H; exact H].
  rewrite approvals_put_run. apply (put_approval_dom k to s); [by eapply to_u64_range|done].
Qed.
Lemma setApproval_dom owner operator b : preserves nft_dom_rel (setApprovalForAll_ owner operator b).
Proof.
  unfold setApprovalForAll_. apply preserves_bind; [apply _|apply preserves_throw_if; apply _|intros _].
  intros s. unfold mbind, M_bind, zoom. rewrite map_index_touch, map_write_touch. intros H. exact H.
Qed.
Lemma transfer_dom caller from to tokenId : in_range 160 to → preserves nft_dom_rel (transfer_ caller from to tokenId).
Proof.
  intros Ht. unfold transfer_. apply preserves_bind; [apply _|apply preserves_throw_if; apply _|intros _].
  apply preserves_bind; [apply _|by apply update_dom|intros p].
  destruct (p =? 0); [apply preserves_throw; apply _|apply preserves_throw_if; apply _].
Qed.

Lemma nft_op_dom o : receivers_ok o → preserves nft_dom_rel (nft_op o).
Proof.
  induction o as [c f t i|c f t i|c f t i l a Hl|c t i|c o b|t i|c i] using op_ind'; cbn [nft_op receivers_ok]; intros Ho.
  - by apply transfer_dom.
  - apply preserves_bind; [apply _|apply transfer_dom, Ho|intros _]. apply preserves_ret; apply _.
  - destruct Ho as [Ht Ho]. apply preserves_bind; [apply _|by apply transfer_dom|intros _]. unfold checkOnERC721Received_.
    apply preserves_bind; [apply _| |intros _].
    + induction Hl as [|o l Hop Hl IH]; [apply preserves_ret; apply _|]. destruct Ho as [Ho Hr].
      apply preserves_bind; [apply _|by apply Hop|intros _; by apply IH].
    + apply preserves_bind; [apply _|apply preserves_lift; apply _|intros r]. apply preserves_throw_if; apply _.
  - unfold ERC721.approve. apply preserves_bind; [apply _|by apply approve_dom'|intros _]. apply preserves_ret; apply _.
  - apply setApproval_dom.
  - unfold ERC721.mint_. apply preserves_bind; [apply _|apply preserves_throw_if; apply _|intros _].
    apply preserves_bind; [apply _|by apply update_dom|intros _]. apply preserves_ret; apply _.
  - unfold burn_. apply preserves_bind; [apply _|by apply update_dom|intros p]. apply preserves_throw_if; apply _.
Qed.

Lemma nft_run_dom ops s : Forall receivers_ok ops → nft_clean s → nft_dom s → nft_dom (nft_run ops s).
Proof.
  revert s. induction ops as [|o ops IH]; intros s Hops Hc Hd; [done|]. apply Forall_cons in Hops as [Ho Hops].
  destruct (nft_call_spec (nft_op o) s (nft_op_le o) Hc) as (Hc2 & _ & (Vo & Vb & Va & _) & _).
  apply (IH (nft_call (nft_op o) s).2); [done|done|]. pose proof (nft_op_dom o Ho s Hd) as H1. unfold nft_dom in *.
  rewrite Vo, Vb, Va. by destruct (nft_op o s) as [[[]|e] s1].
Qed.
End dom.

(** Collections survive a restart, except for the operators.  An ERC-721
    contract that was created and called in any way is written to the database
    by [dump], and the loading constructor builds from it a contract with the
    same name, symbol, owners, balances and approved addresses; but nobody is an
    operator any more, whoever was approved for all before. *)
Theorem nft_survives_restart {BI : BoostInt} {NC : NarrowCast} {WK : Walk} {R : RocksDB}
    (b : BaseContract) (name symbol : list Z) (ops : list ERC721Op) (d : rocks) :
  base_ok b → Forall receivers_ok ops → (∀ k, Get (getDBPrefix b ++ k) d = None) →
  let s := nft_run ops ERC721_new in
  ∃ c', ERC721_load (contractAddress_ b) (putBatch (ERC721_dump (mkCollection b name symbol s)) d) = Ret c' ∧
    nft_base c' = b ∧ nft_name c' = name ∧ nft_symbol c' = symbol ∧
    (∀ k, owner_at k (nft c') = owner_at k s ∧ approved_at k (nft c') = approved_at k s) ∧
    (∀ a, balance_at a (nft c') = balance_at a s) ∧
    ∀ owner operator, isApprovedForAll owner operator (nft c') = false.
Proof.
  intros Hb Hops Hd s.
  assert (Hdom : nft_dom s).
  { apply nft_run_dom; [done|apply new_clean|]. unfold nft_dom, ERC721_new. cbn. split_and!; apply map_Forall_empty. }
  set (c := mkCollection b name symbol s).
  assert (Hok : nft_ok c) by (split; [exact Hb|exact Hdom]).
  destruct (c_load_dump (StoredContract := ERC721_stored) c (putBatch (ERC721_dump c) d) Hok) as (c' & Hl & Hbase & Hsame).
  { by apply (stored_putBatch (SC := ERC721_stored)). }
  destruct Hsame as (Hn & Hsy & Ho & Hc & Ha & Hop). exists c'. split; [exact Hl|]. split_and!; try done.
  - intros k. unfold owner_at, approved_at. change (sm_value (owners_ (nft c'))) with (owners_of c').
    change (sm_value (tokenApprovals_ (nft c'))) with (approvals_of c'). by rewrite Ho, Ha.
  - intros a. unfold balance_at. change (sm_value (ERC721.balances_ (nft c'))) with (counts_of c'). by rewrite Hc.
Qed.

Lemma nft_survives_restart_witness :
  let s := nft_run (NC := checked_u64) [ERC721.OMint 5 7; ERC721.OApprove 5 6 7; OSetApprovalForAll 5 9 true] ERC721_new in
  isApprovedForAll 5 9 s = true ∧
  ∃ c', ERC721_load (BI := boost_ref) (R := sorted_store) 77
      (putBatch (ERC721_dump (mkCollection (mkBase 77 [65] 5 8080) [78] [78] s)) empty_store) = Ret c' ∧
    owner_at 7 (nft c') = 5 ∧ approved_at 7 (nft c') = 6 ∧ isApprovedForAll 5 9 (nft c') = false.
Proof.
  intros s. split; [reflexivity|].
  destruct (nft_survives_restart (BI := boost_ref) (NC := checked_u64) (R := sorted_store) (mkBase 77 [65] 5 8080) [78] [78]
    [ERC721.OMint 5 7; ERC721.OApprove 5 6 7; OSetApprovalForAll 5 9 true] empty_store) as (c' & Hl & _ & _ & _ & Ho & _ & Hop).
  - by vm_compute.
  - repeat (apply Forall_cons; split; [by vm_compute|]). apply Forall_nil_2.
  - done.
  - exists c'. split; [exact Hl|]. clear Hl. destruct (Ho 7) as [-> ->]. rewrite Hop. split_and!; reflexivity.
Defined.
