(* ===== verification/OrderBook.v ===== *)
(** * The order book

    Models src/contract/templates/orderbook/orderbook.h and orderbook.cpp: limit and
    market orders for a pair of ERC-20 tokens, kept in two [SafeMultiSet]s by
    price and time.  The tokens are reached through [TokenWorld] and, for
    [transferFrom], [SpenderWorld]; they do not call the book back.  [std::multiset]
    iterators to the first element are written through ([const_cast]), which
    changes the amount of the order where it stands.

    A loop of the source runs on fuel; [bid_loop_enough] and [ask_loop_enough] show
    that the fuel given is enough.  The market bid is the exception: it can spin
    without progress until the gas of its token calls is used up, so its fuel is
    an argument ([market_bid_spins]). *)

From S2P Require Import Prelude CheckedInt SafeBase SafeScalars SafeUint SafeString SafeMultiSet ERC20 DexPair.
From S2P Require Import BaseContract.

(** ** Data *)

Inductive OrderType := MARKET | LIMIT | STOPMARKET | STOPLIMIT.
Inductive OrderSide := BID | ASK.
#[export] Instance OrderType_eq_dec : EqDecision OrderType.
Proof. solve_decision. Defined.

Record Order := mkOrder {
  o_id : Z;
  o_timestamp : Z;
  o_owner : Address;
  o_amount : Z;
  o_price : Z;
  o_type : OrderType;
}.
Definition set_amount (v : Z) (o : Order) : Order :=
  mkOrder (o_id o) (o_timestamp o) (o_owner o) v (o_price o) (o_type o).
#[export] Instance Order_eq_dec : EqDecision Order.
Proof. solve_decision. Defined.

Record StopOrder := mkStopOrder {
  s_id : Z;
  s_timestamp : Z;
  s_owner : Address;
  s_amount : Z;
  s_price : Z;
  s_stopLimit : Z;
  s_side : OrderSide;
  s_type : OrderType;
}.

(** [operator<] and [operator>]: by price, and among equal prices the older first
    in both. *)
Definition order_lt (l r : Order) : bool :=
  (o_price l <? o_price r) || ((o_price l =? o_price r) && (o_timestamp l <? o_timestamp r)).
Definition order_gt (l r : Order) : bool :=
  (o_price r <? o_price l) || ((o_price l =? o_price r) && (o_timestamp l <? o_timestamp r)).
Definition stop_lt (l r : StopOrder) : bool :=
  (s_stopLimit l <? s_stopLimit r) || ((s_stopLimit l =? s_stopLimit r) && (s_timestamp l <? s_timestamp r)).
Definition stop_gt (l r : StopOrder) : bool :=
  (s_stopLimit r <? s_stopLimit l) || ((s_stopLimit l =? s_stopLimit r) && (s_timestamp l <? s_timestamp r)).
Definition orderFromStopOrder (s : StopOrder) (timestamp : Z) : Order :=
  mkOrder (s_id s) timestamp (s_owner s) (s_amount s) (s_price s) (s_type s).

#[export] Instance order_lt_strict : StrictWeak order_lt.
Proof. split; unfold order_lt; intros; lia. Qed.
#[export] Instance order_gt_strict : StrictWeak order_gt.
Proof. split; unfold order_gt; intros; lia. Qed.
#[export] Instance stop_lt_strict : StrictWeak stop_lt.
Proof. split; unfold stop_lt; intros; lia. Qed.

Record OrderBook := mkBook {
  ob_base : BaseContract;
  nextOrderID_ : SafeUint_t;
  addressAssetA_ : SafeAddress;
  tickerAssetA_ : SafeString;
  addressAssetB_ : SafeAddress;
  tickerAssetB_ : SafeString;
  spread_ : SafeUint_t;
  tickSize_ : SafeUint_t;
  lotSize_ : SafeUint_t;
  lastPrice_ : SafeUint_t;
  bids_ : SafeMultiSet Order;
  asks_ : SafeMultiSet Order;
  stops_ : SafeMultiSet StopOrder;
}.
Definition put_nextOrderID v b := mkBook (ob_base b) v (addressAssetA_ b) (tickerAssetA_ b) (addressAssetB_ b) (tickerAssetB_ b) (spread_ b) (tickSize_ b) (lotSize_ b) (lastPrice_ b) (bids_ b) (asks_ b) (stops_ b).
Definition put_spread v b := mkBook (ob_base b) (nextOrderID_ b) (addressAssetA_ b) (tickerAssetA_ b) (addressAssetB_ b) (tickerAssetB_ b) v (tickSize_ b) (lotSize_ b) (lastPrice_ b) (bids_ b) (asks_ b) (stops_ b).
Definition put_lastPrice v b := mkBook (ob_base b) (nextOrderID_ b) (addressAssetA_ b) (tickerAssetA_ b) (addressAssetB_ b) (tickerAssetB_ b) (spread_ b) (tickSize_ b) (lotSize_ b) v (bids_ b) (asks_ b) (stops_ b).
Definition put_bids v b := mkBook (ob_base b) (nextOrderID_ b) (addressAssetA_ b) (tickerAssetA_ b) (addressAssetB_ b) (tickerAssetB_ b) (spread_ b) (tickSize_ b) (lotSize_ b) (lastPrice_ b) v (asks_ b) (stops_ b).
Definition put_asks v b := mkBook (ob_base b) (nextOrderID_ b) (addressAssetA_ b) (tickerAssetA_ b) (addressAssetB_ b) (tickerAssetB_ b) (spread_ b) (tickSize_ b) (lotSize_ b) (lastPrice_ b) (bids_ b) v (stops_ b).

(** [ERC20::transferFrom] of the contract at an address, called by [caller]. *)
Class SpenderWorld (T : Type) := {
  call_transferFrom : ∀ token caller from to : Address, Z → M T bool;
}.

(** The call: the book and the other contracts; who calls, and the block's time. *)
Record BookCall (T : Type) := mkBookCall { book : OrderBook; bworld : T }.
Arguments mkBookCall {T}.
Arguments book {T}.
Arguments bworld {T}.
Record CallInfo := mkCallInfo { ci_caller : Address; ci_timestamp : Z }.

(** [Utils::exp10<uint256_t>(exponent)]: a checked power; from 10^78 on it overflows. *)
Definition exp10 {BI : BoostInt} (exponent : Z) : outcome Z :=
  if exponent =? 0 then Ret 1 else if exponent <? 78 then mk_unsigned 256 (10 ^ exponent) else Throw boost_error.

Definition made_string (t : list Ascii.ascii) : SafeString := mkSafeString (mkSafeBase true false true) t None.

(** [decB - 4] is an [int] that becomes a [uint64_t]. *)
Definition OrderBook_new {BI : BoostInt} (addA : Address) (tickerA : list Ascii.ascii) (decA : Z)
    (addB : Address) (tickerB : list Ascii.ascii) (decB : Z) (base : BaseContract) : outcome OrderBook :=
  tick ← exp10 (wrap 64 (decB - 4));
  lot ← exp10 (wrap 64 (decA - 4));
  Ret (mkBook base (fresh_var 0) (fresh_var addA) (made_string tickerA) (fresh_var addB) (made_string tickerB)
    (fresh_var 0) (fresh_var tick) (fresh_var lot) (fresh_var 0) (fresh_var []) (fresh_var []) (fresh_var [])).

(** ** Operations *)

Section orderbook.
Context {BI : BoostInt} {T : Type} {TW : TokenWorld T} {SP : SpenderWorld T} (c : CallInfo).
#[local] Abbreviation C := (M (BookCall T)).

Definition in_book {A} (m : M OrderBook A) : C A := zoom book (λ b s, mkBookCall b (bworld s)) m.
Definition in_tokens {A} (m : M T A) : C A := zoom bworld (λ w s, mkBookCall (book s) w) m.
Definition in_bids {A} (m : M (SafeMultiSet Order) A) : C A := in_book (zoom bids_ put_bids m).
Definition in_asks {A} (m : M (SafeMultiSet Order) A) : C A := in_book (zoom asks_ put_asks m).

Definition me (s : BookCall T) : Address := contractAddress_ (ob_base (book s)).
Definition tokA (s : BookCall T) : Address := value_ (addressAssetA_ (book s)).
Definition tokB (s : BookCall T) : Address := value_ (addressAssetB_ (book s)).
Definition tick (s : BookCall T) : Z := value_ (tickSize_ (book s)).
Definition lot (s : BookCall T) : Z := value_ (lotSize_ (book s)).
Definition bids (s : BookCall T) : list Order := value_ (bids_ (book s)).
Definition asks (s : BookCall T) : list Order := value_ (asks_ (book s)).

Definition precision_ : Z := 10000.
Definition tokensLot (tokenAmount : Z) : C Z := l ← gets lot; lift (umul 256 tokenAmount l).
Definition tokensTick (value : Z) : C Z := t ← gets tick; lift (umul 256 value t).
Definition tokensToBePaid (assetAmount assetPrice : Z) : C Z :=
  m ← lift (umul 256 assetAmount assetPrice); t ← tokensTick m; lift (udiv 256 t precision_).
Definition isLotSizable (tokenPrice : Z) : C bool :=
  l ← gets lot; if l =? 0 then throw boost_error else mret (tokenPrice mod l =? 0).

Definition insertAskOrder (o : Order) : C unit := in_asks (mset_insert order_lt o ;; mret ()).
Definition insertBidOrder (o : Order) : C unit := in_bids (mset_insert order_gt o ;; mret ()).
(** [erase(key)]: every equivalent order. *)
Definition eraseAskOrder (o : Order) : C unit := in_asks (mset_erase_key order_lt o ;; mret ()).
Definition eraseBidOrder (o : Order) : C unit := in_bids (mset_erase_key order_gt o ;; mret ()).

(** Assigning to the amount of the first order through the pointer. *)
Definition write_first (amount : Z) : M (SafeMultiSet Order) unit :=
  modify (λ x, set_value (match value_ x with o :: l => set_amount amount o :: l | [] => [] end) x).

Definition callTransfer (token to : Address) (value : Z) : C unit :=
  self ← gets me; in_tokens (call_transfer token self to value) ;; mret ().
Definition callBalanceOf (token owner : Address) : C Z := in_tokens (call_balanceOf token owner).
Definition transferToContract (assetAddress : Address) (tokenAmount : Z) : C unit :=
  self ← gets me; in_tokens (call_transferFrom assetAddress self (ci_caller c) self tokenAmount) ;; mret ().

Definition executeOrder (askOwner bidOwner : Address) (paid tokenAmount : Z) : C unit :=
  b ← gets tokB; callTransfer b askOwner paid ;;
  a ← gets tokA; l ← tokensLot tokenAmount; callTransfer a bidOwner l.

(** [begin()] marks the set as used. *)
Definition findMatchAskOrder (bidOrder : Order) : C (option Order) :=
  e ← gets (λ s : BookCall T, mset_empty (asks_ (book s)));
  if (e : bool) then mret None
  else
    in_asks mset_begin ;; l ← gets asks;
    mret (match l with
    | [] => None
    | askOrder :: _ =>
        match o_type bidOrder with
        | MARKET => Some askOrder
        | LIMIT => if o_price bidOrder <=? o_price askOrder then Some askOrder else None
        | _ => None
        end
    end).
Definition findMatchBidOrder (askOrder : Order) : C (option Order) :=
  e ← gets (λ s : BookCall T, mset_empty (bids_ (book s)));
  if (e : bool) then mret None
  else
    in_bids mset_begin ;; l ← gets bids;
    mret (match l with
    | [] => None
    | bidOrder :: _ =>
        match o_type askOrder with
        | MARKET => Some bidOrder
        | LIMIT => if o_price askOrder <=? o_price bidOrder then Some bidOrder else None
        | _ => None
        end
    end).

Definition updateLastPrice (price : Z) : C unit := in_book (zoom lastPrice_ put_lastPrice (uint_assign_uint price)).
Definition updateSpreadAndMidPrice : C unit :=
  b ← gets bids; a ← gets asks;
  match b, a with
  | bid :: _, ask :: _ =>
      d ← lift (usub 256 (Z.max (o_price bid) (o_price ask)) (Z.min (o_price bid) (o_price ask)));
      in_book (zoom spread_ put_spread (uint_assign_uint d))
  | _, _ => mret ()
  end.

(** What the three loops do after the tokens have moved: update both amounts and
    the last price, and remove the resting order when it is filled. *)
Definition fill_ask (ask : Order) (tokenAmount : Z) : C unit :=
  askAmount ← lift (usub 256 (o_amount ask) tokenAmount);
  in_asks (write_first askAmount) ;;
  updateLastPrice (o_price ask) ;;
  if askAmount =? 0 then eraseAskOrder (set_amount askAmount ask) else mret ().
Definition fill_bid (bid : Order) (tokenAmount : Z) : C unit :=
  bidAmount ← lift (usub 256 (o_amount bid) tokenAmount);
  in_bids (write_first bidAmount) ;;
  updateLastPrice (o_price bid) ;;
  if bidAmount =? 0 then eraseBidOrder (set_amount bidAmount bid) else mret ().

(** The loop of [evaluateMarketBidOrder]; the result is what the loop leaves of
    the order. *)
Fixpoint market_bid_loop (fuel : nat) (bidTokensToBePaid : Z) (bid : Order) : C Order :=
  match fuel with
  | O => throw undefined_behaviour
  | S fuel =>
      m ← findMatchAskOrder bid;
      match (m : option Order) with
      | None => mret bid
      | Some ask =>
          if negb (0 <? bidTokensToBePaid) || negb (0 <? o_amount bid) then mret bid
          else
            budget ← lift (umul 256 bidTokensToBePaid 10000);
            affordable ← lift (udiv 256 budget (o_price ask));
            let tokenAmount := Z.min (o_amount ask) affordable in
            paid ← tokensToBePaid tokenAmount (o_price ask);
            b ← gets tokB; transferToContract b paid ;;
            executeOrder (o_owner ask) (o_owner bid) paid tokenAmount ;;
            left_ ← lift (usub 256 bidTokensToBePaid paid);
            bidAmount ← lift (usub 256 (o_amount bid) tokenAmount);
            fill_ask ask tokenAmount ;;
            market_bid_loop fuel left_ (set_amount bidAmount bid)
      end
  end.
Definition evaluateMarketBidOrder (fuel : nat) (bid : Order) : C unit :=
  t ← tokensTick (o_amount bid); market_bid_loop fuel t bid ;; updateSpreadAndMidPrice.

Fixpoint bid_loop (fuel : nat) (bid : Order) : C Order :=
  match fuel with
  | O => throw undefined_behaviour
  | S fuel =>
      m ← findMatchAskOrder bid;
      match (m : option Order) with
      | None => mret bid
      | Some ask =>
          if negb (0 <? o_amount bid) then mret bid
          else
            let tokenAmount := Z.min (o_amount ask) (o_amount bid) in
            paid ← tokensToBePaid tokenAmount (o_price ask);
            executeOrder (o_owner ask) (o_owner bid) paid tokenAmount ;;
            bidAmount ← lift (usub 256 (o_amount bid) tokenAmount);
            fill_ask ask tokenAmount ;;
            bid_loop fuel (set_amount bidAmount bid)
      end
  end.
Definition evaluateBidOrder (bid : Order) : C unit :=
  l ← gets asks;
  bid ← bid_loop (S (S (length l))) bid;
  (if 0 <? o_amount bid then insertBidOrder bid else mret ()) ;;
  updateSpreadAndMidPrice.

Fixpoint ask_loop (fuel : nat) (ask : Order) : C Order :=
  match fuel with
  | O => throw undefined_behaviour
  | S fuel =>
      m ← findMatchBidOrder ask;
      match (m : option Order) with
      | None => mret ask
      | Some bid =>
          if negb (0 <? o_amount ask) then mret ask
          else
            let tokenAmount := Z.min (o_amount ask) (o_amount bid) in
            paid ← tokensToBePaid tokenAmount (o_price bid);
            executeOrder (o_owner ask) (o_owner bid) paid tokenAmount ;;
            askAmount ← lift (usub 256 (o_amount ask) tokenAmount);
            fill_bid bid tokenAmount ;;
            ask_loop fuel (set_amount askAmount ask)
      end
  end.
Definition evaluateAskOrder (ask : Order) : C unit :=
  l ← gets bids;
  ask ← ask_loop (S (S (length l))) ask;
  (if (0 <? o_amount ask) && negb (bool_decide (o_type ask = MARKET)) then insertAskOrder ask else mret ()) ;;
  updateSpreadAndMidPrice.

Definition makeOrder (tokenAmount tokenPrice : Z) (orderType : OrderType) : C Order :=
  i ← gets (λ s : BookCall T, value_ (nextOrderID_ (book s)));
  mret (mkOrder i (ci_timestamp c) (ci_caller c) tokenAmount tokenPrice orderType).
Definition next_id : C unit := in_book (zoom nextOrderID_ put_nextOrderID (uint_pre_inc 256)).

Definition addBidLimitOrder (tokenAmount tokenPrice : Z) : C unit :=
  b ← gets tokB; balance ← callBalanceOf b (ci_caller c);
  paid ← tokensToBePaid tokenAmount tokenPrice;
  throw_if (balance <? paid) (runtime_error "OrderBook::addBidLimitOrder: INSUFFICIENT_BALANCE") ;;
  transferToContract b paid ;;
  o ← makeOrder tokenAmount tokenPrice LIMIT;
  evaluateBidOrder o ;;
  next_id.

Definition addAskLimitOrder (tokenAmount tokenPrice : Z) : C unit :=
  a ← gets tokA; balance ← callBalanceOf a (ci_caller c);
  l ← tokensLot tokenAmount;
  throw_if (balance <? l) (runtime_error "OrderBook::addAskLimitOrder:Insufficient number of tokens") ;;
  ok ← isLotSizable l;
  throw_if (negb ok) (runtime_error "OrderBook::addAskLimitOrder:The asset amount must be a multiple of the lot size") ;;
  l ← tokensLot tokenAmount;
  transferToContract a l ;;
  o ← makeOrder tokenAmount tokenPrice LIMIT;
  evaluateAskOrder o ;;
  next_id.

Definition addAskMarketOrder (tokenAmount tokenPrice : Z) : C unit :=
  a ← gets tokA; balance ← callBalanceOf a (ci_caller c);
  l ← tokensLot tokenAmount;
  throw_if (balance <? l) (runtime_error "OrderBook::addAskMarketOrder: INSUFFICIENT_BALANCE") ;;
  transferToContract a l ;;
  o ← makeOrder tokenAmount 0 MARKET;
  evaluateAskOrder o ;;
  next_id.

Definition addBidMarketOrder (fuel : nat) (tokenAmount tokenPrice : Z) : C unit :=
  b ← gets tokB; balance ← callBalanceOf b (ci_caller c);
  t ← tokensTick tokenAmount;
  throw_if (balance <? t) (runtime_error "OrderBook::addBidMarketOrder: INSUFFICIENT_BALANCE") ;;
  o ← makeOrder tokenAmount 0 MARKET;
  evaluateMarketBidOrder fuel o ;;
  next_id.

(** [erase_if] with a predicate that throws and calls: the iterator has passed
    [kept], and what is erased is gone even if a later call throws. *)
Fixpoint del_loop (put : list Order → C unit) (pred : Order → C bool) (kept l : list Order) : C unit :=
  match l with
  | [] => mret ()
  | o :: l =>
      gone ← pred o;
      if (gone : bool) then put (kept ++ l) ;; del_loop put pred kept l else del_loop put pred (kept ++ [o]) l
  end.
Definition put_bids_value (l : list Order) : C unit := in_bids (modify (set_value l)).
Definition put_asks_value (l : list Order) : C unit := in_asks (modify (set_value l)).

Definition del_bid_pred (id : Z) (bid : Order) : C bool :=
  if negb (o_id bid =? id) then mret false
  else
    throw_if (negb (o_owner bid =? ci_caller c)) (runtime_error "OrderBook::delBidLimitOrder: INVALID_OWNER") ;;
    amount ← tokensToBePaid (o_amount bid) (o_price bid);
    b ← gets tokB; callTransfer b (o_owner bid) amount ;;
    mret true.
Definition delBidLimitOrder (id : Z) : C unit :=
  in_bids (modify mark) ;; l ← gets bids; del_loop put_bids_value (del_bid_pred id) [] l.

Definition del_ask_pred (id : Z) (ask : Order) : C bool :=
  if negb (o_id ask =? id) then mret false
  else
    throw_if (negb (o_owner ask =? ci_caller c)) (runtime_error "OrderBook::delAskLimitOrder: INVALID_OWNER") ;;
    a ← gets tokA; l ← tokensLot (o_amount ask); callTransfer a (o_owner ask) l ;;
    mret true.
Definition delAskLimitOrder (id : Z) : C unit :=
  in_asks (modify mark) ;; l ← gets asks; del_loop put_asks_value (del_ask_pred id) [] l.

(** The getters; [*cbegin()] of an empty set is undefined. *)
Definition getFirstBid (b : OrderBook) : outcome Order :=
  match value_ (bids_ b) with o :: _ => Ret o | [] => Throw undefined_behaviour end.
Definition getFirstAsk (b : OrderBook) : outcome Order :=
  match value_ (asks_ b) with o :: _ => Ret o | [] => Throw undefined_behaviour end.
Definition getBids (b : OrderBook) : list Order := value_ (bids_ b).
Definition getAsks (b : OrderBook) : list Order := value_ (asks_ b).
Definition getUserOrders (user : Address) (b : OrderBook) : list Order * list Order * list StopOrder :=
  (filter (λ o, o_owner o = user) (value_ (bids_ b)), filter (λ o, o_owner o = user) (value_ (asks_ b)),
   filter (λ o, s_owner o = user) (value_ (stops_ b))).
End orderbook.

(** ** What the helpers do *)

(** What no operation changes. *)
Definition same_place {T} (s s' : BookCall T) : Prop :=
  me s' = me s ∧ tokA s' = tokA s ∧ tokB s' = tokB s ∧ tick s' = tick s ∧ lot s' = lot s.
#[export] Instance frame_preorder {T} : PreOrder (@same_place T).
Proof. split; unfold same_place; [done|]. intros ??? (?&?&?&?&?) (?&?&?&?&?). split_and!; congruence. Qed.

(** The order an incoming one is matched with. *)
Definition match_ask (bid : Order) (l : list Order) : option Order :=
  match l with
  | [] => None
  | ask :: _ => match o_type bid with
      | MARKET => Some ask
      | LIMIT => if o_price bid <=? o_price ask then Some ask else None
      | _ => None
      end
  end.
Definition match_bid (ask : Order) (l : list Order) : option Order :=
  match l with
  | [] => None
  | bid :: _ => match o_type ask with
      | MARKET => Some bid
      | LIMIT => if o_price ask <=? o_price bid then Some bid else None
      | _ => None
      end
  end.
Lemma match_ask_head bid l o : match_ask bid l = Some o → ∃ r, l = o :: r.
Proof. destruct l as [|a r]; [done|]. cbn. destruct (o_type bid); [|destruct (_ <=? _)| |]; intros [= ->] || intros [=]; by exists r. Qed.
Lemma match_bid_head ask l o : match_bid ask l = Some o → ∃ r, l = o :: r.
Proof. destruct l as [|a r]; [done|]. cbn. destruct (o_type ask); [|destruct (_ <=? _)| |]; intros [= ->] || intros [=]; by exists r. Qed.

(** The first order with another amount, and without it and its equals. *)
Definition with_first (amount : Z) (l : list Order) : list Order :=
  match l with o :: l => set_amount amount o :: l | [] => [] end.
Definition after_fill (cmp : Order → Order → bool) (o : Order) (t : Z) (l : list Order) : list Order :=
  let a := o_amount o - t in
  if a =? 0 then drop (ms_upper cmp (set_amount a o :: l) (set_amount a o)) (set_amount a o :: l)
  else set_amount a o :: l.

Lemma erase_first {cmp : Order → Order → bool} {SW : StrictWeak cmp} o l :
  ms_erase_key cmp o (o :: l) = Ret (ms_count cmp (o :: l) o, drop (ms_upper cmp (o :: l) o) (o :: l)).
Proof. unfold ms_erase_key, cut. cbn [ms_lower]. by rewrite (cmp_irrefl (cmp := cmp)). Qed.

Section runs.
Context {BI : BoostInt} {T : Type} {TW : TokenWorld T} {SP : SpenderWorld T} (c : CallInfo).
Implicit Types (s : BookCall T).

(** Only the asks, or the bids, have changed. *)
Definition asks_become (l : list Order) s s' : Prop :=
  same_place s s' ∧ bworld s' = bworld s ∧ asks s' = l ∧ bids s' = bids s.
Definition bids_become (l : list Order) s s' : Prop :=
  same_place s s' ∧ bworld s' = bworld s ∧ asks s' = asks s ∧ bids s' = l.

Lemma findMatchAskOrder_run bid s : ∃ s', findMatchAskOrder bid s = (Ret (match_ask bid (asks s)), s') ∧ asks_become (asks s) s s'.
Proof.
  unfold findMatchAskOrder, asks. destruct s as [b w]. unfold mbind, M_bind, gets, mset_empty. cbn [book].
  destruct (value_ (asks_ b)) as [|o l] eqn:E.
  - exists (mkBookCall b w). split; [done|]. unfold asks_become. split_and!; try done.
  - eexists. split; [unfold in_asks, in_book, zoom, mset_begin, mset_op; cbv [mbind M_bind lift gets modify mret M_ret];
      cbn; rewrite E; reflexivity|]. split_and!; first [exact E|done].
Qed.
Lemma findMatchBidOrder_run ask s : ∃ s', findMatchBidOrder ask s = (Ret (match_bid ask (bids s)), s') ∧ bids_become (bids s) s s'.
Proof.
  unfold findMatchBidOrder, bids. destruct s as [b w]. unfold mbind, M_bind, gets, mset_empty. cbn [book].
  destruct (value_ (bids_ b)) as [|o l] eqn:E.
  - exists (mkBookCall b w). split; [done|]. unfold bids_become. split_and!; try done.
  - eexists. split; [unfold in_bids, in_book, zoom, mset_begin, mset_op; cbv [mbind M_bind lift gets modify mret M_ret];
      cbn; rewrite E; reflexivity|]. split_and!; first [exact E|done].
Qed.

Lemma fill_ask_run ask l t s : asks s = ask :: l → in_range 256 (o_amount ask - t) →
  ∃ s', fill_ask ask t s = (Ret (), s') ∧ asks_become (after_fill order_lt ask t l) s s'.
Proof.
  intros Ha Hr. destruct s as [b w]. change (value_ (asks_ b) = ask :: l) in Ha. unfold fill_ask, usub, after_fill.
  rewrite mk_unsigned_fits by done. set (a := o_amount ask - t). erewrite bind_run by reflexivity.
  erewrite bind_run by reflexivity. erewrite bind_run by reflexivity. destruct (a =? 0).
  - unfold eraseAskOrder, in_asks, in_book, zoom, mset_erase_key, mset_op. cbv [mbind M_bind lift gets modify mret M_ret].
    cbn -[ms_erase_key]. rewrite Ha, erase_first. eexists. split; [reflexivity|]. done.
  - eexists. split; [reflexivity|]. unfold asks_become, asks, bids. cbn. rewrite Ha. done.
Qed.
Lemma fill_ask_Ret ask l t s u s' : asks s = ask :: l → fill_ask ask t s = (Ret u, s') →
  0 <= o_amount ask - t ∧ asks_become (after_fill order_lt ask t l) s s'.
Proof.
  intros Ha H. unfold fill_ask in H. pose proof H as H0. apply bind_Ret in H0 as (a & s1 & [[_ Hr]%usub_Ret _]%lift_run & _).
  destruct (fill_ask_run ask l t s Ha Hr) as (s2 & E & Hb). unfold fill_ask in E. rewrite E in H. injection H as _ <-.
  split; [apply Hr|done].
Qed.
Lemma fill_bid_run bid l t s : bids s = bid :: l → in_range 256 (o_amount bid - t) →
  ∃ s', fill_bid bid t s = (Ret (), s') ∧ bids_become (after_fill order_gt bid t l) s s'.
Proof.
  intros Ha Hr. destruct s as [b w]. change (value_ (bids_ b) = bid :: l) in Ha. unfold fill_bid, usub, after_fill.
  rewrite mk_unsigned_fits by done. set (a := o_amount bid - t). erewrite bind_run by reflexivity.
  erewrite bind_run by reflexivity. erewrite bind_run by reflexivity. destruct (a =? 0).
  - unfold eraseBidOrder, in_bids, in_book, zoom, mset_erase_key, mset_op. cbv [mbind M_bind lift gets modify mret M_ret].
    cbn -[ms_erase_key]. rewrite Ha, erase_first. eexists. split; [reflexivity|]. done.
  - eexists. split; [reflexivity|]. unfold bids_become, asks, bids. cbn. rewrite Ha. done.
Qed.

Lemma fill_bid_Ret bid l t s u s' : bids s = bid :: l → fill_bid bid t s = (Ret u, s') →
  0 <= o_amount bid - t ∧ bids_become (after_fill order_gt bid t l) s s'.
Proof.
  intros Ha H. unfold fill_bid in H. pose proof H as H0. apply bind_Ret in H0 as (a & s1 & [[_ Hr]%usub_Ret _]%lift_run & _).
  destruct (fill_bid_run bid l t s Ha Hr) as (s2 & E & Hb). unfold fill_bid in E. rewrite E in H. injection H as _ <-.
  split; [apply Hr|done].
Qed.

(** A transfer the book makes, and one into it. *)
Lemma callTransfer_Ret token to v s u s' : callTransfer token to v s = (Ret u, s') →
  book s' = book s ∧ ∃ b, call_transfer token (me s) to v (bworld s) = (Ret b, bworld s').
Proof. unfold callTransfer, in_tokens. intros H. inv_run. cbn. eauto. Qed.
Lemma transferToContract_Ret token v s u s' : transferToContract c token v s = (Ret u, s') →
  book s' = book s ∧ ∃ b, call_transferFrom token (me s) (ci_caller c) (me s) v (bworld s) = (Ret b, bworld s').
Proof. unfold transferToContract, in_tokens. intros H. inv_run. cbn. eauto. Qed.
Lemma tokensLot_Ret t s v s' : tokensLot t s = (Ret v, s') → v = t * lot s ∧ in_range 256 (t * lot s) ∧ s' = s.
Proof. unfold tokensLot. intros H. inv_run. match goal with H : umul _ _ _ = _ |- _ => apply umul_Ret in H as [-> ?] end. done. Qed.

(** The price of an amount. *)
Definition to_be_paid (amount price tick : Z) : Z := amount * price * tick / 10000.
Lemma tokensToBePaid_Ret a p s v s' : tokensToBePaid a p s = (Ret v, s') →
  v = to_be_paid a p (tick s) ∧ in_range 256 v ∧ s' = s.
Proof.
  unfold tokensToBePaid, tokensTick, to_be_paid, precision_. intros H. inv_run.
  repeat match goal with H : umul _ _ _ = _ |- _ => apply umul_Ret in H as [-> ?] | H : udiv _ _ _ = _ |- _ => apply udiv_Ret in H as (-> & _ & ?) end.
  done.
Qed.

Lemma executeOrder_Ret ao bo paid t s u s' : executeOrder ao bo paid t s = (Ret u, s') →
  book s' = book s ∧ in_range 256 (t * lot s) ∧ ∃ b w b',
    call_transfer (tokB s) (me s) ao paid (bworld s) = (Ret b, w) ∧
    call_transfer (tokA s) (me s) bo (t * lot s) w = (Ret b', bworld s').
Proof.
  unfold executeOrder. intros H. apply bind_Ret in H as (b & s1 & [[= <-] <-]%gets_run & H).
  apply bind_Ret in H as ([] & s2 & (E2 & b1 & H1)%callTransfer_Ret & H).
  apply bind_Ret in H as (a & s3 & [[= <-] <-]%gets_run & H).
  apply bind_Ret in H as (l & s3 & (-> & Hl & ->)%tokensLot_Ret & (E3 & b2 & H2)%callTransfer_Ret).
  assert (Em : me s2 = me s ∧ lot s2 = lot s ∧ tokA s2 = tokA s) by (unfold me, lot, tokA; by rewrite E2).
  destruct Em as (Em & El & Ea). rewrite Em, El, Ea in *. split_and!; [congruence|done|]. by do 3 eexists.
Qed.
Lemma frame_of s s' : book s' = book s → same_place s s'.
Proof. intros H. unfold same_place, me, tokA, tokB, tick, lot. by rewrite H. Qed.

Lemma updateSpread_Ret s u s' : updateSpreadAndMidPrice s = (Ret u, s') → asks_become (asks s) s s'.
Proof.
  unfold updateSpreadAndMidPrice, asks_become. intros H. inv_run.
  destruct (bids _) as [|b l] eqn:Eb, (asks _) as [|a l'] eqn:Ea; unfold in_book in *; inv_run; split_and!; done.
Qed.
Lemma insertAskOrder_run o s : ∃ s', insertAskOrder o s = (Ret (), s') ∧
  asks_become (put_at (ms_upper order_lt (asks s) o) o (asks s)) s s'.
Proof. eexists. split; [reflexivity|]. done. Qed.
Lemma insertBidOrder_run o s : ∃ s', insertBidOrder o s = (Ret (), s') ∧
  bids_become (put_at (ms_upper order_gt (bids s) o) o (bids s)) s s'.
Proof. eexists. split; [reflexivity|]. done. Qed.
Lemma next_id_Ret s u s' : next_id s = (Ret u, s') → asks_become (asks s) s s'.
Proof. unfold next_id, in_book. intros H. inv_run. done. Qed.
Lemma makeOrder_Ret t p k s o s' : makeOrder c t p k s = (Ret o, s') →
  s' = s ∧ o = mkOrder (value_ (nextOrderID_ (book s))) (ci_timestamp c) (ci_caller c) t p k.
Proof. unfold makeOrder. intros H. inv_run. done. Qed.
End runs.

(** ** The loops end *)

Lemma after_fill_shorter {cmp : Order → Order → bool} {SW : StrictWeak cmp} o t l : o_amount o - t = 0 → (length (after_fill cmp o t l) <= length l)%nat.
Proof.
  intros E. unfold after_fill. rewrite E. cbn [Z.eqb ms_upper]. rewrite (cmp_irrefl (cmp := cmp)). cbn [drop]. rewrite length_drop. lia.
Qed.
Lemma after_fill_longer {cmp : Order → Order → bool} {SW : StrictWeak cmp} o t l : (length (after_fill cmp o t l) <= S (length l))%nat.
Proof.
  unfold after_fill. destruct (_ =? 0); [|done]. cbn [ms_upper]. rewrite (cmp_irrefl (cmp := cmp)). cbn [drop]. rewrite length_drop. lia.
Qed.
Definition more (o : Order) : nat := if 0 <? o_amount o then 1%nat else 0%nat.
(** A round makes progress: the resting order goes or the incoming one is done. *)
Lemma round_progress {cmp : Order → Order → bool} {SW : StrictWeak cmp} (o incoming : Order) t l l' : t = Z.min (o_amount o) (o_amount incoming) →
  0 < o_amount incoming → l' = after_fill cmp o t l →
  (length l' + more (set_amount (o_amount incoming - t) incoming) < length (o :: l) + 1)%nat.
Proof.
  intros -> Ha ->. unfold more. cbn [length o_amount set_amount]. pose proof (after_fill_longer (cmp := cmp) o (Z.min (o_amount o) (o_amount incoming)) l).
  destruct (Z.ltb_spec 0 (o_amount incoming - Z.min (o_amount o) (o_amount incoming))) as [Hl|Hl]; [|lia].
  pose proof (after_fill_shorter (cmp := cmp) o (Z.min (o_amount o) (o_amount incoming)) l ltac:(lia)). lia.
Qed.

Section loops.
Context {BI : BoostInt} {T : Type} {TW : TokenWorld T} {SP : SpenderWorld T} (c : CallInfo).
Implicit Types (s : BookCall T).

Lemma bid_loop_more n k bid s : (length (asks s) + more bid < n)%nat → bid_loop (n + k) bid s = bid_loop n bid s.
Proof.
  revert bid s. induction n as [|n IH]; intros bid s Hn; [lia|]. cbn [bid_loop Nat.add].
  destruct (findMatchAskOrder_run bid s) as (s1 & E & _ & _ & Ea1 & _). rewrite !(bind_run _ _ _ _ _ E).
  destruct (match_ask bid (asks s)) as [ask|] eqn:Em; [|done]. destruct (match_ask_head _ _ _ Em) as [l El].
  unfold more in Hn. destruct (Z.ltb_spec 0 (o_amount bid)) as [Hpos|]; cbn [negb]; [|done].
  apply bind_cong. intros paid s2 (_ & _ & ->)%tokensToBePaid_Ret. apply bind_cong. intros [] s3 (E3 & _)%executeOrder_Ret.
  apply bind_cong. intros b s4 [Eb <-]%lift_run. apply usub_Ret in Eb as [-> _].
  assert (Ea3 : asks s3 = ask :: l) by (unfold asks in *; rewrite E3; congruence).
  apply bind_cong. intros [] s5 (_ & _ & _ & Ha5 & _)%(fill_ask_Ret _ l _ _ _ _ Ea3). apply IH.
  pose proof (round_progress (cmp := order_lt) ask bid _ l (asks s5) eq_refl Hpos Ha5). rewrite El in Hn. cbn [length] in *. lia.
Qed.
Lemma ask_loop_more n k ask s : (length (bids s) + more ask < n)%nat → ask_loop (n + k) ask s = ask_loop n ask s.
Proof.
  revert ask s. induction n as [|n IH]; intros ask s Hn; [lia|]. cbn [ask_loop Nat.add].
  destruct (findMatchBidOrder_run ask s) as (s1 & E & _ & _ & _ & Eb1). rewrite !(bind_run _ _ _ _ _ E).
  destruct (match_bid ask (bids s)) as [bid|] eqn:Em; [|done]. destruct (match_bid_head _ _ _ Em) as [l El].
  unfold more in Hn. destruct (Z.ltb_spec 0 (o_amount ask)) as [Hpos|]; cbn [negb]; [|done].
  apply bind_cong. intros paid s2 (_ & _ & ->)%tokensToBePaid_Ret. apply bind_cong. intros [] s3 (E3 & _)%executeOrder_Ret.
  apply bind_cong. intros a s4 [Ea <-]%lift_run. apply usub_Ret in Ea as [-> _].
  assert (Eb3 : bids s3 = bid :: l) by (unfold bids in *; rewrite E3; congruence).
  apply bind_cong. intros [] s5 (_ & _ & _ & _ & Hb5)%(fill_bid_Ret _ l _ _ _ _ Eb3). apply IH.
  rewrite Z.min_comm in *.
  pose proof (round_progress (cmp := order_gt) bid ask _ l (bids s5) eq_refl Hpos Hb5). rewrite El in Hn. cbn [length] in *. lia.
Qed.

(** The fuel of [evaluateBidOrder] and [evaluateAskOrder] is enough. *)
Lemma bid_loop_enough k bid s : bid_loop (S (S (length (asks s))) + k) bid s = bid_loop (S (S (length (asks s)))) bid s.
Proof. apply bid_loop_more. unfold more. destruct (_ <? _); lia. Qed.
Lemma ask_loop_enough k ask s : ask_loop (S (S (length (bids s))) + k) ask s = ask_loop (S (S (length (bids s)))) ask s.
Proof. apply ask_loop_more. unfold more. destruct (_ <? _); lia. Qed.
End loops.

(** ** What the tokens promise *)

Class SpenderLaws (T : Type) {TW : TokenWorld T} {TL : TokenLaws T} {SP : SpenderWorld T} := {
  transferFrom_law w t caller from to v b w' : token_ok w t → in_range 256 v →
    call_transferFrom t caller from to v w = (Ret b, w') →
    v ≤ bal w t from ∧
    (∀ a, bal w' t a = bal w t a - (if decide (a = from) then v else 0) + (if decide (a = to) then v else 0)) ∧
    (∀ t' a, t' ≠ t → bal w' t' a = bal w t' a) ∧ (∀ t', token_ok w t' → token_ok w' t');
  transferFrom_zero w t caller from to : token_ok w t → ∃ b w', call_transferFrom t caller from to 0 w = (Ret b, w');
}.

#[export] Instance ledger_spender {BI : BoostInt} : SpenderWorld Ledger := {|
  call_transferFrom t caller from to v w :=
    match l_tokens w !! t with
    | Some e => let '(r, e') := transferFrom caller from to v e in (r, mkLedger (<[t := e']> (l_tokens w)) (l_feeTo w))
    | None => (Throw no_contract, w)
    end;
|}.
#[export, program] Instance ledger_spender_laws {BI : BoostInt} : SpenderLaws Ledger.
Next Obligation.
  intros BI w t caller from to v b w' (e & Ht & Hi & Hal) Hv H. cbn in *. rewrite Ht in *.
  pose proof (transferFrom_run caller from to v e Hi Hv Hal) as R. destruct (_ && _) eqn:Ec in R.
  2: { destruct R as (x & e2 & R). by rewrite R in H. }
  apply andb_prop in Ec as [_ Hle%Z.leb_le]. destruct R as (e2 & R & Rb & Ri & Ra & _). rewrite R in H. injection H as <- <-. cbn.
  split_and!; [done| | |].
  - intros a. by rewrite lookup_insert_eq, Rb.
  - intros t' a Hne. by rewrite lookup_insert_ne.
  - intros t' (e' & Ht' & Hi'). destruct (decide (t' = t)) as [->|]; [|rewrite lookup_insert_ne by done; eauto].
    rewrite lookup_insert_eq. eexists. split_and!; [done|done|]. intros o p. rewrite Ra. pose proof Hal as Hal0. specialize (Hal o p).
    case_decide as Hd; [|by rewrite Z.sub_0_r]. destruct Hd as [-> ->].
    destruct (Z.leb_spec v (allowance from caller e)) as [Ha|Ha]; [unfold in_range in *; lia|].
    pose proof (transferFrom_run caller from to v e Hi Hv Hal0) as R2.
    rewrite (proj2 (Z.leb_gt v _) Ha) in R2. destruct R2 as (x & y & R2). by rewrite R in R2.
Qed.
Next Obligation.
  intros BI w t caller from to (e & Ht & Hi & Hal). cbn. rewrite Ht.
  pose proof (transferFrom_run caller from to 0 e Hi ltac:(done) Hal) as R.
  rewrite (proj2 (Z.leb_le 0 _)), (proj2 (Z.leb_le 0 _)) in R; [|apply Hi|apply Hal].
  destruct R as (e2 & -> & _). by do 2 eexists.
Qed.

(** ** The asks are backed *)

Definition amounts (l : list Order) : Z := foldr (λ o z, o_amount o + z) 0 l.

Lemma amounts_cons o l : amounts (o :: l) = o_amount o + amounts l.
Proof. done. Qed.
Lemma amounts_app l l' : amounts (l ++ l') = amounts l + amounts l'.
Proof. induction l as [|o l IH]; [done|]. cbn. fold (amounts (l ++ l')) (amounts l). lia. Qed.
Lemma amounts_drop n l : Forall (λ o, 0 <= o_amount o) l → amounts (drop n l) <= amounts l.
Proof.
  intros H. revert n. induction H as [|o l Ho H IH]; intros [|n]; cbn; try lia.
  specialize (IH n). unfold amounts in *. lia.
Qed.
Lemma amounts_nonneg l : Forall (λ o, 0 <= o_amount o) l → 0 <= amounts l.
Proof. induction 1 as [|o l Ho H IH]; cbn; [done|]. unfold amounts in *. lia. Qed.
Lemma amounts_put i o l : amounts (put_at i o l) = o_amount o + amounts l.
Proof. unfold put_at. rewrite amounts_app. cbn. fold (amounts (drop i l)). rewrite <- (take_drop i l) at 3. rewrite amounts_app. lia. Qed.

(** Orders in price-time priority with amounts that are not negative. *)
Definition ordered (cmp : Order → Order → bool) (l : list Order) : Prop := mset_sorted cmp l ∧ Forall (λ o, 0 <= o_amount o) l.

(** A comparison that looks at price and time only. *)
Class PriceTime (cmp : Order → Order → bool) := {
  pt_strict :: StrictWeak cmp;
  pt_left a o o' : cmp (set_amount a o) o' = cmp o o';
  pt_right a o o' : cmp o' (set_amount a o) = cmp o' o;
}.
#[export] Instance order_lt_pt : PriceTime order_lt.
Proof. split; [apply _|done|done]. Qed.
#[export] Instance order_gt_pt : PriceTime order_gt.
Proof. split; [apply _|done|done]. Qed.

Lemma after_fill_ordered {cmp} {PT : PriceTime cmp} o t l : ordered cmp (o :: l) → 0 <= o_amount o - t →
  ordered cmp (after_fill cmp o t l) ∧ amounts (after_fill cmp o t l) <= amounts (o :: l) - t.
Proof.
  intros [Hs Ha] Ht. set (l2 := set_amount (o_amount o - t) o :: l).
  assert (Hl2 : ordered cmp l2).
  { inversion Hs as [|? ? Hs' Ho]; subst. inversion Ha; subst. split; [|by constructor]. constructor; [done|].
    eapply Forall_impl; [exact Ho|]. intros x Hx. by rewrite pt_right. }
  assert (Hsum : amounts l2 = amounts (o :: l) - t) by (unfold l2; cbn; lia).
  unfold after_fill. fold l2. destruct (_ =? 0); [|rewrite <- Hsum; done]. destruct Hl2 as [Hs2 Ha2].
  rewrite <- Hsum. split; [|by apply amounts_drop]. split; [|by apply Forall_drop].
  eapply sorted_sublist; [|exact Hs2]. apply sublist_drop.
Qed.
Lemma put_ordered {cmp} {PT : PriceTime cmp} o l : ordered cmp l → 0 <= o_amount o → ordered cmp (put_at (ms_upper cmp l o) o l).
Proof.
  intros [Hs Ha] Ho. split; [by apply (put_upper_sorted cmp)|]. unfold put_at. apply Forall_app.
  split; [by apply Forall_take|]. constructor; [done|]. by apply Forall_drop.
Qed.

Section backed.
Context {BI : BoostInt} {T : Type} {TW : TokenWorld T} {TL : TokenLaws T} {SP : SpenderWorld T} {SL : SpenderLaws T}.
Implicit Types (s : BookCall T).

(** The book in order, and its A tokens cover the asks and [extra] lots more. *)
Record book_ok (extra : Z) (s : BookCall T) : Prop := {
  bo_A : token_ok (bworld s) (tokA s);
  bo_B : token_ok (bworld s) (tokB s);
  bo_distinct : tokA s ≠ tokB s;
  bo_lot : 0 < lot s;
  bo_asks : ordered order_lt (asks s);
  bo_bids : ordered order_gt (bids s);
  bo_cover : (amounts (asks s) + extra) * lot s <= bal (bworld s) (tokA s) (me s);
}.

Lemma book_ok_weaken e e' s : e' <= e → book_ok e s → book_ok e' s.
Proof. intros He [? ? ? ? ? ? Hc]. split; try done. nia. Qed.
Lemma asks_become_ok l e e' s s' : asks_become l s s' → ordered order_lt l → amounts l + e' <= amounts (asks s) + e →
  book_ok e s → book_ok e' s'.
Proof.
  intros ((Em & EA & EB & Et & El) & Ew & Ea & Eb) Hl Hle [? ? ? ? ? ? Hc].
  split; rewrite ?Em, ?EA, ?EB, ?El, ?Ew, ?Ea, ?Eb; try done. nia.
Qed.
Lemma bids_become_ok l e s s' : bids_become l s s' → ordered order_gt l → book_ok e s → book_ok e s'.
Proof.
  intros ((Em & EA & EB & Et & El) & Ew & Ea & Eb) Hl [? ? ? ? ? ? Hc].
  split; rewrite ?Em, ?EA, ?EB, ?El, ?Ew, ?Ea, ?Eb; done.
Qed.
Lemma same_asks_ok e s s' : asks_become (asks s) s s' → book_ok e s → book_ok e s'.
Proof. intros Hb Ho. apply (asks_become_ok _ e e _ _ Hb); [apply Ho|lia|done]. Qed.
Lemma same_bids_ok e s s' : bids_become (bids s) s s' → book_ok e s → book_ok e s'.
Proof. intros Hb Ho. apply (bids_become_ok _ e _ _ Hb); [apply Ho|done]. Qed.
(** The world moves on. *)
Lemma world_moves_ok e e' s s' : book s' = book s → (∀ t, token_ok (bworld s) t → token_ok (bworld s') t) →
  bal (bworld s) (tokA s) (me s) + (e' - e) * lot s <= bal (bworld s') (tokA s) (me s) → book_ok e s → book_ok e' s'.
Proof.
  intros Eb Hk Hb [? ? ? ? ? ? Hc]. unfold tokA, tokB, lot, asks, bids, me in *. split; unfold tokA, tokB, lot, asks, bids, me; rewrite Eb; auto. lia.
Qed.

Lemma callTransfer_A_ok e t to s u s' : in_range 256 (t * lot s) → callTransfer (tokA s) to (t * lot s) s = (Ret u, s') →
  book_ok e s → book_ok (e - t) s'.
Proof.
  intros Hr (Eb & b & H)%callTransfer_Ret Ho. destruct (transfer_law _ _ _ _ _ _ _ (bo_A _ _ Ho) Hr H) as (_ & Hb & _ & Hk & _).
  eapply (world_moves_ok e); [done|exact Hk| |done]. rewrite Hb, decide_True by done. unfold in_range in Hr. case_decide; lia.
Qed.
Lemma callTransfer_B_ok e to v s u s' : in_range 256 v → callTransfer (tokB s) to v s = (Ret u, s') → book_ok e s → book_ok e s'.
Proof.
  intros Hr (Eb & b & H)%callTransfer_Ret Ho. destruct (transfer_law _ _ _ _ _ _ _ (bo_B _ _ Ho) Hr H) as (_ & _ & Hb & Hk & _).
  eapply (world_moves_ok e); [done|exact Hk| |done]. rewrite Hb by apply (bo_distinct _ _ Ho). lia.
Qed.
Lemma transferToContract_A_ok c e t s u s' : ci_caller c ≠ me s → in_range 256 (t * lot s) →
  transferToContract c (tokA s) (t * lot s) s = (Ret u, s') → book_ok e s → book_ok (e + t) s'.
Proof.
  intros Hc Hr (Eb & b & H)%transferToContract_Ret Ho.
  destruct (transferFrom_law _ _ _ _ _ _ _ _ (bo_A _ _ Ho) Hr H) as (_ & Hb & _ & Hk).
  eapply (world_moves_ok e); [done|exact Hk| |done]. rewrite Hb, decide_False, decide_True by done. lia.
Qed.
Lemma transferToContract_B_ok c e v s u s' : in_range 256 v → transferToContract c (tokB s) v s = (Ret u, s') → book_ok e s → book_ok e s'.
Proof.
  intros Hr (Eb & b & H)%transferToContract_Ret Ho.
  destruct (transferFrom_law _ _ _ _ _ _ _ _ (bo_B _ _ Ho) Hr H) as (_ & _ & Hb & Hk).
  eapply (world_moves_ok e); [done|exact Hk| |done]. rewrite Hb by apply (bo_distinct _ _ Ho). lia.
Qed.
Lemma executeOrder_ok e ao bo paid t s u s' : in_range 256 paid → executeOrder ao bo paid t s = (Ret u, s') →
  book_ok e s → book_ok (e - t) s'.
Proof.
  intros Hp (Eb & Hr & b & w & b' & H1 & H2)%executeOrder_Ret Ho.
  destruct (transfer_law _ _ _ _ _ _ _ (bo_B _ _ Ho) Hp H1) as (_ & _ & Hb1 & Hk1 & _).
  destruct (transfer_law _ _ _ _ _ _ _ (Hk1 _ (bo_A _ _ Ho)) Hr H2) as (_ & Hb2 & _ & Hk2 & _).
  eapply (world_moves_ok e); [done|intros t' Ht; by apply Hk2, Hk1| |done].
  rewrite Hb2, Hb1 by apply (bo_distinct _ _ Ho). rewrite decide_True by done. unfold in_range in Hr. case_decide; lia.
Qed.

Lemma bid_loop_ok n bid o s s' : bid_loop n bid s = (Ret o, s') → 0 <= o_amount bid → book_ok 0 s →
  0 <= o_amount o ∧ o_type o = o_type bid ∧ book_ok 0 s'.
Proof.
  revert bid s. induction n as [|n IH]; intros bid s H Hn Ho; [done|]. cbn [bid_loop] in H.
  destruct (findMatchAskOrder_run bid s) as (s1 & E & Hb1). rewrite (bind_run _ _ _ _ _ E) in H.
  apply (same_asks_ok 0 _ _ Hb1) in Ho. destruct Hb1 as (_ & _ & Ea1 & _).
  destruct (match_ask bid (asks s)) as [ask|] eqn:Em; [|inv_run; done]. destruct (match_ask_head _ _ _ Em) as [l El].
  destruct (negb _); [inv_run; done|].
  apply bind_Ret in H as (paid & s2 & (_ & Hp & ->)%tokensToBePaid_Ret & H). apply bind_Ret in H as ([] & s3 & Hx & H).
  pose proof (executeOrder_ok 0 _ _ _ _ _ _ _ Hp Hx Ho) as Ho3. apply executeOrder_Ret in Hx as (E3 & _).
  apply bind_Ret in H as (b & s4 & [[-> Hr]%usub_Ret <-]%lift_run & H).
  assert (Ea3 : asks s3 = ask :: l) by (unfold asks in *; rewrite E3; congruence).
  apply bind_Ret in H as ([] & s5 & (Ht & Hb5)%(fill_ask_Ret _ l _ _ _ _ Ea3) & H).
  assert (Hord : ordered order_lt (ask :: l)) by (rewrite <- Ea3; apply Ho3).
  destruct (after_fill_ordered _ _ _ Hord Ht) as [Hf Hsum].
  apply IH in H; [exact H|apply Hr|]. eapply asks_become_ok; [exact Hb5|exact Hf| |exact Ho3]. rewrite Ea3. lia.
Qed.
Lemma ask_loop_ok n ask o s s' : ask_loop n ask s = (Ret o, s') → 0 <= o_amount ask → book_ok (o_amount ask) s →
  0 <= o_amount o ∧ o_type o = o_type ask ∧ book_ok (o_amount o) s'.
Proof.
  revert ask s. induction n as [|n IH]; intros ask s H Hn Ho; [done|]. cbn [ask_loop] in H.
  destruct (findMatchBidOrder_run ask s) as (s1 & E & Hb1). rewrite (bind_run _ _ _ _ _ E) in H.
  apply (same_bids_ok _ _ _ Hb1) in Ho. destruct Hb1 as (_ & _ & _ & Eb1).
  destruct (match_bid ask (bids s)) as [bid|] eqn:Em; [|inv_run; done]. destruct (match_bid_head _ _ _ Em) as [l El].
  destruct (negb _); [inv_run; done|].
  apply bind_Ret in H as (paid & s2 & (_ & Hp & ->)%tokensToBePaid_Ret & H). apply bind_Ret in H as ([] & s3 & Hx & H).
  pose proof (executeOrder_ok _ _ _ _ _ _ _ _ Hp Hx Ho) as Ho3. apply executeOrder_Ret in Hx as (E3 & _).
  apply bind_Ret in H as (b & s4 & [[-> Hr]%usub_Ret <-]%lift_run & H).
  assert (Eb3 : bids s3 = bid :: l) by (unfold bids in *; rewrite E3; congruence).
  apply bind_Ret in H as ([] & s5 & (Ht & Hb5)%(fill_bid_Ret _ l _ _ _ _ Eb3) & H).
  assert (Hord : ordered order_gt (bid :: l)) by (rewrite <- Eb3; apply Ho3).
  destruct (after_fill_ordered _ _ _ Hord Ht) as [Hf _].
  apply IH in H; [exact H|apply Hr|]. eapply bids_become_ok; [exact Hb5|exact Hf|exact Ho3].
Qed.
Lemma market_bid_loop_ok c n budget bid o s s' : market_bid_loop c n budget bid s = (Ret o, s') → book_ok 0 s → book_ok 0 s'.
Proof.
  revert budget bid s. induction n as [|n IH]; intros budget bid s H Ho; [done|]. cbn [market_bid_loop] in H.
  destruct (findMatchAskOrder_run bid s) as (s1 & E & Hb1). rewrite (bind_run _ _ _ _ _ E) in H.
  apply (same_asks_ok 0 _ _ Hb1) in Ho. destruct Hb1 as (_ & _ & Ea1 & _).
  destruct (match_ask bid (asks s)) as [ask|] eqn:Em; [|inv_run; done]. destruct (match_ask_head _ _ _ Em) as [l El].
  destruct (_ || _); [inv_run; done|].
  apply bind_Ret in H as (bu & s2 & [_ <-]%lift_run & H). apply bind_Ret in H as (aff & s2 & [_ <-]%lift_run & H).
  apply bind_Ret in H as (paid & s2 & (_ & Hp & ->)%tokensToBePaid_Ret & H).
  apply bind_Ret in H as (b & s2 & [[= <-] <-]%gets_run & H).
  apply bind_Ret in H as ([] & s2 & Hx0 & H). pose proof (transferToContract_B_ok c _ _ _ _ _ Hp Hx0 Ho) as Ho2.
  apply transferToContract_Ret in Hx0 as (E2 & _). apply bind_Ret in H as ([] & s3 & Hx & H).
  pose proof (executeOrder_ok 0 _ _ _ _ _ _ _ Hp Hx Ho2) as Ho3. apply executeOrder_Ret in Hx as (E3 & _).
  apply bind_Ret in H as (lft & s4 & [_ <-]%lift_run & H). apply bind_Ret in H as (am & s4 & [_ <-]%lift_run & H).
  assert (Ea3 : asks s3 = ask :: l) by (unfold asks in *; rewrite E3, E2; congruence).
  apply bind_Ret in H as ([] & s5 & (Ht & Hb5)%(fill_ask_Ret _ l _ _ _ _ Ea3) & H).
  assert (Hord : ordered order_lt (ask :: l)) by (rewrite <- Ea3; apply Ho3).
  destruct (after_fill_ordered _ _ _ Hord Ht) as [Hf Hsum].
  apply IH in H; [exact H|]. eapply asks_become_ok; [exact Hb5|exact Hf| |exact Ho3]. rewrite Ea3. lia.
Qed.

Lemma ordered_sublist {cmp} {SW : StrictWeak cmp} l l' : sublist l' l → ordered cmp l → ordered cmp l'.
Proof.
  intros Hl [Hs Ha]. split; [by eapply sorted_sublist|]. rewrite Forall_forall in *. eauto using elem_of_sublist.
Qed.
Lemma sublist_remove {A} (o : A) l l' : sublist (l ++ l') (l ++ o :: l').
Proof. apply sublist_app; [done|]. by constructor. Qed.

Lemma del_asks_ok c id kept l s u s' : asks s = kept ++ l → book_ok 0 s →
  del_loop put_asks_value (del_ask_pred c id) kept l s = (Ret u, s') → book_ok 0 s'.
Proof.
  revert kept s. induction l as [|o l IH]; intros kept s Ea Ho H; cbn [del_loop] in H; [by inv_run|].
  apply bind_Ret in H as (gone & s1 & Hp & H). unfold del_ask_pred in Hp.
  destruct (negb (o_id o =? id)).
  { inv_run. eapply IH; [|exact Ho|exact H]. by rewrite <- (assoc_L (++)). }
  apply bind_Ret in Hp as (x & s2 & [_ <-]%throw_if_Ret & Hp). apply bind_Ret in Hp as (a & s2 & [[= <-] <-]%gets_run & Hp).
  apply bind_Ret in Hp as (v & s2 & (-> & Hr & ->)%tokensLot_Ret & Hp). apply bind_Ret in Hp as ([] & s2 & Ht & [<- <-]%mret_run).
  pose proof (callTransfer_A_ok 0 _ _ _ _ _ Hr Ht Ho) as Ho2. apply callTransfer_Ret in Ht as (E2 & _).
  apply bind_Ret in H as ([] & s3 & [= <-] & H).
  assert (Ea2 : asks s2 = kept ++ o :: l) by (unfold asks in *; by rewrite E2).
  match type of H with del_loop _ _ _ _ ?x = _ => set (s3 := x) in H end.
  assert (Hb : asks_become (kept ++ l) s2 s3) by (unfold asks_become; split_and!; done).
  apply (IH kept s3 eq_refl); [|exact H]. apply (asks_become_ok _ (0 - o_amount o) _ _ _ Hb).
  - eapply ordered_sublist; [apply sublist_remove|]. rewrite <- Ea2. apply Ho2.
  - rewrite Ea2, !amounts_app. cbn. fold (amounts l). lia.
  - exact Ho2.
Qed.
Lemma del_bids_ok c id kept l s u s' : bids s = kept ++ l → book_ok 0 s →
  del_loop put_bids_value (del_bid_pred c id) kept l s = (Ret u, s') → book_ok 0 s'.
Proof.
  revert kept s. induction l as [|o l IH]; intros kept s Ea Ho H; cbn [del_loop] in H; [by inv_run|].
  apply bind_Ret in H as (gone & s1 & Hp & H). unfold del_bid_pred in Hp.
  destruct (negb (o_id o =? id)).
  { inv_run. eapply IH; [|exact Ho|exact H]. by rewrite <- (assoc_L (++)). }
  apply bind_Ret in Hp as (x & s2 & [_ <-]%throw_if_Ret & Hp). apply bind_Ret in Hp as (v & s2 & (-> & Hr & ->)%tokensToBePaid_Ret & Hp).
  apply bind_Ret in Hp as (a & s2 & [[= <-] <-]%gets_run & Hp). apply bind_Ret in Hp as ([] & s2 & Ht & [<- <-]%mret_run).
  pose proof (callTransfer_B_ok 0 _ _ _ _ _ Hr Ht Ho) as Ho2. apply callTransfer_Ret in Ht as (E2 & _).
  apply bind_Ret in H as ([] & s3 & [= <-] & H).
  assert (Ea2 : bids s2 = kept ++ o :: l) by (unfold bids in *; by rewrite E2).
  match type of H with del_loop _ _ _ _ ?x = _ => set (s3 := x) in H end.
  assert (Hb : bids_become (kept ++ l) s2 s3) by (unfold bids_become; split_and!; done).
  apply (IH kept s3 eq_refl); [|exact H]. apply (bids_become_ok _ _ _ _ Hb); [|exact Ho2].
  eapply ordered_sublist; [apply sublist_remove|]. rewrite <- Ea2. apply Ho2.
Qed.

(** ** Calls *)

Inductive BookOp :=
| AddBidLimit (tokenAmount tokenPrice : Z) | AddAskLimit (tokenAmount tokenPrice : Z)
| AddBidMarket (fuel : nat) (tokenAmount tokenPrice : Z) | AddAskMarket (tokenAmount tokenPrice : Z)
| DelBid (id : Z) | DelAsk (id : Z).
Definition book_op (c : CallInfo) (o : BookOp) : M (BookCall T) unit :=
  match o with
  | AddBidLimit a p => addBidLimitOrder c a p
  | AddAskLimit a p => addAskLimitOrder c a p
  | AddBidMarket n a p => addBidMarketOrder c n a p
  | AddAskMarket a p => addAskMarketOrder c a p
  | DelBid id => delBidLimitOrder c id
  | DelAsk id => delAskLimitOrder c id
  end.

(** The arguments are numbers of 256 bits. *)
Definition op_args (o : BookOp) : Prop :=
  match o with
  | AddBidLimit a p | AddAskLimit a p | AddBidMarket _ a p | AddAskMarket a p => in_range 256 a ∧ in_range 256 p
  | DelBid id | DelAsk id => in_range 256 id
  end.

(** What happens to a book: a call by somebody that returns, the host's commit
    (the values stay), and anything else, which cannot take the book's tokens. *)
Inductive book_step : BookCall T → BookCall T → Prop :=
| step_op c o s s' : ci_caller c ≠ me s → op_args o → book_op c o s = (Ret (), s') → book_step s s'
| step_host s s' : asks_become (asks s) s s' → book_step s s'
| step_others s w : (∀ t, token_ok (bworld s) t → token_ok w t ∧ bal (bworld s) t (me s) <= bal w t (me s)) →
    book_step s (mkBookCall (book s) w).

(** The same, where the commit is also known to keep the counter of orders. *)
Inductive call_step : BookCall T → BookCall T → Prop :=
| call_op c o s s' : ci_caller c ≠ me s → op_args o → book_op c o s = (Ret (), s') → call_step s s'
| call_host s s' : asks_become (asks s) s s' →
    value_ (nextOrderID_ (book s')) = value_ (nextOrderID_ (book s)) → call_step s s'
| call_others s w : (∀ t, token_ok (bworld s) t → token_ok w t ∧ bal (bworld s) t (me s) <= bal w t (me s)) →
    call_step s (mkBookCall (book s) w).

Lemma call_step_step s s' : call_step s s' → book_step s s'.
Proof. destruct 1; [by eapply step_op|by apply step_host|by apply step_others]. Qed.

Lemma evaluateAskOrder_ok ask s u s' : 0 <= o_amount ask → book_ok (o_amount ask) s →
  evaluateAskOrder ask s = (Ret u, s') → book_ok 0 s'.
Proof.
  intros Ha Ho H. unfold evaluateAskOrder in H. apply bind_Ret in H as (l & s1 & [[= <-] <-]%gets_run & H).
  apply bind_Ret in H as (o & s1 & (Hn & _ & Ho1)%ask_loop_ok & H); [|done|done].
  apply bind_Ret in H as ([] & s2 & Hi & Hu). apply (same_asks_ok _ _ _ (updateSpread_Ret _ _ _ Hu)).
  destruct (_ && _); [|inv_run; by eapply book_ok_weaken].
  destruct (insertAskOrder_run o s1) as (s3 & E & Hb). rewrite E in Hi. injection Hi as <-.
  eapply asks_become_ok; [exact Hb|apply put_ordered; [apply Ho1|done]| |exact Ho1]. rewrite amounts_put. lia.
Qed.
Lemma evaluateBidOrder_ok bid s u s' : 0 <= o_amount bid → book_ok 0 s → evaluateBidOrder bid s = (Ret u, s') → book_ok 0 s'.
Proof.
  intros Ha Ho H. unfold evaluateBidOrder in H. apply bind_Ret in H as (l & s1 & [[= <-] <-]%gets_run & H).
  apply bind_Ret in H as (o & s1 & (Hn & _ & Ho1)%bid_loop_ok & H); [|done|done].
  apply bind_Ret in H as ([] & s2 & Hi & Hu). apply (same_asks_ok _ _ _ (updateSpread_Ret _ _ _ Hu)).
  destruct (_ <? _); [|by inv_run].
  destruct (insertBidOrder_run o s1) as (s3 & E & Hb). rewrite E in Hi. injection Hi as <-.
  eapply bids_become_ok; [exact Hb|apply put_ordered; [apply Ho1|done]|exact Ho1].
Qed.
Lemma callBalanceOf_ok t owner s v s' : token_ok (bworld s) t → callBalanceOf t owner s = (Ret v, s') → s' = s ∧ v = bal (bworld s) t owner.
Proof.
  intros Ht H. unfold callBalanceOf, in_tokens in H. inv_run. rewrite balanceOf_law in * by done. simplify_eq. by destruct s.
Qed.

Lemma addAsk_deposit c t s x s1 s2 u : ci_caller c ≠ me s → book_ok 0 s →
  callBalanceOf (tokA s) (ci_caller c) s = (Ret x, s1) → in_range 256 (t * lot s) →
  transferToContract c (tokA s) (t * lot s) s1 = (Ret u, s2) → s1 = s ∧ book s2 = book s ∧ book_ok t s2.
Proof.
  intros Hc Ho [-> _]%callBalanceOf_ok Hr H; [|apply Ho]. pose proof (transferToContract_A_ok c 0 t _ _ _ Hc Hr H Ho) as Ho2.
  apply transferToContract_Ret in H as [Eb _]. done.
Qed.

Lemma book_op_ok c o s s' : ci_caller c ≠ me s → op_args o → book_op c o s = (Ret (), s') → book_ok 0 s → book_ok 0 s'.
Proof.
  intros Hc Ha H Ho. destruct o as [a p|a p|n a p|a p|id|id]; cbn [book_op op_args] in *.
  - unfold addBidLimitOrder in H. apply bind_Ret in H as (b & s1 & [[= <-] <-]%gets_run & H).
    apply bind_Ret in H as (x & s1 & [-> _]%callBalanceOf_ok & H); [|apply Ho].
    apply bind_Ret in H as (v & s1 & (_ & Hr & ->)%tokensToBePaid_Ret & H).
    apply bind_Ret in H as (y & s1 & [_ <-]%throw_if_Ret & H). apply bind_Ret in H as ([] & s1 & Ht & H).
    pose proof (transferToContract_B_ok c _ _ _ _ _ Hr Ht Ho) as Ho1.
    apply bind_Ret in H as (o & s2 & [-> ->]%makeOrder_Ret & H). apply bind_Ret in H as ([] & s2 & He & Hn).
    apply (same_asks_ok _ _ _ (next_id_Ret _ _ _ Hn)). eapply evaluateBidOrder_ok; [|exact Ho1|exact He]. apply Ha.
  - unfold addAskLimitOrder in H. apply bind_Ret in H as (b & s1 & [[= <-] <-]%gets_run & H).
    apply bind_Ret in H as (x & s1 & Hx & H). pose proof Hx as [-> _]%callBalanceOf_ok; [|apply Ho].
    apply bind_Ret in H as (l & s1 & (-> & Hr & ->)%tokensLot_Ret & H).
    apply bind_Ret in H as (y & s1 & [_ <-]%throw_if_Ret & H). apply bind_Ret in H as (z & s1 & Hz & H).
    assert (s1 = s) as -> by (unfold isLotSizable in Hz; inv_run; destruct (_ =? _) in Hz; by inv_run).
    apply bind_Ret in H as (y' & s1 & [_ <-]%throw_if_Ret & H). apply bind_Ret in H as (l & s1 & (-> & _ & ->)%tokensLot_Ret & H).
    apply bind_Ret in H as ([] & s1 & Ht & H). destruct (addAsk_deposit c a s _ _ _ _ Hc Ho Hx Hr Ht) as (_ & _ & Ho1).
    apply bind_Ret in H as (o & s2 & [-> ->]%makeOrder_Ret & H). apply bind_Ret in H as ([] & s2 & He & Hn).
    apply (same_asks_ok _ _ _ (next_id_Ret _ _ _ Hn)). eapply evaluateAskOrder_ok; [| |exact He]; [apply Ha|exact Ho1].
  - unfold addBidMarketOrder, evaluateMarketBidOrder in H. apply bind_Ret in H as (b & s1 & [[= <-] <-]%gets_run & H).
    apply bind_Ret in H as (x & s1 & [-> _]%callBalanceOf_ok & H); [|apply Ho].
    apply bind_Ret in H as (v & s1 & Hv & H). unfold tokensTick in Hv. inv_run.
    match goal with H : makeOrder _ _ _ _ _ = _ |- _ => apply makeOrder_Ret in H as [-> ->] end.
    match goal with H : tokensTick _ _ = _ |- _ => unfold tokensTick in H; inv_run end.
    match goal with H : market_bid_loop _ _ _ _ _ = _ |- _ => apply market_bid_loop_ok in H; [|exact Ho] end.
    match goal with H : updateSpreadAndMidPrice _ = _ |- _ => pose proof (same_asks_ok 0 _ _ (updateSpread_Ret _ _ _ H) ltac:(done)) end.
    by apply (same_asks_ok _ _ _ (next_id_Ret _ _ _ ltac:(eassumption))).
  - unfold addAskMarketOrder in H. apply bind_Ret in H as (b & s1 & [[= <-] <-]%gets_run & H).
    apply bind_Ret in H as (x & s1 & Hx & H). pose proof Hx as [-> _]%callBalanceOf_ok; [|apply Ho].
    apply bind_Ret in H as (l & s1 & (-> & Hr & ->)%tokensLot_Ret & H).
    apply bind_Ret in H as (y & s1 & [_ <-]%throw_if_Ret & H).
    apply bind_Ret in H as ([] & s1 & Ht & H). destruct (addAsk_deposit c a s _ _ _ _ Hc Ho Hx Hr Ht) as (_ & _ & Ho1).
    apply bind_Ret in H as (o & s2 & [-> ->]%makeOrder_Ret & H). apply bind_Ret in H as ([] & s2 & He & Hn).
    apply (same_asks_ok _ _ _ (next_id_Ret _ _ _ Hn)). eapply evaluateAskOrder_ok; [| |exact He]; [apply Ha|exact Ho1].
  - unfold delBidLimitOrder in H. apply bind_Ret in H as ([] & s1 & [= <-] & H). apply bind_Ret in H as (l & s2 & [[= <-] <-]%gets_run & H).
    eapply del_bids_ok; [|  |exact H]; [done|]. by apply (same_asks_ok 0 s).
  - unfold delAskLimitOrder in H. apply bind_Ret in H as ([] & s1 & [= <-] & H). apply bind_Ret in H as (l & s2 & [[= <-] <-]%gets_run & H).
    eapply del_asks_ok; [|  |exact H]; [done|]. by apply (same_asks_ok 0 s).
Qed.

Lemma book_step_ok s s' : book_step s s' → book_ok 0 s → book_ok 0 s'.
Proof.
  intros [c o s0 s1 Hc Ha H|s0 s1 H|s0 w H] Ho; [by eapply book_op_ok|by apply (same_asks_ok 0 s0)|].
  destruct (H _ (bo_A _ _ Ho)) as [_ Hb]. apply (world_moves_ok 0 0 s0); [done|intros t Ht; apply H, Ht| |done].
  change (me _) with (me s0). cbn [bworld]. lia.
Qed.

(** ** The numbers of the asks *)

(** The counter, and the numbers of the asks. *)
Definition counter s : Z := value_ (nextOrderID_ (book s)).
Definition ask_ids s : list Z := o_id <$> asks s.

(** Steps that make no new ask and do not count. *)
Definition shrinks s s' : Prop := counter s' = counter s ∧ sublist (ask_ids s') (ask_ids s).
#[local] Instance shrinks_preorder : PreOrder shrinks.
Proof. split; [by split|]. intros x y z [A B] [C D]. split; [congruence|by etrans]. Qed.

Lemma shrinks_same s s' : book s' = book s → shrinks s s'.
Proof. intros E. unfold shrinks, counter, ask_ids, asks. by rewrite E. Qed.
Lemma in_tokens_shrinks {A} (m : M T A) : preserves shrinks (in_tokens m).
Proof. intros s. apply shrinks_same. unfold in_tokens, zoom. by destruct (m (bworld s)). Qed.
Lemma in_asks_shrinks {A} (m : M (SafeMultiSet Order) A) :
  (∀ x, sublist (o_id <$> value_ (m x).2) (o_id <$> value_ x)) → preserves shrinks (in_asks m).
Proof.
  intros Hm s. specialize (Hm (asks_ (book s))). unfold in_asks, in_book, zoom.
  by destruct (m (asks_ (book s))) as [r x].
Qed.
Lemma in_bids_shrinks {A} (m : M (SafeMultiSet Order) A) : preserves shrinks (in_bids m).
Proof. intros s. unfold in_bids, in_book, zoom. by destruct (m (bids_ (book s))). Qed.
Lemma price_shrinks {A} (m : M SafeUint_t A) : preserves shrinks (in_book (zoom lastPrice_ put_lastPrice m)).
Proof. intros s. unfold in_book, zoom. by destruct (m (lastPrice_ (book s))). Qed.
Lemma spread_shrinks {A} (m : M SafeUint_t A) : preserves shrinks (in_book (zoom spread_ put_spread m)).
Proof. intros s. unfold in_book, zoom. by destruct (m (spread_ (book s))). Qed.

Ltac shrink :=
  repeat first
  [ apply in_tokens_shrinks | apply in_bids_shrinks | apply price_shrinks | apply spread_shrinks
  | match goal with
    | |- preserves _ (mbind _ _) => apply preserves_bind; [apply _| |intros ?]
    | |- preserves _ (if ?b then _ else _) => destruct b
    | |- preserves _ (match ?x with _ => _ end) => destruct x
    end
  | solve [auto with bdk] ].

Lemma eraseAskOrder_shrinks o : preserves shrinks (eraseAskOrder o).
Proof.
  apply in_asks_shrinks. intros x. cbn. apply (fmap_sublist o_id), cut_sublist, (lower_le_upper order_lt).
Qed.
Lemma write_first_shrinks a : preserves shrinks (in_asks (write_first a)).
Proof. apply in_asks_shrinks. intros x. cbn. by destruct (value_ x). Qed.
Lemma mset_begin_shrinks : preserves shrinks (in_asks mset_begin).
Proof. by apply in_asks_shrinks. Qed.
#[local] Hint Resolve eraseAskOrder_shrinks write_first_shrinks mset_begin_shrinks : bdk.

Lemma bid_loop_shrinks n bid : preserves shrinks (bid_loop n bid).
Proof.
  revert bid. induction n as [|n IH]; intros bid; cbn [bid_loop];
    unfold findMatchAskOrder, tokensToBePaid, tokensTick, executeOrder, callTransfer, tokensLot, fill_ask, updateLastPrice; shrink.
Qed.
Lemma market_bid_loop_shrinks c n budget bid : preserves shrinks (market_bid_loop c n budget bid).
Proof.
  revert budget bid. induction n as [|n IH]; intros budget bid; cbn [market_bid_loop];
    unfold findMatchAskOrder, tokensToBePaid, tokensTick, transferToContract, executeOrder, callTransfer, tokensLot, fill_ask, updateLastPrice; shrink.
Qed.
Lemma ask_loop_shrinks n ask : preserves shrinks (ask_loop n ask).
Proof.
  revert ask. induction n as [|n IH]; intros ask; cbn [ask_loop];
    unfold findMatchBidOrder, tokensToBePaid, tokensTick, executeOrder, callTransfer, tokensLot, fill_bid, eraseBidOrder, updateLastPrice; shrink.
Qed.
Lemma spread_update_shrinks : preserves shrinks updateSpreadAndMidPrice.
Proof. unfold updateSpreadAndMidPrice. shrink. Qed.

(** Every ask has its own number, below the counter. *)
Definition ids_ok s : Prop := NoDup (ask_ids s) ∧ Forall (λ i, i < counter s) (ask_ids s).
Lemma shrinks_ids_ok s s' : shrinks s s' → ids_ok s → ids_ok s'.
Proof.
  intros [Ec Hs] [Hn Hf]. unfold ids_ok. rewrite Ec. split; [by eapply sublist_NoDup|].
  rewrite Forall_forall in *. intros i Hi. apply Hf. by eapply elem_of_sublist.
Qed.
Lemma shrinks_run {A} (m : M (BookCall T) A) s r s' : preserves shrinks m → m s = (r, s') → shrinks s s'.
Proof. intros Hm E. specialize (Hm s). by rewrite E in Hm. Qed.

(** The ask an operation makes has the number of the counter, which then counts. *)
Lemma ask_loop_id n ask o s s' : ask_loop n ask s = (Ret o, s') → o_id o = o_id ask.
Proof.
  revert ask s. induction n as [|n IH]; intros ask s H; [done|]. cbn [ask_loop] in H.
  apply bind_Ret in H as (m & s1 & _ & H). destruct m as [bid|]; [|by inv_run].
  destruct (negb _); [by inv_run|]. inv_run.
  match goal with H : ask_loop _ _ _ = _ |- _ => by apply IH in H end.
Qed.
Lemma evaluateAskOrder_ids ask s u s' : evaluateAskOrder ask s = (Ret u, s') → ids_ok s → o_id ask = counter s →
  counter s' = counter s ∧ NoDup (ask_ids s') ∧ Forall (λ i, i <= counter s) (ask_ids s').
Proof.
  intros H Hs Hi. unfold evaluateAskOrder in H. apply bind_Ret in H as (l & s1 & [[= <-] <-]%gets_run & H).
  apply bind_Ret in H as (o & s1 & Hl & H). pose proof (ask_loop_id _ _ _ _ _ Hl) as Ho.
  pose proof (shrinks_run _ _ _ _ (ask_loop_shrinks _ _) Hl) as Hs1. pose proof (shrinks_ids_ok _ _ Hs1 Hs) as [Hn Hf].
  destruct Hs1 as [Ec _]. apply bind_Ret in H as ([] & s2 & Hins & Hu).
  pose proof (shrinks_run _ _ _ _ spread_update_shrinks Hu) as [Ecu Hsu].
  assert (Hs2 : counter s2 = counter s1 ∧ NoDup (ask_ids s2) ∧ Forall (λ i, i <= counter s) (ask_ids s2)).
  { destruct (_ && _) in Hins.
    - destruct (insertAskOrder_run o s1) as (s3 & E & _ & _ & Ea & _). pose proof E as Ec3. rewrite E in Hins. injection Hins as <-.
      assert (Ep : ask_ids s3 ≡ₚ counter s :: ask_ids s1) by (unfold ask_ids; rewrite Ea, put_at_perm; cbn; by rewrite Ho, Hi).
      split; [unfold insertAskOrder, in_asks, in_book, mset_insert, mset_op in Ec3; by inv_run|]. rewrite Ec in Hf. rewrite Ep. split.
      + constructor; [|done]. intros Hin. rewrite Forall_forall in Hf. specialize (Hf _ Hin). lia.
      + constructor; [lia|]. eapply Forall_impl; [exact Hf|]. cbn. lia.
    - inv_run. split_and!; [done|done|]. rewrite <- Ec. eapply Forall_impl; [exact Hf|]. cbn. lia. }
  destruct Hs2 as (Ec2 & Hn2 & Hf2). split_and!; [congruence|by eapply sublist_NoDup|].
  rewrite Forall_forall in *. intros i Hin. apply Hf2. by eapply elem_of_sublist.
Qed.
Lemma next_id_counts s u s' : next_id s = (Ret u, s') → counter s' = counter s + 1 ∧ ask_ids s' = ask_ids s.
Proof.
  intros H. unfold next_id, in_book, uint_pre_inc in H. apply zoom_run in H as (b & H & <-). apply zoom_run in H as (v & H & <-).
  unfold checked_assign in H. inv_run. unfold counter, ask_ids. cbn. split; [|done].
  destruct (chk_max _ _ _); [done|]. unfold mark_assign in H. inv_run.
  match goal with H : cast_uint _ _ = _ |- _ => unfold cast_uint in H; apply mk_unsigned_Ret in H as [-> _] end. done.
Qed.
Lemma add_ids_ok s1 s2 s' : NoDup (ask_ids s2) → Forall (λ i, i <= counter s1) (ask_ids s2) → counter s2 = counter s1 →
  next_id s2 = (Ret (), s') → ids_ok s'.
Proof.
  intros Hn Hf Ec [Ec' Ei]%next_id_counts. unfold ids_ok. rewrite Ei, Ec', Ec. split; [done|].
  eapply Forall_impl; [exact Hf|]. cbn. lia.
Qed.

Lemma del_asks_shrinks c id kept l s u s' : asks s = kept ++ l →
  del_loop put_asks_value (del_ask_pred c id) kept l s = (Ret u, s') → shrinks s s'.
Proof.
  revert kept s. induction l as [|o l IH]; intros kept s Ea H; cbn [del_loop] in H; [by inv_run|].
  apply bind_Ret in H as (gone & s1 & Hp & H).
  assert (Hs1 : book s1 = book s).
  { unfold del_ask_pred in Hp. destruct (negb _); [by inv_run|]. inv_run.
    repeat match goal with
    | H : tokensLot _ _ = _ |- _ => apply tokensLot_Ret in H as (_ & _ & ->)
    | H : callTransfer _ _ _ _ = _ |- _ => apply callTransfer_Ret in H as [? _]
    end. done. }
  assert (Ea1 : asks s1 = kept ++ o :: l) by (unfold asks in *; by rewrite Hs1).
  etrans; [by apply shrinks_same|]. destruct gone.
  - apply bind_Ret in H as ([] & s3 & [= <-] & H). eapply IH in H; [|reflexivity]. etrans; [|exact H].
    split; [done|]. unfold ask_ids. rewrite Ea1. apply (fmap_sublist o_id), sublist_remove.
  - eapply IH; [|exact H]. by rewrite <- (assoc_L (++)).
Qed.

Lemma book_op_ids c o s s' : book_op c o s = (Ret (), s') → ids_ok s → ids_ok s'.
Proof.
  assert (Hbal : ∀ t a, preserves shrinks (callBalanceOf (T := T) t a)) by (intros; apply in_tokens_shrinks).
  assert (Hdep : ∀ t v, preserves shrinks (transferToContract c t v)) by (intros; unfold transferToContract; shrink).
  assert (Hlot : ∀ t, preserves shrinks (tokensLot (T := T) t)) by (intros; unfold tokensLot; shrink).
  assert (Hpaid : ∀ a p, preserves shrinks (tokensToBePaid (T := T) a p)) by (intros; unfold tokensToBePaid, tokensTick; shrink).
  assert (Hsize : ∀ p, preserves shrinks (isLotSizable (T := T) p)) by (intros; unfold isLotSizable; shrink).
  assert (Htick : ∀ p, preserves shrinks (tokensTick (T := T) p)) by (intros; unfold tokensTick; shrink).
  assert (Hmake : ∀ a p k, preserves shrinks (makeOrder (T := T) c a p k)) by (intros; unfold makeOrder; shrink).
  assert (Hbid : ∀ o, preserves shrinks (evaluateBidOrder (T := T) o)).
  { intros. unfold evaluateBidOrder, insertBidOrder. pose proof bid_loop_shrinks. pose proof spread_update_shrinks. shrink. }
  assert (Hmbid : ∀ n o, preserves shrinks (evaluateMarketBidOrder (T := T) c n o)).
  { intros. unfold evaluateMarketBidOrder. pose proof market_bid_loop_shrinks. pose proof spread_update_shrinks. shrink. }
  assert (Hadd : ∀ s1 a p k o s2, ids_ok s1 → makeOrder c a p k s1 = (Ret o, s2) → (evaluateAskOrder o ;; next_id) s2 = (Ret (), s') → ids_ok s').
  { intros s1 a p k o' s2 Hs [-> ->]%makeOrder_Ret H. apply bind_Ret in H as ([] & s3 & He & Hn).
    apply evaluateAskOrder_ids in He as (Ec & Hd & Hf); [|done|done]. by eapply add_ids_ok. }
  assert (Hcount : ∀ s1, ids_ok s1 → next_id s1 = (Ret (), s') → ids_ok s').
  { intros s1 [Hn Hf] H. eapply (add_ids_ok s1 s1); [done| |done|done]. eapply Forall_impl; [exact Hf|]. cbn. lia. }
  assert (Hstep : ∀ A (m : M (BookCall T) A) s r s1, preserves shrinks m → m s = (r, s1) → ids_ok s → ids_ok s1).
  { intros A m s0 r s1 Hm E. by eapply shrinks_ids_ok, shrinks_run. }
  intros H Hs. destruct o as [a p|a p|n a p|a p|id|id]; cbn [book_op] in H.
  - unfold addBidLimitOrder in H.
    repeat (apply bind_Ret in H as (? & ? & E & H); eapply Hstep in E; [clear Hs; rename E into Hs| |exact Hs]; [|shrink]). by eapply Hcount.
  - unfold addAskLimitOrder in H. do 8 (apply bind_Ret in H as (? & ? & E & H); eapply Hstep in E; [clear Hs; rename E into Hs| |exact Hs]; [|shrink]).
    apply bind_Ret in H as (? & ? & E & H). by eapply Hadd.
  - unfold addBidMarketOrder in H.
    repeat (apply bind_Ret in H as (? & ? & E & H); eapply Hstep in E; [clear Hs; rename E into Hs| |exact Hs]; [|shrink]). by eapply Hcount.
  - unfold addAskMarketOrder in H. do 5 (apply bind_Ret in H as (? & ? & E & H); eapply Hstep in E; [clear Hs; rename E into Hs| |exact Hs]; [|shrink]).
    apply bind_Ret in H as (? & ? & E & H). by eapply Hadd.
  - unfold delBidLimitOrder in H. eapply Hstep; [|exact H|exact Hs].
    assert (∀ kept l, preserves shrinks (del_loop (put_bids_value (T := T)) (del_bid_pred c id) kept l)).
    { intros kept l. revert kept. induction l as [|o l IH]; intros kept; cbn [del_loop]; unfold del_bid_pred, callTransfer, put_bids_value; shrink. }
    shrink.
  - unfold delAskLimitOrder in H. apply bind_Ret in H as ([] & s1 & [= <-] & H). apply bind_Ret in H as (l & s2 & [[= <-] <-]%gets_run & H).
    apply del_asks_shrinks in H; [|done]. by eapply (shrinks_ids_ok _ _ H).
Qed.

Lemma call_step_ids s s' : call_step s s' → ids_ok s → ids_ok s'.
Proof.
  intros [c o s0 s1 Hc Ha H|s0 s1 (_ & _ & Ea & _) Ec|s0 w H] Hs; [by eapply book_op_ids| |exact Hs].
  apply (shrinks_ids_ok s0); [|done]. split; [exact Ec|]. unfold ask_ids. by rewrite Ea.
Qed.

(** An order is the only one with its number. *)
Lemma filter_own_id o l : NoDup (o_id <$> l) → o ∈ l → filter (λ x, o_id x = o_id o) l = [o].
Proof.
  induction l as [|x l IH]; [by intros _ ?%not_elem_of_nil|]. rewrite fmap_cons, NoDup_cons. intros [Hx Hn] Hin.
  rewrite filter_cons. destruct (decide (o_id x = o_id o)) as [E|E].
  - assert (Hl : filter (λ x, o_id x = o_id o) l = []).
    { apply elem_of_nil_inv. intros y [Ey Hy]%list_elem_of_filter. apply Hx. rewrite E, <- Ey. by apply list_elem_of_fmap_2. }
    rewrite Hl. apply elem_of_cons in Hin as [->|Hin]; [done|]. exfalso. apply Hx. rewrite E. by apply list_elem_of_fmap_2.
  - apply elem_of_cons in Hin as [->|Hin]; [done|]. by apply IH.
Qed.

(** ** Withdrawing an ask *)

Lemma callTransfer_A_run e t to s : book_ok e s → in_range 256 (t * lot s) → t * lot s <= bal (bworld s) (tokA s) (me s) →
  ∃ s', callTransfer (tokA s) to (t * lot s) s = (Ret (), s') ∧ book s' = book s.
Proof.
  intros Ho Hr Hle. destruct (transfer_returns (bworld s) (tokA s) (me s) to (t * lot s)) as (b & w & E); [apply Ho|done|done|].
  exists (mkBookCall (book s) w). split; [|done]. unfold callTransfer, in_tokens, zoom, mbind, M_bind, gets. by rewrite E.
Qed.

Lemma del_ask_pred_other c id o s : o_id o ≠ id → del_ask_pred c id o s = (Ret false, s).
Proof. intros Hi. unfold del_ask_pred. by rewrite (proj2 (Z.eqb_neq _ _) Hi). Qed.
Lemma del_ask_pred_pays c o s s1 : o_owner o = ci_caller c → in_range 256 (o_amount o * lot s) →
  callTransfer (tokA s) (ci_caller c) (o_amount o * lot s) s = (Ret (), s1) → del_ask_pred c (o_id o) o s = (Ret true, s1).
Proof.
  intros Eo Hr E. unfold del_ask_pred. rewrite Eo, !Z.eqb_refl. cbn [negb throw_if].
  erewrite bind_run by reflexivity. erewrite bind_run by reflexivity.
  erewrite bind_run by (unfold tokensLot, umul; erewrite bind_run by reflexivity; by rewrite mk_unsigned_fits).
  by erewrite bind_run by exact E.
Qed.

Lemma del_asks_run c id kept l s : asks s = kept ++ l → book_ok 0 s → ci_caller c ≠ me s →
  bal (bworld s) (tokA s) (me s) < 2 ^ 256 → Forall (λ o, o_id o = id → o_owner o = ci_caller c) l →
  ∃ s', del_loop put_asks_value (del_ask_pred c id) kept l s = (Ret (), s') ∧
    asks s' = kept ++ filter (λ o, o_id o ≠ id) l ∧
    bal (bworld s') (tokA s) (ci_caller c) =
      bal (bworld s) (tokA s) (ci_caller c) + amounts (filter (λ o, o_id o = id) l) * lot s.
Proof.
  intros Ea Ho Hc Hb Hid. revert kept s Ea Ho Hc Hb. induction Hid as [|o l Hid Hrest IH]; intros kept s Ea Ho Hc Hb; cbn [del_loop].
  { exists s. rewrite Ea. split_and!; [done|done|]. cbn. lia. }
  rewrite !filter_cons. destruct (decide (o_id o = id)) as [Hi|Hi].
  2: { rewrite decide_True by done. erewrite bind_run by (by apply del_ask_pred_other). cbn [fst].
       destruct (IH (kept ++ [o]) s) as (s' & E & E2 & E3); [by rewrite <- (assoc_L (++))|done..|].
       exists s'. rewrite <- (assoc_L (++)) in E2. split_and!; [exact E|exact E2|exact E3]. }
  rewrite decide_False by naive_solver.
  pose proof (bo_cover _ _ Ho) as Hcov. pose proof (bo_lot _ _ Ho) as Hlot. destruct (bo_asks _ _ Ho) as [_ Hnn].
  rewrite Ea in Hcov, Hnn. rewrite amounts_app in Hcov. apply Forall_app in Hnn as [Hk Hl]. inversion Hl as [|? ? Ho0 Hl0]; subst.
  apply amounts_nonneg in Hk, Hl0. cbn in Hcov. fold (amounts l) in Hcov.
  assert (Hr : 0 <= o_amount o * lot s <= bal (bworld s) (tokA s) (me s)) by nia.
  assert (Hr2 : in_range 256 (o_amount o * lot s)) by (unfold in_range; lia).
  destruct (callTransfer_A_run 0 (o_amount o) (ci_caller c) s Ho Hr2 ltac:(lia)) as (s1 & E1 & Eb).
  pose proof (callTransfer_A_ok 0 _ _ _ _ _ Hr2 E1 Ho) as Ho1.
  pose proof E1 as (_ & b & Ht)%callTransfer_Ret. destruct (transfer_law _ _ _ _ _ _ _ (bo_A _ _ Ho) Hr2 Ht) as (_ & Hbal & _ & _).
  assert (Ea1 : asks s1 = kept ++ o :: l) by (unfold asks in *; by rewrite Eb).
  destruct (frame_of _ _ Eb) as (Em & EA & _ & _ & El).
  set (s2 := (put_asks_value (T := T) (kept ++ l) s1).2).
  assert (Hb2 : asks_become (kept ++ l) s1 s2) by (unfold asks_become; split_and!; done).
  destruct (IH kept s2) as (s' & E & E2 & E3); [done| | | |].
  - apply (asks_become_ok _ (0 - o_amount o) _ _ _ Hb2); [|rewrite Ea1, !amounts_app; cbn; fold (amounts l); lia|done].
    eapply ordered_sublist; [apply sublist_remove|]. rewrite <- Ea1. apply Ho1.
  - change (me s2) with (me s1). by rewrite Em.
  - change (me s2) with (me s1). change (tokA s2) with (tokA s1). change (bworld s2) with (bworld s1). rewrite EA, Em, Hbal, decide_True by done.
    case_decide; lia.
  - change (tokA s2) with (tokA s1) in E3. change (bworld s2) with (bworld s1) in E3. change (lot s2) with (lot s1) in E3. rewrite EA, El in E3.
    exists s'. split_and!.
    + erewrite bind_run by (apply del_ask_pred_pays; [by apply Hid|exact Hr2|exact E1]). exact E.
    + exact E2.
    + rewrite E3, Hbal, decide_False, decide_True, amounts_cons by done. lia.
Qed.

Lemma delAsk_run c id s : book_ok 0 s → ci_caller c ≠ me s → bal (bworld s) (tokA s) (me s) < 2 ^ 256 →
  Forall (λ o, o_id o = id → o_owner o = ci_caller c) (asks s) →
  ∃ s', delAskLimitOrder c id s = (Ret (), s') ∧ asks s' = filter (λ o, o_id o ≠ id) (asks s) ∧
    bal (bworld s') (tokA s) (ci_caller c) =
      bal (bworld s) (tokA s) (ci_caller c) + amounts (filter (λ o, o_id o = id) (asks s)) * lot s.
Proof.
  intros Ho Hc Hb Hid. set (s1 := mkBookCall (put_asks (mark (asks_ (book s))) (book s)) (bworld s)).
  assert (Hs : asks_become (asks s) s s1) by (unfold asks_become; split_and!; done).
  destruct (del_asks_run c id [] (asks s1) s1 eq_refl) as (s' & E & Ea & Hbal);
    [by apply (same_asks_ok 0 s)|exact Hc|exact Hb|exact Hid|].
  exists s'. split; [|split; [exact Ea|exact Hbal]].
  unfold delAskLimitOrder. erewrite bind_run by reflexivity. by erewrite bind_run by reflexivity.
Qed.

(** ** A limit bid *)

Lemma addBid_Ret c n p s s' : book_ok 0 s → addBidLimitOrder c n p s = (Ret (), s') →
  let v := to_be_paid n p (tick s) in
  let bid := mkOrder (value_ (nextOrderID_ (book s))) (ci_timestamp c) (ci_caller c) n p LIMIT in
  in_range 256 v ∧ ∃ s1 s2, transferToContract c (tokB s) v s = (Ret (), s1) ∧
    evaluateBidOrder bid s1 = (Ret (), s2) ∧ asks_become (asks s2) s2 s'.
Proof.
  intros Ho H. unfold addBidLimitOrder in H. apply bind_Ret in H as (b & s1 & [[= <-] <-]%gets_run & H).
  apply bind_Ret in H as (x & s1 & [-> _]%callBalanceOf_ok & H); [|apply Ho].
  apply bind_Ret in H as (v & s1 & (-> & Hr & ->)%tokensToBePaid_Ret & H).
  apply bind_Ret in H as (y & s1 & [_ <-]%throw_if_Ret & H). apply bind_Ret in H as ([] & s1 & Ht & H).
  apply bind_Ret in H as (o & s2 & [-> ->]%makeOrder_Ret & H). apply bind_Ret in H as ([] & s2 & He & Hn%next_id_Ret).
  pose proof Ht as (Eb & _)%transferToContract_Ret. rewrite Eb in He. split; [done|]. by exists s1, s2.
Qed.

(** No match: the bid rests. *)
Lemma bid_rests bid a l s s' : asks s = a :: l → o_type bid = LIMIT → o_price a < o_price bid → 0 < o_amount bid →
  evaluateBidOrder bid s = (Ret (), s') → asks s' = asks s ∧ bid ∈ bids s' ∧ bworld s' = bworld s.
Proof.
  intros Ea Et Hp Hn H. unfold evaluateBidOrder in H. apply bind_Ret in H as (l0 & s1 & [[= <-] <-]%gets_run & H).
  apply bind_Ret in H as (o & s1 & Hl & H). cbn [bid_loop] in Hl.
  destruct (findMatchAskOrder_run bid s) as (s2 & E & _ & Ew & Ea2 & Eb2). rewrite (bind_run _ _ _ _ _ E) in Hl.
  rewrite Ea in Hl. cbn [match_ask] in Hl. rewrite Et, (proj2 (Z.leb_gt _ _) Hp) in Hl. apply mret_run in Hl as [<- <-].
  apply bind_Ret in H as ([] & s3 & Hi & Hu%updateSpread_Ret). destruct (Z.ltb_spec 0 (o_amount bid)); [|lia].
  destruct (insertBidOrder_run bid s2) as (s4 & E4 & _ & Ew4 & Ea4 & Eb4). rewrite E4 in Hi. injection Hi as <-.
  destruct Hu as (_ & Ewu & Eau & Ebu). split_and!; [congruence| |congruence].
  rewrite Ebu, Eb4, put_at_perm. by left.
Qed.

(** A match with a larger order: one round at the price of the ask. *)
Lemma bid_fills bid a l s s' : asks s = a :: l → o_type bid = LIMIT → o_price bid <= o_price a → 0 < o_amount bid < o_amount a →
  evaluateBidOrder bid s = (Ret (), s') →
  let paid := to_be_paid (o_amount bid) (o_price a) (tick s) in
  bids s' = bids s ∧ asks s' = set_amount (o_amount a - o_amount bid) a :: l ∧
  in_range 256 paid ∧ in_range 256 (o_amount bid * lot s) ∧ ∃ b w b',
    call_transfer (tokB s) (me s) (o_owner a) paid (bworld s) = (Ret b, w) ∧
    call_transfer (tokA s) (me s) (o_owner bid) (o_amount bid * lot s) w = (Ret b', bworld s').
Proof.
  intros Ea Et Hp Hn H. unfold evaluateBidOrder in H. apply bind_Ret in H as (l0 & s1 & [[= <-] <-]%gets_run & H).
  apply bind_Ret in H as (o & s1 & Hl & H). remember (S (length (asks s))) as n eqn:En. cbn [bid_loop] in Hl.
  destruct (findMatchAskOrder_run bid s) as (s2 & E & (Em & EA & EB & Etk & El) & Ew & Ea2 & Eb2). rewrite (bind_run _ _ _ _ _ E) in Hl.
  rewrite Ea in Hl. cbn [match_ask] in Hl. rewrite Et, (proj2 (Z.leb_le _ _) Hp) in Hl.
  destruct (Z.ltb_spec 0 (o_amount bid)); [|lia]. cbn [negb] in Hl. rewrite Z.min_r in Hl by lia.
  apply bind_Ret in Hl as (paid & s3 & (-> & Hr & ->)%tokensToBePaid_Ret & Hl).
  apply bind_Ret in Hl as ([] & s4 & (E4 & Hrl & b & w & b' & H1 & H2)%executeOrder_Ret & Hl).
  apply bind_Ret in Hl as (r & s5 & [[-> _]%usub_Ret <-]%lift_run & Hl).
  assert (Ea4 : asks s4 = a :: l) by (unfold asks in *; by rewrite E4, Ea2).
  apply bind_Ret in Hl as ([] & s6 & (_ & _ & Ew6 & Ea6 & Eb6)%(fill_ask_Ret _ l _ _ _ _ Ea4) & Hl).
  rewrite En in Hl. cbn [bid_loop] in Hl. rewrite Z.sub_diag in Hl.
  destruct (findMatchAskOrder_run (set_amount 0 bid) s6) as (s7 & E7 & _ & Ew7 & Ea7 & Eb7). rewrite (bind_run _ _ _ _ _ E7) in Hl.
  assert (o = set_amount 0 bid ∧ s1 = s7) as [-> ->] 
    by (change (0 <? o_amount (set_amount 0 bid)) with false in Hl; cbn [negb] in Hl; destruct (match_ask _ _); inv_run; done).
  apply bind_Ret in H as ([] & s8 & Hi & (_ & Ew8 & Ea8 & Eb8)%updateSpread_Ret). cbn in Hi. inv_run.
  unfold after_fill in Ea6. cbv zeta in Ea6. rewrite (proj2 (Z.eqb_neq (o_amount a - o_amount bid) 0)) in Ea6 by lia.
  rewrite Etk in *. rewrite El in *. assert (Eb4 : bids s4 = bids s2) by (unfold bids; by rewrite E4).
  intros paid. split_and!; [congruence|by rewrite Ea8, Ea7|done|done|]. exists b, w, b'. rewrite EB, Em, Ew in H1. rewrite EA, Em in H2. split; [exact H1|].
  rewrite H2. f_equal. congruence.
Qed.

(** ** A market bid *)

Lemma callTransfer_zero token to s : token_ok (bworld s) token → ∃ s', callTransfer token to 0 s = (Ret (), s') ∧ book s' = book s ∧
  (∀ t, token_ok (bworld s) t → token_ok (bworld s') t).
Proof.
  intros Ht. destruct (transfer_returns (bworld s) token (me s) to 0 Ht ltac:(done)) as (b & w & E); [by apply bal_nonneg|].
  exists (mkBookCall (book s) w). split_and!; [|done|].
  - unfold callTransfer, in_tokens, zoom, mbind, M_bind, gets. by rewrite E.
  - by apply (transfer_law _ _ _ _ _ _ _ Ht ltac:(done) E).
Qed.

Lemma transferToContract_zero c token s : token_ok (bworld s) token → ∃ s', transferToContract c token 0 s = (Ret (), s') ∧
  book s' = book s ∧ (∀ t, token_ok (bworld s) t → token_ok (bworld s') t).
Proof.
  intros Ht. destruct (transferFrom_zero (bworld s) token (me s) (ci_caller c) (me s) Ht) as (b & w & E).
  exists (mkBookCall (book s) w). split_and!; [|done|].
  - unfold transferToContract, in_tokens, zoom, mbind, M_bind, gets. by rewrite E.
  - by apply (transferFrom_law _ _ _ _ _ _ _ _ Ht ltac:(done) E).
Qed.
Lemma executeOrder_zero ao bo s : token_ok (bworld s) (tokA s) → token_ok (bworld s) (tokB s) → ∃ s', executeOrder ao bo 0 0 s = (Ret (), s') ∧
  book s' = book s ∧ (∀ t, token_ok (bworld s) t → token_ok (bworld s') t).
Proof.
  intros HA HB. destruct (callTransfer_zero (tokB s) ao s HB) as (s1 & E1 & Eb1 & K1).
  assert (EA : tokA s1 = tokA s) by (unfold tokA; by rewrite Eb1).
  destruct (callTransfer_zero (tokA s1) bo s1) as (s2 & E2 & Eb2 & K2); [rewrite EA; by apply K1|].
  exists s2. split_and!; [|congruence|auto]. unfold executeOrder. erewrite bind_run by reflexivity. erewrite bind_run by exact E1.
  erewrite bind_run by reflexivity. erewrite bind_run by (unfold tokensLot, umul; erewrite bind_run by reflexivity; by rewrite mk_unsigned_fits).
  exact E2.
Qed.
Lemma tokensToBePaid_zero p s : tokensToBePaid 0 p s = (Ret 0, s).
Proof.
  unfold tokensToBePaid, tokensTick, umul. erewrite bind_run by (by rewrite mk_unsigned_fits).
  erewrite bind_run by (erewrite bind_run by reflexivity; by rewrite mk_unsigned_fits). unfold udiv, precision_. cbn. by rewrite mk_unsigned_fits.
Qed.

Lemma market_bid_loop_spins c n budget bid a l s : token_ok (bworld s) (tokA s) → token_ok (bworld s) (tokB s) → asks s = a :: l →
  o_type bid = MARKET → 0 < o_amount bid < 2 ^ 256 → 0 < o_amount a < 2 ^ 256 → 0 < budget → budget * 10000 < o_price a < 2 ^ 256 →
  ∃ s', market_bid_loop c n budget bid s = (Throw undefined_behaviour, s').
Proof.
  revert s. induction n as [|n IH]; intros s HA HB Ea Et Hb Ha Hbu Hp; [by eexists|]. cbn [market_bid_loop].
  destruct (findMatchAskOrder_run bid s) as (s1 & E & (Em & EA & EB & Etk & El) & Ew & Ea1 & Eb1). rewrite (bind_run _ _ _ _ _ E).
  rewrite Ea. cbn [match_ask]. rewrite Et.
  destruct (Z.ltb_spec 0 budget), (Z.ltb_spec 0 (o_amount bid)); try lia. cbn [negb orb].
  assert (Hdiv : budget * 10000 / o_price a = 0) by (apply Z.div_small; lia).
  erewrite bind_run by (unfold lift, umul; by rewrite mk_unsigned_fits by (unfold in_range; lia)).
  erewrite bind_run by (unfold lift, udiv; rewrite (proj2 (Z.eqb_neq _ _)), Hdiv by lia; by rewrite mk_unsigned_fits by done).
  rewrite Z.min_r by lia.
  erewrite bind_run by apply tokensToBePaid_zero. erewrite bind_run by reflexivity. rewrite <- Ew, <- EA, <- EB in *.
  destruct (transferToContract_zero c (tokB s1) s1 HB) as (s2 & E2 & B2 & K2). erewrite bind_run by exact E2.
  assert (EA2 : tokA s2 = tokA s1 ∧ tokB s2 = tokB s1) by (unfold tokA, tokB; by rewrite B2). destruct EA2 as [EA2 EB2].
  destruct (executeOrder_zero (o_owner a) (o_owner bid) s2) as (s3 & E3 & B3 & K3); [rewrite EA2; auto|rewrite EB2; auto|].
  erewrite bind_run by exact E3. erewrite bind_run by (unfold lift, usub; by rewrite mk_unsigned_fits by (unfold in_range; lia)).
  erewrite bind_run by (unfold lift, usub; by rewrite mk_unsigned_fits by (unfold in_range; lia)). rewrite !Z.sub_0_r.
  assert (Ea3 : asks s3 = a :: l) by (unfold asks in *; rewrite B3, B2; congruence).
  destruct (fill_ask_run a l 0 s3 Ea3) as (s4 & E4 & (_ & EA4 & EB4 & _) & Ew4 & Ea4 & _); [unfold in_range; lia|].
  erewrite bind_run by exact E4. assert (ETA : tokA s3 = tokA s2 ∧ tokB s3 = tokB s2) by (unfold tokA, tokB; by rewrite B3). destruct ETA as [ETA ETB].
  replace (set_amount (o_amount bid) bid) with bid by (by destruct bid). apply IH; try done.
  - rewrite EA4, ETA, EA2, Ew4. auto.
  - rewrite EB4, ETB, EB2, Ew4. auto.
  - rewrite Ea4. unfold after_fill. cbv zeta. rewrite (proj2 (Z.eqb_neq (o_amount a - 0) 0)) by lia. rewrite Z.sub_0_r. by destruct a.
Qed.
End backed.

Lemma exp10_pos {BI : BoostInt} e v : 0 <= e → exp10 e = Ret v → 0 < v.
Proof.
  unfold exp10. intros He H. destruct (e =? 0); [by simplify_eq|]. destruct (e <? 78); [|done].
  apply mk_unsigned_Ret in H as [-> _]. by apply Z.pow_pos_nonneg.
Qed.
Lemma new_book_ok {BI : BoostInt} {T} {TW : TokenWorld T} {TL : TokenLaws T} addA tA dA addB tB dB base b (w : T) :
  OrderBook_new addA tA dA addB tB dB base = Ret b → token_ok w addA → token_ok w addB → addA ≠ addB → book_ok 0 (mkBookCall b w).
Proof.
  unfold OrderBook_new. intros H HA HB Hne. apply bind_outcome_Ret in H as (tk & Htk & H). apply bind_outcome_Ret in H as (lt & Hlt & H).
  injection H as <-. split; try done.
  - unfold lot. cbn. eapply exp10_pos; [|exact Hlt]. apply Z.mod_pos_bound. lia.
  - split; constructor.
  - split; constructor.
  - cbn. apply (bal_nonneg w). exact HA.
Qed.

Lemma new_book_ids {BI : BoostInt} {T} addA tA dA addB tB dB base b (w : T) :
  OrderBook_new addA tA dA addB tB dB base = Ret b → ids_ok (mkBookCall b w).
Proof.
  unfold OrderBook_new. intros H. apply bind_outcome_Ret in H as (tk & _ & H). apply bind_outcome_Ret in H as (lt & _ & H).
  injection H as <-. split; constructor.
Qed.

(** ** The properties of the order book *)

(** C18: the order book always holds the tokens its asks offer.  From its creation
    on two different honest tokens, over any calls by others (limit and market
    orders, cancellations) and whatever else happens in between that cannot take
    tokens from the book, both sides stay in price-time priority with amounts that
    are not negative, and the book's balance of the first token covers the sum of
    all asks in lots. *)
Theorem asks_backed {BI : BoostInt} {T} {TW : TokenWorld T} {TL : TokenLaws T} {SP : SpenderWorld T} {SL : SpenderLaws T}
    (addA addB decA decB : Z) (tickerA tickerB : list Ascii.ascii) (base : BaseContract) (b : OrderBook) (w : T) (s : BookCall T) :
  OrderBook_new addA tickerA decA addB tickerB decB base = Ret b → token_ok w addA → token_ok w addB → addA ≠ addB →
  rtc book_step (mkBookCall b w) s →
  amounts (asks s) * lot s <= bal (bworld s) (tokA s) (me s) ∧
  ordered order_lt (asks s) ∧ ordered order_gt (bids s).
Proof.
  intros Hb HA HB Hne Hr. pose proof (new_book_ok _ _ _ _ _ _ _ _ w Hb HA HB Hne) as Ho.
  assert (Ho' : book_ok 0 s) by (clear -Hr Ho SL; induction Hr as [|s1 s2 s3 Hs Hr IH]; [done|]; apply IH; by eapply book_step_ok).
  split_and!; [|apply Ho'|apply Ho']. pose proof (bo_cover _ _ Ho'). lia.
Qed.

(** C38: the owner of an ask can always take it back.  From the creation of the
    book on two different honest tokens, over any calls by others and whatever
    else happens in between: an order number belongs to one ask, and when the
    owner of an ask calls [delAskLimitOrder] with its number, the call returns,
    removes exactly that ask and pays the owner its amount in lots.  The owner is
    not the book, and the book's balance fits in 256 bits. *)
Theorem ask_refundable {BI : BoostInt} {T} {TW : TokenWorld T} {TL : TokenLaws T} {SP : SpenderWorld T} {SL : SpenderLaws T}
    (addA addB decA decB : Z) (tickerA tickerB : list Ascii.ascii) (base : BaseContract) (b : OrderBook) (w : T)
    (s : BookCall T) (o : Order) (timestamp : Z) :
  OrderBook_new addA tickerA decA addB tickerB decB base = Ret b → token_ok w addA → token_ok w addB → addA ≠ addB →
  rtc call_step (mkBookCall b w) s →
  o ∈ asks s → o_owner o ≠ me s → bal (bworld s) (tokA s) (me s) < 2 ^ 256 →
  let c := mkCallInfo (o_owner o) timestamp in
  NoDup (o_id <$> asks s) ∧
  ∃ s', delAskLimitOrder c (o_id o) s = (Ret (), s') ∧ asks s ≡ₚ o :: asks s' ∧
    bal (bworld s') (tokA s) (o_owner o) = bal (bworld s) (tokA s) (o_owner o) + o_amount o * lot s.
Proof.
  intros Hb HA HB Hne Hr Hin Hown Hbal c. pose proof (new_book_ok _ _ _ _ _ _ _ _ w Hb HA HB Hne) as Ho.
  pose proof (new_book_ids _ _ _ _ _ _ _ _ w Hb) as Hi.
  assert (Hs : book_ok 0 s ∧ ids_ok s).
  { clear -Hr Ho Hi SL. induction Hr as [|s1 s2 s3 Hs Hr IH]; [done|]. apply IH; [|by eapply call_step_ids].
    by eapply book_step_ok, Ho; apply call_step_step. }
  destruct Hs as [Ho' [Hn _]]. split; [exact Hn|].
  assert (Hid : Forall (λ x, o_id x = o_id o → o_owner x = ci_caller c) (asks s)).
  { rewrite Forall_forall. intros x Hx Ex. assert (Hf : x ∈ filter (λ y, o_id y = o_id o) (asks s)) by by apply list_elem_of_filter.
    rewrite (filter_own_id o) in Hf by done. by apply list_elem_of_singleton in Hf as ->. }
  destruct (delAsk_run c (o_id o) s Ho' Hown Hbal Hid) as (s' & E & Ea & Eb).
  exists s'. split_and!; [exact E| |].
  - rewrite Ea. rewrite <- (filter_app_complement (λ x, o_id x = o_id o) (asks s)) at 1. by rewrite (filter_own_id o).
  - change (ci_caller c) with (o_owner o) in Eb. rewrite Eb, (filter_own_id o) by done. cbn. by rewrite Z.add_0_r.
Qed.

(** Limit bids are matched the wrong way round, and at others' expense.  When
    a limit bid of [n] lots at price [p] returns and the best ask [a] offers more
    than [n] lots: if the bid offers more than [a] asks for, nothing is traded and
    the bid rests above the ask; if it offers less or the same, it is filled at the
    price of the ask, and the book's balance of the second token changes by what
    the bidder paid in less what the owner of the ask received, so the difference
    is taken from the deposits of other bidders. *)
Theorem limit_bid_inverted {BI : BoostInt} {T} {TW : TokenWorld T} {TL : TokenLaws T} {SP : SpenderWorld T} {SL : SpenderLaws T}
    (c : CallInfo) (n p : Z) (a : Order) (l : list Order) (s s' : BookCall T) :
  book_ok 0 s → ci_caller c ≠ me s → o_owner a ≠ me s → asks s = a :: l → 0 < n < o_amount a →
  addBidLimitOrder c n p s = (Ret (), s') →
  (o_price a < p → asks s' = asks s ∧
     ∃ o, o ∈ bids s' ∧ o_owner o = ci_caller c ∧ o_amount o = n ∧ o_price o = p) ∧
  (p <= o_price a → bids s' = bids s ∧
     bal (bworld s') (tokB s) (me s) =
       bal (bworld s) (tokB s) (me s) + to_be_paid n p (tick s) - to_be_paid n (o_price a) (tick s)).
Proof.
  intros Ho Hc Hao Ea Hn H. apply addBid_Ret in H as (Hr & s1 & s2 & Ht & He & _ & Ew2 & Ea2 & Eb2); [|done].
  pose proof Ht as (Eb & b & Hx)%transferToContract_Ret.
  destruct (transferFrom_law _ _ _ _ _ _ _ _ (bo_B _ _ Ho) Hr Hx) as (_ & Hbal & _ & Hk).
  assert (Ea1 : asks s1 = a :: l) by (unfold asks in *; by rewrite Eb). destruct (frame_of _ _ Eb) as (Em & EA & EB & Etk & El). split; intros Hp.
  - eapply bid_rests in He as (E1 & E2 & _); [|exact Ea1|done|exact Hp|cbn; lia].
    split; [congruence|]. eexists. split; [rewrite Eb2; exact E2|]. done.
  - eapply bid_fills in He as (E1 & _ & Hr1 & Hr2 & b1 & w & b2 & H1 & H2); [|exact Ea1|done|exact Hp|cbn; lia].
    cbn [o_amount o_owner] in *. rewrite Em, EA, EB, Etk, El in *.
    split; [rewrite Eb2, E1; unfold bids; by rewrite Eb|]. rewrite Ew2.
    destruct (transfer_law _ _ _ _ _ _ _ (Hk _ (bo_B _ _ Ho)) Hr1 H1) as (_ & Hb1 & _ & Hk1 & _).
    destruct (transfer_law _ _ _ _ _ _ _ (Hk1 _ (Hk _ (bo_A _ _ Ho))) Hr2 H2) as (_ & _ & Hb2 & _).
    rewrite Hb2 by (intros E; by apply (bo_distinct _ _ Ho)). rewrite Hb1, Hbal. repeat case_decide; congruence || lia.
Qed.

(** The loops of limit orders (and market asks) end: each round removes the
    resting order or uses up the incoming one, so more fuel than the number of
    resting orders and two changes nothing. *)
Theorem order_loops_end {BI : BoostInt} {T} {TW : TokenWorld T} {SP : SpenderWorld T} (k : nat) (o : Order) (s : BookCall T) :
  bid_loop (S (S (length (asks s))) + k) o s = bid_loop (S (S (length (asks s)))) o s ∧
  ask_loop (S (S (length (bids s))) + k) o s = ask_loop (S (S (length (bids s)))) o s.
Proof. split; [apply bid_loop_enough|apply ask_loop_enough]. Qed.

(** A market bid whose budget cannot buy one unit of the best ask never leaves its
    loop: every round trades nothing, and no number of rounds is enough.  The code
    stops only when the gas for its calls of the tokens is used up. *)
Theorem market_bid_spins {BI : BoostInt} {T} {TW : TokenWorld T} {TL : TokenLaws T} {SP : SpenderWorld T} {SL : SpenderLaws T}
    (c : CallInfo) (rounds : nat) (n p : Z) (a : Order) (l : list Order) (s : BookCall T) :
  book_ok 0 s → asks s = a :: l → 0 < n < 2 ^ 256 → 0 < o_amount a < 2 ^ 256 → 0 < tick s → n * tick s < 2 ^ 256 →
  n * tick s * 10000 < o_price a < 2 ^ 256 → n * tick s <= bal (bworld s) (tokB s) (ci_caller c) →
  (addBidMarketOrder c rounds n p s).1 = Throw undefined_behaviour.
Proof.
  intros Ho Ea Hn Ha Htk Hnt Hp Hb. unfold addBidMarketOrder. erewrite bind_run by reflexivity.
  assert (Eb : callBalanceOf (tokB s) (ci_caller c) s = (Ret (bal (bworld s) (tokB s) (ci_caller c)), s)).
  { unfold callBalanceOf, in_tokens, zoom. rewrite balanceOf_law by apply Ho. by destruct s. }
  erewrite bind_run by exact Eb.
  assert (Et : tokensTick n s = (Ret (n * tick s), s)).
  { unfold tokensTick, umul. erewrite bind_run by reflexivity. unfold lift. rewrite mk_unsigned_fits by (unfold in_range; nia). done. }
  erewrite bind_run by exact Et. erewrite bind_run by (unfold throw_if; by rewrite (proj2 (Z.ltb_ge _ _) Hb)).
  erewrite bind_run by reflexivity. set (o := mkOrder _ _ _ _ _ _). unfold evaluateMarketBidOrder.
  destruct (market_bid_loop_spins c rounds (n * tick s) o a l s) as (s' & E); try done; try apply Ho; [nia|].
  erewrite bind_run_throw; [reflexivity|]. erewrite bind_run by exact Et. by apply bind_run_throw.
Qed.

(** ** A book with two tokens *)

Section demo.
#[local] Existing Instance boost_ref.

(** Account 1 owns the tokens at 5, account 2 those at 6; the book at 9 may spend both. *)
Definition demo_asset (owner : Address) : ERC20 := erc_run [OApprove owner 9 (2 ^ 200)] (new_token owner (2 ^ 100)).
Definition demo_ledger : Ledger := mkLedger (<[5 := demo_asset 1]> {[6 := demo_asset 2]}) ∅.
Definition demo_base : BaseContract := mkBase 9 [] 1 808080.
Definition demo_book : OrderBook :=
  match OrderBook_new 5 [] 8 6 [] 8 demo_base with Ret b => b | Throw _ => mkBook demo_base (fresh_var 0) (fresh_var 0) (made_string []) (fresh_var 0) (made_string []) (fresh_var 0) (fresh_var 0) (fresh_var 0) (fresh_var 0) (fresh_var []) (fresh_var []) (fresh_var []) end.
Definition demo_start : BookCall Ledger := mkBookCall demo_book demo_ledger.
Definition demo_run (s : BookCall Ledger) (l : list (CallInfo * BookOp)) : BookCall Ledger :=
  fold_left (λ s co, (book_op co.1 co.2 s).2) l s.
Definition seller (t : Z) : CallInfo := mkCallInfo 1 t.
Definition buyer (t : Z) : CallInfo := mkCallInfo 2 t.

Lemma demo_asset_ok owner : 0 <= owner → val_inv (demo_asset owner) ∧ ∀ a b, in_range 256 (allowance a b (demo_asset owner)).
Proof.
  intros _. assert (H : erc_inv (demo_asset owner)); [|split; apply H].
  unfold demo_asset. cbn. apply (erc_call_inv (OApprove owner 9 (2 ^ 200))); [done|by apply new_token_inv].
Qed.
Lemma demo_new : OrderBook_new 5 [] 8 6 [] 8 demo_base = Ret demo_book.
Proof. vm_compute. reflexivity. Qed.
Lemma demo_start_ok : book_ok 0 demo_start.
Proof.
  eapply new_book_ok; [exact demo_new| | |done].
  - exists (demo_asset 1). split; [done|by apply demo_asset_ok].
  - exists (demo_asset 2). split; [done|by apply demo_asset_ok].
Qed.

(** Two asks with one price in one block: filling the first removes both, and the
    lots of the second stay in the book for ever. *)
Example filled_ask_removes_equals :
  let s := demo_run demo_start [(seller 7, AddAskLimit 10 3); (seller 7, AddAskLimit 4 3); (buyer 8, AddBidLimit 10 3)] in
  asks s = [] ∧ bal (bworld s) 5 9 = 4 * lot s.
Proof. vm_compute. split; reflexivity. Qed.
(** What a market ask does not sell is neither kept as an order nor paid back. *)
Example market_ask_keeps_rest :
  let s := demo_run demo_start [(buyer 7, AddBidLimit 4 3); (seller 8, AddAskMarket 10 0)] in
  asks s = [] ∧ bids s = [] ∧ bal (bworld s) 5 9 = 6 * lot s.
Proof. vm_compute. split_and!; reflexivity. Qed.
(** A market bid for less than the best ask offers throws: it tries to buy all of it. *)
Example market_bid_too_much :
  let s := demo_run demo_start [(seller 7, AddAskLimit 10 3)] in
  (book_op (buyer 8) (AddBidMarket 5 4 0) s).1 = Throw boost_error.
Proof. vm_compute. reflexivity. Qed.

Lemma demo_step c o s : ci_caller c ≠ me s → op_args o → (book_op c o s).1 = Ret () → book_step s (book_op c o s).2.
Proof. intros Hc Ha H. apply (step_op c o); [done|done|]. by destruct (book_op c o s) as [r s'] eqn:E; cbn in H; subst. Qed.
Lemma demo_step_ok c o s : ci_caller c ≠ me s → op_args o → (book_op c o s).1 = Ret () → book_ok 0 s → book_ok 0 (book_op c o s).2.
Proof. intros Hc Ha H. apply book_step_ok. by apply demo_step. Qed.

Definition one_ask : BookCall Ledger := demo_run demo_start [(seller 7, AddAskLimit 10 3)].
Lemma one_ask_ok : book_ok 0 one_ask.
Proof. apply (demo_step_ok (seller 7) (AddAskLimit 10 3)); [done|done|vm_compute; reflexivity|apply demo_start_ok]. Qed.
(** A bid of somebody rests, then an ask above it. *)
Definition crossed : BookCall Ledger := demo_run demo_start [(buyer 6, AddBidLimit 10 20); (seller 7, AddAskLimit 10 30)].
Lemma crossed_ok : book_ok 0 crossed.
Proof.
  apply (demo_step_ok (seller 7) (AddAskLimit 10 30)); [done|done|vm_compute; reflexivity|].
  apply (demo_step_ok (buyer 6) (AddBidLimit 10 20)); [done|done|vm_compute; reflexivity|apply demo_start_ok].
Qed.

Lemma asks_backed_witness : asks one_ask ≠ [] ∧ amounts (asks one_ask) * lot one_ask <= bal (bworld one_ask) 5 9.
Proof.
  split; [vm_compute; discriminate|].
  apply (asks_backed 5 6 8 8 [] [] demo_base demo_book demo_ledger one_ask demo_new);
    [exists (demo_asset 1); split; [done|by apply demo_asset_ok]|exists (demo_asset 2); split; [done|by apply demo_asset_ok]|done|].
  apply rtc_once. apply (demo_step (seller 7) (AddAskLimit 10 3) demo_start); [done|done|vm_compute; reflexivity].
Defined.

Lemma ask_refundable_witness : ∃ s', delAskLimitOrder (seller 8) 0 one_ask = (Ret (), s') ∧ asks s' = [] ∧
  bal (bworld s') 5 1 = 2 ^ 100.
Proof.
  assert (Ha : asks one_ask = [mkOrder 0 7 1 10 3 LIMIT]) by (vm_compute; reflexivity).
  destruct (ask_refundable 5 6 8 8 [] [] demo_base demo_book demo_ledger one_ask (mkOrder 0 7 1 10 3 LIMIT) 8 demo_new)
    as (_ & s' & E & Ep & Eb);
    [exists (demo_asset 1); split; [done|by apply demo_asset_ok]|exists (demo_asset 2); split; [done|by apply demo_asset_ok]|done| | | | |].
  - apply rtc_once. apply (call_op (seller 7) (AddAskLimit 10 3)); [done|done|].
    assert (H : (book_op (seller 7) (AddAskLimit 10 3) demo_start).1 = Ret ()) by (vm_compute; reflexivity).
    change one_ask with (book_op (seller 7) (AddAskLimit 10 3) demo_start).2. rewrite <- H. apply surjective_pairing.
  - rewrite Ha. by left.
  - vm_compute. discriminate.
  - vm_compute. reflexivity.
  - exists s'. split_and!; [exact E| |etrans; [exact Eb|vm_compute; reflexivity]].
    rewrite Ha in Ep. apply Permutation_cons_inv in Ep. by apply Permutation_nil in Ep.
Defined.

Lemma limit_bid_inverted_witness :
  let r := addBidLimitOrder (buyer 8) 4 25 crossed in
  r.1 = Ret () ∧ bids r.2 = bids crossed ∧ bal (bworld r.2) 6 9 = bal (bworld crossed) 6 9 - 20.
Proof.
  assert (E : (addBidLimitOrder (buyer 8) 4 25 crossed).1 = Ret ()) by (vm_compute; reflexivity).
  assert (H1 : ci_caller (buyer 8) ≠ me crossed) by (vm_compute; discriminate).
  assert (H2 : o_owner (mkOrder 1 7 1 10 30 LIMIT) ≠ me crossed) by (vm_compute; discriminate).
  assert (H3 : asks crossed = [mkOrder 1 7 1 10 30 LIMIT]) by (vm_compute; reflexivity).
  assert (H4 : 0 < 4 < 10) by lia.
  assert (H5 : ∀ r, r.1 = Ret () → addBidLimitOrder (buyer 8) 4 25 crossed = r →
    bids r.2 = bids crossed ∧ bal (bworld r.2) 6 9 = bal (bworld crossed) 6 9 - 20).
  { intros [r s'] Hr Er. cbn [fst snd] in *. subst r.
    destruct (limit_bid_inverted (buyer 8) 4 25 _ _ crossed s' crossed_ok H1 H2 H3 H4 Er) as [_ H].
    destruct H as [Hb Hbal]; [cbn [o_price]; lia|]. split; [exact Hb|]. etrans; [exact Hbal|]. vm_compute. reflexivity. }
  intros r. split; [exact E|]. exact (H5 r E eq_refl).
Defined.
End demo.
