(* ===== verification/BookStore.v ===== *)
(** * The order book in the database

    Models [dump] and the loading constructor of src/contract/templates/orderbook/
    orderbook.cpp.  The dump has the settings and counters of the book but not its
    orders, and the loading constructor gives an owner to six of its variables
    only: the sizes, the last price and the three sets of orders are built without
    one, so the host does not learn when they change. *)

From S2P Require Import Prelude CheckedInt ExecutionContext Bytes SafeBase SafeScalars SafeUint SafeString SafeMultiSet Conv Abi DB.
From S2P Require Import ERC20 DexPair BaseContract Ownable OrderBook.

(** [StrConv::stringToBytes] and [bytesToString]. *)
Definition stringToBytes (t : list Ascii.ascii) : list Z := map (λ a, Z.of_N (Ascii.N_of_ascii a)) t.
Definition bytesToString (b : list Z) : list Ascii.ascii := map (λ z, Ascii.ascii_of_N (Z.to_N z)) b.
Lemma bytesToString_of t : bytesToString (stringToBytes t) = t.
Proof.
  unfold bytesToString, stringToBytes. rewrite map_map. etrans; [|apply map_id]. apply map_ext. intros a.
  rewrite N2Z.id. apply Ascii.ascii_N_embedding.
Qed.

Section store.
Context {BI : BoostInt} {BB : BoostBits}.

Definition OrderBook_dump (b : OrderBook) : DBBatch :=
  let p := getDBPrefix (ob_base b) in
  push_back (string_bytes "lastPrice_") (uint256ToBytes (value_ (lastPrice_ b))) p
  (push_back (string_bytes "lotSize_") (uint256ToBytes (value_ (lotSize_ b))) p
  (push_back (string_bytes "tickSize_") (uint256ToBytes (value_ (tickSize_ b))) p
  (push_back (string_bytes "spread_") (uint256ToBytes (value_ (spread_ b))) p
  (push_back (string_bytes "tickerAssetB_") (stringToBytes (ss_value (tickerAssetB_ b))) p
  (push_back (string_bytes "tickerAssetA_") (stringToBytes (ss_value (tickerAssetA_ b))) p
  (push_back (string_bytes "addressAssetB_") (address_bytes (value_ (addressAssetB_ b))) p
  (push_back (string_bytes "addressAssetA_") (address_bytes (value_ (addressAssetA_ b))) p
  (push_back (string_bytes "nextOrderID_") (uint256ToBytes (value_ (nextOrderID_ b))) p
  (base_dump (ob_base b)))))))))).

(** A variable built without an owner, committed and registered for nobody. *)
Definition orphan {A} (v : A) : Scalar A := mkScalar (mkSafeBase false false true) v v.

Context {R : RocksDB}.

Definition OrderBook_load (address : Address) (d : rocks) : outcome OrderBook :=
  b ← base_load address d ;
  let p := getDBPrefix b in
  next ← bytesToUint256 (db_get (string_bytes "nextOrderID_") p d) ;
  addA ← Address_make (db_get (string_bytes "addressAssetA_") p d) ;
  addB ← Address_make (db_get (string_bytes "addressAssetB_") p d) ;
  let tickerA := bytesToString (db_get (string_bytes "tickerAssetA_") p d) in
  let tickerB := bytesToString (db_get (string_bytes "tickerAssetB_") p d) in
  spread ← bytesToUint256 (db_get (string_bytes "spread_") p d) ;
  tick ← bytesToUint256 (db_get (string_bytes "tickSize_") p d) ;
  lot ← bytesToUint256 (db_get (string_bytes "lotSize_") p d) ;
  last ← bytesToUint256 (db_get (string_bytes "lastPrice_") p d) ;
  Ret (mkBook b (scalar_made next) (scalar_made addA) (made_string tickerA) (scalar_made addB) (made_string tickerB)
    (scalar_made spread) (orphan tick) (orphan lot) (orphan last) (orphan []) (orphan []) (orphan [])).

Definition book_groups (b : OrderBook) : list Group :=
  base_groups (ob_base b) ++
  [field "nextOrderID_" (uint256ToBytes (value_ (nextOrderID_ b)));
   field "addressAssetA_" (address_bytes (value_ (addressAssetA_ b)));
   field "addressAssetB_" (address_bytes (value_ (addressAssetB_ b)));
   field "tickerAssetA_" (stringToBytes (ss_value (tickerAssetA_ b)));
   field "tickerAssetB_" (stringToBytes (ss_value (tickerAssetB_ b)));
   field "spread_" (uint256ToBytes (value_ (spread_ b)));
   field "tickSize_" (uint256ToBytes (value_ (tickSize_ b)));
   field "lotSize_" (uint256ToBytes (value_ (lotSize_ b)));
   field "lastPrice_" (uint256ToBytes (value_ (lastPrice_ b)))].
Lemma book_grouped b : grouped (getDBPrefix (ob_base b)) (book_groups b) (puts_ (OrderBook_dump b)).
Proof. by apply grouped_intro. Qed.

Definition book_storable (b : OrderBook) : Prop :=
  base_ok (ob_base b) ∧ in_range 160 (value_ (addressAssetA_ b)) ∧ in_range 160 (value_ (addressAssetB_ b)) ∧
  Forall (in_range 256) [value_ (nextOrderID_ b); value_ (spread_ b); value_ (tickSize_ b); value_ (lotSize_ b); value_ (lastPrice_ b)].

(** What the loaded book keeps. *)
Definition same_settings (b b' : OrderBook) : Prop :=
  ob_base b' = ob_base b ∧ value_ (nextOrderID_ b') = value_ (nextOrderID_ b) ∧
  value_ (addressAssetA_ b') = value_ (addressAssetA_ b) ∧ value_ (addressAssetB_ b') = value_ (addressAssetB_ b) ∧
  ss_value (tickerAssetA_ b') = ss_value (tickerAssetA_ b) ∧ ss_value (tickerAssetB_ b') = ss_value (tickerAssetB_ b) ∧
  value_ (spread_ b') = value_ (spread_ b) ∧ value_ (tickSize_ b') = value_ (tickSize_ b) ∧
  value_ (lotSize_ b') = value_ (lotSize_ b) ∧ value_ (lastPrice_ b') = value_ (lastPrice_ b).

(** An order book that is dumped and loaded keeps its settings and loses all its
    orders, though it still holds their tokens; and its sets of orders no longer
    register with the host, which neither commits nor reverts them. *)
Theorem reload_forgets_orders (b : OrderBook) (d : rocks) :
  book_storable b → stored (getDBPrefix (ob_base b)) (puts_ (OrderBook_dump b)) d →
  ∃ b', OrderBook_load (contractAddress_ (ob_base b)) d = Ret b' ∧ same_settings b b' ∧
    getBids b' = [] ∧ getAsks b' = [] ∧ tracked (sc_base (bids_ b')) = false ∧ tracked (sc_base (asks_ b')) = false.
Proof.
  intros (Hb & HA & HB & Hn) Hs. pose proof (book_grouped b) as Hg. unfold OrderBook_load.
  rewrite (base_load_groups (book_groups b) (puts_ (OrderBook_dump b))); [|done|unfold book_groups; set_solver|done|done].
  cbn [mbind outcome_bind].
  assert (Hget : ∀ t v, field t v ∈ book_groups b → db_get (string_bytes t) (getDBPrefix (ob_base b)) d = v)
    by (intros t v Hin; by apply (grouped_get _ (book_groups b) (puts_ (OrderBook_dump b)))).
  rewrite (Hget "nextOrderID_" (uint256ToBytes (value_ (nextOrderID_ b)))) by in_list.
  rewrite (Hget "addressAssetA_" (address_bytes (value_ (addressAssetA_ b)))) by in_list.
  rewrite (Hget "addressAssetB_" (address_bytes (value_ (addressAssetB_ b)))) by in_list.
  rewrite (Hget "tickerAssetA_" (stringToBytes (ss_value (tickerAssetA_ b)))) by in_list.
  rewrite (Hget "tickerAssetB_" (stringToBytes (ss_value (tickerAssetB_ b)))) by in_list.
  rewrite (Hget "spread_" (uint256ToBytes (value_ (spread_ b)))) by in_list.
  rewrite (Hget "tickSize_" (uint256ToBytes (value_ (tickSize_ b)))) by in_list.
  rewrite (Hget "lotSize_" (uint256ToBytes (value_ (lotSize_ b)))) by in_list.
  rewrite (Hget "lastPrice_" (uint256ToBytes (value_ (lastPrice_ b)))) by in_list.
  rewrite !address_bytes_read by done. repeat (apply Forall_cons in Hn as [? Hn]).
  repeat match goal with H : in_range 256 ?x |- context [bytesToUint256 (uint256ToBytes ?x)] => rewrite (proj2 (u256_bytes x H)) end. cbn [mbind outcome_bind].
  eexists. split; [reflexivity|]. unfold same_settings. cbn. rewrite !bytesToString_of. by split_and!.
Qed.
End store.
