(* ===== verification/ContractManager.v ===== *)
(** * The contract factory and manager

    Models src/contract/contractfactory.h and src/contract/contractmanager.{h,cpp}:
    the table of creation functions, the creation of contracts by encoded calls,
    the queries on deployed contracts, and the list of contracts in the database.
    The tuple of contract types is the class [ContractTypes]: for each type its
    name, constructor arguments, constructors and whether its functions are
    registered; what the objects promise about the database is [TypesLaws].
    [contracts_] of the context maps addresses to identities of objects; the
    objects live in [objects].  The host pointer and its nullifier, which
    creation does not read, are those of [DynamicContract]. *)

From S2P Require Import Prelude CheckedInt SafeBase BlockObservers ExecutionContext Bytes Conv Abi DB BaseContract Messages.

(** An object of a contract class; the manager itself and [rdPoS] are the
    protocol contracts. *)
Inductive Member {Obj : Type} :=
| Protocol (b : BaseContract)
| Deployed (o : Obj).
Arguments Member : clear implicits.

Record TypeEntry {R : RocksDB} {Obj : Type} := mkType {
  ct_name : string;
  ct_args : list abi_type;
  ct_registered : bool;
  (** The constructor from arguments, address, creator and chain id. *)
  ct_make : list abi_val → Address → Address → Z → outcome Obj;
  (** The loading constructor. *)
  ct_load : Address → rocks → outcome Obj;
}.
Arguments TypeEntry {R} Obj.

Class ContractTypes {R : RocksDB} := {
  Obj : Type;
  types : list (TypeEntry Obj);
  obj_base : Obj → BaseContract;
  obj_dump : Obj → DBBatch;
  (** [getBlockNumberObservers] and [getBlockTimestampObservers] *)
  obj_observers : Obj → Queues;
}.

(** [Utils::getRealTypeName<T>()] *)
Definition type_bytes {R : RocksDB} {Obj} (t : TypeEntry Obj) : list Z := string_bytes (ct_name t).

Section manager.
Context {BI : BoostInt} {BB : BoostBits} {AC : AbiCasts} {WK : Walk} {R : RocksDB} {CT : ContractTypes}.
Context {V T : Type} {SV : SafeVar V T} {VO : VarOps V T} {EX : Externals}.

Record Manager := mkManager {
  cm_base : BaseContract;
  createContractFuncs_ : gmap Z (TypeEntry Obj);
  executed_ : bool;
  (** What the host gives access to. *)
  cm_ctx : Ctx;
  objects : list (Member Obj);
  (** [None]: the host has no observers. *)
  blockObservers_ : option Queues;
}.
Definition with_executed b m := mkManager (cm_base m) (createContractFuncs_ m) b (cm_ctx m) (objects m) (blockObservers_ m).
Definition with_cm_ctx c m := mkManager (cm_base m) (createContractFuncs_ m) (executed_ m) c (objects m) (blockObservers_ m).
Definition with_objects l m := mkManager (cm_base m) (createContractFuncs_ m) (executed_ m) (cm_ctx m) l (blockObservers_ m).
Definition with_observers q m := mkManager (cm_base m) (createContractFuncs_ m) (executed_ m) (cm_ctx m) (objects m) q.
Definition cm_in_ctx {A} (m : M Ctx A) : M Manager A := zoom cm_ctx with_cm_ctx m.

(** ** The factory *)

(** [addContractFuncs]: the selector of [createNew<Name>Contract(...)]. *)
Definition create_functor (t : TypeEntry Obj) : outcome Z :=
  functor_encode (λ l, be_bytes 32 (sha3 l)) ("createNew" +:+ ct_name t +:+ "Contract") (ct_args t).
Definition addContractFuncs (t : TypeEntry Obj) (funcs : gmap Z (TypeEntry Obj)) : outcome (gmap Z (TypeEntry Obj)) :=
  functor ← create_functor t ; Ret (<[functor := t]> funcs).
Fixpoint addAllContractFuncs (ts : list (TypeEntry Obj)) (funcs : gmap Z (TypeEntry Obj)) : outcome (gmap Z (TypeEntry Obj)) :=
  match ts with [] => Ret funcs | t :: ts => funcs ← addContractFuncs t funcs ; addAllContractFuncs ts funcs end.

(** [createContractWithTuple]: an exception of the constructor is wrapped. *)
Definition createContractWithTuple (t : TypeEntry Obj) (creator derivedAddress : Address) (chainId : Z)
    (dataTpl : list abi_val) : outcome Obj :=
  match ct_make t dataTpl derivedAddress creator chainId with
  | Ret o => Ret o
  | Throw undefined_behaviour => Throw undefined_behaviour
  | Throw _ => Throw (DynamicException ("Could not construct contract " +:+ ct_name t))
  end.

Definition setupNewContractArgs (t : TypeEntry Obj) (input : list Z) : outcome (list abi_val) :=
  decodeData (ct_args t) (getFunctionArgs input) 0.

(** [ContractHost::addContractObservers] *)
Definition host_addContractObservers (o : Obj) : M Manager unit :=
  modify (λ m, with_observers (addContractObservers (obj_observers o) <$> blockObservers_ m) m).

Definition createNewContract (t : TypeEntry Obj) (sender : Address) (input : list Z) (derivedAddress : Address) : M Manager unit :=
  decodedData ← lift (setupNewContractArgs t input) ;
  throw_if (negb (ct_registered t)) (DynamicException ("Contract " +:+ ct_name t +:+ " is not registered")) ;;
  chainId ← gets (λ m, contractChainId_ (cm_base m)) ;
  contract ← lift (createContractWithTuple t sender derivedAddress chainId decodedData) ;
  p ← gets (λ m, length (objects m)) ;
  modify (λ m, with_objects (objects m ++ [Deployed contract]) m) ;;
  host_addContractObservers contract ;;
  cm_in_ctx (addContract derivedAddress (Some p)).

(** ** The manager *)

Definition member_base (x : Member Obj) : BaseContract := match x with Protocol b => b | Deployed o => obj_base o end.

(** The objects [contracts_] points to, in the order the map is walked. *)
Definition deployed (m : Manager) : list (Address * Member Obj) :=
  omap (λ e : Address * option nat, p ← e.2 ; x ← objects m !! p ; Some (e.1, x)) (walk (contracts_ (world (cm_ctx m)))).

Definition getDeployedContracts (m : Manager) : list (list Z * Address) :=
  map (λ e : Address * Member Obj, (contractName_ (member_base e.2), e.1)) (deployed m).
Definition getDeployedContractsForCreator (creator : Address) (m : Manager) : list (list Z * Address) :=
  map (λ e : Address * Member Obj, (contractName_ (member_base e.2), e.1))
    (filter (λ e : Address * Member Obj, contractCreator_ (member_base e.2) = creator) (deployed m)).
Definition member_at (a : Address) (m : Manager) : option (Member Obj) :=
  op ← contracts_ (world (cm_ctx m)) !! a ; p ← op ; objects m !! p.
Definition getContractInfo (a : Address) (m : Manager) : bool * list Z :=
  match member_at a m with None => (false, []) | Some x => (true, contractName_ (member_base x)) end.

Definition encode_contracts (l : list (list Z * Address)) : list Z :=
  encodeData [TVector (TTuple [TString; TAddress])] [VList (map (λ e, VList [VBytes e.1; VNum e.2]) l)].
Definition encode_info (i : bool * list Z) : list Z :=
  encodeData [TTuple [TBool; TString]] [VList [VBool i.1; VBytes i.2]].

(** The three queries [evmEthCall] and [ethCallView] answer. *)
Definition query_call (input : list Z) (error : string) (m : Manager) : outcome (list Z) :=
  functor ← getFunctor input ;
  let address_arg := vs ← decodeData [TAddress] (getFunctionArgs input) 0 ;
    match vs with [VNum a] => Ret a | _ => Throw undefined_behaviour end in
  if functor =? 2862220943 then Ret (encode_contracts (getDeployedContracts m))
  else if functor =? 1934053210 then a ← address_arg ; Ret (encode_contracts (getDeployedContractsForCreator a m))
  else if functor =? 3444055633 then a ← address_arg ; Ret (encode_info (getContractInfo a m))
  else Throw (DynamicException error).

Definition manager_ethCall (static : bool) (caller : Address) (input : list Z) : M Manager unit :=
  functor ← lift (getFunctor input) ;
  funcs ← gets createContractFuncs_ ;
  match funcs !! functor with
  | None => mret ()
  | Some t =>
      throw_if static (DynamicException "ContractManager: Static calls trying to create a contract?!") ;;
      acc ← cm_in_ctx (getAccount caller) ;
      nonce ← cm_in_ctx (getNonce acc) ;
      createNewContract t caller input (generateContractAddress nonce caller) ;;
      modify (with_executed true)
  end.

Definition manager_evmEthCall (static : bool) (caller : Address) (input : list Z) : M Manager (list Z) :=
  manager_ethCall static caller input ;;
  executed ← gets executed_ ;
  if (executed : bool) then modify (with_executed false) ;; mret []
  else m ← gets id ; lift (query_call input "ContractManager: Invalid function call" m).

Definition ethCallView (input : list Z) (m : Manager) : outcome (list Z) := query_call input "Invalid function call" m.
End manager.

(** ** Creation *)
Section create.
Context {BI : BoostInt} {BB : BoostBits} {AC : AbiCasts} {WK : Walk} {R : RocksDB} {CT : ContractTypes}.
Context {V T : Type} {SV : SafeVar V T} {VO : VarOps V T} {EX : Externals}.
Implicit Types m : Manager.

Lemma addContract_free a p c : contracts_ (world c) !! a = None →
  ∃ c', addContract a (Some p) c = (Ret (), c') ∧ contracts_ (world c') = <[a := Some p]> (contracts_ (world c)) ∧
    accounts_ (world c') = <[a := set_contractType CPP (set_nonce 1 (account (world c) a))]> (accounts_ (world c)).
Proof.
  intros Ha. unfold addContract, getAccount, setNonce, setContractType, notifyNewContract, deref, assign, push, write, gets, modify.
  cbv [mbind M_bind mret M_ret]. rewrite Ha. eexists. split; [reflexivity|]. split; [reflexivity|].
  unfold account. cbn. by rewrite !lookup_insert_eq, !insert_insert_eq.
Qed.
Lemma addContract_taken a p c op : contracts_ (world c) !! a = Some op →
  addContract a (Some p) c = (Throw (DynamicException "contract already exists"), c).
Proof. intros Ha. unfold addContract, gets. cbv [mbind M_bind]. by rewrite Ha. Qed.

(** The address the next contract of [caller] gets. *)
Definition next_address (caller : Address) (m : Manager) : Address :=
  generateContractAddress (nonce (account (world (cm_ctx m)) caller)) caller.

(** What a creation computes before it touches the state. *)
Definition construct (t : TypeEntry Obj) (caller : Address) (input : list Z) (m : Manager) : outcome Obj :=
  vs ← setupNewContractArgs t input ;
  if ct_registered t then createContractWithTuple t caller (next_address caller m) (contractChainId_ (cm_base m)) vs
  else Throw (DynamicException ("Contract " +:+ ct_name t +:+ " is not registered")).

(** The call that creates a contract: a throw leaves contracts and accounts (but
    for the caller's, which the lookup may insert) as they were. *)
Lemma create_run t caller input m : let a := next_address caller m in
  let touched := with_cm_ctx (with_world (λ w, with_accounts (<[caller := account w caller]>) w) (cm_ctx m)) m in
  let added o := with_observers (addContractObservers (obj_observers o) <$> blockObservers_ m)
    (with_objects (objects m ++ [Deployed o]) touched) in
  (acc ← cm_in_ctx (getAccount caller) ; nonce ← cm_in_ctx (getNonce acc) ;
   createNewContract t caller input (generateContractAddress nonce caller)) m =
  match construct t caller input m with
  | Throw e => (Throw e, touched)
  | Ret o => cm_in_ctx (addContract a (Some (length (objects m)))) (added o)
  end.
Proof.
  cbv zeta. unfold construct, next_address, createNewContract, host_addContractObservers, cm_in_ctx, getAccount, getNonce, deref, write.
  unfold zoom, gets, modify, lift, throw_if. cbv [mbind M_bind mret M_ret]. cbn -[generateContractAddress addContract].
  assert (Hn : account (with_accounts <[caller:=account (world (cm_ctx m)) caller]> (world (cm_ctx m))) caller =
    account (world (cm_ctx m)) caller) by (unfold account; cbn; by rewrite lookup_insert_eq).
  rewrite Hn. destruct (setupNewContractArgs t input) as [vs|e]; cbn -[generateContractAddress addContract]; [|done].
  destruct (ct_registered t); cbn -[generateContractAddress addContract]; [|done].
  by destruct (createContractWithTuple _ _ _ _ _).
Qed.

(** The identities in [contracts_] are those of objects. *)
Definition cm_wf m : Prop := ∀ a p, contracts_ (world (cm_ctx m)) !! a = Some (Some p) → (p < length (objects m))%nat.

(** The manager and the state after a contract was created. *)
Definition created_at (a caller : Address) (o : Obj) m m' : Prop :=
  (∀ a', member_at a' m' = if decide (a' = a) then Some (Deployed o) else member_at a' m) ∧
  account (world (cm_ctx m')) a = set_contractType CPP (set_nonce 1 (account (world (cm_ctx m)) a)) ∧
  (∀ a', a' ≠ a → account (world (cm_ctx m')) a' = account (world (cm_ctx m)) a') ∧
  blockObservers_ m' = addContractObservers (obj_observers o) <$> blockObservers_ m.
(** No contract and no account but a default one for the caller; the observers
    of blocks are [q]. *)
Definition nothing_created (q : option Queues) m m' : Prop :=
  (∀ a, member_at a m' = member_at a m) ∧ (∀ a, account (world (cm_ctx m')) a = account (world (cm_ctx m)) a) ∧
  blockObservers_ m' = q.

Lemma member_at_app a x m m' : cm_wf m → objects m' = objects m ++ [x] →
  contracts_ (world (cm_ctx m')) = contracts_ (world (cm_ctx m)) → member_at a m' = member_at a m.
Proof.
  intros Hw Ho Hc. unfold member_at. rewrite Ho, Hc. destruct (contracts_ (world (cm_ctx m)) !! a) as [[p|]|] eqn:E; [|done|done].
  cbn. rewrite lookup_app_l; [done|]. by eapply Hw.
Qed.
Lemma account_inserted a c (w : World) : account (with_accounts <[c := account w c]> w) a = account w a.
Proof.
  unfold account at 1. cbn. destruct (decide (a = c)) as [->|]; [by rewrite lookup_insert_eq|]. by rewrite lookup_insert_ne.
Qed.

Lemma bind_assoc2 {A B C} (m1 : M Manager A) (m2 : A → M Manager B) (m3 : A → B → M Manager C) {D} (k : M Manager D) s :
  ((a ← m1 ; b ← m2 a ; m3 a b) ;; k) s = (a ← m1 ; b ← m2 a ; m3 a b ;; k) s.
Proof.
  unfold mbind, M_bind. destruct (m1 s) as [[a|] s1]; [|done]. by destruct (m2 a s1) as [[b|] s2].
Qed.

Lemma manager_call_spec (static : bool) (caller : Address) (input : list Z) (m : Manager) :
  executed_ m = false → cm_wf m →
  let '(r, m') := manager_evmEthCall static caller input m in
  executed_ m' = false ∧ cm_wf m' ∧
  match getFunctor input with
  | Throw e => r = Throw e ∧ m' = m
  | Ret f =>
      match createContractFuncs_ m !! f with
      | None => r = query_call input "ContractManager: Invalid function call" m ∧ m' = m
      | Some t =>
          if static then returns r = false ∧ m' = m
          else match construct t caller input m, contracts_ (world (cm_ctx m)) !! next_address caller m with
               | Ret o, None => r = Ret [] ∧ created_at (next_address caller m) caller o m m'
               | Ret o, Some _ => r = Throw (DynamicException "contract already exists") ∧
                   nothing_created (addContractObservers (obj_observers o) <$> blockObservers_ m) m m'
               | Throw e, _ => r = Throw e ∧ nothing_created (blockObservers_ m) m m'
               end
      end
  end.
Proof.
  intros He Hw. unfold manager_evmEthCall, manager_ethCall.
  unfold mbind at 1, M_bind at 1. unfold mbind at 1, M_bind at 1. unfold lift at 1.
  destruct (getFunctor input) as [f|e] eqn:Ef; [|done]. unfold mbind at 1, M_bind at 1. unfold gets at 1.
  destruct (createContractFuncs_ m !! f) as [t|] eqn:Et.
  2: { unfold mret at 1, M_ret at 1. unfold mbind, M_bind, gets. cbn. rewrite He. by unfold lift. }
  unfold throw_if. destruct static; [unfold mbind, M_bind, throw; done|].
  unfold mbind at 1, M_bind at 1. unfold mret at 1, M_ret at 1.
  pose proof (create_run t caller input m) as Hrun. cbv zeta in Hrun.
  rewrite <- bind_assoc2. unfold mbind at 1, M_bind at 1. rewrite Hrun. clear Hrun.
  set (touched := with_cm_ctx _ m).
  assert (Ht : nothing_created (blockObservers_ m) m touched).
  { split_and!; [done| |done]. intros a. apply account_inserted. }
  destruct (construct t caller input m) as [o|e]; [|cbn; split_and!; done].
  set (added := with_observers _ _).
  assert (Ha : ∀ a, member_at a added = member_at a m).
  { intros a. apply (member_at_app a (Deployed o)); done. }
  unfold cm_in_ctx, zoom. change (contracts_ (world (cm_ctx m))) with (contracts_ (world (cm_ctx added))).
  destruct (contracts_ (world (cm_ctx added)) !! next_address caller m) as [op|] eqn:Hop.
  - rewrite (addContract_taken _ _ _ _ Hop). cbn. split_and!; [done| |done|split_and!; [exact Ha|apply Ht|done]].
    intros a p Hp. cbn. rewrite length_app. specialize (Hw a p Hp). lia.
  - destruct (addContract_free _ (length (objects m)) _ Hop) as (c' & -> & Hc & Hacc). cbn -[addContractObservers].
    split_and!; [done| |done|]; [|unfold created_at; split_and!].
    + intros a p Hp. cbn in *. rewrite Hc in Hp. rewrite length_app. cbn.
      apply lookup_insert_Some in Hp as [[_ [= <-]]|[_ Hp]]; [lia|]. specialize (Hw a p Hp). lia.
    + intros a. unfold member_at. cbn. rewrite Hc. destruct (decide (a = next_address caller m)) as [->|Hne].
      * rewrite lookup_insert_eq. cbn. rewrite lookup_app_r, Nat.sub_diag by lia. done.
      * rewrite lookup_insert_ne by done. apply (Ha a).
    + unfold account at 1. cbn. rewrite Hacc, lookup_insert_eq. cbn. f_equal. f_equal. apply account_inserted.
    + intros a Hne. unfold account at 1. cbn. rewrite Hacc, lookup_insert_ne by done. apply account_inserted.
    + done.
Qed.

(** The address of a creation depends on the nonce of the caller alone, which
    creation does not change: a contract that calls the manager twice can create
    one contract only. *)
Lemma second_create_fails t t' caller input input' m o f f' :
  executed_ m = false → cm_wf m → getFunctor input = Ret f → createContractFuncs_ m !! f = Some t →
  construct t caller input m = Ret o → contracts_ (world (cm_ctx m)) !! next_address caller m = None →
  next_address caller m ≠ caller → let m' := (manager_evmEthCall false caller input m).2 in
  getFunctor input' = Ret f' → createContractFuncs_ m' !! f' = Some t' →
  returns (manager_evmEthCall false caller input' m').1 = false.
Proof.
  intros He Hw Ef Et Hc Hfree Hne m' Ef' Et'.
  pose proof (manager_call_spec false caller input m He Hw) as H1. rewrite Ef, Et, Hc, Hfree in H1.
  destruct (manager_evmEthCall false caller input m) as [r1 m1]. subst m'. cbn [snd] in *.
  destruct H1 as (He1 & Hw1 & _ & Hm1 & _ & Ha1 & _).
  pose proof (manager_call_spec false caller input' m1 He1 Hw1) as H2. rewrite Ef', Et' in H2.
  assert (Hn : next_address caller m1 = next_address caller m).
  { unfold next_address. by rewrite Ha1. }
  rewrite Hn in H2. specialize (Hm1 (next_address caller m)). rewrite decide_True in Hm1 by done. unfold member_at in Hm1.
  destruct (contracts_ (world (cm_ctx m1)) !! next_address caller m) as [op|]; [|done].
  destruct (manager_evmEthCall false caller input' m1) as [r2 m2]. destruct H2 as (_ & _ & H2).
  by destruct (construct t' caller input' m1), H2 as [-> _].
Qed.
End create.

(** C23: calls to the contract manager do what they say.  A call that selects a
    creation function, in a context that is not static, decodes the arguments,
    runs the constructor and puts the new contract, with its account and its
    observers, at the address of the caller's nonce, provided that address is
    free; in every other case it throws and no contract or account has changed.
    When the address is taken, the observers of the contract that is thrown away
    stay registered, the only trace such a call leaves; the observers are as
    before in every other failure.  Any other selector runs a query, which changes nothing.  The temporary flag
    [executed_] is down after every call, so a creation is never taken for a
    query or a query for a creation. *)
Theorem manager_calls_correct {BI : BoostInt} {BB : BoostBits} {AC : AbiCasts} {WK : Walk} {R : RocksDB} {CT : ContractTypes}
    {V T : Type} {SV : SafeVar V T} {VO : VarOps V T} {EX : Externals} (static : bool) (caller : Address) (input : list Z) (m : Manager) :
  executed_ m = false → cm_wf m →
  let '(r, m') := manager_evmEthCall static caller input m in
  executed_ m' = false ∧ cm_wf m' ∧
  match getFunctor input with
  | Throw e => r = Throw e ∧ m' = m
  | Ret f =>
      match createContractFuncs_ m !! f with
      | None => r = query_call input "ContractManager: Invalid function call" m ∧ m' = m
      | Some t =>
          if static then returns r = false ∧ m' = m
          else match construct t caller input m, contracts_ (world (cm_ctx m)) !! next_address caller m with
               | Ret o, None => r = Ret [] ∧ created_at (next_address caller m) caller o m m'
               | Ret o, Some _ => r = Throw (DynamicException "contract already exists") ∧
                   nothing_created (addContractObservers (obj_observers o) <$> blockObservers_ m) m m'
               | Throw e, _ => r = Throw e ∧ nothing_created (blockObservers_ m) m m'
               end
      end
  end.
Proof. apply manager_call_spec. Qed.

(** ** The contracts in the database *)

(** What the objects promise: the type registered under the name of a contract
    reads back what the contract dumps. *)
Class TypesLaws {R : RocksDB} {CT : ContractTypes} := {
  obj_ok : Obj → Prop;
  obj_same : Obj → Obj → Prop;
  obj_ok_base : ∀ o, obj_ok o → base_ok (obj_base o);
  obj_dump_dels : ∀ o, dels_ (obj_dump o) = [];
  obj_dump_prefix : ∀ o k v, (k, v) ∈ puts_ (obj_dump o) → ∃ s, k = getDBPrefix (obj_base o) ++ s;
  obj_dump_functional : ∀ o, obj_ok o → functional (puts_ (obj_dump o));
  obj_load_dump : ∀ o, obj_ok o →
    ∃ t, list_find (λ t, type_bytes t = contractName_ (obj_base o)) types = Some t ∧
      ∀ d, stored (getDBPrefix (obj_base o)) (puts_ (obj_dump o)) d →
        ∃ o', ct_load t.2 (contractAddress_ (obj_base o)) d = Ret o' ∧ obj_base o' = obj_base o ∧ obj_same o o';
}.

(** [DumpManager::pushBack] on the list of registered objects. *)
Definition pushBack {A} `{EqDecision A} (x : A) (dumpables : list A) : list A :=
  if decide (last dumpables = Some x) then dumpables else dumpables ++ [x].

Section load.
Context {WK : Walk} {R : RocksDB} {CT : ContractTypes}.

(** The entries [ContractManager::dump] writes for [contracts_]; the protocol
    contracts are left out. *)
Definition registry_entries (members : list (Address * Member Obj)) : list Entry :=
  omap (λ e : Address * Member Obj, match e.2 with
        | Protocol _ => None
        | Deployed o => Some (address_bytes e.1, contractName_ (obj_base o))
        end) members.
Definition manager_dump (m : Manager) : DBBatch := push_all (registry_entries (deployed m)) pfx_contractManager batch_nil.

(** What the constructor fills: the contracts, the observers, and the list of
    the dump manager. *)
Record Loading := mkLoading { ld_contracts : gmap Address Obj; ld_observers : Queues; ld_dumpables : list Address }.

(** [loadFromDB]: the first type whose name is the value of the entry;
    [insert] keeps an object that is already there. *)
Definition loadFromDB (e : Entry) (a : Address) (d : rocks) (l : Loading) : outcome (option Loading) :=
  match list_find (λ t, type_bytes t = e.2) types with
  | None => Ret None
  | Some (_, t) =>
      o ← ct_load t a d ;
      let o := default o (ld_contracts l !! a) in
      Ret (Some (mkLoading (<[a := o]> (ld_contracts l)) (addContractObservers (obj_observers o) (ld_observers l))
        (pushBack a (ld_dumpables l))))
  end.

Fixpoint load_contracts (es : list Entry) (d : rocks) (l : Loading) : outcome Loading :=
  match es with
  | [] => Ret l
  | e :: es =>
      a ← Address_make e.1 ;
      r ← loadFromDB e a d l ;
      match r with
      | None => Throw (DynamicException "Unknown contract: ")
      | Some l => load_contracts es d l
      end
  end.

(** The constructor of the manager, after the tables of functions are filled. *)
Definition ContractManager_load (d : rocks) (l : Loading) : outcome Loading :=
  load_contracts (getBatch pfx_contractManager [] d) d l.

(** ** Round trip *)
Context {TL : TypesLaws}.

(** Contracts as the chain keeps them: under their own address, and fit for the
    database. *)
Definition registry_ok (cs : gmap Address Obj) : Prop := map_Forall (λ a o, contractAddress_ (obj_base o) = a ∧ obj_ok o) cs.

(** The database holds the contracts [cs]. *)
Definition registry_stored (cs : gmap Address Obj) (d : rocks) : Prop :=
  (∀ k v, Get (pfx_contractManager ++ k) d = Some v ↔
     ∃ a o, cs !! a = Some o ∧ k = address_bytes a ∧ v = contractName_ (obj_base o)) ∧
  ∀ a o, cs !! a = Some o → stored (getDBPrefix (obj_base o)) (puts_ (obj_dump o)) d.

Lemma registry_address cs a o : registry_ok cs → cs !! a = Some o → in_range 160 a.
Proof. intros Hok Ha. destruct (Hok a o Ha) as [<- Ho]. by apply obj_ok_base. Qed.

(** Each entry loads its contract; the entries are different addresses. *)
Lemma load_contracts_run cs d es l : registry_ok cs → registry_stored cs d →
  Forall (λ e, ∃ a o, cs !! a = Some o ∧ e = (address_bytes a, contractName_ (obj_base o))) es → NoDup es.*1 →
  (∀ e a, e ∈ es → e.1 = address_bytes a → in_range 160 a → ld_contracts l !! a = None) →
  ∃ l', load_contracts es d l = Ret l' ∧
    (∀ a o, cs !! a = Some o → address_bytes a ∈ es.*1 → ∃ o', ld_contracts l' !! a = Some o' ∧ obj_base o' = obj_base o ∧ obj_same o o') ∧
    (∀ a, in_range 160 a → address_bytes a ∉ es.*1 → ld_contracts l' !! a = ld_contracts l !! a).
Proof.
  intros Hok Hst Hes. revert l. induction Hes as [|e es (a & o & Ha & ->) Hes IH]; intros l Hnd Hnew.
  { exists l. split_and!; [done| |done]. intros a o _ H. by apply not_elem_of_nil in H. }
  cbn in Hnd. apply NoDup_cons in Hnd as [Hni Hnd]. pose proof (registry_address cs a o Hok Ha) as Hra.
  destruct (Hok a o Ha) as [Haddr Ho]. destruct (obj_load_dump o Ho) as ([i t] & Hfind & Hload).
  destruct (Hload d (proj2 Hst a o Ha)) as (o' & Hl & Hb & Hs). rewrite Haddr in Hl. cbn [snd] in Hl.
  cbn [load_contracts fst]. rewrite address_bytes_read by done. cbn [mbind outcome_bind]. unfold loadFromDB. cbn [snd].
  rewrite Hfind, Hl. cbn [mbind outcome_bind]. rewrite (Hnew (address_bytes a, contractName_ (obj_base o)) a) by (done || apply list_elem_of_here).
  cbn [default]. set (l1 := mkLoading _ _ _).
  destruct (IH l1 Hnd) as (l' & Hr & Hin & Hout).
  { intros e b He Eb Hb'. unfold l1. cbn. rewrite lookup_insert_ne.
    - apply (Hnew e); [by apply list_elem_of_further|done|done].
    - intros ->. apply Hni. rewrite <- Eb. apply list_elem_of_fmap. by exists e. }
  exists l'. split_and!; [exact Hr| |].
  - intros b ob Hb' Hbin. cbn in Hbin. apply elem_of_cons in Hbin as [E|Hbin]; [|by apply Hin].
    apply address_bytes_inj in E as ->; [|by eapply registry_address|done]. rewrite Ha in Hb'. injection Hb' as <-.
    exists o'. split; [|done]. rewrite Hout by done. unfold l1. cbn. by rewrite lookup_insert_eq.
  - intros b Hrb Hnb. cbn in Hnb. apply not_elem_of_cons in Hnb as [Hne Hnb]. rewrite Hout by done. unfold l1. cbn.
    rewrite lookup_insert_ne; [done|]. intros ->. done.
Qed.

Lemma registry_loaded cs d : registry_ok cs → registry_stored cs d → ∀ q ds,
  ∃ l, ContractManager_load d (mkLoading ∅ q ds) = Ret l ∧
    (∀ a o, cs !! a = Some o → ∃ o', ld_contracts l !! a = Some o' ∧ obj_base o' = obj_base o ∧ obj_same o o') ∧
    (∀ a, in_range 160 a → cs !! a = None → ld_contracts l !! a = None).
Proof.
  intros Hok Hst q ds. pose proof Hst as [Hreg _]. unfold ContractManager_load.
  change (getBatch pfx_contractManager [] d) with (scan pfx_contractManager d).
  assert (Hscan : ∀ k v, (k, v) ∈ scan pfx_contractManager d ↔
    ∃ a o, cs !! a = Some o ∧ k = address_bytes a ∧ v = contractName_ (obj_base o)) by (intros k v; by rewrite elem_of_scan, Hreg).
  destruct (load_contracts_run cs d (scan pfx_contractManager d) (mkLoading ∅ q ds) Hok Hst) as (l & Hl & Hin & Hout).
  - apply Forall_forall. intros [k v] (a & o & Ha & -> & ->)%Hscan. eauto.
  - apply (sorted_keys_nodup _ (scan_sorted pfx_contractManager d)).
  - done.
  - exists l. split_and!; [exact Hl| |].
    + intros a o Ha. apply Hin; [done|]. apply list_elem_of_fmap. exists (address_bytes a, contractName_ (obj_base o)).
      split; [done|]. apply Hscan. eauto.
    + intros a Hra Hn. rewrite Hout; [done|done|]. intros Hi. apply list_elem_of_fmap in Hi as ([k v] & E & Hi).
      cbn in E. apply Hscan in Hi as (b & o & Hb & -> & _). apply address_bytes_inj in E as ->; [|done|by eapply registry_address].
      by rewrite Hn in Hb.
Qed.
End load.
