(* ===== verification/CustomContracts.v ===== *)
(** * The contract types

    Models the tuple [ContractTypes] of src/contract/customcontracts.h for the
    contract classes that are modelled with their database form: ERC20,
    NativeWrapper, ERC721, ERC20Mintable and Ownable, in the order of the tuple.
    The instance of [TypesLaws] puts the promises of the single types together. *)

From S2P Require Import Prelude CheckedInt ExecutionContext Bytes SafeBase SafeScalars SafeMap Conv Abi DB BlockObservers.
From S2P Require Import BaseContract Ownable ERC20 TokenStore ERC721 NftStore Messages AnyVar ContractHost ContractManager.

Inductive AnyContract :=
| CErc20 (c : ERC20Contract)
| CNativeWrapper (c : NativeWrapper)
| CErc721 (c : ERC721Contract)
| CErc20Mintable (c : ERC20Mintable)
| COwnable (c : Ownable).

Section types.
Context {BI : BoostInt} {BB : BoostBits} {WK : Walk} {R : RocksDB}.

(** The constructors from decoded arguments. *)
Definition make_erc20 (args : list abi_val) (address creator : Address) (chainId : Z) : outcome AnyContract :=
  match args with
  | [VBytes name; VBytes symbol; VNum decimals; VNum mintValue] =>
      t ← ERC20_new creator mintValue ;
      Ret (CErc20 (mkToken (mkBase address (string_bytes "ERC20") creator chainId) name symbol decimals t))
  | _ => Throw undefined_behaviour
  end.
Definition make_native (args : list abi_val) (address creator : Address) (chainId : Z) : outcome AnyContract :=
  match args with
  | [VBytes name; VBytes symbol; VNum decimals] =>
      t ← ERC20_new creator 0 ;
      Ret (CNativeWrapper (mkNative (mkToken (mkBase address (string_bytes "NativeWrapper") creator chainId) name symbol decimals t)))
  | _ => Throw undefined_behaviour
  end.
Definition make_mintable (args : list abi_val) (address creator : Address) (chainId : Z) : outcome AnyContract :=
  match args with
  | [VBytes name; VBytes symbol; VNum decimals] =>
      t ← ERC20_new creator 0 ;
      Ret (CErc20Mintable (mkMintable
        (mkToken (mkBase address (string_bytes "ERC20Mintable") creator chainId) name symbol decimals t) (scalar_made creator)))
  | _ => Throw undefined_behaviour
  end.
Definition make_erc721 (args : list abi_val) (address creator : Address) (chainId : Z) : outcome AnyContract :=
  match args with
  | [VBytes name; VBytes symbol] =>
      Ret (CErc721 (mkCollection (mkBase address (string_bytes "ERC721") creator chainId) name symbol ERC721_new))
  | _ => Throw undefined_behaviour
  end.
Definition make_ownable (args : list abi_val) (address creator : Address) (chainId : Z) : outcome AnyContract :=
  match args with
  | [VNum initialOwner] => Ret (COwnable (Ownable_new "Ownable" initialOwner address creator chainId))
  | _ => Throw undefined_behaviour
  end.

Definition any_types : list (TypeEntry AnyContract) :=
  [mkType _ _ "ERC20" [TString; TString; TUint 8; TUint 256] true make_erc20 (λ a d, c ← ERC20_load a d ; Ret (CErc20 c));
   mkType _ _ "NativeWrapper" [TString; TString; TUint 8] true make_native (λ a d, c ← NativeWrapper_load a d ; Ret (CNativeWrapper c));
   mkType _ _ "ERC721" [TString; TString] true make_erc721 (λ a d, c ← ERC721_load a d ; Ret (CErc721 c));
   mkType _ _ "ERC20Mintable" [TString; TString; TUint 8] true make_mintable (λ a d, c ← ERC20Mintable_load a d ; Ret (CErc20Mintable c));
   mkType _ _ "Ownable" [TAddress] true make_ownable (λ a d, c ← Ownable_load a d ; Ret (COwnable c))].

Definition any_base (c : AnyContract) : BaseContract :=
  match c with
  | CErc20 c => tok_base c | CNativeWrapper c => tok_base (nw_token c) | CErc721 c => nft_base c
  | CErc20Mintable c => tok_base (em_token c) | COwnable c => own_base c
  end.
Definition any_dump (c : AnyContract) : DBBatch :=
  match c with
  | CErc20 c => ERC20_dump c | CNativeWrapper c => NativeWrapper_dump c | CErc721 c => ERC721_dump c
  | CErc20Mintable c => ERC20Mintable_dump c | COwnable c => Ownable_dump c
  end.

#[export] Instance custom_types : ContractTypes := {|
  Obj := AnyContract;
  types := any_types;
  obj_base := any_base;
  obj_dump := any_dump;
  obj_observers := λ _, mkQueues [] [];
|}.

(** A contract has the name of its type. *)
Definition any_name (c : AnyContract) : string :=
  match c with
  | CErc20 _ => "ERC20" | CNativeWrapper _ => "NativeWrapper" | CErc721 _ => "ERC721"
  | CErc20Mintable _ => "ERC20Mintable" | COwnable _ => "Ownable"
  end.
Definition any_ok (c : AnyContract) : Prop :=
  contractName_ (any_base c) = string_bytes (any_name c) ∧
  match c with
  | CErc20 c => tok_ok c | CNativeWrapper c => tok_ok (nw_token c) | CErc721 c => nft_ok c
  | CErc20Mintable c => em_ok c | COwnable c => own_ok c
  end.
Definition any_same (c c' : AnyContract) : Prop :=
  match c, c' with
  | CErc20 c, CErc20 c' => tok_same c c'
  | CNativeWrapper c, CNativeWrapper c' => tok_same (nw_token c) (nw_token c')
  | CErc721 c, CErc721 c' => nft_same c c'
  | CErc20Mintable c, CErc20Mintable c' => tok_same (em_token c) (em_token c') ∧ value_ (em_owner_ c') = value_ (em_owner_ c)
  | COwnable c, COwnable c' => owner c' = owner c
  | _, _ => False
  end.

(** The law of a type, with the operations of the classes written out. *)
#[local] Ltac unfold_in H :=
  cbv beta iota delta [c_base c_dump c_load c_ok c_same ERC20_stored Native_stored ERC721_stored Mintable_stored Ownable_stored] in H.
#[local] Ltac law H :=
  let L := fresh in pose proof H as L; unfold_in L;
  cbv beta iota delta [obj_base obj_dump custom_types any_base any_dump]; exact L.

#[export, program] Instance custom_laws : TypesLaws := {|
  obj_ok := any_ok;
  obj_same := any_same;
|}.
Next Obligation. intros [c|c|c|c|c] [_ Hok]; revert Hok; [law (c_ok_base (StoredContract := ERC20_stored) c)
    |law (c_ok_base (StoredContract := Native_stored) c)
    |law (c_ok_base (StoredContract := ERC721_stored) c)
    |law (c_ok_base (StoredContract := Mintable_stored) c)
    |law (c_ok_base (StoredContract := Ownable_stored) c)]. Qed.
Next Obligation. intros [c|c|c|c|c]; [law (c_dump_dels (StoredContract := ERC20_stored) c)
    |law (c_dump_dels (StoredContract := Native_stored) c)
    |law (c_dump_dels (StoredContract := ERC721_stored) c)
    |law (c_dump_dels (StoredContract := Mintable_stored) c)
    |law (c_dump_dels (StoredContract := Ownable_stored) c)]. Qed.
Next Obligation. intros [c|c|c|c|c]; [law (c_dump_prefix (StoredContract := ERC20_stored) c)
    |law (c_dump_prefix (StoredContract := Native_stored) c)
    |law (c_dump_prefix (StoredContract := ERC721_stored) c)
    |law (c_dump_prefix (StoredContract := Mintable_stored) c)
    |law (c_dump_prefix (StoredContract := Ownable_stored) c)]. Qed.
Next Obligation. intros [c|c|c|c|c] [_ Hok]; revert Hok; [law (c_dump_functional (StoredContract := ERC20_stored) c)
    |law (c_dump_functional (StoredContract := Native_stored) c)
    |law (c_dump_functional (StoredContract := ERC721_stored) c)
    |law (c_dump_functional (StoredContract := Mintable_stored) c)
    |law (c_dump_functional (StoredContract := Ownable_stored) c)]. Qed.
Next Obligation.
  assert (Hwrap : ∀ {C} (wrap : C → AnyContract) (r : outcome C) (P : C → Prop) (Q : AnyContract → Prop),
    (∃ c', r = Ret c' ∧ P c') → (∀ c', P c' → Q (wrap c')) → ∃ o', (c' ← r ; Ret (wrap c')) = Ret o' ∧ Q o').
  { intros C wrap r P Q (c' & -> & HP) HQ. exists (wrap c'). split; [done|by apply HQ]. }
  intros [c|c|c|c|c] [Hname Hok]; eexists (_, _); (split; [cbv beta iota delta [obj_base custom_types any_base] in *;
    cbn [any_name any_base] in Hname; rewrite Hname; reflexivity|]);
    intros d Hs; cbn [snd ct_load]; cbv beta iota delta [obj_base obj_dump custom_types any_base any_dump] in *.
  - pose proof (c_load_dump (StoredContract := ERC20_stored) c d) as L. unfold_in L.
    exact (Hwrap _ CErc20 _ _ _ (L Hok Hs) (λ c' H, H)).
  - pose proof (c_load_dump (StoredContract := Native_stored) c d) as L. unfold_in L.
    exact (Hwrap _ CNativeWrapper _ _ _ (L Hok Hs) (λ c' H, H)).
  - pose proof (c_load_dump (StoredContract := ERC721_stored) c d) as L. unfold_in L.
    exact (Hwrap _ CErc721 _ _ _ (L Hok Hs) (λ c' H, H)).
  - pose proof (c_load_dump (StoredContract := Mintable_stored) c d) as L. unfold_in L.
    exact (Hwrap _ CErc20Mintable _ _ _ (L Hok Hs) (λ c' H, H)).
  - pose proof (c_load_dump (StoredContract := Ownable_stored) c d) as L. unfold_in L.
    exact (Hwrap _ COwnable _ _ _ (L Hok Hs) (λ c' H, H)).
Qed.
End types.

(** ** A manager that creates an [Ownable] *)
#[local] Existing Instance boost_ref.
#[local] Existing Instance sorted_store.
Definition ownable_type : TypeEntry AnyContract :=
  mkType _ _ "Ownable" [TAddress] true make_ownable (λ a d, c ← Ownable_load a d ; Ret (COwnable c)).
Definition demo_funcs : gmap Z (TypeEntry AnyContract) :=
  {[7 := ownable_type]}.
Definition creating_manager : Manager (CT := custom_types) :=
  mkManager (CT := custom_types) (mkBase 1 (string_bytes "ContractManager") 0 8080) demo_funcs false
    (mkCtx (mkEnv 0 0 0 0 0 0 0 0 0 0 true) (mkWorld {[17 := mkAccount 1000 3 0 None NOT_A_CONTRACT]} ∅ ∅ ∅ [] []) [] ∅) [] None.

Lemma manager_calls_correct_witness :
  let '(r, m') := manager_evmEthCall (EX := demo) false 17 ([0; 0; 0; 7] ++ be_bytes 32 33) creating_manager in
  r = Ret [] ∧ member_at (next_address (EX := demo) 17 creating_manager) m' =
    Some (Deployed (COwnable (Ownable_new "Ownable" 33 (next_address (EX := demo) 17 creating_manager) 17 8080))).
Proof.
  pose proof (manager_calls_correct (EX := demo) false 17 ([0; 0; 0; 7] ++ be_bytes 32 33) creating_manager) as H.
  destruct (manager_evmEthCall _ _ _ _) as [r m']. destruct H as (_ & _ & H).
  - reflexivity.
  - intros a p Hp. cbn in Hp. rewrite lookup_empty in Hp. discriminate Hp.
  - assert (E1 : getFunctor ([0; 0; 0; 7] ++ be_bytes 32 33) = Ret 7) by (vm_compute; reflexivity).
    assert (E2 : construct (EX := demo) ownable_type 17 ([0; 0; 0; 7] ++ be_bytes 32 33) creating_manager =
      Ret (COwnable (Ownable_new "Ownable" 33 (next_address (EX := demo) 17 creating_manager) 17 8080))) by (vm_compute; reflexivity).
    assert (E3 : createContractFuncs_ (CT := custom_types) creating_manager !! 7 = Some (ownable_type : TypeEntry Obj)) by apply (lookup_singleton_eq 7 ownable_type).
    assert (E4 : contracts_ (ExecutionContext.world (cm_ctx creating_manager)) !! next_address (EX := demo) 17 creating_manager = None)
      by (vm_compute; reflexivity).
    rewrite E1, E3, E2, E4 in H. destruct H as (-> & Hm & _). split; [reflexivity|]. rewrite Hm. by rewrite decide_True.
Defined.
