(* ===== verification/Snapshot.v ===== *)
(** * Snapshots of the chain state

    Models src/core/dump.{h,cpp} (the list of dumpable objects, the split of the
    dump over threads, the choice of the snapshot to load, the trigger of the
    worker), [State::dump] and the loading part of the constructor of
    src/core/state.cpp, and [dump] and the constructor of src/core/rdpos.cpp, over
    the database of [DB] and the contracts of [ContractManager].  Threads only
    split the list; locks, clocks, paths and progress messages are not modelled,
    except for the number the constructor of [State] computes for one of its
    messages, because that computation can throw. *)

From stdpp Require Import sorting.
From S2P Require Import Prelude CheckedInt SafeBase BlockObservers ExecutionContext Bytes Conv Abi Tx DB BaseContract ContractManager.
From S2P Require Import Ownable CustomContracts RdPoS FinalizedBlock Storage.

(** ** The dump manager *)
Section dump.
Context {A : Type} (dump : A → DBBatch).

(** [dumpToBatch]: the loop from [threadOffset] to [threadOffset + threadItems],
    computed in [unsigned int]; beyond the end of the vector it is undefined. *)
Fixpoint dump_items (n : nat) (i : nat) (dumpables : list A) : outcome (list DBBatch) :=
  match n with
  | O => Ret []
  | S n =>
      match dumpables !! i with
      | None => Throw undefined_behaviour
      | Some x => rest ← dump_items n (S i) dumpables ; Ret (dump x :: rest)
      end
  end.
Definition dumpToBatch (threadOffset threadItems : Z) (dumpables : list A) : outcome (list DBBatch) :=
  let stop := wrap 32 (threadOffset + threadItems) in
  dump_items (Z.to_nat (stop - threadOffset)) (Z.to_nat threadOffset) dumpables.

(** The jobs of the threads: [i] threads to go; [currentOffset] is an [int] that
    is passed as [unsigned int]. *)
Fixpoint jobs (i : nat) (requiredOffset remaining currentOffset : Z) : list (Z * Z) :=
  match i with
  | O => []
  | S i =>
      let nItems := if remaining =? 0 then requiredOffset else requiredOffset + 1 in
      let remaining := if remaining =? 0 then remaining else remaining - 1 in
      (currentOffset, wrap 32 nItems) :: jobs i requiredOffset remaining (wrap 32 (currentOffset + nItems))
  end.
Fixpoint run_jobs (js : list (Z * Z)) (dumpables : list A) : outcome (list DBBatch) :=
  match js with
  | [] => Ret []
  | j :: js => b ← dumpToBatch j.1 j.2 dumpables ; rest ← run_jobs js dumpables ; Ret (b ++ rest)
  end.

(** [dumpState], without the height; [hardware_concurrency] may be zero. *)
Definition dumpState (nThreads : nat) (dumpables : list A) : outcome (list DBBatch) :=
  if decide (nThreads = 0%nat) then Throw undefined_behaviour else
  let n := Z.of_nat nThreads in
  let size := Z.of_nat (length dumpables) in
  let requiredOffset := size / n in
  let remaining := size - requiredOffset * n in
  run_jobs (jobs nThreads requiredOffset remaining 0) dumpables.

Lemma dump_items_run n i ds : (i + n <= length ds)%nat → dump_items n i ds = Ret (map dump (take n (drop i ds))).
Proof.
  revert i. induction n as [|n IH]; intros i Hn; [done|]. cbn [dump_items].
  destruct (lookup_lt_is_Some_2 ds i) as [x Hx]; [lia|]. rewrite Hx, IH by lia. cbn [mbind outcome_bind].
  by rewrite (drop_S ds x i Hx).
Qed.
Lemma run_jobs_run k q r off ds : 0 <= q → 0 <= r → 0 <= off → Z.of_nat (length ds) < 2 ^ 31 →
  r <= Z.of_nat k → off + q * Z.of_nat k + r = Z.of_nat (length ds) →
  run_jobs (jobs k q r off) ds = Ret (map dump (drop (Z.to_nat off) ds)).
Proof.
  revert r off. induction k as [|k IH]; intros r off Hq Hr Hoff Hlen Hrk Heq; cbn [jobs run_jobs].
  { rewrite drop_ge by lia. done. }
  set (n := if r =? 0 then q else q + 1). set (r' := if r =? 0 then r else r - 1).
  assert (Hn : 0 <= n ∧ off + n <= Z.of_nat (length ds) ∧ off + n + q * Z.of_nat k + r' = Z.of_nat (length ds) ∧ 0 <= r' <= Z.of_nat k).
  { unfold n, r'. destruct (Z.eqb_spec r 0); nia. }
  destruct Hn as (Hn0 & Hn1 & Hn2 & Hr'). rewrite !wrap_id by (unfold in_range; lia). cbn [fst snd].
  unfold dumpToBatch. rewrite wrap_id by (unfold in_range; lia). rewrite dump_items_run by lia. cbn [mbind outcome_bind].
  rewrite IH by lia. cbn [mbind outcome_bind]. rewrite <- map_app.
  replace (Z.to_nat (off + n)) with (Z.to_nat off + Z.to_nat (off + n - off))%nat by lia.
  by rewrite <- drop_drop, take_drop.
Qed.
(** Whatever the number of threads, the dumps of all objects in their order. *)
Lemma dumpState_run nThreads ds : nThreads ≠ 0%nat → Z.of_nat (length ds) < 2 ^ 31 → dumpState nThreads ds = Ret (map dump ds).
Proof.
  intros Hn Hlen. unfold dumpState. rewrite decide_False by done.
  pose proof (Z.div_mod (Z.of_nat (length ds)) (Z.of_nat nThreads)). pose proof (Z.mod_pos_bound (Z.of_nat (length ds)) (Z.of_nat nThreads)).
  rewrite run_jobs_run; [done|apply Z.div_pos; lia|lia|lia|done|lia|lia].
Qed.
End dump.

(** [getBestStateDBPath]: the heights the directories are named after; [None] is
    the path of height zero where none is found. *)
Definition getBestStateDBPath (heights : list Z) : option Z * Z :=
  fold_left (λ best height, if best.2 <? height then (Some height, height) else best) heights (None, 0).
(** One round of [workerLoop]: whether the state is dumped, and the new mark. *)
Definition worker_round (latestBlock trigger chainSize : Z) : bool * Z :=
  if wrap 64 (latestBlock + trigger) <? chainSize then (true, chainSize) else (false, latestBlock).

Lemma best_height heights : Forall (in_range 64) heights →
  let '(p, h) := getBestStateDBPath heights in
  0 <= h ∧ Forall (λ x, x <= h) heights ∧ (p = None ∧ h = 0 ∨ p = Some h ∧ h ∈ heights).
Proof.
  induction heights as [|x l IH] using rev_ind; intros Hl; [cbn; split_and!; [lia|constructor|by left]|]. apply Forall_app in Hl as [Hl [Hx _]%Forall_cons].
  specialize (IH Hl). unfold getBestStateDBPath in *. rewrite fold_left_app. cbn.
  destruct (fold_left _ l (None, 0)) as [p h]. destruct IH as (H0 & Hall & Hp). cbn. unfold in_range in Hx.
  destruct (Z.ltb_spec h x) as [Hlt|Hge].
  - split_and!; [lia|apply Forall_app; split; [eapply Forall_impl; [exact Hall|]; cbn; lia|by repeat constructor]|].
    right. set_solver.
  - split_and!; [done|apply Forall_app; split; [done|by repeat constructor]|]. set_solver.
Qed.

(** ** Batches in the database *)
Section batches.
Context {R : RocksDB}.

(** [dumpToDB]: every batch in turn. *)
Definition dumpToDB (batches : list DBBatch) (d : rocks) : rocks := fold_left (λ d b, putBatch b d) batches d.

Lemma dumpToDB_last bs d k : Forall (λ b, dels_ b = []) bs →
  Get k (dumpToDB bs d) = match assoc_last k (concat (map puts_ bs)) with Some v => Some v | None => Get k d end.
Proof.
  revert d. induction bs as [|b bs IH]; intros d Hd; [done|]. apply Forall_cons in Hd as [Hb Hd].
  unfold dumpToDB in *. cbn [fold_left map concat]. rewrite IH, Get_putBatch, Hb, assoc_last_app by done.
  rewrite decide_False by apply not_elem_of_nil. by destruct (assoc_last k (concat (map puts_ bs))).
Qed.
Lemma dumpToDB_get bs d k v : Forall (λ b, dels_ b = []) bs → functional (concat (map puts_ bs)) → (∀ k, Get k d = None) →
  Get k (dumpToDB bs d) = Some v ↔ (k, v) ∈ concat (map puts_ bs).
Proof.
  intros Hd Hf He. rewrite dumpToDB_last, He by done. rewrite <- (assoc_last_functional _ _ _ Hf).
  by destruct (assoc_last k _).
Qed.
End batches.

(** ** Plain maps from entries *)
Section store_all.
Context {K V : Type} `{Countable K}.

(** [m.emplace(key, value)] ([keep]) or [m[key] = value] for each entry. *)
Fixpoint store_all (keep : bool) (dec : Entry → outcome (K * V)) (es : list Entry) (m : gmap K V) : outcome (gmap K V) :=
  match es with
  | [] => Ret m
  | e :: es =>
      kv ← dec e ;
      store_all keep dec es (if keep && bool_decide (is_Some (m !! kv.1)) then m else <[kv.1 := kv.2]> m)
  end.

Lemma store_all_run keep dec (enc : K → V → Entry) es (m acc : gmap K V) :
  (∀ e, e ∈ es → ∃ k v, m !! k = Some v ∧ e = enc k v) →
  (∀ k v, m !! k = Some v → dec (enc k v) = Ret (k, v)) → acc ⊆ m →
  ∃ m', store_all keep dec es acc = Ret m' ∧ acc ⊆ m' ∧ m' ⊆ m ∧ ∀ k v, m !! k = Some v → enc k v ∈ es → m' !! k = Some v.
Proof.
  intros Hes Hd. revert acc. induction es as [|e es IH]; intros acc Hacc.
  { exists acc. split_and!; [done|done|done|]. intros k v _ Hi. by apply not_elem_of_nil in Hi. }
  destruct (Hes e) as (k & v & Hk & ->); [apply list_elem_of_here|]. cbn [store_all]. rewrite (Hd k v Hk).
  cbn [mbind outcome_bind fst snd]. set (acc1 := if keep && bool_decide (is_Some (acc !! k)) then acc else <[k:=v]> acc).
  assert (Hacc1 : acc ⊆ acc1 ∧ acc1 ⊆ m ∧ acc1 !! k = Some v).
  { unfold acc1. destruct (keep && _) eqn:E.
    - apply andb_true_iff in E as [_ [x Hx]%bool_decide_eq_true]. split_and!; [done|done|].
      rewrite Hx. rewrite (lookup_weaken _ _ _ _ Hx Hacc) in Hk. done.
    - split_and!; [|by apply insert_subseteq_l|by rewrite lookup_insert_eq].
      apply map_subseteq_spec. intros j x Hj. destruct (decide (j = k)) as [->|]; [|by rewrite lookup_insert_ne].
      rewrite lookup_insert_eq. rewrite (lookup_weaken _ _ _ _ Hj Hacc) in Hk. done. }
  destruct Hacc1 as (H1 & H2 & H3). destruct (IH (λ e' He', Hes e' (proj2 (elem_of_cons _ _ _) (or_intror He'))) acc1 H2) as (m' & Hr & Hs & Hm & Hin).
  exists m'. split_and!; [exact Hr|by etrans|done|]. intros j x Hj Hi. apply elem_of_cons in Hi as [E|Hi]; [|by apply Hin].
  pose proof (Hd j x Hj) as Ej. rewrite E, (Hd k v Hk) in Ej. injection Ej as <- <-. exact (lookup_weaken _ _ _ _ H3 Hs).
Qed.
Lemma store_all_values keep dec (enc : K → V → Entry) es (m : gmap K V) :
  (∀ e, e ∈ es ↔ ∃ k v, m !! k = Some v ∧ e = enc k v) →
  (∀ k v, m !! k = Some v → dec (enc k v) = Ret (k, v)) → store_all keep dec es ∅ = Ret m.
Proof.
  intros Hes Hd. destruct (store_all_run keep dec enc es m ∅) as (m' & -> & _ & Hm & Hin); [by intros e He%Hes|done|apply map_empty_subseteq|].
  f_equal. apply map_eq. intros k. apply option_eq. intros v. split; [intros Hv; exact (lookup_weaken _ _ _ _ Hv Hm)|].
  intros Hk. apply Hin; [done|]. apply Hes. eauto.
Qed.
End store_all.

(** ** The state *)

Definition ContractManager_address : Address := 0x0001cb47ea6d8b55fe44fdd6b1bdb579efb43e61.

Section state.
Context {BI : BoostInt} {WK : Walk} {R : RocksDB}.
(** [sizeof(std::shared_ptr<Bytes>)] *)
Variable sizeof_shared_ptr : Z.

Definition account_entry (a : Address) (acc : Account) : Entry := (address_bytes a, Account_serialize acc).
Definition slot_entry (k : Address * Hash) (v : Hash) : Entry := (address_bytes k.1 ++ hash_bytes k.2, hash_bytes v).
Definition code_entry (h : Hash) (c : list Z) : Entry := (hash_bytes h, c).

Definition State_dump (w : World) : DBBatch :=
  push_all (map (λ kv, code_entry kv.1 kv.2) (walk (evmContracts_ w))) pfx_evmContracts
  (push_all (map (λ kv, slot_entry kv.1 kv.2) (walk (storage_ w))) pfx_vmStorage
  (push_all (map (λ kv, account_entry kv.1 kv.2) (walk (accounts_ w))) pfx_nativeAccounts batch_nil)).

(** The loops of the constructor. *)
Definition dec_account (e : Entry) : outcome (Address * Account) :=
  a ← Address_make e.1 ; acc ← Account_deserialize e.2 ; Ret (a, acc).
Definition dec_slot (e : Entry) : outcome (Address * Hash * Hash) :=
  a ← Address_make (take 20 e.1) ; h ← Hash_make (drop 20 e.1) ; v ← Hash_make e.2 ; Ret ((a, h), v).
Definition dec_code (e : Entry) : outcome (Hash * list Z) := h ← Hash_make e.1 ; Ret (h, e.2).

Definition genesis_accounts (balances : list (Address * Z)) : gmap Address Account :=
  let m := fold_left (λ m e, <[e.1 := set_balance e.2 (default Account0 (m !! e.1))]> m) balances ∅ in
  let acc := default Account0 (m !! ContractManager_address) in
  <[ContractManager_address := set_contractType CPP (set_nonce 1 acc)]> m.

(** The accounts of EVM contracts get a pointer to their code. *)
Fixpoint link_codes (es : list (Address * Account)) (codes : gmap Hash (list Z)) (accounts : gmap Address Account) :
    outcome (gmap Address Account) :=
  match es with
  | [] => Ret accounts
  | (a, acc) :: es =>
      if decide (contractType acc = EVM) then
        match codes !! codeHash acc with
        | Some c => link_codes es codes (<[a := set_code (Some c) acc]> accounts)
        | None => Throw (DynamicException "Account is marked as EVM contract but code hash not found in DB")
        end
      else link_codes es codes accounts
  end.

(** The owners of a code: the map and the accounts. *)
Definition use_count (h : Hash) (accounts : gmap Address Account) : Z :=
  1 + Z.of_nat (size (filter (λ kv : Address * Account, contractType kv.2 = EVM ∧ codeHash kv.2 = h) accounts)).

(** The memory statistics, in checked 256-bit numbers. *)
Fixpoint memory_sizes (codes : list (Hash * list Z)) (accounts : gmap Address Account) (real previous : Z) : outcome (Z * Z) :=
  match codes with
  | [] => Ret (real, previous)
  | (h, c) :: codes =>
      let n := Z.of_nat (length c) in
      let uses := use_count h accounts in
      real ← uadd 256 real (wrap 64 (n + wrap 64 (sizeof_shared_ptr * uses))) ;
      previous ← uadd 256 previous (wrap 64 (n * uses)) ;
      memory_sizes codes accounts real previous
  end.
Definition savedUpMem (codes : gmap Hash (list Z)) (accounts : gmap Address Account) : outcome Z :=
  s ← memory_sizes (walk codes) accounts 0 0 ; usub 256 s.2 s.1.

(** The constructor of [State] up to the contract manager. *)
Definition State_load (snapshotHeight : Z) (genesisBalances : list (Address * Z)) (d : rocks) : outcome World :=
  let accountsFromDB := getBatch pfx_nativeAccounts [] d in
  accounts ← (match accountsFromDB with
              | [] => if negb (snapshotHeight =? 0)
                      then Throw (DynamicException "Snapshot height is higher than 0, but no accounts found in DB")
                      else Ret (genesis_accounts genesisBalances)
              | _ => store_all true dec_account accountsFromDB ∅
              end) ;
  storage ← store_all true dec_slot (getBatch pfx_vmStorage [] d) ∅ ;
  codes ← store_all false dec_code (getBatch pfx_evmContracts [] d) ∅ ;
  accounts ← link_codes (walk accounts) codes accounts ;
  savedUpMem codes accounts ;;
  Ret (mkWorld accounts storage ∅ codes [] []).

(** ** Round trip *)

(** An account as the execution leaves it: the code of an EVM contract is the
    shared one, other accounts have none. *)
Definition account_ok (codes : gmap Hash (list Z)) (acc : Account) : Prop :=
  in_range 256 (balance acc) ∧ in_range 64 (nonce acc) ∧ in_range 256 (codeHash acc) ∧
  (if decide (contractType acc = EVM) then is_Some (code acc) ∧ codes !! codeHash acc = code acc else code acc = None).
Definition world_ok (w : World) : Prop :=
  accounts_ w ≠ ∅ ∧
  map_Forall (λ a acc, in_range 160 a ∧ account_ok (evmContracts_ w) acc) (accounts_ w) ∧
  map_Forall (λ k v, in_range 160 k.1 ∧ in_range 256 k.2 ∧ in_range 256 v) (storage_ w) ∧
  map_Forall (λ h _, in_range 256 h) (evmContracts_ w).

Definition entries_of {K V} `{Countable K} (enc : K → V → Entry) (m : gmap K V) : list Entry :=
  map (λ kv, enc kv.1 kv.2) (walk m).
Lemma elem_of_entries {K V} `{Countable K} (enc : K → V → Entry) (m : gmap K V) e :
  e ∈ entries_of enc m ↔ ∃ k v, m !! k = Some v ∧ e = enc k v.
Proof.
  unfold entries_of. rewrite list_elem_of_fmap. split.
  - intros ([k v] & -> & Hin%elem_of_walk). eauto.
  - intros (k & v & Hm%elem_of_walk & ->). by exists (k, v).
Qed.
Lemma entries_functional {K V} `{Countable K} (enc : K → V → Entry) (m : gmap K V) :
  (∀ k v k' v', m !! k = Some v → m !! k' = Some v' → (enc k v).1 = (enc k' v').1 → k = k') → functional (entries_of enc m).
Proof.
  intros Hinj x v v' (k & y & Hk & E)%elem_of_entries (k' & y' & Hk' & E')%elem_of_entries.
  assert (k = k') as <- by (apply (Hinj k y k' y'); [done|done|by rewrite <- E, <- E']).
  rewrite Hk in Hk'. injection Hk' as <-. rewrite <- E in E'. by injection E' as <-.
Qed.

Lemma hash_make_bytes h : in_range 256 h → Hash_make (hash_bytes h) = Ret h.
Proof. intros Hh. unfold Hash_make, hash_bytes. rewrite decide_True by apply be_bytes_length. by rewrite be_value_bytes. Qed.
Lemma hash_bytes_inj a b : in_range 256 a → in_range 256 b → hash_bytes a = hash_bytes b → a = b.
Proof. intros Ha Hb E%(f_equal be_value). unfold hash_bytes in E. by rewrite !be_value_bytes in E. Qed.

Definition link (codes : gmap Hash (list Z)) (acc : Account) : Account :=
  if decide (contractType acc = EVM) then set_code (codes !! codeHash acc) acc else acc.
Lemma link_codes_run codes es (m accs : gmap Address Account) :
  (∀ a acc, (a, acc) ∈ es → m !! a = Some acc ∧ (contractType acc = EVM → is_Some (codes !! codeHash acc))) →
  (∀ a, accs !! a = m !! a ∨ accs !! a = link codes <$> m !! a) →
  ∃ r, link_codes es codes accs = Ret r ∧ (∀ a, r !! a = m !! a ∨ r !! a = link codes <$> m !! a) ∧
    ∀ a, (a ∈ es.*1 ∨ accs !! a = link codes <$> m !! a) → r !! a = link codes <$> m !! a.
Proof.
  revert accs. induction es as [|[a acc] es IH]; intros accs Hes Hb.
  { exists accs. split_and!; [done|done|]. intros a [Hi|Hi]; [by apply not_elem_of_nil in Hi|done]. }
  destruct (Hes a acc) as [Ha Hc]; [apply list_elem_of_here|].
  assert (Hes' : ∀ a acc, (a, acc) ∈ es → m !! a = Some acc ∧ (contractType acc = EVM → is_Some (codes !! codeHash acc)))
    by (intros; apply Hes; by apply list_elem_of_further).
  cbn [link_codes]. assert (Hl : link codes <$> m !! a = Some (link codes acc)) by by rewrite Ha.
  destruct (decide (contractType acc = EVM)) as [He|He].
  - destruct (Hc He) as [c Hcode]. rewrite Hcode. set (accs1 := <[a := _]> accs).
    assert (H1 : accs1 !! a = link codes <$> m !! a).
    { unfold accs1. rewrite lookup_insert_eq, Hl. unfold link. by rewrite decide_True, Hcode. }
    destruct (IH accs1 Hes') as (r & Hr & Hrb & Hin).
    { intros b. destruct (decide (b = a)) as [->|]; [by right|]. unfold accs1. by rewrite lookup_insert_ne. }
    exists r. split_and!; [done|done|]. intros b [Hi|Hi]; cbn in *.
    + apply elem_of_cons in Hi as [->|Hi]; apply Hin; [by right|by left].
    + apply Hin. right. destruct (decide (b = a)) as [->|]; [done|]. unfold accs1. by rewrite lookup_insert_ne.
  - destruct (IH accs Hes' Hb) as (r & Hr & Hrb & Hin). exists r. split_and!; [done|done|]. intros b [Hi|Hi]; [|apply Hin; by right].
    cbn in Hi. apply elem_of_cons in Hi as [->|Hi]; [|apply Hin; by left]. apply Hin. right. rewrite Hl.
    assert (Hid : link codes acc = acc) by (unfold link; by rewrite decide_False). rewrite Hid.
    destruct (Hb a) as [->| ->]; [done|]. by rewrite Ha; cbn; rewrite Hid.
Qed.
Lemma link_codes_all codes (m : gmap Address Account) :
  (∀ a acc, m !! a = Some acc → contractType acc = EVM → is_Some (codes !! codeHash acc)) →
  link_codes (walk m) codes m = Ret (link codes <$> m).
Proof.
  intros Hc. destruct (link_codes_run codes (walk m) m m) as (r & -> & _ & Hin).
  - intros a acc Ha%elem_of_walk. split; [done|]. by apply (Hc a).
  - by left.
  - f_equal. apply map_eq. intros a. rewrite lookup_fmap. destruct (m !! a) as [acc|] eqn:Ha.
    + rewrite <- Ha. apply Hin. left. apply list_elem_of_fmap. exists (a, acc). split; [done|]. by apply elem_of_walk.
    + rewrite <- Ha. apply Hin. right. by rewrite Ha.
Qed.

(** What the constructor reads. *)
Definition state_stored (w : World) (d : rocks) : Prop :=
  (∀ k v, Get (pfx_nativeAccounts ++ k) d = Some v ↔ (k, v) ∈ entries_of account_entry (accounts_ w)) ∧
  (∀ k v, Get (pfx_vmStorage ++ k) d = Some v ↔ (k, v) ∈ entries_of slot_entry (storage_ w)) ∧
  (∀ k v, Get (pfx_evmContracts ++ k) d = Some v ↔ (k, v) ∈ entries_of code_entry (evmContracts_ w)).

Lemma dec_account_parts k l a acc : Address_make k = Ret a → Account_deserialize l = Ret acc → dec_account (k, l) = Ret (a, acc).
Proof. intros E1 E2. unfold dec_account. cbn [fst snd]. rewrite E1. cbn [mbind outcome_bind]. by rewrite E2. Qed.
Lemma dec_slot_parts k l a h v : Address_make (take 20 k) = Ret a → Hash_make (drop 20 k) = Ret h → Hash_make l = Ret v →
  dec_slot (k, l) = Ret ((a, h), v).
Proof.
  intros E1 E2 E3. unfold dec_slot. cbn [fst snd]. rewrite E1. cbn [mbind outcome_bind]. rewrite E2. cbn [mbind outcome_bind].
  by rewrite E3.
Qed.
Lemma dec_code_parts k l h : Hash_make k = Ret h → dec_code (k, l) = Ret (h, l).
Proof. intros E. unfold dec_code. cbn [fst snd]. by rewrite E. Qed.

Lemma dec_account_run a acc : in_range 160 a → in_range 256 (balance acc) → in_range 64 (nonce acc) → in_range 256 (codeHash acc) →
  dec_account (account_entry a acc) = Ret (a, set_code None acc).
Proof. intros Ha Hb Hn Hc. apply dec_account_parts; [by apply address_bytes_read|apply (Account_roundtrip acc Hb Hn Hc)]. Qed.
Lemma split_key (x y : list Z) : length x = 20%nat → take 20 (x ++ y) = x ∧ drop 20 (x ++ y) = y.
Proof. intros Hx. by rewrite (take_app_length' _ _ 20), (drop_app_length' _ _ 20) by done. Qed.
Lemma dec_slot_run k v : in_range 160 k.1 → in_range 256 k.2 → in_range 256 v → dec_slot (slot_entry k v) = Ret (k, v).
Proof.
  intros Ha Hh Hv. destruct k as [a h]. cbn [fst snd] in *.
  destruct (split_key (address_bytes a) (hash_bytes h) (be_bytes_length 20 a)) as [E1 E2].
  apply dec_slot_parts; cbn [fst snd]; [rewrite E1; by apply address_bytes_read|rewrite E2; by apply hash_make_bytes|by apply hash_make_bytes].
Qed.
Lemma dec_code_run h c : in_range 256 h → dec_code (code_entry h c) = Ret (h, c).
Proof. intros Hh. apply dec_code_parts. by apply hash_make_bytes. Qed.

Lemma state_loaded w d height balances : world_ok w → state_stored w d →
  State_load height balances d =
    (savedUpMem (evmContracts_ w) (accounts_ w) ;;
     Ret (mkWorld (accounts_ w) (storage_ w) ∅ (evmContracts_ w) [] [])).
Proof.
  intros (Hne & Hacc & Hst & Hcode) (Sa & Ss & Sc). unfold State_load.
  change (getBatch pfx_nativeAccounts [] d) with (scan pfx_nativeAccounts d).
  change (getBatch pfx_vmStorage [] d) with (scan pfx_vmStorage d). change (getBatch pfx_evmContracts [] d) with (scan pfx_evmContracts d).
  assert (Hscan : ∀ pfx l, (∀ k v, Get (pfx ++ k) d = Some v ↔ (k, v) ∈ (l : list Entry)) → ∀ e, e ∈ scan pfx d ↔ e ∈ l)
    by (intros pfx l Hl [k v]; rewrite elem_of_scan; apply Hl).
  pose proof (Hscan _ _ Sa) as Ea. pose proof (Hscan _ _ Ss) as Es. pose proof (Hscan _ _ Sc) as Ec. clear Hscan.
  assert (HA : (match scan pfx_nativeAccounts d with
     | [] => if negb (height =? 0) then Throw (DynamicException "Snapshot height is higher than 0, but no accounts found in DB")
             else Ret (genesis_accounts balances)
     | _ => store_all true dec_account (scan pfx_nativeAccounts d) ∅ end) = Ret (set_code None <$> accounts_ w)).
  { assert (Hrun : store_all true dec_account (scan pfx_nativeAccounts d) ∅ = Ret (set_code None <$> accounts_ w)).
    { apply (store_all_values true dec_account account_entry).
      - intros e. rewrite Ea, elem_of_entries. setoid_rewrite lookup_fmap. setoid_rewrite fmap_Some. split.
        + intros (a & acc & Ha & ->). exists a, (set_code None acc). split; [by exists acc|done].
        + intros (a & acc & (acc0 & Ha & ->) & ->). by exists a, acc0.
      - intros a acc. rewrite lookup_fmap. intros (acc0 & Ha & ->)%fmap_Some. destruct (Hacc a acc0 Ha) as (Hra & Hb & Hn & Hh & _).
        by rewrite dec_account_run. }
    destruct (scan pfx_nativeAccounts d) as [|e l] eqn:Hs; [|done]. exfalso.
    destruct (map_choose _ Hne) as (a & acc & Ha). assert (Hi : account_entry a acc ∈ @nil Entry).
    { apply Ea, elem_of_entries. eauto. } by apply not_elem_of_nil in Hi. }
  rewrite HA. cbn [mbind outcome_bind].
  rewrite (store_all_values true dec_slot slot_entry _ (storage_ w)); [|by intros e; rewrite Es, elem_of_entries|
    intros k v Hk; destruct (Hst k v Hk) as (? & ? & ?); by apply dec_slot_run].
  cbn [mbind outcome_bind].
  rewrite (store_all_values false dec_code code_entry _ (evmContracts_ w)); [|by intros e; rewrite Ec, elem_of_entries|
    intros h c Hk; apply dec_code_run, (Hcode h c Hk)].
  cbn [mbind outcome_bind]. rewrite link_codes_all.
  - cbn [mbind outcome_bind]. assert (link (evmContracts_ w) <$> (set_code None <$> accounts_ w) = accounts_ w) as ->; [|done].
    apply map_eq. intros a. rewrite !lookup_fmap. destruct (accounts_ w !! a) as [acc|] eqn:Ha; [|done]. cbn. f_equal.
    destruct (Hacc a acc Ha) as (_ & _ & _ & _ & Hk). unfold link. cbn [contractType set_code codeHash].
    destruct (decide (contractType acc = EVM)); [destruct Hk as [_ ->]|]; destruct acc; cbn in *; by subst.
  - intros a acc. rewrite lookup_fmap. intros (acc0 & Ha & ->)%fmap_Some He. cbn in *.
    destruct (Hacc a acc0 Ha) as (_ & _ & _ & _ & Hk). rewrite decide_True in Hk by done. by destruct Hk as [? ->].
Qed.
End state.

(** ** The validators *)

(** [std::set<Validator>::insert] *)
Fixpoint set_insert (a : Address) (l : list Address) : list Address :=
  match l with
  | [] => [a]
  | b :: l' => if a <? b then a :: l else if a =? b then l else b :: set_insert a l'
  end.

Section rdpos.
Context {R : RocksDB}.

(** [rdPoS::dump]: the validators under their position. *)
Fixpoint rdpos_puts (i : nat) (validators : list Address) (b : DBBatch) : DBBatch :=
  match validators with
  | [] => b
  | v :: l => rdpos_puts (S i) l (push_back (uint64ToBytes (Z.of_nat i)) (address_bytes v) pfx_rdPoS b)
  end.
Definition rdPoS_dump (validators : list Address) : DBBatch := rdpos_puts 0 validators batch_nil.

Fixpoint insert_all (es : list Entry) (l : list Address) : outcome (list Address) :=
  match es with [] => Ret l | e :: es => a ← Address_make e.2 ; insert_all es (set_insert a l) end.
(** The constructor: the validators, the seed of the latest block and the
    shuffled list. *)
Definition load_validators (genesisValidators : list Address) (d : rocks) : outcome (list Address) :=
  match getBatch pfx_rdPoS [] d with
  | [] => Ret (fold_left (λ l a, set_insert a l) genesisValidators [])
  | es => insert_all es []
  end.
Definition rdPoS_new (sha3 : list Z → Hash) (genesisValidators : list Address) (minValidators : nat) (latestRandomness : Hash)
    (d : rocks) : outcome rdPoS :=
  validators ← load_validators genesisValidators d ;
  let '(seed, randomList) := shuffle sha3 latestRandomness validators in
  Ret (mkRdPoS validators randomList ∅ seed latestRandomness minValidators).

Definition validators_ok (l : list Address) : Prop :=
  l ≠ [] ∧ StronglySorted Z.lt l ∧ Forall (in_range 160) l ∧ Z.of_nat (length l) < 2 ^ 64.

Definition rdpos_entries (i : nat) (l : list Address) : list Entry :=
  imap (λ j v, (uint64ToBytes (Z.of_nat (i + j)), address_bytes v)) l.
Lemma rdpos_puts_run i l b : rdpos_puts i l b = mkBatch (puts_ b ++ map (λ e, (pfx_rdPoS ++ e.1, e.2)) (rdpos_entries i l)) (dels_ b).
Proof.
  revert i b. induction l as [|v l IH]; intros i b; cbn [rdpos_puts]; [cbn; rewrite app_nil_r; by destruct b|].
  rewrite IH. cbn [puts_ dels_ push_back]. f_equal. rewrite <- (assoc_L (++)). f_equal. unfold rdpos_entries.
  cbn [imap map app]. rewrite Nat.add_0_r. f_equal. f_equal. apply imap_ext. intros j x _. cbn. by rewrite Nat.add_succ_r.
Qed.
Lemma elem_of_rdpos l e : e ∈ rdpos_entries 0 l ↔ ∃ i v, l !! i = Some v ∧ e = (uint64ToBytes (Z.of_nat i), address_bytes v).
Proof.
  unfold rdpos_entries. rewrite list_elem_of_lookup. split.
  - intros [i Hi]. rewrite list_lookup_imap in Hi. apply fmap_Some in Hi as (v & Hv & ->). eauto.
  - intros (i & v & Hv & ->). exists i. by rewrite list_lookup_imap, Hv.
Qed.
Lemma rdpos_functional l : Z.of_nat (length l) < 2 ^ 64 → functional (rdpos_entries 0 l).
Proof.
  intros Hl k v v' (i & a & Ha & [-> ->]%pair_eq)%elem_of_rdpos (j & b & Hb & [E ->]%pair_eq)%elem_of_rdpos.
  pose proof (lookup_lt_Some _ _ _ Ha). pose proof (lookup_lt_Some _ _ _ Hb).
  apply (f_equal bytesToUint64) in E. destruct (u64_bytes (Z.of_nat i)) as [E1 E2]; [unfold in_range; lia|].
  destruct (u64_bytes (Z.of_nat j)) as [F1 F2]; [unfold in_range; lia|]. rewrite E1, F1, E2, F2 in E. injection E as E.
  assert (i = j) as <- by lia. congruence.
Qed.

Lemma set_insert_elem a l x : x ∈ set_insert a l ↔ x = a ∨ x ∈ l.
Proof.
  induction l as [|b l IH]; cbn; [set_solver|]. destruct (Z.ltb_spec a b); [set_solver|].
  destruct (Z.eqb_spec a b) as [->|]; [set_solver|]. rewrite elem_of_cons, IH. set_solver.
Qed.
Lemma set_insert_sorted a l : StronglySorted Z.lt l → StronglySorted Z.lt (set_insert a l).
Proof.
  induction 1 as [|b l Hs IH Hall]; cbn; [repeat constructor|]. destruct (Z.ltb_spec a b) as [Hlt|Hge].
  - constructor; [by constructor|]. constructor; [done|]. eapply Forall_impl; [exact Hall|]. cbn. lia.
  - destruct (Z.eqb_spec a b) as [->|Hne]; [by constructor|]. constructor; [done|]. apply Forall_forall. intros x Hx.
    apply set_insert_elem in Hx as [->|Hx]; [lia|]. rewrite Forall_forall in Hall. by apply Hall.
Qed.
Lemma insert_all_run es l (vs : list Address) : (∀ e, e ∈ es → ∃ k v, v ∈ vs ∧ e = (k, address_bytes v)) → Forall (in_range 160) vs →
  StronglySorted Z.lt l →
  ∃ r, insert_all es l = Ret r ∧ StronglySorted Z.lt r ∧
    ∀ x, x ∈ r ↔ x ∈ l ∨ (x ∈ vs ∧ ∃ k, (k, address_bytes x) ∈ es).
Proof.
  intros Hes Hvs. revert l. induction es as [|e es IH]; intros l Hl.
  { exists l. split_and!; [done|done|]. intros x. split; [by left|]. intros [?|(_ & k & Hi)]; [done|by apply not_elem_of_nil in Hi]. }
  destruct (Hes e) as (k & v & Hv & ->); [apply list_elem_of_here|]. rewrite Forall_forall in Hvs. cbn [insert_all snd].
  rewrite address_bytes_read by (by apply Hvs). cbn [mbind outcome_bind].
  destruct (IH (λ e' He', Hes e' (proj2 (elem_of_cons _ _ _) (or_intror He'))) (set_insert v l) (set_insert_sorted v l Hl)) as (r & Hr & Hs & Hin).
  exists r. split_and!; [done|done|]. intros x. rewrite Hin, set_insert_elem. setoid_rewrite elem_of_cons. split.
  - intros [[->|?]|(Hx & k' & Hk')]; [right|by left|right]; eauto.
  - intros [?|(Hx & k' & [E|Hk'])]; [by left; right| |right; eauto].
    apply pair_eq in E as [_ E]. apply address_bytes_inj in E as ->; [|by apply Hvs|by apply Hvs]. by left; left.
Qed.
Lemma sorted_unique (l l' : list Z) : StronglySorted Z.lt l → StronglySorted Z.lt l' → (∀ x, x ∈ l ↔ x ∈ l') → l = l'.
Proof.
  assert (Hnd : ∀ l, StronglySorted Z.lt l → NoDup l).
  { induction 1 as [|a k Hs IH Hall]; constructor; [|done]. intros Hi. rewrite Forall_forall in Hall. specialize (Hall a Hi). lia. }
  assert (Hle : ∀ l, StronglySorted Z.lt l → StronglySorted Z.le l).
  { induction 1 as [|a k Hs IH Hall]; constructor; [done|]. eapply Forall_impl; [exact Hall|]. cbn. lia. }
  intros Hl Hl' Hin. apply (StronglySorted_unique Z.le); [by apply Hle|by apply Hle|].
  apply NoDup_Permutation; [by apply Hnd|by apply Hnd|done].
Qed.

Lemma validators_loaded vs genesis d : validators_ok vs →
  (∀ k v, Get (pfx_rdPoS ++ k) d = Some v ↔ (k, v) ∈ rdpos_entries 0 vs) → load_validators genesis d = Ret vs.
Proof.
  intros (Hne & Hs & Hr & _) Hst. unfold load_validators. change (getBatch pfx_rdPoS [] d) with (scan pfx_rdPoS d).
  assert (Hscan : ∀ e, e ∈ scan pfx_rdPoS d ↔ e ∈ rdpos_entries 0 vs) by (intros [k v]; rewrite elem_of_scan; apply Hst).
  destruct (insert_all_run (scan pfx_rdPoS d) [] vs) as (r & Hrun & Hrs & Hin); [|done|constructor|].
  { intros e (i & v & Hv & ->)%Hscan%elem_of_rdpos. eexists _, v. split; [by eapply list_elem_of_lookup_2|done]. }
  assert (r = vs) as ->.
  { apply sorted_unique; [done|done|]. intros x. rewrite Hin. split; [intros [Hx|[Hx _]]; [by apply not_elem_of_nil in Hx|done]|].
    intros Hx. right. split; [done|]. apply list_elem_of_lookup in Hx as [i Hi]. exists (uint64ToBytes (Z.of_nat i)).
    apply Hscan, elem_of_rdpos. eauto. }
  destruct (scan pfx_rdPoS d) as [|e l]; [|done]. by injection Hrun as <-.
Qed.
End rdpos.

(** ** The whole snapshot *)
Section chain.
Context {BI : BoostInt} {WK : Walk} {R : RocksDB} {CT : ContractTypes} {TL : TypesLaws}.
Variables (vs : list Address) (w : World) (m : Manager) (cs : gmap Address Obj).

(** The objects of the list of the dump manager. *)
Inductive Dumpable := DRdPoS | DState | DManager | DContract (o : Obj).
Definition dump_of (x : Dumpable) : DBBatch :=
  match x with
  | DRdPoS => rdPoS_dump vs
  | DState => State_dump w
  | DManager => manager_dump m
  | DContract o => obj_dump o
  end.

(** [cs] are the contracts the manager knows; every object is in the list. *)
Definition manages : Prop := ∀ a o, (a, Deployed o) ∈ deployed m ↔ cs !! a = Some o.
Definition complete (ds : list Dumpable) : Prop :=
  DRdPoS ∈ ds ∧ DState ∈ ds ∧ DManager ∈ ds ∧ ∀ o, DContract o ∈ ds ↔ ∃ a, cs !! a = Some o.

Hypothesis Hvs : validators_ok vs.
Hypothesis Hw : world_ok w.
Hypothesis Hcs : registry_ok cs.
Hypothesis Hm : manages.
Variable ds : list Dumpable.
Hypothesis Hds : complete ds.

(** The keys of an object. *)
Definition region (x : Dumpable) (k : list Z) : Prop :=
  match x with
  | DRdPoS => ∃ s, k = pfx_rdPoS ++ s
  | DState => ∃ s, k = pfx_nativeAccounts ++ s ∨ k = pfx_vmStorage ++ s ∨ k = pfx_evmContracts ++ s
  | DManager => ∃ s, k = pfx_contractManager ++ s
  | DContract o => ∃ s, k = getDBPrefix (obj_base o) ++ s
  end.

Definition with_prefix (p : list Z) (l : list Entry) : list Entry := map (λ e, (p ++ e.1, e.2)) l.
Lemma elem_with_prefix p l k v : (p ++ k, v) ∈ with_prefix p l ↔ (k, v) ∈ l.
Proof.
  unfold with_prefix. rewrite list_elem_of_fmap. split.
  - intros ([k' v'] & [E ->]%pair_eq & Hi). by apply app_inv_head in E as ->.
  - intros Hi. by exists (k, v).
Qed.
Lemma with_prefix_key p l k v : (k, v) ∈ with_prefix p l → ∃ s, k = p ++ s.
Proof. unfold with_prefix. intros ([k' v'] & [-> _]%pair_eq & _)%list_elem_of_fmap. by eexists. Qed.
Lemma with_prefix_functional p l : functional l → functional (with_prefix p l).
Proof. intros Hf k v v' Hv. destruct (with_prefix_key _ _ _ _ Hv) as [s ->]. rewrite !elem_with_prefix in *. by apply Hf. Qed.

Lemma rdpos_batch : rdPoS_dump vs = mkBatch (with_prefix pfx_rdPoS (rdpos_entries 0 vs)) [].
Proof. unfold rdPoS_dump. by rewrite rdpos_puts_run. Qed.
Lemma state_batch : State_dump w = mkBatch (with_prefix pfx_nativeAccounts (entries_of account_entry (accounts_ w)) ++
  with_prefix pfx_vmStorage (entries_of slot_entry (storage_ w)) ++
  with_prefix pfx_evmContracts (entries_of code_entry (evmContracts_ w))) [].
Proof. unfold State_dump. rewrite !push_all_batch. cbn [puts_ dels_ batch_nil app]. by rewrite <- (assoc_L (++)). Qed.
Lemma manager_batch : manager_dump m = mkBatch (with_prefix pfx_contractManager (registry_entries (deployed m))) [].
Proof. unfold manager_dump. by rewrite push_all_batch. Qed.

Lemma elem_of_registry k v : (k, v) ∈ registry_entries (deployed m) ↔
  ∃ a o, cs !! a = Some o ∧ k = address_bytes a ∧ v = contractName_ (obj_base o).
Proof.
  unfold registry_entries. rewrite list_elem_of_omap. split.
  - intros ([a [b|o]] & Hi & E); [done|]. cbn in E. injection E as <- <-. apply Hm in Hi. eauto.
  - intros (a & o & Ha & -> & ->). exists (a, Deployed o). split; [by apply Hm|done].
Qed.

Lemma dump_dels x : dels_ (dump_of x) = [].
Proof.
  destruct x; cbn [dump_of]; [by rewrite rdpos_batch|by rewrite state_batch|by rewrite manager_batch|apply obj_dump_dels].
Qed.
Lemma dump_region x k v : (k, v) ∈ puts_ (dump_of x) → region x k.
Proof.
  destruct x; cbn [dump_of region].
  - rewrite rdpos_batch. apply with_prefix_key.
  - rewrite state_batch. cbn [puts_]. rewrite !elem_of_app.
    intros [H|[H|H]]; apply with_prefix_key in H as [s ->]; eauto.
  - rewrite manager_batch. apply with_prefix_key.
  - apply obj_dump_prefix.
Qed.
(** The prefixes are different pairs of bytes. *)
Definition tag_of (x : Dumpable) (t : list Z) : Prop :=
  match x with
  | DRdPoS => t = pfx_rdPoS
  | DState => t = pfx_nativeAccounts ∨ t = pfx_vmStorage ∨ t = pfx_evmContracts
  | DManager => t = pfx_contractManager
  | DContract _ => t = pfx_contracts
  end.
Lemma region_tag x k : region x k → tag_of x (take 2 k).
Proof.
  destruct x; cbn [region tag_of].
  - by intros [s ->].
  - intros (s & [->|[->| ->]]); auto.
  - by intros [s ->].
  - by intros [s ->].
Qed.
Lemma region_unique x y k : x ∈ ds → y ∈ ds → region x k → region y k → x = y.
Proof.
  intros Hx Hy Rx Ry. pose proof (region_tag _ _ Rx) as Tx. pose proof (region_tag _ _ Ry) as Ty.
  destruct Hds as (_ & _ & _ & Hc). destruct x as [| | |o], y as [| | |o']; try done; cbn [tag_of] in *;
    try (rewrite Tx in Ty; naive_solver); try (rewrite Ty in Tx; naive_solver).
  apply Hc in Hx as [a Ha], Hy as [a' Ha']. destruct (Hcs a o Ha) as [Ea Ho], (Hcs a' o' Ha') as [Ea' Ho'].
  destruct Rx as [s ->], Ry as [s' E]. unfold getDBPrefix, prefix_of in E. rewrite <- !(assoc_L (++)) in E. apply app_inv_head in E.
  apply app_inj_1 in E as [E _]; [|by unfold address_bytes; rewrite !be_bytes_length].
  apply address_bytes_inj in E; [|by apply obj_ok_base|by apply obj_ok_base]. congruence.
Qed.

Lemma dump_functional x : x ∈ ds → functional (puts_ (dump_of x)).
Proof.
  intros Hx. destruct x; cbn [dump_of].
  - rewrite rdpos_batch. apply with_prefix_functional, rdpos_functional. apply Hvs.
  - rewrite state_batch. cbn [puts_]. destruct Hw as (_ & Ha & Hs & Hc). intros k v v'. rewrite !elem_of_app.
    assert (Hfa : functional (entries_of account_entry (accounts_ w))).
    { apply entries_functional. intros a x a' y Hx' Hy' E. destruct (Ha _ _ Hx') as [Hr _], (Ha _ _ Hy') as [Hr' _].
      exact (address_bytes_inj _ _ Hr Hr' E). }
    assert (Hfs : functional (entries_of slot_entry (storage_ w))).
    { apply entries_functional. intros [a h] x [a' h'] y Hx' Hy' E. destruct (Hs _ _ Hx') as (? & ? & _), (Hs _ _ Hy') as (? & ? & _).
      cbn [slot_entry fst snd] in *. apply app_inj_1 in E as [E1 E2]; [|by unfold address_bytes; rewrite !be_bytes_length].
      apply address_bytes_inj in E1; [|done|done]. apply hash_bytes_inj in E2; [|done|done]. congruence. }
    assert (Hfc : functional (entries_of code_entry (evmContracts_ w))).
    { apply entries_functional. intros a x a' y Hx' Hy' E. exact (hash_bytes_inj _ _ (Hc _ _ Hx') (Hc _ _ Hy') E). }
    apply (with_prefix_functional pfx_nativeAccounts) in Hfa. apply (with_prefix_functional pfx_vmStorage) in Hfs.
    apply (with_prefix_functional pfx_evmContracts) in Hfc.
    intros [H|[H|H]] [H'|[H'|H']];
      try (by eapply Hfa); try (by eapply Hfs); try (by eapply Hfc);
      apply with_prefix_key in H as [s ->]; apply with_prefix_key in H' as [s' H']; discriminate H'.
  - rewrite manager_batch. apply with_prefix_functional. intros k v v' (a & o & Ha & -> & ->)%elem_of_registry
      (a' & o' & Ha' & E & ->)%elem_of_registry. apply address_bytes_inj in E as ->; [congruence| |]; by eapply registry_address.
  - destruct Hds as (_ & _ & _ & Hc). apply Hc in Hx as [a Ha]. destruct (Hcs a o Ha) as [_ Ho]. by apply obj_dump_functional.
Qed.
Lemma all_functional : functional (concat (map puts_ (map dump_of ds))).
Proof.
  assert (Hin : ∀ e, e ∈ concat (map puts_ (map dump_of ds)) → ∃ x, x ∈ ds ∧ e ∈ puts_ (dump_of x)).
  { intros e He. apply list_elem_of_In, in_concat in He as (l & Hl & He). rewrite map_map in Hl.
    apply in_map_iff in Hl as (x & <- & Hx). exists x. by rewrite !list_elem_of_In. }
  intros k v v' (x & Hx & Hv)%Hin (y & Hy & Hv')%Hin.
  assert (x = y) as <- by (apply (region_unique x y k); [done|done|by eapply dump_region|by eapply dump_region]).
  by apply (dump_functional x Hx k).
Qed.

(** What the database answers under a prefix of one object. *)
Lemma snapshot_get d0 x k v : (∀ k, Get k d0 = None) → x ∈ ds → region x k →
  Get k (dumpToDB (map dump_of ds) d0) = Some v ↔ (k, v) ∈ puts_ (dump_of x).
Proof.
  intros He Hx Hr. rewrite dumpToDB_get; [|apply Forall_forall; intros b (y & -> & _)%list_elem_of_fmap; apply dump_dels|apply all_functional|done].
  rewrite list_elem_of_In, in_concat, map_map. split.
  - intros (l & Hl & Hi). apply in_map_iff in Hl as (y & <- & Hy). apply list_elem_of_In in Hy. apply list_elem_of_In in Hi.
    assert (y = x) as <-; [|done]. apply (region_unique y x k); [done|done|by eapply dump_region|done].
  - intros Hi. exists (puts_ (dump_of x)). split; [|by apply list_elem_of_In].
    apply in_map_iff. exists x. split; [done|]. by apply list_elem_of_In.
Qed.

Lemma snapshot_holds d0 : (∀ k, Get k d0 = None) → let d := dumpToDB (map dump_of ds) d0 in
  (∀ k v, Get (pfx_rdPoS ++ k) d = Some v ↔ (k, v) ∈ rdpos_entries 0 vs) ∧ state_stored w d ∧ registry_stored cs d.
Proof.
  intros He d. destruct Hds as (Hr & Hs & Hma & Hc). unfold state_stored, registry_stored. split_and!; intros k v.
  - unfold d. rewrite (snapshot_get d0 DRdPoS) by (done || (cbn; eauto)). cbn [dump_of]. rewrite rdpos_batch. apply elem_with_prefix.
  - unfold d. rewrite (snapshot_get d0 DState) by (done || (cbn; eauto)). cbn [dump_of]. rewrite state_batch. cbn [puts_].
    rewrite !elem_of_app, elem_with_prefix. split; [|by left].
    intros [H|[H|H]]; [done| |]; apply with_prefix_key in H as [s H]; discriminate H.
  - unfold d. rewrite (snapshot_get d0 DState) by (done || (cbn; eauto)). cbn [dump_of]. rewrite state_batch. cbn [puts_].
    rewrite !elem_of_app, elem_with_prefix. split; [|by right; left].
    intros [H|[H|H]]; [|done|]; apply with_prefix_key in H as [s H]; discriminate H.
  - unfold d. rewrite (snapshot_get d0 DState) by (done || (cbn; eauto 6)). cbn [dump_of]. rewrite state_batch. cbn [puts_].
    rewrite !elem_of_app, elem_with_prefix. split; [|by right; right].
    intros [H|[H|H]]; [| |done]; apply with_prefix_key in H as [s H]; discriminate H.
  - unfold d. rewrite (snapshot_get d0 DManager) by (done || (cbn; eauto)). cbn [dump_of]. rewrite manager_batch.
    cbn [puts_]. rewrite elem_with_prefix. apply elem_of_registry.
  - intros Ha x y. unfold d. rewrite (snapshot_get d0 (DContract v)); [done|done|apply Hc; eauto|cbn; eauto].
Qed.
End chain.

(** ** Memory statistics *)

(** Codes that are shared, and long enough for sharing to save memory. *)
Definition codes_save_memory (sizeof_shared_ptr : Z) (w : World) : Prop :=
  0 <= sizeof_shared_ptr < 2 ^ 32 ∧ Z.of_nat (size (evmContracts_ w)) < 2 ^ 64 ∧
  map_Forall (λ h c, 2 * sizeof_shared_ptr <= Z.of_nat (length c) ∧ 2 <= use_count h (accounts_ w) < 2 ^ 30 ∧
    Z.of_nat (length c) * use_count h (accounts_ w) < 2 ^ 63) (evmContracts_ w).

Lemma memory_sizes_run {BI : BoostInt} {WK : Walk} z codes accounts real previous :
  0 <= z < 2 ^ 32 → 0 <= real <= previous → previous + Z.of_nat (length codes) * 2 ^ 63 < 2 ^ 256 →
  Forall (λ hc : Hash * list Z, 2 * z <= Z.of_nat (length hc.2) ∧ 2 <= use_count hc.1 accounts < 2 ^ 30 ∧
    Z.of_nat (length hc.2) * use_count hc.1 accounts < 2 ^ 63) codes →
  ∃ r p, memory_sizes z codes accounts real previous = Ret (r, p) ∧ 0 <= r <= p ∧ p < 2 ^ 256.
Proof.
  revert real previous. induction codes as [|[h c] codes IH]; intros real previous Hz Hr Hp Hc.
  { exists real, previous. cbn in *. split_and!; [done|lia..]. }
  apply Forall_cons in Hc as [(H1 & H2 & H3) Hc]. cbn [fst snd length] in *. cbn [memory_sizes]. cbv zeta.
  set (n := Z.of_nat (length c)) in *. set (u := use_count h accounts) in *.
  rewrite (wrap_id 64 (z * u)), (wrap_id 64 (n + z * u)), (wrap_id 64 (n * u)) by (unfold in_range; nia).
  assert (n + z * u <= n * u) by nia. assert (0 <= n) by lia. assert (0 <= z * u) by nia.
  rewrite Nat2Z.inj_succ, Z.mul_succ_l in Hp.
  assert (0 <= Z.of_nat (length codes) * 2 ^ 63) by nia. unfold uadd. rewrite !mk_unsigned_fits by (unfold in_range; lia). cbn [mbind outcome_bind].
  apply IH; [done|lia|lia|done].
Qed.
Lemma savedUpMem_returns {BI : BoostInt} {WK : Walk} z w : codes_save_memory z w → ∃ x, savedUpMem z (evmContracts_ w) (accounts_ w) = Ret x.
Proof.
  intros (Hz & Hs & Hc). unfold savedUpMem.
  destruct (memory_sizes_run z (walk (evmContracts_ w)) (accounts_ w) 0 0) as (r & p & -> & Hr & Hp); [done|lia| | |].
  - rewrite walk_perm. rewrite length_map_to_list. lia.
  - apply Forall_forall. intros [h c] Hi%elem_of_walk. by apply Hc.
  - cbn [mbind outcome_bind fst snd]. unfold usub. rewrite mk_unsigned_fits by (unfold in_range; lia). eauto.
Qed.

(** C21: a node that stops after a snapshot starts again in the same state.  For
    any number of threads the dump manager writes every object; from an empty
    database that received the batches, [rdPoS] reads back the same validators,
    [State] the same accounts with their shared code, storage and code, and the
    contract manager one contract for each one that was registered, of the same
    type, with the same base data and the same contents.  The configured
    validators and balances of the genesis are not looked at.  There are two
    conditions.  Every code takes at least two pointers of memory and is used, or
    the constructor throws over its memory statistics ([codes_save_memory],
    [small_code_refuses_restart]).  And the contracts are of types that read back
    what they write ([StoredContract], the laws [TypesLaws]): the ERC-20, mintable
    and wrapper tokens, ERC-721 (but for the approvals for all, which are not
    written) and Ownable; the order book, the DEX factory and ERC20Wrapper do not
    ([reload_forgets_orders], [reload_loses_pairs]). *)
Theorem restart_restores {BI : BoostInt} {WK : Walk} {R : RocksDB} {CT : ContractTypes} {TL : TypesLaws}
    (sizeof_shared_ptr : Z) (sha3 : list Z → Hash) (vs : list Address) (m : Manager) (cs : gmap Address Obj)
    (nThreads : nat) (ds : list Dumpable) (d0 : rocks) :
  nThreads ≠ 0%nat → Z.of_nat (length ds) < 2 ^ 31 → validators_ok vs → world_ok (world (cm_ctx m)) →
  codes_save_memory sizeof_shared_ptr (world (cm_ctx m)) → registry_ok cs → manages m cs → complete cs ds →
  (∀ k, Get k d0 = None) →
  ∃ batches, dumpState (dump_of vs (world (cm_ctx m)) m) nThreads ds = Ret batches ∧
    let d := dumpToDB batches d0 in let w := world (cm_ctx m) in
    (∀ genesis minValidators randomness, ∃ r, rdPoS_new sha3 genesis minValidators randomness d = Ret r ∧ validators_ r = vs) ∧
    (∀ height balances, State_load sizeof_shared_ptr height balances d =
       Ret (mkWorld (accounts_ w) (storage_ w) ∅ (evmContracts_ w) [] [])) ∧
    (∀ q l0, ∃ l, ContractManager_load d (mkLoading ∅ q l0) = Ret l ∧
       (∀ a o, cs !! a = Some o → ∃ o', ld_contracts l !! a = Some o' ∧ obj_base o' = obj_base o ∧ obj_same o o') ∧
       (∀ a, in_range 160 a → cs !! a = None → ld_contracts l !! a = None)).
Proof.
  intros Hn Hlen Hvs Hw Hmem Hcs Hm Hds He. eexists. split; [by apply dumpState_run|]. cbv zeta.
  destruct (snapshot_holds vs (world (cm_ctx m)) m cs Hvs Hw Hcs Hm ds Hds d0 He) as (Hr & Hs & Hreg).
  destruct (savedUpMem_returns _ _ Hmem) as [x Hx]. split_and!.
  - intros genesis minV rnd. unfold rdPoS_new. rewrite (validators_loaded vs) by done. cbn [mbind outcome_bind].
    destruct (shuffle sha3 rnd vs) as [seed rl]. by eexists.
  - intros height balances. rewrite (state_loaded sizeof_shared_ptr (world (cm_ctx m))) by done. by rewrite Hx.
  - by apply registry_loaded.
Qed.

(** A snapshot of a chain whose only EVM contract is short cannot be loaded.
    The constructor of [State] subtracts, in checked numbers that must not be
    negative, the memory the shared codes use from what copies would use, for a
    message to the log; with one code of less than two pointers in size, used by
    one account, the difference is negative and the constructor throws, so the
    node does not start. *)
Theorem small_code_refuses_restart {BI : BoostInt} {WK : Walk} {R : RocksDB} {CT : ContractTypes} {TL : TypesLaws}
    (sizeof_shared_ptr : Z) (vs : list Address) (m : Manager) (cs : gmap Address Obj)
    (nThreads : nat) (ds : list Dumpable) (d0 : rocks) (h : Hash) (c : list Z) :
  nThreads ≠ 0%nat → Z.of_nat (length ds) < 2 ^ 31 → validators_ok vs → world_ok (world (cm_ctx m)) →
  registry_ok cs → manages m cs → complete cs ds → (∀ k, Get k d0 = None) →
  evmContracts_ (world (cm_ctx m)) = {[ h := c ]} → use_count h (accounts_ (world (cm_ctx m))) = 2 →
  sizeof_shared_ptr < 2 ^ 32 → Z.of_nat (length c) < 2 * sizeof_shared_ptr →
  ∃ batches, dumpState (dump_of vs (world (cm_ctx m)) m) nThreads ds = Ret batches ∧
    ∀ height balances, State_load sizeof_shared_ptr height balances (dumpToDB batches d0) = Throw boost_error.
Proof.
  intros Hn Hlen Hvs Hw Hcs Hm Hds He Hc Hu Hz Hl. eexists. split; [by apply dumpState_run|]. intros height balances.
  destruct (snapshot_holds vs (world (cm_ctx m)) m cs Hvs Hw Hcs Hm ds Hds d0 He) as (_ & Hs & _).
  rewrite (state_loaded sizeof_shared_ptr (world (cm_ctx m))) by done.
  assert (Hwalk : walk (evmContracts_ (world (cm_ctx m))) = [(h, c)]).
  { apply Permutation_singleton_r. rewrite walk_perm, Hc. by rewrite map_to_list_singleton. }
  unfold savedUpMem. rewrite Hwalk. cbn [memory_sizes]. rewrite Hu.
  rewrite (wrap_id 64 (sizeof_shared_ptr * 2)), !wrap_id by (unfold in_range; lia). unfold uadd, usub.
  rewrite !mk_unsigned_fits by (unfold in_range; lia). cbn [mbind outcome_bind fst snd].
  by rewrite mk_unsigned_throws by (unfold in_range; lia).
Qed.

(** ** A chain with one EVM contract and one C++ contract *)
Definition demo_ownable : AnyContract := COwnable (Ownable_new "Ownable" 17 85 17 8080).
Definition demo_code (n : nat) : list Z := replicate n 91.
Definition demo_chain (code : list Z) : World :=
  mkWorld (<[34 := mkAccount 0 1 171 (Some code) EVM]> {[17 := mkAccount 1000 3 0 None NOT_A_CONTRACT]})
    {[(34, 1) := 7]} (<[ContractManager_address := Some 0%nat]> {[85 := Some 1%nat]}) {[171 := code]} [] [].
#[local] Existing Instance boost_ref.
Definition demo_types : ContractTypes (R := sorted_store) := custom_types.
Definition demo_manager (code : list Z) : Manager (CT := demo_types) :=
  let b := mkBase ContractManager_address (string_bytes "ContractManager") 0 8080 in
  mkManager (CT := demo_types) b ∅ false (mkCtx (mkEnv 0 0 0 0 0 0 0 0 0 0 true) (demo_chain code) [] ∅) [Protocol b; Deployed demo_ownable] None.
Definition demo_contracts : gmap Address AnyContract := {[85 := demo_ownable]}.
Definition demo_dumpables : list (Dumpable (CT := demo_types)) :=
  [DRdPoS; DState; DManager; DContract demo_ownable].

Lemma restart_world_ok n : world_ok (demo_chain (demo_code n)).
Proof.
  unfold world_ok, demo_chain. cbn [accounts_ storage_ evmContracts_]. split_and!.
  - done.
  - apply map_Forall_insert_2; [|apply map_Forall_singleton]; (split; [by vm_compute|]); unfold account_ok; split_and!; try (by vm_compute).
    rewrite decide_True by done. cbn [code codeHash]. by rewrite lookup_singleton_eq.
  - apply map_Forall_singleton. by vm_compute.
  - apply map_Forall_singleton. by vm_compute.
Qed.
Lemma deployed_inj {A} (x y : A) : Deployed x = Deployed y → x = y.
Proof. by intros [= ->]. Qed.
Lemma demo_manages n : manages (demo_manager (demo_code n)) demo_contracts.
Proof.
  intros a o. assert (E : deployed (demo_manager (demo_code n)) =
    [(85, Deployed demo_ownable); (ContractManager_address, Protocol (cm_base (demo_manager (demo_code n))))]) by reflexivity.
  rewrite E. unfold demo_contracts. rewrite lookup_singleton_Some, elem_of_cons, list_elem_of_singleton. split.
  - intros [[-> H]%pair_eq|[_ H]%pair_eq]; [|discriminate H]. split; [reflexivity|]. exact (deployed_inj _ _ (eq_sym H)).
  - intros [<- <-]. left. reflexivity.
Qed.
Lemma demo_complete : complete demo_contracts demo_dumpables.
Proof.
  unfold complete, demo_dumpables, demo_contracts. split_and!; [set_solver|set_solver|set_solver|]. intros o.
  setoid_rewrite lookup_singleton_Some. rewrite !elem_of_cons. split.
  - intros [H|[H|[H|[H|H]]]]; try discriminate H; [|by apply not_elem_of_nil in H]. injection H as ->. eauto.
  - intros (a & _ & ->). auto.
Qed.
Lemma demo_registry : registry_ok (CT := demo_types) (TL := custom_laws) demo_contracts.
Proof. apply map_Forall_singleton. split; [done|]. split; [done|]. split; by vm_compute. Qed.
Lemma restart_validators : validators_ok [5; 9].
Proof. split_and!; [done|repeat constructor|repeat constructor; by vm_compute|done]. Qed.

Lemma restart_restores_witness :
  ∃ batches, dumpState (dump_of [5; 9] (demo_chain (demo_code 40)) (demo_manager (demo_code 40))) 3 demo_dumpables = Ret batches ∧
    State_load (BI := boost_ref) 16 12 [] (dumpToDB batches empty_store) =
      Ret (mkWorld (accounts_ (demo_chain (demo_code 40))) {[(34, 1) := 7]} ∅ {[171 := demo_code 40]} [] []).
Proof.
  destruct (restart_restores (CT := demo_types) (TL := custom_laws) 16 (λ _, 0) [5; 9] (demo_manager (demo_code 40)) demo_contracts 3
    demo_dumpables empty_store) as (batches & E & _ & Hs & _).
  - done.
  - done.
  - exact restart_validators.
  - exact (restart_world_ok 40).
  - split; [lia|]. split; [done|]. apply map_Forall_singleton. by vm_compute.
  - exact demo_registry.
  - exact (demo_manages 40).
  - exact demo_complete.
  - done.
  - exists batches. split; [exact E|]. apply Hs.
Defined.

Lemma small_code_refuses_restart_witness :
  ∃ batches, dumpState (dump_of [5; 9] (demo_chain (demo_code 31)) (demo_manager (demo_code 31))) 3 demo_dumpables = Ret batches ∧
    State_load (BI := boost_ref) 16 12 [] (dumpToDB batches empty_store) = Throw boost_error.
Proof.
  destruct (small_code_refuses_restart (CT := demo_types) (TL := custom_laws) 16 [5; 9] (demo_manager (demo_code 31)) demo_contracts 3
    demo_dumpables empty_store 171 (demo_code 31)) as (batches & E & Hs).
  - done.
  - done.
  - exact restart_validators.
  - exact (restart_world_ok 31).
  - exact demo_registry.
  - exact (demo_manages 31).
  - exact demo_complete.
  - done.
  - done.
  - by vm_compute.
  - done.
  - by vm_compute.
  - exists batches. split; [exact E|]. apply Hs.
Defined.
