(* ===== verification/State.v ===== *)
(** * The chain state: transactions, blocks and the mempool

    Models [State] (src/core/state.cpp): validation of transactions and blocks,
    [processTransaction] with the contract host, the mempool, and the effect of a
    block.  The loading of a snapshot is in [Snapshot], the replay of blocks in
    [Restart]; the block observers are an argument of [tryProcessNextBlock];
    locks are not modelled. *)

From S2P Require Import Prelude CheckedInt SafeBase SafeScalars ExecutionContext Messages.
From S2P Require Import AnyVar ContractHost Gas Bytes Tx RdPoS.

(** [FinalizedBlock] *)
Record Block := mkBlock {
  blk_hash : Hash;
  blk_prevHash : Hash;
  blk_timestamp : Z;
  blk_rdpos : BlockRdPoS;
  blk_txs : list TxBlock;
}.

Inductive BlockValidationStatus := valid | invalidErroneous | invalidWrongHeight.

#[export] Instance BlockValidationStatus_eq_dec : EqDecision BlockValidationStatus.
Proof. solve_decision. Defined.

(** [TxAdditionalData] *)
Record TxAdditionalData := mkTxAdditionalData {
  td_hash : Hash;
  td_gasUsed : Z;
  td_succeeded : bool;
  td_contractAddress : Address;
}.

(** [TxBlock::toMessage] *)
Definition toMessage (tx : TxBlock) : Message :=
  if tx_to tx =? 0 then EncodedCreate (tx_from tx) (tx_value tx) (tx_data tx)
  else EncodedCall (tx_from tx) (tx_to tx) (tx_value tx) (tx_data tx).

Section state.
Context {BI : BoostInt} {V T : Type} {SV : SafeVar V T} {VO : VarOps V T} {EX : Externals}.

(** The members of [State]: the four maps (a [World] whose two vectors are
    empty between transactions), the variables of the C++ contracts, the
    mempool, rdPoS, the blocks of [storage_] (latest first), the indexed
    transaction data, the dumpable contracts and the stored events. *)
Record State := mkState {
  s_world : World;
  s_vars : HostVars V;
  mempool_ : gmap Z TxBlock;
  rdpos_ : rdPoS;
  s_blocks : list Block;
  s_txData : list TxAdditionalData;
  s_dumpables : list nat;
  s_events : list Event;
}.

Definition with_s_world w s := mkState w (s_vars s) (mempool_ s) (rdpos_ s) (s_blocks s) (s_txData s) (s_dumpables s) (s_events s).
Definition with_mempool m s := mkState (s_world s) (s_vars s) m (rdpos_ s) (s_blocks s) (s_txData s) (s_dumpables s) (s_events s).
Definition with_rdpos r s := mkState (s_world s) (s_vars s) (mempool_ s) r (s_blocks s) (s_txData s) (s_dumpables s) (s_events s).
Definition with_blocks b s := mkState (s_world s) (s_vars s) (mempool_ s) (rdpos_ s) b (s_txData s) (s_dumpables s) (s_events s).
Definition with_txData t s := mkState (s_world s) (s_vars s) (mempool_ s) (rdpos_ s) (s_blocks s) t (s_dumpables s) (s_events s).

(** Node options: the chain id, whether transaction data is indexed, and the
    evaluation order the compiler chose (see [ExecutionContext]). *)
Context (chainId : Z) (indexing : bool) (order : bool).

(** *** Reading accounts *)

Definition getNativeBalance (a : Address) (s : State) : Z :=
  match accounts_ (s_world s) !! a with None => 0 | Some acc => balance acc end.
Definition getNativeNonce (a : Address) (s : State) : Z :=
  match accounts_ (s_world s) !! a with None => 0 | Some acc => nonce acc end.
Definition isTxInMempool (h : Hash) (s : State) : bool := bool_decide (is_Some (mempool_ s !! h)).
Definition getTxFromMempool (h : Hash) (s : State) : option TxBlock := mempool_ s !! h.

(** [contractSanityCheck] *)
Definition contractSanityCheck (a : Address) (acc : Account) (s : State) : outcome unit :=
  match contractType acc with
  | CPP =>
      if decide (contracts_ (s_world s) !! a = None)
      then Throw (DynamicException "Contract is marked as C++ contract but doesn't have code")
      else Ret ()
  | EVM =>
      if decide (default [] (code acc) = [])
      then Throw (DynamicException "Contract is marked as EVM contract but doesn't have code")
      else Ret ()
  | NOT_A_CONTRACT =>
      if decide (default [] (code acc) = []) then Ret ()
      else Throw (DynamicException "Contract is marked as not a contract but has code")
  end.

(** *** Transactions *)

(** [tx.getValue() + (tx.getGasLimit() * tx.getMaxFeePerGas())] *)
Definition txWithFees (tx : TxBlock) : outcome Z :=
  f ← umul 256 (tx_gasLimit tx) (tx_maxFeePerGas tx); uadd 256 (tx_value tx) f.

Definition validateTransactionInternal (tx : TxBlock) (s : State) : outcome TxStatus :=
  match mempool_ s !! tx_hash tx with
  | Some _ => Ret ValidExisting
  | None =>
      match accounts_ (s_world s) !! tx_from tx with
      | None => Ret InvalidBalance
      | Some acc =>
          need ← txWithFees tx;
          if balance acc <? need then Ret InvalidBalance
          else if negb (nonce acc =? tx_nonce tx) then Ret InvalidNonce
          else Ret ValidNew
      end
  end.

Definition addTx (tx : TxBlock) : M State TxStatus :=
  s ← gets id;
  st ← lift (validateTransactionInternal tx s);
  if decide (st ≠ ValidNew) then mret st
  else
    modify (λ s, with_mempool
      (match mempool_ s !! tx_hash tx with
       | Some _ => mempool_ s
       | None => <[tx_hash tx := tx]> (mempool_ s)
       end) s) ;;
    mret st.

Definition addValidatorTx_state (tx : TxValidator) : M State TxStatus :=
  s ← gets id;
  zoom rdpos_ with_rdpos
    (addValidatorTx (match s_blocks s with b :: _ => b_nHeight (blk_rdpos b) | [] => 0 end) tx).

(** Write the account of an address that exists. *)
Definition update_account (a : Address) (f : Account → Account) : M State unit :=
  modify (λ s, with_s_world (with_accounts (<[a := f (account (s_world s) a)]>) (s_world s)) s).

(** The context and the host built for a message. *)
Definition tx_env (tx : TxBlock) (b : Block) (txIndex : Z) : Env :=
  mkEnv 10000000 (b_nHeight (blk_rdpos b)) (blk_timestamp b) txIndex (b_validator (blk_rdpos b))
    (tx_from tx) (blk_hash b) (tx_hash tx) chainId (tx_maxFeePerGas tx) order.

Definition new_host (e : Env) (gas : Z) (seed : Hash) (s : State) : Host (V := V) :=
  mkHost (mkExec (mkCtx e (s_world s) [] ∅) (mkHostVars (vars (s_vars s)) []) gas false 0 ∅ seed ∅ None)
    true (s_dumpables s) (s_events s).

Definition absorb_host (h : Host) (s : State) : State :=
  mkState (world (x_ctx (h_exec h))) (mkHostVars (vars (x_vars (h_exec h))) []) (mempool_ s)
    (rdpos_ s) (s_blocks s) (s_txData s) (h_dumpables h) (h_events h).

(** The block of [processTransaction] inside [try]: build the host, execute,
    destroy the host.  The result is the outcome of the message and the gas
    left. *)
Definition run_host (fuel : nat) (e : Env) (gas : Z) (seed : Hash) (m : Message) :
    M State (outcome Result * Z) := λ s,
  let '(r, h1) := execute fuel m (new_host e gas seed s) in
  match finish h1 with
  | (Throw ex, h2) => (Throw ex, absorb_host h2 s)
  | (Ret _, h2) =>
      match r with
      | Throw undefined_behaviour => (Throw undefined_behaviour, absorb_host h2 s)
      | _ => (Ret (r, x_gas (h_exec h1)), absorb_host h2 s)
      end
  end.

Definition processTransaction (fuel : nat) (tx : TxBlock) (b : Block) (txIndex : Z) : M State unit :=
  update_account (tx_from tx) (λ acc, acc) ;;
  s ← gets (λ s, s);
  let acc := account (s_world s) (tx_from tx) in
  need ← lift (txWithFees tx);
  throw_if (balance acc <? need)
    (DynamicException "Transaction sender doesn't have balance to send transaction") ;;
  throw_if (negb (nonce acc =? tx_nonce tx)) (DynamicException "Transaction nonce mismatch") ;;
  gas ← lift (to_uint64 (tx_gasLimit tx));
  rg ← match uadd 256 (b_randomness (blk_rdpos b)) txIndex with
       | Throw ex => mret (Throw ex, gas)
       | Ret seed => run_host fuel (tx_env tx b txIndex) gas seed (toMessage tx)
       end;
  let '(r, gas') := rg in
  update_account (tx_from tx) (λ acc, set_nonce (wrap 64 (nonce acc + 1)) acc) ;;
  gasUsed ← lift (d ← usub 256 (tx_gasLimit tx) gas'; to_uint64 d);
  (if indexing then
     modify (λ s, with_txData (s_txData s ++ [mkTxAdditionalData (tx_hash tx) gasUsed (returns r)
       (match r with Ret (RAddress a) => a | _ => 0 end)]) s)
   else mret ()) ;;
  fee ← lift (umul 256 gasUsed (tx_maxFeePerGas tx));
  s' ← gets id;
  bal ← lift (usub 256 (balance (account (s_world s') (tx_from tx))) fee);
  update_account (tx_from tx) (set_balance bal).

(** *** The mempool after a block *)

(** The second loop of [refreshMempool]. *)
Definition keep_if_valid (tx : Hash * TxBlock) : M State unit :=
  s ← gets id;
  st ← lift (validateTransactionInternal tx.2 s);
  if isTxStatusValid st then modify (with_mempool (<[tx.1 := tx.2]> (mempool_ s))) else mret ().

Definition refreshMempool (b : Block) : M State unit :=
  modify (λ s, with_mempool (foldl (λ m tx, delete (tx_hash tx) m) (mempool_ s) (blk_txs b)) s) ;;
  s ← gets id;
  modify (with_mempool ∅) ;;
  for_each keep_if_valid (map_to_list (mempool_ s)).

(** *** Blocks *)

(** The loop over the transactions of a block in [validateNextBlockInternal]. *)
Fixpoint all_txs_valid (txs : list TxBlock) (s : State) : outcome bool :=
  match txs with
  | [] => Ret true
  | tx :: txs =>
      st ← validateTransactionInternal tx s;
      if isTxStatusValid st then all_txs_valid txs s else Ret false
  end.

Definition validateNextBlockInternal (b : Block) (s : State) : outcome BlockValidationStatus :=
  match s_blocks s with
  | [] => Throw undefined_behaviour
  | latest :: _ =>
      if negb (b_nHeight (blk_rdpos b) =? b_nHeight (blk_rdpos latest) + 1)
      then Ret invalidWrongHeight
      else if negb (blk_prevHash b =? blk_hash latest) then Ret invalidErroneous
      else if blk_timestamp b <? blk_timestamp latest then Ret invalidErroneous
      else
        ok ← validateBlock sha3 (blk_rdpos b) (rdpos_ s);
        if negb ok then Ret invalidErroneous
        else
          txs_ok ← all_txs_valid (blk_txs b) s;
          if negb txs_ok then Ret invalidErroneous else Ret valid
  end.

(** The loop over the transactions of a block, with their index. *)
Fixpoint process_txs (fuel : nat) (b : Block) (i : Z) (txs : list TxBlock) : M State unit :=
  match txs with
  | [] => mret ()
  | tx :: txs => processTransaction fuel tx b i ;; process_txs fuel b (i + 1) txs
  end.

Definition tryProcessNextBlock (notify : Block → M State unit) (fuel : nat) (b : Block) :
    M State BlockValidationStatus :=
  s ← gets id;
  st ← lift (validateNextBlockInternal b s);
  if decide (st ≠ valid) then mret st
  else
    process_txs fuel b 0 (blk_txs b) ;;
    modify (λ s, with_rdpos (processBlock sha3 (blk_rdpos b) (rdpos_ s)).2 s) ;;
    refreshMempool b ;;
    notify b ;;
    modify (λ s, with_blocks (b :: s_blocks s) s) ;;
    mret st.

Definition processNextBlock (notify : Block → M State unit) (fuel : nat) (b : Block) : M State unit :=
  st ← tryProcessNextBlock notify fuel b;
  if decide (st ≠ valid)
  then throw (DynamicException "Invalid block detected during processNextBlock sanity check")
  else mret ().

(** ** Lemmas *)

(** Between transactions: every variable committed, no pending events. *)
Definition state_ok (s : State) : Prop :=
  host_clean (s_vars s) ∧ events_ (s_world s) = [] ∧ newContracts_ (s_world s) = [].

Lemma new_host_fresh e g seed s : state_ok s → host_fresh (new_host e g seed s).
Proof.
  intros ((Hu & Hv) & He & Hn). split; [|done]. split; [done|]. exact Hv.
Qed.

(** The state seen by [processTransaction] after [accounts_[tx.getFrom()]]. *)
Definition touched (a : Address) (s : State) : State :=
  with_s_world (with_accounts (<[a := account (s_world s) a]>) (s_world s)) s.

Lemma touched_equiv a s : s_world (touched a s) ≡ s_world s.
Proof. symmetry. by apply world_equiv_touch. Qed.

Lemma touched_ok a s : state_ok s → state_ok (touched a s).
Proof. done. Qed.

Lemma touched_account a b s : account (s_world (touched a s)) b = account (s_world s) b.
Proof. apply touched_equiv. Qed.

(** The host of a message that throws puts everything back. *)
Lemma run_host_failed fuel e g seed m s ex h1 :
  state_ok s → execute fuel m (new_host e g seed s) = (Throw ex, h1) →
  ex ≠ undefined_behaviour →
  ∃ s1, run_host fuel e g seed m s = (Ret (Throw ex, x_gas (h_exec h1)), s1) ∧
    world_upto (overwritten_ (x_ctx (h_exec h1))) (s_world s) (s_world s1) ∧ values (s_vars s1) = values (s_vars s) ∧ state_ok s1 ∧
    mempool_ s1 = mempool_ s ∧ rdpos_ s1 = rdpos_ s ∧ s_blocks s1 = s_blocks s ∧ s_txData s1 = s_txData s ∧
    s_events s1 = s_events s ∧ s_dumpables s1 = s_dumpables s.
Proof.
  intros Hok Hrun Hub. pose proof (new_host_fresh e g seed s Hok) as Hf.
  pose proof (execute_run fuel m (new_host e g seed s)) as Hr.
  pose proof (execute_body_le fuel m (h_exec (new_host e g seed s))) as Hle.
  destruct (execute_body fuel m (h_exec (new_host e g seed s))) as [r x'] eqn:Eb. cbn in Hle.
  rewrite Hrun in Hr. injection Hr as <- ->.
  destruct (finish_reverts _ x' (s_dumpables s) (s_events s) Hf Hle)
    as (h2 & Hfin & Hv & Hw & _ & Hd & He & Hc).
  exists (absorb_host h2 s). split.
  { unfold run_host. rewrite Hrun. cbn in *. rewrite Hfin. by destruct ex. }
  cbn in *. destruct Hok as (_ & Hok1 & Hok2). split_and!; try done. split_and!; [done|..]; cbn.
  - by rewrite <- (wu_events _ _ _ Hw).
  - by rewrite <- (wu_newContracts _ _ _ Hw).
Qed.

(** The host of a message that returns commits what it computed. *)
Lemma run_host_succeeded fuel e g seed m s r x' :
  state_ok s → execute_body fuel m (h_exec (new_host e g seed s)) = (Ret r, x') →
  ∃ s1, run_host fuel e g seed m s = (Ret (Ret r, x_gas x'), s1) ∧
    s_world s1 = clear_vectors (world (x_ctx x')) ∧ values (s_vars s1) = values (x_vars x') ∧
    state_ok s1 ∧ mempool_ s1 = mempool_ s.
Proof.
  intros Hok Hrun. pose proof (new_host_fresh e g seed s Hok) as Hf.
  pose proof (execute_run fuel m (new_host e g seed s)) as Hr.
  pose proof (execute_body_le fuel m (h_exec (new_host e g seed s))) as Hle.
  rewrite Hrun in Hr, Hle. cbn in Hle.
  destruct (finish_commits _ x' (s_dumpables s) (s_events s) Hf Hle)
    as (h2 & Hfin & Hv & Hc & Hw & _ & Hd & He).
  exists (absorb_host h2 s). split.
  { unfold run_host. rewrite Hr. cbn in *. by rewrite Hfin. }
  cbn in *. split_and!; try done. split_and!; cbn; [done|by rewrite Hw..].
Qed.

(** The gas left is within the limit. *)
Lemma execute_gas `{!GasOk} fuel m h r h1 :
  execute fuel m h = (r, h1) → 0 ≤ x_gas (h_exec h) →
  0 ≤ x_gas (h_exec h1) ≤ x_gas (h_exec h).
Proof.
  intros Hr Hg. pose proof (execute_run fuel m h) as He.
  assert (Hb : preserves gas_le (execute_body fuel m)).
  { unfold execute_body. apply gas_bind; [by apply gas_gas_use|]. intros _. apply onMessage_gas. }
  specialize (Hb (h_exec h) Hg). destruct (execute_body fuel m (h_exec h)) as [r' x'].
  rewrite Hr in He. injection He as -> ->. done.
Qed.

(** The guards of [processTransaction], passed. *)
Definition tx_accepted (tx : TxBlock) (s : State) : Prop :=
  let acc := account (s_world s) (tx_from tx) in
  in_range 256 (balance acc) ∧ 0 ≤ tx_value tx ∧ in_range 64 (tx_gasLimit tx) ∧ 0 ≤ tx_maxFeePerGas tx ∧
  tx_value tx + tx_gasLimit tx * tx_maxFeePerGas tx ≤ balance acc ∧ nonce acc = tx_nonce tx.

Lemma txWithFees_accepted tx s :
  tx_accepted tx s → txWithFees tx = Ret (tx_value tx + tx_gasLimit tx * tx_maxFeePerGas tx).
Proof.
  intros ([? ?] & ? & [? ?] & ? & ? & ?). unfold txWithFees, umul, uadd.
  rewrite mk_unsigned_fits by (unfold in_range; nia). cbn.
  rewrite mk_unsigned_fits by (unfold in_range; nia). done.
Qed.

(** What a transaction costs when it leaves [g] of its gas. *)
Definition tx_fee (tx : TxBlock) (g : Z) : Z := (tx_gasLimit tx - g) * tx_maxFeePerGas tx.

(** The accounting after the message: nonce, transaction data and fee. *)
Definition charge (tx : TxBlock) (r : outcome Result) (g : Z) : M State unit :=
  update_account (tx_from tx) (λ acc, set_nonce (wrap 64 (nonce acc + 1)) acc) ;;
  gasUsed ← lift (d ← usub 256 (tx_gasLimit tx) g; to_uint64 d);
  (if indexing then
     modify (λ s, with_txData (s_txData s ++ [mkTxAdditionalData (tx_hash tx) gasUsed (returns r)
       (match r with Ret (RAddress a) => a | _ => 0 end)]) s)
   else mret ()) ;;
  fee ← lift (umul 256 gasUsed (tx_maxFeePerGas tx));
  s' ← gets id;
  bal ← lift (usub 256 (balance (account (s_world s') (tx_from tx))) fee);
  update_account (tx_from tx) (set_balance bal).

Lemma processTransaction_accepted fuel tx b i s :
  tx_accepted tx s → in_range 256 (b_randomness (blk_rdpos b) + i) →
  processTransaction fuel tx b i s =
    (rg ← run_host fuel (tx_env tx b i) (tx_gasLimit tx) (b_randomness (blk_rdpos b) + i) (toMessage tx);
     charge tx rg.1 rg.2) (touched (tx_from tx) s).
Proof.
  intros Hacc Hrand. pose proof Hacc as ([? ?] & ? & Hgl & ? & ? & Hnonce).
  unfold processTransaction.
  erewrite bind_run; [|done]. erewrite bind_run; [|done]. cbv zeta.
  cbv beta. change (with_s_world (with_accounts (<[tx_from tx := account (s_world s) (tx_from tx)]>) (s_world s)) s)
    with (touched (tx_from tx) s).
  rewrite touched_account.
  erewrite bind_run; [|unfold lift; rewrite (txWithFees_accepted tx s Hacc); done].
  erewrite bind_run; [|unfold throw_if; rewrite (proj2 (Z.ltb_ge _ _)) by lia; done].
  erewrite bind_run; [|unfold throw_if; rewrite (proj2 (Z.eqb_eq _ _)) by done; done].
  erewrite bind_run; [|unfold lift; rewrite to_uint64_fits by done; done].
  unfold uadd at 1. rewrite mk_unsigned_fits by done.
  unfold mbind, M_bind. destruct (run_host _ _ _ _ _ _) as [[[r g]|ex] s1]; done.
Qed.

(** The sender's account after a transaction that left [g] gas. *)
Definition charged (tx : TxBlock) (g : Z) (acc : Account) : Account :=
  set_balance (balance acc - tx_fee tx g) (set_nonce (wrap 64 (nonce acc + 1)) acc).

Lemma charge_run tx r g s :
  let acc := account (s_world s) (tx_from tx) in
  in_range 64 (tx_gasLimit tx) → 0 ≤ g ≤ tx_gasLimit tx → 0 ≤ tx_maxFeePerGas tx →
  tx_fee tx g ≤ balance acc → in_range 256 (balance acc) →
  ∃ s', charge tx r g s = (Ret (), s') ∧
    s_world s' = with_accounts (<[tx_from tx := charged tx g acc]>) (s_world s) ∧
    s_vars s' = s_vars s ∧ mempool_ s' = mempool_ s ∧ s_events s' = s_events s ∧
    s_dumpables s' = s_dumpables s ∧ rdpos_ s' = rdpos_ s ∧ s_blocks s' = s_blocks s ∧
    (indexing = false → s_txData s' = s_txData s) ∧
    (indexing = true → s_txData s' = s_txData s ++
      [mkTxAdditionalData (tx_hash tx) (tx_gasLimit tx - g) (returns r)
         (match r with Ret (RAddress a) => a | _ => 0 end)]).
Proof.
  intros acc [? ?] Hg Hf Hfee [? ?]. unfold charge.
  erewrite bind_run; [|done].
  erewrite bind_run.
  2: { unfold lift, usub. rewrite mk_unsigned_fits by (unfold in_range; lia). cbn.
       rewrite to_uint64_fits by (unfold in_range; lia). done. }
  assert (Hfr : in_range 256 ((tx_gasLimit tx - g) * tx_maxFeePerGas tx)).
  { unfold tx_fee in Hfee. unfold in_range. nia. }
  set (s1 := with_s_world _ s).
  assert (Hs1 : account (s_world s1) (tx_from tx) = set_nonce (wrap 64 (nonce acc + 1)) acc).
  { unfold s1. cbn. by rewrite account_insert, decide_True. }
  destruct indexing.
  all: erewrite bind_run; [|done].
  all: erewrite bind_run; [|unfold lift, umul; rewrite mk_unsigned_fits by done; done].
  all: erewrite bind_run; [|done].
  all: cbn [s_world id]; unfold id.
  all: erewrite bind_run;
    [|unfold lift, usub; change (s_world (with_txData _ ?t)) with (s_world t);
      rewrite ?Hs1; cbn [balance set_nonce];
      rewrite mk_unsigned_fits by (unfold in_range, tx_fee in *; nia); done].
  all: eexists; split; [reflexivity|]; cbn; rewrite with_accounts_twice, account_insert, decide_True by done.
  all: done.
Qed.

(** The accounts after a payment of [v]. *)
Definition paid (from to : Address) (v : Z) (w : World) (a : Address) : Account :=
  set_balance (balance (account w a) - (if decide (a = from) then v else 0) +
    (if decide (a = to) then v else 0)) (account w a).

(** The recipient can hold the payment. *)
Definition can_pay (from to : Address) (v : Z) (w : World) : Prop :=
  in_range 256 v ∧ (∀ a, in_range 256 (balance (account w a))) ∧ v ≤ balance (account w from) ∧
  (from ≠ to → balance (account w to) + v < 2 ^ 256).

Lemma transferFunds_run from to v (x : Exec (V := V)) :
  can_pay from to v (world (x_ctx x)) →
  ∃ x1, transferFunds (EncodedCall from to v []) x = (Ret (), x1) ∧
    x_gas x1 = x_gas x ∧ x_vars x1 = x_vars x ∧ cppContractReverted_ x1 = cppContractReverted_ x ∧
    same_rest (world (x_ctx x)) (world (x_ctx x1)) ∧ total (world (x_ctx x1)) = total (world (x_ctx x)) ∧
    ∀ a, account (world (x_ctx x1)) a = paid from to v (world (x_ctx x)) a.
Proof.
  intros (Hv & Hb & Hbal & Hov). unfold transferFunds. cbn [messageValueOrZero msg_from msg_to].
  destruct (Z.ltb_spec 0 v) as [Hpos|Hneg].
  - pose proof (transferBalance_spec from to v (x_ctx x) Hv Hb) as Hs.
    pose proof (transferBalance_rest from to v (x_ctx x)) as Hrest.
    cbv zeta in Hs. unfold in_ctx, zoom.
    destruct (transferBalance from to v (x_ctx x)) as [r c'].
    rewrite decide_False in Hs by lia.
    rewrite decide_False in Hs by (intros [Hne ?]; specialize (Hov Hne); lia).
    destruct Hs as (-> & Htot & Hacc). eexists; split; [done|]. cbn. done.
  - assert (v = 0) as -> by (destruct Hv; lia). eexists; split; [done|].
    split_and!; [done..|]. intros a. unfold paid.
    repeat case_decide; rewrite Z.sub_0_r, Z.add_0_r; by destruct (account (world (x_ctx x)) a).
Qed.

(** A payment: the message transfers the value and nothing else. *)
Lemma payment_body fuel from to v (x : Exec (V := V)) :
  CONTRACT_EXECUTION_COST ≤ x_gas x → cppContractReverted_ x = false →
  isPrecompiled to = false → contractType (account (world (x_ctx x)) to) = NOT_A_CONTRACT →
  can_pay from to v (world (x_ctx x)) →
  ∃ x', execute_body (S fuel) (EncodedCall from to v []) x = (Ret (RData []), x') ∧
    x_gas x' = x_gas x - CONTRACT_EXECUTION_COST ∧ x_vars x' = x_vars x ∧
    same_rest (world (x_ctx x)) (world (x_ctx x')) ∧
    total (world (x_ctx x')) = total (world (x_ctx x)) ∧
    ∀ a, account (world (x_ctx x')) a = paid from to v (world (x_ctx x)) a.
Proof.
  intros Hg Hrev Hpre Htype Hpay.
  destruct (transferFunds_run from to v (with_gas (x_gas x - CONTRACT_EXECUTION_COST) x) Hpay)
    as (x1 & Ht & Hg1 & Hv1 & Hr1 & Hrest1 & Htot1 & Hacc1). cbn in Hg1, Hv1, Hr1, Hrest1, Htot1, Hacc1.
  set (w2 := with_accounts (<[to := account (world (x_ctx x1)) to]>) (world (x_ctx x1))).
  assert (Hext : world (x_ctx x1) ≡ w2) by by apply world_equiv_touch.
  exists (with_ctx (with_world (λ _, w2) (x_ctx x1)) x1). split.
  - unfold execute_body. erewrite bind_run.
    2: { unfold gas_use, gets, modify, mbind, M_bind. rewrite (proj2 (Z.ltb_ge _ _)) by lia. done. }
    rewrite onMessage_S. unfold message_body. cbn [dispatchMessage is_delegate msg_to]. rewrite Hpre.
    assert (Hty : contractType (account w2 to) = NOT_A_CONTRACT).
    { rewrite <- (we_account _ _ Hext), Hacc1. done. }
    erewrite bind_run.
    2: { erewrite bind_run; [|exact Ht].
         unfold messageCodeAddress, msg_to, getContractType, getAccount, in_ctx, zoom, deref, write, modify, gets.
         unfold mbind, M_bind, mret, M_ret. cbn. fold w2. rewrite Hty. done. }
    unfold checkCppContractReverted, gets, mbind, M_bind. cbn. by rewrite Hr1, Hrev.
  - cbn. split_and!; [lia|done|done| |].
    + rewrite <- Htot1. symmetry. by apply total_Proper, Hext.
    + intros a. rewrite <- Hacc1. symmetry. apply Hext.
Qed.

Lemma all_txs_valid_true (txs : list TxBlock) s :
  all_txs_valid txs s = Ret true ↔
    ∀ tx, tx ∈ txs → ∃ st, validateTransactionInternal tx s = Ret st ∧ isTxStatusValid st = true.
Proof.
  induction txs as [|tx txs IH]; cbn; [split; [set_solver|done]|].
  destruct (validateTransactionInternal tx s) as [st|e] eqn:E; cbn.
  - destruct (isTxStatusValid st) eqn:Es.
    + rewrite IH. split; [|set_solver]. intros Hall tx' [->|?]%elem_of_cons; eauto.
    + split; [done|]. intros Hall. destruct (Hall tx) as (st' & E' & ?); [set_solver|]. congruence.
  - split; [done|]. intros Hall. destruct (Hall tx) as (st' & E' & ?); [set_solver|]. congruence.
Qed.

Lemma all_txs_valid_spec (txs : list TxBlock) s :
  (∀ tx, tx ∈ txs → ∃ st, validateTransactionInternal tx s = Ret st) →
  ∃ v, all_txs_valid txs s = Ret v ∧ (v = true ↔
    ∀ tx, tx ∈ txs → ∃ st, validateTransactionInternal tx s = Ret st ∧ isTxStatusValid st = true).
Proof.
  induction txs as [|tx txs IH]; intros Htxs; cbn; [exists true; split; [done|set_solver]|].
  destruct (Htxs tx) as [st Hst]; [set_solver|]. rewrite Hst. cbn.
  destruct IH as (v & Hv & Hiff); [set_solver|].
  destruct (isTxStatusValid st) eqn:Es.
  - exists v. split; [done|]. rewrite Hiff. split; [|set_solver].
    intros Hall tx' [->|?]%elem_of_cons; eauto.
  - exists false. split; [done|]. split; [done|]. intros Hall.
    destruct (Hall tx) as (st' & E & ?); [set_solver|]. congruence.
Qed.

(** *** The mempool *)

(** What [validateTransactionInternal] says of a transaction that is not in the
    mempool. *)
Definition status_now (tx : TxBlock) (s : State) : outcome TxStatus :=
  validateTransactionInternal tx (with_mempool ∅ s).

Lemma validate_not_in_mempool tx s m :
  mempool_ s !! tx_hash tx = None →
  validateTransactionInternal tx s = status_now tx (with_mempool m s).
Proof. intros Hn. unfold status_now, validateTransactionInternal. cbn. by rewrite Hn, lookup_empty. Qed.

(** Each transaction of the mempool is stored under its hash, and validating it
    does not overflow. *)
Definition mempool_wf (s : State) : Prop :=
  ∀ k tx, mempool_ s !! k = Some tx → k = tx_hash tx ∧ ∃ st, status_now tx s = Ret st.

Lemma keep_loop l : ∀ s : State,
  NoDup l.*1 → (∀ k tx, (k, tx) ∈ l → k = tx_hash tx ∧ mempool_ s !! k = None ∧ ∃ st, status_now tx s = Ret st) →
  ∃ m, for_each keep_if_valid l s = (Ret (), with_mempool m s) ∧
    ∀ k tx, m !! k = Some tx ↔ mempool_ s !! k = Some tx ∨
      ((k, tx) ∈ l ∧ ∃ st, status_now tx s = Ret st ∧ isTxStatusValid st = true).
Proof.
  induction l as [|[k0 tx0] l IH]; intros s Hnd Hl.
  { exists (mempool_ s). split; [by destruct s|]. set_solver. }
  apply NoDup_cons in Hnd as [Hk0 Hnd].
  destruct (Hl k0 tx0) as (Ek & Hn & st & Hst); [set_solver|].
  set (m1 := if isTxStatusValid st then <[k0 := tx0]> (mempool_ s) else mempool_ s).
  assert (Hstep : keep_if_valid (k0, tx0) s = (Ret (), with_mempool m1 s)).
  { unfold keep_if_valid. erewrite bind_run; [|done]. erewrite bind_run.
    2: { unfold lift, id. cbn [snd]. rewrite Ek in Hn.
         rewrite (validate_not_in_mempool _ _ (mempool_ s) Hn).
         change (status_now tx0 (with_mempool _ s)) with (status_now tx0 s). rewrite Hst. done. }
    unfold m1. cbn. destruct (isTxStatusValid st); [done|]. by destruct s. }
  destruct (IH (with_mempool m1 s)) as (m & Hrun & Hm); [done| |].
  { intros k tx Hin. destruct (Hl k tx) as (? & Hnone & ?); [set_solver|]. split_and!; [done| |done].
    cbn. unfold m1. destruct (isTxStatusValid st); [|done].
    rewrite lookup_insert_ne; [done|]. intros ->. apply Hk0, list_elem_of_fmap. by exists (k, tx). }
  exists m. split.
  { cbn [for_each]. erewrite bind_run; [|exact Hstep]. exact Hrun. }
  intros k tx. rewrite Hm. cbn [mempool_ with_mempool].
  change (status_now tx (with_mempool m1 s)) with (status_now tx s).
  rewrite elem_of_cons. unfold m1. destruct (isTxStatusValid st) eqn:Hv.
  - destruct (decide (k0 = k)) as [<-|Hne].
    + rewrite lookup_insert_eq, Hn. split.
      * intros [[= <-]|[Hin Hex]]; right; [split; [by left|eauto]|split; [by right|done]].
      * intros [?|[[[= ->]|Hin] Hex]]; [done|by left|by right].
    + rewrite lookup_insert_ne by done. split; [tauto|].
      intros [?|[[[= -> ->]|Hin] Hex]]; [by left|done|by right].
  - split; [tauto|]. intros [?|[[[= -> ->]|Hin] Hex]]; [by left| |by right].
    destruct Hex as (st' & E & ?). congruence.
Qed.

Lemma delete_all_lookup (txs : list TxBlock) : ∀ (m : gmap Z TxBlock) k,
  foldl (λ m tx, delete (tx_hash tx) m) m txs !! k =
    if decide (k ∈ (tx_hash <$> txs)) then None else m !! k.
Proof.
  induction txs as [|tx txs IH]; intros m k; [by rewrite decide_False by set_solver|].
  cbn [foldl]. rewrite IH, fmap_cons. destruct (decide (k ∈ (tx_hash <$> txs))) as [Hin|Hin].
  - rewrite decide_True by set_solver. done.
  - destruct (decide (k = tx_hash tx)) as [->|Hne].
    + rewrite decide_True by set_solver. by rewrite lookup_delete_eq.
    + rewrite decide_False by set_solver. by rewrite lookup_delete_ne.
Qed.

(** *** Transactions of the same sender *)

(** The message of a transaction leaves the nonce of its sender alone: the
    sender is not a contract, and no C++ contract writes that nonce. *)
Definition message_keeps_nonce (fuel : nat) (b : Block) (i : Z) (tx : TxBlock) (s : State) : Prop :=
  ∀ gas seed rg s', to_uint64 (tx_gasLimit tx) = Ret gas → uadd 256 (b_randomness (blk_rdpos b)) i = Ret seed →
    run_host fuel (tx_env tx b i) gas seed (toMessage tx) (touched (tx_from tx) s) = (Ret rg, s') →
    nonce (account (s_world s') (tx_from tx)) = nonce (account (s_world s) (tx_from tx)).

(** A transaction that is processed leaves its sender with the next nonce. *)
Lemma processTransaction_nonce fuel tx b i s u s' :
  message_keeps_nonce fuel b i tx s →
  processTransaction fuel tx b i s = (Ret u, s') →
  nonce (account (s_world s') (tx_from tx)) = wrap 64 (tx_nonce tx + 1).
Proof.
  intros Hk H. unfold processTransaction, update_account in H. cbv zeta in H. inv_run.
  repeat match goal with
  | H : match ?rg with (_, _) => _ end _ = _ |- _ => destruct rg as [r g]
  | H : negb (_ =? _) = false |- _ => apply negb_false_iff, Z.eqb_eq in H
  end.
  cbn [s_world with_s_world] in *.
  match goal with H : nonce (account (with_accounts _ _) _) = _ |- _ => rename H into Hn end.
  rewrite account_insert, decide_True in Hn by done.
  match goal with H : match uadd _ _ _ with _ => _ end _ = (Ret _, ?y) |- _ =>
    rename H into Hrun; rename y into s1 end.
  assert (Hs1 : nonce (account (s_world s1) (tx_from tx)) = tx_nonce tx).
  { destruct (uadd 256 (b_randomness (blk_rdpos b)) i) as [seed|ex] eqn:Eu.
    - rewrite (Hk _ seed _ _ ltac:(eassumption) Eu Hrun). exact Hn.
    - inv_run. cbn [s_world with_s_world]. by rewrite account_insert, decide_True. }
  inv_run. cbn [s_world with_s_world]. rewrite account_insert, decide_True by done.
  cbn [nonce set_balance]. destruct indexing; inv_run; cbn [s_world with_s_world with_txData] in *;
    rewrite account_insert, decide_True by done; cbn [nonce set_nonce]; congruence.
Qed.

(** It must have the nonce of its sender. *)
Lemma processTransaction_Ret_nonce fuel tx b i s u s' :
  processTransaction fuel tx b i s = (Ret u, s') →
  nonce (account (s_world s) (tx_from tx)) = tx_nonce tx.
Proof.
  intros H. unfold processTransaction in H. apply bind_Ret in H as (a & s1 & H1 & H).
  unfold update_account in H1. inv_run.
  repeat match goal with
  | H : negb (_ =? _) = false |- _ => apply negb_false_iff, Z.eqb_eq in H
  end.
  cbn [s_world with_s_world] in *.
  match goal with H : nonce _ = tx_nonce tx |- _ => rewrite <- H end.
  by rewrite account_insert, decide_True.
Qed.

Lemma process_same_sender_throws fuel b tx1 tx2 l2 : ∀ l1 i s,
  tx_from tx1 = tx_from tx2 → tx_nonce tx1 = tx_nonce tx2 →
  (∀ s1, process_txs fuel b i l1 s = (Ret (), s1) →
    message_keeps_nonce fuel b (i + Z.of_nat (length l1)) tx1 s1) →
  ∃ e, (process_txs fuel b i (l1 ++ tx1 :: tx2 :: l2) s).1 = Throw e.
Proof.
  intros l1. induction l1 as [|tx l1 IH]; intros i s Hf Hn Hk; cbn [app process_txs]; unfold mbind, M_bind.
  - specialize (Hk s eq_refl). cbn [length] in Hk. rewrite Z.add_0_r in Hk.
    destruct (processTransaction fuel tx1 b i s) as [[u|e] s1] eqn:E1; [|eauto].
    destruct (processTransaction fuel tx2 b (i + 1) s1) as [[u2|e] s2] eqn:E2; [|eauto].
    exfalso. apply processTransaction_nonce in E1; [|done]. apply processTransaction_Ret_nonce in E2.
    rewrite Hf, E2, Hn in E1. unfold wrap in E1.
    pose proof (Z.mod_pos_bound (tx_nonce tx2 + 1) (2 ^ 64) ltac:(lia)).
    destruct (decide (tx_nonce tx2 = 2 ^ 64 - 1)) as [E|]; [by rewrite E in E1|].
    rewrite Z.mod_small in E1 by lia. lia.
  - destruct (processTransaction fuel tx b i s) as [[u|e] s1] eqn:E; [|eauto].
    apply IH; [done..|]. intros s2 E2. replace (i + 1 + Z.of_nat (length l1)) with (i + Z.of_nat (length (tx :: l1)))
      by (cbn [length]; lia). apply Hk. cbn [process_txs]. unfold mbind, M_bind. by rewrite E.
Qed.

(** Processing transactions stores no block. *)
Lemma process_txs_blocks fuel b txs : ∀ i s, s_blocks (process_txs fuel b i txs s).2 = s_blocks s.
Proof.
  assert (Hp : ∀ tx i, preserves (λ s s', s_blocks s' = s_blocks s) (processTransaction fuel tx b i)).
  { intros tx i. pose (R := λ s s' : State, s_blocks s' = s_blocks s).
    assert (PreOrder R) by (split; [by intros ?|intros ? ? ? E1 E2; unfold R in *; congruence]).
    assert (Hrun : ∀ e g seed m, preserves R (run_host fuel e g seed m)).
    { intros e g seed m s. unfold R, run_host. destruct (execute _ _ _) as [r h1].
      destruct (finish h1) as [[[]|] h2]; [|done]. by destruct r as [|[]]. }
    change (preserves R (processTransaction fuel tx b i)). unfold processTransaction, update_account.
    repeat first [apply Hrun | match goal with
      | |- preserves _ (mbind _ _) => apply preserves_bind; [done| |intros ?]
      | |- preserves _ (if ?b then _ else _) => destruct b
      | |- preserves _ (match ?x with _ => _ end) => destruct x
      | |- preserves _ (modify _) => by apply preserves_modify
      | |- _ => progress cbv zeta
      end | solve [auto with bdk]]. }
  induction txs as [|tx txs IH]; intros i s; cbn [process_txs]; [done|].
  specialize (Hp tx i s). unfold mbind, M_bind. destruct (processTransaction fuel tx b i s) as [[u|e] s1]; [|done].
  cbn in Hp. by rewrite IH.
Qed.

(** The transactions of an accepted block have the nonce of their sender. *)
Lemma accepted_nonce b s tx :
  validateNextBlockInternal b s = Ret valid → tx ∈ blk_txs b →
  (tx ∈ blk_txs b → is_Some (mempool_ s !! tx_hash tx) → nonce (account (s_world s) (tx_from tx)) = tx_nonce tx) →
  nonce (account (s_world s) (tx_from tx)) = tx_nonce tx.
Proof.
  intros Hv Hin Hpool. unfold validateNextBlockInternal in Hv. destruct (s_blocks s) as [|latest rest]; [done|].
  repeat (destruct (_ : bool) in Hv; [done|]).
  apply bind_outcome_Ret in Hv as ([] & _ & Hv); [cbn in Hv|done].
  apply bind_outcome_Ret in Hv as ([] & Hall & Hv); [|done].
  destruct (proj1 (all_txs_valid_true _ _) Hall tx Hin) as (st & Hst & Hok).
  unfold validateTransactionInternal in Hst. destruct (mempool_ s !! tx_hash tx) eqn:Em; [by apply Hpool|].
  unfold account. destruct (accounts_ (s_world s) !! tx_from tx) as [acc|] eqn:Ea; [|by simplify_eq].
  apply bind_outcome_Ret in Hst as (need & _ & Hst). cbn.
  destruct (balance acc <? need); [by simplify_eq|].
  destruct (Z.eqb_spec (nonce acc) (tx_nonce tx)); cbn in Hst; by simplify_eq.
Qed.

(** ** Theorems *)


(** C3: a payment to an address without code: it succeeds, the value moves from
    sender to recipient, the sender also pays 21000 gas and its nonce goes up;
    nothing else changes, and the sum of all balances drops by the fee. *)
Theorem processTransaction_payment (fuel : nat) (tx : TxBlock) (b : Block) (i : Z) (s : State) :
  state_ok s → tx_accepted tx s → in_range 256 (b_randomness (blk_rdpos b) + i) →
  tx_to tx ≠ 0 → tx_data tx = [] → CONTRACT_EXECUTION_COST ≤ tx_gasLimit tx →
  isPrecompiled (tx_to tx) = false →
  contractType (account (s_world s) (tx_to tx)) = NOT_A_CONTRACT →
  can_pay (tx_from tx) (tx_to tx) (tx_value tx) (s_world s) →
  let fee := CONTRACT_EXECUTION_COST * tx_maxFeePerGas tx in
  ∃ s', processTransaction (S fuel) tx b i s = (Ret (), s') ∧
    same_rest (s_world s) (s_world s') ∧ values (s_vars s') = values (s_vars s) ∧
    total (s_world s') = total (s_world s) - fee ∧
    ∀ a, account (s_world s') a =
      if decide (a = tx_from tx)
      then charged tx (tx_gasLimit tx - CONTRACT_EXECUTION_COST)
             (paid (tx_from tx) (tx_to tx) (tx_value tx) (s_world s) a)
      else paid (tx_from tx) (tx_to tx) (tx_value tx) (s_world s) a.
Proof.
  intros Hok Hacc Hrand Hto Hdata Hgas Hpre Hty Hpay fee.
  pose proof Hacc as (Hbal & Hval & Hgl & Hfee & Hneed & _).
  set (s0 := touched (tx_from tx) s).
  set (h0 := new_host (tx_env tx b i) (tx_gasLimit tx) (b_randomness (blk_rdpos b) + i) s0).
  assert (Ha0 : ∀ a, account (s_world s0) a = account (s_world s) a) by (intros; apply touched_account).
  assert (Hp0 : ∀ a, paid (tx_from tx) (tx_to tx) (tx_value tx) (s_world s0) a =
                     paid (tx_from tx) (tx_to tx) (tx_value tx) (s_world s) a).
  { intros a. unfold paid. by rewrite Ha0. }
  assert (Hpay0 : can_pay (tx_from tx) (tx_to tx) (tx_value tx) (s_world s0)).
  { destruct Hpay as (?&?&?&?). unfold can_pay. rewrite !Ha0. split_and!; auto. intros a. by rewrite Ha0. }
  destruct (payment_body fuel (tx_from tx) (tx_to tx) (tx_value tx) (h_exec h0))
    as (x' & Hb & Hg & Hvars & Hrest & Htot & Haccs); [done|done|done|by rewrite <- Hty, <- Ha0|exact Hpay0|].
  change (world (x_ctx (h_exec h0))) with (s_world s0) in Hrest, Htot, Haccs. cbn in Hg, Hvars.
  rewrite (total_Proper (s_world s0) (s_world s) (touched_equiv (tx_from tx) s)) in Htot.
  assert (Hm : toMessage tx = EncodedCall (tx_from tx) (tx_to tx) (tx_value tx) []).
  { unfold toMessage. rewrite Hdata. by destruct (Z.eqb_spec (tx_to tx) 0). }
  rewrite <- Hm in Hb. destruct (run_host_succeeded _ _ _ _ _ _ _ _ (touched_ok (tx_from tx) s Hok) Hb)
    as (s1 & Hrun & Hw1 & Hv1 & Hok1 & _).
  assert (Ha1 : ∀ a, account (s_world s1) a = paid (tx_from tx) (tx_to tx) (tx_value tx) (s_world s) a).
  { intros a. rewrite Hw1, <- Hp0, <- Haccs. done. }
  assert (Hpf : balance (account (s_world s) (tx_from tx)) - tx_value tx ≤ balance (account (s_world s1) (tx_from tx))
    ∧ balance (account (s_world s1) (tx_from tx)) ≤ balance (account (s_world s) (tx_from tx))).
  { rewrite Ha1. unfold paid. cbn. rewrite decide_True by done. case_decide; lia. }
  rewrite Hg in Hrun. unfold in_range in *.
  destruct (charge_run tx (Ret (RData [])) (tx_gasLimit tx - CONTRACT_EXECUTION_COST) s1)
    as (s' & Hc & Hw' & Hv' & _); [done|unfold CONTRACT_EXECUTION_COST in *; lia|done| | |].
  { unfold tx_fee. unfold CONTRACT_EXECUTION_COST in *. nia. }
  { unfold in_range. nia. }
  exists s'. split.
  { rewrite processTransaction_accepted by done. erewrite bind_run; [|exact Hrun]. exact Hc. }
  rewrite Hw', Hv', Hv1. destruct Hok as (_ & Hev & Hnew). unfold same_rest. rewrite Hw1. cbn.
  destruct Hrest as (?&?&?&?&?). split_and!; try done; [by rewrite Hvars|..].
  - rewrite total_insert. change (total (clear_vectors ?w)) with (total w). rewrite Htot.
    change (account (clear_vectors ?w) ?a) with (account w a). rewrite Haccs. cbn. unfold tx_fee, fee. lia.
  - intros a. rewrite account_insert.
    change (account (clear_vectors ?w) ?a) with (account w a). rewrite !Haccs, !Hp0.
    destruct (decide (tx_from tx = a)) as [<-|?]; [by rewrite decide_True|by rewrite decide_False].
Qed.

(** After a block, the mempool holds exactly the transactions it had that
    are not in the block and are still valid on the new state; nothing else
    changes. *)
Theorem refreshMempool_correct (b : Block) (s : State) :
  mempool_wf s →
  ∃ m, refreshMempool b s = (Ret (), with_mempool m s) ∧
    ∀ k tx, m !! k = Some tx ↔
      mempool_ s !! k = Some tx ∧ ¬ (k ∈ (tx_hash <$> blk_txs b)) ∧
      ∃ st, status_now tx s = Ret st ∧ isTxStatusValid st = true.
Proof.
  intros Hwf. set (m0 := foldl (λ m tx, delete (tx_hash tx) m) (mempool_ s) (blk_txs b)).
  assert (Hm0 : ∀ k tx, m0 !! k = Some tx ↔ mempool_ s !! k = Some tx ∧ ¬ (k ∈ (tx_hash <$> blk_txs b))).
  { intros k tx. unfold m0. rewrite delete_all_lookup. case_decide; naive_solver. }
  destruct (keep_loop (map_to_list m0) (with_mempool ∅ s)) as (m & Hrun & Hm).
  - apply NoDup_fst_map_to_list.
  - intros k tx Hin%elem_of_map_to_list%Hm0. destruct (Hwf k tx) as [? ?]; [tauto|].
    split_and!; [done|apply lookup_empty|done].
  - exists m. split.
    + unfold refreshMempool. erewrite bind_run; [|done]. erewrite bind_run; [|done].
      erewrite bind_run; [|done]. exact Hrun.
    + intros k tx. rewrite Hm. cbn [mempool_ with_mempool]. rewrite lookup_empty.
      change (status_now tx (with_mempool ∅ s)) with (status_now tx s).
      rewrite elem_of_map_to_list, Hm0. naive_solver.
Qed.

(** [addTx] adds a transaction exactly when the sender exists, owns value
    plus maximal fee and the nonce is the account's, and then only that
    transaction; the status tells which rule failed. *)
Theorem addTx_correct (tx : TxBlock) (s : State) :
  match addTx tx s with
  | (Ret ValidNew, s') =>
      mempool_ s !! tx_hash tx = None ∧ s' = with_mempool (<[tx_hash tx := tx]> (mempool_ s)) s ∧
      ∃ acc, accounts_ (s_world s) !! tx_from tx = Some acc ∧ nonce acc = tx_nonce tx ∧
        tx_value tx + tx_gasLimit tx * tx_maxFeePerGas tx ≤ balance acc
  | (Ret ValidExisting, s') => s' = s ∧ is_Some (mempool_ s !! tx_hash tx)
  | (Ret InvalidBalance, s') =>
      s' = s ∧ (accounts_ (s_world s) !! tx_from tx = None ∨
        ∃ acc, accounts_ (s_world s) !! tx_from tx = Some acc ∧
          balance acc < tx_value tx + tx_gasLimit tx * tx_maxFeePerGas tx)
  | (Ret InvalidNonce, s') =>
      s' = s ∧ ∃ acc, accounts_ (s_world s) !! tx_from tx = Some acc ∧ nonce acc ≠ tx_nonce tx
  | (Ret _, _) => False
  | (Throw e, s') => s' = s ∧ e = boost_error ∧
      (¬ in_range 256 (tx_gasLimit tx * tx_maxFeePerGas tx) ∨
       ¬ in_range 256 (tx_value tx + tx_gasLimit tx * tx_maxFeePerGas tx))
  end.
Proof.
  unfold addTx, validateTransactionInternal, txWithFees, umul, uadd, gets, lift, modify, id, mbind, M_bind.
  destruct (mempool_ s !! tx_hash tx) as [t|] eqn:Hm; cbn;
    [rewrite decide_True by done; cbn; eauto|].
  destruct (accounts_ (s_world s) !! tx_from tx) as [acc|] eqn:Ha; cbn;
    [|rewrite decide_True by done; cbn; auto].
  destruct (mk_unsigned 256 (tx_gasLimit tx * tx_maxFeePerGas tx)) as [f|e] eqn:E1; cbn.
  2: { apply mk_unsigned_Throw in E1. naive_solver. }
  apply mk_unsigned_Ret in E1 as [-> _].
  destruct (mk_unsigned 256 (tx_value tx + tx_gasLimit tx * tx_maxFeePerGas tx)) as [n|e] eqn:E2; cbn.
  2: { apply mk_unsigned_Throw in E2. naive_solver. }
  apply mk_unsigned_Ret in E2 as [-> _].
  destruct (Z.ltb_spec (balance acc) (tx_value tx + tx_gasLimit tx * tx_maxFeePerGas tx)); cbn;
    [rewrite decide_True by done; cbn; eauto 10|].
  destruct (Z.eqb_spec (nonce acc) (tx_nonce tx)); cbn.
  - rewrite decide_False by tauto. cbn. rewrite Hm. eauto 10.
  - rewrite decide_True by done. cbn. eauto 10.
Qed.

(** C6: a block is accepted exactly when it extends the latest block (height,
    previous hash), is not older than it (an equal timestamp is accepted),
    follows the rdPoS rules, and every transaction in it is valid on the current
    state; when the limits of all transactions fit in 256 bits the validation
    returns.  There are more validators than the minimum. *)
Theorem validateNextBlock_correct (b latest : Block) (rest : list Block) (s : State) :
  s_blocks s = latest :: rest →
  (minValidators_ (rdpos_ s) < length (randomList_ (rdpos_ s)))%nat →
  (validateNextBlockInternal b s = Ret valid ↔
      b_nHeight (blk_rdpos b) = b_nHeight (blk_rdpos latest) + 1 ∧
      blk_prevHash b = blk_hash latest ∧ blk_timestamp latest ≤ blk_timestamp b ∧
      block_ok sha3 (blk_rdpos b) (rdpos_ s) ∧
      ∀ tx, tx ∈ blk_txs b → ∃ st, validateTransactionInternal tx s = Ret st ∧ isTxStatusValid st = true) ∧
  ((∀ tx, tx ∈ blk_txs b → ∃ st, validateTransactionInternal tx s = Ret st) →
    ∃ st, validateNextBlockInternal b s = Ret st).
Proof.
  intros Hl Hmin. unfold validateNextBlockInternal. rewrite Hl.
  destruct (Z.eqb_spec (b_nHeight (blk_rdpos b)) (b_nHeight (blk_rdpos latest) + 1)); cbn;
    [|split; [split; [done|tauto]|eauto]].
  destruct (Z.eqb_spec (blk_prevHash b) (blk_hash latest)); cbn; [|split; [split; [done|tauto]|eauto]].
  destruct (Z.ltb_spec (blk_timestamp b) (blk_timestamp latest)); cbn;
    [split; [split; [done|lia]|eauto]|].
  destruct (validateBlock_returns sha3 (blk_rdpos b) (rdpos_ s) Hmin) as (v & -> & Hv). cbn.
  destruct v; cbn; [|split; [split; [done|intros (_&_&_&Hok&_); by apply Hv in Hok]|eauto]].
  split.
  - rewrite <- all_txs_valid_true. destruct (all_txs_valid (blk_txs b) s) as [[]|]; cbn; [|split..];
      [tauto|done|intros (_&_&_&_&[=])|done|intros (_&_&_&_&[=])].
  - intros Htxs. destruct (all_txs_valid_spec (blk_txs b) s Htxs) as (w & -> & _). destruct w; cbn; eauto.
Qed.

End state.

(** ** A concrete chain *)

Definition demo_tx (h to v n : Z) (data : list Z) : TxBlock :=
  mkTxBlock to 5 data 1 n v 0 1 50000 0 0 0 h.

Definition demo_state : State (V := AnyVar) :=
  mkState
    (mkWorld {[ 5 := mkAccount 1000000 0 0 None NOT_A_CONTRACT; 100 := mkAccount 0 1 0 None CPP ]} ∅
       {[ 100 := Some 1%nat ]} ∅ [] [])
    (x_vars demo_exec) {[ 77 := demo_tx 77 50 10 0 [] ]} demo_rdPoS
    [mkBlock 1000 999 10 (mkBlockRdPoS 4 1 [] 0) []] [] [] [].

(** A valid successor block with two transactions of the same sender and nonce. *)
Definition demo_block : Block :=
  mkBlock 1001 1000 11 (mkBlockRdPoS 5 1 [demo_commit; demo_reveal] 3)
    [demo_tx 70 50 10 0 []; demo_tx 71 60 20 0 []].

Lemma demo_state_ok : state_ok demo_state.
Proof. split; [apply demo_host_fresh|done]. Qed.

Lemma demo_tx_accepted data : tx_accepted (demo_tx 70 100 0 0 data) demo_state.
Proof. unfold tx_accepted, in_range. vm_compute. repeat split; intros; discriminate. Qed.


Lemma processTransaction_payment_witness :
  let tx := demo_tx 70 50 10 0 [] in
  ∃ s', processTransaction (EX := demo) (BI := boost_ref) 1 true true 1 tx demo_block 0 demo_state = (Ret (), s') ∧
    balance (account (s_world s') 50) = 10 ∧ balance (account (s_world s') 5) = 1000000 - 10 - 21000.
Proof.
  intros tx.
  destruct (processTransaction_payment (EX := demo) (BI := boost_ref) 1 true true 0 tx demo_block 0 demo_state)
    as (s' & Hrun & _ & _ & _ & Hacc).
  - apply demo_state_ok.
  - unfold tx_accepted, in_range. vm_compute. repeat split; intros; discriminate.
  - unfold in_range. cbn. lia.
  - discriminate.
  - reflexivity.
  - vm_compute. discriminate.
  - vm_compute. reflexivity.
  - vm_compute. reflexivity.
  - split_and!; [vm_compute; repeat split; intros; discriminate| |vm_compute; discriminate|vm_compute; reflexivity].
    intros a. unfold account. cbn [accounts_ s_world demo_state].
    destruct (decide (5 = a)) as [<-|?]; [done|].
    destruct (decide (100 = a)) as [<-|?]; [done|].
    rewrite lookup_insert_ne, lookup_singleton_ne by done. done.
  - exists s'. split; [exact Hrun|]. rewrite !Hacc. clear. split; vm_compute; reflexivity.
Defined.

Lemma refreshMempool_correct_witness :
  ∃ m, refreshMempool (BI := boost_ref) demo_block demo_state = (Ret (), with_mempool m demo_state) ∧
    m !! 77 = Some (demo_tx 77 50 10 0 []).
Proof.
  destruct (refreshMempool_correct (BI := boost_ref) demo_block demo_state) as (m & Hrun & Hm).
  - intros k tx Hk. cbn [mempool_ demo_state] in Hk. apply lookup_singleton_Some in Hk as [<- <-].
    split; [done|]. eexists. vm_compute. reflexivity.
  - exists m. split; [exact Hrun|]. apply Hm. split; [vm_compute; reflexivity|]. split; [vm_compute; set_solver|].
    eexists. split; vm_compute; reflexivity.
Defined.

Lemma validateNextBlock_correct_witness :
  validateNextBlockInternal (EX := demo) (BI := boost_ref) demo_block demo_state = Ret valid ∧
  blk_prevHash demo_block = 1000.
Proof.
  assert (E : validateNextBlockInternal (EX := demo) (BI := boost_ref) demo_block demo_state = Ret valid)
    by (vm_compute; reflexivity).
  split; [exact E|].
  apply (validateNextBlock_correct (EX := demo) (BI := boost_ref) demo_block
    (mkBlock 1000 999 10 (mkBlockRdPoS 4 1 [] 0) []) [] demo_state); [reflexivity|vm_compute; lia|exact E].
Defined.

