(* ===== verification/Queries.v ===== *)
(** * Queries of the global state

    Models the methods of [State] (src/core/state.cpp) that serve the JSON-RPC
    interface: [ethCall], [estimateGas], [getContractCode] and the copies of the
    mempool.  [estimateGas] multiplies in double precision; what it needs of it
    is written out on integers. *)

From S2P Require Import Prelude CheckedInt SafeBase ExecutionContext Messages AnyVar ContractHost Gas.
From S2P Require Import Bytes Conv Hex Json Abi Tx RdPoS BaseContract State.

(** ** Double precision *)

(** [n / 2 ^ k] rounded to the nearest integer, halves to the even one. *)
Definition round_shift (n : Z) (k : Z) : Z :=
  let q := n / 2 ^ k in
  let r := n mod 2 ^ k in
  if 2 * r <? 2 ^ k then q else if 2 ^ k <? 2 * r then q + 1 else if Z.even q then q else q + 1.
(** The double nearest to a non-negative integer: 53 bits. *)
Definition round_double (n : Z) : Z :=
  let k := Z.log2 n - 52 in
  if k <=? 0 then n else round_shift n k * 2 ^ k.
(** The constant 1.15 is [mantissa_115 * 2 ^ -52]. *)
Definition mantissa_115 : Z := 5179139571476070.
(** [int64_t(x * 1.15)] *)
Definition times_115 (x : Z) : Z :=
  Z.sgn x * (round_double (round_double (Z.abs x) * mantissa_115) / 2 ^ 52).

Section queries.
Context {BI : BoostInt} {AC : AbiCasts} {WK : Walk} {V T : Type} {SV : SafeVar V T} {VO : VarOps V T} {EX : Externals}.
Context (chainId : Z) (order : bool) (fuel : nat).

(** [catch (VMExecutionError&) { throw; } catch (std::exception&) { ... }] *)
Definition vm_failure (e : exn) : failure :=
  match e with
  | undefined_behaviour => Std undefined_behaviour
  | VMExecutionError data => VmError (-32000) data
  | _ => VmError (-32603) []
  end.

(** [ethCall]; the global block data are those of the latest block, and [seed] is
    a random number.  The host is destroyed after [execute], which commits what a
    successful call did. *)
Definition ethCall (seed : Hash) (from to gas : Z) (data : list Z) (s : State (V := V)) : reply (list Z) * State (V := V) :=
  match accounts_ (s_world s) !! to with
  | None => (Ok [], s)
  | Some acc =>
      if negb (isContract acc) then (Ok [], s)
      else
        match s_blocks s with
        | [] => (Fail (Std undefined_behaviour), s)
        | latest :: _ =>
            let e := mkEnv 10000000 (b_nHeight (blk_rdpos latest)) (blk_timestamp latest) 0 (b_validator (blk_rdpos latest))
              from 0 0 chainId 0 order in
            match run_host fuel e gas seed (EncodedStaticCall from to data) s with
            | (Ret (Ret r, _), s') => (Ok (result_bytes r), s')
            | (Ret (Throw ex, _), s') => (Fail (vm_failure ex), s')
            | (Throw ex, s') => (Fail (Std ex), s')
            end
        end
  end.

(** [simulate], then the result, then the destructor of the host. *)
Definition simulate_host (e : Env) (gas : Z) (seed : Hash) (m : Message) (s : State (V := V)) :
    outcome (outcome Result * Z) * State (V := V) :=
  let '(r, h1) := simulate fuel m (new_host e gas seed s) in
  match finish h1 with
  | (Throw ex, h2) => (Throw ex, absorb_host h2 s)
  | (Ret _, h2) =>
      match r with
      | Throw undefined_behaviour => (Throw undefined_behaviour, absorb_host h2 s)
      | _ => (Ret (r, x_gas (h_exec h1)), absorb_host h2 s)
      end
  end.

(** [estimateGas] of a call ([EncodedCall]) or a creation ([EncodedCreate]); the
    conversions of the gas are made before and after the simulation. *)
Definition estimateGas (seed : Hash) (gas : Z) (m : Message) (s : State (V := V)) : reply Z * State (V := V) :=
  match s_blocks s with
  | [] => (Fail (Std undefined_behaviour), s)
  | latest :: _ =>
      let e := mkEnv 10000000 (b_nHeight (blk_rdpos latest)) (blk_timestamp latest) 0 (b_validator (blk_rdpos latest))
        (msg_from m) (blk_hash latest) 0 chainId 0 order in
      match cast_signed 63 gas with
      | Throw ex => (Fail (vm_failure ex), s)
      | Ret initialGas =>
          match simulate_host e gas seed m s with
          | (Ret (Ret _, gasLeft), s') =>
              match cast_signed 63 gasLeft with
              | Throw ex => (Fail (vm_failure ex), s')
              | Ret gasLeft => (Ok (times_115 (initialGas - gasLeft)), s')
              end
          | (Ret (Throw ex, _), s') => (Fail (vm_failure ex), s')
          | (Throw ex, s') => (Fail (Std ex), s')
          end
      end
  end.

(** [validateNextBlock] and [validateTransaction] only look. *)
Definition validateNextBlock (b : Block) (s : State (V := V)) : outcome bool :=
  st ← validateNextBlockInternal b s; Ret (bool_decide (st = valid)).
Definition validateTransaction (tx : TxBlock) (s : State (V := V)) : outcome TxStatus := validateTransactionInternal tx s.
(** [addBalance]: one thousand coins; an unknown account is entered first. *)
Definition addBalance (a : Address) : M (State (V := V)) unit :=
  modify (touched a) ;;
  s ← gets id;
  b ← lift (uadd 256 (balance (account (s_world s) a)) 1000000000000000000000);
  update_account a (set_balance b).

(** [getPendingTxs] *)
Definition getPendingTxs (s : State (V := V)) : gmap Z TxBlock := mempool_ s.
(** [getContractCode]; a C++ contract answers with its name. *)
Definition getContractCode (a : Address) (s : State (V := V)) : outcome (list Z) :=
  match accounts_ (s_world s) !! a with
  | None => Ret []
  | Some acc =>
      if decide (contractType acc = CPP) then
        match contracts_ (s_world s) !! a with
        | None => Ret []
        | Some None => Throw undefined_behaviour
        | Some (Some p) => Ret (string_bytes "PrecompileContract-" ++ contractName p)
        end
      else Ret (default [] (code acc))
  end.
(** [getCppContracts] and [getEvmContracts] *)
Definition getCppContracts (s : State (V := V)) : outcome (list (list Z * Address)) :=
  mapM (λ e : Z * option nat, match e.2 with Some p => Ret (contractName p, e.1) | None => Throw undefined_behaviour end)
    (walk (contracts_ (s_world s))).
Definition getEvmContracts (s : State (V := V)) : list Address :=
  omap (λ e : Z * Account, if decide (contractType e.2 = EVM) then Some e.1 else None) (walk (accounts_ (s_world s))).
End queries.

(** ** Rounding *)

Lemma round_shift_error n k : 0 <= k → 2 * Z.abs (round_shift n k * 2 ^ k - n) <= 2 ^ k.
Proof.
  intros Hk. unfold round_shift. assert (Hp : 0 < 2 ^ k) by (apply Z.pow_pos_nonneg; lia).
  pose proof (Z.div_mod n (2 ^ k)). pose proof (Z.mod_pos_bound n (2 ^ k) Hp).
  repeat case_match; rewrite ?Z.ltb_lt, ?Z.ltb_ge in *; nia.
Qed.
Lemma round_double_error n : 0 <= n → 2 ^ 53 * Z.abs (round_double n - n) <= n.
Proof.
  intros Hn. unfold round_double. destruct (Z.leb_spec (Z.log2 n - 52) 0); [rewrite Z.sub_diag; cbn; lia|].
  set (k := Z.log2 n - 52) in *. pose proof (round_shift_error n k ltac:(lia)).
  assert (2 ^ 52 * 2 ^ k <= n); [|nia].
  rewrite <- Z.pow_add_r by lia. replace (52 + k) with (Z.log2 n) by lia.
  apply Z.log2_spec. destruct (decide (n = 0)) as [->|]; [cbn in *; lia|lia].
Qed.

(** The estimate is at least the gas used, and 15% above it up to rounding. *)
Lemma times_115_bounds x : 0 <= x → x <= times_115 x ∧ 20 * times_115 x <= 23 * x + x / 2 ^ 46.
Proof.
  intros Hx. destruct (decide (x = 0)) as [->|Hne]; [vm_compute; split; congruence|].
  unfold times_115. rewrite Z.sgn_pos, Z.abs_eq, Z.mul_1_l by lia.
  pose proof (round_double_error x Hx) as H1. set (a := round_double x) in *.
  assert (Ha : 0 <= a) by lia. pose proof (round_double_error (a * mantissa_115) ltac:(unfold mantissa_115; lia)) as H2.
  set (p := round_double (a * mantissa_115)) in *. unfold mantissa_115 in H2.
  pose proof (Z.div_mod p (2 ^ 52)). pose proof (Z.mod_pos_bound p (2 ^ 52) ltac:(lia)).
  pose proof (Z.div_mod x (2 ^ 46)). pose proof (Z.mod_pos_bound x (2 ^ 46) ltac:(lia)).
  split; lia.
Qed.

Section estimate.
Context {BI : BoostInt} {AC : AbiCasts} {V T : Type} {SV : SafeVar V T} {VO : VarOps V T} {EX : Externals}.
Context (chainId : Z) (order : bool) (fuel : nat).

(** The host that simulates a message, and the gas it has left. *)
Lemma simulate_host_run e gas seed m (s : State (V := V)) :
  state_ok s →
  let '(r, h1) := execute fuel m (new_host e gas seed s) in
  ∃ s', simulate_host fuel e gas seed m s =
      (match r with Throw undefined_behaviour => Throw undefined_behaviour | _ => Ret (r, x_gas (h_exec h1)) end, s') ∧
    world_upto (overwritten_ (x_ctx (h_exec h1))) (s_world s) (s_world s') ∧
    values (s_vars s') = values (s_vars s) ∧ mempool_ s' = mempool_ s ∧
    s_blocks s' = s_blocks s ∧ s_events s' = s_events s ∧ s_dumpables s' = s_dumpables s.
Proof.
  intros Hok. pose proof (new_host_fresh e gas seed s Hok) as Hf.
  destruct (simulate_changes_nothing fuel m _ Hf) as (h2 & Hfin & Hv & Hw & Hd & He). unfold simulate_host.
  assert (Hs : ∃ r h1, execute fuel m (new_host e gas seed s) = (r, h1) ∧
    (simulate fuel m (new_host e gas seed s)).1 = r ∧ h_exec (simulate fuel m (new_host e gas seed s)).2 = h_exec h1).
  { unfold simulate. destruct (execute fuel m (new_host e gas seed s)) as [r h1] eqn:Er. exists r, h1.
    unfold mbind, M_bind. rewrite Er. by destruct r. }
  destruct Hs as (r & h1 & -> & Er & Eh). destruct (simulate fuel m (new_host e gas seed s)) as [r' h1']. cbn [fst snd] in *. subst r'.
  rewrite Eh in Hw.
  rewrite Hfin. exists (absorb_host h2 s). split.
  - rewrite Eh. by destruct r as [|[]].
  - cbn. split_and!; done.
Qed.

End estimate.

