(* ===== verification/CallTracer.v ===== *)
(** * The call tracer

    Models src/contract/calltracer.h, contract/trace/call.h, calltype.h and
    callstatus.h.  A [trace::Call] is a tree; the stack of pointers into it is a
    stack of paths.  The handler the tracer wraps is an argument, with the gas of
    the message read from its state; what a packed message's function is (its
    encoded input, whether it returns anything) comes from the reflection tables.
    The JSON form of a trace and its storing are not modelled. *)

From S2P Require Import Prelude CheckedInt ExecutionContext Messages Bytes SafeString Conv Hex Abi Tx FinalizedBlock DB Storage Json.

Inductive CallType := CALL | STATICCALL | DELEGATECALL.
Inductive CallStatus := SUCCEEDED | EXECUTION_REVERTED | OUT_OF_GAS.
Inductive Call := mkCall {
  ct_type : CallType;
  ct_status : CallStatus;
  ct_from : Address;
  ct_to : Address;
  ct_value : Z;
  ct_gas : Z;
  ct_gasUsed : Z;
  ct_input : list Z;
  ct_output : list Z;
  ct_calls : list Call;
}.
(** A new entry of [calls], all zero. *)
Definition Call0 : Call := mkCall CALL SUCCEEDED 0 0 0 0 0 [] [] [].
Definition with_calls (f : list Call → list Call) (c : Call) : Call :=
  mkCall (ct_type c) (ct_status c) (ct_from c) (ct_to c) (ct_value c) (ct_gas c) (ct_gasUsed c) (ct_input c) (ct_output c) (f (ct_calls c)).
Definition with_header (t : CallType) (from to : Address) (value gas : Z) (input : list Z) (c : Call) : Call :=
  mkCall t SUCCEEDED from to value gas (ct_gasUsed c) input (ct_output c) (ct_calls c).
Definition with_result (st : CallStatus) (output : list Z) (gasLeft : Z) (c : Call) : Call :=
  mkCall (ct_type c) st (ct_from c) (ct_to c) (ct_value c) (ct_gas c) (wrap 64 (ct_gas c - gasLeft)) (ct_input c) output (ct_calls c).

(** [getMessageCallType] *)
Definition getMessageCallType (m : Message) : CallType :=
  match m with
  | EncodedDelegateCall _ _ _ _ _ => DELEGATECALL
  | EncodedStaticCall _ _ _ | PackedStaticCall _ _ _ => STATICCALL
  | _ => CALL
  end.
Definition is_call (m : Message) : bool :=
  match m with EncodedCreate _ _ _ | EncodedSaltCreate _ _ _ _ | PackedCreate _ _ _ => false | _ => true end.

(** ** The tracer *)

Record Tracer := mkTracer { rootCall_ : option Call; callStack_ : list (list nat) }.
Definition no_trace : Tracer := mkTracer None [].
Definition hasCallTrace (t : Tracer) : bool := bool_decide (is_Some (rootCall_ t)).

(** The object a pointer of the stack points at, and a change of it. *)
Fixpoint call_at (p : list nat) (c : Call) : option Call :=
  match p with [] => Some c | i :: p => match ct_calls c !! i with Some d => call_at p d | None => None end end.
Fixpoint update_at (p : list nat) (f : Call → Call) (c : Call) : Call :=
  match p with [] => f c | i :: p => with_calls (alter (update_at p f) i) c end.
Definition on_call (p : list nat) (f : Call → Call) (t : Tracer) : Tracer := mkTracer (update_at p f <$> rootCall_ t) (callStack_ t).

(** The new entry: the root, or the last of the calls of the top of the stack. *)
Definition new_call (t : Tracer) : list nat * Tracer :=
  match callStack_ t with
  | [] => ([], mkTracer (Some Call0) [])
  | top :: _ =>
      let n := match rootCall_ t ≫= call_at top with Some c => length (ct_calls c) | None => O end in
      (top ++ [n], on_call top (with_calls (λ l, l ++ [Call0])) t)
  end.
Definition push_call (p : list nat) (t : Tracer) : Tracer := mkTracer (rootCall_ t) (p :: callStack_ t).
Definition pop_call (t : Tracer) : Tracer := mkTracer (rootCall_ t) (tail (callStack_ t)).

Section tracer.
Context {S : Type} (rpc_trace : bool).
(** Of a packed call: its encoded input and whether its function returns a value;
    the encoded reason of an exception. *)
Context (packed_input : nat → outcome (list Z)) (packed_void : nat → bool) (error_output : exn → outcome (list Z)).

Definition messageInputEncoded (m : Message) : outcome (list Z) :=
  match m with
  | EncodedCall _ _ _ i | EncodedStaticCall _ _ i | EncodedDelegateCall _ _ _ i _ => Ret i
  | PackedCall _ _ _ f | PackedStaticCall _ _ f => packed_input f
  | _ => Ret []
  end.
Definition returns_void (m : Message) : bool :=
  match m with PackedCall _ _ _ f | PackedStaticCall _ _ f => packed_void f | _ => false end.
Definition in_tracer (f : Tracer → Tracer) : M (Tracer * S) unit := modify (λ s, (f s.1, s.2)).

(** The [try] block: the answer of the handler is recorded in the entry [p].  A
    function without a result reaches the end of the body: nothing is recorded of
    the gas and nothing is popped. *)
Definition record (m : Message) (gas : S → Z) (p : list nat) (handler : M (Tracer * S) (list Z)) : M (Tracer * S) (list Z) := λ s,
  let close (s' : Tracer * S) (f : Call → Call) : Tracer * S := (pop_call (on_call p f s'.1), s'.2) in
  match handler s with
  | (Ret output, s') =>
      if returns_void m then (Ret output, s')
      else (Ret output, close s' (with_result SUCCEEDED output (gas s'.2)))
  | (Throw undefined_behaviour, s') => (Throw undefined_behaviour, s')
  | (Throw OutOfGas, s') => (Throw OutOfGas, close s' (λ c, with_result OUT_OF_GAS (ct_output c) (gas s'.2) c))
  | (Throw e, s') =>
      (Throw e, close s' (λ c, with_result EXECUTION_REVERTED
         (match error_output e with Ret o => o | Throw _ => ct_output c end) (gas s'.2) c))
  end.
(** [CallTracer::onMessage]: [handler] answers with the bytes of the output;
    [gas] is the gas of the message. *)
Definition traced (m : Message) (gas : S → Z) (handler : M (Tracer * S) (list Z)) : M (Tracer * S) (list Z) :=
  if negb rpc_trace || negb (is_call m) then handler
  else
    s ← gets id;
    let '(p, t) := new_call s.1 in
    in_tracer (λ _, t) ;;
    in_tracer (on_call p (with_header (getMessageCallType m) (msg_from m) (msg_to m) (messageValueOrZero m) (gas s.2)
      (match messageInputEncoded m with Ret i => i | Throw _ => [] end))) ;;
    in_tracer (push_call p) ;;
    record m gas p handler.
End tracer.

(** ** What an execution leaves *)

(** The messages of an execution: each with its gas before and after, the messages
    its handler makes in turn, and its answer (exceptions of nested messages may be
    caught). *)
Inductive Run := RunMessage (m : Message) (g0 : Z) (nested : list Run) (answer : outcome (list Z)) (g1 : Z).

Section runs.
Context (packed_input : nat → outcome (list Z)) (packed_void : nat → bool) (error_output : exn → outcome (list Z)).

Fixpoint play (rpc_trace : bool) (r : Run) : M (Tracer * Z) unit := λ s,
  match r with
  | RunMessage m g0 nested answer g1 =>
      let '(_, s') := traced rpc_trace packed_input packed_void error_output m id
        (for_each (play rpc_trace) nested ;; modify (λ s, (s.1, g1)) ;; lift answer) (s.1, g0) in
      (Ret (), s')
  end.

(** The tree a trace should be: a call with the calls below it, where the calls of
    a creation stand in its place. *)
Definition answer_status (answer : outcome (list Z)) : CallStatus :=
  match answer with Ret _ => SUCCEEDED | Throw OutOfGas => OUT_OF_GAS | Throw _ => EXECUTION_REVERTED end.
Definition answer_output (answer : outcome (list Z)) : list Z :=
  match answer with
  | Ret output => output
  | Throw OutOfGas => []
  | Throw e => match error_output e with Ret o => o | Throw _ => [] end
  end.
Fixpoint trace_of (r : Run) : list Call :=
  match r with
  | RunMessage m g0 nested answer g1 =>
      let calls := concat (map trace_of nested) in
      if is_call m then
        [mkCall (getMessageCallType m) (answer_status answer) (msg_from m) (msg_to m) (messageValueOrZero m) g0 (wrap 64 (g0 - g1))
           (match messageInputEncoded packed_input m with Ret i => i | Throw _ => [] end) (answer_output answer) calls]
      else calls
  end.

(** Every function called returns a value. *)
Fixpoint returning (r : Run) : Prop :=
  match r with
  | RunMessage m _ nested answer _ =>
      returns_void packed_void m = false ∧ answer ≠ Throw undefined_behaviour ∧
      (fix all l := match l with [] => True | r :: l => returning r ∧ all l end) nested
  end.
End runs.

Lemma Run_nested_ind (P : Run → Prop) :
  (∀ m g0 nested answer g1, Forall P nested → P (RunMessage m g0 nested answer g1)) → ∀ r, P r.
Proof.
  intros H. fix IH 1. intros [m g0 nested answer g1]. apply H. induction nested as [|r l IHl]; constructor; [apply IH|exact IHl].
Qed.

(** ** Paths *)

Lemma with_calls_eq (f g : list Call → list Call) c : f (ct_calls c) = g (ct_calls c) → with_calls f c = with_calls g c.
Proof. unfold with_calls. by intros ->. Qed.
Lemma update_at_app p q f c : update_at (p ++ q) f c = update_at p (update_at q f) c.
Proof. revert c. induction p as [|i p IH]; intros c; [done|]. cbn. apply with_calls_eq, list_alter_ext; auto. Qed.
Lemma update_at_comp p (f g : Call → Call) c : update_at p f (update_at p g c) = update_at p (f ∘ g) c.
Proof.
  revert c. induction p as [|i p IH]; intros c; [done|]. cbn. unfold with_calls. cbn. f_equal.
  rewrite list_alter_alter_eq. apply list_alter_ext; [|done]. intros x _. apply IH.
Qed.
Lemma update_at_ext p (f g : Call → Call) c d : call_at p c = Some d → f d = g d → update_at p f c = update_at p g c.
Proof.
  revert c. induction p as [|i p IH]; intros c; cbn; [by intros [= ->]|]. destruct (ct_calls c !! i) as [e|] eqn:E; [|done].
  intros Hd Hf. apply with_calls_eq, list_alter_ext; [|done]. intros x Hx. rewrite E in Hx. injection Hx as <-. by apply IH.
Qed.
Lemma update_at_id p c : update_at p id c = c.
Proof. revert c. induction p as [|i p IH]; intros c; [done|]. cbn. unfold with_calls. rewrite list_alter_id by done. by destruct c. Qed.
Lemma call_at_update p (f : Call → Call) c : call_at p (update_at p f c) = f <$> call_at p c.
Proof.
  revert c. induction p as [|i p IH]; intros c; [done|]. cbn. rewrite list_lookup_alter_eq.
  destruct (ct_calls c !! i) as [e|]; cbn; [apply IH|done].
Qed.
Lemma call_at_app p q c : call_at (p ++ q) c = call_at p c ≫= call_at q.
Proof. revert c. induction p as [|i p IH]; intros c; [done|]. cbn. destruct (ct_calls c !! i); [apply IH|done]. Qed.

(** ** The trace of an execution *)

Section correct.
Context (packed_input : nat → outcome (list Z)) (packed_void : nat → bool) (error_output : exn → outcome (list Z)).
Abbreviation play := (play packed_input packed_void error_output true).
Abbreviation trace_of := (trace_of packed_input error_output).
Abbreviation returning := (returning packed_void).

(** A run adds its calls to the call on the top of the stack. *)
Definition adds (r : Run) : Prop := ∀ t g top rest R c, callStack_ t = top :: rest → rootCall_ t = Some R → call_at top R = Some c →
  ∃ g', play r (t, g) = (Ret (), (on_call top (with_calls (λ l, l ++ trace_of r)) t, g')).

Lemma adds_all nested : Forall adds nested → ∀ t g top rest R c, callStack_ t = top :: rest → rootCall_ t = Some R → call_at top R = Some c →
  ∃ g', for_each play nested (t, g) = (Ret (), (on_call top (with_calls (λ l, l ++ concat (map trace_of nested))) t, g')).
Proof.
  induction 1 as [|r l Hr _ IH]; intros t g top rest R c Ht HR Hc.
  - exists g. cbn [for_each]. unfold on_call. rewrite HR. cbn [map concat fmap option_fmap option_map].
    rewrite (update_at_ext top _ id R c Hc) by (cbn; unfold with_calls; rewrite app_nil_r; by destruct c).
    rewrite update_at_id. cbn. destruct t. cbn in HR. by subst.
  - destruct (Hr t g top rest R c Ht HR Hc) as [g1 E]. cbn [for_each]. erewrite bind_run by exact E.
    destruct (IH (on_call top (with_calls (λ l, l ++ trace_of r)) t) g1 top rest (update_at top (with_calls (λ l, l ++ trace_of r)) R)
      (with_calls (λ l, l ++ trace_of r) c)) as [g2 E2]; [done|unfold on_call; by rewrite HR|by rewrite call_at_update, Hc|].
    exists g2. rewrite E2. unfold on_call. rewrite HR. cbn [rootCall_ callStack_ fmap option_fmap option_map]. rewrite update_at_comp.
    erewrite update_at_ext; [reflexivity|exact Hc|]. cbn [map concat]. unfold compose, with_calls. cbn. by rewrite app_assoc.
Qed.

(** What the body of [traced] does to the entry it made, from the header to the
    result. *)
Definition filled (r : Run) (c : Call) : Call :=
  match r with RunMessage m g0 nested answer g1 =>
    mkCall (getMessageCallType m) (answer_status answer) (msg_from m) (msg_to m) (messageValueOrZero m) g0 (wrap 64 (g0 - g1))
      (match messageInputEncoded packed_input m with Ret i => i | Throw _ => [] end) (answer_output error_output answer)
      (concat (map trace_of nested)) end.

(** The entry of a call, in any tracer that was given one. *)
Lemma entry_filled m g0 nested answer g1 p stack R c :
  Forall adds nested → returns_void packed_void m = false → answer ≠ Throw undefined_behaviour →
  call_at p R = Some c → ct_output c = [] → ct_calls c = [] →
  record packed_void error_output m id p (for_each play nested ;; modify (λ s, (s.1, g1)) ;; lift answer)
    (mkTracer (Some (update_at p (with_header (getMessageCallType m) (msg_from m) (msg_to m) (messageValueOrZero m) g0
      (match messageInputEncoded packed_input m with Ret i => i | Throw _ => [] end)) R)) (p :: stack), g0) =
  (answer, (mkTracer (Some (update_at p (λ _, filled (RunMessage m g0 nested answer g1) c) R)) stack, g1)).
Proof.
  intros Hn Hv Ha Hc Ho Hl. set (hd := with_header _ _ _ _ _ _).
  destruct (adds_all nested Hn (mkTracer (Some (update_at p hd R)) (p :: stack)) g0 p stack (update_at p hd R) (hd c)) as [g' E];
    [done|done|by rewrite call_at_update, Hc|].
  assert (Er : (for_each play nested ;; modify (λ s, (s.1, g1)) ;; lift answer) (mkTracer (Some (update_at p hd R)) (p :: stack), g0) =
    (answer, (on_call p (with_calls (λ l, l ++ concat (map trace_of nested))) (mkTracer (Some (update_at p hd R)) (p :: stack)), g1))).
  { erewrite bind_run by exact E. erewrite bind_run by reflexivity. unfold lift. by destruct answer. }
  assert (Hend : ∀ f : Call → Call, f (with_calls (λ l, l ++ concat (map trace_of nested)) (hd c)) = filled (RunMessage m g0 nested answer g1) c →
    pop_call (on_call p f (on_call p (with_calls (λ l, l ++ concat (map trace_of nested))) (mkTracer (Some (update_at p hd R)) (p :: stack)))) =
    mkTracer (Some (update_at p (λ _, filled (RunMessage m g0 nested answer g1) c) R)) stack).
  { intros f Hf. unfold on_call, pop_call. cbn. rewrite !update_at_comp. do 2 f_equal. by eapply update_at_ext. }
  unfold record. rewrite Er. destruct answer as [o|e].
  - rewrite Hv. do 2 f_equal. apply Hend. unfold with_calls, hd, with_header, with_result. cbn. by rewrite Hl.
  - destruct e; try done; do 2 f_equal; apply Hend; unfold with_calls, hd, with_header, with_result; cbn; by rewrite Hl, ?Ho.
Qed.

Lemma play_adds r : returning r → adds r.
Proof.
  induction r as [m g0 nested answer g1 IH] using Run_nested_ind. cbn [CallTracer.returning]. intros (Hv & Ha & Hall).
  assert (Hn : Forall adds nested).
  { clear Ha. induction IH as [|r l Hr _ IHl]; [constructor|]. destruct Hall as [H1 H2]. constructor; auto. }
  intros t g top rest R c Ht HR Hc. cbn [CallTracer.play]. unfold traced. cbn [negb orb].
  destruct (is_call m) eqn:Em; cbn [negb].
  - assert (E := entry_filled m g0 nested answer g1 (top ++ [length (ct_calls c)]) (top :: rest)
      (update_at top (with_calls (λ l, l ++ [Call0])) R) Call0 Hn Hv Ha).
    assert (Hp : call_at (top ++ [length (ct_calls c)]) (update_at top (with_calls (λ l, l ++ [Call0])) R) = Some Call0).
    { rewrite call_at_app, call_at_update, Hc. cbn. by rewrite lookup_app_r, Nat.sub_diag. }
    specialize (E Hp eq_refl eq_refl). exists g1. erewrite bind_run by reflexivity. unfold new_call, id at 1 2 3. cbn [fst snd]. rewrite Ht, HR. cbn [mbind option_bind]. rewrite Hc.
    erewrite bind_run by reflexivity. erewrite bind_run by reflexivity. erewrite bind_run by reflexivity.
    unfold on_call, push_call. rewrite Ht, HR. cbn [fst snd rootCall_ callStack_ fmap option_fmap option_map id] in E |- *. rewrite E.
    do 3 f_equal. f_equal. rewrite update_at_app, update_at_comp. eapply update_at_ext; [exact Hc|]. unfold compose.
    cbn [update_at]. unfold with_calls. cbn. f_equal. rewrite alter_app_r_alt, Nat.sub_diag by done. cbn. by rewrite Em.
  - destruct (adds_all nested Hn t g0 top rest R c Ht HR Hc) as [g' E]. exists g1. cbn [fst].
    erewrite bind_run by exact E. erewrite bind_run by reflexivity. unfold lift. cbn [CallTracer.trace_of]. rewrite Em. by destruct answer.
Qed.

(** Without tracing the tracer is left alone. *)
Lemma untraced r : ∀ t g, (CallTracer.play packed_input packed_void error_output false r (t, g)).2.1 = t.
Proof.
  induction r as [m g0 nested answer g1 IH] using Run_nested_ind. intros t g. cbn [CallTracer.play]. unfold traced. cbn [negb orb fst].
  assert (Hl : ∀ g, ∃ g', for_each (CallTracer.play packed_input packed_void error_output false) nested (t, g) = (Ret (), (t, g'))).
  { induction IH as [|r l Hr _ IHl]; intros g2; [by exists g2|]. cbn [for_each]. specialize (Hr t g2).
    assert (E : (CallTracer.play packed_input packed_void error_output false r (t, g2)).1 = Ret ())
      by (destruct r; cbn [CallTracer.play]; by destruct (traced _ _ _ _ _ _ _ _)).
    destruct (CallTracer.play _ _ _ false r (t, g2)) as [x [t' g3]] eqn:Ed. cbn in E, Hr. subst. erewrite bind_run by exact Ed. apply IHl. }
  destruct (Hl g0) as [g' E]. erewrite bind_run by exact E. erewrite bind_run by reflexivity. unfold lift. by destruct answer.
Qed.

(** The trace of an execution is its tree of calls.  For any message that calls
    and any messages below it, to any depth, with exceptions caught or passed on,
    the tracer ends with exactly the calls made, in order and each under the call
    that made it, with their gas, answers and errors, and with an empty stack, as
    long as every function that is called returns a value; and a node that does
    not trace records nothing. *)
Theorem call_trace_is_tree (r : Run) (g : Z) :
  returning r → is_call (match r with RunMessage m _ _ _ _ => m end) = true →
  (∃ c g', trace_of r = [c] ∧ play r (no_trace, g) = (Ret (), (mkTracer (Some c) [], g'))) ∧
  (CallTracer.play packed_input packed_void error_output false r (no_trace, g)).2.1 = no_trace.
Proof.
  intros Hr Em. split; [|apply untraced]. destruct r as [m g0 nested answer g1]. cbn [CallTracer.returning] in Hr. destruct Hr as (Hv & Ha & Hall).
  assert (Hn : Forall adds nested) by (clear Ha; induction nested as [|r l IH]; [constructor|destruct Hall; constructor; [by apply play_adds|auto]]).
  pose proof (entry_filled m g0 nested answer g1 [] [] Call0 Call0 Hn Hv Ha eq_refl eq_refl eq_refl) as E.
  eexists _, g1. cbn [CallTracer.trace_of CallTracer.play]. rewrite Em. split; [done|]. unfold traced. rewrite Em. cbn [negb orb].
  erewrite bind_run by reflexivity. unfold new_call, id at 1 2 3. cbn [fst snd no_trace callStack_].
  erewrite bind_run by reflexivity. erewrite bind_run by reflexivity. erewrite bind_run by reflexivity.
  unfold on_call, push_call. cbn [fst snd rootCall_ callStack_ fmap option_fmap option_map id] in E |- *. rewrite E. done.
Qed.
End correct.

(** ** Where the trace is not the tree *)

Definition plain_call (from to : Address) : Message := EncodedCall from to 0 [].
Definition simple (m : Message) (nested : list Run) : Run := RunMessage m 100 nested (Ret []) 50.
Definition recorded (r : Run) : Tracer := (play (λ _, Ret []) (λ f, f =? 7)%nat (λ _, Ret []) true r (no_trace, 0)).2.1.
(** The recipients of a trace, as a tree. *)
Inductive Shape := Node (to : Address) (below : list Shape).
Fixpoint shape (c : Call) : Shape := match c with mkCall _ _ _ to _ _ _ _ _ calls => Node to (map shape calls) end.

(** Contract 1 calls a function of contract 2 that returns nothing, then contract
    3: the second call is recorded below the first, whose gas is missing, and the
    stack keeps an entry. *)
Example void_call_swallows_siblings :
  let t := recorded (simple (plain_call 9 1) [simple (PackedCall 1 2 0 7) []; simple (plain_call 1 3) []]) in
  shape <$> rootCall_ t = Some (Node 1 [Node 2 [Node 3 []]]) ∧
  ct_gasUsed <$> (rootCall_ t ≫= call_at [0%nat]) = Some 0 ∧ callStack_ t = [[]].
Proof. vm_compute. done. Qed.

(** The calls a contract makes while it is created by a transaction overwrite each
    other: the trace of the transaction is the last one. *)
Example creation_traces_last_call :
  shape <$> rootCall_ (recorded (simple (EncodedCreate 9 0 []) [simple (plain_call 8 2) [simple (plain_call 2 4) []]; simple (plain_call 8 3) []])) =
  Some (Node 3 []).
Proof. vm_compute. done. Qed.
