(* ===== verification/Restart.v ===== *)
(** * Replay of the blocks above a snapshot

    Models the second half of the constructor of [State] (src/core/state.cpp):
    the checks on the snapshot and the replay of the stored blocks that came
    after it.  [Snapshot] has the first half.  The replay is compared with the
    processing of the same blocks when they arrived.  The index entries that the
    replay writes again are those [Storage] already holds for the blocks. *)

From S2P Require Import Prelude CheckedInt SafeBase SafeScalars ExecutionContext Messages AnyVar ContractHost.
From S2P Require Import Bytes Tx RdPoS BaseContract State.

Section restart.
Context {BI : BoostInt} {WK : Walk} {V T : Type} {SV : SafeVar V T} {VO : VarOps V T} {EX : Externals}.
Context (chainId : Z) (indexing : bool) (order : bool).
Implicit Types s t : State (V := V).

(** [storage_.getBlock(height)] *)
Definition find_block (height : Z) (blocks : list Block) : option Block :=
  snd <$> list_find (λ b, b_nHeight (blk_rdpos b) = height) blocks.

(** [for (const auto& [addr, acc] : accounts_) contractSanityCheck(addr, *acc)] *)
Fixpoint sanity_all (accounts : list (Address * Account)) s : outcome unit :=
  match accounts with
  | [] => Ret ()
  | (a, acc) :: accounts => contractSanityCheck a acc s ;; sanity_all accounts s
  end.

(** The body of the loop. *)
Definition replay_block (notify : Block → M State unit) (fuel : nat) (b : Block) : M State unit :=
  process_txs chainId indexing order fuel b 0 (blk_txs b) ;;
  notify b ;;
  modify (λ s, with_rdpos (processBlock sha3 (blk_rdpos b) (rdpos_ s)).2 s).
(** The loop from [nHeight], [n] rounds; a missing block is a null pointer. *)
Fixpoint replay (notify : Block → M State unit) (fuel : nat) (n : nat) (nHeight : Z) : M State unit :=
  match n with
  | O => mret ()
  | S n =>
      blocks ← gets s_blocks ;
      match find_block nHeight blocks with
      | None => throw undefined_behaviour
      | Some b => replay_block notify fuel b ;; replay notify fuel n (wrap 64 (nHeight + 1))
      end
  end.
(** The constructor from the search of the snapshot block on; the contract
    manager is loaded in between. *)
Definition State_restore (notify : Block → M State unit) (fuel : nat) (snapshotHeight : Z) : M State unit :=
  s ← gets id ;
  match s_blocks s with
  | [] => throw undefined_behaviour
  | latest :: _ =>
      throw_if (bool_decide (find_block snapshotHeight (s_blocks s) = None)) (DynamicException "Snapshot block not found!?") ;;
      lift (sanity_all (walk (accounts_ (s_world s))) s) ;;
      throw_if (b_nHeight (blk_rdpos latest) <? snapshotHeight)
        (DynamicException "Snapshot height is higher than latest block, we can't load State!") ;;
      replay notify fuel (Z.to_nat (b_nHeight (blk_rdpos latest) - snapshotHeight)) (wrap 64 (snapshotHeight + 1))
  end.

(** ** What an execution reads and writes *)

(** The part of the state executions work on. *)
Definition same_core s t : Prop := s_world s = s_world t ∧ s_vars s = s_vars t.
(** They leave mempool, rdPoS and blocks alone, and append to the logs. *)
Definition appended (d : list nat) (e : list Event) (x : list TxAdditionalData) s s' : Prop :=
  mempool_ s' = mempool_ s ∧ rdpos_ s' = rdpos_ s ∧ s_blocks s' = s_blocks s ∧
  s_dumpables s' = s_dumpables s ++ d ∧ s_events s' = s_events s ++ e ∧ s_txData s' = s_txData s ++ x.
Definition framed {A} (m : M State A) : Prop := ∀ s t, same_core s t →
  (m s).1 = (m t).1 ∧ same_core (m s).2 (m t).2 ∧ ∃ d e x, appended d e x s (m s).2 ∧ appended d e x t (m t).2.

Lemma appended_refl s : appended [] [] [] s s.
Proof. unfold appended. by rewrite !app_nil_r. Qed.
Lemma appended_trans d e x d' e' x' s1 s2 s3 :
  appended d e x s1 s2 → appended d' e' x' s2 s3 → appended (d ++ d') (e ++ e') (x ++ x') s1 s3.
Proof.
  intros (H1 & H2 & H3 & H4 & H5 & H6) (K1 & K2 & K3 & K4 & K5 & K6). unfold appended.
  rewrite K1, K2, K3, K4, K5, K6, H4, H5, H6, !(assoc_L (++)). by split_and!.
Qed.

Lemma framed_pure {A} (m : M State A) (o : outcome A) : (∀ s, m s = (o, s)) → framed m.
Proof. intros H s t Hst. rewrite !H. split_and!; [done|done|]. exists [], [], []. split; apply appended_refl. Qed.
Lemma framed_ret {A} (a : A) : framed (mret a).
Proof. by apply (framed_pure _ (Ret a)). Qed.
Lemma framed_lift {A} (o : outcome A) : framed (lift o).
Proof. by apply (framed_pure _ o). Qed.
Lemma framed_throw_if b e : framed (throw_if b e).
Proof. by apply (framed_pure _ (if b then Throw e else Ret ())); destruct b. Qed.
Lemma framed_bind {A B} (m : M State A) (k : A → M State B) : framed m → (∀ a, framed (k a)) → framed (m ≫= k).
Proof.
  intros Hm Hk s t Hst. destruct (Hm s t Hst) as (E & Hc & d & e & x & Hs & Ht). unfold mbind, M_bind.
  destruct (m s) as [r s1], (m t) as [r' t1]. cbn in *. subst r'. destruct r as [a|ex]; [|split_and!; [done|done|]; by exists d, e, x].
  destruct (Hk a s1 t1 Hc) as (E & Hc' & d' & e' & x' & Hs' & Ht'). split_and!; [done|done|].
  exists (d ++ d'), (e ++ e'), (x ++ x'). split; by eapply appended_trans.
Qed.
(** Code that reads only the core. *)
Lemma framed_gets {A} (f : State → State) (k : State → M State A) : (∀ s, f s = s) →
  (∀ s t, same_core s t → k s = k t) → (∀ s, framed (k s)) → framed (gets f ≫= k).
Proof.
  intros Hf Hk Hfr s t Hst. unfold mbind, M_bind, gets. rewrite !Hf, (Hk s t Hst). by apply Hfr.
Qed.
Lemma framed_update a f : framed (update_account a f).
Proof.
  intros s t [Hw Hv]. unfold update_account, modify. cbn. unfold same_core. cbn. rewrite Hw. split_and!; [done|done|done|].
  exists [], [], []. split; unfold appended; cbn; by rewrite !app_nil_r.
Qed.

Lemma finish_logs x b d e : finish (mkHost x b d e) =
  let '(r, h) := finish (mkHost x b [] []) in (r, mkHost (h_exec h) (mustRevert_ h) (d ++ h_dumpables h) (e ++ h_events h)).
Proof.
  unfold finish, in_vars, in_exec, zoom, gets, modify, publish. unfold mbind, M_bind. cbn.
  destruct b; match goal with |- context [finish_vars ?q ?v] => destruct (finish_vars q v) as [[[]|ex] vs] eqn:E end;
    cbn in E |- *; rewrite ?E; cbn; rewrite ?app_nil_r; try done.
  match goal with |- context [in_ctx revert ?y] => destruct (in_ctx revert y) as [r x'] eqn:F end. cbn in F |- *. by rewrite ?F; cbn; rewrite ?app_nil_r.
Qed.
Lemma framed_run_host fuel e g seed m : framed (run_host fuel e g seed m).
Proof.
  intros s t [Hw Hv]. unfold run_host.
  pose proof (execute_run fuel m (new_host e g seed s)) as Es. pose proof (execute_run fuel m (new_host e g seed t)) as Et.
  assert (Hx : h_exec (new_host e g seed t) = h_exec (new_host e g seed s)) by (unfold new_host; cbn; by rewrite Hw, Hv).
  rewrite Hx in Et. destruct (execute_body fuel m (h_exec (new_host e g seed s))) as [r x']. rewrite Es, Et.
  cbn [h_dumpables h_events new_host]. rewrite (finish_logs _ _ (s_dumpables s)), (finish_logs _ _ (s_dumpables t)).
  destruct (finish (mkHost x' (negb (returns r)) [] [])) as [[u|ex] h2]; cbn;
    [destruct r as [a|[]]; cbn|]; (split_and!; [done|done|]; exists (h_dumpables h2), (h_events h2), []; split; unfold appended; cbn;
    by rewrite !app_nil_r).
Qed.
Lemma framed_processTransaction fuel tx b i : framed (processTransaction chainId indexing order fuel tx b i).
Proof.
  unfold processTransaction. apply framed_bind; [apply framed_update|intros _].
  apply framed_gets; [done|intros s t [Hw _]; by rewrite Hw|intros s].
  apply framed_bind; [apply framed_lift|intros need]. apply framed_bind; [apply framed_throw_if|intros _].
  apply framed_bind; [apply framed_throw_if|intros _]. apply framed_bind; [apply framed_lift|intros gas].
  apply framed_bind. { destruct (uadd 256 _ _); [apply framed_run_host|apply framed_ret]. }
  intros [r gas']. apply framed_bind; [apply framed_update|intros _]. apply framed_bind; [apply framed_lift|intros gasUsed].
  apply framed_bind.
  { destruct indexing; [|apply framed_ret]. intros s1 t1 [Hw1 Hv1]. cbn. split_and!; [done|done|].
    eexists [], [], [_]. split; unfold appended; cbn; rewrite !app_nil_r; by split_and!. }
  intros _. apply framed_bind; [apply framed_lift|intros fee].
  apply framed_gets; [done|intros s1 t1 [Hw1 _]; by rewrite Hw1|intros s1].
  apply framed_bind; [apply framed_lift|intros bal; apply framed_update].
Qed.
Lemma framed_process_txs fuel b i txs : framed (process_txs chainId indexing order fuel b i txs).
Proof.
  revert i. induction txs as [|tx txs IH]; intros i; [apply framed_ret|].
  apply framed_bind; [apply framed_processTransaction|intros _; apply IH].
Qed.

(** ** Processing a block and replaying it *)

Lemma keep_if_valid_only x s : ∃ m, (keep_if_valid x s).2 = with_mempool m s.
Proof.
  unfold keep_if_valid, gets, lift, modify. unfold mbind, M_bind. cbn.
  destruct (validateTransactionInternal x.2 s) as [st|]; cbn; [|exists (mempool_ s); by destruct s].
  destruct (isTxStatusValid st); cbn; [by eexists|exists (mempool_ s); by destruct s].
Qed.
Lemma keep_all_only l s : ∃ m, (for_each keep_if_valid l s).2 = with_mempool m s.
Proof.
  revert s. induction l as [|x l IH]; intros s; cbn; [exists (mempool_ s); by destruct s|].
  destruct (keep_if_valid_only x s) as [m Hm]. unfold mbind, M_bind. destruct (keep_if_valid x s) as [[[]|e] s1]; cbn in *; subst s1.
  - destruct (IH (with_mempool m s)) as [m' ->]. by exists m'.
  - by exists m.
Qed.
Lemma refreshMempool_only b s : ∃ m, (refreshMempool b s).2 = with_mempool m s.
Proof.
  unfold refreshMempool, modify, gets. unfold mbind, M_bind. cbn.
  match goal with |- context [for_each keep_if_valid ?l ?s1] => destruct (keep_all_only l s1) as [m Hm] end.
  exists m. etrans; [exact Hm|done].
Qed.

(** The observers of the node that ran the blocks and of the one that replays them. *)
Variables notify notify' : Block → M (State (V := V)) unit.
(** Observers work on the core: see [framed_run_host]. *)
Hypothesis notify_framed : ∀ b, framed (notify b).
Variable fuel : nat.

(** What both nodes agree on. *)
Definition agree s t : Prop :=
  same_core s t ∧ validators_ (rdpos_ s) = validators_ (rdpos_ t) ∧ minValidators_ (rdpos_ s) = minValidators_ (rdpos_ t).

Lemma processBlock_agree (b : BlockRdPoS) (r r' : rdPoS) : validators_ r = validators_ r' → minValidators_ r = minValidators_ r' →
  processBlock sha3 b r = processBlock sha3 b r'.
Proof. intros E1 E2. unfold processBlock. by rewrite E1, E2. Qed.
Lemma processBlock_keeps (b : BlockRdPoS) (r : rdPoS) :
  validators_ (processBlock sha3 b r).2 = validators_ r ∧ minValidators_ (processBlock sha3 b r).2 = minValidators_ r.
Proof. unfold processBlock. by destruct (shuffle _ _ _). Qed.

Lemma valid_height b s : validateNextBlockInternal b s = Ret valid →
  ∃ latest rest, s_blocks s = latest :: rest ∧ b_nHeight (blk_rdpos b) = b_nHeight (blk_rdpos latest) + 1.
Proof.
  unfold validateNextBlockInternal. destruct (s_blocks s) as [|latest rest]; [done|].
  destruct (Z.eqb_spec (b_nHeight (blk_rdpos b)) (b_nHeight (blk_rdpos latest) + 1)) as [E|]; cbn; [|done]. eauto.
Qed.
(** A block that was processed and stored. *)
Definition process := processNextBlock chainId indexing order notify fuel.
Lemma process_run b s s' : process b s = (Ret (), s') →
  ∃ latest rest s1 m s2, s_blocks s = latest :: rest ∧ b_nHeight (blk_rdpos b) = b_nHeight (blk_rdpos latest) + 1 ∧
    process_txs chainId indexing order fuel b 0 (blk_txs b) s = (Ret (), s1) ∧
    notify b (with_mempool m (with_rdpos (processBlock sha3 (blk_rdpos b) (rdpos_ s1)).2 s1)) = (Ret (), s2) ∧
    s' = with_blocks (b :: s_blocks s2) s2.
Proof.
  unfold process, processNextBlock, tryProcessNextBlock, gets, lift, modify. unfold mbind, M_bind. cbn.
  destruct (validateNextBlockInternal b s) as [st|] eqn:Ev; [|done].
  destruct (decide (st ≠ valid)) as [Hst|Hst]; cbn; [by rewrite decide_True|]. apply dec_stable in Hst as ->.
  destruct (valid_height b s Ev) as (latest & rest & Eb & Eh).
  destruct (process_txs chainId indexing order fuel b 0 (blk_txs b) s) as [[[]|] s1]; cbn; [|done].
  pose proof (refreshMempool_only b (with_rdpos (processBlock sha3 (blk_rdpos b) (rdpos_ s1)).2 s1)) as [m Hm].
  destruct (refreshMempool b _) as [[[]|] s1'] eqn:Er; cbn in *; [|done]. subst s1'.
  destruct (notify b _) as [[[]|] s2] eqn:En; cbn; [|done]. rewrite decide_False by (intros H; by apply H). intros [= <-].
  exists latest, rest, s1, m, s2. by split_and!.
Qed.

(** The replay of a block on a node that agrees gives a node that agrees. *)
Lemma replay_block_agree b s s' t : notify' b = notify b → process b s = (Ret (), s') → agree s t →
  ∃ t', replay_block notify' fuel b t = (Ret (), t') ∧ agree s' t' ∧ rdpos_ t' = rdpos_ s' ∧
    s_blocks t' = s_blocks t ∧ s_blocks s' = b :: s_blocks s ∧
    ∃ e, s_events s' = s_events s ++ e ∧ s_events t' = s_events t ++ e.
Proof.
  intros Hnn (latest & rest & s1 & m & s2 & _ & _ & Ht & Hn & ->)%process_run (Hc & Hv & Hmin).
  destruct (framed_process_txs fuel b 0 (blk_txs b) s t Hc) as (E1 & Hc1 & d & e & x & As & At).
  rewrite Ht in E1, Hc1, As. unfold replay_block. rewrite Hnn. unfold mbind, M_bind.
  destruct (process_txs chainId indexing order fuel b 0 (blk_txs b) t) as [r1 t1]. cbn in *. subst r1.
  destruct As as (_ & Hr & Hb & _ & He & _), At as (_ & Hr' & Hb' & _ & He' & _).
  set (s1' := with_mempool m _) in Hn. destruct (notify_framed b s1' t1 Hc1) as (E2 & Hc2 & d2 & e2 & x2 & As2 & At2).
  rewrite Hn in E2, Hc2, As2. destruct (notify b t1) as [r2 t2]. cbn in *. subst r2.
  destruct As2 as (_ & Hr2 & Hb2 & _ & He2 & _), At2 as (_ & Hr2' & Hb2' & _ & He2' & _). cbn in *.
  assert (Hp : rdpos_ s2 = (processBlock sha3 (blk_rdpos b) (rdpos_ t2)).2).
  { rewrite Hr2, Hr2', Hr, Hr'. f_equal. by apply processBlock_agree. }
  eexists. split; [reflexivity|]. cbn. rewrite Hp. split_and!.
  - split; [exact Hc2|]. cbn. by rewrite Hp.
  - done.
  - by rewrite Hb2', Hb'.
  - by rewrite Hb2, Hb.
  - exists (e ++ e2). rewrite He2, He2', He, He'. by rewrite !(assoc_L (++)).
Qed.

Lemma process_stored b s s' : process b s = (Ret (), s') → s_blocks s' = b :: s_blocks s.
Proof.
  intros (latest & rest & s1 & m & s2 & _ & _ & Ht & Hn & ->)%process_run.
  destruct (framed_process_txs fuel b 0 (blk_txs b) s s) as (_ & _ & d & e & x & As & _); [done|]. rewrite Ht in As.
  set (s1' := with_mempool m _) in Hn. destruct (notify_framed b s1' s1') as (_ & _ & d2 & e2 & x2 & As2 & _); [done|]. rewrite Hn in As2.
  destruct As as (_ & _ & Hb & _), As2 as (_ & _ & Hb2 & _). cbn in *. by rewrite Hb2, Hb.
Qed.

Lemma find_block_unique k b l : b ∈ l → b_nHeight (blk_rdpos b) = k → (∀ b', b' ∈ l → b_nHeight (blk_rdpos b') = k → b' = b) →
  find_block k l = Some b.
Proof.
  intros Hb Hk Hu. unfold find_block. destruct (list_find_elem_of (λ b, b_nHeight (blk_rdpos b) = k) l b Hb Hk) as [[i b'] Hf].
  rewrite Hf. cbn. apply list_find_Some in Hf as (Hi & Hk' & _). f_equal. apply Hu; [by eapply list_elem_of_lookup_2|done].
Qed.

(** The stored blocks after a run, and their heights. *)
Lemma process_all_blocks bs s s1 latest rest : for_each process bs s = (Ret (), s1) → s_blocks s = latest :: rest →
  s_blocks s1 = reverse bs ++ s_blocks s ∧
  ∀ i b, bs !! i = Some b → b_nHeight (blk_rdpos b) = b_nHeight (blk_rdpos latest) + 1 + Z.of_nat i.
Proof.
  revert s latest rest. induction bs as [|b bs IH]; intros s latest rest Hr Hl; cbn in Hr.
  { injection Hr as <-. by split; [rewrite reverse_nil|]. }
  unfold mbind, M_bind in Hr. destruct (process b s) as [[[]|] s'] eqn:Eb; [|done].
  destruct (process_run _ _ _ Eb) as (latest' & rest' & s2 & m & s3 & El & Eh & _). rewrite Hl in El. injection El as <- <-.
  pose proof (process_stored _ _ _ Eb) as Hbl.
  destruct (IH s' b (s_blocks s) Hr Hbl) as [Hs Hh]. split; [rewrite Hs, Hbl, reverse_cons; by rewrite <- (assoc_L (++))|].
  intros [|i] x; cbn; [intros [= <-]; lia|]. intros Hx. rewrite (Hh i x Hx). lia.
Qed.

Lemma replay_agree bs s s1 t h : (∀ b, b ∈ bs → notify' b = notify b) → for_each process bs s = (Ret (), s1) → agree s t → 0 <= h → h + Z.of_nat (length bs) + 1 < 2 ^ 64 →
  (∀ i b, bs !! i = Some b → find_block (h + 1 + Z.of_nat i) (s_blocks t) = Some b) →
  ∃ t1, replay notify' fuel (length bs) (h + 1) t = (Ret (), t1) ∧ agree s1 t1 ∧ (bs ≠ [] → rdpos_ t1 = rdpos_ s1) ∧
    s_blocks t1 = s_blocks t ∧ ∃ e, s_events s1 = s_events s ++ e ∧ s_events t1 = s_events t ++ e.
Proof.
  revert s t h. induction bs as [|b bs IH]; intros s t h Hnn Hr Ha Hh Hmax Hf; cbn in Hr.
  { injection Hr as <-. exists t. split_and!; [done|done|done|done|]. exists []. by rewrite !app_nil_r. }
  unfold mbind, M_bind in Hr. destruct (process b s) as [[[]|] s'] eqn:Eb; [|done].
  destruct (replay_block_agree b s s' t (Hnn b ltac:(by left)) Eb Ha) as (t' & Ht & Ha' & Hrd & Hbt & _ & e & He & He').
  pose proof (Hf 0%nat b eq_refl) as Hfb. rewrite Z.add_0_r in Hfb. cbn [length] in *.
  destruct (IH s' t' (h + 1) ltac:(intros x Hx; apply Hnn; by right) Hr Ha') as (t1 & Ht1 & Ha1 & Hrd1 & Hbt1 & e1 & He1 & He1'); [lia|lia| |].
  { intros i x Hx. rewrite Hbt. rewrite <- (Hf (S i) x Hx). f_equal. lia. }
  exists t1. split_and!; [|done| |by rewrite Hbt1|exists (e ++ e1); by rewrite He1, He1', He, He', !(assoc_L (++))].
  - cbn [replay]. unfold gets. unfold mbind at 1, M_bind at 1. rewrite Hfb. unfold mbind, M_bind. rewrite Ht.
    by rewrite wrap_id by (unfold in_range; lia).
  - intros _. destruct bs as [|b' bs']; [|by apply Hrd1]. cbn in Hr, Ht1. injection Hr as <-. injection Ht1 as <-. done.
Qed.

Lemma sanity_all_run l s : Forall (λ e : Address * Account, contractSanityCheck e.1 e.2 s = Ret ()) l → sanity_all l s = Ret ().
Proof. induction 1 as [|[a acc] l Ha _ IH]; cbn; [done|]. cbn in Ha. by rewrite Ha. Qed.
End restart.


(** ** A chain with one block above its snapshot *)
#[local] Existing Instance boost_ref.
#[local] Existing Instance demo.
Definition replayed_block : Block :=
  mkBlock 1001 1000 11 (mkBlockRdPoS 5 1 [demo_commit; demo_reveal] 3) [demo_tx 70 50 10 0 []].
(** An observer that calls the contract at address 100. *)
Definition demo_notify (b : Block) : M (State (V := AnyVar)) unit :=
  run_host 2 (tx_env 1 true (demo_tx 0 100 0 0 []) b 1) 5000000 3 (EncodedCall 5 100 0 [2]) ;; mret ().
Definition processed_state : State (V := AnyVar) :=
  (for_each (processNextBlock 1 true true demo_notify 2) [replayed_block] demo_state).2.
(** The snapshot of [s] in the database of [s1]. *)
Definition loaded_from (s s1 : State (V := AnyVar)) : State (V := AnyVar) :=
  mkState (s_world s) (s_vars s) ∅ (rdpos_ s) (s_blocks s1) [] [] (s_events s1).
Lemma loaded_agree s s1 : agree s (loaded_from s s1) ∧ s_blocks (loaded_from s s1) = s_blocks s1 ∧ s_events (loaded_from s s1) = s_events s1.
Proof. done. Qed.

