(* ===== verification/Consensus.v ===== *)
(** * The validator: how a node makes a block

    Models [Consensus::validatorLoop] (src/core/consensus.cpp).  A turn of the
    loop reads the latest block, the random list and the mempool at different
    moments, and other threads (broadcasts, the puller, RPC) run in between: each
    read here takes the state of its own moment.  The clock, the random numbers
    and the order in which maps are walked are parameters. *)

From S2P Require Import Prelude CheckedInt SafeBase ExecutionContext Messages AnyVar ContractHost.
From S2P Require Import Bytes Tx RdPoS BaseContract FinalizedBlock State.

(** The options a validator reads. *)
Record ValidatorOptions := mkValidatorOptions {
  o_chainID : Z;
  o_validatorPrivKey : Z;
  o_extraValidators : list Z;
  o_minValidators : nat;
}.

Section consensus.
Context {BI : BoostInt} {EC : Secp256k1} {WK : Walk} {V T : Type} {SV : SafeVar V T} {VO : VarOps V T} {EX : Externals}.

(** What the state reads of a block. *)
Definition block_of (b : FinalizedBlock) : Block :=
  mkBlock (hash_ b) (prevBlockHash_ b) (timestamp_ b)
    (mkBlockRdPoS (nHeight_ b) (toAddress (validatorPubKey_ b)) (txValidators_ b) (blockRandomness_ b))
    (txs_ b).

(** ** The keys of the node *)

(** [validators.insert({validator, key})] *)
Definition insert_new (v : Address) (key : Z) (validators : gmap Address Z) : gmap Address Z :=
  match validators !! v with Some _ => validators | None => <[v := key]> validators end.
Definition address_of (key : Z) : Address := toAddress (toUPub key).
Definition own_validators (o : ValidatorOptions) : gmap Address Z :=
  foldl (λ m key, insert_new (address_of key) key m)
    {[ address_of (o_validatorPrivKey o) := o_validatorPrivKey o ]} (o_extraValidators o).

(** [for (const auto& [validator, privKey] : validators) if (validator == v) ...; break;] *)
Definition key_of (validators : gmap Address Z) (v : Address) : option Z :=
  match list_find (λ e, e.1 = v) (walk validators) with Some (_, e) => Some e.2 | None => None end.

(** ** The validator transactions *)

(** The keys of [randomList[i + 1]], [n] of them, as far as the node has them. *)
Fixpoint validatorsToSign (validators : gmap Address Z) (randomList : list Address) (n i : nat) : outcome (list Z) :=
  match n with
  | O => Ret []
  | S n =>
      v ← index randomList (i + 1)%nat;
      rest ← validatorsToSign validators randomList n (S i);
      Ret (match key_of validators v with Some key => key :: rest | None => rest end)
  end.

Definition commit_data (randomness : Hash) : list Z :=
  [0xcf; 0xff; 0xe7; 0x46] ++ be_bytes 32 (sha3 (be_bytes 32 randomness)).
Definition reveal_data (randomness : Hash) : list Z := [0x6f; 0xc5; 0xa2; 0xd6] ++ be_bytes 32 randomness.

(** The loop that makes both transactions of every signer; [random i] is the
    number drawn in round [i]. *)
Fixpoint make_txs (chainId nHeight : Z) (random : nat → Hash) (i : nat) (keys : list Z) :
    outcome (list TxValidator * list TxValidator) :=
  match keys with
  | [] => Ret ([], [])
  | key :: keys =>
      hashTx ← TxValidator_make (address_of key) (commit_data (random i)) chainId nHeight key;
      seedTx ← TxValidator_make (address_of key) (reveal_data (random i)) chainId nHeight key;
      rest ← make_txs chainId nHeight random (S i) keys;
      Ret (hashTx :: rest.1, seedTx :: rest.2)
  end.

(** The loop that checks the order of the signers. *)
Fixpoint check_order (n i : nat) (min : nat) (randomList : list Address) (txs : list TxValidator) : outcome unit :=
  match n with
  | O => Ret ()
  | S n =>
      hashTx ← index txs i;
      v ← index randomList (i + 1)%nat;
      if negb (tv_from hashTx =? v) then Throw (DynamicException "Validator transaction ordering mismatch.")
      else
        seedTx ← index txs (i + min)%nat;
        if negb (tv_from seedTx =? v) then Throw (DynamicException "Validator transaction ordering mismatch.")
        else check_order n (S i) min randomList txs
  end.

(** From the list of the node's keys to the ordered validator transactions, and
    the key of the block creator. *)
Definition validator_txs (o : ValidatorOptions) (latestHeight : Z) (randomList : list Address)
    (random : nat → Hash) : outcome (Z * list TxValidator) :=
  let validators := own_validators o in
  let min := o_minValidators o in
  first ← index randomList 0;
  let blockCreatorPrivKey := default 0 (key_of validators first) in
  if blockCreatorPrivKey =? 0 then Throw (DynamicException "Validator not in the current validator list.")
  else if (length randomList <=? min)%nat
  then Throw (DynamicException "Random list size is less than the minimum validators.")
  else
    keys ← validatorsToSign validators randomList min 0;
    if negb (length keys =? min)%nat then Throw (DynamicException "Validator set size mismatch.")
    else
      txs ← make_txs (o_chainID o) (wrap 64 (latestHeight + 1)) random 0 keys;
      let validatorTxs := txs.1 ++ txs.2 in
      if negb (length validatorTxs =? min * 2)%nat
      then Throw (DynamicException "Validator transaction size mismatch.")
      else
        check_order min 0 min randomList validatorTxs;;
        Ret (blockCreatorPrivKey, validatorTxs).

(** ** The transactions of the block *)

(** One transaction per sender: the one with the greatest fee. *)
Definition add_best (best : gmap Address TxBlock) (tx : TxBlock) : gmap Address TxBlock :=
  match best !! tx_from tx with
  | None => <[tx_from tx := tx]> best
  | Some t => if tx_maxFeePerGas t <? tx_maxFeePerGas tx then <[tx_from tx := tx]> best else best
  end.
Definition getMempool (s : State (V := V)) : list TxBlock := (walk (mempool_ s)).*2.
Definition chainTxs (mempool : list TxBlock) : list TxBlock := (walk (foldl add_best ∅ mempool)).*2.

(** ** The block *)

Definition validator_block (o : ValidatorOptions) (latest : Block) (randomList : list Address)
    (mempool : list TxBlock) (now : Z) (random : nat → Hash) : outcome FinalizedBlock :=
  creator ← validator_txs o (b_nHeight (blk_rdpos latest)) randomList random;
  Ret (createNewValidBlock (chainTxs mempool) creator.2 (blk_hash latest)
    (Z.max now (blk_timestamp latest)) (wrap 64 (b_nHeight (blk_rdpos latest) + 1)) creator.1).

Context (indexing order : bool) (notify : Block → M (State (V := V)) unit) (fuel : nat).

(** Processing the new block and what is checked afterwards. *)
Definition submit_block (chainId : Z) (b : FinalizedBlock) : M (State (V := V)) unit :=
  st ← tryProcessNextBlock chainId indexing order notify fuel (block_of b);
  throw_if (bool_decide (st ≠ valid)) (DynamicException "Block is not valid!") ;;
  blocks ← gets s_blocks;
  match blocks with
  | [] => throw undefined_behaviour
  | latest :: _ => throw_if (negb (blk_hash latest =? hash_ b)) (DynamicException "Block is not valid!")
  end.

(** What a turn meets: the random numbers, the clock, and what the other threads
    do before the second read, before the mempool is read (which waits for a
    transaction) and before the block is processed. *)
Record Turn := mkTurn {
  t_random : nat → Hash;
  t_now : Z;
  t_others : State (V := V) → State (V := V);
  t_waiting : State (V := V) → State (V := V);
  t_racing : State (V := V) → State (V := V);
}.

Definition validator_turn (o : ValidatorOptions) (t : Turn) : M (State (V := V)) FinalizedBlock :=
  blocks ← gets s_blocks;
  match blocks with
  | [] => throw undefined_behaviour
  | latest :: _ =>
      modify (t_others t) ;;
      randomList ← gets (λ s, randomList_ (rdpos_ s));
      modify (t_waiting t) ;;
      mempool ← gets getMempool;
      b ← lift (validator_block o latest randomList mempool (t_now t) (t_random t));
      modify (t_racing t) ;;
      submit_block (o_chainID o) b ;;
      mret b
  end.

(** The loop, for the turns until the node stops; an exception ends it for good
    (it stays in the future of the thread).  The result is the blocks made. *)
Fixpoint validator_turns (o : ValidatorOptions) (turns : list Turn) : M (State (V := V)) (list FinalizedBlock) :=
  match turns with
  | [] => mret []
  | t :: turns => b ← validator_turn o t; bs ← validator_turns o turns; mret (b :: bs)
  end.
Definition validatorLoop (o : ValidatorOptions) (turns : list Turn) : M (State (V := V)) (list FinalizedBlock) :=
  match o_extraValidators o with
  | [] => mret []
  | _ => validator_turns o turns
  end.
End consensus.

(** ** Keys *)

Section keys.
Context {BI : BoostInt} {EC : Secp256k1} {WK : Walk}.

Lemma key_of_lookup (m : gmap Address Z) v : key_of m v = m !! v.
Proof.
  unfold key_of. destruct (list_find _ _) as [[i [v' key]]|] eqn:E.
  - apply list_find_Some in E as (Hl & <- & _). apply list_elem_of_lookup_2, elem_of_walk in Hl. done.
  - apply list_find_None in E. destruct (m !! v) as [key|] eqn:Hm; [|done].
    apply elem_of_walk in Hm. rewrite Forall_forall in E. by destruct (E _ Hm).
Qed.

(** The key kept for an address is a key of that address. *)
Lemma own_address o v key : own_validators o !! v = Some key → address_of key = v.
Proof.
  unfold own_validators. generalize (o_extraValidators o) as l.
  assert (H0 : ∀ v key, ({[address_of (o_validatorPrivKey o) := o_validatorPrivKey o]} : gmap Address Z) !! v = Some key → address_of key = v)
    by (intros ??; rewrite lookup_singleton_Some; naive_solver).
  revert v key H0. generalize ({[address_of (o_validatorPrivKey o) := o_validatorPrivKey o]} : gmap Address Z) as m.
  intros m v key Hm l. revert m Hm. induction l as [|k l IH]; intros m Hm; cbn; [apply Hm|].
  apply IH. intros w q. unfold insert_new. destruct (m !! address_of k); [apply Hm|].
  rewrite lookup_insert_Some. intros [[<- <-]|[_ ?]]; [done|by apply Hm].
Qed.

(** What signing with a key of the node gives: a signature the verification
    accepts and from which the key's public key is recovered. *)
Definition signs (key : Z) : Prop :=
  toUPub key ≠ 0 ∧ ∀ h, recover (sign h key) h = toUPub key ∧
    verifySig (be_value (subspan 0 32 (sign h key))) (be_value (subspan 32 32 (sign h key))) (nth 64 (sign h key) 0) = true.

Lemma make_signed key data chainId nHeight : signs key →
  ∃ tx, TxValidator_make (address_of key) data chainId nHeight key = Ret tx ∧
    tv_from tx = address_of key ∧ tv_data tx = data ∧ tv_nHeight tx = nHeight.
Proof.
  intros [_ Hs]. unfold TxValidator_make. rewrite Z.eqb_refl. cbn [negb].
  destruct (Hs (keccak256 (TxValidator_rlpSerialize false (mkTxValidator (address_of key) data chainId nHeight 0 0 0 0)))) as [Hr Hv].
  rewrite Hv, Hr, Z.eqb_refl. cbn [negb]. eexists. split; [reflexivity|done].
Qed.
End keys.

(** ** The block of a turn *)

Section turn.
Context {BI : BoostInt} {EC : Secp256k1} {WK : Walk} {V T : Type} {SV : SafeVar V T} {VO : VarOps V T} {EX : Externals}.

(** The node has the keys of the creator and of the signers of the round. *)
Definition holds_round (o : ValidatorOptions) (randomList : list Address) : Prop :=
  ∀ j, (j <= o_minValidators o)%nat → ∃ v key, randomList !! j = Some v ∧ own_validators o !! v = Some key ∧ signs key ∧ key ≠ 0.

Lemma signers_run validators randomList n : ∀ i,
  (∀ j, (i <= j < i + n)%nat → ∃ v key, randomList !! (j + 1)%nat = Some v ∧ validators !! v = Some key) →
  ∃ keys, validatorsToSign validators randomList n i = Ret keys ∧ length keys = n ∧
    ∀ j key, keys !! j = Some key → ∃ v, randomList !! (i + j + 1)%nat = Some v ∧ validators !! v = Some key.
Proof.
  induction n as [|n IH]; intros i Hk; cbn [validatorsToSign]; [by exists []|].
  destruct (Hk i) as (v & key & Hv & Hkey); [lia|]. unfold index. rewrite Hv. cbn [mbind outcome_bind].
  destruct (IH (S i)) as (keys & -> & Hl & Hks); [intros j Hj; apply Hk; lia|]. cbn [mbind outcome_bind].
  rewrite key_of_lookup, Hkey. exists (key :: keys). split_and!; [done|cbn; lia|].
  intros [|j] k; cbn; [intros [= <-]; exists v; by rewrite Nat.add_0_r|]. intros Hj.
  destruct (Hks j k Hj) as (w & Hw & ?). exists w. split; [|done]. by replace (i + S j + 1)%nat with (S i + j + 1)%nat by lia.
Qed.

(** The pair of transactions [key] signs in round [i]. *)
Definition made (nHeight : Z) (random : Hash) (key : Z) (h s : TxValidator) : Prop :=
  tv_from h = address_of key ∧ tv_from s = address_of key ∧ tv_nHeight h = nHeight ∧ tv_nHeight s = nHeight ∧
  tv_data h = commit_data random ∧ tv_data s = reveal_data random.
Lemma make_run chainId nHeight random keys : ∀ i, Forall signs keys →
  ∃ hs ss, make_txs chainId nHeight random i keys = Ret (hs, ss) ∧ length hs = length keys ∧ length ss = length keys ∧
    ∀ j key, keys !! j = Some key → ∃ h s, hs !! j = Some h ∧ ss !! j = Some s ∧ made nHeight (random (i + j)%nat) key h s.
Proof.
  induction keys as [|key keys IH]; intros i Hs; cbn [make_txs]; [by exists [], []|].
  apply Forall_cons in Hs as [Hk Hs].
  destruct (make_signed key (commit_data (random i)) chainId nHeight Hk) as (h & -> & ? & ? & ?).
  destruct (make_signed key (reveal_data (random i)) chainId nHeight Hk) as (s & Es & ? & ? & ?).
  cbn [mbind outcome_bind]. rewrite Es. cbn [mbind outcome_bind].
  destruct (IH (S i) Hs) as (hs & ss & -> & Hlh & Hls & Hj). cbn.
  exists (h :: hs), (s :: ss). split_and!; [done|cbn; lia|cbn; lia|].
  intros [|j] k; cbn; [intros [= <-]; exists h, s; by rewrite Nat.add_0_r|].
  intros Hk'. destruct (Hj j k Hk') as (h' & s' & ? & ? & Hm). exists h', s'. split_and!; [done|done|].
  by replace (i + S j)%nat with (S i + j)%nat by lia.
Qed.

Lemma check_order_run min randomList txs n : ∀ i, (n + i = min)%nat →
  (∀ j, (i <= j < min)%nat → signer_ok min randomList txs j) → check_order n i min randomList txs = Ret ().
Proof.
  induction n as [|n IH]; intros i Hn Ho; cbn [check_order]; [done|].
  destruct (Ho i) as (h & s & v & Hh & Hs & Hv & Eh & Es); [lia|]. unfold index. rewrite Hh, Hv. cbn [mbind outcome_bind].
  rewrite Eh, Z.eqb_refl. cbn [negb]. rewrite Hs. cbn [mbind outcome_bind]. rewrite Es, Z.eqb_refl. cbn [negb].
  apply IH; [lia|]. intros j Hj. apply Ho. lia.
Qed.

Lemma commit_function tx r : tv_data tx = commit_data r → getTxValidatorFunction tx = RANDOMHASH ∧ drop 4 (tv_data tx) = be_bytes 32 (sha3 (be_bytes 32 r)).
Proof.
  intros E. unfold getTxValidatorFunction, getFunctor. rewrite E. unfold commit_data. rewrite length_app, be_bytes_length.
  split; [|by rewrite drop_app_length']. rewrite decide_False by (cbn; lia). rewrite decide_False by (cbn; lia).
  by rewrite take_app_length'.
Qed.
Lemma reveal_function tx r : tv_data tx = reveal_data r → getTxValidatorFunction tx = RANDOMSEED ∧ drop 4 (tv_data tx) = be_bytes 32 r.
Proof.
  intros E. unfold getTxValidatorFunction, getFunctor. rewrite E. unfold reveal_data. rewrite length_app, be_bytes_length.
  split; [|by rewrite drop_app_length']. rewrite decide_False by (cbn; lia). rewrite decide_False by (cbn; lia).
  by rewrite take_app_length'.
Qed.

(** The transactions of the turn follow the rules of rdPoS. *)
Lemma validator_txs_run (o : ValidatorOptions) latestHeight randomList (random : nat → Hash) :
  holds_round o randomList → (∀ l, in_range 256 (sha3 l)) →
  ∃ first key hs ss, validator_txs o latestHeight randomList random = Ret (key, hs ++ ss) ∧
    randomList !! 0%nat = Some first ∧ address_of key = first ∧ signs key ∧
    length hs = o_minValidators o ∧ length ss = o_minValidators o ∧
    (∀ tx, tx ∈ hs ++ ss → tv_nHeight tx = wrap 64 (latestHeight + 1)) ∧
    ∀ j, (j < o_minValidators o)%nat → ∃ h s v,
      (hs ++ ss) !! j = Some h ∧ (hs ++ ss) !! (j + o_minValidators o)%nat = Some s ∧
      randomList !! (j + 1)%nat = Some v ∧ reveals sha3 v h s.
Proof.
  intros Hr Hsha. set (min := o_minValidators o) in *. set (H := wrap 64 (latestHeight + 1)).
  destruct (Hr 0%nat) as (first & key & Hf & Hkey & Hsig & Hnz); [lia|].
  destruct (signers_run (own_validators o) randomList min 0) as (keys & Ek & Hlk & Hks).
  { intros j Hj. destruct (Hr (j + 1)%nat) as (v & k & ? & ? & _); [lia|]. eauto. }
  assert (Hall : Forall signs keys).
  { apply Forall_lookup_2. intros j k Hk. destruct (Hks j k Hk) as (v & Hv & Hm).
    destruct (Hr (j + 1)%nat) as (v' & k' & Hv' & Hm' & ? & _); [apply lookup_lt_Some in Hk; lia|].
    cbn in Hv. rewrite Hv in Hv'. injection Hv' as <-. rewrite Hm in Hm'. by injection Hm' as <-. }
  destruct (make_run (o_chainID o) H random keys 0 Hall) as (hs & ss & Em & Hlh & Hls & Hm).
  assert (Hpair : ∀ j, (j < min)%nat → ∃ h s v, (hs ++ ss) !! j = Some h ∧ (hs ++ ss) !! (j + min)%nat = Some s ∧
    randomList !! (j + 1)%nat = Some v ∧ reveals sha3 v h s).
  { intros j Hj. destruct (lookup_lt_is_Some_2 keys j) as [k Hk]; [lia|].
    destruct (Hks j k Hk) as (v & Hv & Hmv). destruct (Hm j k Hk) as (h & s & Hh & Hs & Efh & Efs & _ & _ & Edh & Eds).
    exists h, s, v. split_and!; [by rewrite lookup_app_l by lia| |exact Hv|].
    { rewrite lookup_app_r by lia. by replace (j + min - length hs)%nat with j by lia. }
    destruct (commit_function h _ Edh) as [Fh Dh]. destruct (reveal_function s _ Eds) as [Fs Ds].
    pose proof (own_address _ _ _ Hmv) as Ea. repeat split; [congruence..|].
    rewrite Dh, Ds, be_value_bytes by apply Hsha. done. }
  exists first, key, hs, ss. split_and!; [|done|by apply (own_address o)|done|lia|lia| |exact Hpair].
  - unfold validator_txs. unfold index. rewrite Hf. cbn [mbind outcome_bind]. rewrite key_of_lookup, Hkey. change (default 0 (Some key)) with key. cbv zeta.
    rewrite (proj2 (Z.eqb_neq _ 0) Hnz). destruct (Nat.leb_spec (length randomList) (o_minValidators o)) as [Hle|_].
    { destruct (Hr min) as (v & _ & Hv & _); [lia|]. apply lookup_lt_Some in Hv. fold min in Hle. lia. }
    fold min. rewrite Ek. cbn [mbind outcome_bind]. rewrite Hlk, Nat.eqb_refl. cbn [negb]. fold H. rewrite Em. cbn [mbind outcome_bind fst snd].
    rewrite length_app. replace (length hs + length ss =? min * 2)%nat with true by (symmetry; apply Nat.eqb_eq; lia). cbn [negb].
    rewrite check_order_run; [done|lia|]. intros j [_ Hj]. destruct (Hpair j Hj) as (h & s & v & ? & ? & ? & ? & ? & _).
    by exists h, s, v.
  - assert (Hin : ∀ (l : list TxValidator) j tx, l = hs ∨ l = ss → l !! j = Some tx → tv_nHeight tx = H).
    { intros l j tx Hl Hj. destruct (lookup_lt_is_Some_2 keys j) as [k Hk]; [apply lookup_lt_Some in Hj; destruct Hl; subst; lia|].
      destruct (Hm j k Hk) as (h & s & Hh & Hs & _ & _ & ? & ? & _). destruct Hl as [-> | ->]; congruence. }
    intros tx [[j Hj]%list_elem_of_lookup|[j Hj]%list_elem_of_lookup]%elem_of_app;
      [apply (Hin hs j)|apply (Hin ss j)]; auto.
Qed.

(** ** The transactions of the block *)

Lemma add_all_best (l : list TxBlock) : ∀ m : gmap Address TxBlock,
  (∀ a tx, m !! a = Some tx → tx_from tx = a) →
  let m' := foldl add_best m l in
  (∀ a tx, m' !! a = Some tx → tx_from tx = a ∧ (tx ∈ l ∨ m !! a = Some tx)) ∧
  (∀ tx, tx ∈ l ∨ m !! tx_from tx = Some tx → ∃ t, m' !! tx_from tx = Some t ∧ tx_maxFeePerGas tx <= tx_maxFeePerGas t).
Proof.
  induction l as [|x l IH]; intros m Hm; cbn [foldl].
  { split; [intros a tx Ha; split; [by apply Hm|by right]|]. intros tx [Hin|Ha]; [by apply not_elem_of_nil in Hin|]. exists tx. split; [done|lia]. }
  assert (Hstep : (∀ a tx, add_best m x !! a = Some tx → tx_from tx = a ∧ (tx = x ∨ m !! a = Some tx)) ∧
    (∀ tx, tx = x ∨ m !! tx_from tx = Some tx → ∃ t, add_best m x !! tx_from tx = Some t ∧ tx_maxFeePerGas tx <= tx_maxFeePerGas t)).
  { unfold add_best. destruct (m !! tx_from x) as [t|] eqn:Ex; [destruct (Z.ltb_spec (tx_maxFeePerGas t) (tx_maxFeePerGas x))|].
    - split; [intros a tx; rewrite lookup_insert_Some; intros [[<- <-]|[_ Ha]]; [by auto|]; split; [by apply Hm|by right]|].
      intros tx [-> |Ha]; [rewrite lookup_insert_eq; eauto using Z.le_refl|].
      destruct (decide (tx_from x = tx_from tx)) as [E|E]; [rewrite <- E, lookup_insert_eq; rewrite E in Ex; exists x; split; [done|]; assert (t = tx) by congruence; subst; lia|].
      rewrite lookup_insert_ne by done. eauto using Z.le_refl.
    - split; [intros a tx Ha; split; [by apply Hm|by right]|]. intros tx [-> |Ha]; [exists t; split; [done|lia]|]. eauto using Z.le_refl.
    - split; [intros a tx; rewrite lookup_insert_Some; intros [[<- <-]|[_ Ha]]; [by auto|]; split; [by apply Hm|by right]|].
      intros tx [-> |Ha]; [rewrite lookup_insert_eq; eauto using Z.le_refl|].
      rewrite lookup_insert_ne by congruence. eauto using Z.le_refl. }
  destruct Hstep as [Hs1 Hs2]. destruct (IH (add_best m x)) as [H1 H2]; [intros a tx Ha; by apply Hs1|]. split.
  - intros a tx Ha. destruct (H1 a tx Ha) as [Hf [Hin|Hin]]; (split; [done|]); [left; by apply elem_of_cons; right|].
    destruct (Hs1 a tx Hin) as [_ [-> |?]]; [left; by apply elem_of_cons; left|by right].
  - intros tx Hin. assert (Hor : tx ∈ l ∨ (tx = x ∨ m !! tx_from tx = Some tx)) by (destruct Hin as [[?|?]%elem_of_cons|?]; auto).
    destruct Hor as [Hl|Hor]; [by apply H2; left|]. destruct (Hs2 tx Hor) as (t & Ht & Hle).
    destruct (Hs1 _ _ Ht) as [Hft _]. destruct (H2 t) as (t' & Ht' & Hle'); [right; by rewrite Hft|]. rewrite Hft in Ht'.
    exists t'. split; [done|lia].
Qed.

(** One transaction of every sender of the mempool, with the greatest fee. *)
Lemma chainTxs_spec (l : list TxBlock) :
  (∀ tx, tx ∈ chainTxs l → tx ∈ l) ∧ NoDup (tx_from <$> chainTxs l) ∧
  ∀ tx, tx ∈ l → ∃ t, t ∈ chainTxs l ∧ tx_from t = tx_from tx ∧ tx_maxFeePerGas tx <= tx_maxFeePerGas t.
Proof.
  destruct (add_all_best l ∅) as [H1 H2]; [intros a tx; by rewrite lookup_empty|]. unfold chainTxs. set (m := foldl add_best ∅ l) in *.
  assert (Hin : ∀ tx, tx ∈ (walk m).*2 ↔ m !! tx_from tx = Some tx).
  { intros tx. rewrite list_elem_of_fmap. split.
    - intros ([a t] & -> & Ha%elem_of_walk). cbn. by destruct (H1 _ _ Ha) as [-> _].
    - intros Ha. exists (tx_from tx, tx). split; [done|]. by apply elem_of_walk. }
  split_and!.
  - intros tx Ht%Hin. destruct (H1 _ _ Ht) as [_ [?|Hm]]; [done|]. by rewrite lookup_empty in Hm.
  - assert (E : tx_from <$> (walk m).*2 = (walk m).*1).
    { rewrite <- list_fmap_compose. apply list_fmap_ext. intros i [a t] Hi. cbn.
      apply list_elem_of_lookup_2, elem_of_walk in Hi. by destruct (H1 _ _ Hi). }
    rewrite E. rewrite (fmap_Permutation fst _ _ (walk_perm m)). apply NoDup_fst_map_to_list.
  - intros tx Hl. destruct (H2 tx) as (t & Ht & Hle); [by left|]. destruct (H1 _ _ Ht) as [Ef _]. exists t. split_and!; [apply Hin; by rewrite Ef|done|done].
Qed.

(** ** What other threads do between the reads of a turn *)

(** Transactions arrive; no block is processed. *)
Inductive quiet_step : State (V := V) → State (V := V) → Prop :=
| quiet_tx tx s : quiet_step s (addTx tx s).2
| quiet_validator_tx tx s : quiet_step s (addValidatorTx_state tx s).2.

(** Every transaction is in the mempool under its hash. *)
Definition keyed (s : State (V := V)) : Prop := ∀ k tx, mempool_ s !! k = Some tx → k = tx_hash tx.

(** What quiet steps keep. *)
Record kept (s s' : State (V := V)) : Prop := mkKept {
  kept_blocks : s_blocks s' = s_blocks s;
  kept_list : randomList_ (rdpos_ s') = randomList_ (rdpos_ s);
  kept_min : minValidators_ (rdpos_ s') = minValidators_ (rdpos_ s);
  kept_mempool : mempool_ s ⊆ mempool_ s';
  kept_keyed : keyed s → keyed s';
}.
#[export] Instance kept_preorder : PreOrder kept.
Proof.
  split; [done|]. intros s1 s2 s3 [] []. constructor; try congruence; [by etrans|auto].
Qed.

Lemma quiet_step_kept s s' : quiet_step s s' → kept s s'.
Proof.
  intros [tx s1|tx s1].
  - assert (H : (addTx tx s1).2 = s1 ∨ (mempool_ s1 !! tx_hash tx = None ∧ (addTx tx s1).2 = with_mempool (<[tx_hash tx := tx]> (mempool_ s1)) s1)).
    { unfold addTx, gets, lift, modify, mbind, M_bind, id. destruct (validateTransactionInternal tx s1) as [st|e]; [|by left].
      destruct (decide (st ≠ ValidNew)); [by left|]. cbn. destruct (mempool_ s1 !! tx_hash tx) eqn:E; [left; by destruct s1|by right]. }
    destruct H as [-> |[Hn ->]]; [done|]. constructor; cbn; try done; [by apply insert_subseteq|].
    intros Hk k t. cbn. rewrite lookup_insert_Some. intros [[<- <-]|[_ ?]]; [done|by apply Hk].
  - unfold addValidatorTx_state, gets, zoom, mbind, M_bind, addValidatorTx, id. cbn.
    repeat case_match; simplify_eq; cbn; done.
Qed.
Lemma quiet_kept s s' : rtc quiet_step s s' → kept s s'.
Proof. induction 1 as [|s1 s2 s3 H _ IH]; [done|]. etrans; [by apply quiet_step_kept|done]. Qed.

Lemma mempool_valid tx (s : State (V := V)) : mempool_ s !! tx_hash tx = Some tx →
  validateTransactionInternal tx s = Ret ValidExisting.
Proof. intros H. unfold validateTransactionInternal. by rewrite H. Qed.
End turn.

(** ** The properties of the validator *)

(** C8: a node that holds the keys of the round makes a valid block.  Whatever
    transactions arrive between the moments at which a turn of the validator loop
    reads the chain, the random list and the mempool and submits the block, the
    turn makes a block, the block passes the validation of the state it meets, and
    its transactions are, for every sender of the mempool, one of those with the
    greatest fee. *)
Theorem own_block_valid {BI : BoostInt} {EC : Secp256k1} {WK : Walk} {V T : Type} {SV : SafeVar V T} {VO : VarOps V T} {EX : Externals}
    (o : ValidatorOptions) (now : Z) (random : nat → Hash) (latest : Block) (rest : list Block) (s0 s1 s2 s3 : State (V := V)) :
  rtc quiet_step s0 s1 → rtc quiet_step s1 s2 → rtc quiet_step s2 s3 →
  s_blocks s0 = latest :: rest → keyed s0 → minValidators_ (rdpos_ s0) = o_minValidators o →
  holds_round o (randomList_ (rdpos_ s0)) → (∀ l, in_range 256 (sha3 l)) →
  0 <= b_nHeight (blk_rdpos latest) < 2 ^ 64 - 1 →
  (∀ key txs, validator_txs o (b_nHeight (blk_rdpos latest)) (randomList_ (rdpos_ s0)) random = Ret (key, txs) →
     NoDup (map tv_hash (take (o_minValidators o) txs))) →
  ∃ b, validator_block o latest (randomList_ (rdpos_ s1)) (getMempool s2) now random = Ret b ∧
    validateNextBlockInternal (block_of b) s3 = Ret valid ∧
    NoDup (tx_from <$> txs_ b) ∧ (∀ tx, tx ∈ txs_ b → mempool_ s2 !! tx_hash tx = Some tx) ∧
    ∀ k tx, mempool_ s2 !! k = Some tx →
      ∃ t, t ∈ txs_ b ∧ tx_from t = tx_from tx ∧ tx_maxFeePerGas tx <= tx_maxFeePerGas t.
Proof.
  intros Q1 Q2 Q3 Hb Hk Hmin Hr Hsha Hh Hnd. apply quiet_kept in Q1, Q2, Q3.
  assert (K2 : kept s0 s2) by (by etrans). assert (K3 : kept s0 s3) by (by etrans).
  destruct (validator_txs_run o (b_nHeight (blk_rdpos latest)) (randomList_ (rdpos_ s0)) random Hr Hsha)
    as (first & key & hs & ss & Et & Hf & Ha & [_ Hsig] & Hlh & Hls & Hheights & Hpairs).
  destruct (chainTxs_spec (getMempool s2)) as (Hsub & Hone & Hbest).
  assert (Hin : ∀ tx, tx ∈ getMempool s2 ↔ mempool_ s2 !! tx_hash tx = Some tx).
  { intros tx. unfold getMempool. rewrite list_elem_of_fmap. split.
    - intros ([k t] & -> & Hkt%elem_of_walk). cbn. by rewrite <- (kept_keyed _ _ K2 Hk _ _ Hkt).
    - intros Ht. exists (tx_hash tx, tx). split; [done|by apply elem_of_walk]. }
  unfold validator_block. rewrite (kept_list _ _ Q1), Et. cbn [mbind outcome_bind fst snd]. eexists. split; [reflexivity|].
  split_and!; cbn [txs_ createNewValidBlock]; [|done|by intros tx Ht%Hsub%Hin|].
  2: { intros k tx Htx. pose proof (kept_keyed _ _ K2 Hk _ _ Htx) as ->. by apply Hbest, Hin. }
  unfold validateNextBlockInternal. rewrite (kept_blocks _ _ K3), Hb. cbn [block_of blk_rdpos b_nHeight blk_prevHash blk_timestamp blk_txs createNewValidBlock nHeight_ prevBlockHash_ timestamp_ txs_].
  rewrite wrap_id by (unfold in_range; lia). rewrite !Z.eqb_refl. cbn [negb].
  rewrite (proj2 (Z.ltb_ge _ _)) by lia.
  match goal with |- context [validateBlock sha3 ?x ?y] => destruct (validateBlock_returns sha3 x y) as (v & -> & Hv) end.
  { rewrite (kept_list _ _ K3), (kept_min _ _ K3), Hmin. destruct (Hr (o_minValidators o)) as (w & _ & Hw & _); [lia|]. by apply lookup_lt_Some in Hw. }
  cbn [mbind outcome_bind]. replace v with true.
  2: { symmetry. apply Hv. unfold block_ok. rewrite (kept_list _ _ K3), (kept_min _ _ K3), Hmin. cbn [b_validator b_txValidators b_nHeight validatorPubKey_ txValidators_ createNewValidBlock].
    split_and!; [|rewrite length_app; lia| |exact Hpairs|by apply (Hnd key)].
    - destruct (Hsig (keccak256 (header (blk_hash latest) (parseTxSeedList keccak256 (hs ++ ss))
        (Merkle.getRoot (Merkle.Merkle keccak256 (tv_hash <$> hs ++ ss))) (Merkle.getRoot (Merkle.Merkle keccak256 (tx_hash <$> chainTxs (getMempool s2))))
        (Z.max now (blk_timestamp latest)) (b_nHeight (blk_rdpos latest) + 1)))) as [Hrec _].
      rewrite Hrec. unfold address_of in Ha. by rewrite Ha.
    - intros tx Htx. by rewrite Hheights, wrap_id by (done || unfold in_range; lia). }
  cbn [negb]. destruct (all_txs_valid_spec (chainTxs (getMempool s2)) s3) as (w & -> & Hw).
  { intros tx Ht%Hsub%Hin. exists ValidExisting. apply mempool_valid. by apply (lookup_weaken _ _ _ _ Ht), (kept_mempool _ _ Q3). }
  cbn [mbind outcome_bind]. replace w with true; [done|]. symmetry. apply Hw.
  intros tx Ht%Hsub%Hin. exists ValidExisting. split; [|done]. apply mempool_valid. by apply (lookup_weaken _ _ _ _ Ht), (kept_mempool _ _ Q3).
Qed.

(** A validator that loses a race stops for good.  When another block was
    processed between the start of a turn and the submission of its own block, as
    happens when one arrives by broadcast, the loop ends with an exception: the
    thread keeps it in its future and makes no more blocks. *)
Theorem lost_race_ends_loop {BI : BoostInt} {EC : Secp256k1} {WK : Walk} {V T : Type} {SV : SafeVar V T} {VO : VarOps V T} {EX : Externals}
    (indexing order : bool) (notify : Block → M (State (V := V)) unit) (fuel : nat)
    (o : ValidatorOptions) (t : Turn) (turns : list Turn) (latest latest' : Block) (rest rest' : list Block) (b : FinalizedBlock) (s : State (V := V)) :
  let s2 := t_waiting t (t_others t s) in
  o_extraValidators o ≠ [] → s_blocks s = latest :: rest → 0 <= b_nHeight (blk_rdpos latest) < 2 ^ 64 - 1 →
  validator_block o latest (randomList_ (rdpos_ (t_others t s))) (getMempool s2) (t_now t) (t_random t) = Ret b →
  s_blocks (t_racing t s2) = latest' :: rest' → b_nHeight (blk_rdpos latest) < b_nHeight (blk_rdpos latest') →
  validatorLoop indexing order notify fuel o (t :: turns) s = (Throw (DynamicException "Block is not valid!"), t_racing t s2).
Proof.
  intros s2 Ho Hb Hh Hblk Hb' Hlt. unfold validatorLoop. destruct (o_extraValidators o); [done|]. cbn [validator_turns].
  assert (E : validator_turn indexing order notify fuel o t s = (Throw (DynamicException "Block is not valid!"), t_racing t s2)).
  { unfold validator_turn. erewrite bind_run by reflexivity. rewrite Hb. erewrite bind_run by reflexivity.
    erewrite bind_run by reflexivity. erewrite bind_run by reflexivity. erewrite bind_run by reflexivity.
    fold s2. erewrite bind_run by (unfold lift; by rewrite Hblk). erewrite bind_run by reflexivity.
    assert (Hn : nHeight_ b = b_nHeight (blk_rdpos latest) + 1).
    { unfold validator_block in Hblk. destruct (validator_txs _ _ _ _) as [creator|]; [|done]. cbn [mbind outcome_bind] in Hblk.
      injection Hblk as <-. cbn [nHeight_ createNewValidBlock]. by rewrite wrap_id by (unfold in_range; lia). }
    assert (Ev : validateNextBlockInternal (block_of b) (t_racing t s2) = Ret invalidWrongHeight).
    { unfold validateNextBlockInternal. rewrite Hb'. cbn [block_of blk_rdpos b_nHeight]. rewrite Hn, (proj2 (Z.eqb_neq _ _)) by lia. done. }
    assert (Es : submit_block indexing order notify fuel (o_chainID o) b (t_racing t s2) = (Throw (DynamicException "Block is not valid!"), t_racing t s2)).
    { unfold submit_block, tryProcessNextBlock, mbind, M_bind, gets, lift. cbn. by rewrite Ev. }
    unfold mbind, M_bind. by rewrite Es. }
  unfold mbind, M_bind. by rewrite E.
Qed.

(** ** A concrete validator *)

(** A toy signature scheme in which every key is its own address. *)
#[refine] Definition plain_ec : Secp256k1 := {|
  keccak256 l := be_value l mod 2 ^ 256;
  recover sig _ := be_value (take 32 sig);
  toUPub k := k;
  toAddress k := k;
  sign _ k := be_bytes 32 k ++ be_bytes 32 1 ++ [1]
|}.
Proof.
  - intros l. apply Z.mod_pos_bound. lia.
  - intros. by rewrite !length_app, !be_bytes_length.
  - intros. apply Forall_app. split; [apply be_bytes_is_byte|]. apply Forall_app. split; [apply be_bytes_is_byte|by apply Forall_singleton].
Defined.

Section demo.
#[local] Existing Instance boost_ref.
#[local] Existing Instance demo.
#[local] Existing Instance plain_ec.

Definition demo_options : ValidatorOptions := mkValidatorOptions 1 1 [2] 1.
Definition one_more : State (V := AnyVar) := (addTx (demo_tx 70 50 10 0 []) demo_state).2.

Lemma demo_signs key : 0 < key < 2 ^ 200 → signs key.
Proof.
  intros Hk. split; [cbn; lia|]. intros h.
  assert (Hv : be_value (be_bytes 32 key) = key) by (apply be_value_bytes; unfold in_range; lia). split.
  - cbn [recover sign plain_ec toUPub]. by rewrite take_app_length' by (by rewrite be_bytes_length).
  - unfold sign, plain_ec, subspan. rewrite drop_0, take_app_length', drop_app_length' by (by rewrite be_bytes_length).
    rewrite take_app_length' by (by rewrite be_bytes_length). rewrite Hv. rewrite (be_value_bytes 32 1) by (unfold in_range; lia).
    replace (nth 64 _ 0) with 1 by (rewrite !app_nth2; rewrite ?be_bytes_length; [reflexivity|lia..]).
    unfold verifySig, ecConst. rewrite !andb_true_iff, !Z.ltb_lt, Z.leb_le. lia.
Qed.
Lemma demo_round : holds_round demo_options (randomList_ (rdpos_ demo_state)).
Proof.
  intros [|[|j]] Hj; [exists 1, 1|exists 2, 2|cbn in Hj; lia]; (split_and!; [reflexivity|reflexivity|by apply demo_signs|done]).
Qed.
Lemma demo_keyed : keyed demo_state.
Proof. intros k tx. cbn. rewrite lookup_singleton_Some. by intros [<- <-]. Qed.

Lemma own_block_valid_witness : ∃ b,
  validator_block demo_options (mkBlock 1000 999 10 (mkBlockRdPoS 4 1 [] 0) []) [1; 2] (getMempool one_more) 12 (λ _, 9) = Ret b ∧
  validateNextBlockInternal (block_of b) one_more = Ret valid ∧ NoDup (tx_from <$> txs_ b).
Proof.
  destruct (own_block_valid demo_options 12 (λ _, 9) (mkBlock 1000 999 10 (mkBlockRdPoS 4 1 [] 0) []) [] demo_state demo_state one_more one_more)
    as (b & E & Ev & Hn & _).
  - apply rtc_refl.
  - apply rtc_once, (quiet_tx (demo_tx 70 50 10 0 []) demo_state).
  - apply rtc_refl.
  - reflexivity.
  - apply demo_keyed.
  - reflexivity.
  - apply demo_round.
  - intros l. apply Z.mod_pos_bound. lia.
  - cbn. lia.
  - intros key txs _. cbn [o_minValidators demo_options]. destruct txs; cbn; repeat constructor; set_solver.
  - exists b. split_and!; [exact E|exact Ev|exact Hn].
Defined.

(** A block of somebody else arrives before the own one is submitted. *)
Definition rival : Block := mkBlock 1001 1000 11 (mkBlockRdPoS 5 1 [demo_commit; demo_reveal] 3) [demo_tx 70 50 10 0 []].
Definition losing_turn : Turn (V := AnyVar) :=
  mkTurn (λ _, 9) 12 id id (λ s, (tryProcessNextBlock 1 true true (λ _, mret ()) 2 rival s).2).
Lemma lost_race_ends_loop_witness :
  (validatorLoop true true (λ _, mret ()) 2 demo_options [losing_turn] demo_state).1 = Throw (DynamicException "Block is not valid!").
Proof.
  assert (E : ∃ b, validator_block demo_options (mkBlock 1000 999 10 (mkBlockRdPoS 4 1 [] 0) []) [1; 2] (getMempool demo_state) 12 (λ _, 9) = Ret b)
    by (vm_compute; eexists; reflexivity).
  destruct E as [b E].
  assert (Er : s_blocks (t_racing losing_turn demo_state) = [rival; mkBlock 1000 999 10 (mkBlockRdPoS 4 1 [] 0) []]) by (vm_compute; reflexivity).
  pose proof (lost_race_ends_loop true true (λ _, mret ()) 2 demo_options losing_turn []
    (mkBlock 1000 999 10 (mkBlockRdPoS 4 1 [] 0) []) rival [] _ b demo_state ltac:(discriminate) eq_refl ltac:(cbn; lia) E Er ltac:(cbn; lia)) as H.
  by rewrite H.
Defined.
End demo.
