(* ===== verification/Sync.v ===== *)
(** * Catching up with the network

    Models how a node downloads blocks: the handler that serves them
    ([ManagerNormal::handleRequestBlockRequest]), the request ([requestBlock]), the
    initial synchronisation ([Syncer] in src/core/blockchain.cpp) and the pass of
    [Consensus::pullerLoop] that looks for new blocks and transactions.  The peers
    seen in a round, what they answer, the clock and the ids of requests are
    parameters; disconnecting a peer is only recorded. *)

From S2P Require Import Prelude CheckedInt SafeBase ExecutionContext Messages AnyVar ContractHost.
From S2P Require Import Bytes Tx RdPoS BaseContract FinalizedBlock DB Storage P2PEncoding State Restart Consensus.

(** ** Serving blocks *)

Section serving.
Context {BI : BoostInt} {EC : Secp256k1} {R : RocksDB}.
Variable thr : nat.

(** The loop over the heights; a block that exists but is not found would be a null
    pointer.  There is a block in every round but the last, so two more rounds
    than the latest height are enough fuel. *)
Fixpoint collect_blocks (fuel : nat) (heightToAdd heightEnd bytesLimit bytesSpent : Z) (s : Storage) : outcome (list FinalizedBlock) :=
  match fuel with
  | O => Throw undefined_behaviour
  | S fuel =>
      if heightEnd <? heightToAdd then Ret []
      else if negb (blockExists_height heightToAdd s) then Ret []
      else
        block ← getBlock_height thr heightToAdd s;
        match block with
        | None => Throw undefined_behaviour
        | Some b =>
            let bytesSpent := wrap 64 (bytesSpent + size_ b) in
            if bytesLimit <=? bytesSpent then Ret [b]
            else
              rest ← collect_blocks fuel (wrap 64 (heightToAdd + 1)) heightEnd bytesLimit bytesSpent s;
              Ret (b :: rest)
        end
  end.
(** The answer to a request. *)
Definition handleRequestBlockRequest (s : Storage) (message : list Z) : outcome (list Z) :=
  range ← dec_req_requestBlock message;
  let '(height, heightEnd, bytesLimit) := range in
  requestedBlocks ← collect_blocks (Z.to_nat (nHeight_ (latest_ s)) + 2) height heightEnd bytesLimit 0 s;
  ans_requestBlock message requestedBlocks.

(** ** Asking for blocks *)

(** [requestBlock]; [peer] is what sending the request comes to: no answer in time,
    or an answer.  An answer that cannot be read counts as empty. *)
Definition requestBlock (peer : list Z → option (list Z)) (id : list Z) (height heightEnd bytesLimit : Z) :
    outcome (list FinalizedBlock) :=
  request ← req_requestBlock id height heightEnd bytesLimit;
  match peer request with
  | None => Ret []
  | Some answer =>
      match dec_ans_requestBlock thr answer with
      | Throw undefined_behaviour => Throw undefined_behaviour
      | Throw _ => Ret []
      | Ret blocks => Ret blocks
      end
  end.
End serving.

Section sync.
Context {BI : BoostInt} {EC : Secp256k1} {WK : Walk} {V T : Type} {SV : SafeVar V T} {VO : VarOps V T} {EX : Externals}.
Context (thr : nat) (chainId : Z) (indexing order : bool) (notify : Block → M (State (V := V)) unit) (fuel : nat).

(** What a round meets: the peers and their information, what a request to a peer
    comes to, and the id of the request. *)
Record Round := mkRound {
  r_connected : gmap NodeID NodeInfo;
  r_peer : NodeID → list Z → option (list Z);
  r_id : list Z;
}.

(** The node and the variables of [Syncer::sync]. *)
Record SyncRun := mkSyncRun {
  y_state : State (V := V);
  y_waitForPeersSecs : Z;
  y_tries : Z;
  y_highestNode : NodeID * Z;
  y_disconnected : list NodeID;
}.
Definition with_y_state s y := mkSyncRun s (y_waitForPeersSecs y) (y_tries y) (y_highestNode y) (y_disconnected y).
Definition with_wait w y := mkSyncRun (y_state y) w (y_tries y) (y_highestNode y) (y_disconnected y).
Definition with_tries t y := mkSyncRun (y_state y) (y_waitForPeersSecs y) t (y_highestNode y) (y_disconnected y).
Definition with_highest h y := mkSyncRun (y_state y) (y_waitForPeersSecs y) (y_tries y) h (y_disconnected y).
Definition with_disconnected n y := mkSyncRun (y_state y) (y_waitForPeersSecs y) (y_tries y) (y_highestNode y) (y_disconnected y ++ [n]).

(** [if (nodeInfo.latestBlockHeight() > highestNode.second) highestNode = ...] *)
Definition higher (highestNode : NodeID * Z) (e : NodeID * NodeInfo) : NodeID * Z :=
  if highestNode.2 <? latestBlockHeight_ e.2 then (e.1, latestBlockHeight_ e.2) else highestNode.

(** The loop over the received blocks. *)
Fixpoint connect_blocks (blocks : list FinalizedBlock) (downloadNHeight : Z) : M (State (V := V)) unit :=
  match blocks with
  | [] => mret ()
  | b :: blocks =>
      throw_if (negb (nHeight_ b =? downloadNHeight)) (DynamicException "Peer sent block with wrong height") ;;
      processNextBlock chainId indexing order notify fuel (block_of b) ;;
      connect_blocks blocks (wrap 64 (downloadNHeight + 1))
  end.
(** The latest height, from a reference to the latest block. *)
Definition latest_height : M (State (V := V)) Z :=
  blocks ← gets s_blocks;
  match blocks with [] => throw undefined_behaviour | b :: _ => mret (b_nHeight (blk_rdpos b)) end.

(** [Syncer::syncLoop]; the result tells whether to go on. *)
Definition syncLoop (r : Round) (blocksPerRequest bytesPerRequestLimit : Z) : M SyncRun bool :=
  y ← gets (λ y : SyncRun, y);
  if decide (r_connected r = ∅) then
    modify (with_wait (y_waitForPeersSecs y - 1)) ;; mret (0 <? y_waitForPeersSecs y)
  else
    let highestNode := foldl higher (y_highestNode y) (walk (r_connected r)) in
    modify (with_highest highestNode) ;;
    currentNHeight ← zoom y_state with_y_state latest_height;
    if highestNode.2 <=? currentNHeight then mret false
    else
      let downloadNHeight := wrap 64 (currentNHeight + 1) in
      let downloadNHeightEnd := wrap 64 (downloadNHeight + blocksPerRequest - 1) in
      result ← lift (requestBlock thr (r_peer r highestNode.1) (r_id r) downloadNHeight downloadNHeightEnd bytesPerRequestLimit);
      match result with
      | [] =>
          let shouldRetry := 0 <? y_tries y in
          (if shouldRetry then modify (with_tries (y_tries y - 1)) else mret ()) ;;
          mret (negb (shouldRetry && (y_tries y - 1 =? 0)))
      | _ => λ y1,
          match zoom y_state with_y_state (connect_blocks result downloadNHeight) y1 with
          | (Throw undefined_behaviour, y2) => (Throw undefined_behaviour, y2)
          | (Throw _, y2) => (Ret true, with_disconnected highestNode.1 y2)
          | (Ret _, y2) => (Ret true, y2)
          end
      end.

(** The loop of [sync], for as many rounds as [n]: [Some true] is its result (it is
    never false), [None] that it is still running. *)
Fixpoint sync_rounds (n k : nat) (env : nat → Round) (blocksPerRequest bytesPerRequestLimit : Z) : M SyncRun (option bool) :=
  match n with
  | O => mret None
  | S n =>
      more ← syncLoop (env k) blocksPerRequest bytesPerRequestLimit;
      if (more : bool) then sync_rounds n (S k) env blocksPerRequest bytesPerRequestLimit else mret (Some true)
  end.
Definition sync (n : nat) (env : nat → Round) (blocksPerRequest bytesPerRequestLimit waitForPeersSecs tries : Z) (s : State) :
    outcome (option bool) * SyncRun :=
  let blocksPerRequest := if blocksPerRequest =? 0 then 1 else blocksPerRequest in
  sync_rounds n 0 env blocksPerRequest bytesPerRequestLimit (mkSyncRun s waitForPeersSecs tries (((V4 [0; 0; 0; 0]), 0), 0) []).

(** ** The puller *)

(** The loop over the blocks, until one throws; what becomes of each is ignored. *)
Definition try_blocks (blocks : list FinalizedBlock) : M (State (V := V)) unit :=
  for_each (λ b, tryProcessNextBlock chainId indexing order notify fuel (block_of b) ;; mret ()) blocks.
(** [try { m } catch (std::exception&) {}] *)
Definition swallow (m : M (State (V := V)) unit) : M (State (V := V)) unit := λ s,
  match m s with
  | (Throw undefined_behaviour, s') => (Throw undefined_behaviour, s')
  | (_, s') => (Ret (), s')
  end.
(** The part of a pass that syncs blocks; the exception is swallowed. *)
Definition pull_blocks (now : Z) (r : Round) : M (State (V := V)) unit :=
  blocks ← gets s_blocks;
  match blocks with
  | [] => throw undefined_behaviour
  | latestBlock :: _ =>
      let blockAge := wrap 64 (now - blk_timestamp latestBlock) in
      if negb (100000 <? blockAge) then mret ()
      else
        let highestNode := foldl higher (((V4 [0; 0; 0; 0]), 0), 0) (walk (r_connected r)) in
        let currentNHeight := b_nHeight (blk_rdpos latestBlock) in
        if highestNode.2 <=? currentNHeight then mret ()
        else
          let downloadNHeight := wrap 64 (currentNHeight + 1) in
          result ← lift (requestBlock thr (r_peer r highestNode.1) (r_id r) downloadNHeight (wrap 64 (downloadNHeight + 100 - 1)) 1000000);
          swallow (try_blocks result)
  end.
(** The transactions of an answer that arrived. *)
Definition pull_txs (txList : list TxBlock) : M (State (V := V)) unit :=
  for_each (λ tx, addTx tx ;; mret ()) txList.
End sync.

(** ** What a peer serves *)

Section served.
Context {BI : BoostInt} {EC : Secp256k1} {R : RocksDB}.
Context (thr thr' : nat) (indexed : bool) (bs : list FinalizedBlock) (ps : Storage).
Hypothesis Hchain : chain_ok bs.
Hypothesis Hserves : serves thr indexed bs ps.
Hypothesis Hlen : Z.of_nat (length bs) < 2 ^ 64.

(** The loop collects blocks from the first height on, at least one. *)
Lemma collect_run fuel : ∀ h e limit spent, 0 <= h → h <= Z.of_nat (length bs) → (length bs < fuel + Z.to_nat h)%nat →
  ∃ k, collect_blocks thr fuel h e limit spent ps = Ret (received <$> take k (drop (Z.to_nat h) bs)) ∧
    (h <= e → h < Z.of_nat (length bs) → (1 <= k)%nat).
Proof.
  destruct Hserves as (Hfound & Habsent & _).
  induction fuel as [|fuel IH]; intros h e limit spent Hh Hle Hfuel; [lia|]. cbn [collect_blocks].
  destruct (Z.ltb_spec e h); [exists 0%nat; split; [done|lia]|].
  destruct (decide (h < Z.of_nat (length bs))) as [Hin|Hout].
  - destruct (lookup_lt_is_Some_2 bs (Z.to_nat h)) as [b Hb]; [lia|].
    destruct (Hfound _ _ Hb) as (Hget & _ & Hex & _). rewrite Z2Nat.id in Hget, Hex by done. rewrite Hex, Hget. cbn [negb mbind outcome_bind].
    rewrite (drop_S _ _ _ Hb). destruct (limit <=? _); [exists 1%nat; split; [cbn; by rewrite take_0|lia]|].
    rewrite wrap_id by (unfold in_range; lia). destruct (IH (h + 1) e limit (wrap 64 (spent + size_ (received b)))) as (k & -> & _); [lia|lia|lia|].
    exists (S k). split; [|lia]. cbn. do 4 f_equal. by replace (Z.to_nat (h + 1)) with (S (Z.to_nat h)) by lia.
  - destruct (Habsent h) as [_ ->]; [unfold in_range; lia|lia|]. exists 0%nat. split; [done|lia].
Qed.

(** A peer that runs this program on the storage. *)
Definition honest (request : list Z) : option (list Z) :=
  match handleRequestBlockRequest thr ps request with Ret answer => Some answer | Throw _ => None end.

Lemma request_honest id h e limit :
  Z.of_nat (length bs) <= nHeight_ (latest_ ps) + 1 → length id = 8%nat → 0 <= h < Z.of_nat (length bs) → h <= e →
  in_range 64 e → in_range 64 limit →
  ∃ k, (1 <= k)%nat ∧ requestBlock thr' honest id h e limit = Ret (received <$> take k (drop (Z.to_nat h) bs)).
Proof.
  intros Hlat Hid Hh He Her Hlr. destruct (requestBlock_read id h e limit) as (m & Em & Dm); [done|unfold in_range; lia|done|done|].
  destruct (collect_run (Z.to_nat (nHeight_ (latest_ ps)) + 2) h e limit 0) as (k & Ec & Hk); [lia|lia|lia|].
  assert (Hm : length m = 35%nat).
  { unfold dec_req_requestBlock in Dm. case_bool_decide as H; [done|]. discriminate Dm. }
  set (l := take k (drop (Z.to_nat h) bs)) in *. exists k. split; [apply Hk; lia|].
  assert (Hl : Forall created l).
  { apply Forall_take, Forall_drop, Forall_lookup_2. intros i b Hb. by apply (chain_created bs Hchain i b). }
  destruct (answer_sent m RequestBlock (blocksToMessage (received <$> l))) as (a & Ea & _ & _ & Da); [lia|done|].
  unfold requestBlock. rewrite Em. cbn [mbind outcome_bind]. unfold honest, handleRequestBlockRequest. rewrite Dm. cbn [mbind outcome_bind].
  rewrite Ec. cbn [mbind outcome_bind]. unfold ans_requestBlock. rewrite Ea. unfold dec_ans_requestBlock. rewrite Da. cbn [mbind outcome_bind].
  assert (Hser : blocksToMessage (received <$> l) = blocksToMessage l).
  { unfold blocksToMessage. f_equal. change (received <$> l) with (map received l). rewrite map_map. by apply map_ext. }
  by rewrite Hser, (blocks_read thr' l Hl).
Qed.
End served.

Section catching_up.
Context {BI : BoostInt} {EC : Secp256k1} {WK : Walk} {V T : Type} {SV : SafeVar V T} {VO : VarOps V T} {EX : Externals}.
Context (chainId : Z) (indexing order : bool) (notify : Block → M (State (V := V)) unit) (fuel : nat).

Lemma for_each_app {S A} (f : A → M S unit) (l k : list A) s s1 :
  for_each f l s = (Ret (), s1) → for_each f (l ++ k) s = for_each f k s1.
Proof.
  revert s. induction l as [|x l IH]; intros s; cbn; [by intros [= <-]|]. unfold mbind, M_bind.
  destruct (f x s) as [[[]|] s']; [apply IH|done].
Qed.
Lemma for_each_app_inv {S A} (f : A → M S unit) (l k : list A) s s' :
  for_each f (l ++ k) s = (Ret (), s') → ∃ s1, for_each f l s = (Ret (), s1) ∧ for_each f k s1 = (Ret (), s').
Proof.
  revert s. induction l as [|x l IH]; intros s; cbn; [eauto|]. unfold mbind, M_bind.
  destruct (f x s) as [[[]|] s2]; [apply IH|done].
Qed.

(** Blocks of consecutive heights are all processed. *)
Lemma connect_run l : ∀ h (s : State (V := V)), (∀ i b, l !! i = Some b → nHeight_ b = h + Z.of_nat i) → 0 <= h → h + Z.of_nat (length l) < 2 ^ 64 →
  connect_blocks chainId indexing order notify fuel (received <$> l) h s =
  for_each (process chainId indexing order notify fuel) (block_of <$> l) s.
Proof.
  induction l as [|b l IH]; intros h s Hl Hh Hmax; cbn [fmap list_fmap connect_blocks for_each]; [done|].
  pose proof (Hl 0%nat b eq_refl) as Hb. rewrite Z.add_0_r in Hb.
  erewrite bind_run by (unfold throw_if; change (nHeight_ (received b)) with (nHeight_ b); by rewrite Hb, Z.eqb_refl).
  change (block_of (received b)) with (block_of b). apply bind_cong. intros [] s' _.
  cbn [length] in Hmax. rewrite wrap_id by (unfold in_range; lia). apply IH; [|lia|lia].
  intros i x Hi. rewrite (Hl (S i) x Hi). lia.
Qed.

(** The last block processed is the latest one. *)
Lemma processed_latest bs s s' b (latest : Block) rest :
  for_each (process chainId indexing order notify fuel) bs s = (Ret (), s') → s_blocks s = latest :: rest →
  last (latest :: bs) = Some b → ∃ rest', s_blocks s' = b :: rest'.
Proof.
  revert s latest rest. induction bs as [|x bs IH]; intros s latest rest; cbn [for_each].
  { intros [= <-] Hs [= <-]. by exists rest. }
  intros H Hs Hb. apply bind_Ret in H as ([] & s1 & Hx & H).
  destruct (process_run _ _ _ _ _ _ _ _ Hx) as (? & ? & s2 & ? & s3 & _ & _ & _ & _ & E).
  eapply (IH s1 x (s_blocks s3) H); [by rewrite E|]. by rewrite <- Hb.
Qed.

(** The highest node after looking at all peers. *)
Lemma foldl_higher (good : NodeID → Prop) top l : ∀ y, y.2 <= top → (y.2 = top → good y.1) →
  (∀ e, e ∈ l → latestBlockHeight_ e.2 <= top ∧ (latestBlockHeight_ e.2 = top → good e.1)) →
  (y.2 = top ∨ ∃ e, e ∈ l ∧ latestBlockHeight_ e.2 = top) →
  (foldl higher y l).2 = top ∧ good (foldl higher y l).1.
Proof.
  induction l as [|e l IH]; intros y Hy Hg Hl Hex; cbn [foldl].
  { destruct Hex as [?|(e & He & _)]; [auto|by apply not_elem_of_nil in He]. }
  destruct (Hl e) as [Hle Hge]; [set_solver|]. unfold higher at 2 4. destruct (Z.ltb_spec y.2 (latestBlockHeight_ e.2)).
  - apply IH; cbn; [done|done|set_solver|]. destruct Hex as [?|(e' & [->|He']%elem_of_cons & Ht)]; [lia|by left|right; eauto].
  - apply IH; [done|done|set_solver|]. destruct Hex as [?|(e' & [->|He']%elem_of_cons & Ht)]; [by left|left; lia|right; eauto].
Qed.
End catching_up.

(** ** The rounds *)

Section rounds.
Context {BI : BoostInt} {EC : Secp256k1} {R : RocksDB} {WK : Walk} {V T : Type} {SV : SafeVar V T} {VO : VarOps V T} {EX : Externals}.
Context (thr thr' : nat) (chainId : Z) (indexing order indexed : bool) (notify : Block → M (State (V := V)) unit) (fuel : nat).

(** Every round there is a peer at the height [top], none is above it, and those
    that ever say they are there run this program on the storage [ps]. *)
Definition honest_rounds (ps : Storage) (top : Z) (good : NodeID → Prop) (env : nat → Round) : Prop :=
  ∀ k, length (r_id (env k)) = 8%nat ∧
    (∃ n info, r_connected (env k) !! n = Some info ∧ latestBlockHeight_ info = top) ∧
    (∀ n info, r_connected (env k) !! n = Some info → latestBlockHeight_ info <= top ∧ (latestBlockHeight_ info = top → good n)) ∧
    (∀ n, good n → r_peer (env k) n = honest thr ps).

Lemma honest_highest ps top good env k y : honest_rounds ps top good env →
  y.2 <= top → (y.2 = top → good y.1) →
  r_connected (env k) ≠ ∅ ∧ (foldl higher y (walk (r_connected (env k)))).2 = top ∧ good (foldl higher y (walk (r_connected (env k)))).1.
Proof.
  intros He Hy Hg. destruct (He k) as (_ & (n & info & Hn & Ht) & Hall & _).
  split; [intros E; by rewrite E, lookup_empty in Hn|]. apply foldl_higher; [done|done| |].
  - intros [n' info'] Hin%elem_of_walk. by apply Hall.
  - right. exists (n, info). split; [by apply elem_of_walk|done].
Qed.

Lemma sync_from ps bs good env blocks limit : chain_ok bs → serves thr indexed bs ps →
  Z.of_nat (length bs) <= nHeight_ (latest_ ps) + 1 → 0 < blocks → Z.of_nat (length bs) + blocks < 2 ^ 64 → in_range 64 limit →
  honest_rounds ps (Z.of_nat (length bs) - 1) good env →
  ∀ n k y latest rest h s', (h < length bs)%nat → (length bs - h <= n)%nat →
  s_blocks (y_state y) = latest :: rest → b_nHeight (blk_rdpos latest) = Z.of_nat h →
  (y_highestNode y).2 <= Z.of_nat (length bs) - 1 → ((y_highestNode y).2 = Z.of_nat (length bs) - 1 → good (y_highestNode y).1) →
  for_each (process chainId indexing order notify fuel) (block_of <$> drop (S h) bs) (y_state y) = (Ret (), s') →
  ∃ y', sync_rounds thr' chainId indexing order notify fuel n k env blocks limit y = (Ret (Some true), y') ∧
    y_state y' = s' ∧ y_disconnected y' = y_disconnected y.
Proof.
  intros Hc Hs Hlat Hb0 Hb Hlim Henv. set (top := Z.of_nat (length bs) - 1) in *.
  induction n as [|n IH]; intros k y latest rest h s' Hh Hn Hl Hheight Hy Hg Hp; [lia|].
  destruct (honest_highest ps top good env k (y_highestNode y) Henv Hy Hg) as (Hne & Htop & Hgood).
  destruct (Henv k) as (Hid & _ & _ & Hpeer). specialize (Hpeer _ Hgood).
  cbn [sync_rounds]. set (hi := foldl higher (y_highestNode y) (walk (r_connected (env k)))) in *.
  set (y1 := with_highest hi y).
  assert (Ec : zoom y_state with_y_state latest_height y1 = (Ret (Z.of_nat h), y1)).
  { unfold zoom, latest_height, gets, mbind, M_bind. cbn. rewrite Hl. cbn. by rewrite Hheight. }
  assert (Estart : ∀ kk : Z → M SyncRun bool, (modify (with_highest hi) ;; (zoom y_state with_y_state latest_height ≫= kk)) y = kk (Z.of_nat h) y1).
  { intros kk. erewrite bind_run by reflexivity. by rewrite (bind_run _ _ _ _ _ Ec). }
  destruct (decide (h = length bs - 1)%nat) as [Heq|Hlt].
  { (* at the top *)
    assert (E : syncLoop thr' chainId indexing order notify fuel (env k) blocks limit y = (Ret false, y1)).
    { unfold syncLoop. erewrite bind_run by reflexivity. rewrite decide_False by done. fold hi. rewrite Estart.
      by rewrite (proj2 (Z.leb_le _ _)) by lia. }
    rewrite (bind_run _ _ _ _ _ E). exists y1. split; [done|]. split; [|done]. rewrite drop_ge in Hp by lia. by injection Hp. }
  destruct (request_honest thr thr' indexed bs ps Hc Hs ltac:(lia) (r_id (env k)) (Z.of_nat h + 1) (Z.of_nat h + blocks) limit Hlat Hid
    ltac:(lia) ltac:(lia) ltac:(unfold in_range; lia) Hlim) as (c & Hc1 & Ereq).
  replace (Z.to_nat (Z.of_nat h + 1)) with (S h) in Ereq by lia.
  rewrite <- (take_drop c (drop (S h) bs)) in Hp. rewrite fmap_app in Hp. apply for_each_app_inv in Hp as (s1 & Hp1 & Hp2).
  set (l := take c (drop (S h) bs)) in *. assert (Hll : (1 <= length l)%nat) by (unfold l; rewrite length_take, length_drop; lia).
  assert (Hlb : (length l <= length bs - S h)%nat) by (unfold l; rewrite length_take, length_drop; lia).
  assert (Hli : ∀ i b, l !! i = Some b → bs !! (S h + i)%nat = Some b).
  { intros i b Hi. unfold l in Hi. apply lookup_take_Some in Hi as [Hi _]. by rewrite lookup_drop in Hi. }
  assert (E : syncLoop thr' chainId indexing order notify fuel (env k) blocks limit y = (Ret true, with_y_state s1 y1)).
  { unfold syncLoop. erewrite bind_run by reflexivity. rewrite decide_False by done. fold hi. rewrite Estart.
    rewrite (proj2 (Z.leb_gt _ _)) by lia. cbv zeta.
    rewrite (wrap_id 64 (Z.of_nat h + 1)) by (unfold in_range; lia). replace (Z.of_nat h + 1 + blocks - 1) with (Z.of_nat h + blocks) by lia.
    rewrite wrap_id by (unfold in_range; lia). rewrite Hpeer. erewrite bind_run by (unfold lift; by rewrite Ereq).
    assert (Econ : zoom y_state with_y_state (connect_blocks chainId indexing order notify fuel (received <$> l) (Z.of_nat h + 1)) y1 = (Ret (), with_y_state s1 y1)).
    { unfold zoom. rewrite connect_run; [change (y_state y1) with (y_state y); by rewrite Hp1| |lia|lia].
      intros i b Hi%Hli. destruct (chain_created bs Hc _ _ Hi) as [_ ->]. lia. }
    destruct l as [|b0 l0]; [cbn in Hll; lia|]. change (received <$> b0 :: l0) with (received b0 :: (received <$> l0)) in *. cbv beta iota. by rewrite Econ. }
  rewrite (bind_run _ _ _ _ _ E).
  destruct (last l) as [b|] eqn:Hlast; [|apply last_None in Hlast; rewrite Hlast in Hll; cbn in Hll; lia].
  assert (Hbi : bs !! (h + length l)%nat = Some b).
  { rewrite last_lookup in Hlast. apply Hli in Hlast. by replace (h + length l)%nat with (S h + pred (length l))%nat by lia. }
  destruct (processed_latest chainId indexing order notify fuel (block_of <$> l) (y_state y) s1 (block_of b) latest rest Hp1 Hl) as [rest' Hl1].
  { rewrite last_cons, fmap_last, Hlast. done. }
  assert (Hd : drop c (drop (S h) bs) = drop (S (h + length l)) bs).
  { rewrite drop_drop. destruct (decide (c <= length bs - S h)%nat).
    - f_equal. unfold l. rewrite length_take, length_drop. lia.
    - rewrite !drop_ge; [done| |lia]. unfold l. rewrite length_take, length_drop. lia. }
  rewrite Hd in Hp2.
  destruct (IH (S k) (with_y_state s1 y1) (block_of b) rest' (h + length l)%nat s') as (y' & E' & Hst & Hdis); try done.
  - apply lookup_lt_Some in Hbi. lia.
  - lia.
  - cbn. by destruct (chain_created bs Hc _ _ Hbi) as [_ ->].
  - cbn. lia.
  - by exists y'.
Qed.
End rounds.

(** ** The properties of synchronisation *)

(** C25: a node catches up with its peers.  When some connected peer is at the
    greatest height in every round and the peers that say so run this program on
    the storage of a chain, then [Syncer::sync] ends after at most one round per
    missing block and one more, whatever the limits on blocks and bytes: the node
    has processed exactly the missing blocks of the chain, in order, as if they
    had been passed to [processNextBlock] one by one, and no peer was
    disconnected. *)
Theorem sync_catches_up {BI : BoostInt} {EC : Secp256k1} {R : RocksDB} {WK : Walk} {V T : Type} {SV : SafeVar V T} {VO : VarOps V T} {EX : Externals}
    (thr thr' : nat) (chainId : Z) (indexing order indexed : bool) (notify : Block → M (State (V := V)) unit) (fuel : nat)
    (bs : list FinalizedBlock) (ps : Storage) (good : NodeID → Prop) (env : nat → Round) (blocks bytes wait tries : Z)
    (s s' : State (V := V)) (latest : Block) (rest : list Block) (h n : nat) :
  chain_ok bs → serves thr indexed bs ps → Z.of_nat (length bs) <= nHeight_ (latest_ ps) + 1 →
  honest_rounds thr ps (Z.of_nat (length bs) - 1) good env →
  0 <= blocks → Z.of_nat (length bs) + blocks < 2 ^ 64 - 1 → in_range 64 bytes →
  s_blocks s = latest :: rest → b_nHeight (blk_rdpos latest) = Z.of_nat h → (h < length bs)%nat → (1 < length bs)%nat →
  for_each (processNextBlock chainId indexing order notify fuel) (block_of <$> drop (S h) bs) s = (Ret (), s') →
  (length bs - h <= n)%nat →
  ∃ y', sync thr' chainId indexing order notify fuel n env blocks bytes wait tries s = (Ret (Some true), y') ∧
    y_state y' = s' ∧ y_disconnected y' = [].
Proof.
  intros Hc Hs Hlat Henv Hb Hmax Hby Hl Hh Hlt Hone Hp Hn. unfold sync.
  set (bpr := if blocks =? 0 then 1 else blocks).
  assert (Hbpr : 0 < bpr ∧ Z.of_nat (length bs) + bpr < 2 ^ 64) by (unfold bpr; destruct (Z.eqb_spec blocks 0); lia).
  destruct (sync_from thr thr' chainId indexing order indexed notify fuel ps bs good env bpr bytes Hc Hs Hlat ltac:(lia) ltac:(lia) Hby Henv
    n 0 (mkSyncRun s wait tries ((V4 [0; 0; 0; 0], 0), 0) []) latest rest h s') as (y' & E & Ey & Ed); try done; cbn; try lia.
  by exists y'.
Qed.

(** C40: one peer can keep a node from starting.  A peer that announces a height
    above all others in the first round and then no longer answers (because it
    went away, or was disconnected for an invalid block) stays the highest node
    for good: with the default of unlimited tries [Syncer::sync] never ends, in
    any number of rounds, although other peers stay connected, and
    [Blockchain::start] never reaches the consensus. *)
Theorem sync_never_ends {BI : BoostInt} {EC : Secp256k1} {WK : Walk} {V T : Type} {SV : SafeVar V T} {VO : VarOps V T} {EX : Externals}
    (thr : nat) (chainId : Z) (indexing order : bool) (notify : Block → M (State (V := V)) unit) (fuel : nat)
    (liar : NodeID) (claim : NodeInfo) (env : nat → Round) (blocks bytes wait tries : Z)
    (s : State (V := V)) (latest : Block) (rest : list Block) (n : nat) :
  s_blocks s = latest :: rest → 0 <= b_nHeight (blk_rdpos latest) < latestBlockHeight_ claim → latestBlockHeight_ claim < 2 ^ 64 →
  tries <= 0 → in_range 64 bytes → in_range 64 blocks →
  r_connected (env 0%nat) !! liar = Some claim →
  (∀ k, r_connected (env k) ≠ ∅ ∧ length (r_id (env k)) = 8%nat ∧ (∀ m, r_peer (env k) liar m = None) ∧
     ∀ p info, r_connected (env k) !! p = Some info → latestBlockHeight_ info <= latestBlockHeight_ claim ∧
       (latestBlockHeight_ info = latestBlockHeight_ claim → p = liar)) →
  ∃ y', sync thr chainId indexing order notify fuel n env blocks bytes wait tries s = (Ret None, y') ∧ y_state y' = s.
Proof.
  intros Hl Hh Hmax Ht Hby Hbl H0 Henv. unfold sync. set (bpr := if blocks =? 0 then 1 else blocks).
  set (H := latestBlockHeight_ claim) in *.
  (* one round *)
  assert (Hround : ∀ k y, y_state y = s → y_tries y = tries → (y_highestNode y).2 <= H → ((y_highestNode y).2 = H → (y_highestNode y).1 = liar) →
    ((y_highestNode y).2 = H ∨ k = 0%nat) →
    ∃ y1, syncLoop thr chainId indexing order notify fuel (env k) bpr bytes y = (Ret true, y1) ∧ y_state y1 = s ∧ y_tries y1 = tries ∧
      (y_highestNode y1).2 = H ∧ (y_highestNode y1).1 = liar).
  { intros k y Hs Hty Hy Hg Hex. destruct (Henv k) as (Hne & Hid & Hpeer & Hall).
    destruct (foldl_higher (λ p, p = liar) H (walk (r_connected (env k))) (y_highestNode y)) as [Htop Hliar]; [done|done| | |].
    - intros [p info] Hin%elem_of_walk. by apply Hall.
    - destruct Hex as [?| ->]; [by left|]. right. exists (liar, claim). split; [by apply elem_of_walk|done].
    - set (hi := foldl higher (y_highestNode y) (walk (r_connected (env k)))) in *. exists (with_highest hi y).
      split; [|cbn; by split_and!]. unfold syncLoop. erewrite bind_run by reflexivity. rewrite decide_False by done. fold hi.
      erewrite bind_run by reflexivity.
      assert (Ec : zoom y_state with_y_state latest_height (with_highest hi y) = (Ret (b_nHeight (blk_rdpos latest)), with_highest hi y)).
      { unfold zoom, latest_height, gets, mbind, M_bind. cbn. rewrite Hs, Hl. cbn. by destruct y; cbn in Hs; subst. }
      rewrite (bind_run _ _ _ _ _ Ec). rewrite (proj2 (Z.leb_gt _ _)) by lia. cbv zeta.
      destruct (requestBlock_read (r_id (env k)) (wrap 64 (b_nHeight (blk_rdpos latest) + 1)) (wrap 64 (wrap 64 (b_nHeight (blk_rdpos latest) + 1) + bpr - 1)) bytes)
        as (m & Em & _); [done|apply wrap_in_range; lia|apply wrap_in_range; lia|done|].
      erewrite bind_run by (unfold lift, requestBlock; rewrite Em; cbn [mbind outcome_bind]; rewrite Hliar, Hpeer; reflexivity).
      rewrite Hty, (proj2 (Z.ltb_ge 0 tries)) by lia. by erewrite bind_run by reflexivity. }
  assert (Hall : ∀ n k y, y_state y = s → y_tries y = tries → (y_highestNode y).2 <= H → ((y_highestNode y).2 = H → (y_highestNode y).1 = liar) →
    ((y_highestNode y).2 = H ∨ k = 0%nat) →
    ∃ y', sync_rounds thr chainId indexing order notify fuel n k env bpr bytes y = (Ret None, y') ∧ y_state y' = s).
  { clear n. induction n as [|n IH]; intros k y Hs Hty Hy Hg Hex; cbn [sync_rounds]; [by exists y|].
    destruct (Hround k y Hs Hty Hy Hg Hex) as (y1 & E & Hs1 & Ht1 & Htop & Hliar). rewrite (bind_run _ _ _ _ _ E).
    apply IH; [done|done|lia|done|by left]. }
  apply Hall; cbn; [done|done|lia|intros E; lia|by right].
Qed.

(** ** A peer with one block more *)

Section demo.
#[local] Existing Instance boost_ref.
#[local] Existing Instance demo.
#[local] Existing Instance demo_ec.
#[local] Existing Instance sorted_store.

(** The storage of the peer and the state of a node that has the genesis block. *)
Definition peer_storage : Storage :=
  mkStorage Storage.demo_block (storeBlock true (storeBlock true empty_store Storage.demo_genesis) Storage.demo_block).
Definition behind : State (V := AnyVar) :=
  mkState (mkWorld {[ 7 := mkAccount (10 ^ 20) 300 0 None NOT_A_CONTRACT ]} ∅ ∅ ∅ [] []) (x_vars demo_exec) ∅
    (mkRdPoS [7] [7] ∅ 0 0 0) [block_of Storage.demo_genesis] [] [] [].
Definition caught_up : State (V := AnyVar) :=
  (for_each (processNextBlock 8080 true true (λ _, mret ()) 2) [block_of Storage.demo_block] behind).2.
Definition peer : NodeID := (V4 [10; 0; 0; 1], 8080).
Definition info_at (height : Z) : NodeInfo := mkNodeInfo 1 0 0 0 height 0 [].
Definition good_round : Round := mkRound {[ peer := info_at 1 ]} (λ _, honest 8 peer_storage) (repeat 1 8).

Lemma peer_serves : serves 8 true [Storage.demo_genesis; Storage.demo_block] peer_storage.
Proof.
  apply holds_serves; [apply demo_chain_ok|]. apply (storeBlock_holds true [Storage.demo_genesis] Storage.demo_block).
  apply (storeBlock_holds true [] Storage.demo_genesis). intros k. reflexivity.
Qed.
Lemma good_rounds : honest_rounds 8 peer_storage 1 (λ p, p = peer) (λ _, good_round).
Proof.
  intros k. split; [done|]. split; [exists peer, (info_at 1); split; [apply lookup_singleton_eq|done]|].
  split; [|done]. intros p info. cbn [r_connected good_round]. rewrite lookup_singleton_Some. by intros [<- <-].
Qed.
Lemma caught_up_run : for_each (processNextBlock 8080 true true (λ _, mret ()) 2) (block_of <$> drop 1 [Storage.demo_genesis; Storage.demo_block]) behind = (Ret (), caught_up).
Proof.
  assert (E : (for_each (processNextBlock 8080 true true (λ _, mret ()) 2) [block_of Storage.demo_block] behind).1 = Ret ()) by (vm_compute; reflexivity).
  unfold caught_up. rewrite <- E. exact (surjective_pairing _).
Qed.

Lemma sync_catches_up_witness :
  ∃ y', sync 8 8080 true true (λ _, mret ()) 2 2 (λ _, good_round) 100 20000000 15 0 behind = (Ret (Some true), y') ∧
    y_state y' = caught_up ∧ getNativeNonce 7 caught_up = 301.
Proof.
  destruct (sync_catches_up 8 8 8080 true true true (λ _, mret ()) 2 [Storage.demo_genesis; Storage.demo_block] peer_storage (λ p, p = peer)
    (λ _, good_round) 100 20000000 15 0 behind caught_up (block_of Storage.demo_genesis) [] 0 2) as (y' & E & Ey & _).
  - apply demo_chain_ok.
  - apply peer_serves.
  - vm_compute. discriminate.
  - apply good_rounds.
  - lia.
  - cbn. lia.
  - vm_compute. split; congruence.
  - reflexivity.
  - vm_compute. reflexivity.
  - cbn. lia.
  - cbn. lia.
  - apply caught_up_run.
  - cbn. lia.
  - exists y'. split; [exact E|]. split; [exact Ey|]. vm_compute. reflexivity.
Defined.

(** A peer that announced block 100 is gone; another one stays at height 4. *)
Definition other_peer : NodeID := (V4 [10; 0; 0; 2], 8080).
Definition stuck_rounds (k : nat) : Round :=
  match k with
  | O => mkRound {[ peer := info_at 100 ]} (λ _ _, None) (repeat 1 8)
  | S _ => mkRound {[ other_peer := info_at 4 ]} (λ _ _, None) (repeat 1 8)
  end.
Lemma sync_never_ends_witness (n := 10%nat) :
  ∃ y', sync 8 1 true true (λ _, mret ()) 2 n stuck_rounds 100 20000000 15 0 demo_state = (Ret None, y') ∧ y_state y' = demo_state.
Proof.
  apply (sync_never_ends 8 1 true true (λ _, mret ()) 2 peer (info_at 100) stuck_rounds 100 20000000 15 0 demo_state
    (mkBlock 1000 999 10 (mkBlockRdPoS 4 1 [] 0) []) [] n).
  - reflexivity.
  - cbn. lia.
  - cbn. lia.
  - lia.
  - vm_compute. split; congruence.
  - vm_compute. split; congruence.
  - apply lookup_singleton_eq.
  - intros [|k]; (split; [apply map_non_empty_singleton|]; split; [reflexivity|]; split; [reflexivity|]);
      intros p info; cbn [r_connected stuck_rounds]; rewrite lookup_singleton_Some; intros [<- <-]; cbn; (split; [lia|]); [done|lia].
Defined.
End demo.
