(* ===== verification/Peers.v ===== *)
(** * What a node does with messages

    Models the peer-to-peer engine of a node above its connections: the known
    peers ([NodeConns], src/net/p2p/nodeconns.cpp), the handlers of
    [ManagerNormal] (managernormal.cpp) and the gossip of transactions and blocks
    ([Broadcaster], broadcaster.cpp).  The clock and the answers to requests are
    parameters; the closing of a session is recorded in [n_closing]. *)

From S2P Require Import Prelude CheckedInt SafeBase ExecutionContext Messages AnyVar ContractHost.
From S2P Require Import Bytes Conv Tx RdPoS BaseContract FinalizedBlock DB Storage P2PEncoding Sessions State Consensus Sync.

#[export] Instance NodeInfo_eq_dec : EqDecision NodeInfo.
Proof. solve_decision. Defined.
(** [NodeInfo()] *)
Definition no_info : NodeInfo := mkNodeInfo 0 0 0 0 0 0 [].

(** ** The known peers *)

Record NodeConns := mkNodeConns {
  nodeInfo_ : gmap NodeID NodeInfo;
  nodeInfoTime_ : gmap NodeID Z;
  nodeTypes_ : gmap NodeID Z;
}.

Section conns.
Context {WK : Walk}.

Definition incomingInfo (now : Z) (sender : NodeID) (info : NodeInfo) (type : Z) (c : NodeConns) : NodeConns :=
  mkNodeConns (<[sender := info]> (nodeInfo_ c)) (<[sender := now]> (nodeInfoTime_ c)) (<[sender := type]> (nodeTypes_ c)).
Definition forget (n : NodeID) (c : NodeConns) : NodeConns :=
  mkNodeConns (delete n (nodeInfo_ c)) (delete n (nodeInfoTime_ c)) (delete n (nodeTypes_ c)).

(** [forceRefresh] up to the requests: the nodes to ask.  [normal] and
    [discovery] are the ids of the sessions of both types. *)
Definition refresh_begin (normal discovery : list NodeID) (c : NodeConns) : NodeConns * list NodeID :=
  let types := foldl (λ m n, <[n := DISCOVERY_NODE]> m) (foldl (λ m n, <[n := NORMAL_NODE]> m) (nodeTypes_ c) normal) discovery in
  let connectedNodes := normal ++ discovery in
  let c := mkNodeConns (nodeInfo_ c) (nodeInfoTime_ c) types in
  let nodes := (walk (nodeInfo_ c)).*1 in
  let c := foldl (λ c n, if decide (n ∈ connectedNodes) then c else forget n c) c nodes in
  (c, filter (λ n, n ∈ connectedNodes) nodes ++ filter (λ n, nodeInfo_ c !! n = None) connectedNodes).
(** The rest, with the answers. *)
Definition refresh_one (now : Z) (info : NodeID → NodeInfo) (c : NodeConns) (n : NodeID) : NodeConns :=
  if decide (info n = no_info) then forget n c
  else mkNodeConns (<[n := info n]> (nodeInfo_ c)) (<[n := now]> (nodeInfoTime_ c)) (nodeTypes_ c).
Definition forceRefresh (now : Z) (info : NodeID → NodeInfo) (normal discovery : list NodeID) (c : NodeConns) : NodeConns :=
  let '(c, nodesToCheck) := refresh_begin normal discovery c in
  foldl (refresh_one now info) c nodesToCheck.

(** One node of the pass of [loop] that drops silent peers; the clock is read for
    every node, and the difference is unsigned. *)
Definition expire_one (now : NodeID → Z) (c : NodeConns) (n : NodeID) : NodeConns :=
  match nodeInfoTime_ c !! n with
  | None => mkNodeConns (delete n (nodeInfo_ c)) (nodeInfoTime_ c) (delete n (nodeTypes_ c))
  | Some t => if 10000 <=? wrap 64 (now n - t) then forget n c else c
  end.
Definition expire (now : NodeID → Z) (c : NodeConns) : NodeConns :=
  foldl (expire_one now) c (walk (nodeInfo_ c)).*1.
End conns.

(** ** The node *)

Section node.
Context {BI : BoostInt} {EC : Secp256k1} {R : RocksDB} {WK : Walk} {V T : Type} {SV : SafeVar V T} {VO : VarOps V T} {EX : Externals}.
Context (thr : nat) (chainId : Z) (indexing order : bool) (notify : Block → M (State (V := V)) unit) (fuel : nat).

Record Node := mkNode {
  n_manager : ManagerBase;
  n_conns : NodeConns;
  n_state : State (V := V);
  n_storage : Storage;
  n_closing : list nat;
}.
Definition with_manager x v := mkNode x (n_conns v) (n_state v) (n_storage v) (n_closing v).
Definition with_conns x v := mkNode (n_manager v) x (n_state v) (n_storage v) (n_closing v).
Definition with_n_state x v := mkNode (n_manager v) (n_conns v) x (n_storage v) (n_closing v).
Definition with_storage x v := mkNode (n_manager v) (n_conns v) (n_state v) x (n_closing v).
Definition with_closing x v := mkNode (n_manager v) (n_conns v) (n_state v) (n_storage v) x.
Definition in_manager {A} (m : M ManagerBase A) : M Node A := zoom n_manager with_manager m.
Definition in_state {A} (m : M (State (V := V)) A) : M Node A := zoom n_state with_n_state m.

Definition disconnect (n : NodeID) : M Node unit :=
  sid ← in_manager (disconnectSession n);
  match (sid : option nat) with
  | Some sid => modify (λ v, with_closing (n_closing v ++ [sid]) v)
  | None => mret ()
  end.

(** [try { m } catch (std::exception const& ex) { h }] *)
Definition catching (m h : M Node unit) : M Node unit := λ v,
  match m v with
  | (Throw undefined_behaviour, v') => (Throw undefined_behaviour, v')
  | (Throw _, v') => h v'
  | (Ret _, v') => (Ret (), v')
  end.

(** [sendMessageToAll]: to the normal nodes that are neither the sender nor its
    peers as far as they are known. *)
Definition excluded (originalSender : option NodeID) (c : NodeConns) : list NodeID :=
  match originalSender with
  | None => []
  | Some n => n :: match nodeInfo_ c !! n with Some info => peers_ info | None => [] end
  end.
Definition sendMessageToAll (message : list Z) (originalSender : option NodeID) : M Node unit :=
  v ← gets (λ v : Node, v);
  for_each (λ e : NodeID * nat,
    s ← in_manager (session_at e.2);
    type ← lift (hostType s);
    if (type =? NORMAL_NODE) && negb (bool_decide (e.1 ∈ excluded originalSender (n_conns v)))
    then in_manager (write e.2 message) ;; mret () else mret ())
    (walk (sessions_ (n_manager v))).

(** *** Broadcasts *)

Definition invalid (what : string) : M Node unit := throw (DynamicException what).
Definition handleTxValidatorBroadcast (n : NodeID) (message : list Z) : M Node unit :=
  catching
    (tx ← lift (dec_broadcastValidatorTx message);
     st ← in_state (addValidatorTx_state tx);
     if decide (st = ValidNew) then sendMessageToAll message (Some n) else mret ())
    (invalid "Invalid txValidatorBroadcast").
Definition handleTxBroadcast (n : NodeID) (message : list Z) : M Node unit :=
  catching
    (tx ← lift (dec_broadcastTx message);
     st ← in_state (addTx tx);
     if decide (st = ValidNew) then sendMessageToAll message (Some n) else mret ())
    (invalid "Invalid txBroadcast").
(** [State::tryProcessNextBlock] with the storage it pushes the block to. *)
Definition node_tryProcessNextBlock (b : FinalizedBlock) : M Node BlockValidationStatus :=
  st ← in_state (tryProcessNextBlock chainId indexing order notify fuel (block_of b));
  (if decide (st = valid) then
     s ← gets n_storage; s' ← lift (pushBlock indexing b s); modify (with_storage s')
   else mret ()) ;;
  mret st.
Definition handleBlockBroadcast (n : NodeID) (message : list Z) : M Node unit :=
  catching
    (b ← lift (dec_broadcastBlock thr message);
     s ← gets n_storage;
     if negb (blockExists (hash_ b) s) && (nHeight_ b =? wrap 64 (nHeight_ (latest_ s) + 1)) then
       vStatus ← node_tryProcessNextBlock b;
       match vStatus with
       | valid => sendMessageToAll message (Some n)
       | invalidWrongHeight => mret ()
       | invalidErroneous => throw (DynamicException "Erroneous block data")
       end
     else mret ())
    (invalid "Invalid blockBroadcast").
Definition handleBroadcast (n : NodeID) (message : list Z) : M Node unit :=
  command ← lift (msg_command message);
  if command =? BroadcastValidatorTx then handleTxValidatorBroadcast n message
  else if command =? BroadcastTx then handleTxBroadcast n message
  else if command =? BroadcastBlock then handleBlockBroadcast n message
  else throw (DynamicException "Invalid Broadcast Command Type").

(** *** Requests *)

(** The clock, in microseconds and milliseconds, and the version of this node. *)
Context (now millis version : Z).

(** The sessions with their types, as [handleRequestNodesRequest] copies them. *)
Fixpoint session_types (l : list (NodeID * nat)) : M ManagerBase (list (NodeID * Z)) :=
  match l with
  | [] => mret []
  | (n, sid) :: l => s ← session_at sid; type ← lift (hostType s); rest ← session_types l; mret ((n, type) :: rest)
  end.
Definition answer_with (n : NodeID) (answer : outcome (list Z)) : M Node unit :=
  m ← lift answer; in_manager (answerSession n m).
Definition latest_info : M Node (Z * Hash * list (NodeID * Z)) :=
  v ← gets (λ v : Node, v);
  mret (nHeight_ (latest_ (n_storage v)), hash_ (latest_ (n_storage v)), walk (nodeTypes_ (n_conns v))).
Definition handlePingRequest (n : NodeID) (message : list Z) : M Node unit :=
  ok ← lift (dec_req_ping message);
  if negb ok then disconnect n else answer_with n (ans_ping message).
Definition handleInfoRequest (n : NodeID) (message : list Z) : M Node unit :=
  lift (dec_req_info now message) ;;
  i ← latest_info;
  let '(height, hash, nodes) := i in answer_with n (ans_info message now version height hash nodes).
Definition handleRequestNodesRequest (n : NodeID) (message : list Z) : M Node unit :=
  ok ← lift (dec_req_requestNodes message);
  if negb ok then disconnect n
  else
    v ← gets (λ v : Node, v);
    nodes ← in_manager (session_types (walk (sessions_ (n_manager v))));
    answer_with n (ans_requestNodes message nodes).
Definition handleTxValidatorRequest (n : NodeID) (message : list Z) : M Node unit :=
  ok ← lift (dec_req_requestValidatorTxs message);
  if negb ok then disconnect n
  else v ← gets (λ v : Node, v); answer_with n (ans_requestValidatorTxs message (walk (validatorMempool_ (rdpos_ (n_state v)))).*2).
Definition handleTxRequest (n : NodeID) (message : list Z) : M Node unit :=
  ok ← lift (dec_req_requestTxs message);
  if negb ok then disconnect n
  else v ← gets (λ v : Node, v); answer_with n (ans_requestTxs message (getMempool (n_state v))).
Definition handleBlockRequest (n : NodeID) (message : list Z) : M Node unit :=
  v ← gets (λ v : Node, v); answer_with n (handleRequestBlockRequest thr (n_storage v) message).
Definition handleRequest (n : NodeID) (message : list Z) : M Node unit :=
  command ← lift (msg_command message);
  if command =? Ping then handlePingRequest n message
  else if command =? Info then handleInfoRequest n message
  else if command =? RequestNodes then handleRequestNodesRequest n message
  else if command =? RequestValidatorTxs then handleTxValidatorRequest n message
  else if command =? RequestTxs then handleTxRequest n message
  else if command =? RequestBlock then handleBlockRequest n message
  else disconnect n.

(** *** Answers and notifications *)

Definition handleAnswer (n : NodeID) (message : list Z) : M Node unit :=
  command ← lift (msg_command message);
  if bool_decide (command ∈ [Ping; Info; RequestNodes; RequestValidatorTxs; RequestTxs; RequestBlock]) then
    sid ← in_manager (handleRequestAnswer n message);
    match (sid : option nat) with Some sid => modify (λ v, with_closing (n_closing v ++ [sid]) v) | None => mret () end
  else disconnect n.
Definition handleInfoNotification (n : NodeID) (message : list Z) : M Node unit :=
  catching
    (v ← gets (λ v : Node, v);
     match sessions_ (n_manager v) !! n with
     | None => mret ()
     | Some sid =>
         s ← in_manager (session_at sid);
         type ← lift (hostType s);
         nodeInfo ← lift (dec_notifyInfo now message);
         modify (λ v, with_conns (incomingInfo millis n nodeInfo type (n_conns v)) v)
     end)
    (disconnect n).
(** There is no [return] after the first test. *)
Definition handleNotification (n : NodeID) (message : list Z) : M Node unit :=
  command ← lift (msg_command message);
  (if negb (command =? NotifyInfo) then disconnect n else mret ()) ;;
  handleInfoNotification n message.

Definition handleMessage (n : NodeID) (message : list Z) : M Node unit :=
  v ← gets (λ v : Node, v);
  if negb (started_ (n_manager v)) then mret ()
  else
    catching
      (type ← lift (msg_type message);
       if type =? Requesting then handleRequest n message
       else if type =? Answering then handleAnswer n message
       else if type =? Broadcasting then handleBroadcast n message
       else if type =? Notifying then handleNotification n message
       else throw (DynamicException "Invalid message type"))
      (disconnect n).
End node.

(** ** The known peers, one at a time *)

Section conns_lemmas.
Context {WK : Walk}.

(** What is known of one node. *)
Definition Known : Type := option NodeInfo * option Z * option Z.
Definition known (k : NodeID) (c : NodeConns) : Known := (nodeInfo_ c !! k, nodeInfoTime_ c !! k, nodeTypes_ c !! k).
Definition unknown : Known := (None, None, None).

(** A loop whose step for a node changes that node only, and as often as one likes. *)
Lemma known_loop (f : NodeConns → NodeID → NodeConns) (g : NodeID → Known → Known) l :
  (∀ c n, known n (f c n) = g n (known n c)) → (∀ c n k, k ≠ n → known k (f c n) = known k c) →
  (∀ n x, g n (g n x) = g n x) →
  ∀ c k, known k (foldl f c l) = if decide (k ∈ l) then g k (known k c) else known k c.
Proof.
  intros Hf Ho Hg. induction l as [|n l IH]; intros c k; cbn [foldl].
  { rewrite decide_False; [done|apply not_elem_of_nil]. }
  rewrite IH. destruct (decide (k = n)) as [->|Hne].
  - rewrite Hf. rewrite (decide_True (P := n ∈ n :: l)) by set_solver. case_decide; by rewrite ?Hg.
  - rewrite Ho by done. destruct (decide (k ∈ l)); [by rewrite decide_True by set_solver|by rewrite decide_False by set_solver].
Qed.

Lemma known_forget n c : known n (forget n c) = unknown.
Proof. unfold known, forget. cbn. by rewrite !lookup_delete_eq. Qed.
Lemma known_forget_ne n k c : k ≠ n → known k (forget n c) = known k c.
Proof. intros. unfold known, forget. cbn. by rewrite !lookup_delete_ne. Qed.
Lemma elem_of_keys (m : gmap NodeID NodeInfo) k : k ∈ (walk m).*1 ↔ is_Some (m !! k).
Proof.
  rewrite list_elem_of_fmap. split; [intros ([n i] & -> & Hin%elem_of_walk); by exists i|].
  intros [i Hi]. exists (k, i). split; [done|by apply elem_of_walk].
Qed.

(** Either nothing is known of a node, or its information, time and type. *)
Definition conns_ok (c : NodeConns) : Prop := ∀ k, known k c = unknown ∨ ∃ i t ty, known k c = (Some i, Some t, Some ty).

Lemma incomingInfo_ok now n info type c : conns_ok c → conns_ok (incomingInfo now n info type c).
Proof.
  intros Hc k. destruct (decide (k = n)) as [->|Hne]; unfold known, incomingInfo; cbn.
  - rewrite !lookup_insert_eq. right. by do 3 eexists.
  - rewrite !lookup_insert_ne by done. apply Hc.
Qed.

Lemma types_loop t l : ∀ m : gmap NodeID Z, ∀ k,
  is_Some (foldl (λ m n, <[n := t]> m) m l !! k) ↔ k ∈ l ∨ is_Some (m !! k).
Proof.
  induction l as [|n l IH]; intros m k; cbn [foldl]; [set_solver|]. rewrite IH, lookup_insert_is_Some'. set_solver.
Qed.

Lemma forceRefresh_known now info normal discovery c k : conns_ok c →
  if decide (k ∈ normal ++ discovery ∧ info k ≠ no_info)
  then ∃ ty, known k (forceRefresh now info normal discovery c) = (Some (info k), Some now, Some ty)
  else known k (forceRefresh now info normal discovery c) = unknown.
Proof.
  intros Hc. unfold forceRefresh, refresh_begin. set (types := foldl _ _ discovery). set (conn := normal ++ discovery).
  set (c0 := mkNodeConns (nodeInfo_ c) (nodeInfoTime_ c) types). set (nodes := (walk (nodeInfo_ c0)).*1).
  set (c1 := foldl (λ c n, if decide (n ∈ conn) then c else forget n c) c0 nodes).
  assert (Ht : ∀ n, is_Some (types !! n) ↔ n ∈ conn ∨ is_Some (nodeTypes_ c !! n)).
  { intros n. unfold types. rewrite !types_loop. unfold conn. rewrite elem_of_app. tauto. }
  assert (H1 : ∀ n, known n c1 = if decide (n ∈ conn) then known n c0 else unknown).
  { intros n. unfold c1. rewrite (known_loop _ (λ n x, if decide (n ∈ conn) then x else unknown)).
    - destruct (decide (n ∈ nodes)) as [|Hn]; [done|]. destruct (decide (n ∈ conn)) as [|Hnc]; [done|].
      destruct (Hc n) as [E|(i & t & ty & E)]; injection E as Ei Et Ety.
      + unfold known, unknown. cbn. rewrite Ei, Et. destruct (types !! n) eqn:Es; [|done]. exfalso.
        destruct (Ht n) as [[?|[? ?]] _]; [by eexists|done|congruence].
      + destruct Hn. apply elem_of_keys. by exists i.
    - intros c' n'. case_decide; [done|apply known_forget].
    - intros c' n' k' Hne. case_decide; [done|by apply known_forget_ne].
    - intros n' x. by case_decide. }
  set (check := filter (λ n, n ∈ conn) nodes ++ filter (λ n, nodeInfo_ c1 !! n = None) conn).
  assert (Hck : k ∈ check ↔ k ∈ conn).
  { unfold check. rewrite elem_of_app, !list_elem_of_filter. split; [tauto|]. intros Hk.
    destruct (nodeInfo_ c1 !! k) as [i|] eqn:E; [|by right]. left. split; [done|].
    pose proof (H1 k) as E1. rewrite decide_True in E1 by done. injection E1 as E1 _ _. apply elem_of_keys. change (nodeInfo_ c0) with (nodeInfo_ c). rewrite <- E1, E. by eexists. }
  assert (H2 : known k (foldl (refresh_one now info) c1 check) =
    if decide (k ∈ check) then (if decide (info k = no_info) then unknown else (Some (info k), Some now, (known k c1).2)) else known k c1).
  { rewrite (known_loop _ (λ n x, if decide (info n = no_info) then unknown else (Some (info n), Some now, x.2))); [done| | |].
    - intros c' n. unfold refresh_one. case_decide; [apply known_forget|]. unfold known. cbn. by rewrite !lookup_insert_eq.
    - intros c' n k' Hne. unfold refresh_one. case_decide; [by apply known_forget_ne|]. unfold known. cbn. by rewrite !lookup_insert_ne.
    - intros n x. by case_decide. }
  cbv beta iota. rewrite H2, H1. clear H1 H2.
  destruct (decide (k ∈ conn)) as [Hk|Hk]; [destruct (decide (info k = no_info)) as [E|E]|];
    repeat first [rewrite decide_True by tauto|rewrite decide_False by tauto]; [done| |done].
  destruct (types !! k) as [ty|] eqn:Ety; [|exfalso; destruct (Ht k) as [_ [? Hs]]; [by left|congruence]].
  exists ty. unfold known. cbn. by rewrite Ety.
Qed.

Lemma expire_known now c k : conns_ok c →
  known k (expire now c) = match nodeInfoTime_ c !! k with
                           | Some t => if 10000 <=? wrap 64 (now k - t) then unknown else known k c
                           | None => unknown
                           end.
Proof.
  intros Hc. unfold expire.
  rewrite (known_loop _ (λ n x, match x.1.2 with None => (None, None, None) | Some t => if 10000 <=? wrap 64 (now n - t) then unknown else x end)).
  - destruct (decide (k ∈ (walk (nodeInfo_ c)).*1)) as [_|Hk].
    + unfold known at 1. cbn [fst snd]. by destruct (nodeInfoTime_ c !! k).
    + destruct (Hc k) as [E|(i & t & ty & E)]; pose proof E as E'; injection E' as Ei Et _; rewrite Et; [done|].
      destruct Hk. apply elem_of_keys. by exists i.
  - intros c' n. unfold expire_one. unfold known at 2. cbn [fst snd]. destruct (nodeInfoTime_ c' !! n) eqn:E.
    + case_match; [apply known_forget|done].
    + unfold known. cbn. by rewrite !lookup_delete_eq, E.
  - intros c' n k' Hne. unfold expire_one. destruct (nodeInfoTime_ c' !! n); [case_match; [by apply known_forget_ne|done]|].
    unfold known. cbn. by rewrite !lookup_delete_ne.
  - intros n [[i [t|]] ty]; cbn; [|done]. destruct (10000 <=? wrap 64 (now n - t)) eqn:E; [done|]. cbn. by rewrite E.
Qed.

(** The changes of the known peers. *)
Inductive conns_step (c : NodeConns) : NodeConns → Prop :=
| step_incoming now n info type : conns_step c (incomingInfo now n info type c)
| step_refresh now info normal discovery : conns_step c (forceRefresh now info normal discovery c)
| step_expire now : conns_step c (expire now c).
Lemma conns_step_ok c c' : conns_step c c' → conns_ok c → conns_ok c'.
Proof.
  intros [now n info type|now info normal discovery|now] Hc; [by apply incomingInfo_ok| |]; intros k.
  - pose proof (forceRefresh_known now info normal discovery c k Hc) as H. case_decide; [|by left]. destruct H as [ty E]. right. eauto.
  - rewrite expire_known by done. destruct (nodeInfoTime_ c !! k); [|by left]. case_match; [by left|apply Hc].
Qed.
End conns_lemmas.

(** ** Gossip *)

Section gossip.
Context {BI : BoostInt} {EC : Secp256k1} {R : RocksDB} {WK : Walk} {V T : Type} {SV : SafeVar V T} {VO : VarOps V T} {EX : Externals}.
Context (thr : nat) (chainId : Z) (indexing order : bool) (notify : Block → M (State (V := V)) unit) (fuel : nat).

(** A transaction that arrives again is not new. *)
Lemma addTx_twice tx (s s1 : State (V := V)) st : addTx tx s = (Ret st, s1) → ∃ st', addTx tx s1 = (Ret st', s1) ∧ st' ≠ ValidNew.
Proof.
  unfold addTx, gets, lift, modify, mbind, M_bind, id. destruct (validateTransactionInternal tx s) as [st0|] eqn:E; [|done].
  destruct (decide (st0 ≠ ValidNew)) as [Hst|Hst]; [intros [= <- <-]; rewrite E, decide_True by done; by exists st0|].
  intros [= _ <-]. assert (Hin : ∃ t, mempool_ (with_mempool (match mempool_ s !! tx_hash tx with Some _ => mempool_ s | None => <[tx_hash tx := tx]> (mempool_ s) end) s) !! tx_hash tx = Some t).
  { cbn. destruct (mempool_ s !! tx_hash tx) eqn:Em; [by eexists|]. exists tx. apply lookup_insert_eq. }
  destruct Hin as [t Ht]. exists ValidExisting. unfold validateTransactionInternal. rewrite Ht. by rewrite decide_True.
Qed.
Lemma addValidatorTx_twice tx (s s1 : State (V := V)) st : addValidatorTx_state tx s = (Ret st, s1) →
  ∃ st', addValidatorTx_state tx s1 = (Ret st', s1) ∧ st' ≠ ValidNew.
Proof.
  assert (H : ∀ latest (r r1 : rdPoS) st, addValidatorTx latest tx r = (Ret st, r1) →
    r1 = r ∧ st ≠ ValidNew ∨ validatorMempool_ r1 !! tv_hash tx = Some tx).
  { intros latest r r1 st0. unfold addValidatorTx. repeat case_match; intros [= <- <-]; auto; right; cbn; apply lookup_insert_eq. }
  unfold addValidatorTx_state, gets, zoom, mbind, M_bind, id.
  destruct (addValidatorTx _ tx (rdpos_ s)) as [r rd] eqn:E. intros [= -> <-]. destruct (H _ _ _ _ E) as [[-> Hst]|Hin].
  - exists st. split; [|done]. replace (with_rdpos (rdpos_ s) s) with s by (by destruct s). by rewrite E; destruct s.
  - exists ValidExisting. split; [|done]. cbn. unfold addValidatorTx. by rewrite Hin.
Qed.

(** A block that was stored exists. *)
Lemma block_stored (indexed : bool) b (s s1 : Storage) : pushBlock indexed b s = Ret s1 → blockExists (hash_ b) s1 = true.
Proof.
  unfold pushBlock. destruct (negb _); [done|]. intros [= <-]. unfold blockExists. apply db_has_spec. cbn [blocksDb_].
  unfold storeBlock. rewrite Get_putBatch.
  assert (Hin : ∀ l, (pfx_blocks ++ hash_bytes (hash_ b), serializeBlock b) ∈ l → is_Some (assoc_last (pfx_blocks ++ hash_bytes (hash_ b)) l)).
  { intros l (l1 & l2 & ->)%list_elem_of_split. rewrite assoc_last_app. destruct (assoc_last _ (_ :: l2)) eqn:E; [by eexists|].
    change (?e :: l2) with ([e] ++ l2) in E. rewrite assoc_last_app in E. destruct (assoc_last _ l2); [done|].
    unfold assoc_last in E. cbn in E. by rewrite decide_True in E. }
  match goal with |- context [assoc_last ?k ?l] => destruct (Hin l) as [x Hx] end; [|rewrite Hx; by eexists].
  destruct indexed; cbn [puts_]; [unfold reindexTransactions; rewrite index_from_puts; cbn; set_solver|cbn; set_solver].
Qed.

(** Sending touches the sessions only. *)
Definition sends {A} (m : M (Node (V := V)) A) : Prop :=
  ∀ v, n_state (m v).2 = n_state v ∧ n_storage (m v).2 = n_storage v ∧ n_conns (m v).2 = n_conns v.
Lemma sends_bind {A B} (m : M (Node (V := V)) A) (k : A → M (Node (V := V)) B) : sends m → (∀ a, sends (k a)) → sends (m ≫= k).
Proof.
  intros Hm Hk v. unfold mbind, M_bind. specialize (Hm v). destruct (m v) as [[a|e] v1]; [|done]. cbn in Hm.
  destruct Hm as (E1 & E2 & E3), (Hk a v1) as (F1 & F2 & F3). by rewrite F1, F2, F3.
Qed.
Lemma sends_manager {A} (m : M ManagerBase A) : sends (in_manager m).
Proof. intros v. unfold in_manager, zoom. by destruct (m (n_manager v)). Qed.
Lemma sends_all message n : sends (sendMessageToAll message n).
Proof.
  unfold sendMessageToAll. apply sends_bind; [by intros v|]. intros v.
  induction (walk (sessions_ (n_manager v))) as [|e l IH]; cbn [for_each]; [by intros ?|]. apply sends_bind; [|done].
  apply sends_bind; [apply sends_manager|]. intros s. apply sends_bind; [by intros ?|]. intros t.
  destruct (_ && _); [|by intros ?]. apply sends_bind; [apply sends_manager|]. by intros ??.
Qed.

Lemma catching_Ret (m : M (Node (V := V)) unit) what v v1 : catching m (invalid what) v = (Ret (), v1) → m v = (Ret (), v1).
Proof. unfold catching, invalid. destruct (m v) as [[[]|[]] v2]; done. Qed.
Lemma catching_run (m h : M (Node (V := V)) unit) v v1 : m v = (Ret (), v1) → catching m h v = (Ret (), v1).
Proof. unfold catching. by intros ->. Qed.

(** The pattern of both kinds of transactions: enter it, pass it on when new. *)
Lemma entered_once {A} (dec : outcome A) (enter : A → M (State (V := V)) TxStatus) (send send' : M (Node (V := V)) unit) (v v1 : Node (V := V)) :
  (∀ a s s1 st, enter a s = (Ret st, s1) → ∃ st', enter a s1 = (Ret st', s1) ∧ st' ≠ ValidNew) → sends send →
  (a ← lift dec; st ← in_state (enter a); if decide (st = ValidNew) then send else mret ()) v = (Ret (), v1) →
  (a ← lift dec; st ← in_state (enter a); if decide (st = ValidNew) then send' else mret ()) v1 = (Ret (), v1).
Proof.
  intros Ht Hs H. destruct dec as [a|]; [|done]. unfold lift in *. unfold mbind, M_bind in *. unfold in_state, zoom in *.
  destruct (enter a (n_state v)) as [[st|] s1] eqn:E; [|done]. destruct (Ht _ _ _ _ E) as (st' & E' & Hst').
  assert (Hv1 : n_state v1 = s1).
  { destruct (decide (st = ValidNew)); [|by injection H as <-]. destruct (Hs (with_n_state s1 v)) as (Hst & _). rewrite H in Hst. exact Hst. }
  rewrite Hv1, E', decide_False by done. unfold mret, M_ret. f_equal. destruct v1; cbn in *; by subst.
Qed.

(** A block that is not valid changes nothing. *)
Lemma rejected_block b (s s1 : State (V := V)) st :
  tryProcessNextBlock chainId indexing order notify fuel b s = (Ret st, s1) → st ≠ valid → s1 = s.
Proof.
  unfold tryProcessNextBlock. intros H Hne. apply bind_Ret in H as (s0 & s2 & [[= <-] <-]%gets_run & H).
  apply bind_Ret in H as (st0 & s3 & Hl & H). unfold lift in Hl. injection Hl as _ <-.
  destruct (decide (st0 ≠ valid)) as [|Hst]; [by injection H|]. apply dec_stable in Hst as ->.
  do 5 (apply bind_Ret in H as (? & ? & _ & H)). by injection H as <- _.
Qed.

Lemma block_once n1 n2 message (v v1 : Node (V := V)) :
  handleBlockBroadcast thr chainId indexing order notify fuel n1 message v = (Ret (), v1) →
  handleBlockBroadcast thr chainId indexing order notify fuel n2 message v1 = (Ret (), v1).
Proof.
  intros H%catching_Ret. apply catching_run. destruct (dec_broadcastBlock thr message) as [b|]; [|done].
  erewrite bind_run in H by reflexivity. erewrite bind_run in H by reflexivity.
  erewrite bind_run by reflexivity. erewrite bind_run by reflexivity.
  destruct (negb (blockExists (hash_ b) (n_storage v)) && (nHeight_ b =? wrap 64 (nHeight_ (latest_ (n_storage v)) + 1))) eqn:Hc.
  2: { injection H as <-. by rewrite Hc. }
  apply bind_Ret in H as (st & v2 & Hp & H). unfold node_tryProcessNextBlock in Hp.
  apply bind_Ret in Hp as (st' & v3 & Hs & Hp).
  destruct (decide (st' = valid)) as [->|Hne].
  - apply bind_Ret in Hp as ([] & v4 & Hpush & Hp). injection Hp as <- <-.
    apply bind_Ret in Hpush as (s & v5 & Hg & Hpush). injection Hg as <- <-. apply bind_Ret in Hpush as (s' & v6 & Hl & Hpush).
    unfold lift in Hl. injection Hl as Hl <-. injection Hpush as <-.
    destruct (sends_all message (Some n1) (with_storage s' v3)) as (_ & Hst & _). rewrite H in Hst. cbn in Hst.
    rewrite Hst, (block_stored _ _ _ _ Hl). done.
  - apply bind_Ret in Hp as ([] & v4 & Hm & Hp). injection Hm as <-. injection Hp as <- <-.
    assert (Hv : v3 = v).
    { unfold in_state, zoom in Hs. destruct (tryProcessNextBlock _ _ _ _ _ _ (n_state v)) as [r s1] eqn:E. injection Hs as -> <-.
      rewrite (rejected_block _ _ _ _ E Hne). by destruct v. }
    destruct st'; [done|done|]. injection H as <-. subst v3. rewrite Hc. unfold node_tryProcessNextBlock.
    unfold mbind at 1 2, M_bind at 1 2. rewrite Hs. rewrite decide_False by done. done.
Qed.
End gossip.

(** ** The properties of the network layer *)

(** C26: a broadcast is acted on once.  After a node has handled a broadcast of a
    transaction, a validator transaction or a block, whatever came of it, handling
    the same message again, from any peer, returns and changes nothing: it is
    neither entered nor passed on, so a message does not circulate. *)
Theorem gossip_once {BI : BoostInt} {EC : Secp256k1} {R : RocksDB} {WK : Walk} {V T : Type} {SV : SafeVar V T} {VO : VarOps V T} {EX : Externals}
    (thr : nat) (chainId : Z) (indexing order : bool) (notify : Block → M (State (V := V)) unit) (fuel : nat)
    (n1 n2 : NodeID) (message : list Z) (v v1 : Node (V := V)) :
  handleBroadcast thr chainId indexing order notify fuel n1 message v = (Ret (), v1) →
  handleBroadcast thr chainId indexing order notify fuel n2 message v1 = (Ret (), v1).
Proof.
  unfold handleBroadcast. destruct (msg_command message) as [command|]; [|done].
  intros H. erewrite bind_run in H by reflexivity. erewrite bind_run by reflexivity.
  destruct (command =? BroadcastValidatorTx); [|destruct (command =? BroadcastTx); [|destruct (command =? BroadcastBlock); [|done]]].
  - apply catching_Ret in H. apply catching_run. eapply entered_once; [|apply sends_all|exact H]. intros tx s s1 st. apply addValidatorTx_twice.
  - apply catching_Ret in H. apply catching_run. eapply entered_once; [|apply sends_all|exact H]. intros tx s s1 st. apply addTx_twice.
  - by eapply block_once.
Qed.

(** A node knows exactly the peers that speak to it.  After any sequence of
    notifications, refreshes and passes over silent peers, the three tables have
    the same peers; a refresh leaves exactly the connected peers that answered,
    with their answers; and the pass keeps exactly those heard of in the last ten
    seconds. *)
Theorem peers_known {WK : Walk} (c : NodeConns) :
  rtc conns_step (mkNodeConns ∅ ∅ ∅) c →
  (∀ n, (is_Some (nodeInfo_ c !! n) ↔ is_Some (nodeInfoTime_ c !! n)) ∧ (is_Some (nodeInfo_ c !! n) ↔ is_Some (nodeTypes_ c !! n))) ∧
  (∀ now info normal discovery n i, nodeInfo_ (forceRefresh now info normal discovery c) !! n = Some i ↔
     n ∈ normal ++ discovery ∧ i = info n ∧ i ≠ no_info) ∧
  (∀ now n, is_Some (nodeInfo_ (expire now c) !! n) ↔ ∃ t, nodeInfoTime_ c !! n = Some t ∧ wrap 64 (now n - t) < 10000).
Proof.
  intros Hr. assert (Hc : conns_ok c).
  { assert (H0 : conns_ok (mkNodeConns ∅ ∅ ∅)) by (intros k; by left).
    clear -Hr H0. induction Hr as [|c1 c2 c3 Hs _ IH]; [done|]. by apply IH, (conns_step_ok c1). }
  split_and!.
  - intros n. destruct (Hc n) as [E|(i & t & ty & E)]; injection E as -> -> ->; unfold is_Some; naive_solver.
  - intros now info normal discovery n i. pose proof (forceRefresh_known now info normal discovery c n Hc) as H. case_decide as Hd.
    + destruct H as [ty E]. injection E as -> _ _. naive_solver.
    + injection H as -> _ _. naive_solver.
  - intros now n. pose proof (expire_known now c n Hc) as H. destruct (nodeInfoTime_ c !! n) as [t|] eqn:Et.
    + destruct (Z.leb_spec 10000 (wrap 64 (now n - t))).
      * injection H as -> _ _. split; [by intros [? ?]|]. intros (t' & [= <-] & ?). lia.
      * injection H as -> _ _. destruct (Hc n) as [E|(i & t' & ty & E)]; injection E as Ei Et' _; [congruence|]. rewrite Ei. naive_solver.
    + injection H as -> _ _. split; [by intros [? ?]|naive_solver].
Qed.

(** ** A node with three peers *)

Section demo.
#[local] Existing Instance boost_ref.
#[local] Existing Instance demo.
#[local] Existing Instance demo_ec.
#[local] Existing Instance sorted_store.

Definition p1 : NodeID := (V4 [10; 0; 0; 1], 8080).
Definition p2 : NodeID := (V4 [10; 0; 0; 2], 8080).
Definition p3 : NodeID := (V4 [10; 0; 0; 3], 8080).
Definition open_session (n : NodeID) : Session := mkSession INBOUND n.1 1000 n (Some NORMAL_NODE) true true false false [].
(** [p2] is known to be connected to [p1]. *)
Definition demo_node : Node (V := AnyVar) :=
  mkNode (mkManager true no_node 0 {[ p1 := 0%nat; p2 := 1%nat; p3 := 2%nat ]} [open_session p1; open_session p2; open_session p3] ∅ ∅ false [])
    (mkNodeConns {[ p1 := mkNodeInfo 1 0 0 0 1 0 [p2] ]} {[ p1 := 0 ]} {[ p1 := NORMAL_NODE ]}) behind peer_storage [].
(** The transaction of the missing block, as [p1] broadcasts it. *)
Definition demo_message : list Z := match txs_ Storage.demo_block with
  | tx :: _ => match broadcastTx tx with Ret m => m | Throw _ => [] end
  | [] => [] end.
Definition demo_handle (n : NodeID) (v : Node) : outcome unit * Node :=
  handleBroadcast 8 8080 true true (λ _, mret ()) 2 n demo_message v.
(** How many messages each session was given. *)
Definition demo_sent (v : Node (V := AnyVar)) : list nat := (λ s, length (written_ s)) <$> session_objects (n_manager v).

Lemma gossip_once_witness : ∃ v1, demo_handle p1 demo_node = (Ret (), v1) ∧ demo_sent v1 = [0; 0; 1]%nat ∧ demo_handle p2 v1 = (Ret (), v1).
Proof.
  assert (E : (demo_handle p1 demo_node).1 = Ret ()) by (vm_compute; reflexivity).
  assert (Hg : ∀ m v v1, handleBroadcast 8 8080 true true (λ _, mret ()) 2 p1 m v = (Ret (), v1) → handleBroadcast 8 8080 true true (λ _, mret ()) 2 p2 m v1 = (Ret (), v1))
    by (intros m v v1; apply (gossip_once 8 8080 true true (λ _, mret ()) 2 p1 p2 m v v1)).
  assert (H : ∀ r, r.1 = Ret () → demo_handle p1 demo_node = r → demo_handle p1 demo_node = (Ret (), r.2) ∧ demo_handle p2 r.2 = (Ret (), r.2)).
  { intros [r v1] Hr Er. cbn [fst snd] in Hr |- *. subst r. split; [exact Er|].
    unfold demo_handle in Er |- *. exact (Hg demo_message demo_node v1 Er). }
  exists (demo_handle p1 demo_node).2. destruct (H _ E eq_refl) as [H1 H2].
  split; [exact H1|]. split; [vm_compute; reflexivity|exact H2].
Defined.

Lemma peers_known_witness :
  let c := incomingInfo 5000 p1 (info_at 7) NORMAL_NODE (mkNodeConns ∅ ∅ ∅) in
  is_Some (nodeTypes_ c !! p1) ∧ ¬ is_Some (nodeInfo_ (expire (λ _, 20000) c) !! p1).
Proof.
  intros c. assert (Hr : rtc conns_step (mkNodeConns ∅ ∅ ∅) c) by apply rtc_once, step_incoming.
  destruct (peers_known c Hr) as (H1 & _ & H3). split.
  - apply H1. unfold c, incomingInfo. cbn. rewrite lookup_insert_eq. by eexists.
  - rewrite H3. intros (t & Ht & Hlt). unfold c, incomingInfo in Ht. cbn in Ht. rewrite lookup_insert_eq in Ht. injection Ht as <-.
    vm_compute in Hlt. discriminate Hlt.
Defined.
End demo.
