(* ===== verification/Rpc.v ===== *)
(** * The JSON-RPC interface

    Models src/net/http/jsonrpc/methods.h and methods.cpp, call.cpp and the loop
    over batches of net/http/httpparser.cpp, on the node of [Peers]: what each
    method reads of the storage, the state and the network, and the answer it
    builds.  The debug_trace methods (traces are not modelled) and appl_dumpState
    are the parameter [other_method]; the texts of exceptions are [what] and
    [vm_what]. *)

From stdpp Require Import pretty.
From Stdlib Require Import Ascii.
From S2P Require Import Prelude CheckedInt SafeBase ExecutionContext Messages AnyVar ContractHost Bytes Conv Hex Json Abi Tx RdPoS.
From S2P Require Import BaseContract FinalizedBlock DB Storage EventsDB P2PEncoding Sessions Sync State Queries Peers.

Inductive IndexingMode := DISABLED | RPC | RPC_TRACE.
#[export] Instance IndexingMode_eq_dec : EqDecision IndexingMode.
Proof. solve_decision. Defined.

(** What the methods read of [Options]. *)
Record Options := mkOptions {
  o_web3ClientVersion : list ascii;
  o_SDKVersion : list ascii;
  o_chainID : Z;
  o_coinbase : Address;
  o_eventBlockCap : Z;
  o_eventLogCap : Z;
  o_indexingMode : IndexingMode;
}.

Definition FIXED_BASE_FEE_PER_GAS : list ascii := text "0x9502f900".
Definition str (s : string) : reply json := Ok (JString (text s)).

(** An object, field by field in the order of the assignments. *)
Fixpoint json_fields (l : list (string * reply json)) : reply (list (string * json)) :=
  match l with [] => Ok [] | (k, r) :: l => d ← r; rest ← json_fields l; Ok ((k, d) :: rest) end.
Definition json_object (l : list (string * reply json)) : reply json := fs ← json_fields l; Ok (JObject fs).
Fixpoint json_all (l : list (reply json)) : reply (list json) :=
  match l with [] => Ok [] | r :: l => d ← r; rest ← json_all l; Ok (d :: rest) end.
Definition or_null {A} (f : A → reply json) (o : option A) : reply json := match o with Some a => f a | None => Ok JNull end.
(** [std::to_string] *)
Definition decimal (n : Z) : list ascii := text (pretty n).

Section rpc.
Context {BI : BoostInt} {BB : BoostBits} {AC : AbiCasts} {EC : Secp256k1} {R : RocksDB} {SO : SqlOrder} {WK : Walk}.
Context {V T : Type} {SV : SafeVar V T} {VO : VarOps V T} {EX : Externals}.

Definition hash_json (h : Hash) : reply json := json_hex (be_bytes 32 h).
Definition address_json (a : Address) : reply json := json_hex (be_bytes 20 a).

(** ** Transactions, blocks and events *)

Definition getEIP1559TransactionJson (tx : TxBlock) (blockHash : option Hash) (blockNumber txIndex : option Z) : reply json :=
  json_object [
    ("blockHash", or_null hash_json blockHash);
    ("blockNumber", or_null json_quantity blockNumber);
    ("from", address_json (tx_from tx));
    ("hash", hash_json (tx_hash tx));
    ("transactionIndex", or_null json_quantity txIndex);
    ("type", str "0x2");
    ("nonce", json_quantity (tx_nonce tx));
    ("to", if tx_to tx =? 0 then Ok JNull else address_json (tx_to tx));
    ("gas", json_quantity (tx_gasLimit tx));
    ("value", json_quantity (tx_value tx));
    ("input", json_hex (tx_data tx));
    ("maxPriorityFeePerGas", json_quantity (tx_maxPriorityFeePerGas tx));
    ("maxFeePerGas", json_quantity (tx_maxFeePerGas tx));
    ("gasPrice", json_quantity (tx_maxFeePerGas tx));
    ("accessList", Ok (JArray []));
    ("chainId", json_quantity (tx_chainId tx));
    ("yParity", json_quantity (tx_v tx));
    ("v", json_quantity (tx_v tx));
    ("r", json_quantity (tx_r tx));
    ("s", json_quantity (tx_s tx))].

(** The transactions of a block, numbered when they are included. *)
Fixpoint block_txs_json (b : FinalizedBlock) (includeTransactions : bool) (txIndex : Z) (txs : list TxBlock) : list (reply json) :=
  match txs with
  | [] => []
  | tx :: txs =>
      (if includeTransactions then getEIP1559TransactionJson tx (Some (hash_ b)) (Some (nHeight_ b)) (Some txIndex)
       else hash_json (tx_hash tx)) :: block_txs_json b includeTransactions (wrap 64 (txIndex + 1)) txs
  end.
Definition getBlockJson (block : option FinalizedBlock) (includeTransactions : bool) : reply json :=
  match block with
  | None => Ok JNull
  | Some b =>
      json_object [
        ("hash", hash_json (hash_ b));
        ("parentHash", hash_json (prevBlockHash_ b));
        ("sha3Uncles", hash_json 0);
        ("miner", address_json (toAddress (validatorPubKey_ b)));
        ("stateRoot", hash_json 0);
        ("transactionsRoot", hash_json (txMerkleRoot_ b));
        ("receiptsRoot", hash_json 0);
        ("logsBloom", hash_json 0);
        ("difficulty", str "0x1");
        ("number", json_quantity (nHeight_ b));
        ("gasLimit", json_quantity (2 ^ 64 - 1));
        ("gasUsed", json_quantity 1000000000);
        ("timestamp", json_quantity (timestamp_ b / 1000000));
        ("extraData", str "0x0000000000000000000000000000000000000000000000000000000000000000");
        ("mixHash", hash_json 0);
        ("nonce", str "0x0000000000000000");
        ("totalDifficulty", str "0x1");
        ("baseFeePerGas", Ok (JString FIXED_BASE_FEE_PER_GAS));
        ("withdrawRoot", hash_json 0);
        ("blobGasUsed", str "0x0");
        ("excessBlobGas", str "0x0");
        ("size", json_quantity (size_ b));
        ("transactions", l ← json_all (block_txs_json b includeTransactions 0 (txs_ b)); Ok (JArray l));
        ("withdrawls", Ok (JArray []));
        ("uncles", Ok (JArray []))]
  end.

(** [Address::checksum]: letters are capital where the hash of the text says so. *)
Definition upper (c : ascii) : ascii := if between "a" "z" c then ascii_of_N (N_of_ascii c - 32) else c.
Definition lower (c : ascii) : ascii := if between "A" "Z" c then ascii_of_N (N_of_ascii c + 32) else c.
Fixpoint checksum_text (s hash : list ascii) : list ascii :=
  match s, hash with
  | c :: s, h :: hash => (if isdigit c then c else if 8 <=? toInt h then upper c else lower c) :: checksum_text s hash
  | _, _ => []
  end.
Definition checksum (a : Address) : reply json :=
  s ← std (hex_fromBytes (be_bytes 20 a) false);
  hash ← std (hex_fromBytes (be_bytes 32 (sha3 (code_of <$> hex_ s))) false);
  h ← std (Hex_make (prefix0x ++ checksum_text (hex_ s) (hex_ hash)) true);
  Ok (JString (hex_ h)).
(** [Event::serializeForRPC] *)
Definition event_json (e : Event) : reply json :=
  topics ← json_all (hash_json <$> ev_topics e);
  json_object [
    ("address", checksum (ev_address e));
    ("blockHash", hash_json (ev_blockHash e));
    ("blockNumber", json_quantity (ev_blockIndex e));
    ("data", json_hex (ev_data e));
    ("logIndex", json_quantity (logIndex e));
    ("removed", Ok (JBool false));
    ("topics", Ok (JArray topics));
    ("transactionHash", hash_json (ev_txHash e));
    ("transactionIndex", json_quantity (ev_txIndex e))].

(** ** Methods that only read *)

Context (thr : nat) (o : Options) (rows : list Row) (left_to_right : bool).

Definition latest_of (v : Node (V := V)) : Z := nHeight_ (latest_ (n_storage v)).
Definition number (v : Node (V := V)) (b : BlockTagOrNumber) : reply Z := block_number (latest_of v) b.
Definition requiresIndexing (method : string) : reply unit :=
  if decide (o_indexingMode o = DISABLED) then Fail (methodNotAvailable (text method)) else Ok ().

Definition web3_clientVersion (request : json) : reply json := forbidParams request;; Ok (JString (o_web3ClientVersion o)).
Definition web3_sha3 (request : json) : reply json :=
  data ← parseAllParams (parseAll1 parse_Bytes) request; hash_json (sha3 data).
Definition net_version (request : json) : reply json := forbidParams request;; Ok (JString (decimal (o_chainID o))).
Definition net_listening (request : json) : reply json := forbidParams request;; Ok (JBool true).
Definition net_peerCount (request : json) (v : Node (V := V)) : reply json :=
  forbidParams request;; json_quantity (Z.of_nat (getPeerCount (n_manager v))).
Definition eth_protocolVersion (request : json) : reply json := forbidParams request;; Ok (JString (o_SDKVersion o)).
Definition eth_getBlockByHash (request : json) (v : Node (V := V)) : reply json :=
  p ← parseAllParams (parseAll2_opt parse_Hash parse_bool) request;
  block ← std (getBlock thr p.1 (n_storage v));
  getBlockJson block (default false p.2).
Definition eth_getBlockByNumber (request : json) (v : Node (V := V)) : reply json :=
  p ← parseAllParams (parseAll2_opt parse_BlockTagOrNumber parse_bool) request;
  blockNumber ← number v p.1;
  block ← std (getBlock_height thr blockNumber (n_storage v));
  getBlockJson block (default false p.2).
Definition eth_getBlockTransactionCountByHash (request : json) (v : Node (V := V)) : reply json :=
  blockHash ← parseAllParams (parseAll1 parse_Hash) request;
  block ← std (getBlock thr blockHash (n_storage v));
  or_null (λ b, json_quantity (Z.of_nat (length (txs_ b)))) block.
Definition eth_getBlockTransactionCountByNumber (request : json) (v : Node (V := V)) : reply json :=
  b ← parseAllParams (parseAll1 parse_BlockTagOrNumber) request;
  blockNumber ← number v b;
  block ← std (getBlock_height thr blockNumber (n_storage v));
  or_null (λ b, json_quantity (Z.of_nat (length (txs_ b)))) block.
Definition eth_chainId (request : json) : reply json := forbidParams request;; json_quantity (o_chainID o).
Definition eth_syncing (request : json) : reply json := forbidParams request;; Ok (JBool false).
Definition eth_coinbase (request : json) : reply json := forbidParams request;; address_json (o_coinbase o).
Definition eth_blockNumber (request : json) (v : Node (V := V)) : reply json := forbidParams request;; json_quantity (latest_of v).
Definition eth_gasPrice (request : json) : reply json := forbidParams request;; Ok (JString FIXED_BASE_FEE_PER_GAS).

(** The loop of [eth_feeHistory]: how often it runs and the block it ends at. *)
Fixpoint fee_loop (blockCount : nat) (oldestBlock : Z) : nat * Z :=
  match blockCount with
  | O => (O, oldestBlock)
  | S n => if oldestBlock =? 0 then (1%nat, oldestBlock) else let '(k, b) := fee_loop n (oldestBlock - 1) in (S k, b)
  end.
Definition eth_feeHistory (request : json) (v : Node (V := V)) : reply json :=
  p ← parseAllParams (parseAll3_opt left_to_right parse_uint64 parse_BlockTagOrNumber (parse_vector parse_float)) request;
  blockNumber ← number v p.2.1;
  let blockCount := Z.min p.1 1024 in
  oneAfterLastBlock ← std (getBlock_height thr (wrap 64 (blockNumber + 1)) (n_storage v));
  let '(k, oldestBlock) := fee_loop (Z.to_nat blockCount) blockNumber in
  let fees := ((match oneAfterLastBlock with None => 0 | Some _ => 1 end) + k)%nat in
  if (fees =? 0)%nat then Fail (executionError (text "Requested block not found"))
  else
    json_object [
      ("baseFeePerGas", Ok (JArray (replicate fees (JString FIXED_BASE_FEE_PER_GAS))));
      ("gasUsedRatio", Ok (JArray (replicate k (JFloat 1 0))));
      ("oldestBlock", json_quantity oldestBlock)].

(** One element of "topics". *)
Definition parse_topic (topic : json) : reply (list Hash) :=
  match topic with
  | JNull => Ok []
  | JArray _ => parseArray parse_Hash topic
  | _ => h ← parse_Hash topic; Ok [h]
  end.
Definition number_of (v : Node (V := V)) (b : option BlockTagOrNumber) : reply (option Z) :=
  match b with None => Ok None | Some b => n ← number v b; Ok (Some n) end.
Definition eth_getLogs (request : json) (v : Node (V := V)) : reply json :=
  params ← parseAllParams (parseAll1 parse_json) request;
  blockHash ← parseIfExists parse_Hash params "blockHash";
  from ← parseIfExists parse_BlockTagOrNumber params "fromBlock";
  fromBlock ← number_of v from;
  to ← parseIfExists parse_BlockTagOrNumber params "toBlock";
  toBlock ← number_of v to;
  address ← parseIfExists parse_Address params "address";
  topics ← parseArrayIfExists parse_json params "topics";
  topics ← parse_each parse_topic (default [] topics);
  let filters := mkFilters (EventsDB.to_int64 <$> fromBlock) (EventsDB.to_int64 <$> toBlock) blockHash address None topics in
  let from := wrap 64 (default 0 (EventsDB.fromBlock filters)) in
  let to := wrap 64 (default (EventsDB.to_int64 (latest_of v)) (EventsDB.toBlock filters)) in
  if bool_decide (blockHash = None) && (o_eventBlockCap o <? wrap 64 (to - from + 1))
  then Fail (Error (-32000) (text "too many blocks, requested from: " ++ decimal from ++ text " to: " ++ decimal to ++
    text " max: " ++ decimal (o_eventBlockCap o)))
  else
    events ← std (getEvents filters (o_eventLogCap o) rows);
    l ← json_all (event_json <$> events);
    Ok (JArray l).

Definition address_and_block (request : json) : reply (Address * BlockTagOrNumber) :=
  parseAllParams (parseAll2 left_to_right parse_Address parse_BlockTagOrNumber) request.
Definition eth_getBalance (request : json) (v : Node (V := V)) : reply json :=
  p ← address_and_block request; json_quantity (getNativeBalance p.1 (n_state v)).
Definition eth_getTransactionCount (request : json) (v : Node (V := V)) : reply json :=
  p ← address_and_block request; json_quantity (getNativeNonce p.1 (n_state v)).
Definition eth_getCode (request : json) (v : Node (V := V)) : reply json :=
  p ← address_and_block request; c ← std (getContractCode p.1 (n_state v)); json_hex c.

(** A transaction of a block, or null. *)
Definition found_json (f : Storage.Found) : reply json :=
  let '(tx, blockHash, blockIndex, blockHeight) := f in
  or_null (λ tx, getEIP1559TransactionJson tx (Some blockHash) (Some blockHeight) (Some blockIndex)) tx.
Definition eth_getTransactionByHash (request : json) (v : Node (V := V)) : reply json :=
  requiresIndexing "eth_getTransactionByHash";;
  txHash ← parseAllParams (parseAll1 parse_Hash) request;
  match getTxFromMempool txHash (n_state v) with
  | Some tx => getEIP1559TransactionJson tx None None None
  | None => f ← std (getTx txHash (n_storage v)); found_json f
  end.
Definition eth_getTransactionByBlockHashAndIndex (request : json) (v : Node (V := V)) : reply json :=
  p ← parseAllParams (parseAll2 left_to_right parse_Hash parse_uint64) request;
  f ← std (getTxByBlockHashAndIndex p.1 p.2 (n_storage v)); found_json f.
Definition eth_getTransactionByBlockNumberAndIndex (request : json) (v : Node (V := V)) : reply json :=
  p ← parseAllParams (parseAll2 left_to_right parse_uint64 parse_uint64) request;
  f ← std (getTxByBlockNumberAndIndex p.1 p.2 (n_storage v)); found_json f.

(** [getTxAdditionalData]: what was stored last under the hash of the transaction;
    the entries that the state writes to the database are its [s_txData]. *)
Definition getTxAdditionalData (txHash : Hash) (v : Node (V := V)) : option TxAdditionalData :=
  match list_find (λ d, td_hash d = txHash) (rev (s_txData (n_state v))) with Some (_, d) => Some d | None => None end.
Definition receipt_json (tx : TxBlock) (blockHash : Hash) (txIndex blockHeight : Z) (d : TxAdditionalData) (logs : list json) : reply json :=
  json_object [
    ("type", str "0x2");
    ("transactionHash", hash_json (tx_hash tx));
    ("transactionIndex", json_quantity txIndex);
    ("blockHash", hash_json blockHash);
    ("blockNumber", json_quantity blockHeight);
    ("from", address_json (tx_from tx));
    ("to", if td_contractAddress d =? 0 then address_json (tx_to tx) else Ok JNull);
    ("cumulativeGasUsed", json_quantity (td_gasUsed d));
    ("gasUsed", json_quantity (td_gasUsed d));
    ("contractAddress", if td_contractAddress d =? 0 then Ok JNull else address_json (td_contractAddress d));
    ("logs", Ok (JArray logs));
    ("logsBloom", hash_json 0);
    ("status", str (if td_succeeded d then "0x1" else "0x0"));
    ("effectiveGasPrice", json_quantity (tx_maxFeePerGas tx))].
Definition eth_getTransactionReceipt (request : json) (v : Node (V := V)) : reply json :=
  requiresIndexing "eth_getTransactionReceipt";;
  txHash ← parseAllParams (parseAll1 parse_Hash) request;
  f ← std (getTx txHash (n_storage v));
  let '(tx, blockHash, txIndex, blockHeight) := f in
  or_null (λ tx,
    match getTxAdditionalData (tx_hash tx) v with
    | None => Fail (Std (DynamicException "Unable to fetch existing transaction data"))
    | Some d =>
        events ← std (getEvents (mkFilters (Some (EventsDB.to_int64 blockHeight)) (Some (EventsDB.to_int64 blockHeight)) None None (Some (EventsDB.to_int64 txIndex)) []) (o_eventLogCap o) rows);
        logs ← json_all (event_json <$> events);
        receipt_json tx blockHash txIndex blockHeight d logs
    end) tx.
Definition eth_maxPriorityFeePerGas (request : json) : reply json := forbidParams request;; str "0x0".
Definition eth_getUncleByBlockHashAndIndex : reply json := Ok JNull.

(** One pending transaction, under its sender and its nonce. *)
Definition pending_json (e : Z * TxBlock) : reply json :=
  h ← std (hex_fromBytes (be_bytes 20 (tx_from e.2)) true);
  tx ← getEIP1559TransactionJson e.2 None None None;
  Ok (JObject [(String.string_of_list_ascii (hex_ h), JObject [(pretty (tx_nonce e.2), tx)])]).
Definition txpool_content (request : json) (v : Node (V := V)) : reply json :=
  forbidParams request;;
  pending ← json_all (pending_json <$> walk (getPendingTxs (n_state v)));
  Ok (JObject [("queued", JArray []); ("pending", JArray pending)]).

(** ** Methods that run code or change the node *)

Definition Handler : Type := json → Node (V := V) → reply json * Node (V := V).
(** A step on the state or of the network, with its failures. *)
Definition std_run {A} (m : M (Node (V := V)) A) (k : A → Node (V := V) → reply json * Node (V := V)) (v : Node (V := V)) :
    reply json * Node (V := V) :=
  match m v with (Ret a, v') => k a v' | (Throw e, v') => (Fail (Std e), v') end.
Definition reply_run {A} (r : reply A) (k : A → Node (V := V) → reply json * Node (V := V)) (v : Node (V := V)) :
    reply json * Node (V := V) :=
  match r with Ok a => k a v | Fail f => (Fail f, v) end.
Definition on_state {A} (m : State (V := V) → reply A * State (V := V)) (k : A → reply json) (v : Node (V := V)) :
    reply json * Node (V := V) :=
  let '(r, s) := m (n_state v) in (r ≫= k, with_n_state s v).

Context (order : bool) (fuel : nat) (seed : Hash).

(** [at]: not an object is a [type_error], an absent key [out_of_range]. *)
Definition json_at (d : json) (key : string) : reply json :=
  match d with
  | JObject _ => match json_field d key with Some x => Ok x | None => Fail (Std out_of_range) end
  | _ => Fail (Std (runtime_error "type_error"))
  end.
(** The fields of a call object: sender, recipient, gas, value and data. *)
Record CallObject := mkCallObject { c_from : Address; c_to : Address; c_gas : Z; c_value : Z; c_data : list Z }.
Definition parseMessage (recipientRequired : bool) (request : json) : reply CallObject :=
  p ← parseAllParams (parseAll2_opt parse_json parse_BlockTagOrNumber) request;
  let txJson := p.1 in
  from ← parseIfExists parse_Address txJson "from";
  to ← (if recipientRequired then d ← json_at txJson "to"; parse_Address d
        else a ← parseIfExists parse_Address txJson "to"; Ok (default 0 a));
  gas ← parseIfExists parse_uint64 txJson "gas";
  value ← parseIfExists parse_uint256 txJson "value";
  data ← parseIfExists parse_Bytes txJson "data";
  Ok (mkCallObject (default 0 from) to (default 10000000 gas) (default 0 value) (default [] data)).
Definition eth_call : Handler := λ request,
  reply_run (parseMessage true request) (λ c,
    on_state (ethCall (o_chainID o) order fuel seed (c_from c) (c_to c) (c_gas c) (c_data c)) json_hex).
Definition eth_estimateGas : Handler := λ request,
  reply_run (parseMessage false request) (λ c,
    on_state (estimateGas (o_chainID o) order fuel seed (c_gas c)
      (if c_to c =? 0 then EncodedCreate (c_from c) (c_value c) (c_data c)
       else EncodedCall (c_from c) (c_to c) (c_value c) (c_data c)))
      (λ gasUsed, json_quantity (wrap 64 gasUsed))).
(** The message of a refused transaction. *)
Definition refused (st : TxStatus) : failure :=
  Error (-32000) (text (match st with InvalidNonce => "Invalid nonce" | InvalidBalance => "Invalid balance" | _ => "Unknown" end)).
Definition eth_sendRawTransaction : Handler := λ request,
  reply_run (parseAllParams (parseAll1 parse_Bytes) request) (λ bytes,
  reply_run (std (TxBlock_fromBytes bytes)) (λ tx,
  std_run (in_state (addTx tx)) (λ st,
    if isTxStatusValid st then
      reply_run (hash_json (tx_hash tx)) (λ ret,
      std_run (m ← lift (broadcastTx tx); sendMessageToAll m None) (λ _ v, (Ok ret, v)))
    else λ v, (Fail (refused st), v)))).

(** ** The dispatch of a request *)

Context (other_method : string → Handler) (what : exn → list ascii) (vm_what : Z → list Z → list ascii).

Definition pure (f : json → reply json) : Handler := λ request v, (f request, v).
Definition reads (f : json → Node (V := V) → reply json) : Handler := λ request v, (f request v, v).
(** The names of the methods, in the order of the tests. *)
Definition methods : list (string * Handler) := [
  ("web3_clientVersion", pure web3_clientVersion);
  ("web3_sha3", pure web3_sha3);
  ("net_version", pure net_version);
  ("net_listening", pure net_listening);
  ("net_peerCount", reads net_peerCount);
  ("eth_protocolVersion", pure eth_protocolVersion);
  ("eth_getBlockByHash", reads eth_getBlockByHash);
  ("eth_getBlockByNumber", reads eth_getBlockByNumber);
  ("eth_getBlockTransactionCountByHash", reads eth_getBlockTransactionCountByHash);
  ("eth_getBlockTransactionCountByNumber", reads eth_getBlockTransactionCountByNumber);
  ("eth_chainId", pure eth_chainId);
  ("eth_syncing", pure eth_syncing);
  ("eth_coinbase", pure eth_coinbase);
  ("eth_blockNumber", reads eth_blockNumber);
  ("eth_call", eth_call);
  ("eth_estimateGas", eth_estimateGas);
  ("eth_gasPrice", pure eth_gasPrice);
  ("eth_feeHistory", reads eth_feeHistory);
  ("eth_getLogs", reads eth_getLogs);
  ("eth_getBalance", reads eth_getBalance);
  ("eth_getTransactionCount", reads eth_getTransactionCount);
  ("eth_getCode", reads eth_getCode);
  ("eth_sendRawTransaction", eth_sendRawTransaction);
  ("eth_getTransactionByHash", reads eth_getTransactionByHash);
  ("eth_getTransactionByBlockHashAndIndex", reads eth_getTransactionByBlockHashAndIndex);
  ("eth_getTransactionByBlockNumberAndIndex", reads eth_getTransactionByBlockNumberAndIndex);
  ("eth_getTransactionReceipt", reads eth_getTransactionReceipt);
  ("eth_getUncleByBlockHashAndIndex", pure (λ _, eth_getUncleByBlockHashAndIndex));
  ("eth_maxPriorityFeePerGas", pure eth_maxPriorityFeePerGas);
  ("txpool_content", reads txpool_content);
  ("debug_traceBlockByNumber", other_method "debug_traceBlockByNumber");
  ("debug_traceTransaction", other_method "debug_traceTransaction");
  ("appl_dumpState", other_method "appl_dumpState")].
Definition run_method (method : list ascii) : Handler :=
  match list_find (λ e : string * Handler, text e.1 = method) methods with
  | Some (_, (_, h)) => h
  | None => λ _ v, (Fail (methodNotAvailable method), v)
  end.

(** [checkJsonRPCSpec]; every exception becomes a [DynamicException]. *)
Definition checkJsonRPCSpec (request : json) : reply unit :=
  let spec (why : string) : reply unit := Fail (Std (DynamicException why)) in
  match json_field request "jsonrpc" with
  | None => spec "jsonrpc field is missing"
  | Some (JString version) =>
      if decide (version ≠ text "2.0") then spec "jsonrpc field is not 2.0"
      else if bool_decide (json_field request "method" = None) then spec "method field is missing"
      else
        match json_field request "params" with
        | None | Some (JObject _) | Some (JArray _) => Ok ()
        | Some _ => spec "params field is not an object or array"
        end
  | Some _ => spec "jsonrpc field is not a string"
  end.
Definition valid_id (id : json) : bool :=
  match id with JString _ | JInt _ | JUint _ | JFloat _ _ | JNull => true | _ => false end.
(** The answer to a failure, after the fields that were already set. *)
Definition failed (ret : list (string * json)) (f : failure) (v : Node (V := V)) : outcome json * Node (V := V) :=
  let error (fields : list (string * json)) := (Ret (JObject (ret ++ [("error", JObject fields)])), v) in
  match f with
  | VmError code data =>
      match json_hex data with
      | Ok d => error [("code", JInt code); ("message", JString (vm_what code data)); ("data", d); ("name", JString (text "CallError"))]
      | Fail _ => (Throw undefined_behaviour, v)
      end
  | Error code message => error [("code", JInt code); ("message", JString message)]
  | Std undefined_behaviour => (Throw undefined_behaviour, v)
  | Std e => error [("code", JInt (-32603)); ("message", JString (text "Internal error: " ++ what e))]
  end.
(** [jsonrpc::call]; reading an absent id of a constant object is undefined. *)
Definition call (request : json) : M (Node (V := V)) json := λ v,
  match checkJsonRPCSpec request with
  | Fail f => failed [] f v
  | Ok _ =>
      let ret := [("jsonrpc", JString (text "2.0"))] in
      match json_field request "id" with
      | None => (Throw undefined_behaviour, v)
      | Some id =>
          if negb (valid_id id) then failed ret (Std (DynamicException "Invalid id type")) v
          else
            let ret := ret ++ [("id", id)] in
            match json_field request "method" with
            | Some (JString method) =>
                match run_method method request v with
                | (Ok result, v') => (Ret (JObject (ret ++ [("result", result)])), v')
                | (Fail f, v') => failed ret f v'
                end
            | _ => failed ret (Std (runtime_error "type_error")) v
            end
      end
  end.
(** The body of the [try] of [parseJsonRpcRequest]: a batch is answered in order. *)
Fixpoint call_all (requests : list json) : M (Node (V := V)) (list json) :=
  match requests with
  | [] => mret []
  | r :: requests => a ← call r; rest ← call_all requests; mret (a :: rest)
  end.
Definition answer_request (request : json) : M (Node (V := V)) json :=
  match request with
  | JArray requests => l ← call_all requests; mret (JArray l)
  | _ => call request
  end.
(** [parseJsonRpcRequest]; the answer is written outside the [try]. *)
Definition internal_error (e : exn) : json :=
  JObject [("error", JObject [("code", JInt (-32603)); ("message", JString (text "Internal error: " ++ what e))])].
Definition parseJsonRpcRequest {JT : JsonText} (body : list ascii) : M (Node (V := V)) (list ascii) := λ v,
  match (request ← lift (json_parse body); answer_request request) v with
  | (Throw undefined_behaviour, v') => (Throw undefined_behaviour, v')
  | (Ret ret, v') => (json_dump ret, v')
  | (Throw e, v') => (json_dump (internal_error e), v')
  end.
End rpc.

(** ** The shape of an answer *)

Lemma json_assoc_app k l l' :
  json_assoc k (l ++ l') = match json_assoc k l with Some d => Some d | None => json_assoc k l' end.
Proof. induction l as [|[k' d] l IH]; cbn; [done|]. by case_decide. Qed.

(** The error object of an answer. *)
Definition error_object (err : json) : Prop :=
  ∃ code message, json_field err "code" = Some (JInt code) ∧ json_field err "message" = Some (JString message).
(** Either a result or an error object. *)
Definition well_formed (a : json) : Prop :=
  (∃ r, json_field a "result" = Some r ∧ json_field a "error" = None) ∨
  (∃ err, json_field a "result" = None ∧ json_field a "error" = Some err ∧ error_object err).

(** The oldest of [n] blocks that end at block [b] is [b - n + 1]; one less is
    answered. *)
Lemma fee_history_oldest (n : nat) b : Z.of_nat n <= b → fee_loop n b = (n, b - Z.of_nat n).
Proof.
  revert b. induction n as [|n IH]; intros b Hb; cbn [fee_loop]; [f_equal; lia|].
  destruct (Z.eqb_spec b 0); [lia|]. rewrite IH by lia. f_equal. lia.
Qed.

Section shape.
Context {BI : BoostInt} {BB : BoostBits} {AC : AbiCasts} {EC : Secp256k1} {R : RocksDB} {SO : SqlOrder} {WK : Walk}.
Context {V T : Type} {SV : SafeVar V T} {VO : VarOps V T} {EX : Externals}.
Context (thr : nat) (o : Options) (rows : list Row) (left_to_right order : bool) (fuel : nat) (seed : Hash).
Context (other_method : string → Handler (V := V)) (what : exn → list ascii) (vm_what : Z → list Z → list ascii).
Abbreviation call := (call thr o rows left_to_right order fuel seed other_method what vm_what).
Abbreviation call_all := (call_all thr o rows left_to_right order fuel seed other_method what vm_what).
Abbreviation answer_request := (answer_request thr o rows left_to_right order fuel seed other_method what vm_what).
Abbreviation parseJsonRpcRequest := (parseJsonRpcRequest thr o rows left_to_right order fuel seed other_method what vm_what).
Abbreviation run_method := (run_method thr o rows left_to_right order fuel seed other_method).

(** A failure that is itself undefined: undefined behaviour, or data that are not bytes. *)
Definition undefined_failure (f : failure) : Prop :=
  f = Std undefined_behaviour ∨ ∃ code data, f = VmError code data ∧ ∀ d, json_hex data ≠ Ok d.
Lemma failed_answer ret f (v v' : Node (V := V)) r : json_assoc "result" ret = None → json_assoc "error" ret = None →
  failed what vm_what ret f v = (r, v') →
  v' = v ∧ match r with
    | Ret a => well_formed a ∧ ∀ k d, json_assoc k ret = Some d → json_field a k = Some d
    | Throw e => e = undefined_behaviour ∧ undefined_failure f
    end.
Proof.
  intros Hr He H.
  assert (Hshape : ∀ fields, error_object (JObject fields) →
    well_formed (JObject (ret ++ [("error", JObject fields)])) ∧
    ∀ k d, json_assoc k ret = Some d → json_field (JObject (ret ++ [("error", JObject fields)])) k = Some d).
  { intros fields Hf. split.
    - right. exists (JObject fields). cbn [json_field]. rewrite !json_assoc_app, Hr, He. done.
    - intros k d Hk. cbn [json_field]. by rewrite json_assoc_app, Hk. }
  destruct f as [code message|code data|[]]; cbn [failed] in H; try destruct (json_hex data) eqn:Eh; injection H as <- <-; (split; [done|]);
    try (apply Hshape; eexists _, _; done); (split; [done|]); [right; exists code, data; by rewrite Eh|by left].
Qed.

Lemma spec_failure request f : checkJsonRPCSpec request = Fail f → ∃ why, f = Std (DynamicException why).
Proof.
  unfold checkJsonRPCSpec. intros H. repeat (case_match; try discriminate); injection H as <-; by eexists.
Qed.

(** A method that is not in the list is refused, and changes nothing. *)
Lemma unknown_method method request (v : Node (V := V)) :
  method ∉ (λ e : string * Handler (V := V), text e.1) <$> methods thr o rows left_to_right order fuel seed other_method →
  run_method method request v = (Fail (methodNotAvailable method), v).
Proof.
  intros Hm. unfold Rpc.run_method. destruct (list_find _ _) as [[i e]|] eqn:E; [|done].
  apply list_find_Some in E as (Hi & Hn & _). exfalso. apply Hm. subst method.
  apply (list_elem_of_fmap_2 (λ e : string * Handler (V := V), text e.1)). by eapply list_elem_of_lookup_2.
Qed.

(** The answer to a request whose envelope is right. *)
Lemma call_run request id method (v : Node (V := V)) : checkJsonRPCSpec request = Ok () → json_field request "id" = Some id →
  valid_id id = true → json_field request "method" = Some (JString method) →
  call request v =
    let ret := [("jsonrpc", JString (text "2.0")); ("id", id)] in
    match run_method method request v with
    | (Ok result, v') => (Ret (JObject (ret ++ [("result", result)])), v')
    | (Fail f, v') => failed what vm_what ret f v'
    end.
Proof. intros Hs Hi Hv Hm. unfold Rpc.call. by rewrite Hs, Hi, Hv, Hm. Qed.

(** An answer carries the version, and the identifier of the request, when the
    envelope of the request is right. *)
Definition identified (request a : json) : Prop :=
  checkJsonRPCSpec request = Ok () → json_field a "jsonrpc" = Some (JString (text "2.0")) ∧
    ∃ id, json_field request "id" = Some id ∧ (valid_id id = true → json_field a "id" = Some id).
Definition answers (request a : json) : Prop :=
  match request with
  | JArray requests => ∃ l, a = JArray l ∧ Forall2 (λ r x, well_formed x ∧ identified r x) requests l
  | _ => well_formed a ∧ identified request a
  end.
(** A request that runs into undefined behaviour: its identifier is absent, or its
    method fails so. *)
Definition undefined_request (request : json) : Prop :=
  checkJsonRPCSpec request = Ok () ∧
  (json_field request "id" = None ∨ ∃ method f (v v' : Node (V := V)),
    json_field request "method" = Some (JString method) ∧ run_method method request v = (Fail f, v') ∧ undefined_failure f).

Lemma call_answers (request : json) (v : Node (V := V)) :
  match (call request v).1 with
  | Ret a => well_formed a ∧ identified request a
  | Throw e => e = undefined_behaviour ∧ undefined_request request
  end.
Proof.
  unfold Rpc.call, identified, undefined_request. destruct (checkJsonRPCSpec request) as [[]|f] eqn:Es.
  2: { destruct (spec_failure _ _ Es) as [why ->]. split; [|done].
    exact (proj1 (proj2 (failed_answer [] (Std (DynamicException why)) v v (Ret _) eq_refl eq_refl eq_refl))). }
  destruct (json_field request "id") as [id|]; [|by split_and!; auto].
  set (undef := ∃ method f (v v' : Node (V := V)), json_field request "method" = Some (JString method) ∧
    run_method method request v = (Fail f, v') ∧ undefined_failure f).
  assert (Hfail : ∀ ret f (v' : Node (V := V)), json_assoc "result" ret = None → json_assoc "error" ret = None →
    json_assoc "jsonrpc" ret = Some (JString (text "2.0")) → (valid_id id = true → json_assoc "id" ret = Some id) →
    (undefined_failure f → undef) →
    match (failed what vm_what ret f v').1 with
    | Ret a => well_formed a ∧ (Ok () = Ok () → json_field a "jsonrpc" = Some (JString (text "2.0")) ∧
        ∃ id', Some id = Some id' ∧ (valid_id id' = true → json_field a "id" = Some id'))
    | Throw e => e = undefined_behaviour ∧ Ok () = Ok () ∧ (Some id = None ∨ undef)
    end).
  { intros ret f v' H1 H2 H3 H4 H5. destruct (failed _ _ ret f v') as [[a|e] v''] eqn:Ef; cbn [fst].
    - destruct (failed_answer ret f v' v'' (Ret a) H1 H2 Ef) as [_ [Hw Hk]]. split; [done|]. intros _. split; [by apply Hk|].
      exists id. split; [done|]. intros Hv. by apply Hk, H4.
    - destruct (failed_answer ret f v' v'' (Throw e) H1 H2 Ef) as [_ [-> Hu]]. auto. }
  assert (Hstd : ∀ e, undefined_failure (Std e) → e ≠ undefined_behaviour → undef).
  { by intros e [[= ->]|(? & ? & ? & _)] ?. }
  destruct (valid_id id) eqn:Ev; cbn [negb]; [|apply Hfail; try done; intros Hu; by apply (Hstd _ Hu)].
  destruct (json_field request "method") as [[| | | | |method| |]|] eqn:Em;
    try (apply Hfail; try done; intros Hu; by apply (Hstd _ Hu)).
  destruct (run_method method request v) as [[result|f] v'] eqn:Er; [|apply Hfail; try done; by exists method, f, v, v'].
  cbn [fst]. split; [left; by exists result|]. intros _. split; [done|]. exists id. split; [done|]. by intros _.
Qed.

(** The answers to a batch. *)
Lemma call_all_answers (requests : list json) : ∀ v,
  match (call_all requests v).1 with
  | Ret l => Forall2 (λ r x, well_formed x ∧ identified r x) requests l
  | Throw e => e = undefined_behaviour ∧ ∃ r, r ∈ requests ∧ undefined_request r
  end.
Proof.
  induction requests as [|r rs IH]; intros v; cbn [Rpc.call_all]; [constructor|].
  unfold mbind, M_bind. pose proof (call_answers r v) as Hr. destruct (call r v) as [[a|e] v1]; cbn [fst] in Hr.
  - specialize (IH v1). destruct (Rpc.call_all _ _ _ _ _ _ _ _ _ _ rs v1) as [[l|e] v2]; cbn [fst] in *.
    + by constructor.
    + destruct IH as (-> & r' & Hin & Hu). split; [done|]. exists r'. split; [by right|done].
  - destruct Hr as [-> Hu]. split; [done|]. exists r. split; [by left|done].
Qed.

(** C28: every request to the JSON-RPC interface is answered, up to the text of
    the answer.  A body that is not JSON is answered with an error object; a
    request with a result or with an error object that has a code and a message,
    never with both, under its own identifier when its envelope and identifier are
    right; a batch request by request, in order.  An unknown method is answered
    with code -32601 and leaves the node as it is.  There are two exceptions:
    undefined behaviour, in a method or at a request without an identifier, which
    is read although it is absent; and an answer with a string that is not UTF-8
    (the reason of a failed call may be one), which [dump] refuses outside the
    [try]. *)
Theorem rpc_always_answers {JT : JsonText} (body : list ascii) (v : Node (V := V)) :
  let answer a := match json_parse body with
    | Ret request => answers request a
    | Throw e => ∃ err, json_field a "error" = Some err ∧ error_object err
    end in
  match (parseJsonRpcRequest body v).1 with
  | Ret s => ∃ a, json_dump a = Ret s ∧ answer a
  | Throw e =>
      (∃ a, json_dump a = Throw e ∧ answer a ∧ utf8_json a = false) ∨
      (e = undefined_behaviour ∧ ∃ request, json_parse body = Ret request ∧
        (undefined_request request ∨ ∃ l r, request = JArray l ∧ r ∈ l ∧ undefined_request r))
  end ∧
  (∀ request, checkJsonRPCSpec request = Ok () → json_field request "id" = None → call request v = (Throw undefined_behaviour, v)) ∧
  (∀ request method id, json_field request "method" = Some (JString method) →
    method ∉ (λ e : string * Handler (V := V), text e.1) <$> methods thr o rows left_to_right order fuel seed other_method →
    checkJsonRPCSpec request = Ok () → json_field request "id" = Some id → valid_id id = true →
    ∃ a err, call request v = (Ret a, v) ∧ json_field a "error" = Some err ∧ json_field err "code" = Some (JInt (-32601))).
Proof.
  intros answer. split; [|split].
  - assert (Hdump : ∀ a, answer a → match json_dump a with
      | Ret s => ∃ a, json_dump a = Ret s ∧ answer a
      | Throw e => (∃ a, json_dump a = Throw e ∧ answer a ∧ utf8_json a = false) ∨
          (e = undefined_behaviour ∧ ∃ request, json_parse body = Ret request ∧
            (undefined_request request ∨ ∃ l r, request = JArray l ∧ r ∈ l ∧ undefined_request r))
      end).
    { intros a Ha. destruct (utf8_json a) eqn:Eu.
      - destruct (json_dump_utf8 a Eu) as [s E]. rewrite E. eauto.
      - destruct (json_dump_throws a Eu) as (e & E & _). rewrite E. eauto. }
    unfold Rpc.parseJsonRpcRequest. unfold mbind, M_bind, lift. subst answer.
    destruct (json_parse body) as [request|e] eqn:Ep.
    + assert (Hreq : match (answer_request request v).1 with
        | Ret a => answers request a
        | Throw e => e = undefined_behaviour ∧
            (undefined_request request ∨ ∃ l r, request = JArray l ∧ r ∈ l ∧ undefined_request r)
        end).
      { pose proof (call_answers request v) as Hone. unfold Rpc.answer_request. destruct request as [| | | | | |l|fields].
        7: { pose proof (call_all_answers l v) as Hc. unfold mbind, M_bind.
          destruct (call_all l v) as [[a|e] v1]; cbn in *; [eauto|]. destruct Hc as (-> & r & Hin & Hu). split; [done|]. right. eauto. }
        all: destruct (call _ v) as [[a|e1] v1]; cbn [fst answers] in *; [exact Hone|destruct Hone; auto]. }
      destruct (answer_request request v) as [[a|e] v1]; cbn [fst] in Hreq.
      * by apply Hdump.
      * destruct Hreq as [-> Hu]. right. split; [done|]. eauto.
    + pose proof (json_parse_throws body e Ep) as Hne. destruct e; try done;
        (apply Hdump; eexists; split; [reflexivity|]; eexists _, _; done).
  - intros request Hs Hi. unfold Rpc.call. by rewrite Hs, Hi.
  - intros request method id Hm Hu Hs Hi Hv. rewrite (call_run request id method v Hs Hi Hv Hm), (unknown_method method request v Hu).
    by eexists _, _.
Qed.
End shape.

(** ** A transaction sent by a client *)

(** The session of every registered node is an object with a type. *)
Definition sessions_typed (m : ManagerBase) : Prop :=
  ∀ n sid, sessions_ m !! n = Some sid → ∃ s, session_objects m !! sid = Some s ∧ is_Some (type_ s).

Section send.
Context {BI : BoostInt} {BB : BoostBits} {AC : AbiCasts} {EC : Secp256k1} {R : RocksDB} {SO : SqlOrder} {WK : Walk}.
Context {V T : Type} {SV : SafeVar V T} {VO : VarOps V T} {EX : Externals}.

(** Sessions keep their types and are given more messages only. *)
Definition delivers (m m' : ManagerBase) : Prop :=
  ∀ sid s, session_objects m !! sid = Some s → ∃ s', session_objects m' !! sid = Some s' ∧
    type_ s' = type_ s ∧ doneHandshake_ s' = doneHandshake_ s ∧ written_ s ⊆ written_ s'.
#[local] Instance delivers_preorder : PreOrder delivers.
Proof.
  split; [intros m sid s Hs; exists s; by split_and!|]. intros m1 m2 m3 H12 H23 sid s Hs.
  destruct (H12 sid s Hs) as (s2 & Hs2 & E1 & E2 & Hw). destruct (H23 sid s2 Hs2) as (s3 & Hs3 & E3 & E4 & Hw').
  exists s3. split_and!; [done|congruence..|by etrans].
Qed.

(** What one session of the loop is given. *)
Lemma send_one message (e : NodeID * nat) c (v : Node (V := V)) s ty : session_objects (n_manager v) !! e.2 = Some s → type_ s = Some ty →
  ∃ v1, (s ← in_manager (session_at e.2); type ← lift (hostType s);
    if (type =? NORMAL_NODE) && negb (bool_decide (e.1 ∈ excluded None c)) then in_manager (write e.2 message) ;; mret () else mret ()) v
    = (Ret (), v1) ∧ delivers (n_manager v) (n_manager v1) ∧
  (ty = NORMAL_NODE → doneHandshake_ s = true → ∃ s', session_objects (n_manager v1) !! e.2 = Some s' ∧ message ∈ written_ s').
Proof.
  intros Hs Ht. erewrite (bind_run (in_manager (session_at e.2))) by (unfold in_manager, zoom; by rewrite (session_at_run _ _ _ Hs)).
  unfold hostType. rewrite Ht. erewrite bind_run by reflexivity. cbn [excluded]. rewrite bool_decide_false by apply not_elem_of_nil.
  rewrite andb_true_r. assert (Ev : with_manager (n_manager v) v = v) by by destruct v. rewrite Ev.
  destruct (Z.eqb_spec ty NORMAL_NODE) as [->|Hne]; [|exists v; split_and!; [done|reflexivity|done]].
  assert (Hw : write e.2 message (n_manager v) = (Ret (doneHandshake_ s),
    if doneHandshake_ s then with_objects (alter (add_written message) e.2) (n_manager v) else n_manager v)).
  { unfold write. erewrite bind_run by by apply session_at_run. by destruct (doneHandshake_ s). }
  erewrite bind_run by (unfold in_manager, zoom; by rewrite Hw). eexists. split; [done|]. cbn [n_manager with_manager].
  destruct (doneHandshake_ s); [|split; [reflexivity|done]]. split.
  - intros sid x Hx. cbn. destruct (decide (e.2 = sid)) as [<-|Hne].
    + rewrite Hs in Hx. injection Hx as ->. exists (add_written message x). rewrite list_lookup_alter_eq, Hs. split_and!; try done. cbn. set_solver.
    + exists x. by rewrite list_lookup_alter_ne.
  - intros _ _. exists (add_written message s). cbn. rewrite list_lookup_alter_eq, Hs. split; [done|]. set_solver.
Qed.

(** Every normal node that shook hands is given the message. *)
Lemma sendMessageToAll_reaches message (v : Node (V := V)) : sessions_typed (n_manager v) →
  ∃ v1, sendMessageToAll message None v = (Ret (), v1) ∧
  ∀ n sid s, sessions_ (n_manager v) !! n = Some sid → session_objects (n_manager v) !! sid = Some s → type_ s = Some NORMAL_NODE →
    doneHandshake_ s = true → ∃ s', session_objects (n_manager v1) !! sid = Some s' ∧ message ∈ written_ s'.
Proof.
  intros Ht. unfold sendMessageToAll. erewrite bind_run by reflexivity. set (f := λ e : NodeID * nat, _).
  assert (Hl : ∀ l (w : Node (V := V)), (∀ e, e ∈ l → ∃ s, session_objects (n_manager w) !! e.2 = Some s ∧ is_Some (type_ s)) →
    ∃ w1, for_each f l w = (Ret (), w1) ∧ delivers (n_manager w) (n_manager w1) ∧ ∀ e s, e ∈ l →
      session_objects (n_manager w) !! e.2 = Some s → type_ s = Some NORMAL_NODE → doneHandshake_ s = true →
      ∃ s', session_objects (n_manager w1) !! e.2 = Some s' ∧ message ∈ written_ s').
  { induction l as [|e l IH]; intros w Hw; [exists w; split_and!; [done|reflexivity|intros ?? []%elem_of_nil]|].
    destruct (Hw e) as (s & Hs & [ty Hty]); [left|]. destruct (send_one message e (n_conns v) w s ty Hs Hty) as (w1 & E & Hd & Hm).
    destruct (IH w1) as (w2 & E2 & Hd2 & Hm2).
    { intros e' He'. destruct (Hw e') as (x & Hx & Htx); [by right|]. destruct (Hd _ _ Hx) as (x' & Hx' & Ex & _). exists x'. by rewrite Ex. }
    exists w2. cbn [for_each]. split_and!; [by erewrite bind_run by exact E|by etrans|].
    intros e' x [->|He']%elem_of_cons Hx Hn Hh.
    - rewrite Hs in Hx. injection Hx as <-. rewrite Hty in Hn. injection Hn as ->. destruct (Hm eq_refl Hh) as (s1 & Hs1 & Hin).
      destruct (Hd2 _ _ Hs1) as (s2 & Hs2 & _ & _ & Hsub). exists s2. split; [done|]. by apply Hsub.
    - destruct (Hd _ _ Hx) as (x' & Hx' & Ex & Eh & _). apply (Hm2 e' x' He' Hx'); congruence. }
  destruct (Hl (walk (sessions_ (n_manager v))) v) as (v1 & E & _ & Hm).
  { intros [n sid] He%elem_of_walk. apply (Ht n sid He). }
  exists v1. split; [done|]. intros n sid s Hn. apply (Hm (n, sid)). by apply elem_of_walk.
Qed.

(** The mempool after a transaction was let in. *)
Lemma valid_entered tx (s s1 : State (V := V)) st : addTx tx s = (Ret st, s1) → isTxStatusValid st = true →
  ∃ t, mempool_ s1 !! tx_hash tx = Some t ∧ (mempool_ s !! tx_hash tx = None → t = tx).
Proof.
  intros H Hv. unfold addTx in H. apply bind_Ret in H as (s' & ? & [= <- <-] & H). apply bind_Ret in H as (st' & ? & Hl & H).
  unfold lift in Hl. injection Hl as Hl <-. unfold validateTransactionInternal, id in Hl.
  destruct (mempool_ s !! tx_hash tx) as [t|] eqn:Em.
  - injection Hl as <-. cbn in H. injection H as <- <-. by exists t.
  - destruct (decide (st' ≠ ValidNew)) as [Hn|Hn].
    + injection H as -> <-. exfalso. destruct (accounts_ _ !! _); [|by injection Hl as <-]. apply outcome_bind_Ret in Hl as (need & _ & Hl).
      destruct (_ <? _); [by injection Hl as <-|]. destruct (negb _); by injection Hl as <-.
    + erewrite bind_run in H by reflexivity. injection H as <- <-. exists tx. cbn. rewrite Em. by rewrite lookup_insert_eq.
Qed.

Context (thr : nat) (o : Options).

(** C27: a valid transaction that a client sends is answered with its hash, is in
    the mempool from then on, is given to every normal peer that shook hands, and
    is found when the client asks for the hash it was answered, on a node that
    indexes transactions.  Every registered session has shaken hands, so that its
    type is set ([sessions_typed]). *)
Theorem sent_transaction_found (request d : json) (bytes message : list Z) (tx : TxBlock) (st : TxStatus) (s1 : State (V := V)) (v : Node (V := V)) :
  json_field request "params" = Some (JArray [d]) → parse_Bytes d = Ok bytes → TxBlock_fromBytes bytes = Ret tx →
  addTx tx (n_state v) = (Ret st, s1) → isTxStatusValid st = true →
  broadcastTx tx = Ret message → sessions_typed (n_manager v) →
  ∃ h t v1, eth_sendRawTransaction request v = (Ok h, v1) ∧ hash_json (tx_hash tx) = Ok h ∧
    n_state v1 = s1 ∧ n_storage v1 = n_storage v ∧
    mempool_ s1 !! tx_hash tx = Some t ∧ (mempool_ (n_state v) !! tx_hash tx = None → t = tx) ∧
    (∀ n sid s, sessions_ (n_manager v) !! n = Some sid → session_objects (n_manager v) !! sid = Some s → type_ s = Some NORMAL_NODE →
       doneHandshake_ s = true → ∃ s', session_objects (n_manager v1) !! sid = Some s' ∧ message ∈ written_ s') ∧
    (o_indexingMode o ≠ DISABLED → ∀ request', json_field request' "params" = Some (JArray [h]) →
       eth_getTransactionByHash o request' v1 = getEIP1559TransactionJson t None None None).
Proof.
  intros Hp Hd Htx Ha Hv Hb Ht. destruct (valid_entered tx _ _ st Ha Hv) as (t & Hin & Hnew).
  assert (Hr : in_range 256 (tx_hash tx)).
  { destruct bytes as [|ty txData]; [done|]. cbn in Htx. destruct (negb _); [done|]. apply outcome_bind_Ret in Htx as (tx0 & _ & H).
    unfold TxBlock_seal in H. destruct (negb _); [done|]. destruct (_ =? 0); [done|]. injection H as <-. apply keccak256_range. }
  destruct (hash_written _ Hr) as (h & Eh & Ph). destruct (sendMessageToAll_reaches message (with_n_state s1 v) Ht) as (v1 & Es & Hs).
  destruct (sends_all message None (with_n_state s1 v)) as (E1 & E2 & _). rewrite Es in E1, E2. cbn [snd n_state n_storage with_n_state] in E1, E2.
  exists h, t, v1. split_and!; [|done..|].
  - unfold eth_sendRawTransaction, reply_run, parseAllParams, parseAll1. rewrite Hp. cbn [range1]. rewrite Hd, Htx. cbn [std].
    unfold std_run at 1. unfold in_state, zoom. rewrite Ha, Hv. unfold hash_json. rewrite Eh. unfold std_run, lift, mbind, M_bind.
    rewrite Hb. by rewrite Es.
  - intros Hi request' Hq. unfold eth_getTransactionByHash, requiresIndexing. rewrite decide_False by done. cbn [mbind reply_bind].
    unfold parseAllParams, parseAll1. rewrite Hq. cbn [range1]. rewrite Ph. cbn [mbind reply_bind]. unfold getTxFromMempool. by rewrite E1, Hin.
Qed.
End send.

(** ** The chain as a client sees it *)

Definition asked (params : list json) (request : json) : Prop := json_field request "params" = Some (JArray params).

(** A number of 64 bits is read back, also as a block number. *)
Lemma number_read {BI : BoostInt} {BB : BoostBits} n : in_range 64 n →
  ∃ q, json_quantity n = Ok q ∧ parse_uint64 q = Ok n ∧ parse_BlockTagOrNumber q = Ok (inl n).
Proof.
  intros Hn. destruct (json_quantity_eq n) as (ds & Ew & Hd & Hne & Hl & Hz & Hv); [unfold in_range in Hn; lia|].
  destruct (parse_number ds Hd Hne Hl Hz) as [_ H]. rewrite Hv in H. specialize (H Hn). eexists. split_and!; [done|done|].
  unfold parse_BlockTagOrNumber, parse_variant. by rewrite H.
Qed.

Section chain_queries.
Context {BI : BoostInt} {BB : BoostBits} {AC : AbiCasts} {EC : Secp256k1} {R : RocksDB} {SO : SqlOrder} {WK : Walk}.
Context {V T : Type} {SV : SafeVar V T} {VO : VarOps V T} {EX : Externals}.
Context (thr : nat) (o : Options) (left_to_right : bool).

Lemma params1 {A} (p : json → reply A) request d a : asked [d] request → p d = Ok a → parseAllParams (parseAll1 p) request = Ok a.
Proof. unfold asked, parseAllParams. intros -> Hp. exact Hp. Qed.
Lemma params2 {A B} (p : json → reply A) (q : json → reply B) request d d' a b : asked [d; d'] request → p d = Ok a → q d' = Ok b →
  parseAllParams (parseAll2 left_to_right p q) request = Ok (a, b) ∧ parseAllParams (parseAll2_opt p q) request = Ok (a, Some b).
Proof.
  unfold asked, parseAllParams. intros -> Hp Hq. cbn [parseAll2 parseAll2_opt range2 range2_opt range1]. rewrite Hp, Hq.
  split; [|done]. unfold both. by destruct left_to_right.
Qed.

(** C29: what a client is answered about the chain.  A block is found by its number
    and by its hash, with the same answer and the number of its transactions; a
    transaction is found by the hash or the number of its block and its place in
    it, and by its own hash when the node indexes transactions and it is not
    pending, again with the same answer; a number past the end gives null.  The
    storage serves a chain of readable blocks with distinct hashes ([chain_ok]). *)
Theorem rpc_chain_queries (bs : list FinalizedBlock) (v : Node (V := V)) :
  chain_ok bs → serves thr (bool_decide (o_indexingMode o ≠ DISABLED)) bs (n_storage v) →
  (∀ i b, bs !! i = Some b → ∃ q h, json_quantity (Z.of_nat i) = Ok q ∧ hash_json (hash_ b) = Ok h ∧
    (∀ r full, asked [q; JBool full] r → eth_getBlockByNumber thr r v = getBlockJson (Some (received b)) full) ∧
    (∀ r full, asked [h; JBool full] r → eth_getBlockByHash thr r v = getBlockJson (Some (received b)) full) ∧
    (∀ r, asked [q] r → eth_getBlockTransactionCountByNumber thr r v = json_quantity (Z.of_nat (length (txs_ b)))) ∧
    (∀ r, asked [h] r → eth_getBlockTransactionCountByHash thr r v = json_quantity (Z.of_nat (length (txs_ b)))) ∧
    ∀ j tx, txs_ b !! j = Some tx → in_range 64 (Z.of_nat j) → in_range 256 (tx_hash tx) →
      let answer := getEIP1559TransactionJson tx (Some (hash_ b)) (Some (Z.of_nat i)) (Some (Z.of_nat j)) in
      ∃ k t, json_quantity (Z.of_nat j) = Ok k ∧ hash_json (tx_hash tx) = Ok t ∧
        (∀ r, asked [h; k] r → eth_getTransactionByBlockHashAndIndex left_to_right r v = answer) ∧
        (∀ r, asked [q; k] r → eth_getTransactionByBlockNumberAndIndex left_to_right r v = answer) ∧
        (o_indexingMode o ≠ DISABLED → mempool_ (n_state v) !! tx_hash tx = None →
         ∀ r, asked [t] r → eth_getTransactionByHash o r v = answer)) ∧
  (∀ n, Z.of_nat (length bs) <= n < 2 ^ 64 → ∃ q, json_quantity n = Ok q ∧ ∀ r full, asked [q; JBool full] r → eth_getBlockByNumber thr r v = Ok JNull).
Proof.
  intros Hc (Hfound & Habsent & Htx). split.
  - intros i b Hi. destruct (chain_created bs Hc i b Hi) as [Cb Eb]. destruct (created_ranges b Cb) as [Rh Rn]. rewrite Eb in Rn.
    destruct (number_read _ Rn) as (q & Eq & _ & Pq). destruct (hash_written _ Rh) as (h & Eh & Ph).
    destruct (Hfound i b Hi) as (F1 & F2 & _). exists q, h. split_and!; [done|done| | | | |].
    + intros r full Ha. unfold eth_getBlockByNumber. rewrite (proj2 (params2 _ parse_bool r _ _ _ full Ha Pq eq_refl)). cbn. by rewrite F1.
    + intros r full Ha. unfold eth_getBlockByHash. rewrite (proj2 (params2 _ parse_bool r _ _ _ full Ha Ph eq_refl)). cbn. by rewrite F2.
    + intros r Ha. unfold eth_getBlockTransactionCountByNumber. rewrite (params1 _ r _ _ Ha Pq). cbn. by rewrite F1.
    + intros r Ha. unfold eth_getBlockTransactionCountByHash. rewrite (params1 _ r _ _ Ha Ph). cbn. by rewrite F2.
    + intros j tx Hj Rj Rt answer. destruct (number_read _ Rj) as (k & Ek & Pk & _). destruct (hash_written _ Rt) as (t & Et & Pt).
      destruct (number_read _ Rn) as (q' & Eq' & Pq' & _). assert (q' = q) as -> by congruence.
      destruct (Htx i b j tx Hi Hj) as (G1 & G2 & G3). exists k, t. split_and!; [done|done| | |].
      * intros r Ha. unfold eth_getTransactionByBlockHashAndIndex. rewrite (proj1 (params2 _ _ r _ _ _ _ Ha Ph Pk)). cbn. by rewrite G1.
      * intros r Ha. unfold eth_getTransactionByBlockNumberAndIndex. rewrite (proj1 (params2 _ _ r _ _ _ _ Ha Pq' Pk)). cbn. by rewrite G2.
      * intros Hon Hm r Ha. destruct G3 as [G3 _]; [by apply bool_decide_eq_true|]. unfold eth_getTransactionByHash, requiresIndexing.
        rewrite decide_False by done. cbn [mbind reply_bind]. rewrite (params1 _ r _ _ Ha Pt). cbn [mbind reply_bind]. unfold getTxFromMempool. by rewrite Hm, G3.
  - intros n Hn. assert (Rn : in_range 64 n) by (unfold in_range; lia). destruct (number_read _ Rn) as (q & Eq & _ & Pq).
    exists q. split; [done|]. intros r full Ha. destruct (Habsent n Rn) as [E _]; [lia|].
    unfold eth_getBlockByNumber. rewrite (proj2 (params2 _ parse_bool r _ _ _ full Ha Pq eq_refl)). cbn. by rewrite E.
Qed.
End chain_queries.

(** ** A node and its clients *)

Section demo.
#[local] Existing Instance boost_ref.
#[local] Existing Instance boost_bits_ref.
#[local] Existing Instance checked_casts.
#[local] Existing Instance demo.
#[local] Existing Instance demo_ec.
#[local] Existing Instance sorted_store.
#[local] Existing Instance merge_order.

(** The transactions of an unknown block are looked up, not answered with null. *)
Example unknown_block_query_undefined (v : Node (V := AnyVar)) : 
  eth_getTransactionByBlockHashAndIndex true (JObject [("params", JArray [JString (hex_text (be_bytes 32 7)); JUint 0])]) (with_storage (mkStorage Storage.demo_genesis empty_store) v) =
  Fail (Std undefined_behaviour).
Proof. vm_compute. reflexivity. Qed.

Definition demo_options : Options := mkOptions (text "bdk") (text "0.2.0") 8080 5 2000 10000 RPC.
Definition demo_call (request : json) (v : Node (V := AnyVar)) : outcome json * Node :=
  call 8 demo_options [] true true 2 7 (λ _ _ v, (Ok JNull, v)) (λ _, []) (λ _ _, []) request v.
Definition height_request : json :=
  JObject [("jsonrpc", JString (text "2.0")); ("id", JUint 7); ("method", JString (text "eth_blockNumber"))].
Definition anonymous_request : json := JObject [("jsonrpc", JString (text "2.0")); ("method", JString (text "eth_blockNumber"))].

Definition unknown_request : json :=
  JObject [("jsonrpc", JString (text "2.0")); ("id", JUint 8); ("method", JString (text "eth_mining"))].

(** A printer of answers, and a parser of the texts of two requests: as much of
    the JSON library as the example needs. *)
Definition quoted (s : list ascii) : list ascii := Ascii.ascii_of_nat 34 :: s ++ [Ascii.ascii_of_nat 34].
Definition separated (l : list (list ascii)) : list ascii :=
  match l with [] => [] | s :: l => foldl (λ t s, t ++ text "," ++ s) s l end.
Fixpoint demo_print (d : json) : list ascii :=
  match d with
  | JNull => text "null"
  | JBool b => text (if b then "true" else "false")
  | JInt z | JUint z => text (pretty z)
  | JFloat _ _ => text "0.0"
  | JString s => quoted s
  | JArray l => text "[" ++ separated (demo_print <$> l) ++ text "]"
  | JObject fields => text "{" ++ separated ((λ e : string * json, quoted (text e.1) ++ text ":" ++ demo_print e.2) <$> fields) ++ text "}"
  end.
Definition demo_parse (s : list ascii) : outcome json :=
  match find (λ d, bool_decide (demo_print d = s)) [height_request; JArray [unknown_request; JNull]] with
  | Some d => Ret d
  | None => Throw (runtime_error "parse_error")
  end.
#[local] Program Instance demo_text : JsonText := {|
  json_parse := demo_parse;
  json_dump d := if utf8_json d then Ret (demo_print d) else Throw (runtime_error "type_error") |}.
Next Obligation. intros s e. unfold demo_parse. by destruct (find _ _) as [d|]; intros [= <-]. Qed.
Next Obligation. intros d E. cbn. rewrite E. by eexists. Qed.
Next Obligation. intros d E. cbn. rewrite E. by eexists. Qed.
Definition demo_answer (body : list ascii) (v : Node (V := AnyVar)) : outcome (list ascii) * Node :=
  parseJsonRpcRequest 8 demo_options [] true true 2 7 (λ _ _ v, (Ok JNull, v)) (λ _, []) (λ _ _, []) body v.

Lemma rpc_always_answers_witness :
  (∃ s a, (demo_answer (demo_print height_request) demo_node).1 = Ret s ∧ json_dump a = Ret s ∧ answers height_request a) ∧
  (∃ s a a', (demo_answer (demo_print (JArray [unknown_request; JNull])) demo_node).1 = Ret s ∧ json_dump (JArray [a; a']) = Ret s ∧
    json_field a "id" = Some (JUint 8) ∧ well_formed a' ∧ json_field a "jsonrpc" = Some (JString (text "2.0"))) ∧
  demo_call anonymous_request demo_node = (Throw undefined_behaviour, demo_node) ∧
  ∃ a err, demo_call unknown_request demo_node = (Ret a, demo_node) ∧ json_field a "error" = Some err ∧
    json_field err "code" = Some (JInt (-32601)).
Proof.
  pose proof (λ body v, rpc_always_answers (V := AnyVar) 8 demo_options [] true true 2 7 (λ _ _ v, (Ok JNull, v)) (λ _, []) (λ _ _, []) body v) as H.
  split_and!.
  - destruct (H (demo_print height_request) demo_node) as [Ha _].
    assert (E : ∃ s, (demo_answer (demo_print height_request) demo_node).1 = Ret s) by (vm_compute; by eexists). destruct E as [s E]. unfold demo_answer in E. rewrite E in Ha.
    destruct Ha as (a & Hd & Hans). by exists s, a.
  - destruct (H (demo_print (JArray [unknown_request; JNull])) demo_node) as [Ha _].
    assert (E : ∃ s, (demo_answer (demo_print (JArray [unknown_request; JNull])) demo_node).1 = Ret s) by (vm_compute; by eexists). destruct E as [s E]. unfold demo_answer in E. rewrite E in Ha.
    destruct Ha as (a & Hd & l & -> & Hl). apply Forall2_cons_inv_l in Hl as (x & l1 & [_ Hx] & Hl & ->).
    apply Forall2_cons_inv_l in Hl as (y & l2 & [Hy _] & Hl & ->). apply Forall2_nil_inv_l in Hl as ->.
    destruct (Hx eq_refl) as (Hv & id & Hid & Hi). injection Hid as <-. exists s, x, y. split_and!; [done|done|by apply Hi|done|done].
  - exact (proj1 (proj2 (H [] demo_node)) anonymous_request eq_refl eq_refl).
  - refine (proj2 (proj2 (H [] demo_node)) unknown_request (text "eth_mining") (JUint 8) eq_refl _ eq_refl eq_refl eq_refl).
    vm_compute. intros Hin. repeat (apply elem_of_cons in Hin as [Hin|Hin]; [discriminate Hin|]). by apply elem_of_nil in Hin.
Defined.

(** The transaction of the missing block, sent by a client. *)
Definition demo_sent_tx : TxBlock := match txs_ Storage.demo_block with tx :: _ => tx | [] => mkTxBlock 0 0 [] 0 0 0 0 0 0 0 0 0 0 end.
Definition demo_param : json := JString (hex_text (TxBlock_rlpSerialize true demo_sent_tx)).
Definition send_request : json := JObject [("params", JArray [demo_param])].

Lemma sent_transaction_found_witness : ∃ h v1,
  eth_sendRawTransaction send_request demo_node = (Ok h, v1) ∧ hash_json (tx_hash demo_sent_tx) = Ok h ∧
  mempool_ (n_state v1) !! tx_hash demo_sent_tx = Some demo_sent_tx ∧
  (∃ s, session_objects (n_manager v1) !! 2%nat = Some s ∧ demo_message ∈ written_ s) ∧
  eth_getTransactionByHash demo_options (JObject [("params", JArray [h])]) v1 = getEIP1559TransactionJson demo_sent_tx None None None.
Proof.
  assert (Ha : (addTx demo_sent_tx (n_state demo_node)).1 = Ret ValidNew) by (vm_compute; reflexivity).
  assert (Hb : broadcastTx demo_sent_tx = Ret demo_message) by (vm_compute; reflexivity).
  assert (Hp : parse_Bytes demo_param = Ok (TxBlock_rlpSerialize true demo_sent_tx)) by (vm_compute; reflexivity).
  assert (Hr : TxBlock_fromBytes (TxBlock_rlpSerialize true demo_sent_tx) = Ret demo_sent_tx) by (vm_compute; reflexivity).
  assert (Hm : mempool_ (n_state demo_node) !! tx_hash demo_sent_tx = None) by (vm_compute; reflexivity).
  assert (Ht : sessions_typed (n_manager demo_node)).
  { intros n sid. cbn [demo_node n_manager sessions_]. rewrite !lookup_insert_Some, lookup_singleton_Some. intros [[_ <-]|[_ [[_ <-]|[_ [_ <-]]]]]; eexists; split; done. }
  destruct (sent_transaction_found demo_options send_request demo_param _ demo_message _ ValidNew _ demo_node eq_refl Hp Hr
    (eq_trans (surjective_pairing _) (f_equal2 pair Ha eq_refl)) eq_refl Hb Ht) as (h & t & v1 & E & Eh & Es & _ & Hin & Hnew & Hsent & Hfound).
  rewrite (Hnew Hm) in Hin, Hfound. exists h, v1. split_and!; [exact E|exact Eh|rewrite Es; exact Hin| |].
  - exact (Hsent p3 2%nat (open_session p3) eq_refl eq_refl eq_refl eq_refl).
  - apply Hfound; [discriminate|reflexivity].
Defined.

Lemma rpc_chain_queries_witness : ∃ q h,
  json_quantity 1 = Ok q ∧ hash_json (hash_ Storage.demo_block) = Ok h ∧
  eth_getBlockByNumber 8 (JObject [("params", JArray [q; JBool true])]) demo_node = getBlockJson (Some (received Storage.demo_block)) true ∧
  eth_getBlockByHash 8 (JObject [("params", JArray [h; JBool true])]) demo_node = getBlockJson (Some (received Storage.demo_block)) true ∧
  (∃ q2, json_quantity 2 = Ok q2 ∧ eth_getBlockByNumber 8 (JObject [("params", JArray [q2; JBool true])]) demo_node = Ok JNull) ∧
  ∃ k, json_quantity 0 = Ok k ∧ eth_getTransactionByBlockHashAndIndex true (JObject [("params", JArray [h; k])]) demo_node =
    getEIP1559TransactionJson demo_sent_tx (Some (hash_ Storage.demo_block)) (Some 1) (Some 0).
Proof.
  destruct (rpc_chain_queries 8 demo_options true [Storage.demo_genesis; Storage.demo_block] demo_node demo_chain_ok peer_serves) as [H Hn].
  destruct (H 1%nat Storage.demo_block eq_refl) as (q & h & Eq & Eh & H1 & H2 & _ & _ & H3).
  exists q, h. split_and!; [exact Eq|exact Eh|apply (H1 _ true); reflexivity|apply (H2 _ true); reflexivity| |].
  - destruct (Hn 2) as (q2 & Eq2 & Hq2); [cbn; lia|]. exists q2. split; [exact Eq2|]. apply (Hq2 _ true); reflexivity.
  - assert (Htx : txs_ Storage.demo_block !! 0%nat = Some demo_sent_tx) by (vm_compute; reflexivity).
    assert (Hb : ((0 <=? tx_hash demo_sent_tx) && (tx_hash demo_sent_tx <? 2 ^ 256)) = true) by (vm_compute; reflexivity).
    assert (Hr : in_range 256 (tx_hash demo_sent_tx)) by (apply andb_true_iff in Hb as [?%Z.leb_le ?%Z.ltb_lt]; by split).
    destruct (H3 0%nat demo_sent_tx Htx ltac:(clear; unfold in_range; lia) Hr) as (k & t & Ek & _ & G & _).
    exists k. split; [exact Ek|]. apply G; reflexivity.
Defined.
End demo.
